(* ===== verification/_CoqProject ===== *)
-Q . S2P
Prelude.v
Memory.v
Pmm.v
PageTable.v
Vmm.v
VmmSafety.v
VmmProgress.v
KernelPages.v
Stack.v
Kmalloc.v
TableTree.v
VmmSpace.v
VmmCow.v
VmmFork.v
VmmBoot.v
VmmInit.v
UserMem.v
Usercopy.v
Elf.v
CString.v
Ramfs.v
Pipe.v
Path.v
Ps2.v
Devfs.v
Block.v
FatNames.v
Fat.v
FatTable.v
FatData.v
FatDir.v
FatTree.v
Vfs.v
VfsRefs.v
VfsCorrect.v
VfsWake.v
Task.v
TaskSwitch.v
ProcessMem.v
ProcessSpace.v
ProcessCorrect.v
ProcessCalls.v
ProcessImage.v
Process.v
ProcessLife.v
