(* ===== verification/Prelude.v ===== *)
(** * ConeOS: verification library

    ConeOS is a small x86-64 kernel in C (sources under src/src) with a few
    user programs (src/userspace).  This library models the parts of the
    kernel that manage memory, tasks, files and processes as executable
    functions on explicit states, and proves what they promise.

    ** The program and its model

    Bottom up, with the file of the library and the source it models:

    - machine integers, arrays, bounded loops (this file);
      [Memory]: byte memory and src/lib/memory.c; [CString]: C strings;
    - [Pmm]: the page allocator of mm/pmm.c, a bitmap and reference counts;
    - [PageTable], [Vmm]: map, unmap, query and copy-on-write resolution of
      mm/vmm.c on page tables that lie in the byte memory; [VmmSafety],
      [VmmProgress]: their guarantees; [TableTree], [VmmSpace], [VmmCow],
      [VmmFork], [VmmBoot], [VmmInit]: the recursive walks of mm/vmm.c that
      protect the boot mappings, create, clone and destroy spaces;
    - [KernelPages], [Stack], [Kmalloc]: the runs of fresh pages, the guarded
      stacks of mm/stack.c and the heap of mm/kmalloc.c;
    - [UserMem], [Usercopy]: the bytes a process sees and mm/usercopy.c;
    - [Elf]: the loader of kernel/elf.c;
    - [Ramfs], [Pipe], [Path], [Devfs], [Ps2], [Vfs], [VfsRefs],
      [VfsCorrect], [VfsWake]: fs/ramfs.c, fs/vfs.c (pipes, paths and mounts,
      descriptors and dispatch), fs/devfs.c and the keyboard of drivers/ps2.c;
    - [Block]: the requests of drivers/block.c; [FatNames], [Fat]: every
      function of fs/fat32.c over a block device; [FatTable], [FatData],
      [FatDir], [FatTree]: the theory of the table, of the bytes of files, of
      directories and of whole volumes;
    - [Task], [TaskSwitch]: the scheduler of kernel/task.c and its context
      switch;
    - [ProcessMem], [ProcessSpace], [ProcessCorrect], [ProcessCalls]: break,
      mappings and page faults of kernel/process.c; [ProcessImage]: the image
      of a new process; [Process], [ProcessLife]: spawn, fork, exec, exit,
      waitpid and the working directory.

    A component calls another one either directly, when the caller's property
    needs the callee's state (process calls on page tables on the page
    allocator), or through a class that states what it relies on and that the
    other component is an instance of: [PageSupply] (the heap and the stacks
    from the page tables), [Allocator] (the ramfs from the heap),
    [TaskResources] (the scheduler from heap, stacks and spaces),
    [BlockDevice] (FAT from the block driver) and [VirtioBlk] (the driver from
    the device).  File systems reach the virtual file system as records of
    operations, as in the source.

    ** How the code is translated

    An unsigned integer of the source is a [Z] kept in the range of its type;
    an operation that can leave the range is followed by the wrap of the type
    ([u8] ... [u64], and the notations [+!], [-!], [*!], [<<!] of [c_scope]).
    Arrays are lists with [aget] and [aset]; a pointer that may be NULL is an
    option or the address 0.  State is passed explicitly; functions with
    errors return options, sums or the integer of the source.  A section
    under a lock or with interrupts off is one step; a call that blocks is a
    sequence of such steps with other calls in between.  Loops are recursive
    functions on their trip count ([for_up], [count_up], [find_up], [trips]) or
    have fuel.

    ** What the theorems show

    - Memory: the allocator refines a map of page states under every sequence
      of calls, counts and bitmap agreeing (C1, C2); a user space never gets a
      page that is writable and executable or outside the user half, and
      mapping, unmapping and copy-on-write resolution change exactly one
      translation (C3 to C6); after boot only the kernel text is executable
      and it is not writable (C7); a fork shares frames that neither side can
      write (C8).
    - Processes: user copies and the loader touch exactly the range they are
      given (C9 to C11); break, mappings and page faults do to the address
      space what they promise and never reach a byte of another process (C12,
      C13), but for the case C17; the image of a new process is
      complete (C14); the process table implements a map of processes under
      every interleaving of the calls and keeps its type (C15, C16).
    - Kernel memory and tasks: the heap hands out disjoint extents (C18), stacks
      have guard pages (C19), memmove copies (C20); a ready task runs after at
      most one round (C21), the task list keeps its invariant (C22), a decision
      takes the next ready task (C23) and a switch restores what it saved (C24).
    - Files: reference counts are exact (C25), no wake-up of a pipe is lost
      (C26), fork of descriptors is all or nothing (C27), a file written through
      a descriptor is read back (C28); the ramfs refines a map (C29) and lists
      it (C30); a FAT file written by its path is read back with every other
      file untouched (C31), a created name is found (C32), a directory is
      listed (C33), long names come back (C34); C35 is a defect; a block
      request reaches its sector (C36); pipes deliver in order and their
      writes end (C37, C38); paths are normalised (C39) and keys arrive in
      order (C40).

    Defects of the code that the models show are theorems as well (C17, C35,
    the exception in C36, and in [Kmalloc], [Ramfs], [Path] and [FatNames]
    beside the properties).

    ** Bounds and fuel

    Loops of the source that have a bound use it: 512 entries of a table, 16
    processes, 32 clusters of a file, 65536 clusters of a directory.  Walks of
    page tables go down by level.  Page-wise copies have one unit of fuel per
    page their range can touch.  [kmalloc] takes at most three rounds.  The
    loop that frees a chain of clusters runs at most once per cluster number,
    and [chain_length] shows that no chain is longer.  The search for mapping
    addresses has a step per address, since each step raises the candidate, and
    the tokenizer of spawn a step per character.  FAT
    theorems about whole volumes are for devices that serve every request for
    their sectors ([ReliableDevice]).

    ** Not modelled

    Privileged instructions and device registers: cpu/gdt.c, cpu/idt.c,
    cpu/irq.c, cpu/exceptions.c, cpu/protection.c, cpu/apic.c, cpu/smp.c,
    drivers/pic.c, pit.c, rtc.c, serial.c, pci.c and the set-up in
    drivers/block.c and drivers/ps2.c; their effect is what the hardware does
    with the values they write.  Tables of the firmware (firmware/acpi.c,
    madt.c) are read at addresses only the firmware knows.  Output:
    framebuffer.c, gfx, log.c.  cpu/syscall.c is a switch between an assembly
    stub and the calls modelled here, with console output in between;
    kernel/kernel.c, kernel/shell.c and fs/initramfs.c run the calls at boot
    and from the console.  Spinlocks are the atomic steps.  The programs under
    userspace run behind the system calls. *)

From stdpp Require Export base gmap list numbers fin_maps.
From Stdlib Require Export Lia.
From Stdlib Require Import Btauto.

Global Open Scope Z_scope.

(** ** Machine integers

    A C unsigned integer of width [w] is a [Z] kept in [0, 2^w); every
    operation of the source that can leave the range is followed by the wrap
    of its type. *)
Definition u8 (x : Z) : Z := x mod 2 ^ 8.
Definition u16 (x : Z) : Z := x mod 2 ^ 16.
Definition u32 (x : Z) : Z := x mod 2 ^ 32.
Definition u64 (x : Z) : Z := x mod 2 ^ 64.

Definition UINT64_MAX : Z := 2 ^ 64 - 1.
Definition UINT32_MAX : Z := 2 ^ 32 - 1.
Definition UINT16_MAX : Z := 2 ^ 16 - 1.

(** A value that fits a [uint64_t]. *)
Definition is_u64 (x : Z) : Prop := 0 <= x < 2 ^ 64.

(** [int64_t] reading of a 64-bit pattern. *)
Definition i64 (x : Z) : Z :=
  let y := u64 x in if y <? 2 ^ 63 then y else y - 2 ^ 64.

Declare Scope c_scope.
Delimit Scope c_scope with C.
Notation "x +! y" := (u64 (x + y)) (at level 50, left associativity) : c_scope.
Notation "x -! y" := (u64 (x - y)) (at level 50, left associativity) : c_scope.
Notation "x *! y" := (u64 (x * y)) (at level 40, left associativity) : c_scope.
Notation "x &! y" := (Z.land x y) (at level 40, left associativity) : c_scope.
Notation "x |! y" := (Z.lor x y) (at level 45, left associativity) : c_scope.
Notation "x >>! y" := (Z.shiftr x y) (at level 48, left associativity) : c_scope.
Notation "x <<! y" := (u64 (Z.shiftl x y)) (at level 48, left associativity) : c_scope.
Global Open Scope c_scope.

(** [~x] on a [uint64_t]. *)
Definition not64 (x : Z) : Z := 2 ^ 64 - 1 - x.

(** The C truth value of [x & flag]. *)
Definition has (x flag : Z) : bool := negb (Z.land x flag =? 0).

(** ** Tactics *)

Ltac bool_prop :=
  repeat match goal with
  | H : (_ && _) = true |- _ => apply andb_true_iff in H; destruct H
  | H : (_ || _) = false |- _ => apply orb_false_iff in H; destruct H
  | H : negb _ = true |- _ => apply negb_true_iff in H
  | H : negb _ = false |- _ => apply negb_false_iff in H
  | H : (_ =? _) = true |- _ => apply Z.eqb_eq in H
  | H : (_ =? _) = false |- _ => apply Z.eqb_neq in H
  | H : (_ <? _) = true |- _ => apply Z.ltb_lt in H
  | H : (_ <? _) = false |- _ => apply Z.ltb_ge in H
  | H : (_ <=? _) = true |- _ => apply Z.leb_le in H
  | H : (_ <=? _) = false |- _ => apply Z.leb_gt in H
  end.

(** Case analysis on every test of the goal, with the tests turned into
    propositions. *)
Ltac cases :=
  repeat (case_match; bool_prop; simplify_eq/=; try done).

(** ** Wrapping *)

Lemma u64_range x : is_u64 (u64 x).
Proof. unfold is_u64, u64. apply Z.mod_pos_bound. lia. Qed.

Lemma u64_small x : is_u64 x -> u64 x = x.
Proof. unfold is_u64, u64. intros. apply Z.mod_small. lia. Qed.

Lemma u16_small x : 0 <= x < 2 ^ 16 -> u16 x = x.
Proof. unfold u16. intros. apply Z.mod_small. lia. Qed.

Lemma u8_small x : 0 <= x < 2 ^ 8 -> u8 x = x.
Proof. unfold u8. intros. apply Z.mod_small. lia. Qed.

Lemma u32_small x : 0 <= x < 2 ^ 32 -> u32 x = x.
Proof. unfold u32. intros. apply Z.mod_small. lia. Qed.

Ltac u64_simpl :=
  repeat match goal with
  | |- context [u64 ?x] => rewrite (u64_small x) by (unfold is_u64 in *; lia)
  end.
Ltac u64_simpl_in H :=
  repeat match type of H with
  | context [u64 ?x] => rewrite (u64_small x) in H by (unfold is_u64 in *; lia)
  end.

(** ** Bits *)

Lemma testbit_pow2 k i : 0 <= k -> Z.testbit (2 ^ k) i = bool_decide (i = k).
Proof.
  intros Hk. rewrite Z.pow2_bits_eqb by lia.
  destruct (Z.eqb_spec k i), (bool_decide_reflect (i = k)); congruence.
Qed.

Lemma has_pow2 x k : 0 <= k -> has x (2 ^ k) = Z.testbit x k.
Proof.
  intros Hk. unfold has.
  destruct (Z.testbit x k) eqn:E.
  - apply negb_true_iff, Z.eqb_neq. intros H0.
    assert (Hb : Z.testbit (Z.land x (2 ^ k)) k = true).
    { rewrite Z.land_spec, E, testbit_pow2 by lia. by rewrite bool_decide_true. }
    by rewrite H0, Z.bits_0 in Hb.
  - apply negb_false_iff, Z.eqb_eq. apply Z.bits_inj_0. intros i.
    rewrite Z.land_spec, testbit_pow2 by lia.
    case_bool_decide; subst; [by rewrite E | apply andb_false_r].
Qed.

Lemma testbit_u64_high x i : is_u64 x -> 64 <= i -> Z.testbit x i = false.
Proof.
  unfold is_u64. intros Hx Hi. destruct (decide (x = 0)) as [->|Hn]; [apply Z.bits_0|].
  apply Z.bits_above_log2; [lia|].
  apply Z.lt_le_trans with 64; [apply Z.log2_lt_pow2; lia | lia].
Qed.

Lemma not64_lnot x i : is_u64 x -> 0 <= i < 64 -> Z.testbit (not64 x) i = negb (Z.testbit x i).
Proof.
  unfold is_u64. intros Hx Hi. unfold not64.
  replace (2 ^ 64 - 1 - x) with (Z.lnot x + 1 * 2 ^ 64) by (pose proof (Z.add_lnot_diag x); lia).
  rewrite <- (Z.mod_pow2_bits_low _ 64) by lia.
  rewrite Z_mod_plus_full, Z.mod_pow2_bits_low by lia. apply Z.lnot_spec. lia.
Qed.

Lemma not64_range x : is_u64 x -> is_u64 (not64 x).
Proof. unfold is_u64, not64. lia. Qed.

Lemma testbit_not64 x i :
  is_u64 x -> 0 <= i -> Z.testbit (not64 x) i = (i <? 64) && negb (Z.testbit x i).
Proof.
  intros Hx Hi. destruct (Z.ltb_spec i 64).
  - rewrite not64_lnot by (done || lia). done.
  - apply testbit_u64_high; [by apply not64_range | lia].
Qed.

(** Bitwise operations stay inside 64 bits. *)
Lemma u64_of_bits x : 0 <= x -> (forall i, 64 <= i -> Z.testbit x i = false) -> is_u64 x.
Proof.
  intros H0 H. unfold is_u64. split; [done|].
  destruct (decide (x = 0)) as [->|]; [lia|].
  apply Z.log2_lt_pow2; [lia|].
  destruct (Z_lt_le_dec (Z.log2 x) 64); [done|].
  specialize (H (Z.log2 x) ltac:(lia)). rewrite Z.bit_log2 in H by lia. done.
Qed.

Lemma land_u64 x y : is_u64 x -> is_u64 (Z.land x y).
Proof.
  intros Hx. apply u64_of_bits.
  - apply Z.land_nonneg. left. unfold is_u64 in Hx. lia.
  - intros i Hi. rewrite Z.land_spec, testbit_u64_high by done. done.
Qed.

Lemma lor_u64 x y : is_u64 x -> is_u64 y -> is_u64 (Z.lor x y).
Proof.
  intros Hx Hy. apply u64_of_bits.
  - apply Z.lor_nonneg. unfold is_u64 in *. lia.
  - intros i Hi. rewrite Z.lor_spec, !testbit_u64_high by done. done.
Qed.

(** Rounding with a mask of low ones is rounding by arithmetic. *)
Lemma land_mask_down x k :
  0 <= k <= 64 -> is_u64 x -> Z.land x (not64 (2 ^ k - 1)) = x - x mod 2 ^ k.
Proof.
  intros Hk Hx. assert (0 < 2 ^ k <= 2 ^ 64).
  { split; [apply Z.pow_pos_nonneg; lia | apply Z.pow_le_mono_r; lia]. }
  replace (x - x mod 2 ^ k) with (Z.shiftl (Z.shiftr x k) k).
  2: { rewrite Z.shiftl_mul_pow2, Z.shiftr_div_pow2 by lia.
       pose proof (Z.div_mod x (2 ^ k)). lia. }
  apply Z.bits_inj'. intros i Hi.
  rewrite Z.land_spec, Z.shiftl_spec, testbit_not64 by (unfold is_u64; lia).
  replace (2 ^ k - 1) with (Z.ones k) by (rewrite Z.ones_equiv; lia).
  destruct (Z.ltb_spec i 64).
  - destruct (Z_lt_le_dec i k).
    + rewrite Z.ones_spec_low, (Z.testbit_neg_r _ (i - k)) by lia. btauto.
    + rewrite Z.ones_spec_high, Z.shiftr_spec by lia.
      replace (i - k + k) with i by lia. btauto.
  - destruct (Z_lt_le_dec i k); [lia|].
    rewrite Z.shiftr_spec by lia. replace (i - k + k) with i by lia.
    by rewrite (testbit_u64_high x) by (done || lia).
Qed.

Lemma land_mask_low x k : 0 <= k -> Z.land x (2 ^ k - 1) = x mod 2 ^ k.
Proof.
  intros. rewrite <- Z.land_ones by lia. by rewrite Z.ones_equiv.
Qed.

(** A test of one bit in a constant is decided by evaluation. *)
Ltac const_bits :=
  repeat match goal with
  | |- context [Z.testbit ?c ?k] =>
      tryif (match c with context [?x] => is_var x end) then fail else
      let b := eval vm_compute in (Z.testbit c k) in
      match b with
      | true => change (Z.testbit c k) with true
      | false => change (Z.testbit c k) with false
      end
  end.

(** The bits of an expression built with [|], [&] and constants. *)
Ltac bits := repeat first [rewrite Z.lor_spec | rewrite Z.land_spec]; const_bits;
  rewrite ?andb_true_r, ?andb_false_r, ?orb_false_r, ?orb_true_r, ?orb_false_l, ?andb_true_l.

Lemma testbit_aligned x k i : x mod 2 ^ k = 0 -> 0 <= i < k -> Z.testbit x i = false.
Proof. intros H Hi. by rewrite <- (Z.mod_pow2_bits_low x k i), H, Z.bits_0 by lia. Qed.

Lemma testbit_small x k i : 0 <= x < 2 ^ k -> k <= i -> Z.testbit x i = false.
Proof.
  intros Hx Hi. destruct (decide (x = 0)) as [->|]; [apply Z.bits_0|].
  destruct (Z_lt_le_dec k 0) as [Hk|Hk]; [rewrite Z.pow_neg_r in Hx by done; lia|].
  apply Z.bits_above_log2; [lia|]. apply Z.lt_le_trans with k; [apply Z.log2_lt_pow2; lia | done].
Qed.

(** The low [k] bits of a multiple of [2^k] carry flags without interfering. *)
Lemma aligned_of_bits x k : 0 <= k -> (forall i, 0 <= i < k -> Z.testbit x i = false) -> x mod 2 ^ k = 0.
Proof.
  intros Hk H. apply Z.bits_inj_0. intros i.
  destruct (Z_lt_le_dec i 0); [by apply Z.testbit_neg_r|].
  destruct (Z_lt_le_dec i k); [rewrite Z.mod_pow2_bits_low by lia; apply H; lia |].
  apply Z.mod_pow2_bits_high. lia.
Qed.

Lemma lor_disjoint_add a b k : 0 <= k -> a mod 2 ^ k = 0 -> 0 <= b < 2 ^ k -> Z.lor a b = a + b.
Proof.
  intros Hk Ha Hb. assert (E : Z.land a b = 0).
  { apply Z.bits_inj'. intros i Hi. rewrite Z.land_spec, Z.bits_0. destruct (Z.ltb_spec i k).
    - by rewrite (testbit_aligned a k) by done.
    - rewrite (testbit_small b k) by done. apply andb_false_r. }
  rewrite Z.add_nocarry_lxor by done. symmetry. by apply Z.lxor_lor.
Qed.

Lemma lor_shiftl_add a b k : 0 <= k -> 0 <= b < 2 ^ k -> Z.lor (Z.shiftl a k) b = a * 2 ^ k + b.
Proof. intros Hk Hb. rewrite Z.shiftl_mul_pow2 by done. apply (lor_disjoint_add _ _ k); [done | apply Z_mod_mult | done]. Qed.

(** ** Arrays

    A C array is a list; reads outside it give a default and writes outside
    it do nothing, and the components prove that their indices stay inside. *)
Definition aget {A} (d : A) (l : list A) (i : Z) : A := default d (l !! Z.to_nat i).
Definition aset {A} (l : list A) (i : Z) (x : A) : list A := <[Z.to_nat i := x]> l.
Definition alen {A} (l : list A) : Z := Z.of_nat (length l).

Lemma alen_nonneg {A} (l : list A) : 0 <= alen l.
Proof. unfold alen. lia. Qed.

Lemma alen_aset {A} (l : list A) i x : alen (aset l i x) = alen l.
Proof. unfold alen, aset. by rewrite length_insert. Qed.

Lemma aget_aset_eq {A} (d : A) l i x : 0 <= i < alen l -> aget d (aset l i x) i = x.
Proof.
  unfold alen, aget, aset. intros. rewrite list_lookup_insert_eq by lia. done.
Qed.

Lemma aget_aset_ne {A} (d : A) l i j x :
  0 <= i -> 0 <= j -> i <> j -> aget d (aset l i x) j = aget d l j.
Proof. unfold aget, aset. intros. rewrite list_lookup_insert_ne by lia. done. Qed.

Lemma aget_aset {A} (d : A) l i j x :
  0 <= i < alen l -> 0 <= j ->
  aget d (aset l i x) j = if decide (i = j) then x else aget d l j.
Proof.
  intros. case_decide; subst; [by apply aget_aset_eq | apply aget_aset_ne; lia].
Qed.

Lemma aget_lookup {A} (d : A) l i :
  0 <= i < alen l -> l !! Z.to_nat i = Some (aget d l i).
Proof.
  unfold alen, aget. intros.
  destruct (lookup_lt_is_Some_2 l (Z.to_nat i)) as [x Hx]; [lia|]. by rewrite Hx.
Qed.

Lemma Forall_aget {A} (P : A -> Prop) d (l : list A) i : Forall P l -> P d -> P (aget d l i).
Proof.
  intros HF Hd. unfold aget. destruct (l !! Z.to_nat i) eqn:E; [|done].
  simpl. eapply Forall_lookup_1; eauto.
Qed.

Lemma Forall_aset {A} (P : A -> Prop) (l : list A) i x : Forall P l -> P x -> Forall P (aset l i x).
Proof. intros. unfold aset. by apply Forall_insert. Qed.

Lemma NoDup_delete_elem {X} (l : list X) i x : NoDup l -> l !! i = Some x ->
  NoDup (delete i l) /\ forall d, d ∈ delete i l <-> d ∈ l /\ d <> x.
Proof.
  intros Hnd Hi. rewrite <- (take_drop_middle l i x Hi) in Hnd at 1. apply NoDup_app in Hnd as (H1 & H2 & H3).
  apply NoDup_cons in H3 as (Hx & H3). rewrite delete_take_drop. split.
  - apply NoDup_app. split_and!; [done | | done]. intros y Hy Hy'. apply (H2 y Hy). by right.
  - intros d. rewrite <- (take_drop_middle l i x Hi) at 3. rewrite !elem_of_app, elem_of_cons.
    assert (x ∉ take i l) by (intros Hin; apply (H2 x Hin); by left).
    split; [|tauto]. intros [Hd|Hd]; (split; [tauto | by intros ->]).
Qed.

(** ** Loops

    [find_up n i P] is the first [j] of [i, i + n) with [P j]: the loop
    [for (j = i; j < i + n; j++) if (P(j)) return j;]. *)
Fixpoint find_up (n : nat) (i : Z) (P : Z -> bool) : option Z :=
  match n with
  | O => None
  | S n => if P i then Some i else find_up n (i + 1) P
  end.

(** [for_up n i f s] folds [f] over [i, i + n). *)
Fixpoint for_up {S} (n : nat) (i : Z) (f : Z -> S -> S) (s : S) : S :=
  match n with
  | O => s
  | Datatypes.S n => for_up n (i + 1) f (f i s)
  end.

(** [for (j = lo; j < hi; j++)]. *)
Definition trips (lo hi : Z) : nat := Z.to_nat (hi - lo).

Lemma find_up_Some n i P j :
  find_up n i P = Some j ->
  i <= j < i + Z.of_nat n /\ P j = true /\ (forall k, i <= k < j -> P k = false).
Proof.
  revert i. induction n as [|n IH]; intros i H; simpl in H; [done|].
  destruct (P i) eqn:E; simplify_eq.
  - repeat split; [lia | lia | done | lia].
  - apply IH in H as (Hr & HP & Hbefore). repeat split; [lia | lia | done |].
    intros k Hk. destruct (decide (k = i)) as [->|]; [done|]. apply Hbefore. lia.
Qed.

Lemma find_up_ext n i P Q : (forall k, i <= k < i + Z.of_nat n -> P k = Q k) -> find_up n i P = find_up n i Q.
Proof.
  revert i. induction n as [|n IH]; intros i H; simpl; [done|]. rewrite H by lia. destruct (Q i); [done|]. apply IH. intros k Hk. apply H. lia.
Qed.

Lemma find_up_None n i P :
  find_up n i P = None <-> forall k, i <= k < i + Z.of_nat n -> P k = false.
Proof.
  revert i. induction n as [|n IH]; intros i; simpl.
  - split; [lia | done].
  - destruct (P i) eqn:E.
    + split; [done|]. intros H. rewrite (H i) in E by lia. done.
    + rewrite IH. split; intros H k Hk.
      * destruct (decide (k = i)) as [->|]; [done|]. apply H. lia.
      * apply H. lia.
Qed.

Lemma find_up_hit n i P k :
  i <= k < i + Z.of_nat n -> P k = true -> exists j, find_up n i P = Some j.
Proof.
  intros Hk HP. destruct (find_up n i P) eqn:E; [eauto|].
  rewrite find_up_None in E. rewrite E in HP by done. done.
Qed.

Lemma for_up_ind {S} (I : Z -> S -> Prop) (f : Z -> S -> S) n i s :
  I i s ->
  (forall j t, i <= j < i + Z.of_nat n -> I j t -> I (j + 1) (f j t)) ->
  I (i + Z.of_nat n) (for_up n i f s).
Proof.
  revert i s. induction n as [|n IH]; intros i s H0 Hstep; simpl.
  - by rewrite Z.add_0_r.
  - replace (i + Z.of_nat (Datatypes.S n)) with (i + 1 + Z.of_nat n) by lia.
    apply IH; [apply Hstep; [lia | done]|]. intros. apply Hstep; [lia | done].
Qed.

Lemma for_up_S {S} n i (f : Z -> S -> S) s :
  for_up (Datatypes.S n) i f s = f (i + Z.of_nat n) (for_up n i f s).
Proof.
  revert i s. induction n as [|n IH]; intros i s.
  - simpl. by rewrite Z.add_0_r.
  - change (for_up (Datatypes.S n) (i + 1) f (f i s) = f (i + Z.of_nat (Datatypes.S n)) (for_up n (i + 1) f (f i s))).
    rewrite IH. f_equal. lia.
Qed.

(** [sum_up n i f] adds [f j] for [j] in [i, i + n). *)
Fixpoint sum_up (n : nat) (i : Z) (f : Z -> Z) : Z :=
  match n with
  | O => 0
  | S n => f i + sum_up n (i + 1) f
  end.

Lemma sum_up_ext n i f g : (forall k, i <= k < i + Z.of_nat n -> f k = g k) -> sum_up n i f = sum_up n i g.
Proof.
  revert i. induction n as [|n IH]; intros i H; [done|]. cbn [sum_up]. rewrite (H i), (IH (i + 1)) by lia || (intros; apply H; lia). done.
Qed.

Lemma sum_up_snoc n i f : sum_up (S n) i f = sum_up n i f + f (i + Z.of_nat n).
Proof.
  revert i. induction n as [|n IH]; intros i; [cbn [sum_up]; change (Z.of_nat 0) with 0; rewrite !Z.add_0_r; lia|].
  change (f i + sum_up (S n) (i + 1) f = f i + sum_up n (i + 1) f + f (i + Z.of_nat (S n))).
  rewrite IH. replace (i + 1 + Z.of_nat n) with (i + Z.of_nat (S n)) by lia. lia.
Qed.

Lemma sum_up_add n i f g : sum_up n i (fun k => f k + g k) = sum_up n i f + sum_up n i g.
Proof. revert i. induction n as [|n IH]; intros i; cbn [sum_up]; [done|]. rewrite IH. lia. Qed.

Lemma sum_up_scale n i c f : sum_up n i (fun k => c * f k) = c * sum_up n i f.
Proof. revert i. induction n as [|n IH]; intros i; cbn [sum_up]; [lia|]. rewrite IH. lia. Qed.

(** Two sums that differ in one term. *)
Lemma sum_up_change n i f g k : i <= k < i + Z.of_nat n -> (forall j, i <= j < i + Z.of_nat n -> j <> k -> g j = f j) ->
  sum_up n i g = sum_up n i f - f k + g k.
Proof.
  revert i. induction n as [|n IH]; intros i Hk H; [lia|]. cbn [sum_up]. destruct (decide (k = i)) as [->|Hne].
  - rewrite (sum_up_ext n (i + 1) g f); [lia|]. intros j Hj. apply H; lia.
  - rewrite (IH (i + 1)), (H i); [lia | lia | lia | lia |]. intros j Hj. apply H. lia.
Qed.

Lemma sum_up_nonneg n i f : (forall k, i <= k < i + Z.of_nat n -> 0 <= f k) -> 0 <= sum_up n i f.
Proof.
  revert i. induction n as [|n IH]; intros i H; cbn [sum_up]; [lia|]. specialize (IH (i + 1)). specialize (H i) as Hi.
  assert (0 <= sum_up n (i + 1) f) by (apply IH; intros; apply H; lia). lia.
Qed.

(** [run_until p step s] runs [step] until it ends with a result, at most [p]
    times. *)
Fixpoint run_until {S R} (p : positive) (step : S -> S + R) (s : S) : S + R :=
  match p with
  | xH => step s
  | xO p => match run_until p step s with inl s => run_until p step s | inr r => inr r end
  | xI p =>
      match step s with
      | inl s => match run_until p step s with inl s => run_until p step s | inr r => inr r end
      | inr r => inr r
      end
  end.

Lemma run_until_cases {S R} (I : S -> Prop) (Q : R -> Prop) (mu : S -> Z) (step : S -> S + R) :
  (forall s, I s -> match step s with inl s' => I s' /\ mu s' < mu s | inr r => Q r end) ->
  forall p s, I s -> match run_until p step s with inl s' => I s' /\ mu s' + Zpos p <= mu s | inr r => Q r end.
Proof.
  intros Hstep p. induction p as [p IH|p IH|]; intros s Hs; cbn [run_until].
  - specialize (Hstep s Hs). destruct (step s) as [s1|r]; [|done]. destruct Hstep as (I1 & M1). specialize (IH s1 I1) as IH1.
    destruct (run_until p step s1) as [s2|r]; [|done]. destruct IH1 as (I2 & M2). specialize (IH s2 I2).
    destruct (run_until p step s2) as [s3|r]; [|done]. destruct IH. split; [done | lia].
  - specialize (IH s Hs) as IH1. destruct (run_until p step s) as [s2|r]; [|done]. destruct IH1 as (I2 & M2). specialize (IH s2 I2).
    destruct (run_until p step s2) as [s3|r]; [|done]. destruct IH. split; [done | lia].
  - specialize (Hstep s Hs). destruct (step s) as [s1|r]; [|done]. destruct Hstep. split; [done | lia].
Qed.

(** A measure that decreases and stays positive ends the loop. *)
Lemma run_until_ends {S R} (I : S -> Prop) (Q : R -> Prop) (mu : S -> Z) (step : S -> S + R) p s :
  (forall s, I s -> 0 < mu s /\ match step s with inl s' => I s' /\ mu s' < mu s | inr r => Q r end) ->
  I s -> mu s <= Zpos p -> exists r, run_until p step s = inr r /\ Q r.
Proof.
  intros Hstep Hs Hmu. pose proof (run_until_cases I Q mu step (fun s Hs => proj2 (Hstep s Hs)) p s Hs) as H.
  destruct (run_until p step s) as [s'|r]; [|by exists r]. destruct H as (Hs' & Hle). destruct (Hstep s' Hs') as (Hpos & _). lia.
Qed.

(** [count_up n i P] counts the [j] of [i, i + n) with [P j]. *)
Fixpoint count_up (n : nat) (i : Z) (P : Z -> bool) : Z :=
  match n with
  | O => 0
  | S n => (if P i then 1 else 0) + count_up n (i + 1) P
  end.

Lemma count_up_range n i P : 0 <= count_up n i P <= Z.of_nat n.
Proof. revert i. induction n as [|n IH]; intros i; simpl; [lia|]. specialize (IH (i + 1)). case_match; lia. Qed.

Lemma count_up_ext n i P Q :
  (forall k, i <= k < i + Z.of_nat n -> P k = Q k) -> count_up n i P = count_up n i Q.
Proof.
  revert i. induction n as [|n IH]; intros i H; simpl; [done|].
  rewrite (H i) by lia. f_equal. apply IH. intros. apply H. lia.
Qed.

Lemma count_up_split n m i P :
  count_up (n + m) i P = count_up n i P + count_up m (i + Z.of_nat n) P.
Proof.
  revert i. induction n as [|n IH]; intros i; simpl.
  - by rewrite Z.add_0_r.
  - rewrite IH. replace (i + 1 + Z.of_nat n) with (i + Z.of_nat (S n)) by lia. simpl.
    destruct (P i); lia.
Qed.

(** Changing the predicate at one point changes the count by one. *)
Lemma count_up_flip n i P Q k :
  i <= k < i + Z.of_nat n ->
  P k = true -> Q k = false ->
  (forall j, i <= j < i + Z.of_nat n -> j <> k -> P j = Q j) ->
  count_up n i P = count_up n i Q + 1.
Proof.
  revert i. induction n as [|n IH]; intros i Hk HP HQ Hrest; [simpl in Hk; lia|].
  simpl. destruct (decide (i = k)) as [->|Hne].
  - rewrite HP, HQ. rewrite (count_up_ext n (k + 1) P Q); [lia|].
    intros. apply Hrest; lia.
  - rewrite (Hrest i) by lia.
    rewrite (IH (i + 1)); [destruct (Q i); lia | lia | done | done |].
    intros. apply Hrest; lia.
Qed.

Lemma count_up_pos n i P : 0 < count_up n i P -> exists k, i <= k < i + Z.of_nat n /\ P k = true.
Proof.
  revert i. induction n as [|n IH]; intros i H; simpl in H; [lia|].
  destruct (P i) eqn:E; [exists i; split; [lia | done]|].
  destruct (IH (i + 1)) as (k & Hk & HP); [lia|]. exists k. split; [lia | done].
Qed.

Lemma count_up_all n i P :
  (forall k, i <= k < i + Z.of_nat n -> P k = true) -> count_up n i P = Z.of_nat n.
Proof.
  revert i. induction n as [|n IH]; intros i H; simpl; [done|].
  rewrite (H i), IH by (try intros; try apply H; lia). lia.
Qed.

Lemma count_up_none n i P :
  (forall k, i <= k < i + Z.of_nat n -> P k = false) -> count_up n i P = 0.
Proof.
  revert i. induction n as [|n IH]; intros i H; simpl; [done|].
  rewrite (H i), IH by (try intros; try apply H; lia). lia.
Qed.

(** ** Hints *)
Create HintDb coneos.
Create Rewrite HintDb arrays.
#[export] Hint Resolve u64_range land_u64 lor_u64 not64_range : coneos.
#[export] Hint Rewrite @alen_aset : arrays.
