(* ===== verification/Memory.v ===== *)
(** * Memory: bytes, little-endian words and src/lib/memory.c

    Memory is a map from addresses to bytes; a byte never written reads 0.
    Words are read and written little-endian, as the processor does.  The
    loops of [memset], [memcpy], [memmove] and [memcmp] are recursive
    functions on the byte count. *)

From S2P Require Import Prelude.

Module Memory.

Abbreviation mem := (gmap Z Z).

Definition rd (m : mem) (a : Z) : Z := default 0 (m !! a).
Definition wr (m : mem) (a b : Z) : mem := <[a := u8 b]> m.

Fixpoint read_le (n : nat) (m : mem) (a : Z) : Z :=
  match n with
  | O => 0
  | S n => rd m a + 2 ^ 8 * read_le n m (a + 1)
  end.

Fixpoint write_le (n : nat) (m : mem) (a v : Z) : mem :=
  match n with
  | O => m
  | S n => write_le n (wr m a v) (a + 1) (v / 2 ^ 8)
  end.

Definition read64 (m : mem) (a : Z) : Z := read_le 8 m a.
Definition write64 (m : mem) (a v : Z) : mem := write_le 8 m a v.

Arguments read64 : simpl never.
Arguments write64 : simpl never.

(** ** src/lib/memory.c *)

Fixpoint memset (m : mem) (dest value : Z) (count : nat) : mem :=
  match count with
  | O => m
  | S count => memset (wr m dest value) (dest + 1) value count
  end.

Fixpoint memcpy (m : mem) (dest src : Z) (count : nat) : mem :=
  match count with
  | O => m
  | S count => memcpy (wr m dest (rd m src)) (dest + 1) (src + 1) count
  end.

(** The descending loop: [d] and [s] point one past the bytes left to copy. *)
Fixpoint copy_down (m : mem) (d s : Z) (count : nat) : mem :=
  match count with
  | O => m
  | S count => copy_down (wr m (d - 1) (rd m (s - 1))) (d - 1) (s - 1) count
  end.

Definition memmove (m : mem) (dest src : Z) (count : nat) : mem :=
  if dest =? src then m
  else if dest <? src then memcpy m dest src count
  else copy_down m (dest + Z.of_nat count) (src + Z.of_nat count) count.

Fixpoint memcmp (m : mem) (lhs rhs : Z) (count : nat) : Z :=
  match count with
  | O => 0
  | S count =>
      if negb (rd m lhs =? rd m rhs) then rd m lhs - rd m rhs
      else memcmp m (lhs + 1) (rhs + 1) count
  end.

(** ** Bytes *)

Definition mem_ok (m : mem) : Prop := forall a, 0 <= rd m a < 2 ^ 8.

Lemma rd_wr m a b x : rd (wr m a b) x = if decide (x = a) then u8 b else rd m x.
Proof.
  unfold rd, wr. destruct (decide (x = a)) as [->|]; [by rewrite lookup_insert_eq|].
  by rewrite lookup_insert_ne.
Qed.

Lemma rd_wr_eq m a b : rd (wr m a b) a = u8 b.
Proof. rewrite rd_wr. by rewrite decide_True. Qed.

Lemma rd_wr_ne m a b x : x <> a -> rd (wr m a b) x = rd m x.
Proof. intros. rewrite rd_wr. by rewrite decide_False. Qed.

Lemma wr_ok m a b : mem_ok m -> mem_ok (wr m a b).
Proof.
  intros H x. rewrite rd_wr. case_decide; [|done].
  unfold u8. apply Z.mod_pos_bound. lia.
Qed.

Lemma empty_ok : mem_ok ∅.
Proof. intros a. unfold rd. by rewrite lookup_empty. Qed.

Lemma rd_u8 m a : mem_ok m -> u8 (rd m a) = rd m a.
Proof. intros H. apply u8_small, H. Qed.

(** ** Words *)

Lemma write_le_ok n m a v : mem_ok m -> mem_ok (write_le n m a v).
Proof. revert m a v. induction n as [|n IH]; intros; simpl; [done|]. by apply IH, wr_ok. Qed.

Lemma rd_write_le_out n m a v x :
  ~ (a <= x < a + Z.of_nat n) -> rd (write_le n m a v) x = rd m x.
Proof.
  revert m a v. induction n as [|n IH]; intros m a v Hx; simpl; [done|].
  rewrite IH by lia. apply rd_wr_ne. lia.
Qed.

Lemma read_le_ext n m m' a :
  (forall x, a <= x < a + Z.of_nat n -> rd m x = rd m' x) -> read_le n m a = read_le n m' a.
Proof.
  revert a. induction n as [|n IH]; intros a H; simpl; [done|].
  rewrite (H a) by lia. f_equal. f_equal. apply IH. intros. apply H. lia.
Qed.

Lemma read_le_range n m a : mem_ok m -> 0 <= read_le n m a < 2 ^ (8 * Z.of_nat n).
Proof.
  intros Hm. revert a. induction n as [|n IH]; intros a; simpl read_le; [simpl; lia|].
  specialize (IH (a + 1)). specialize (Hm a).
  replace (8 * Z.of_nat (S n)) with (8 + 8 * Z.of_nat n) by lia.
  rewrite Z.pow_add_r by lia. lia.
Qed.

Lemma read_write_le n m a v : read_le n (write_le n m a v) a = v mod 2 ^ (8 * Z.of_nat n).
Proof.
  revert m a v. induction n as [|n IH]; intros m a v; simpl read_le; simpl write_le.
  { by rewrite Z.mod_1_r. }
  rewrite IH, rd_write_le_out by lia. rewrite rd_wr_eq. unfold u8.
  replace (8 * Z.of_nat (S n)) with (8 + 8 * Z.of_nat n) by lia.
  rewrite Z.pow_add_r, Z.rem_mul_r by lia. lia.
Qed.

Lemma read64_range m a : mem_ok m -> is_u64 (read64 m a).
Proof. apply (read_le_range 8). Qed.

Lemma read64_ext m m' a :
  (forall x, a <= x < a + 8 -> rd m x = rd m' x) -> read64 m a = read64 m' a.
Proof. apply (read_le_ext 8). Qed.

Lemma write64_ok m a v : mem_ok m -> mem_ok (write64 m a v).
Proof. apply write_le_ok. Qed.

Lemma rd_write64_out m a v x : ~ (a <= x < a + 8) -> rd (write64 m a v) x = rd m x.
Proof. apply (rd_write_le_out 8). Qed.

Lemma read64_write64_eq m a v : is_u64 v -> read64 (write64 m a v) a = v.
Proof.
  intros Hv. unfold read64, write64. rewrite read_write_le. apply Z.mod_small.
  unfold is_u64 in Hv. simpl. lia.
Qed.

Lemma read64_write64_ne m a b v : a + 8 <= b \/ b + 8 <= a -> read64 (write64 m a v) b = read64 m b.
Proof. intros H. apply read64_ext. intros. apply rd_write64_out. lia. Qed.

(** ** Block operations *)

Lemma memset_ok m d v n : mem_ok m -> mem_ok (memset m d v n).
Proof. revert m d. induction n as [|n IH]; intros; simpl; [done|]. by apply IH, wr_ok. Qed.

Lemma memset_rd n m d v x :
  rd (memset m d v n) x = if bool_decide (d <= x < d + Z.of_nat n) then u8 v else rd m x.
Proof.
  revert m d. induction n as [|n IH]; intros m d; simpl.
  { by rewrite bool_decide_false by lia. }
  rewrite IH, rd_wr. repeat case_bool_decide; try case_decide; (done || lia).
Qed.

Lemma memcpy_ok n m d s : mem_ok m -> mem_ok (memcpy m d s n).
Proof. revert m d s. induction n as [|n IH]; intros; simpl; [done|]. by apply IH, wr_ok. Qed.

(** The ascending loop copies the original bytes when the destination is not
    inside the source. *)
Lemma memcpy_rd n m d s x :
  mem_ok m -> d <= s \/ s + Z.of_nat n <= d ->
  rd (memcpy m d s n) x =
    if bool_decide (d <= x < d + Z.of_nat n) then rd m (s + (x - d)) else rd m x.
Proof.
  intros Hm. revert m d s Hm. induction n as [|n IH]; intros m d s Hm H; simpl.
  { by rewrite bool_decide_false by lia. }
  rewrite IH by (first [by apply wr_ok | lia]). rewrite !rd_wr, rd_u8 by done.
  replace (s + 1 + (x - (d + 1))) with (s + (x - d)) by lia.
  repeat case_bool_decide; repeat case_decide; try lia; try done.
  all: f_equal; lia.
Qed.

Lemma copy_down_rd n m d s x :
  mem_ok m -> s <= d ->
  rd (copy_down m d s n) x =
    if bool_decide (d - Z.of_nat n <= x < d) then rd m (s + (x - d)) else rd m x.
Proof.
  intros Hm. revert m d s Hm. induction n as [|n IH]; intros m d s Hm H; simpl.
  { by rewrite bool_decide_false by lia. }
  rewrite IH by (first [by apply wr_ok | lia]). rewrite !rd_wr, rd_u8 by done.
  replace (s - 1 + (x - (d - 1))) with (s + (x - d)) by lia.
  repeat case_bool_decide; repeat case_decide; try lia; try done.
  all: f_equal; lia.
Qed.

(** C20 [memmove] copies the bytes the source held before the call, also when
    the two ranges overlap in either direction, and changes nothing outside
    the destination. *)
Theorem memmove_spec m dest src count x :
  mem_ok m ->
  rd (memmove m dest src count) x =
    if bool_decide (dest <= x < dest + Z.of_nat count) then rd m (src + (x - dest)) else rd m x.
Proof.
  intros Hm. unfold memmove. destruct (Z.eqb_spec dest src) as [->|Hne].
  { case_bool_decide; [f_equal; lia | done]. }
  destruct (Z.ltb_spec dest src).
  - by apply memcpy_rd; [|lia].
  - rewrite copy_down_rd by (done || lia).
    replace (dest + Z.of_nat count - Z.of_nat count) with dest by lia.
    case_bool_decide; [|done]. f_equal. lia.
Qed.

Definition sample_mem : mem := memset (memset ∅ 100 7 4) 104 9 4.

Lemma sample_mem_ok : mem_ok sample_mem.
Proof. apply memset_ok, memset_ok, empty_ok. Qed.

Lemma memmove_spec_witness : rd (memmove sample_mem 102 100 6) 105 = 7 /\ rd (memmove sample_mem 102 100 6) 107 = 9.
Proof. rewrite !(memmove_spec sample_mem) by apply sample_mem_ok. vm_compute. split; reflexivity. Defined.

Lemma memcmp_zero m lhs rhs n :
  memcmp m lhs rhs n = 0 <-> forall i, 0 <= i < Z.of_nat n -> rd m (lhs + i) = rd m (rhs + i).
Proof.
  revert lhs rhs. induction n as [|n IH]; intros lhs rhs; simpl; [split; [lia | done]|].
  destruct (Z.eqb_spec (rd m lhs) (rd m rhs)) as [E|E]; simpl.
  - rewrite IH. split; intros H i Hi.
    + destruct (decide (i = 0)) as [->|]; [by rewrite !Z.add_0_r|].
      specialize (H (i - 1) ltac:(lia)). replace (lhs + 1 + (i - 1)) with (lhs + i) in H by lia.
      by replace (rhs + 1 + (i - 1)) with (rhs + i) in H by lia.
    + replace (lhs + 1 + i) with (lhs + (i + 1)) by lia. replace (rhs + 1 + i) with (rhs + (i + 1)) by lia.
      apply H. lia.
  - split; [lia|]. intros H. specialize (H 0 ltac:(lia)). rewrite !Z.add_0_r in H. lia.
Qed.

#[export] Hint Resolve wr_ok write64_ok memset_ok memcpy_ok read64_range empty_ok : coneos.

End Memory.
