(* ===== verification/Pmm.v ===== *)
(** * Physical memory manager (src/mm/pmm.c, src/mm/pmm.h)

    The allocator keeps one bit per physical page (set: not allocatable) and a
    16-bit reference count per page.  The two arrays live in physical pages
    that [pmm_init] takes from the memory map and marks as used; here they are
    the lists [bitmap] and [page_references].  Every operation runs under
    [pmm_lock], so it is one atomic function of the
    state. *)

From S2P Require Import Prelude.
From Stdlib Require Import Btauto.

Module Pmm.

Definition PMM_PAGE_SIZE : Z := 4096.
Definition PMM_INVALID_ADDRESS : Z := UINT64_MAX.
Definition PMM_KERNEL_RESERVE_PAGES : Z := 4 * 1024 * 1024 / PMM_PAGE_SIZE.
(** limine.h: the type of a usable memory map entry. *)
Definition LIMINE_MEMMAP_USABLE : Z := 0.

(** limine.h: [struct limine_memmap_entry]. *)
Record limine_memmap_entry := mk_entry {
  entry_base : Z;
  entry_length : Z;
  entry_type : Z;
}.

Record pmm_state := mk_pmm {
  bitmap : list Z;
  page_references : list Z;
  bitmap_physical : Z;
  bitmap_page_count : Z;
  references_physical : Z;
  references_page_count : Z;
  page_count : Z;
  total_pages : Z;
  free_pages : Z;
  search_start : Z;
  hhdm_offset : Z;
  memory_map : list limine_memmap_entry;
}.

(** The static variables before [pmm_init]. *)
Definition pmm_static : pmm_state := mk_pmm [] [] 0 0 0 0 0 0 0 0 0 [].

Definition with_bitmap st b :=
  mk_pmm b (page_references st) (bitmap_physical st) (bitmap_page_count st)
    (references_physical st) (references_page_count st) (page_count st)
    (total_pages st) (free_pages st) (search_start st) (hhdm_offset st) (memory_map st).
Definition with_references st r :=
  mk_pmm (bitmap st) r (bitmap_physical st) (bitmap_page_count st)
    (references_physical st) (references_page_count st) (page_count st)
    (total_pages st) (free_pages st) (search_start st) (hhdm_offset st) (memory_map st).
Definition with_total_pages st n :=
  mk_pmm (bitmap st) (page_references st) (bitmap_physical st) (bitmap_page_count st)
    (references_physical st) (references_page_count st) (page_count st)
    n (free_pages st) (search_start st) (hhdm_offset st) (memory_map st).
Definition with_free_pages st n :=
  mk_pmm (bitmap st) (page_references st) (bitmap_physical st) (bitmap_page_count st)
    (references_physical st) (references_page_count st) (page_count st)
    (total_pages st) n (search_start st) (hhdm_offset st) (memory_map st).
Definition with_search_start st n :=
  mk_pmm (bitmap st) (page_references st) (bitmap_physical st) (bitmap_page_count st)
    (references_physical st) (references_page_count st) (page_count st)
    (total_pages st) (free_pages st) n (hhdm_offset st) (memory_map st).

Definition align_up (value alignment : Z) : Z :=
  (value +! alignment -! 1) &! not64 (alignment - 1).

Definition align_down (value alignment : Z) : Z := value &! not64 (alignment - 1).

Definition bitmap_byte (st : pmm_state) (page : Z) : Z := aget 0 (bitmap st) (page / 8).

Definition bitmap_test (st : pmm_state) (page : Z) : bool :=
  has (bitmap_byte st page) (Z.shiftl 1 (page mod 8)).

Definition bitmap_set (st : pmm_state) (page : Z) : pmm_state :=
  with_bitmap st
    (aset (bitmap st) (page / 8) (u8 (bitmap_byte st page |! Z.shiftl 1 (page mod 8)))).

Definition bitmap_clear (st : pmm_state) (page : Z) : pmm_state :=
  with_bitmap st
    (aset (bitmap st) (page / 8) (u8 (bitmap_byte st page &! Z.lnot (Z.shiftl 1 (page mod 8))))).

Definition reference (st : pmm_state) (page : Z) : Z := aget 0 (page_references st) page.
Definition set_reference (st : pmm_state) (page n : Z) : pmm_state :=
  with_references st (aset (page_references st) page (u16 n)).

Definition entry_usable (physical_address : Z) (e : limine_memmap_entry) : bool :=
  (entry_type e =? LIMINE_MEMMAP_USABLE) &&
  ((entry_base e <=? physical_address) &&
   (physical_address +! PMM_PAGE_SIZE <=? entry_base e +! entry_length e)).

Definition page_is_usable (st : pmm_state) (physical_address : Z) : bool :=
  existsb (entry_usable physical_address) (memory_map st).

(** *** pmm_init *)

Definition highest_usable (entries : list limine_memmap_entry) : Z :=
  fold_left (fun highest e =>
    if negb (entry_type e =? LIMINE_MEMMAP_USABLE) then highest
    else if highest <? entry_base e +! entry_length e then entry_base e +! entry_length e else highest) entries 0.

(** The first usable entry with room for the allocator's arrays. *)
Fixpoint find_metadata_region (entries : list limine_memmap_entry) (pages : Z) : option Z :=
  match entries with
  | [] => None
  | e :: rest =>
      if negb (entry_type e =? LIMINE_MEMMAP_USABLE) then find_metadata_region rest pages
      else
        let start := align_up (entry_base e) PMM_PAGE_SIZE in
        let end_ := align_down (entry_base e +! entry_length e) PMM_PAGE_SIZE in
        if pages *! PMM_PAGE_SIZE <=? end_ -! start then Some start
        else find_metadata_region rest pages
  end.

(** [for (address = start; address < end; address += PMM_PAGE_SIZE)]. *)
Fixpoint mark_range (n : nat) (address : Z) (st : pmm_state) : pmm_state :=
  match n with
  | O => st
  | S n =>
      let st := bitmap_clear st (address / PMM_PAGE_SIZE) in
      let st := with_total_pages st (total_pages st +! 1) in
      let st := with_free_pages st (free_pages st +! 1) in
      mark_range n (address +! PMM_PAGE_SIZE) st
  end.

Definition range_trips (start end_ : Z) : nat :=
  if start <? end_ then Z.to_nat ((end_ - start + PMM_PAGE_SIZE - 1) / PMM_PAGE_SIZE) else O.

Definition mark_usable (st : pmm_state) (e : limine_memmap_entry) : pmm_state :=
  if negb (entry_type e =? LIMINE_MEMMAP_USABLE) then st
  else
    let start := align_up (entry_base e) PMM_PAGE_SIZE in
    let end_ := align_down (entry_base e +! entry_length e) PMM_PAGE_SIZE in
    mark_range (range_trips start end_) start st.

Definition reserve_page (page : Z) (st : pmm_state) : pmm_state :=
  if negb (bitmap_test st page) then
    let st := bitmap_set st page in with_free_pages st (free_pages st -! 1)
  else st.

Definition pmm_init (memmap : option (list limine_memmap_entry)) (hhdm : option Z)
    (st : pmm_state) : bool * pmm_state :=
  match memmap, hhdm with
  | Some entries, Some offset =>
      let count := align_up (highest_usable entries) PMM_PAGE_SIZE / PMM_PAGE_SIZE in
      let bitmap_size := align_up count 8 / 8 in
      let bitmap_pages := align_up bitmap_size PMM_PAGE_SIZE / PMM_PAGE_SIZE in
      let references_size := count *! 2 in
      let references_pages := align_up references_size PMM_PAGE_SIZE / PMM_PAGE_SIZE in
      let metadata_pages := bitmap_pages +! references_pages in
      let st := mk_pmm (bitmap st) (page_references st) (bitmap_physical st) bitmap_pages
                  (references_physical st) references_pages count (total_pages st)
                  (free_pages st) (search_start st) offset entries in
      match find_metadata_region entries metadata_pages with
      | None => (false, st)
      | Some start =>
          let st := mk_pmm (replicate (Z.to_nat bitmap_size) 255)
                      (replicate (Z.to_nat count) 0) start bitmap_pages
                      (start +! bitmap_pages *! PMM_PAGE_SIZE) references_pages count
                      (total_pages st) (free_pages st) (search_start st) offset entries in
          let st := fold_left mark_usable entries st in
          let first := bitmap_physical st / PMM_PAGE_SIZE in
          let st := for_up (Z.to_nat metadata_pages) first reserve_page st in
          (true, with_search_start st (first +! metadata_pages))
      end
  | _, _ => (false, st)
  end.

(** *** Allocation *)

(** The body of the allocation loops: page [page] becomes used once. *)
Definition claim (page : Z) (st : pmm_state) : pmm_state :=
  set_reference (bitmap_set st page) page 1.

Definition alloc_page_with_reserve (reserve_pages : Z) (st : pmm_state) : Z * pmm_state :=
  if free_pages st <=? reserve_pages then (PMM_INVALID_ADDRESS, st)
  else
    let candidate page := negb (bitmap_test st page) in
    let take page :=
      let st := claim page st in
      let st := with_free_pages st (free_pages st -! 1) in
      (page *! PMM_PAGE_SIZE, with_search_start st (page +! 1)) in
    match find_up (trips (search_start st) (page_count st)) (search_start st) candidate with
    | Some page => take page
    | None =>
        match find_up (trips 0 (search_start st)) 0 candidate with
        | Some page => take page
        | None => (PMM_INVALID_ADDRESS, st)
        end
    end.

Definition pmm_alloc_page (st : pmm_state) : Z * pmm_state := alloc_page_with_reserve 0 st.

Definition pmm_alloc_user_page (st : pmm_state) : Z * pmm_state :=
  alloc_page_with_reserve PMM_KERNEL_RESERVE_PAGES st.

(** [while (offset < count && !bitmap_test(page + offset)) offset++;] *)
Fixpoint free_run (count : nat) (st : pmm_state) (page : Z) : Z :=
  match count with
  | O => 0
  | S count => if bitmap_test st page then 0 else 1 + free_run count st (page + 1)
  end.

(** One pass of the search of [pmm_alloc_contiguous]. *)
Fixpoint scan_run (fuel : nat) (st : pmm_state) (count page end_ : Z) : option Z :=
  match fuel with
  | O => None
  | S fuel =>
      if (page <? end_) && (count <=? end_ - page) then
        let offset := free_run (Z.to_nat count) st page in
        if negb (offset =? count) then scan_run fuel st count (page + offset + 1) end_
        else Some page
      else None
  end.

Definition pmm_alloc_contiguous (count : Z) (st : pmm_state) : Z * pmm_state :=
  if count =? 0 then (PMM_INVALID_ADDRESS, st)
  else if free_pages st <? count then (PMM_INVALID_ADDRESS, st)
  else
    let take page :=
      let st := for_up (Z.to_nat count) page claim st in
      let st := with_free_pages st (free_pages st -! count) in
      (page *! PMM_PAGE_SIZE, with_search_start st (page +! count)) in
    let scan start end_ := scan_run (trips start end_) st count start end_ in
    match scan (search_start st) (page_count st) with
    | Some page => take page
    | None =>
        match scan 0 (search_start st) with
        | Some page => take page
        | None => (PMM_INVALID_ADDRESS, st)
        end
    end.

(** *** Release and sharing *)

Definition bad_address (st : pmm_state) (physical_address : Z) : bool :=
  negb (physical_address mod PMM_PAGE_SIZE =? 0) ||
  (physical_address =? PMM_INVALID_ADDRESS) ||
  negb (page_is_usable st physical_address).

Definition metadata_end (st : pmm_state) : Z :=
  references_physical st +! references_page_count st *! PMM_PAGE_SIZE.

Definition pmm_free_page (physical_address : Z) (st : pmm_state) : bool * pmm_state :=
  if bad_address st physical_address then (false, st)
  else if (bitmap_physical st <=? physical_address) && (physical_address <? metadata_end st)
  then (false, st)
  else
    let page := physical_address / PMM_PAGE_SIZE in
    if negb (bitmap_test st page) then (false, st)
    else if 1 <? reference st page then (true, set_reference st page (reference st page - 1))
    else
      let st := set_reference st page 0 in
      let st := bitmap_clear st page in
      let st := with_free_pages st (free_pages st +! 1) in
      (true, if page <? search_start st then with_search_start st page else st).

Definition pmm_retain_page (physical_address : Z) (st : pmm_state) : bool * pmm_state :=
  if bad_address st physical_address then (false, st)
  else
    let page := physical_address / PMM_PAGE_SIZE in
    if negb (bitmap_test st page) || (reference st page =? 0) ||
       (reference st page =? UINT16_MAX)
    then (false, st)
    else (true, set_reference st page (reference st page + 1)).

Definition pmm_page_references (physical_address : Z) (st : pmm_state) : Z :=
  if bad_address st physical_address then 0
  else
    let page := physical_address / PMM_PAGE_SIZE in
    if bitmap_test st page then reference st page else 0.

Definition pmm_physical_to_virtual (st : pmm_state) (physical_address : Z) : Z :=
  physical_address +! hhdm_offset st.

Definition pmm_total_pages (st : pmm_state) : Z := total_pages st.
Definition pmm_free_pages (st : pmm_state) : Z := free_pages st.

(** ** Bits of the map *)

Definition page_free (st : pmm_state) (page : Z) : bool := negb (bitmap_test st page).

Lemma bitmap_test_bit st p :
  bitmap_test st p = Z.testbit (bitmap_byte st p) (p mod 8).
Proof.
  unfold bitmap_test. assert (0 <= p mod 8 < 8) by (apply Z.mod_pos_bound; lia).
  rewrite Z.shiftl_1_l. apply has_pow2. lia.
Qed.

(** The pages the bitmap has a bit for. *)
Definition in_map (st : pmm_state) (p : Z) : Prop := 0 <= p < 8 * alen (bitmap st).

Definition bytes_ok (l : list Z) : Prop := Forall (fun b => 0 <= b < 2 ^ 8) l.

Lemma same_byte p q : p / 8 = q / 8 -> p mod 8 = q mod 8 -> p = q.
Proof. intros. pose proof (Z.div_mod p 8). pose proof (Z.div_mod q 8). lia. Qed.

Lemma in_map_byte st p : in_map st p -> 0 <= p / 8 < alen (bitmap st).
Proof.
  unfold in_map. intros. split; [apply Z.div_pos; lia | apply Z.div_lt_upper_bound; lia].
Qed.

Lemma bitmap_test_update st p q b :
  in_map st p -> 0 <= q ->
  bitmap_test (with_bitmap st (aset (bitmap st) (p / 8) b)) q =
  if decide (p / 8 = q / 8) then Z.testbit b (q mod 8) else bitmap_test st q.
Proof.
  intros Hp Hq. rewrite bitmap_test_bit. unfold bitmap_byte at 1. simpl.
  rewrite aget_aset by (apply in_map_byte in Hp; (lia || (apply Z.div_pos; lia))).
  case_decide; [done|]. by rewrite bitmap_test_bit.
Qed.

Lemma testbit_u8 x i : 0 <= i < 8 -> Z.testbit (u8 x) i = Z.testbit x i.
Proof. intros. unfold u8. by rewrite Z.mod_pow2_bits_low by lia. Qed.

Lemma bitmap_test_set st p q :
  in_map st p -> 0 <= q ->
  bitmap_test (bitmap_set st p) q = bool_decide (p = q) || bitmap_test st q.
Proof.
  intros Hp Hq. unfold bitmap_set. rewrite bitmap_test_update by done.
  assert (0 <= p mod 8 < 8 /\ 0 <= q mod 8 < 8) as [Hp8 Hq8]
    by (split; apply Z.mod_pos_bound; lia).
  case_decide as Hb.
  - rewrite testbit_u8, Z.lor_spec, Z.shiftl_1_l, testbit_pow2 by lia.
    rewrite bitmap_test_bit. unfold bitmap_byte. rewrite Hb, orb_comm. f_equal.
    apply bool_decide_ext. split; [intros; symmetry; by apply same_byte | by intros ->].
  - rewrite bool_decide_false; [done | by intros ->].
Qed.

Lemma bitmap_test_clear st p q :
  in_map st p -> 0 <= q ->
  bitmap_test (bitmap_clear st p) q = negb (bool_decide (p = q)) && bitmap_test st q.
Proof.
  intros Hp Hq. unfold bitmap_clear. rewrite bitmap_test_update by done.
  assert (0 <= p mod 8 < 8 /\ 0 <= q mod 8 < 8) as [Hp8 Hq8]
    by (split; apply Z.mod_pos_bound; lia).
  case_decide as Hb.
  - rewrite testbit_u8, Z.land_spec, Z.lnot_spec, Z.shiftl_1_l, testbit_pow2 by lia.
    rewrite bitmap_test_bit. unfold bitmap_byte. rewrite Hb, andb_comm. do 2 f_equal.
    apply bool_decide_ext. split; [intros; symmetry; by apply same_byte | by intros ->].
  - rewrite bool_decide_false; [done | by intros ->].
Qed.

(** ** Well-formed states *)

Definition in_metadata (st : pmm_state) (a : Z) : bool :=
  (bitmap_physical st <=? a) && (a <? metadata_end st).

(** A page of the pool: inside a usable entry and outside the allocator's own
    arrays. *)
Definition in_pool (st : pmm_state) (p : Z) : bool :=
  page_is_usable st (p * PMM_PAGE_SIZE) && negb (in_metadata st (p * PMM_PAGE_SIZE)).

Definition free_count (st : pmm_state) : Z :=
  count_up (Z.to_nat (page_count st)) 0 (page_free st).

(** [page_count] is bounded by the 52 bits of a physical address. *)
Record pmm_wf (st : pmm_state) : Prop := {
  wf_page_count : 0 <= page_count st <= 2 ^ 40;
  wf_bitmap : page_count st <= 8 * alen (bitmap st);
  wf_bytes : bytes_ok (bitmap st);
  wf_references : alen (page_references st) = page_count st;
  wf_counts : Forall (fun n => 0 <= n <= UINT16_MAX) (page_references st);
  wf_search : 0 <= search_start st <= page_count st;
  wf_free : free_pages st = free_count st;
  (** an address accepted by [page_is_usable] has a bit and a count *)
  wf_usable : forall a, 0 <= a < 2 ^ 64 - PMM_PAGE_SIZE ->
    page_is_usable st a = true -> a / PMM_PAGE_SIZE < page_count st;
  (** free pages are pool pages without references *)
  wf_free_page : forall p, 0 <= p < page_count st -> page_free st p = true ->
    reference st p = 0 /\ in_pool st p = true;
  (** the pages that are neither free nor in the pool are never counted *)
  wf_used_page : forall p, 0 <= p < page_count st -> page_free st p = false ->
    (in_pool st p = true <-> 1 <= reference st p);
}.

(** Everything but the map, the counts and the two cursors is kept. *)
Record same_shape (st st' : pmm_state) : Prop := {
  ss_page_count : page_count st' = page_count st;
  ss_memory_map : memory_map st' = memory_map st;
  ss_bitmap : alen (bitmap st') = alen (bitmap st);
  ss_references : alen (page_references st') = alen (page_references st);
  ss_bitmap_physical : bitmap_physical st' = bitmap_physical st;
  ss_metadata_end : metadata_end st' = metadata_end st;
  ss_hhdm : hhdm_offset st' = hhdm_offset st;
  ss_bytes : bytes_ok (bitmap st) -> bytes_ok (bitmap st');
  ss_counts : Forall (fun n => 0 <= n <= UINT16_MAX) (page_references st) ->
    Forall (fun n => 0 <= n <= UINT16_MAX) (page_references st');
}.

#[export] Instance same_shape_refl : Reflexive same_shape.
Proof. intros st. by constructor. Qed.

#[export] Instance same_shape_trans : Transitive same_shape.
Proof. intros a b c [] []. constructor; try congruence; auto. Qed.

Lemma u8_range x : 0 <= u8 x < 2 ^ 8.
Proof. unfold u8. apply Z.mod_pos_bound. lia. Qed.

Lemma u16_range x : 0 <= u16 x <= UINT16_MAX.
Proof. unfold u16, UINT16_MAX. pose proof (Z.mod_pos_bound x (2 ^ 16)). lia. Qed.

Lemma shape_bitmap st i b : 0 <= b < 2 ^ 8 -> same_shape st (with_bitmap st (aset (bitmap st) i b)).
Proof.
  intros. constructor; simpl; try done; [by rewrite alen_aset|].
  intros. by apply Forall_aset.
Qed.

Lemma shape_set st p : same_shape st (bitmap_set st p).
Proof. apply shape_bitmap, u8_range. Qed.
Lemma shape_clear st p : same_shape st (bitmap_clear st p).
Proof. apply shape_bitmap, u8_range. Qed.

Lemma shape_reference st p n : same_shape st (set_reference st p n).
Proof.
  constructor; simpl; try done; [by rewrite alen_aset|].
  intros. apply Forall_aset; [done | apply u16_range].
Qed.

Lemma shape_free_pages st n : same_shape st (with_free_pages st n).
Proof. by constructor. Qed.
Lemma shape_search st n : same_shape st (with_search_start st n).
Proof. by constructor. Qed.

Lemma in_map_shape st st' p : same_shape st st' -> in_map st p -> in_map st' p.
Proof. intros []. unfold in_map. lia. Qed.

Lemma in_pool_shape st st' p : same_shape st st' -> in_pool st' p = in_pool st p.
Proof.
  intros []. unfold in_pool, in_metadata, page_is_usable. congruence.
Qed.

Lemma reference_set st p n q :
  0 <= p < alen (page_references st) -> 0 <= q ->
  reference (set_reference st p n) q = if decide (p = q) then u16 n else reference st q.
Proof. intros. unfold reference. simpl. by apply aget_aset. Qed.

Lemma reference_range st p : pmm_wf st -> 0 <= reference st p <= UINT16_MAX.
Proof.
  intros []. unfold reference. apply (Forall_aget (fun n => 0 <= n <= UINT16_MAX)); [done|].
  unfold UINT16_MAX. lia.
Qed.

Lemma wf_in_map st p : pmm_wf st -> 0 <= p < page_count st -> in_map st p.
Proof. intros []. unfold in_map. lia. Qed.

(** ** Abstract pages *)

Inductive page_state := Free | Reserved | Used (n : Z).

#[export] Instance page_state_eq_dec : EqDecision page_state.
Proof. solve_decision. Defined.

Definition abs (st : pmm_state) (p : Z) : page_state :=
  if page_free st p then Free
  else if reference st p =? 0 then Reserved
  else Used (reference st p).

Lemma abs_Free st p : abs st p = Free <-> page_free st p = true.
Proof. unfold abs. repeat case_match; naive_solver. Qed.

Lemma abs_Used st p n :
  abs st p = Used n <-> page_free st p = false /\ reference st p = n /\ n <> 0.
Proof.
  unfold abs. destruct (page_free st p).
  - split; [done | by intros (? & _)].
  - destruct (Z.eqb_spec (reference st p) 0).
    + split; [done | intros (_ & ? & ?); congruence].
    + split; [by intros [= <-] | by intros (_ & -> & _)].
Qed.

(** Rebuilding a well-formed state after a change of the map and the counts:
    it is enough that the abstract page states are well formed. *)
Lemma wf_rebuild st st' :
  pmm_wf st -> same_shape st st' ->
  0 <= search_start st' <= page_count st ->
  free_pages st' = free_count st' ->
  (forall p, 0 <= p < page_count st ->
     abs st' p = abs st p \/
     (in_pool st p = true /\
      match abs st' p with
      | Free => reference st' p = 0
      | Reserved => False
      | Used n => 1 <= n
      end)) ->
  (forall p, 0 <= p < page_count st -> abs st' p = abs st p -> reference st' p = reference st p) ->
  pmm_wf st'.
Proof.
  intros Hwf Hss Hsearch Hfree Habs Href. pose proof Hss as [Hpc Hmm Hbm Hrf Hbp Hme Hhh Hby Hco].
  destruct Hwf as [W1 W2 W3 W4 W5 W6 W7 W8 W9 W10].
  constructor; rewrite ?Hpc, ?Hbm, ?Hrf; auto.
  - intros a Ha Hu. apply W8; [done|]. unfold page_is_usable in *. by rewrite <- Hmm.
  - intros p Hp Hf. rewrite (in_pool_shape _ _ _ Hss).
    destruct (Habs p Hp) as [E|[Hin Hm]].
    + rewrite (Href p Hp E). apply abs_Free in Hf. rewrite Hf in E.
      symmetry in E. apply abs_Free in E. by apply W9.
    + apply abs_Free in Hf. by rewrite Hf in Hm.
  - intros p Hp Hf. rewrite (in_pool_shape _ _ _ Hss).
    destruct (Habs p Hp) as [E|[Hin Hm]].
    + rewrite (Href p Hp E). apply W10; [done|].
      destruct (page_free st p) eqn:Ef; [|done].
      apply abs_Free in Ef. rewrite Ef in E. apply abs_Free in E. congruence.
    + split; [|done]. intros _. unfold abs in Hm. rewrite Hf in Hm.
      destruct (reference st' p =? 0); [done|]. lia.
Qed.

(** ** The operations on abstract pages *)

Lemma reference_bitmap st b p : reference (with_bitmap st b) p = reference st p.
Proof. done. Qed.

Lemma page_free_claim st p q :
  in_map st p -> 0 <= q ->
  page_free (claim p st) q = negb (bool_decide (p = q)) && page_free st q.
Proof.
  intros. unfold page_free, claim.
  change (bitmap_test (set_reference (bitmap_set st p) p 1) q) with (bitmap_test (bitmap_set st p) q).
  rewrite bitmap_test_set by done. by rewrite negb_orb.
Qed.

Lemma reference_claim st p q :
  0 <= p < alen (page_references st) -> 0 <= q ->
  reference (claim p st) q = if decide (p = q) then 1 else reference st q.
Proof. intros. unfold claim. by rewrite reference_set. Qed.

Lemma shape_claim st p : same_shape st (claim p st).
Proof. unfold claim. etrans; [apply shape_set | apply shape_reference]. Qed.

Lemma abs_claim st p q :
  in_map st p -> 0 <= p < alen (page_references st) -> 0 <= q ->
  abs (claim p st) q = if decide (q = p) then Used 1 else abs st q.
Proof.
  intros Hm Hp Hq. unfold abs. rewrite page_free_claim, reference_claim by done.
  destruct (decide (p = q)) as [->|Hne].
  - by rewrite bool_decide_true, decide_True by done.
  - rewrite bool_decide_false, decide_False by congruence. done.
Qed.

(** [n] pages from [p] on. *)
Definition in_run (p n q : Z) : bool := (p <=? q) && (q <? p + n).

Lemma claim_run_spec n p st :
  0 <= p -> p + Z.of_nat n <= 8 * alen (bitmap st) ->
  p + Z.of_nat n <= alen (page_references st) ->
  let st' := for_up n p claim st in
  same_shape st st' /\ free_pages st' = free_pages st /\ search_start st' = search_start st /\
  (forall q, 0 <= q -> page_free st' q = negb (in_run p (Z.of_nat n) q) && page_free st q) /\
  (forall q, 0 <= q -> reference st' q = if in_run p (Z.of_nat n) q then 1 else reference st q).
Proof.
  intros Hp Hb Hr.
  pose (I := fun i t => same_shape st t /\ free_pages t = free_pages st /\
    search_start t = search_start st /\
    (forall q, 0 <= q -> page_free t q = negb (in_run p (i - p) q) && page_free st q) /\
    (forall q, 0 <= q -> reference t q = if in_run p (i - p) q then 1 else reference st q)).
  assert (HI : I (p + Z.of_nat n) (for_up n p claim st)).
  { apply for_up_ind.
    - unfold I, in_run. split_and!; try done; intros q Hq;
        destruct (Z.leb_spec p q), (Z.ltb_spec q (p + (p - p))); (done || lia).
    - intros j t Hj (S1 & S2 & S3 & S4 & S5). unfold I.
      assert (in_map t j) by (unfold in_map; rewrite (ss_bitmap _ _ S1); lia).
      split_and!; [etrans; [done | apply shape_claim] | done | done | |].
      + intros q Hq. rewrite page_free_claim, S4 by done. unfold in_run.
        case_bool_decide;
          destruct (Z.leb_spec p q), (Z.ltb_spec q (p + (j - p))), (Z.ltb_spec q (p + (j + 1 - p)));
          simpl; (done || lia).
      + intros q Hq. rewrite reference_claim, S5 by (rewrite ?(ss_references _ _ S1); lia).
        unfold in_run. case_decide;
          destruct (Z.leb_spec p q), (Z.ltb_spec q (p + (j - p))), (Z.ltb_spec q (p + (j + 1 - p)));
          simpl; (done || lia). }
  unfold I in HI. replace (p + Z.of_nat n - p) with (Z.of_nat n) in HI by lia.
  destruct HI as (?&?&?&?&?). auto.
Qed.

(** The count of free pages after [n] free pages of [p, p + n) were taken. *)
Lemma count_take N i p n F G :
  i <= p -> p + Z.of_nat n <= i + Z.of_nat N ->
  (forall q, i <= q < i + Z.of_nat N -> G q = negb (in_run p (Z.of_nat n) q) && F q) ->
  (forall q, p <= q < p + Z.of_nat n -> F q = true) ->
  count_up N i G = count_up N i F - Z.of_nat n.
Proof.
  intros Hp Hend HG HF.
  pose (a := Z.to_nat (p - i)). pose (b := (N - a - n)%nat).
  replace N with (a + (n + b))%nat by (unfold a, b; lia).
  rewrite !count_up_split.
  replace (i + Z.of_nat a) with p by (unfold a; lia).
  rewrite (count_up_ext a i G F), (count_up_ext b (p + Z.of_nat n) G F).
  - rewrite (count_up_none n p G), (count_up_all n p F); [lia | done |].
    intros k Hk. rewrite HG by lia. unfold in_run.
    destruct (Z.leb_spec p k), (Z.ltb_spec k (p + Z.of_nat n)); (done || lia).
  - intros k Hk. rewrite HG by (unfold a, b in *; lia). unfold in_run.
    destruct (Z.leb_spec p k), (Z.ltb_spec k (p + Z.of_nat n)); (done || lia).
  - intros k Hk. rewrite HG by (unfold a, b in *; lia). unfold in_run.
    destruct (Z.leb_spec p k), (Z.ltb_spec k (p + Z.of_nat n)); (done || lia).
Qed.

(** Taking a run of free pages keeps the state well formed and makes exactly
    these pages used once. *)
Definition take_run (p n : Z) (st : pmm_state) : pmm_state :=
  let st := for_up (Z.to_nat n) p claim st in
  with_search_start (with_free_pages st (free_pages st -! n)) (p +! n).

Lemma take_run_wf st p n :
  pmm_wf st -> 0 <= p -> 0 <= n -> p + n <= page_count st ->
  (forall q, p <= q < p + n -> abs st q = Free) ->
  pmm_wf (take_run p n st) /\ same_shape st (take_run p n st) /\
  free_pages (take_run p n st) = free_pages st - n /\
  (forall q, 0 <= q -> abs (take_run p n st) q = if in_run p n q then Used 1 else abs st q).
Proof.
  intros Hwf Hp Hn Hend Hfree.
  destruct (claim_run_spec (Z.to_nat n) p st) as (Hss & Hfp & Hsst & Hpf & Hrf);
    [done | destruct Hwf; lia | destruct Hwf; lia |].
  rewrite Z2Nat.id in Hpf, Hrf by done.
  assert (Hcnt : free_pages st - n = free_count (take_run p n st)).
  { rewrite (wf_free _ Hwf). unfold free_count. simpl. rewrite (ss_page_count _ _ Hss).
    rewrite (count_take _ 0 p (Z.to_nat n) (page_free st) (page_free (take_run p n st)));
      rewrite ?Z2Nat.id by (destruct Hwf; lia);
      [done | lia | destruct Hwf; lia | |].
    - intros q Hq. rewrite <- Hpf by lia. done.
    - intros q Hq. apply abs_Free, Hfree. lia. }
  assert (Hfp' : free_pages (take_run p n st) = free_pages st - n).
  { simpl. rewrite Hfp. pose proof (wf_page_count _ Hwf).
    pose proof (count_up_range (Z.to_nat (page_count (take_run p n st))) 0 (page_free (take_run p n st))) as Hr.
    change (count_up _ _ _) with (free_count (take_run p n st)) in Hr.
    pose proof (count_up_range (Z.to_nat (page_count st)) 0 (page_free st)) as Hr2.
    change (count_up _ _ _) with (free_count st) in Hr2. rewrite <- (wf_free _ Hwf) in Hr2.
    apply u64_small. unfold is_u64. lia. }
  assert (Hss' : same_shape st (take_run p n st)).
  { etrans; [exact Hss|]. etrans; [apply shape_free_pages | apply shape_search]. }
  assert (Habs : forall q, 0 <= q -> abs (take_run p n st) q = if in_run p n q then Used 1 else abs st q).
  { intros q Hq. unfold abs.
    change (page_free (take_run p n st) q) with (page_free (for_up (Z.to_nat n) p claim st) q).
    change (reference (take_run p n st) q) with (reference (for_up (Z.to_nat n) p claim st) q).
    rewrite Hpf, Hrf by done. by destruct (in_run p n q). }
  split_and!; [|done | done | done].
  apply (wf_rebuild st); [done | done | | lia | |].
  - simpl. pose proof (wf_page_count _ Hwf). rewrite u64_small by (unfold is_u64; lia). lia.
  - intros q Hq. rewrite Habs by lia. destruct (in_run p n q) eqn:E; [|by left]. right.
    split; [|lia]. unfold in_run in E. bool_prop.
    apply (wf_free_page _ Hwf q Hq), abs_Free, Hfree. lia.
  - intros q Hq E. rewrite Habs in E by lia.
    change (reference (take_run p n st) q) with (reference (for_up (Z.to_nat n) p claim st) q).
    rewrite Hrf by lia. destruct (in_run p n q) eqn:E'; [|done].
    symmetry in E. apply abs_Used in E as (_ & ? & _). congruence.
Qed.

Lemma alloc_page_spec reserve st :
  pmm_wf st -> 0 <= reserve ->
  (free_pages st <= reserve /\ alloc_page_with_reserve reserve st = (PMM_INVALID_ADDRESS, st)) \/
  (reserve < free_pages st /\ exists p, 0 <= p < page_count st /\ abs st p = Free /\
     alloc_page_with_reserve reserve st = (p * PMM_PAGE_SIZE, take_run p 1 st)).
Proof.
  intros Hwf Hres. unfold alloc_page_with_reserve.
  destruct (Z.leb_spec (free_pages st) reserve) as [Hle|Hlt]; [by left|]. right. split; [done|].
  pose proof (wf_page_count _ Hwf) as Hpc. pose proof (wf_search _ Hwf) as Hss.
  assert (Haddr : forall p, 0 <= p < page_count st -> p *! PMM_PAGE_SIZE = p * PMM_PAGE_SIZE).
  { intros p Hp. apply u64_small. unfold is_u64, PMM_PAGE_SIZE. lia. }
  destruct (find_up (trips (search_start st) _) _ _) as [p|] eqn:E1.
  { apply find_up_Some in E1 as (Hp & Hf & _). unfold trips in Hp. exists p.
    split_and!; [lia | lia | by apply abs_Free |]. rewrite Haddr by lia. done. }
  destruct (find_up (trips 0 _) _ _) as [p|] eqn:E2.
  { apply find_up_Some in E2 as (Hp & Hf & _). unfold trips in Hp. exists p.
    split_and!; [lia | lia | by apply abs_Free |]. rewrite Haddr by lia. done. }
  exfalso. rewrite find_up_None in E1, E2. unfold trips in E1, E2.
  rewrite (wf_free _ Hwf) in Hlt. unfold free_count in Hlt.
  rewrite count_up_none in Hlt; [lia|]. intros k Hk.
  destruct (Z_lt_le_dec k (search_start st)); [apply E2 | apply E1]; lia.
Qed.

Lemma free_run_spec n st p :
  let k := free_run n st p in
  0 <= k <= Z.of_nat n /\ (forall q, p <= q < p + k -> page_free st q = true) /\
  (k < Z.of_nat n -> page_free st (p + k) = false).
Proof.
  revert p. induction n as [|n IH]; intros p; simpl.
  - split_and!; lia.
  - destruct (bitmap_test st p) eqn:E.
    + split_and!; [lia | lia | lia |]. intros _. unfold page_free. by rewrite Z.add_0_r, E.
    + destruct (IH (p + 1)) as (H1 & H2 & H3). split_and!; [lia | lia | |].
      * intros q Hq. destruct (decide (q = p)) as [->|]; [unfold page_free; by rewrite E|].
        apply H2. lia.
      * intros Hlt. replace (p + (1 + free_run n st (p + 1))) with (p + 1 + free_run n st (p + 1)) by lia.
        apply H3. lia.
Qed.

(** A run of [count] free pages inside [lo, hi). *)
Definition run_at (st : pmm_state) (count lo hi p : Z) : Prop :=
  lo <= p /\ p + count <= hi /\ forall q, p <= q < p + count -> page_free st q = true.

Lemma scan_run_Some fuel st count page end_ p :
  0 < count -> scan_run fuel st count page end_ = Some p -> run_at st count page end_ p.
Proof.
  intros Hc. revert page. induction fuel as [|fuel IH]; intros page H; simpl in H; [done|].
  destruct ((page <? end_) && (count <=? end_ - page)) eqn:E; [|done]. bool_prop.
  destruct (free_run_spec (Z.to_nat count) st page) as (F1 & F2 & _).
  case_match; bool_prop.
  - apply IH in H as (? & ? & ?). repeat split; [lia | lia | done].
  - simplify_eq. repeat split; [lia | lia |]. intros. apply F2. lia.
Qed.

(** The scan misses no run: its [page += offset] only skips starts whose run
    would contain the used page that stopped it. *)
Lemma scan_run_None fuel st count page end_ :
  0 < count -> (trips page end_ <= fuel)%nat ->
  scan_run fuel st count page end_ = None -> forall p, ~ run_at st count page end_ p.
Proof.
  intros Hc. revert page. induction fuel as [|fuel IH]; intros page Hfuel H p (Hp1 & Hp2 & Hp3); simpl in H.
  - unfold trips in Hfuel. lia.
  - destruct ((page <? end_) && (count <=? end_ - page)) eqn:E.
    + bool_prop. destruct (free_run_spec (Z.to_nat count) st page) as (F1 & F2 & F3).
      case_match; bool_prop; [|done].
      refine (IH _ _ H p _); [unfold trips in *; lia|].
      split_and!; [|done | done].
      destruct (Z_lt_le_dec p (page + free_run (Z.to_nat count) st page + 1)); [|done].
      specialize (F3 ltac:(lia)). rewrite Hp3 in F3 by lia. done.
    + apply andb_false_iff in E as [E|E]; bool_prop; lia.
Qed.

Lemma alloc_contiguous_spec count st :
  pmm_wf st -> 0 <= count ->
  let '(a, st') := pmm_alloc_contiguous count st in
  (a = PMM_INVALID_ADDRESS /\ st' = st /\
   (0 < count -> forall p, ~ run_at st count 0 (search_start st) p /\
                           ~ run_at st count (search_start st) (page_count st) p)) \/
  (0 < count /\ exists p, run_at st count 0 (page_count st) p /\ a = p * PMM_PAGE_SIZE /\
     st' = take_run p count st).
Proof.
  intros Hwf Hc. unfold pmm_alloc_contiguous. pose proof (wf_search _ Hwf) as Hsearch.
  pose proof (wf_page_count _ Hwf) as Hpc.
  assert (Haddr : forall p, 0 <= p < page_count st -> p *! PMM_PAGE_SIZE = p * PMM_PAGE_SIZE).
  { intros p Hp. apply u64_small. unfold is_u64, PMM_PAGE_SIZE. lia. }
  destruct (Z.eqb_spec count 0); [left; split_and!; (done || lia)|].
  destruct (Z.ltb_spec (free_pages st) count) as [Hfew|Henough].
  { left. split_and!; [done | done |]. intros Hpos.
    assert (Hno : forall p, ~ run_at st count 0 (page_count st) p).
    { intros p (H1 & H2 & H3). rewrite (wf_free _ Hwf) in Hfew. unfold free_count in Hfew.
      pose (G := fun q => negb (in_run p count q) && page_free st q).
      pose proof (count_take (Z.to_nat (page_count st)) 0 p (Z.to_nat count) (page_free st) G) as Hct.
      rewrite !Z2Nat.id in Hct by lia.
      pose proof (count_up_range (Z.to_nat (page_count st)) 0 G) as HG.
      rewrite Hct in HG; [lia | lia | lia | done | done]. }
    intros p. split; intros (H1 & H2 & H3); apply (Hno p); repeat split; (lia || done). }
  destruct (scan_run _ st count (search_start st) _) as [p|] eqn:E1.
  { apply scan_run_Some in E1 as (H1 & H2 & H3); [|lia]. right. split; [lia|]. exists p.
    split_and!; [repeat split; (lia || done) | apply Haddr; lia | done]. }
  destruct (scan_run _ st count 0 _) as [p|] eqn:E2.
  { apply scan_run_Some in E2 as (H1 & H2 & H3); [|lia]. right. split; [lia|]. exists p.
    split_and!; [repeat split; (lia || done) | apply Haddr; lia | done]. }
  left. split_and!; [done | done |]. intros Hpos p.
  split; [eapply scan_run_None in E2 | eapply scan_run_None in E1]; eauto.
Qed.

(** *** Release and sharing *)

Definition upd (o : Z -> page_state) (p : Z) (s : page_state) : Z -> page_state :=
  fun q => if decide (q = p) then s else o q.

(** [a] is the address of a page that is in use. *)
Definition used_at (st : pmm_state) (a p n : Z) : Prop :=
  a = p * PMM_PAGE_SIZE /\ 0 <= p < page_count st /\ abs st p = Used n.

Lemma used_at_good st a p n :
  pmm_wf st -> used_at st a p n ->
  bad_address st a = false /\ in_metadata st a = false /\ a / PMM_PAGE_SIZE = p /\
  bitmap_test st p = true /\ reference st p = n /\ 1 <= n <= UINT16_MAX.
Proof.
  intros Hwf (-> & Hp & Hu). apply abs_Used in Hu as (Hf & Hr & Hn).
  pose proof (reference_range st p Hwf) as Hrange.
  assert (Hpool : in_pool st p = true) by (apply (wf_used_page _ Hwf); (done || lia)).
  unfold in_pool in Hpool. bool_prop. unfold page_free in Hf. bool_prop.
  pose proof (wf_page_count _ Hwf).
  split_and!; [| done | | done | done | lia | lia].
  - unfold bad_address. rewrite Z_mod_mult. simpl. rewrite H. simpl.
    rewrite orb_false_r. apply Z.eqb_neq. unfold PMM_INVALID_ADDRESS, UINT64_MAX, PMM_PAGE_SIZE. lia.
  - apply Z.div_mul. unfold PMM_PAGE_SIZE. lia.
Qed.

Lemma good_page st a :
  pmm_wf st -> 0 <= a < 2 ^ 64 - PMM_PAGE_SIZE -> bad_address st a = false ->
  a = a / PMM_PAGE_SIZE * PMM_PAGE_SIZE /\ 0 <= a / PMM_PAGE_SIZE < page_count st /\
  page_is_usable st a = true.
Proof.
  intros Hwf Ha Hb. unfold bad_address in Hb. bool_prop.
  pose proof (wf_usable _ Hwf a Ha H0). unfold PMM_PAGE_SIZE in *.
  split_and!; [pose proof (Z.div_mod a 4096); lia | apply Z.div_pos; lia | done | done].
Qed.

Lemma good_used st a :
  pmm_wf st -> 0 <= a < 2 ^ 64 - PMM_PAGE_SIZE -> bad_address st a = false ->
  in_metadata st a = false -> bitmap_test st (a / PMM_PAGE_SIZE) = true ->
  used_at st a (a / PMM_PAGE_SIZE) (reference st (a / PMM_PAGE_SIZE)).
Proof.
  intros Hwf Ha Hb Hm Ht. destruct (good_page st a Hwf Ha Hb) as (E & Hp & Hu).
  split_and!; [done | lia | lia |].
  assert (Hf : page_free st (a / PMM_PAGE_SIZE) = false) by (unfold page_free; by rewrite Ht).
  apply abs_Used. split_and!; [done | done |].
  assert (1 <= reference st (a / PMM_PAGE_SIZE)); [|lia].
  apply (wf_used_page _ Hwf); [done | done |]. unfold in_pool. rewrite <- E, Hu, Hm. done.
Qed.

(** Changing one count of a used page. *)
Lemma set_count_wf st p n m :
  pmm_wf st -> 0 <= p < page_count st -> abs st p = Used n -> 1 <= m <= UINT16_MAX ->
  pmm_wf (set_reference st p m) /\ same_shape st (set_reference st p m) /\
  (forall q, 0 <= q -> abs (set_reference st p m) q = upd (abs st) p (Used m) q).
Proof.
  intros Hwf Hp Hu Hm. apply abs_Used in Hu as (Hf & Hr & Hn).
  assert (Hlen : 0 <= p < alen (page_references st)) by (rewrite (wf_references _ Hwf); lia).
  assert (Hrefs : forall q, 0 <= q -> reference (set_reference st p m) q = if decide (p = q) then m else reference st q).
  { intros q Hq. rewrite reference_set by done. case_decide; [|done].
    apply u16_small. unfold UINT16_MAX in Hm. lia. }
  assert (Habs : forall q, 0 <= q -> abs (set_reference st p m) q = upd (abs st) p (Used m) q).
  { intros q Hq. unfold abs, upd. change (page_free (set_reference st p m) q) with (page_free st q).
    rewrite Hrefs by done. destruct (decide (p = q)) as [->|Hne].
    - rewrite decide_True by done. rewrite Hf. destruct (Z.eqb_spec m 0); [lia | done].
    - by rewrite decide_False by congruence. }
  split_and!; [| apply shape_reference | done].
  apply (wf_rebuild st); [done | apply shape_reference | apply (wf_search _ Hwf) | | |].
  - apply (wf_free _ Hwf).
  - intros q Hq. rewrite Habs by lia. unfold upd. case_decide; subst; [right | by left].
    split; [|lia]. pose proof (reference_range st p Hwf). apply (wf_used_page _ Hwf); (done || lia).
  - intros q Hq E. rewrite Habs in E by lia. rewrite Hrefs by lia. unfold upd in E.
    destruct (decide (p = q)) as [->|]; [|done]. rewrite decide_True in E by done.
    symmetry in E. apply abs_Used in E as (_ & ? & _). done.
Qed.

(** The last reference goes: the page returns to the pool. *)
Definition release_last (p : Z) (st : pmm_state) : pmm_state :=
  let st := bitmap_clear (set_reference st p 0) p in
  let st := with_free_pages st (free_pages st +! 1) in
  if p <? search_start st then with_search_start st p else st.

Lemma release_last_pages st p q :
  pmm_wf st -> 0 <= p < page_count st -> 0 <= q ->
  page_free (release_last p st) q = bool_decide (p = q) || page_free st q /\
  reference (release_last p st) q = if decide (p = q) then 0 else reference st q.
Proof.
  intros Hwf Hp Hq. unfold release_last. split.
  - transitivity (page_free (bitmap_clear (set_reference st p 0) p) q); [by case_match|].
    unfold page_free. rewrite bitmap_test_clear by (try done; by apply (wf_in_map st)).
    by rewrite negb_andb, negb_involutive.
  - transitivity (reference (set_reference st p 0) q); [by case_match|].
    rewrite reference_set by (try done; rewrite (wf_references _ Hwf); lia). done.
Qed.

Lemma release_last_shape st p : same_shape st (release_last p st).
Proof.
  unfold release_last. etrans; [apply (shape_reference st p 0)|].
  etrans; [apply (shape_clear _ p)|]. case_match; [|apply shape_free_pages].
  etrans; [apply shape_free_pages | apply shape_search].
Qed.

Lemma release_last_count st p :
  pmm_wf st -> 0 <= p < page_count st -> page_free st p = false ->
  free_pages (release_last p st) = free_pages st + 1 /\
  free_count (release_last p st) = free_count st + 1.
Proof.
  intros Hwf Hp Hf. pose proof (wf_page_count _ Hwf). pose proof (wf_free _ Hwf).
  pose proof (count_up_range (Z.to_nat (page_count st)) 0 (page_free st)) as Hrng.
  fold (free_count st) in Hrng. split.
  - transitivity (free_pages st +! 1).
    + unfold release_last. by case_match.
    + apply u64_small. unfold is_u64. lia.
  - unfold free_count. rewrite (ss_page_count _ _ (release_last_shape st p)).
    apply (count_up_flip _ _ _ _ p); [lia | | done |].
    + destruct (release_last_pages st p p) as [-> _]; [done | done | lia|].
      by rewrite bool_decide_true.
    + intros j Hj Hne. destruct (release_last_pages st p j) as [-> _]; [done | done | lia|].
      by rewrite bool_decide_false.
Qed.

Lemma release_last_wf st p :
  pmm_wf st -> 0 <= p < page_count st -> abs st p = Used 1 ->
  pmm_wf (release_last p st) /\
  (forall q, 0 <= q -> abs (release_last p st) q = upd (abs st) p Free q).
Proof.
  intros Hwf Hp Hu. apply abs_Used in Hu as (Hf & Hr & _).
  assert (Habs : forall q, 0 <= q -> abs (release_last p st) q = upd (abs st) p Free q).
  { intros q Hq. unfold abs, upd. destruct (release_last_pages st p q) as [-> ->]; [done | done | lia|].
    destruct (decide (p = q)) as [->|Hne].
    - rewrite bool_decide_true, decide_True by done. done.
    - rewrite bool_decide_false, decide_False by congruence. done. }
  destruct (release_last_count st p Hwf Hp Hf) as [Hfp Hfc].
  split; [|done].
  apply (wf_rebuild st); [done | apply release_last_shape | | rewrite Hfp, Hfc, (wf_free _ Hwf); done | |].
  - pose proof (wf_search _ Hwf). unfold release_last. simpl. case_match; simpl; bool_prop; lia.
  - intros q Hq. rewrite Habs by lia. unfold upd. destruct (decide (q = p)) as [->|]; [right | by left].
    split; [apply (wf_used_page _ Hwf); (done || lia)|].
    destruct (release_last_pages st p p) as [_ ->]; [done | done | lia|]. by rewrite decide_True.
  - intros q Hq E. destruct (release_last_pages st p q) as [_ ->]; [done | done | lia|].
    destruct (decide (p = q)) as [<-|]; [|done].
    rewrite Habs in E by lia. unfold upd in E. rewrite decide_True in E by done.
    symmetry in E. apply abs_Free in E. congruence.
Qed.

Lemma free_page_spec st a :
  pmm_wf st -> 0 <= a < 2 ^ 64 - PMM_PAGE_SIZE ->
  (exists p n st', used_at st a p n /\ pmm_free_page a st = (true, st') /\ pmm_wf st' /\
     same_shape st st' /\
     free_pages st' = free_pages st + (if n =? 1 then 1 else 0) /\
     forall q, 0 <= q -> abs st' q = upd (abs st) p (if n =? 1 then Free else Used (n - 1)) q) \/
  ((forall p n, ~ used_at st a p n) /\ pmm_free_page a st = (false, st)).
Proof.
  intros Hwf Ha. unfold pmm_free_page.
  destruct (bad_address st a) eqn:Hb.
  { right. split; [|done]. intros p n Hu. apply used_at_good in Hu as (? & _); [congruence | done]. }
  change ((bitmap_physical st <=? a) && (a <? metadata_end st)) with (in_metadata st a).
  destruct (in_metadata st a) eqn:Hm.
  { right. split; [|done]. intros p n Hu. apply used_at_good in Hu as (_ & ? & _); [congruence | done]. }
  destruct (bitmap_test st (a / PMM_PAGE_SIZE)) eqn:Ht; simpl.
  2: { right. split; [|done]. intros p n Hu. apply used_at_good in Hu as (_ & _ & <- & ? & _); [congruence | done]. }
  pose proof (good_used st a Hwf Ha Hb Hm Ht) as Hu.
  pose proof (used_at_good _ _ _ _ Hwf Hu) as (_ & _ & _ & _ & _ & Hn).
  set (p := a / PMM_PAGE_SIZE) in *. set (n := reference st p) in *.
  pose proof Hu as (_ & Hp & Habs).
  left. exists p, n. destruct (Z.ltb_spec 1 n).
  - destruct (set_count_wf st p n (n - 1) Hwf Hp Habs) as (W & S & A); [lia|].
    eexists. destruct (Z.eqb_spec n 1); [lia|].
    split_and!; [done | done | done | done | simpl; lia | done].
  - assert (n = 1) as Hn1 by lia. rewrite Hn1 in *.
    destruct (release_last_wf st p Hwf Hp Habs) as (W & A).
    exists (release_last p st). split_and!; [done | done | done | apply release_last_shape | |done].
    apply release_last_count; [done | done | by apply abs_Used in Habs as (? & _)].
Qed.

Lemma retain_page_spec st a :
  pmm_wf st -> 0 <= a < 2 ^ 64 - PMM_PAGE_SIZE ->
  (exists p n st', used_at st a p n /\ n < UINT16_MAX /\ pmm_retain_page a st = (true, st') /\
     pmm_wf st' /\ same_shape st st' /\ free_pages st' = free_pages st /\
     forall q, 0 <= q -> abs st' q = upd (abs st) p (Used (n + 1)) q) \/
  ((forall p n, used_at st a p n -> n = UINT16_MAX) /\ pmm_retain_page a st = (false, st)).
Proof.
  intros Hwf Ha. unfold pmm_retain_page.
  destruct (bad_address st a) eqn:Hb.
  { right. split; [|done]. intros p n Hu. apply used_at_good in Hu as (? & _); [congruence | done]. }
  destruct (good_page st a Hwf Ha Hb) as (E & Hp & Hus).
  set (p := a / PMM_PAGE_SIZE) in *.
  destruct (bitmap_test st p) eqn:Ht; simpl.
  2: { right. split; [|done]. intros p' n Hu. apply used_at_good in Hu as (_ & _ & <- & ? & _); [|done].
       unfold p in Ht. congruence. }
  destruct (Z.eqb_spec (reference st p) 0) as [H0|H0]; simpl.
  { right. split; [|done]. intros p' n Hu. apply used_at_good in Hu as (_ & _ & <- & _ & ? & ?); [|done].
    unfold p in H0. lia. }
  assert (Hu : used_at st a p (reference st p)).
  { split_and!; [done | lia | lia |]. apply abs_Used. split_and!; [|done | done].
    unfold page_free. by rewrite Ht. }
  destruct (Z.eqb_spec (reference st p) UINT16_MAX) as [H1|H1].
  { right. split; [|done]. intros p' n Hu'. apply used_at_good in Hu' as (_ & _ & <- & _ & <- & _); done. }
  left. pose proof (used_at_good _ _ _ _ Hwf Hu) as (_ & _ & _ & _ & _ & Hn).
  destruct (set_count_wf st p (reference st p) (reference st p + 1) Hwf) as (W & S & A);
    [done | by destruct Hu as (_ & _ & ?) | lia |].
  exists p, (reference st p). eexists. split_and!; [done | lia | done | done | done | done | done].
Qed.

(** ** Initialisation *)

(** What the Limine protocol documents of the memory map: entries do not wrap
    and stay inside the 52-bit physical address space; usable entries are page
    aligned and do not overlap other usable entries. *)
Definition entry_is_usable (e : limine_memmap_entry) : bool := entry_type e =? LIMINE_MEMMAP_USABLE.

Definition entries_disjoint (e f : limine_memmap_entry) : Prop :=
  entry_is_usable e = true -> entry_is_usable f = true ->
  entry_base e + entry_length e <= entry_base f \/ entry_base f + entry_length f <= entry_base e.

Definition entry_ok (e : limine_memmap_entry) : Prop :=
  0 <= entry_base e /\ 0 <= entry_length e /\ entry_base e + entry_length e <= 2 ^ 52 /\
  (entry_is_usable e = true ->
   entry_base e mod PMM_PAGE_SIZE = 0 /\ entry_length e mod PMM_PAGE_SIZE = 0).

Record memmap_ok (entries : list limine_memmap_entry) : Prop := {
  mm_entries : Forall entry_ok entries;
  mm_disjoint : ForallOrdPairs entries_disjoint entries;
}.

Lemma align_up_pow2 x k :
  0 <= k <= 64 -> 0 <= x -> x + 2 ^ k <= 2 ^ 64 ->
  align_up x (2 ^ k) = (x + (2 ^ k - 1)) / 2 ^ k * 2 ^ k.
Proof.
  intros Hk Hx Hlt. assert (0 < 2 ^ k) by (apply Z.pow_pos_nonneg; lia).
  unfold align_up. replace (x +! 2 ^ k -! 1) with (x + (2 ^ k - 1)).
  - rewrite land_mask_down by (unfold is_u64; lia).
    pose proof (Z.div_mod (x + (2 ^ k - 1)) (2 ^ k)). lia.
  - unfold u64. rewrite Zminus_mod_idemp_l. rewrite Z.mod_small; lia.
Qed.

Lemma align_up_aligned x k :
  0 <= k <= 64 -> 0 <= x -> x + 2 ^ k <= 2 ^ 64 -> x mod 2 ^ k = 0 -> align_up x (2 ^ k) = x.
Proof.
  intros Hk Hx Hlt Hm. rewrite align_up_pow2 by done.
  assert (0 < 2 ^ k) by (apply Z.pow_pos_nonneg; lia).
  apply Z.mod_divide in Hm as [q ->]; [|lia].
  rewrite Z.div_add_l by lia. rewrite (Z.div_small (2 ^ k - 1)) by lia. lia.
Qed.

Lemma align_down_aligned x k :
  0 <= k <= 64 -> is_u64 x -> x mod 2 ^ k = 0 -> align_down x (2 ^ k) = x.
Proof. intros Hk Hx Hm. unfold align_down. rewrite land_mask_down by done. lia. Qed.

(** The pages of an entry. *)
Definition entry_page (e : limine_memmap_entry) : Z := entry_base e / PMM_PAGE_SIZE.
Definition entry_pages (e : limine_memmap_entry) : Z := entry_length e / PMM_PAGE_SIZE.

Definition page_in_entry (e : limine_memmap_entry) (q : Z) : bool :=
  entry_is_usable e && in_run (entry_page e) (entry_pages e) q.

Lemma entry_exact e :
  entry_ok e -> entry_is_usable e = true ->
  entry_base e = entry_page e * PMM_PAGE_SIZE /\ entry_length e = entry_pages e * PMM_PAGE_SIZE /\
  0 <= entry_page e /\ 0 <= entry_pages e.
Proof.
  intros (H1 & H2 & _ & H3) Hu. destruct (H3 Hu) as [Ha Hb].
  unfold entry_page, entry_pages, PMM_PAGE_SIZE in *.
  pose proof (Z.div_mod (entry_base e) 4096). pose proof (Z.div_mod (entry_length e) 4096).
  split_and!; [lia | lia | apply Z.div_pos; lia | apply Z.div_pos; lia].
Qed.

Lemma page_in_entry_usable e q :
  entry_ok e -> 0 <= q -> q * PMM_PAGE_SIZE < 2 ^ 64 - PMM_PAGE_SIZE ->
  page_in_entry e q = entry_usable (q * PMM_PAGE_SIZE) e.
Proof.
  intros He Hq Hlt. unfold page_in_entry, entry_usable, entry_is_usable.
  destruct (entry_type e =? LIMINE_MEMMAP_USABLE) eqn:E; [|done]. simpl.
  destruct (entry_exact e He E) as (Eb & El & Hp & Hn). destruct He as (? & ? & ? & _).
  rewrite !u64_small by (unfold is_u64, PMM_PAGE_SIZE in *; lia).
  unfold in_run, PMM_PAGE_SIZE in *. rewrite Eb, El.
  apply eq_iff_eq_true. rewrite !andb_true_iff, !Z.leb_le, Z.ltb_lt. lia.
Qed.

Lemma mark_range_spec n p st :
  0 <= p -> p + Z.of_nat n <= 2 ^ 40 -> p + Z.of_nat n <= 8 * alen (bitmap st) ->
  0 <= free_pages st -> free_pages st + Z.of_nat n < 2 ^ 64 ->
  let st' := mark_range n (p * PMM_PAGE_SIZE) st in
  same_shape st st' /\ page_references st' = page_references st /\
  search_start st' = search_start st /\
  free_pages st' = free_pages st + Z.of_nat n /\
  (forall q, 0 <= q -> page_free st' q = in_run p (Z.of_nat n) q || page_free st q).
Proof.
  revert p st. induction n as [|n IH]; intros p st Hp Hend Hmap Hf0 Hfree; cbn [mark_range].
  - split_and!; try done; [simpl; lia|]. intros q Hq. unfold in_run.
    destruct (Z.leb_spec p q), (Z.ltb_spec q (p + Z.of_nat 0)); (done || lia).
  - cbn zeta. set (st1 := with_free_pages _ _).
    assert (Hpage : p * PMM_PAGE_SIZE / PMM_PAGE_SIZE = p) by (apply Z.div_mul; unfold PMM_PAGE_SIZE; lia).
    replace (p * PMM_PAGE_SIZE +! PMM_PAGE_SIZE) with ((p + 1) * PMM_PAGE_SIZE).
    2: { rewrite u64_small; unfold is_u64, PMM_PAGE_SIZE; lia. }
    assert (Hss : same_shape st st1).
    { unfold st1. etrans; [apply (shape_clear st (p * PMM_PAGE_SIZE / PMM_PAGE_SIZE))|]. by constructor. }
    assert (Hf1 : free_pages st1 = free_pages st + 1).
    { unfold st1. simpl. apply u64_small. unfold is_u64. lia. }
    destruct (IH (p + 1) st1) as (I1 & I2 & I3 & I4 & I5);
      [lia | lia | rewrite (ss_bitmap _ _ Hss); lia | lia | lia |].
    split_and!; [by etrans | done | done | lia |].
    intros q Hq. rewrite I5 by done.
    replace (page_free st1 q) with (page_free (bitmap_clear st p) q) by (by rewrite <- Hpage at 1).
    unfold page_free. rewrite bitmap_test_clear by (try done; unfold in_map; lia).
    rewrite negb_andb, negb_involutive. unfold in_run.
    case_bool_decide;
      destruct (Z.leb_spec (p + 1) q), (Z.leb_spec p q), (Z.ltb_spec q (p + 1 + Z.of_nat n)),
        (Z.ltb_spec q (p + Z.of_nat (S n))); simpl; (done || lia).
Qed.

Lemma in_run_0 p q : in_run p 0 q = false.
Proof. unfold in_run. destruct (Z.leb_spec p q), (Z.ltb_spec q (p + 0)); (done || lia). Qed.

Lemma in_run_spec p n q : in_run p n q = true <-> p <= q < p + n.
Proof. unfold in_run. rewrite andb_true_iff, Z.leb_le, Z.ltb_lt. done. Qed.

(** The loop over one entry marks exactly its pages. *)
Lemma mark_usable_spec e st :
  entry_ok e -> 0 <= free_pages st <= 2 ^ 40 ->
  (entry_is_usable e = true ->
   entry_page e + entry_pages e <= 8 * alen (bitmap st)) ->
  let n := if entry_is_usable e then entry_pages e else 0 in
  same_shape st (mark_usable st e) /\ page_references (mark_usable st e) = page_references st /\
  search_start (mark_usable st e) = search_start st /\
  free_pages (mark_usable st e) = free_pages st + n /\
  (forall q, 0 <= q -> page_free (mark_usable st e) q = page_in_entry e q || page_free st q).
Proof.
  intros He Hfree Hmap. unfold mark_usable, page_in_entry.
  fold (entry_is_usable e). destruct (entry_is_usable e) eqn:Hu; simpl; [|split_and!; done || lia].
  destruct (entry_exact e He Hu) as (Eb & El & Hp & Hn). destruct He as (? & ? & Hend & Hal).
  destruct (Hal Hu) as [Hb0 Hl0].
  assert (Hstart : align_up (entry_base e) PMM_PAGE_SIZE = entry_page e * PMM_PAGE_SIZE).
  { rewrite <- Eb. apply (align_up_aligned _ 12); [lia | lia | unfold PMM_PAGE_SIZE in *; lia | done]. }
  assert (Hstop : align_down (entry_base e +! entry_length e) PMM_PAGE_SIZE
                  = (entry_page e + entry_pages e) * PMM_PAGE_SIZE).
  { rewrite u64_small by (unfold is_u64; lia). rewrite Eb, El, <- Z.mul_add_distr_r.
    apply (align_down_aligned _ 12); [lia | unfold is_u64, PMM_PAGE_SIZE in *; lia |]. apply Z_mod_mult. }
  rewrite Hstart, Hstop.
  assert (Htrips : range_trips (entry_page e * PMM_PAGE_SIZE)
                     ((entry_page e + entry_pages e) * PMM_PAGE_SIZE) = Z.to_nat (entry_pages e)).
  { unfold range_trips, PMM_PAGE_SIZE. destruct (Z.ltb_spec (entry_page e * 4096) ((entry_page e + entry_pages e) * 4096)).
    - f_equal. replace ((entry_page e + entry_pages e) * 4096 - entry_page e * 4096 + 4096 - 1)
        with (entry_pages e * 4096 + 4095) by lia.
      rewrite Z.div_add_l by lia. rewrite (Z.div_small 4095) by lia. lia.
    - lia. }
  rewrite Htrips.
  destruct (mark_range_spec (Z.to_nat (entry_pages e)) (entry_page e) st) as (A & B & C & D & E);
    rewrite ?Z2Nat.id by done; unfold PMM_PAGE_SIZE in *; [lia | lia | by apply Hmap | lia | lia |].
  rewrite Z2Nat.id in * by done. split_and!; done.
Qed.

Lemma mark_all_spec entries st N :
  Forall entry_ok entries -> ForallOrdPairs entries_disjoint entries ->
  0 <= N <= 2 ^ 40 -> N <= 8 * alen (bitmap st) ->
  Forall (fun e => entry_is_usable e = true -> entry_page e + entry_pages e <= N) entries ->
  free_pages st = count_up (Z.to_nat N) 0 (page_free st) ->
  (forall q, 0 <= q -> existsb (fun e => page_in_entry e q) entries = true -> page_free st q = false) ->
  let st' := fold_left mark_usable entries st in
  same_shape st st' /\ page_references st' = page_references st /\
  free_pages st' = count_up (Z.to_nat N) 0 (page_free st') /\
  (forall q, 0 <= q -> page_free st' q = existsb (fun e => page_in_entry e q) entries || page_free st q).
Proof.
  intros Hok Hdis HN. revert st Hok Hdis. induction entries as [|e rest IH];
    intros st Hok Hdis Hmap Hbound Hcount Hnot; [by split_and!|].
  inversion Hok as [|? ? He Hrest]; inversion Hbound as [|? ? Hbe Hbrest]; inversion Hdis as [|? ? Hde Hdrest]; subst.
  pose proof (count_up_range (Z.to_nat N) 0 (page_free st)).
  destruct (mark_usable_spec e st He) as (A & B & C & D & E); [lia | intros; specialize (Hbe ltac:(done)); lia |].
  set (st1 := mark_usable st e) in *. cbn [fold_left existsb].
  assert (Hcount1 : free_pages st1 = count_up (Z.to_nat N) 0 (page_free st1)).
  { rewrite D. destruct (entry_is_usable e) eqn:Hu.
    - destruct (entry_exact e He Hu) as (_ & _ & Hp & Hn).
      rewrite (count_take (Z.to_nat N) 0 (entry_page e) (Z.to_nat (entry_pages e)) (page_free st1) (page_free st)) in Hcount;
        rewrite ?Z2Nat.id in * by lia; [lia | lia | by apply Hbe | |].
      + intros q Hq. rewrite E by lia. unfold page_in_entry. rewrite Hu. simpl.
        destruct (in_run (entry_page e) (entry_pages e) q) eqn:Hr; simpl; [|done].
        apply Hnot; [lia|]. simpl. unfold page_in_entry. by rewrite Hu, Hr.
      + intros q Hq. rewrite E by lia. unfold page_in_entry. rewrite Hu.
        by rewrite (proj2 (in_run_spec _ _ _)).
    - rewrite (count_up_ext _ _ (page_free st1) (page_free st)); [lia|].
      intros q Hq. rewrite E by lia. unfold page_in_entry. by rewrite Hu. }
  destruct (IH st1) as (A' & B' & C' & D'); [done | done | | done | done | |].
  - rewrite (ss_bitmap _ _ A). done.
  - intros q Hq Hex. rewrite E by done. rewrite Hnot; [|done|simpl; by rewrite Hex, orb_true_r].
    rewrite orb_false_r. apply existsb_exists in Hex as (f & Hf & Hin).
    unfold page_in_entry in *. bool_prop.
    destruct (entry_is_usable e) eqn:Hu; [|done]. simpl.
    rewrite Forall_forall in Hde, Hrest. apply list_elem_of_In in Hf.
    destruct (Hde f Hf Hu H0) as [Hd|Hd];
      destruct (entry_exact e He Hu) as (E1 & E2 & _); destruct (entry_exact f (Hrest f Hf) H0) as (E3 & E4 & _);
      apply in_run_spec in H1; unfold PMM_PAGE_SIZE in *;
      destruct (in_run (entry_page e) (entry_pages e) q) eqn:Hr; try done; apply in_run_spec in Hr; lia.
  - split_and!; [by etrans | etrans; [apply B' | apply B] | done |].
    intros q Hq. rewrite D', E by done. btauto.
Qed.

Lemma reserve_run_spec n p st N :
  0 <= p -> p + Z.of_nat n <= N -> 0 <= N <= 2 ^ 40 -> N <= 8 * alen (bitmap st) ->
  (forall q, p <= q < p + Z.of_nat n -> page_free st q = true) ->
  free_pages st = count_up (Z.to_nat N) 0 (page_free st) ->
  let st' := for_up n p reserve_page st in
  same_shape st st' /\ page_references st' = page_references st /\
  free_pages st' = count_up (Z.to_nat N) 0 (page_free st') /\
  (forall q, 0 <= q -> page_free st' q = negb (in_run p (Z.of_nat n) q) && page_free st q).
Proof.
  intros Hp Hend HN Hmap Hfree Hcount.
  pose (I := fun i t => same_shape st t /\ page_references t = page_references st /\
    free_pages t = count_up (Z.to_nat N) 0 (page_free t) /\
    (forall q, 0 <= q -> page_free t q = negb (in_run p (i - p) q) && page_free st q)).
  assert (HI : I (p + Z.of_nat n) (for_up n p reserve_page st)).
  { apply for_up_ind.
    - unfold I. rewrite Z.sub_diag. split_and!; try done. intros q Hq. by rewrite in_run_0.
    - intros j t Hj (S1 & S2 & S3 & S4).
      assert (Hjf : page_free t j = true).
      { rewrite S4, Hfree by lia. unfold in_run.
        destruct (Z.leb_spec p j), (Z.ltb_spec j (p + (j - p))); (done || lia). }
      assert (Hm : in_map t j) by (unfold in_map; rewrite (ss_bitmap _ _ S1); lia).
      pose proof Hjf as Hjt. unfold page_free in Hjt. bool_prop.
      unfold reserve_page. rewrite Hjt. cbn [negb].
      set (t1 := with_free_pages _ _).
      assert (Hpf : forall q, 0 <= q -> page_free t1 q = negb (bool_decide (j = q)) && page_free t q).
      { intros q Hq. unfold page_free. change (bitmap_test t1 q) with (bitmap_test (bitmap_set t j) q).
        rewrite bitmap_test_set by done. by rewrite negb_orb. }
      assert (Hflip : count_up (Z.to_nat N) 0 (page_free t) = count_up (Z.to_nat N) 0 (page_free t1) + 1).
      { apply (count_up_flip _ _ _ _ j); [lia | done | |].
        - rewrite Hpf by lia. by rewrite bool_decide_true.
        - intros k Hk Hne. rewrite Hpf by lia. by rewrite bool_decide_false. }
      pose proof (count_up_range (Z.to_nat N) 0 (page_free t1)).
      split_and!; [| done | |].
      + etrans; [done|]. etrans; [apply (shape_set t j) | apply shape_free_pages].
      + transitivity (free_pages t -! 1); [done|]. rewrite u64_small by (unfold is_u64; lia). lia.
      + intros q Hq. rewrite Hpf, S4 by done. unfold in_run. case_bool_decide;
          destruct (Z.leb_spec p q), (Z.ltb_spec q (p + (j - p))), (Z.ltb_spec q (p + (j + 1 - p)));
          simpl; (done || lia). }
  unfold I in HI. replace (p + Z.of_nat n - p) with (Z.of_nat n) in HI by lia. done.
Qed.

Lemma highest_usable_spec entries :
  Forall entry_ok entries ->
  0 <= highest_usable entries <= 2 ^ 52 /\ highest_usable entries mod PMM_PAGE_SIZE = 0 /\
  Forall (fun e => entry_is_usable e = true -> entry_base e + entry_length e <= highest_usable entries) entries.
Proof.
  unfold highest_usable. set (f := fun _ _ => _).
  assert (Hgen : forall es h, Forall entry_ok es -> 0 <= h <= 2 ^ 52 -> h mod PMM_PAGE_SIZE = 0 ->
    h <= fold_left f es h <= 2 ^ 52 /\ fold_left f es h mod PMM_PAGE_SIZE = 0 /\
    Forall (fun e => entry_is_usable e = true -> entry_base e + entry_length e <= fold_left f es h) es).
  { induction es as [|e es IH]; intros h Hok Hh Hal; [split_and!; (done || simpl; lia)|].
    inversion Hok as [|? ? He Hes]; subst. simpl.
    assert (Hf : h <= f h e <= 2 ^ 52 /\ f h e mod PMM_PAGE_SIZE = 0 /\
                 (entry_is_usable e = true -> entry_base e + entry_length e <= f h e)).
    { unfold f. fold (entry_is_usable e). destruct (entry_is_usable e) eqn:Hu; simpl; [|split_and!; done || lia].
      destruct He as (? & ? & ? & Ha). destruct (Ha Hu) as [Ha1 Ha2].
      rewrite u64_small by (unfold is_u64; lia).
      destruct (Z.ltb_spec h (entry_base e + entry_length e)); split_and!; try (done || lia).
      unfold PMM_PAGE_SIZE in *. rewrite Z.add_mod, Ha1, Ha2 by lia. done. }
    destruct Hf as (Hf1 & Hf2 & Hf3). destruct (IH (f h e) Hes) as (G1 & G2 & G3); [lia | done |].
    split_and!; [lia | lia | done |]. constructor; [|done]. intros Hu. specialize (Hf3 Hu). lia. }
  intros Hok. destruct (Hgen entries 0 Hok) as (G1 & G2 & G3); [lia | done |]. split_and!; (done || lia).
Qed.

Lemma find_metadata_region_spec entries pages start :
  Forall entry_ok entries -> 0 <= pages -> pages * PMM_PAGE_SIZE < 2 ^ 64 ->
  find_metadata_region entries pages = Some start ->
  exists e, e ∈ entries /\ entry_is_usable e = true /\ start = entry_base e /\
    pages * PMM_PAGE_SIZE <= entry_length e.
Proof.
  intros Hok Hp Hlt. induction entries as [|e rest IH]; intros H; simpl in H; [done|].
  inversion Hok as [|? ? He Hrest]; subst. fold (entry_is_usable e) in H.
  destruct (entry_is_usable e) eqn:Hu; simpl in H.
  - destruct (entry_exact e He Hu) as (Eb & El & Hpg & Hn). destruct He as (? & ? & ? & Ha).
    destruct (Ha Hu) as [Ha1 Ha2].
    assert (Hs : align_up (entry_base e) PMM_PAGE_SIZE = entry_base e)
      by (apply (align_up_aligned _ 12); unfold PMM_PAGE_SIZE in *; (done || lia)).
    assert (Ht : align_down (entry_base e +! entry_length e) PMM_PAGE_SIZE = entry_base e + entry_length e).
    { rewrite u64_small by (unfold is_u64; lia).
      apply (align_down_aligned _ 12); [lia | unfold is_u64; lia |].
      rewrite Eb, El, <- Z.mul_add_distr_r. apply Z_mod_mult. }
    rewrite Hs, Ht, !u64_small in H by (unfold is_u64, PMM_PAGE_SIZE in *; lia).
    case_match; bool_prop; simplify_eq.
    + exists e. split_and!; [apply list_elem_of_here | done | done | lia].
    + destruct (IH Hrest H) as (e' & ? & ?). exists e'. split; [by apply list_elem_of_further | done].
  - destruct (IH Hrest H) as (e' & ? & ?). exists e'. split; [by apply list_elem_of_further | done].
Qed.

Lemma mark_all_physical entries st :
  bitmap_physical (fold_left mark_usable entries st) = bitmap_physical st.
Proof.
  revert st. induction entries as [|e es IH]; intros st; [done|]. simpl. rewrite IH.
  unfold mark_usable. case_match; [done|]. generalize (align_up (entry_base e) PMM_PAGE_SIZE) at 2.
  generalize (range_trips (align_up (entry_base e) PMM_PAGE_SIZE)
    (align_down (entry_base e +! entry_length e) PMM_PAGE_SIZE)).
  clear. intros n. revert st. induction n as [|n IH]; intros st a; [done|]. simpl. by rewrite IH.
Qed.

(** The sizes [pmm_init] computes, without wrap. *)
Lemma init_sizes count :
  0 <= count <= 2 ^ 40 ->
  let bitmap_size := align_up count 8 / 8 in
  let bitmap_pages := align_up bitmap_size PMM_PAGE_SIZE / PMM_PAGE_SIZE in
  let references_pages := align_up (count *! 2) PMM_PAGE_SIZE / PMM_PAGE_SIZE in
  count <= 8 * bitmap_size /\ 0 <= bitmap_size <= 2 ^ 40 /\
  0 <= bitmap_pages <= 2 ^ 40 /\ 0 <= references_pages <= 2 ^ 40.
Proof.
  intros Hc. cbn zeta.
  assert (Hbs : align_up count 8 / 8 = (count + 7) / 8).
  { rewrite (align_up_pow2 _ 3) by lia. rewrite Z.div_mul by lia. done. }
  rewrite Hbs. assert (0 <= (count + 7) / 8 <= 2 ^ 40).
  { split; [apply Z.div_pos; lia|]. apply Z.div_le_upper_bound; lia. }
  assert (count <= 8 * ((count + 7) / 8)).
  { pose proof (Z.div_mod (count + 7) 8). pose proof (Z.mod_pos_bound (count + 7) 8). lia. }
  rewrite (u64_small (count * 2)) by (unfold is_u64; lia).
  rewrite !(align_up_pow2 _ 12) by lia. rewrite !Z.div_mul by (unfold PMM_PAGE_SIZE; lia).
  change (2 ^ 12) with 4096. split_and!; try done;
    try (apply Z.div_pos; lia); apply Z.div_le_upper_bound; lia.
Qed.

Lemma replicate_full n q :
  0 <= q < 8 * Z.of_nat n -> Z.testbit (aget 0 (replicate n 255) (q / 8)) (q mod 8) = true.
Proof.
  intros Hq. assert (0 <= q / 8 < Z.of_nat n).
  { split; [apply Z.div_pos; lia | apply Z.div_lt_upper_bound; lia]. }
  unfold aget. rewrite lookup_replicate_2 by lia. simpl. change 255 with (Z.ones 8).
  apply Z.ones_spec_low. apply Z.mod_pos_bound. lia.
Qed.

(** The state of [pmm_init] once the arrays are placed in entry [e], which has
    room for them. *)
Section InitState.

Context (entries : list limine_memmap_entry) (offset count size bp rp : Z)
  (e : limine_memmap_entry).
Context (Hok : Forall entry_ok entries) (Hdis : ForallOrdPairs entries_disjoint entries)
  (Hcount : count * PMM_PAGE_SIZE = highest_usable entries)
  (Hsize : count <= 8 * size) (Hsize' : 0 <= size <= 2 ^ 40)
  (Hbp : 0 <= bp <= 2 ^ 40) (Hrp : 0 <= rp <= 2 ^ 40)
  (He : e ∈ entries) (Hu : entry_is_usable e = true)
  (Hroom : (bp + rp) * PMM_PAGE_SIZE <= entry_length e).

Definition init_filled : pmm_state :=
  mk_pmm (replicate (Z.to_nat size) 255) (replicate (Z.to_nat count) 0) (entry_base e) bp
    (entry_base e +! bp *! PMM_PAGE_SIZE) rp count 0 0 0 offset entries.

Definition init_final : pmm_state :=
  with_search_start
    (for_up (Z.to_nat (bp + rp)) (entry_page e) reserve_page (fold_left mark_usable entries init_filled))
    (entry_page e +! (bp + rp)).

Lemma init_count : 0 <= count <= 2 ^ 40.
Proof using Hok Hcount.
  destruct (highest_usable_spec entries Hok) as (Hh & _). unfold PMM_PAGE_SIZE in *. lia.
Qed.

Lemma init_entry :
  entry_base e = entry_page e * PMM_PAGE_SIZE /\ entry_length e = entry_pages e * PMM_PAGE_SIZE /\
  0 <= entry_page e /\ entry_page e + entry_pages e <= count /\ bp + rp <= entry_pages e.
Proof using Hok Hcount He Hu Hroom.
  destruct (highest_usable_spec entries Hok) as (_ & _ & Hhe).
  rewrite Forall_forall in Hhe. specialize (Hhe e He Hu).
  pose proof Hok as Hok'. rewrite Forall_forall in Hok'.
  destruct (entry_exact e (Hok' e He) Hu) as (Eb & El & Hep & Hen).
  unfold PMM_PAGE_SIZE in *. split_and!; lia.
Qed.

Lemma init_bounds :
  Forall (fun f => entry_is_usable f = true -> entry_page f + entry_pages f <= count) entries.
Proof using Hok Hcount.
  destruct (highest_usable_spec entries Hok) as (_ & _ & Hhe). rewrite Forall_forall in *.
  intros f Hf Huf. specialize (Hhe f Hf Huf).
  destruct (entry_exact f (Hok f Hf) Huf) as (? & ? & _). unfold PMM_PAGE_SIZE in *. lia.
Qed.

Lemma init_filled_none q : 0 <= q < 8 * size -> page_free init_filled q = false.
Proof using Type.
  intros Hq. unfold page_free. rewrite bitmap_test_bit. unfold bitmap_byte. simpl.
  by rewrite replicate_full by lia.
Qed.

Lemma init_final_pages :
  same_shape init_filled init_final /\
  page_references init_final = page_references init_filled /\
  free_pages init_final = free_count init_final /\
  (forall q, 0 <= q < count ->
     page_free init_final q =
     existsb (fun f => page_in_entry f q) entries && negb (in_run (entry_page e) (bp + rp) q)).
Proof using Hok Hdis Hcount Hsize Hsize' Hbp Hrp He Hu Hroom.
  pose proof init_count as Hc. pose proof init_entry as (Eb & El & Hep & Hpages & Hfit).
  pose proof init_bounds as Hb.
  assert (Hlen : alen (bitmap init_filled) = size) by (unfold alen; simpl; rewrite length_replicate; lia).
  destruct (mark_all_spec entries init_filled count) as (A1 & A2 & A3 & A4);
    [done | done | lia | lia | done | | |].
  { symmetry. apply count_up_none. intros q Hq. apply init_filled_none. lia. }
  { intros q Hq Hex. apply init_filled_none. split; [done|].
    apply existsb_exists in Hex as (f & Hf & Hin). unfold page_in_entry in Hin. bool_prop.
    rewrite in_run_spec in *. rewrite Forall_forall in Hb. apply list_elem_of_In in Hf.
    specialize (Hb f Hf ltac:(done)). lia. }
  destruct (reserve_run_spec (Z.to_nat (bp + rp)) (entry_page e) (fold_left mark_usable entries init_filled) count)
    as (B1 & B2 & B3 & B4); rewrite ?Z2Nat.id by lia;
    [lia | lia | lia | rewrite (ss_bitmap _ _ A1); lia | | done |].
  { intros q Hq. rewrite A4 by lia. apply orb_true_iff. left. apply existsb_exists. exists e.
    split; [by apply list_elem_of_In|]. unfold page_in_entry. rewrite Hu. simpl. apply in_run_spec. lia. }
  rewrite Z2Nat.id in B4 by lia.
  assert (Hss : same_shape init_filled init_final).
  { etrans; [done|]. etrans; [done | apply shape_search]. }
  split_and!; [done | etrans; [apply B2 | apply A2] | |].
  - unfold free_count. rewrite (ss_page_count _ _ Hss). apply B3.
  - intros q Hq. etrans; [apply B4; lia|]. rewrite A4, init_filled_none by lia. btauto.
Qed.

Lemma init_metadata q : in_metadata init_final (q * PMM_PAGE_SIZE) = in_run (entry_page e) (bp + rp) q.
Proof using Hok Hdis Hcount Hsize Hsize' Hbp Hrp He Hu Hroom.
  destruct init_final_pages as (Hss & _). pose proof init_count.
  pose proof init_entry as (Eb & El & Hep & Hpages & Hfit).
  unfold in_metadata. rewrite (ss_bitmap_physical _ _ Hss), (ss_metadata_end _ _ Hss).
  unfold metadata_end. simpl. unfold PMM_PAGE_SIZE in *.
  rewrite (u64_small (bp * 4096)), (u64_small (rp * 4096)) by (unfold is_u64; lia).
  rewrite (u64_small (entry_base e + _)) by (unfold is_u64; lia).
  rewrite u64_small by (unfold is_u64; lia).
  rewrite Eb. unfold in_run. apply eq_iff_eq_true.
  rewrite !andb_true_iff, !Z.leb_le, !Z.ltb_lt. lia.
Qed.

Lemma init_pool q : 0 <= q < count -> page_free init_final q = in_pool init_final q.
Proof using Hok Hdis Hcount Hsize Hsize' Hbp Hrp He Hu Hroom.
  intros Hq. pose proof init_count. destruct init_final_pages as (Hss & _ & _ & ->); [|done].
  unfold in_pool. rewrite init_metadata. f_equal.
  unfold page_is_usable. rewrite (ss_memory_map _ _ Hss). simpl.
  clear - Hok Hq H. induction entries as [|f rest IH]; [done|]. inversion Hok; subst. simpl. f_equal.
  - apply page_in_entry_usable; [done | lia | unfold PMM_PAGE_SIZE; lia].
  - by apply IH.
Qed.

Lemma init_reference q : reference init_final q = 0.
Proof using Hok Hdis Hcount Hsize Hsize' Hbp Hrp He Hu Hroom.
  destruct init_final_pages as (_ & Hr & _). unfold reference. rewrite Hr. simpl. unfold aget.
  destruct (replicate _ 0 !! _) eqn:E; [|done]. by apply lookup_replicate_1 in E as [-> _].
Qed.

Lemma init_usable a :
  0 <= a < 2 ^ 64 - PMM_PAGE_SIZE -> page_is_usable init_final a = true -> a / PMM_PAGE_SIZE < count.
Proof using Hok Hdis Hcount Hsize Hsize' Hbp Hrp He Hu Hroom.
  intros Ha Hus. destruct init_final_pages as (Hss & _).
  destruct (highest_usable_spec entries Hok) as (Hh & _ & Hhe). rewrite Forall_forall in Hok, Hhe.
  unfold page_is_usable in Hus. rewrite (ss_memory_map _ _ Hss) in Hus. simpl in Hus.
  apply existsb_exists in Hus as (f & Hf & Hin). unfold entry_usable in Hin. bool_prop.
  apply list_elem_of_In in Hf. apply Z.eqb_eq in H. specialize (Hhe f Hf H).
  destruct (Hok f Hf) as (? & ? & ? & _). unfold PMM_PAGE_SIZE in *.
  rewrite !u64_small in H1 by (unfold is_u64; lia). apply Z.div_lt_upper_bound; lia.
Qed.

Lemma init_final_wf : pmm_wf init_final /\ page_count init_final = count.
Proof using Hok Hdis Hcount Hsize Hsize' Hbp Hrp He Hu Hroom.
  pose proof init_count. pose proof init_entry as (_ & _ & Hep & Hpages & Hfit).
  destruct init_final_pages as (Hss & Hr & Hf & _).
  assert (Hpc : page_count init_final = count) by (rewrite (ss_page_count _ _ Hss); done).
  split; [|done]. constructor; rewrite ?Hpc; try done.
  - rewrite (ss_bitmap _ _ Hss). unfold alen. simpl. rewrite length_replicate. lia.
  - apply (ss_bytes _ _ Hss). simpl. apply Forall_replicate. lia.
  - rewrite (ss_references _ _ Hss). unfold alen. simpl. rewrite length_replicate. lia.
  - apply (ss_counts _ _ Hss). simpl. apply Forall_replicate. unfold UINT16_MAX. lia.
  - simpl. rewrite u64_small by (unfold is_u64; lia). lia.
  - apply init_usable.
  - intros q Hq Hpf. split; [apply init_reference | by rewrite <- init_pool].
  - intros q Hq Hpf. rewrite <- init_pool, Hpf, init_reference by done. split; [done | lia].
Qed.

End InitState.

(** A successful [pmm_init] establishes the invariant, with every page of a
    usable entry outside the metadata free and every other page reserved. *)
Lemma init_wf entries offset st :
  memmap_ok entries ->
  pmm_init (Some entries) (Some offset) pmm_static = (true, st) ->
  pmm_wf st /\
  forall p, 0 <= p < page_count st -> abs st p = if in_pool st p then Free else Reserved.
Proof.
  intros [Hok Hdis] Hinit. destruct (highest_usable_spec entries Hok) as (Hh & Hha & _).
  unfold pmm_init in Hinit. cbn zeta in Hinit.
  set (count := align_up (highest_usable entries) PMM_PAGE_SIZE / PMM_PAGE_SIZE) in *.
  assert (Hcount : count * PMM_PAGE_SIZE = highest_usable entries).
  { unfold count. rewrite (align_up_aligned _ 12) by (done || lia). unfold PMM_PAGE_SIZE in *.
    pose proof (Z.div_mod (highest_usable entries) 4096). lia. }
  destruct (init_sizes count (init_count entries count Hok Hcount)) as (Hs & Hs' & Hbp & Hrp).
  set (size := align_up count 8 / 8) in *.
  set (bp := align_up size PMM_PAGE_SIZE / PMM_PAGE_SIZE) in *.
  set (rp := align_up (count *! 2) PMM_PAGE_SIZE / PMM_PAGE_SIZE) in *.
  rewrite (u64_small (bp + rp)) in Hinit by (unfold is_u64; lia).
  destruct (find_metadata_region entries (bp + rp)) as [start|] eqn:Hfind; [|done].
  apply find_metadata_region_spec in Hfind as (e & He & Hu & -> & Hroom);
    [|done | lia | unfold PMM_PAGE_SIZE; lia].
  destruct (init_final_wf entries offset count size bp rp e) as (Hwf & Hpc); try done.
  assert (Hst : init_final entries offset count size bp rp e = st).
  { apply (f_equal snd) in Hinit. cbn [snd] in Hinit. rewrite <- Hinit. unfold init_final.
    by rewrite mark_all_physical. }
  rewrite <- Hst. split; [done|]. intros p Hp. rewrite Hpc in Hp. unfold abs.
  rewrite (init_pool entries offset count size bp rp e) by done.
  rewrite (init_reference entries offset count size bp rp e) by done. by case_match.
Qed.

(** *** A machine with 64 KiB of low memory that is not usable and 256 KiB of RAM *)
Definition sample_entries : list limine_memmap_entry :=
  [mk_entry 0 0x10000 1; mk_entry 0x10000 0x40000 LIMINE_MEMMAP_USABLE;
   mk_entry 0xFD000000 0x300000 7].
Definition sample_pmm : pmm_state := snd (pmm_init (Some sample_entries) (Some 0xFFFF800000000000) pmm_static).

Lemma sample_memmap_ok : memmap_ok sample_entries.
Proof.
  split.
  - repeat constructor; simpl; try lia; intros; done.
  - repeat constructor; unfold entries_disjoint; simpl; intros; (done || lia).
Qed.

Lemma sample_init : pmm_init (Some sample_entries) (Some 0xFFFF800000000000) pmm_static = (true, sample_pmm).
Proof. vm_compute. reflexivity. Qed.

Lemma sample_wf : pmm_wf sample_pmm.
Proof. apply (init_wf sample_entries 0xFFFF800000000000); [apply sample_memmap_ok | apply sample_init]. Qed.

(** ** Allocation as the clients see it *)

Lemma alloc_page_fresh reserve st :
  pmm_wf st -> 0 <= reserve ->
  (free_pages st <= reserve /\ alloc_page_with_reserve reserve st = (PMM_INVALID_ADDRESS, st)) \/
  exists q st', alloc_page_with_reserve reserve st = (q * PMM_PAGE_SIZE, st') /\
    0 <= q < page_count st /\ abs st q = Free /\ pmm_wf st' /\ same_shape st st' /\
    forall r, 0 <= r -> abs st' r = upd (abs st) q (Used 1) r.
Proof.
  intros Hwf Hres. destruct (alloc_page_spec reserve st Hwf Hres) as [?|(_ & q & Hq & Hf & ->)]; [by left|].
  right. exists q, (take_run q 1 st).
  destruct (take_run_wf st q 1 Hwf) as (W & S & _ & A);
    [lia | lia | lia | intros r Hr; by replace r with q by lia |].
  split_and!; try done; [lia | lia |]. intros r Hr. rewrite A by done. unfold upd, in_run.
  destruct (decide (r = q)) as [->|]; destruct (Z.leb_spec q q), (Z.ltb_spec q (q + 1));
    repeat case_match; bool_prop; (done || lia).
Qed.

Lemma page_references_spec st a :
  pmm_wf st -> 0 <= a < 2 ^ 64 - PMM_PAGE_SIZE -> pmm_page_references a st <> 0 ->
  used_at st a (a / PMM_PAGE_SIZE) (pmm_page_references a st).
Proof.
  intros Hwf Ha. unfold pmm_page_references. destruct (bad_address st a) eqn:Hb; [done|].
  destruct (good_page st a Hwf Ha Hb) as (E & Hp & _).
  destruct (bitmap_test st (a / PMM_PAGE_SIZE)) eqn:Ht; [|done]. intros Hn.
  split_and!; [done | lia | lia |]. apply abs_Used. unfold page_free. by rewrite Ht.
Qed.

Lemma page_references_used st a p n : pmm_wf st -> used_at st a p n -> pmm_page_references a st = n /\ 1 <= n.
Proof.
  intros Hwf Hu. destruct (used_at_good st a p n Hwf Hu) as (Hb & _ & Hd & Ht & Hr & Hn).
  unfold pmm_page_references. rewrite Hb, Hd, Ht. split; [done | lia].
Qed.

(** ** Refinement *)

Inductive pmm_op :=
| AllocPage
| AllocUserPage
| AllocContiguous (count : Z)
| FreePage (physical_address : Z)
| RetainPage (physical_address : Z).

Definition bool_result (r : bool * pmm_state) : Z * pmm_state := (if fst r then 1 else 0, snd r).

Definition run_op (op : pmm_op) (st : pmm_state) : Z * pmm_state :=
  match op with
  | AllocPage => pmm_alloc_page st
  | AllocUserPage => pmm_alloc_user_page st
  | AllocContiguous count => pmm_alloc_contiguous count st
  | FreePage a => bool_result (pmm_free_page a st)
  | RetainPage a => bool_result (pmm_retain_page a st)
  end.

(** The callers pass addresses taken from page-table entries or from the
    allocator, below the 52-bit limit; [0xFFFFFFFFFFFFF000] is excluded (see
    [page_is_usable_wraps]). *)
Definition op_ok (op : pmm_op) : Prop :=
  match op with
  | AllocContiguous count => is_u64 count
  | FreePage a | RetainPage a => 0 <= a < 2 ^ 64 - PMM_PAGE_SIZE
  | _ => True
  end.

Definition reserve_of (op : pmm_op) : option Z :=
  match op with
  | AllocPage => Some 0
  | AllocUserPage => Some PMM_KERNEL_RESERVE_PAGES
  | _ => None
  end.

Definition free_in (N : Z) (o : Z -> page_state) : Z :=
  count_up (Z.to_nat N) 0 (fun p => bool_decide (o p = Free)).

(** What the allocator promises, on the states of the [N] pages alone.  The
    search for a contiguous run is split at the hint [search_start], so it may
    miss a run that straddles the hint: it fails only when no run of
    [2 * count - 1] free pages exists. *)
Inductive pmm_spec (N : Z) (o : Z -> page_state) : pmm_op -> Z -> (Z -> page_state) -> Prop :=
| spec_alloc op reserve p :
    reserve_of op = Some reserve -> reserve < free_in N o ->
    0 <= p < N -> o p = Free ->
    pmm_spec N o op (p * PMM_PAGE_SIZE) (upd o p (Used 1))
| spec_alloc_none op reserve :
    reserve_of op = Some reserve -> free_in N o <= reserve ->
    pmm_spec N o op PMM_INVALID_ADDRESS o
| spec_contiguous count p :
    0 < count -> 0 <= p -> p + count <= N ->
    (forall q, p <= q < p + count -> o q = Free) ->
    pmm_spec N o (AllocContiguous count) (p * PMM_PAGE_SIZE)
      (fun q => if in_run p count q then Used 1 else o q)
| spec_contiguous_none count :
    (0 < count -> forall p, 0 <= p -> p + (2 * count - 1) <= N ->
       exists q, p <= q < p + (2 * count - 1) /\ o q <> Free) ->
    pmm_spec N o (AllocContiguous count) PMM_INVALID_ADDRESS o
| spec_free p n :
    0 <= p < N -> o p = Used n -> 1 < n ->
    pmm_spec N o (FreePage (p * PMM_PAGE_SIZE)) 1 (upd o p (Used (n - 1)))
| spec_free_last p :
    0 <= p < N -> o p = Used 1 ->
    pmm_spec N o (FreePage (p * PMM_PAGE_SIZE)) 1 (upd o p Free)
| spec_free_refused a :
    (forall p n, a = p * PMM_PAGE_SIZE -> 0 <= p < N -> o p <> Used n) ->
    pmm_spec N o (FreePage a) 0 o
| spec_retain p n :
    0 <= p < N -> o p = Used n -> n < UINT16_MAX ->
    pmm_spec N o (RetainPage (p * PMM_PAGE_SIZE)) 1 (upd o p (Used (n + 1)))
| spec_retain_refused a :
    (forall p n, a = p * PMM_PAGE_SIZE -> 0 <= p < N -> o p = Used n -> n = UINT16_MAX) ->
    pmm_spec N o (RetainPage a) 0 o.

Lemma free_in_abs st : free_in (page_count st) (abs st) = free_count st.
Proof.
  unfold free_in, free_count. apply count_up_ext. intros p _.
  destruct (page_free st p) eqn:E.
  - apply bool_decide_true. by apply abs_Free.
  - apply bool_decide_false. rewrite abs_Free. congruence.
Qed.

(** A stretch of [n] pages is free or has a page that is not. *)
Lemma free_or_blocked st p n :
  (forall q, p <= q < p + n -> page_free st q = true) \/
  (exists q, p <= q < p + n /\ page_free st q = false).
Proof.
  destruct (find_up (Z.to_nat n) p (fun q => negb (page_free st q))) as [q|] eqn:E.
  - apply find_up_Some in E as (Hq & Hf & _). right. exists q. bool_prop. split; [lia | done].
  - left. intros q Hq. rewrite find_up_None in E. specialize (E q ltac:(lia)). by bool_prop.
Qed.

Lemma no_run_blocker st count s p :
  0 < count -> 0 <= p -> p + (2 * count - 1) <= page_count st ->
  (forall p', ~ run_at st count 0 s p' /\ ~ run_at st count s (page_count st) p') ->
  exists q, p <= q < p + (2 * count - 1) /\ abs st q <> Free.
Proof.
  intros Hc Hp Hend Hnone. destruct (free_or_blocked st p (2 * count - 1)) as [Hall|(q & Hq & Hf)].
  - exfalso. destruct (Z.le_gt_cases (p + count) s).
    + apply (proj1 (Hnone p)). split_and!; [lia | lia |]. intros. apply Hall. lia.
    + apply (proj2 (Hnone (Z.max p s))). split_and!; [lia | lia |]. intros. apply Hall. lia.
  - exists q. split; [done|]. rewrite abs_Free. congruence.
Qed.

Lemma alloc_refines op reserve st :
  pmm_wf st -> reserve_of op = Some reserve -> 0 <= reserve ->
  let '(r, st') := alloc_page_with_reserve reserve st in
  pmm_wf st' /\ same_shape st st' /\
  exists o', pmm_spec (page_count st) (abs st) op r o' /\ forall q, 0 <= q -> abs st' q = o' q.
Proof.
  intros Hwf Hop Hres. pose proof (free_in_abs st) as Hf. rewrite <- (wf_free _ Hwf) in Hf.
  destruct (alloc_page_spec reserve st Hwf Hres) as [[Hle ->]|(Hlt & p & Hp & Hfree & ->)].
  - split_and!; [done | done |]. exists (abs st). split; [|done].
    apply (spec_alloc_none _ _ _ reserve); [done | lia].
  - destruct (take_run_wf st p 1 Hwf) as (W & S & _ & A);
      [lia | lia | lia | intros q Hq; by replace q with p by lia |].
    split_and!; [done | done |]. exists (upd (abs st) p (Used 1)). split.
    + apply (spec_alloc _ _ _ reserve); (done || lia).
    + intros q Hq. rewrite A by done. unfold upd, in_run.
      destruct (decide (q = p)) as [->|]; destruct (Z.leb_spec p p), (Z.ltb_spec p (p + 1));
        repeat case_match; bool_prop; (done || lia).
Qed.

Lemma op_refines op st :
  pmm_wf st -> op_ok op ->
  let '(r, st') := run_op op st in
  pmm_wf st' /\ same_shape st st' /\
  exists o', pmm_spec (page_count st) (abs st) op r o' /\ forall q, 0 <= q -> abs st' q = o' q.
Proof.
  intros Hwf Hop. destruct op as [| |count|a|a]; simpl in *.
  - by apply alloc_refines.
  - by apply alloc_refines.
  - pose proof (alloc_contiguous_spec count st Hwf ltac:(apply Hop)) as Hs.
    destruct (pmm_alloc_contiguous count st) as [r st'].
    destruct Hs as [(-> & -> & Hnone)|(Hpos & p & (H1 & H2 & H3) & -> & ->)].
    + split_and!; [done | done |]. exists (abs st). split; [|done].
      constructor. intros Hpos p Hp Hend. by apply (no_run_blocker st count (search_start st)), Hnone.
    + destruct (take_run_wf st p count Hwf) as (W & S & _ & A); [lia | lia | lia | |].
      { intros q Hq. by apply abs_Free, H3. }
      split_and!; [done | done |]. eexists. split; [|exact A].
      constructor; [lia | lia | lia |]. intros q Hq. by apply abs_Free, H3.
  - destruct (free_page_spec st a Hwf Hop) as [(p & n & st' & (-> & Hp & Hu) & -> & W & S & _ & A)|(Hno & ->)]; simpl.
    + split_and!; [done | done |]. eexists. split; [|exact A].
      destruct (used_at_good st (p * PMM_PAGE_SIZE) p n Hwf) as (_ & _ & _ & _ & _ & Hn); [done|].
      destruct (Z.eqb_spec n 1) as [->|]; [by constructor|]. apply spec_free; (done || lia).
    + split_and!; [done | done |]. exists (abs st). split; [|done].
      constructor. intros p n -> Hp Hu. by apply (Hno p n).
  - destruct (retain_page_spec st a Hwf Hop) as [(p & n & st' & (-> & Hp & Hu) & Hn & -> & W & S & _ & A)|(Hno & ->)]; simpl.
    + split_and!; [done | done |]. eexists. split; [|exact A]. by constructor.
    + split_and!; [done | done |]. exists (abs st). split; [|done].
      constructor. intros p n -> Hp Hu. by apply (Hno p n).
Qed.

(** C2 Every operation of the allocator refines the page-state specification
    and keeps the invariant: allocation takes a free page exactly when more
    than the reserve is free, [pmm_free_page] and [pmm_retain_page] move the
    reference count of a used page by one and refuse every other address, and
    the state of no other page changes. *)
Theorem pmm_refines op st :
  pmm_wf st -> op_ok op ->
  let '(r, st') := run_op op st in
  pmm_wf st' /\ same_shape st st' /\
  exists o', pmm_spec (page_count st) (abs st) op r o' /\ forall q, 0 <= q -> abs st' q = o' q.
Proof. apply op_refines. Qed.

Lemma pmm_refines_witness :
  pmm_wf (snd (run_op (RetainPage 0x12000) (snd (run_op (AllocContiguous 3) sample_pmm)))).
Proof.
  pose proof (pmm_refines (AllocContiguous 3) sample_pmm sample_wf) as H1.
  destruct (run_op (AllocContiguous 3) sample_pmm) as [r st'] eqn:E.
  destruct H1 as (W & _); [unfold op_ok, is_u64; lia|].
  pose proof (pmm_refines (RetainPage 0x12000) st' W) as H2. cbn [snd].
  destruct (run_op (RetainPage 0x12000) st') as [r' st''].
  destruct H2 as (W' & _); [unfold op_ok, PMM_PAGE_SIZE; lia|]. exact W'.
Defined.

(** ** Whole histories of the allocator *)

Fixpoint run_ops (ops : list pmm_op) (st : pmm_state) : list (pmm_op * Z) * pmm_state :=
  match ops with
  | [] => ([], st)
  | op :: ops =>
      let '(r, st1) := run_op op st in
      let '(events, st2) := run_ops ops st1 in
      ((op, r) :: events, st2)
  end.

(** How an operation with its result changes the references of page [p]. *)
Definition delta (p : Z) (event : pmm_op * Z) : Z :=
  let '(op, r) := event in
  match op with
  | AllocPage | AllocUserPage => if r =? p * PMM_PAGE_SIZE then 1 else 0
  | AllocContiguous count =>
      if negb (r =? PMM_INVALID_ADDRESS) && in_run (r / PMM_PAGE_SIZE) count p then 1 else 0
  | FreePage a => if (r =? 1) && (a =? p * PMM_PAGE_SIZE) then -1 else 0
  | RetainPage a => if (r =? 1) && (a =? p * PMM_PAGE_SIZE) then 1 else 0
  end.

Fixpoint balance (p : Z) (events : list (pmm_op * Z)) : Z :=
  match events with
  | [] => 0
  | e :: events => delta p e + balance p events
  end.

Definition refs_of (s : page_state) : Z := match s with Used n => n | _ => 0 end.

Definition is_reserved (s : page_state) : bool := match s with Reserved => true | _ => false end.

Lemma spec_delta N o op r o' p :
  pmm_spec N o op r o' -> N <= 2 ^ 40 -> 0 <= p < N ->
  refs_of (o' p) = refs_of (o p) + delta p (op, r) /\ is_reserved (o' p) = is_reserved (o p).
Proof.
  intros Hspec HN Hp. assert (Hinv : (PMM_INVALID_ADDRESS =? p * PMM_PAGE_SIZE) = false).
  { apply Z.eqb_neq. unfold PMM_INVALID_ADDRESS, UINT64_MAX, PMM_PAGE_SIZE. lia. }
  assert (Hpage : forall q, (q * PMM_PAGE_SIZE =? p * PMM_PAGE_SIZE) = (p =? q)).
  { intros q. unfold PMM_PAGE_SIZE. lia. }
  assert (Hupd : forall q s, upd o q s p = if p =? q then s else o p).
  { intros q s. unfold upd. destruct (decide (p = q)), (Z.eqb_spec p q); congruence. }
  inversion Hspec as [op' res q Hop _ Hq Ho|op' res Hop|count q Hc Hq Hend Ho|count
    |q n Hq Ho Hn|q Hq Ho| |q n Hq Ho Hn| ]; subst.
  - destruct op; simplify_eq/=; rewrite Hupd, Hpage;
      destruct (Z.eqb_spec p q) as [->|]; rewrite ?Ho; simpl; split; (done || lia).
  - destruct op; simplify_eq/=; rewrite ?Hinv; split; (done || lia).
  - unfold delta. assert ((q * PMM_PAGE_SIZE =? PMM_INVALID_ADDRESS) = false) as ->.
    { apply Z.eqb_neq. unfold PMM_INVALID_ADDRESS, UINT64_MAX, PMM_PAGE_SIZE. lia. }
    rewrite Z.div_mul by done. simpl. destruct (in_run q count p) eqn:E; [|split; (done || lia)].
    unfold in_run in E. bool_prop. rewrite (Ho p) by lia. done.
  - simpl. split; (done || lia).
  - simpl. rewrite Hupd, Hpage. destruct (Z.eqb_spec p q) as [->|]; rewrite ?Ho; simpl; split; (done || lia).
  - simpl. rewrite Hupd, Hpage. destruct (Z.eqb_spec p q) as [->|]; rewrite ?Ho; simpl; split; (done || lia).
  - simpl. split; (done || lia).
  - simpl. rewrite Hupd, Hpage. destruct (Z.eqb_spec p q) as [->|]; rewrite ?Ho; simpl; split; (done || lia).
  - simpl. split; (done || lia).
Qed.

Lemma run_ops_spec ops st :
  pmm_wf st -> Forall op_ok ops ->
  let '(events, st') := run_ops ops st in
  pmm_wf st' /\ same_shape st st' /\
  forall p, 0 <= p < page_count st ->
    refs_of (abs st' p) = refs_of (abs st p) + balance p events /\
    is_reserved (abs st' p) = is_reserved (abs st p).
Proof.
  revert st. induction ops as [|op ops IH]; intros st Hwf Hok; simpl.
  { split_and!; [done | done |]. split; (done || lia). }
  inversion_clear Hok as [|? ? Hop Hops]. pose proof (op_refines op st Hwf Hop) as H1.
  destruct (run_op op st) as [r st1]. destruct H1 as (W1 & S1 & o & Hspec & Ho).
  specialize (IH st1 W1 Hops). destruct (run_ops ops st1) as [events st2].
  destruct IH as (W2 & S2' & IH). split_and!; [done | by transitivity st1 |].
  intros p Hp. destruct (spec_delta _ _ _ _ _ p Hspec) as (D1 & D2);
    [apply (wf_page_count _ Hwf) | done |]. rewrite <- Ho in D1, D2 by lia.
  destruct (IH p) as (E1 & E2); [by rewrite (ss_page_count _ _ S1)|].
  change (balance p ((op, r) :: events)) with (delta p (op, r) + balance p events).
  split; [lia | congruence].
Qed.

(** In an allocated state no page has count 0: free, reserved and used pages
    are told apart by the references and the reserved bit. *)
Lemma page_free_refs st p :
  page_free st p = negb (is_reserved (abs st p)) && (refs_of (abs st p) =? 0).
Proof.
  unfold abs. destruct (page_free st p); [done|].
  destruct (Z.eqb_spec (reference st p) 0); simpl; [done|]. symmetry. by apply Z.eqb_neq.
Qed.

(** C1 From boot on, for a memory map as the Limine protocol documents it and
    for every sequence of allocator calls: the invariant holds, the reference
    count of each page is exactly the number of times it was handed out or
    retained minus the number of times it was released, and [free_pages] is
    the number of usable pages outside the allocator's metadata on which no
    reference is outstanding. *)
Theorem pmm_boot_trace entries offset ops :
  memmap_ok entries -> Forall op_ok ops ->
  forall st, pmm_init (Some entries) (Some offset) pmm_static = (true, st) ->
  let '(events, st') := run_ops ops st in
  pmm_wf st' /\
  (forall p, 0 <= p < page_count st -> refs_of (abs st' p) = balance p events) /\
  free_pages st' = count_up (Z.to_nat (page_count st)) 0
                     (fun p => in_pool st p && (balance p events =? 0)).
Proof.
  intros Hmap Hops st Hinit. destruct (init_wf _ _ _ Hmap Hinit) as (Hwf & Habs).
  pose proof (run_ops_spec ops st Hwf Hops) as H. destruct (run_ops ops st) as [events st'].
  destruct H as (W & S & H). assert (Hrefs : forall p, 0 <= p < page_count st ->
    refs_of (abs st' p) = balance p events /\ is_reserved (abs st' p) = negb (in_pool st p)).
  { intros p Hp. destruct (H p Hp) as (-> & ->). rewrite Habs by done. by destruct (in_pool st p). }
  split_and!; [done | by intros; apply Hrefs |].
  rewrite (wf_free _ W). unfold free_count. rewrite (ss_page_count _ _ S).
  apply count_up_ext. intros p Hp. rewrite page_free_refs.
  destruct (Hrefs p) as (-> & ->); [lia|]. by rewrite negb_involutive.
Qed.

Definition sample_ops : list pmm_op :=
  [AllocPage; AllocContiguous 4; RetainPage 0x12000; FreePage 0x12000; FreePage 0x12000;
   FreePage 0x12000; AllocUserPage].

Lemma pmm_boot_trace_witness :
  fst (run_ops sample_ops sample_pmm) =
    [(AllocPage, 0x12000); (AllocContiguous 4, 0x13000); (RetainPage 0x12000, 1);
     (FreePage 0x12000, 1); (FreePage 0x12000, 1); (FreePage 0x12000, 0); (AllocUserPage, PMM_INVALID_ADDRESS)] /\
  pmm_wf (snd (run_ops sample_ops sample_pmm)).
Proof.
  split; [vm_compute; reflexivity|].
  pose proof (pmm_boot_trace sample_entries 0xFFFF800000000000 sample_ops sample_memmap_ok) as H.
  assert (Hok : Forall op_ok sample_ops)
    by (repeat constructor; simpl; unfold is_u64, PMM_PAGE_SIZE; (done || lia)).
  specialize (H Hok sample_pmm sample_init). destruct (run_ops sample_ops sample_pmm). apply H.
Defined.

(** ** Limits of the allocator *)

(** Both pages of a pair are free, and the request for two contiguous pages
    fails: the search is split at the hint [search_start], which lies between
    them. *)
Example contiguous_misses_straddling_run :
  let ops := [AllocContiguous 62; FreePage 0x24000; FreePage 0x25000; FreePage 0x1A000;
              AllocContiguous 2; FreePage 0x1B000] in
  let st := snd (run_ops ops sample_pmm) in
  abs st 0x1A = Free /\ abs st 0x1B = Free /\ search_start st = 0x1B /\
  fst (pmm_alloc_contiguous 2 st) = PMM_INVALID_ADDRESS.
Proof. vm_compute. repeat split. Qed.

(** The last page of the address space passes [page_is_usable], because
    [page_address + PMM_PAGE_SIZE] wraps to 0, although the bitmap has no bit
    for it. *)
Example page_is_usable_wraps :
  page_is_usable sample_pmm 0xFFFFFFFFFFFFF000 = true /\
  bad_address sample_pmm 0xFFFFFFFFFFFFF000 = false /\
  page_count sample_pmm < 0xFFFFFFFFFFFFF000 / PMM_PAGE_SIZE.
Proof. vm_compute. repeat split. Qed.

End Pmm.
