(* ===== verification/PageTable.v ===== *)
(** * PageTable: entries and tables of four-level paging (src/mm/vmm.c)

    The part of vmm.c that only reads and writes table entries: flag tests,
    index extraction, clearing and scanning a table, and the walks that the
    operations of [Vmm] are made of.  Page tables live in the byte memory of
    [Memory]; [pmm_physical_to_virtual] is the direct map, so a dereference
    through it is an access at the physical address.

    The second half is the theory of the table tree: [table_at] follows a path
    of indices from a root, [tree_wf] says that distinct paths lead to distinct
    page-aligned tables, and the [tree_set] lemmas give the effect of one entry
    write on every path at once. *)

From S2P Require Import Prelude Memory.
Import Memory.Memory.

Module PageTable.

Definition VMM_PRESENT : Z := 2 ^ 0.
Definition VMM_WRITABLE : Z := 2 ^ 1.
Definition VMM_USER : Z := 2 ^ 2.
Definition VMM_WRITE_THROUGH : Z := 2 ^ 3.
Definition VMM_CACHE_DISABLE : Z := 2 ^ 4.
Definition VMM_NO_EXECUTE : Z := 2 ^ 63.
Definition VMM_COPY_ON_WRITE : Z := 2 ^ 9.
Definition PAGE_ADDRESS_MASK : Z := 0x000FFFFFFFFFF000.
Definition PAGE_SIZE_FLAG : Z := 2 ^ 7.
Definition ENTRY_COUNT : Z := 512.

Definition address_is_canonical (address : Z) : bool :=
  let upper := address >>! 48 in
  upper =? (if has address (2 ^ 47) then 0xFFFF else 0).

Definition table_physical (entry : Z) : Z := entry &! PAGE_ADDRESS_MASK.

(** [table[index]]. *)
Definition entry_at (m : mem) (table index : Z) : Z := read64 m (table + 8 * index).
Definition set_entry (m : mem) (table index v : Z) : mem := write64 m (table + 8 * index) v.

Definition clear_table (m : mem) (table : Z) : mem :=
  for_up 512 0 (fun i m => set_entry m table i 0) m.

Definition table_is_empty (m : mem) (table : Z) : bool :=
  match find_up 512 0 (fun i => has (entry_at m table i) VMM_PRESENT) with
  | Some _ => false
  | None => true
  end.

Definition indices (virtual_address : Z) : list Z :=
  [(virtual_address >>! 39) &! 0x1FF; (virtual_address >>! 30) &! 0x1FF;
   (virtual_address >>! 21) &! 0x1FF; (virtual_address >>! 12) &! 0x1FF].

(** ** Walks *)

(** [table[indices[level]] |= VMM_USER] down the three upper levels. *)
Fixpoint grant_user (idx : list Z) (table : Z) (m : mem) : mem :=
  match idx with
  | [] => m
  | i :: idx =>
      let m := set_entry m table i (entry_at m table i |! VMM_USER) in
      grant_user idx (table_physical (entry_at m table i)) m
  end.

(** The walk of the upper levels, with the tables passed and the index taken
    in each, innermost first. *)
Fixpoint unmap_descend (m : mem) (idx : list Z) (table : Z) (tables : list (Z * Z)) :
  option (Z * list (Z * Z)) :=
  match idx with
  | [] => Some (table, tables)
  | i :: idx =>
      let entry := entry_at m table i in
      if negb (has entry VMM_PRESENT) || has entry PAGE_SIZE_FLAG then None
      else unmap_descend m idx (table_physical entry) ((table, i) :: tables)
  end.

Fixpoint query_walk (m : mem) (idx : list Z) (level table effective no_execute virtual_address : Z) :
  option (Z * Z) :=
  match idx with
  | [] => None
  | i :: idx =>
      let entry := entry_at m table i in
      if negb (has entry VMM_PRESENT) || ((level =? 0) && has entry PAGE_SIZE_FLAG) then None
      else
        let effective := effective &! (entry &! (VMM_WRITABLE |! VMM_USER)) in
        let no_execute := no_execute |! (entry &! VMM_NO_EXECUTE) in
        if (level =? 3) || has entry PAGE_SIZE_FLAG then
          let size := 1 <<! (12 + 9 * (3 - level)) in
          Some (((entry &! PAGE_ADDRESS_MASK) &! not64 (size - 1)) +! (virtual_address &! (size - 1)),
                VMM_PRESENT |! effective |! no_execute |! (entry &! VMM_COPY_ON_WRITE))
        else query_walk m idx (level + 1) (table_physical entry) effective no_execute virtual_address
  end.

Fixpoint cow_descend (m : mem) (idx : list Z) (table : Z) : option Z :=
  match idx with
  | [] => Some table
  | i :: idx =>
      let entry := entry_at m table i in
      if negb (has entry VMM_PRESENT) || has entry PAGE_SIZE_FLAG then None
      else cow_descend m idx (table_physical entry)
  end.

(** [for (i = 0; i < PMM_PAGE_SIZE; i++) destination[i] = source[i];] *)
Definition copy_page (m : mem) (destination source : Z) : mem :=
  for_up 4096 0 (fun i m => wr m (destination + i) (rd m (source + i))) m.

Arguments indices : simpl never.
Arguments entry_at : simpl never.
Arguments set_entry : simpl never.
Arguments clear_table : simpl never.
Arguments copy_page : simpl never.

(** ** Flags *)

Lemma has_PRESENT e : has e VMM_PRESENT = Z.testbit e 0.
Proof. by apply has_pow2. Qed.
Lemma has_WRITABLE e : has e VMM_WRITABLE = Z.testbit e 1.
Proof. by apply has_pow2. Qed.
Lemma has_USER e : has e VMM_USER = Z.testbit e 2.
Proof. by apply has_pow2. Qed.
Lemma has_PS e : has e PAGE_SIZE_FLAG = Z.testbit e 7.
Proof. by apply has_pow2. Qed.
Lemma has_COW e : has e VMM_COPY_ON_WRITE = Z.testbit e 9.
Proof. by apply has_pow2. Qed.
Lemma has_NX e : has e VMM_NO_EXECUTE = Z.testbit e 63.
Proof. by apply has_pow2. Qed.

(** Every flag test as a bit test. *)
Ltac flags := rewrite ?has_PRESENT, ?has_WRITABLE, ?has_USER, ?has_PS, ?has_COW, ?has_NX in *.

Lemma testbit_mask i : 0 <= i -> Z.testbit PAGE_ADDRESS_MASK i = (12 <=? i) && (i <? 52).
Proof.
  intros Hi. change PAGE_ADDRESS_MASK with (Z.shiftl (Z.ones 40) 12).
  rewrite Z.shiftl_spec by done. destruct (Z.leb_spec 12 i); simpl.
  - destruct (Z.ltb_spec i 52); [apply Z.ones_spec_low | apply Z.ones_spec_high]; lia.
  - apply Z.testbit_neg_r. lia.
Qed.

(** A page-aligned physical address below the 52-bit limit. *)
Definition is_page (a : Z) : Prop := a mod 2 ^ 12 = 0 /\ 0 <= a < 2 ^ 52.

Lemma is_page_u64 a : is_page a -> is_u64 a.
Proof. intros (_ & H). unfold is_u64. lia. Qed.

Lemma is_page_bits a i : is_page a -> 0 <= i -> Z.testbit a i = Z.testbit a i && ((12 <=? i) && (i <? 52)).
Proof.
  intros (H1 & H2) Hi. destruct (Z.leb_spec 12 i); [destruct (Z.ltb_spec i 52)|]; simpl.
  - by rewrite andb_true_r.
  - by rewrite (testbit_small a 52) by (done || lia).
  - by rewrite (testbit_aligned a 12) by (done || lia).
Qed.

Lemma table_physical_page e : is_u64 e -> is_page (table_physical e).
Proof.
  intros He. unfold table_physical. split.
  - apply aligned_of_bits; [done|]. intros i Hi. rewrite Z.land_spec, testbit_mask by lia.
    destruct (Z.leb_spec 12 i); [lia | apply andb_false_r].
  - assert (H : 0 <= Z.land e PAGE_ADDRESS_MASK) by (apply Z.land_nonneg; right; done).
    split; [done|]. destruct (decide (Z.land e PAGE_ADDRESS_MASK = 0)) as [->|]; [lia|].
    apply Z.log2_lt_pow2; [lia|].
    apply Z.le_lt_trans with (Z.log2 PAGE_ADDRESS_MASK); [|done].
    etransitivity; [apply Z.log2_land; [unfold is_u64 in He; lia | done]|]. lia.
Qed.

Lemma is_page_mask a : is_page a -> Z.land a PAGE_ADDRESS_MASK = a.
Proof.
  intros Ha. apply Z.bits_inj'. intros i Hi. rewrite Z.land_spec, testbit_mask by done.
  symmetry. by apply is_page_bits.
Qed.

Lemma is_page_flags a f : is_page a -> Z.land PAGE_ADDRESS_MASK f = 0 -> Z.land a f = 0.
Proof. intros Ha Hf. by rewrite <- (is_page_mask a Ha), <- Z.land_assoc, Hf, Z.land_0_r. Qed.

(** The address in an entry made of a page and flags outside the mask. *)
Lemma table_physical_lor a f :
  is_page a -> Z.land f PAGE_ADDRESS_MASK = 0 -> table_physical (a |! f) = a.
Proof.
  intros Ha Hf. unfold table_physical. rewrite Z.land_lor_distr_l, Hf, Z.lor_0_r. by apply is_page_mask.
Qed.

(** Setting a flag outside the mask keeps the address. *)
Lemma table_physical_flag e f : Z.land f PAGE_ADDRESS_MASK = 0 -> table_physical (e |! f) = table_physical e.
Proof. intros Hf. unfold table_physical. by rewrite Z.land_lor_distr_l, Hf, Z.lor_0_r. Qed.

(** ** Entries of one table *)

Definition index_ok (i : Z) : Prop := 0 <= i < ENTRY_COUNT.

(** [m] and [m'] hold the same bytes in the page at [t]. *)
Definition same_page (m m' : mem) (t : Z) : Prop := forall x, t <= x < t + 4096 -> rd m' x = rd m x.

Lemma pages_apart t t' : is_page t -> is_page t' -> t <> t' -> t + 4096 <= t' \/ t' + 4096 <= t.
Proof.
  intros (H1 & _) (H2 & _) Hne. pose proof (Z.div_mod t (2 ^ 12)). pose proof (Z.div_mod t' (2 ^ 12)). lia.
Qed.

Lemma entry_ext m m' t i : (forall x, t + 8 * i <= x < t + 8 * i + 8 -> rd m' x = rd m x) -> entry_at m' t i = entry_at m t i.
Proof. apply read64_ext. Qed.

Lemma entry_same_page m m' t i : same_page m m' t -> index_ok i -> entry_at m' t i = entry_at m t i.
Proof. intros H Hi. unfold index_ok, ENTRY_COUNT in Hi. apply read64_ext. intros. apply H. lia. Qed.

Lemma set_entry_other_page m t i v t' :
  is_page t -> is_page t' -> index_ok i -> t <> t' -> same_page m (set_entry m t i v) t'.
Proof.
  intros H H' Hi Hne x Hx. unfold index_ok, ENTRY_COUNT in Hi.
  pose proof (pages_apart t t' H H' Hne). apply rd_write64_out. lia.
Qed.

Lemma entry_set_eq m t i v : is_u64 v -> entry_at (set_entry m t i v) t i = v.
Proof. apply read64_write64_eq. Qed.

Lemma entry_set_ne m t i j v : i <> j -> entry_at (set_entry m t i v) t j = entry_at m t j.
Proof. intros. apply read64_write64_ne. lia. Qed.

Lemma set_entry_write64 m t i v : set_entry m t i v = write64 m (t + 8 * i) v.
Proof. done. Qed.

Lemma rd_set_entry_out m t i v x : ~ (t + 8 * i <= x < t + 8 * i + 8) -> rd (set_entry m t i v) x = rd m x.
Proof. apply rd_write64_out. Qed.

Lemma set_entry_ok m t i v : mem_ok m -> mem_ok (set_entry m t i v).
Proof. apply write64_ok. Qed.

Lemma entry_u64 m t i : mem_ok m -> is_u64 (entry_at m t i).
Proof. apply read64_range. Qed.

Lemma clear_table_spec m t :
  mem_ok m -> let m' := clear_table m t in
  mem_ok m' /\ (forall i, index_ok i -> entry_at m' t i = 0) /\
  (forall x, ~ (t <= x < t + 4096) -> rd m' x = rd m x).
Proof.
  intros Hm. unfold clear_table.
  set (I := fun k m' => mem_ok m' /\ (forall i, 0 <= i < k -> entry_at m' t i = 0) /\
    (forall x, ~ (t <= x < t + 4096) -> rd m' x = rd m x)).
  assert (H : I (0 + Z.of_nat 512) (for_up 512 0 (fun i m => set_entry m t i 0) m)).
  { apply for_up_ind; [split_and!; [done | lia | done]|].
    intros k m' Hk (Hok & Hz & Hout). split_and!.
    - by apply set_entry_ok.
    - intros i Hi. destruct (decide (i = k)) as [->|]; [by apply entry_set_eq|].
      rewrite entry_set_ne by done. apply Hz. lia.
    - intros x Hx. unfold set_entry. rewrite rd_write64_out by lia. by apply Hout. }
  exact H.
Qed.

Lemma copy_page_spec m d s :
  mem_ok m -> d + 4096 <= s \/ s + 4096 <= d -> let m' := copy_page m d s in
  mem_ok m' /\ (forall i, 0 <= i < 4096 -> rd m' (d + i) = rd m (s + i)) /\
  (forall x, ~ (d <= x < d + 4096) -> rd m' x = rd m x).
Proof.
  intros Hm Hds. unfold copy_page.
  set (I := fun k m' => mem_ok m' /\ (forall i, 0 <= i < k -> rd m' (d + i) = rd m (s + i)) /\
    (forall x, ~ (d <= x < d + 4096) -> rd m' x = rd m x)).
  assert (H : I (0 + Z.of_nat 4096) (for_up 4096 0 (fun i m => wr m (d + i) (rd m (s + i))) m)).
  { apply for_up_ind; [split_and!; [done | lia | done]|].
    intros k m' Hk (Hok & Hc & Hout). split_and!.
    - by apply wr_ok.
    - intros i Hi. rewrite rd_wr. case_decide.
      + rewrite rd_u8, Hout by (done || lia). f_equal. lia.
      + apply Hc. lia.
    - intros x Hx. rewrite rd_wr_ne by lia. by apply Hout. }
  exact H.
Qed.

Lemma table_is_empty_spec m t :
  table_is_empty m t = true -> forall i, index_ok i -> has (entry_at m t i) VMM_PRESENT = false.
Proof.
  unfold table_is_empty. intros H i Hi. case_match eqn:E; [done|].
  rewrite find_up_None in E. apply E. unfold index_ok, ENTRY_COUNT in Hi. lia.
Qed.

(** ** The tree of tables *)

(** The table an entry points to. *)
Definition next (e : Z) : option Z :=
  if has e VMM_PRESENT && negb (has e PAGE_SIZE_FLAG) then Some (table_physical e) else None.

Fixpoint table_at (m : mem) (t : Z) (p : list Z) : option Z :=
  match p with
  | [] => Some t
  | i :: p => match next (entry_at m t i) with Some t' => table_at m t' p | None => None end
  end.

(** The entry a full list of indices ends in: the last one, or an earlier one
    that maps a large page, with the number of levels below it. *)
Fixpoint leaf (m : mem) (t : Z) (idx : list Z) : option (Z * Z) :=
  match idx with
  | [] => None
  | i :: idx =>
      let e := entry_at m t i in
      if negb (has e VMM_PRESENT) then None
      else if bool_decide (idx = []) || has e PAGE_SIZE_FLAG then Some (alen idx, e)
      else leaf m (table_physical e) idx
  end.

Definition path_ok (p : list Z) : Prop := (length p <= 3)%nat /\ Forall index_ok p.
Definition page_path (idx : list Z) : Prop := length idx = 4%nat /\ Forall index_ok idx.

Record tree_wf (m : mem) (root : Z) : Prop := {
  tw_page : forall p t, path_ok p -> table_at m root p = Some t -> is_page t;
  tw_inj : forall p q t, path_ok p -> path_ok q ->
    table_at m root p = Some t -> table_at m root q = Some t -> p = q;
}.

Lemma table_at_app m t p q :
  table_at m t (p ++ q) = match table_at m t p with Some t' => table_at m t' q | None => None end.
Proof. revert t. induction p as [|i p IH]; intros t; simpl; [done|]. destruct (next _); [apply IH | done]. Qed.

Lemma path_ok_prefix p q : path_ok (p ++ q) -> path_ok p.
Proof. intros (H1 & H2). rewrite length_app in H1. apply Forall_app in H2 as (? & ?). split; [lia | done]. Qed.

Lemma path_ok_snoc p i : path_ok p -> (length p < 3)%nat -> index_ok i -> path_ok (p ++ [i]).
Proof.
  intros (H1 & H2) Hl Hi. split; [rewrite length_app; simpl; lia|].
  apply Forall_app. split; [done | by constructor].
Qed.

(** Paths that read the same targets lead to the same table. *)
Lemma table_at_ext m m' t p :
  (forall q i r t', p = q ++ i :: r -> table_at m t q = Some t' ->
     next (entry_at m' t' i) = next (entry_at m t' i)) ->
  table_at m' t p = table_at m t p.
Proof.
  revert t. induction p as [|i p IH]; intros t H; simpl; [done|].
  rewrite (H [] i p t) by done. destruct (next (entry_at m t i)) as [t'|] eqn:E; [|done].
  apply IH. intros q j r u -> Hq. apply (H (i :: q) j r u); [done|]. simpl. by rewrite E.
Qed.

(** Two entries that a walk does not tell apart: both absent, equal, or
    pointing to the same table and differing at most in [VMM_USER], which the
    second may have gained. *)
Definition same_upper (e e' : Z) : Prop :=
  next e = next e' /\ has e VMM_WRITABLE = has e' VMM_WRITABLE /\
  has e VMM_NO_EXECUTE = has e' VMM_NO_EXECUTE /\
  (has e VMM_USER = true -> has e' VMM_USER = true).

Definition entry_sim (last : bool) (e e' : Z) : Prop :=
  e = e' \/ (has e VMM_PRESENT = false /\ has e' VMM_PRESENT = false) \/
  (last = false /\ is_Some (next e) /\ same_upper e e').

Lemma next_Some e t : next e = Some t ->
  has e VMM_PRESENT = true /\ has e PAGE_SIZE_FLAG = false /\ t = table_physical e.
Proof. unfold next. intros H. destruct (has e VMM_PRESENT), (has e PAGE_SIZE_FLAG); simplify_eq/=; done. Qed.

Lemma next_None_absent e : has e VMM_PRESENT = false -> next e = None.
Proof. unfold next. by intros ->. Qed.

Lemma entry_sim_next l e e' : entry_sim l e e' -> next e = next e'.
Proof.
  intros [->|[(H & H')|(_ & _ & H & _)]]; [done | | done].
  by rewrite !next_None_absent.
Qed.

Lemma leaf_ext m m' t idx :
  (forall q i r t', idx = q ++ i :: r -> table_at m t q = Some t' ->
     entry_sim (bool_decide (r = [])) (entry_at m t' i) (entry_at m' t' i)) ->
  leaf m' t idx = leaf m t idx.
Proof.
  revert t. induction idx as [|i idx IH]; intros t H; simpl; [done|].
  assert (Hrec : forall u, next (entry_at m t i) = Some u -> leaf m' u idx = leaf m u idx).
  { intros u Hu. apply IH. intros q j r v -> Hq. apply (H (i :: q) j r v); [done|]. simpl. by rewrite Hu. }
  destruct (H [] i idx t) as [E|[(E & E')|(Hl & (u & Hu) & E & _)]]; [done | done | | |].
  - rewrite <- E. destruct (has (entry_at m t i) VMM_PRESENT) eqn:HP; simpl; [|done].
    case_bool_decide; simpl; [done|].
    destruct (has (entry_at m t i) PAGE_SIZE_FLAG) eqn:HS; [done|].
    apply Hrec. unfold next. by rewrite HP, HS.
  - by rewrite E, E'.
  - rewrite Hl. pose proof (next_Some _ _ Hu) as (-> & -> & ->).
    rewrite E in Hu. pose proof (next_Some _ _ Hu) as (-> & -> & Hph). simpl.
    rewrite <- Hph. apply Hrec. by rewrite E.
Qed.

(** *** Trees a walk does not tell apart *)

Record tree_sim (m m' : mem) (root : Z) : Prop := {
  ts_table : forall r, path_ok r -> table_at m' root r = table_at m root r;
  ts_entry : forall r t i, path_ok r -> table_at m root r = Some t -> index_ok i ->
    entry_sim (bool_decide (length r = 3%nat)) (entry_at m t i) (entry_at m' t i);
}.

Lemma entry_sim_refl l e : entry_sim l e e.
Proof. by left. Qed.

Lemma entry_sim_trans l e1 e2 e3 : entry_sim l e1 e2 -> entry_sim l e2 e3 -> entry_sim l e1 e3.
Proof.
  intros [->|[(Ha & Hb)|(Hl & Hs & He & ? & ? & ?)]]; [done | |].
  - intros [<-|[(Hc & Hd)|(_ & (u & Hu) & _)]]; [right; by left | right; by left |].
    by rewrite (next_None_absent _ Hb) in Hu.
  - intros [<-|[(Hc & Hd)|(_ & _ & He' & ? & ? & ?)]]; [right; right; done | |].
    + destruct Hs as (u & Hu). rewrite He, (next_None_absent _ Hc) in Hu. done.
    + right; right. unfold same_upper. split_and!; (done || congruence || auto).
Qed.

Lemma tree_sim_refl m root : tree_sim m m root.
Proof. split; [done|]. intros. apply entry_sim_refl. Qed.

Lemma tree_sim_trans m1 m2 m3 root : tree_sim m1 m2 root -> tree_sim m2 m3 root -> tree_sim m1 m3 root.
Proof.
  intros H H'. split.
  - intros r Hr. by rewrite (ts_table _ _ _ H'), (ts_table _ _ _ H).
  - intros r t i Hr Ht Hi. apply entry_sim_trans with (entry_at m2 t i).
    + by apply (ts_entry _ _ _ H).
    + apply (ts_entry _ _ _ H'); [done | | done]. by rewrite (ts_table _ _ _ H).
Qed.

(** Tables reached in both memories keep the [VMM_USER] of the entries leading
    to them. *)
Definition user_kept (m m' : mem) (root : Z) : Prop :=
  forall r t i, path_ok r -> (length r < 3)%nat -> index_ok i -> table_at m root r = Some t ->
    is_Some (table_at m root (r ++ [i])) -> is_Some (table_at m' root (r ++ [i])) ->
    has (entry_at m t i) VMM_USER = true -> has (entry_at m' t i) VMM_USER = true.

Lemma table_at_next m root r t i : table_at m root r = Some t -> table_at m root (r ++ [i]) = next (entry_at m t i).
Proof. intros Ht. rewrite table_at_app, Ht. simpl. by destruct (next _). Qed.

Lemma tree_sim_user m m' root : tree_sim m m' root -> user_kept m m' root.
Proof.
  intros H r t i Hr Hl Hi Ht (u & Hu) _ HU. rewrite (table_at_next _ _ _ t) in Hu by done.
  destruct (ts_entry _ _ _ H r t i Hr Ht Hi) as [<-|[(Ha & _)|(_ & _ & _ & _ & _ & K)]]; [done | | by apply K].
  by rewrite next_None_absent in Hu.
Qed.

Lemma user_kept_trans m1 m2 m3 root :
  (forall r t, path_ok r -> table_at m1 root r = Some t -> is_Some (table_at m3 root r) -> table_at m2 root r = Some t) ->
  user_kept m1 m2 root -> user_kept m2 m3 root -> user_kept m1 m3 root.
Proof.
  intros Hmid H1 H2 r t i Hr Hl Hi Ht (u & Hu) (u' & Hu') HU.
  assert (Hri : path_ok (r ++ [i])) by (by apply path_ok_snoc).
  assert (Hm : table_at m2 root r = Some t).
  { apply Hmid; [done | done |]. rewrite table_at_app in Hu'. by destruct (table_at m3 root r). }
  assert (Hm' : table_at m2 root (r ++ [i]) = Some u) by (apply Hmid; [done | done | by exists u']).
  apply (H2 r); rewrite ?Hm', ?Hu'; try done. by apply (H1 r); rewrite ?Hu, ?Hm'.
Qed.

Lemma tree_sim_wf m m' root : tree_sim m m' root -> tree_wf m root -> tree_wf m' root.
Proof.
  intros H Hwf. split.
  - intros p t Hp Ht. rewrite (ts_table _ _ _ H) in Ht by done. by apply (tw_page _ _ Hwf p).
  - intros p q t Hp Hq Ht Ht'. rewrite (ts_table _ _ _ H) in Ht, Ht' by done. by apply (tw_inj _ _ Hwf p q t).
Qed.

Lemma page_path_split idx q i r :
  page_path idx -> idx = q ++ i :: r -> path_ok q /\ index_ok i /\ bool_decide (r = []) = bool_decide (length q = 3%nat).
Proof.
  intros (Hlen & HF) ->. apply Forall_app in HF as (HFq & HF). apply Forall_cons in HF as (Hi & _).
  rewrite length_app in Hlen. simpl in Hlen. split_and!; [split; [lia | done] | done |].
  apply bool_decide_ext. destruct r; simpl in Hlen; split; intros; (done || lia).
Qed.

Lemma tree_sim_leaf m m' root idx : tree_sim m m' root -> page_path idx -> leaf m' root idx = leaf m root idx.
Proof.
  intros H Hidx. apply leaf_ext. intros q i r t' E Hq.
  destruct (page_path_split _ _ _ _ Hidx E) as (Hpq & Hi & ->). by apply (ts_entry _ _ _ H).
Qed.

(** Memory that differs only outside the tables. *)
Lemma tree_sim_frame m m' root :
  (forall p t, path_ok p -> table_at m root p = Some t -> same_page m m' t) -> tree_sim m m' root.
Proof.
  intros H. split.
  - intros r Hr. apply table_at_ext. intros q i r' t' -> Hq. f_equal.
    apply entry_same_page; [apply (H q); [by apply (path_ok_prefix _ (i :: r')) | done]|].
    destruct Hr as (_ & HF). apply Forall_app in HF as (_ & HF). by apply Forall_cons in HF as (? & _).
  - intros r t i Hr Ht Hi. left. symmetry. by apply entry_same_page; [apply (H r)|].
Qed.

(** *** Walks compose along a path *)

Lemma leaf_app m t p t' r : table_at m t p = Some t' -> r <> [] -> leaf m t (p ++ r) = leaf m t' r.
Proof.
  intros Ht Hr. revert t Ht. induction p as [|i p IH]; intros t Ht; simpl in *; [by simplify_eq|].
  destruct (next (entry_at m t i)) as [u|] eqn:E; [|done].
  pose proof (next_Some _ _ E) as (-> & -> & ->). simpl.
  rewrite bool_decide_false; [by apply IH|]. by destruct p, r.
Qed.

Lemma leaf_at m t p t' i : table_at m t p = Some t' ->
  leaf m t (p ++ [i]) = if has (entry_at m t' i) VMM_PRESENT then Some (0, entry_at m t' i) else None.
Proof. intros Ht. rewrite (leaf_app _ _ p t') by done. simpl. by destruct (has _ VMM_PRESENT). Qed.

Lemma leaf_inv m t p i e :
  leaf m t (p ++ [i]) = Some (0, e) ->
  exists t', table_at m t p = Some t' /\ entry_at m t' i = e /\ has e VMM_PRESENT = true.
Proof.
  revert t. induction p as [|j p IH]; intros t H; simpl in *.
  - exists t. destruct (has (entry_at m t i) VMM_PRESENT) eqn:HP; simplify_eq/=. done.
  - destruct (has (entry_at m t j) VMM_PRESENT) eqn:HP; simpl in *; [|done].
    rewrite bool_decide_false in H by (by destruct p). simpl in H.
    destruct (has (entry_at m t j) PAGE_SIZE_FLAG) eqn:HS.
    + injection H as H _. unfold alen in H. rewrite length_app in H. simpl in H. lia.
    + unfold next. rewrite HP, HS. simpl. by apply IH.
Qed.

Lemma descend_table_at m idx t : cow_descend m idx t = table_at m t idx.
Proof.
  revert t. induction idx as [|i idx IH]; intros t; simpl; [done|]. unfold next.
  destruct (has _ VMM_PRESENT), (has _ PAGE_SIZE_FLAG); simpl; done.
Qed.

(** The tables passed by a walk, with the index taken in each. *)
Fixpoint passed (m : mem) (t : Z) (p : list Z) : list (Z * Z) :=
  match p with
  | [] => []
  | i :: p => (t, i) :: match next (entry_at m t i) with Some t' => passed m t' p | None => [] end
  end.

Lemma unmap_descend_table_at m idx t acc :
  unmap_descend m idx t acc =
    match table_at m t idx with Some t' => Some (t', rev (passed m t idx) ++ acc) | None => None end.
Proof.
  revert t acc. induction idx as [|i idx IH]; intros t acc; simpl; [done|]. unfold next.
  destruct (has _ VMM_PRESENT), (has _ PAGE_SIZE_FLAG); simpl; try done.
  rewrite IH. destruct (table_at _ _ idx); [|done]. by rewrite <- app_assoc.
Qed.

(** The access rights a path of tables leaves. *)
Fixpoint path_effective (m : mem) (t : Z) (p : list Z) (effective : Z) : Z :=
  match p with
  | [] => effective
  | i :: p => let e := entry_at m t i in
              path_effective m (table_physical e) p (effective &! (e &! (VMM_WRITABLE |! VMM_USER)))
  end.

Fixpoint path_no_execute (m : mem) (t : Z) (p : list Z) (no_execute : Z) : Z :=
  match p with
  | [] => no_execute
  | i :: p => let e := entry_at m t i in
              path_no_execute m (table_physical e) p (no_execute |! (e &! VMM_NO_EXECUTE))
  end.

Lemma query_walk_app m t p t' r level effective no_execute va :
  table_at m t p = Some t' -> 0 <= level -> level + alen p <= 3 ->
  query_walk m (p ++ r) level t effective no_execute va =
  query_walk m r (level + alen p) t' (path_effective m t p effective) (path_no_execute m t p no_execute) va.
Proof.
  revert t level effective no_execute.
  induction p as [|i p IH]; intros t level eff nx Ht Hl Hlen; simpl in *.
  { simplify_eq. by rewrite Z.add_0_r. }
  destruct (next (entry_at m t i)) as [u|] eqn:E; [|done].
  pose proof (next_Some _ _ E) as (-> & -> & ->). unfold alen in *. simpl in *.
  rewrite andb_false_r, orb_false_r. simpl. destruct (Z.eqb_spec level 3); [lia|].
  rewrite IH by (done || lia). f_equal. lia.
Qed.

Fixpoint path_all (m : mem) (t : Z) (p : list Z) (P : Z -> Prop) : Prop :=
  match p with
  | [] => True
  | i :: p => P (entry_at m t i) /\ path_all m (table_physical (entry_at m t i)) p P
  end.

Lemma path_all_intro m t p (P : Z -> Prop) :
  is_Some (table_at m t p) ->
  (forall q i r t', p = q ++ i :: r -> table_at m t q = Some t' -> P (entry_at m t' i)) ->
  path_all m t p P.
Proof.
  revert t. induction p as [|i p IH]; intros t Hs H; simpl; [done|].
  split; [by apply (H [] i p t)|]. simpl in Hs. destruct (next (entry_at m t i)) as [u|] eqn:E; [|by destruct Hs].
  pose proof (next_Some _ _ E) as (_ & _ & ->). apply IH; [done|].
  intros q j r t' -> Hq. apply (H (i :: q) j r t'); [done|]. simpl. by rewrite E.
Qed.

Lemma path_all_elem m t p i r t' (P : Z -> Prop) :
  path_all m t (p ++ i :: r) P -> table_at m t p = Some t' -> P (entry_at m t' i).
Proof.
  revert t. induction p as [|j p IH]; intros t; simpl; [by intros (? & _) [= <-]|].
  intros (_ & Hall) Ht. destruct (next (entry_at m t j)) as [u|] eqn:E; [|done].
  pose proof (next_Some _ _ E) as (_ & _ & ->). by apply (IH (table_physical (entry_at m t j))).
Qed.

(** A path of user entries to a table reached in both memories. *)
Lemma user_kept_path m m' root p :
  user_kept m m' root ->
  (forall r t t', path_ok r -> table_at m root r = Some t -> table_at m' root r = Some t' -> t' = t) ->
  path_ok p -> is_Some (table_at m root p) -> is_Some (table_at m' root p) ->
  path_all m root p (fun e => has e VMM_USER = true) -> path_all m' root p (fun e => has e VMM_USER = true).
Proof.
  intros Hk Hsame Hp Hs Hs' Hall. apply path_all_intro; [done|]. intros q i r t' -> Hq'.
  assert (Hpre : path_ok (q ++ [i])).
  { apply (path_ok_prefix _ r). by rewrite <- app_assoc. }
  destruct Hpre as (Hl & HF). rewrite length_app in Hl. simpl in Hl.
  apply Forall_app in HF as (HF & Hi). apply Forall_cons in Hi as (Hi & _).
  assert (Hq : path_ok q) by (split; [lia | done]).
  assert (Hsplit : forall m0, is_Some (table_at m0 root (q ++ i :: r)) -> is_Some (table_at m0 root (q ++ [i]))).
  { intros m0 Hm0. rewrite table_at_app in *. destruct (table_at m0 root q); [|by destruct Hm0]. simpl in *.
    by destruct (next _). }
  assert (exists t, table_at m root q = Some t) as (t & Ht).
  { rewrite table_at_app in Hs. destruct (table_at m root q) as [t|]; [by exists t | by destruct Hs]. }
  rewrite (Hsame q t t') by done. apply (Hk q); [done | lia | done | done | auto | auto |].
  by apply (path_all_elem m root q i r).
Qed.

Lemma path_effective_bit m t p eff k :
  Z.testbit (VMM_WRITABLE |! VMM_USER) k = true -> path_all m t p (fun e => Z.testbit e k = true) ->
  Z.testbit (path_effective m t p eff) k = Z.testbit eff k.
Proof.
  intros Hk. revert t eff. induction p as [|i p IH]; intros t eff Hall; simpl in *; [done|].
  destruct Hall as (He & Hall). rewrite IH by done. rewrite !(Z.land_spec _ _ k), He, Hk.
  by rewrite andb_true_r.
Qed.

Lemma path_no_execute_0 m t p :
  path_all m t p (fun e => has e VMM_NO_EXECUTE = false) -> path_no_execute m t p 0 = 0.
Proof.
  revert t. induction p as [|i p IH]; intros t Hall; simpl in *; [done|].
  destruct Hall as (He & Hall). unfold has in He. bool_prop. rewrite He. by apply IH.
Qed.

(** *** Indices and leaf entries *)

Lemma index_range x k : index_ok (Z.land (Z.shiftr x k) 0x1FF).
Proof.
  change 0x1FF with (Z.ones 9). rewrite Z.land_ones by done. unfold index_ok, ENTRY_COUNT.
  apply Z.mod_pos_bound. done.
Qed.

Lemma indices_path va : page_path (indices va).
Proof. split; [done|]. repeat constructor; apply index_range. Qed.

Lemma indices_split va : indices va = take 3 (indices va) ++ [aget 0 (indices va) 3].
Proof. done. Qed.

Lemma indices_table_path va : path_ok (take 3 (indices va)) /\ length (take 3 (indices va)) = 3%nat.
Proof. split; [|done]. split; [simpl; lia|]. repeat constructor; apply index_range. Qed.

(** Canonical page addresses are told apart by their indices. *)
Lemma index_div x k : 0 <= k -> Z.land (Z.shiftr x k) 0x1FF = (x / 2 ^ k) mod 512.
Proof.
  intros. change 0x1FF with (Z.ones 9). rewrite Z.land_ones, Z.shiftr_div_pow2 by lia. done.
Qed.

Lemma canonical_cases x : is_u64 x -> address_is_canonical x = true ->
  x / 2 ^ 39 < 256 \/ 2 ^ 25 - 256 <= x / 2 ^ 39.
Proof.
  intros Hx Hc. unfold address_is_canonical in Hc. rewrite Z.shiftr_div_pow2 in Hc by done.
  rewrite (has_pow2 x 47), Z.testbit_eqb in Hc by done.
  replace (x / 2 ^ 48) with (x / 2 ^ 39 / 512) in Hc by (by rewrite Z.div_div).
  replace (x / 2 ^ 47) with (x / 2 ^ 39 / 256) in Hc by (by rewrite Z.div_div).
  set (q := x / 2 ^ 39) in *. clearbody q.
  destruct (Z.eqb_spec ((q / 256) mod 2) 1); apply Z.eqb_eq in Hc; cbv iota in Hc;
    change (2 ^ 25) with 33554432; Z.div_mod_to_equations; lia.
Qed.

Lemma indices_inj a b :
  is_u64 a -> is_u64 b -> a mod 2 ^ 12 = 0 -> b mod 2 ^ 12 = 0 ->
  address_is_canonical a = true -> address_is_canonical b = true -> indices a = indices b -> a = b.
Proof.
  intros Ha Hb Ha0 Hb0 Hca Hcb E. apply canonical_cases in Hca, Hcb; [|done..].
  unfold indices in E. rewrite !index_div in E by done. injection E as E1 E2 E3 E4.
  assert (Hd : forall x, x / 2 ^ 21 = x / 2 ^ 12 / 512 /\ x / 2 ^ 30 = x / 2 ^ 12 / 512 / 512 /\
    x / 2 ^ 39 = x / 2 ^ 12 / 512 / 512 / 512) by (intros x; rewrite !Z.div_div by done; done).
  destruct (Hd a) as (A1 & A2 & A3), (Hd b) as (B1 & B2 & B3). rewrite A1, A2, A3, B1, B2, B3 in *.
  assert (Hx : a = 4096 * (a / 2 ^ 12) /\ b = 4096 * (b / 2 ^ 12)).
  { change (2 ^ 12) with 4096 in *. pose proof (Z.div_mod a 4096). pose proof (Z.div_mod b 4096). lia. }
  assert (Hr : a / 2 ^ 12 < 2 ^ 52 /\ b / 2 ^ 12 < 2 ^ 52).
  { unfold is_u64 in *. split; apply Z.div_lt_upper_bound; lia. }
  assert (0 <= a / 2 ^ 12 /\ 0 <= b / 2 ^ 12) by (unfold is_u64 in *; split; apply Z.div_pos; lia).
  set (x := a / 2 ^ 12) in *. set (y := b / 2 ^ 12) in *. clearbody x y.
  enough (x = y) by lia. change (2 ^ 25) with 33554432 in *. change (2 ^ 52) with 4503599627370496 in *.
  clear Ha Hb Ha0 Hb0 Hd A1 A2 A3 B1 B2 B3 Hx. Z.div_mod_to_equations. lia.
Qed.

Definition QUERY_FLAGS : Z := VMM_WRITABLE |! VMM_USER |! VMM_NO_EXECUTE |! VMM_COPY_ON_WRITE.

(** What a query reports for an address mapped by a last-level entry [e] below
    tables that restrict only [VMM_USER]. *)
Lemma query_last m root idx t e va user :
  path_ok idx -> length idx = 3%nat -> table_at m root idx = Some t -> is_u64 va ->
  path_all m root idx (fun e => has e VMM_WRITABLE = true) ->
  path_all m root idx (fun e => has e VMM_NO_EXECUTE = false) ->
  (has e VMM_USER = true -> path_all m root idx (fun e => has e VMM_USER = true)) ->
  has e VMM_PRESENT = true -> is_u64 e -> entry_at m t user = e ->
  query_walk m (idx ++ [user]) 0 root (VMM_WRITABLE |! VMM_USER) 0 va =
    Some (table_physical e + va mod 2 ^ 12, VMM_PRESENT |! (e &! QUERY_FLAGS)).
Proof.
  intros Hp Hl Ht Hva HW HN HU Hpr Hu Hent.
  rewrite (query_walk_app _ _ _ t) by (unfold alen; rewrite ?Hl; done || lia).
  rewrite path_no_execute_0 by done. unfold alen. rewrite Hl. simpl query_walk. rewrite Hent, Hpr. simpl negb.
  cbn [orb]. rewrite Z.lor_0_l. do 2 f_equal.
  - change (1 <<! (12 + 9 * (3 - (0 + Z.of_nat 3)))) with (2 ^ 12). rewrite land_mask_low by done.
    destruct (table_physical_page e Hu) as (Hm & Hr). fold (table_physical e).
    rewrite land_mask_down by (try lia; unfold is_u64; lia). rewrite Hm, Z.sub_0_r.
    apply u64_small. unfold is_u64. pose proof (Z.mod_pos_bound va (2 ^ 12)). lia.
  - assert (HW1 : Z.testbit (path_effective m root idx (VMM_WRITABLE |! VMM_USER)) 1 = true).
    { rewrite path_effective_bit; [done | done |]. revert HW. generalize root. clear.
      induction idx as [|i idx IH]; intros t H; simpl in *; [done|]. destruct H as (H & H').
      rewrite has_WRITABLE in H. auto. }
    assert (HU2 : Z.testbit e 2 = true -> Z.testbit (path_effective m root idx (VMM_WRITABLE |! VMM_USER)) 2 = true).
    { intros He. rewrite <- has_USER in He. specialize (HU He). rewrite path_effective_bit; [done | done |].
      revert HU. generalize root. clear.
      induction idx as [|i idx IH]; intros t H; simpl in *; [done|]. destruct H as (H & H').
      rewrite has_USER in H. auto. }
    set (eff := path_effective _ _ _ _) in *. clearbody eff. unfold QUERY_FLAGS.
    apply Z.bits_inj'. intros k Hk.
    destruct (decide (k = 0)) as [->|N0]; [by bits|].
    destruct (decide (k = 1)) as [->|N1]; [bits; by rewrite HW1|].
    destruct (decide (k = 2)) as [->|N2].
    { bits. destruct (Z.testbit e 2); [by rewrite HU2 | by rewrite andb_false_r]. }
    destruct (decide (k = 9)) as [->|N9]; [by bits|].
    destruct (decide (k = 63)) as [->|N63]; [by bits|].
    unfold VMM_PRESENT, VMM_WRITABLE, VMM_USER, VMM_NO_EXECUTE, VMM_COPY_ON_WRITE.
    rewrite ?Z.lor_spec, ?Z.land_spec, ?Z.lor_spec, !testbit_pow2, !bool_decide_false by (done || lia).
    by rewrite ?andb_false_r, ?orb_false_r, ?andb_false_r.
Qed.

(** *** One entry write *)

#[global] Opaque set_entry entry_at clear_table copy_page.

Section SetEntry.
Context (m : mem) (root t i v : Z) (p : list Z).
Context (Hwf : tree_wf m root) (Hp : path_ok p) (Ht : table_at m root p = Some t).
Context (Hi : index_ok i) (Hv : is_u64 v).

Let m' := set_entry m t i v.

Lemma set_entry_at q t' j :
  path_ok q -> table_at m root q = Some t' -> index_ok j ->
  entry_at m' t' j = if decide (q = p /\ j = i) then v else entry_at m t' j.
Proof.
  intros Hq Hq' Hj. unfold m'. destruct (decide (q = p)) as [->|Hne].
  - rewrite Ht in Hq'. simplify_eq. destruct (decide (j = i)) as [->|].
    + rewrite decide_True by done. by apply entry_set_eq.
    + rewrite decide_False by (by intros (_ & ?)). by apply entry_set_ne.
  - rewrite decide_False by (by intros (? & _)). apply entry_same_page; [|done].
    apply set_entry_other_page; [by apply (tw_page _ _ Hwf p) | by apply (tw_page _ _ Hwf q) | done |].
    intros <-. apply Hne. by apply (tw_inj _ _ Hwf q p t).
Qed.

Lemma table_at_set_off r :
  path_ok r -> ~ (p ++ [i]) `prefix_of` r -> table_at m' root r = table_at m root r.
Proof.
  intros Hr Hpre. apply table_at_ext. intros q j r' t' -> Hq. f_equal.
  assert (index_ok j).
  { destruct Hr as (_ & HF). apply Forall_app in HF as (_ & HF). by apply Forall_cons in HF as (? & _). }
  rewrite (set_entry_at q) by (try done; by apply (path_ok_prefix _ (j :: r'))).
  rewrite decide_False; [done|]. intros (-> & ->). apply Hpre. exists r'. by rewrite <- app_assoc.
Qed.

Lemma prefix_snoc_self : ~ (p ++ [i]) `prefix_of` p.
Proof. intros Hpre%prefix_length. rewrite length_app in Hpre. simpl in Hpre. lia. Qed.

Lemma table_at_set_on q :
  table_at m' root ((p ++ [i]) ++ q) = match next v with Some t' => table_at m' t' q | None => None end.
Proof.
  rewrite <- app_assoc, table_at_app, table_at_set_off, Ht by (done || apply prefix_snoc_self).
  simpl. rewrite (set_entry_at p) by done. by rewrite decide_True.
Qed.

(** The entry keeps its target: no path notices. *)
Lemma tree_set_sim :
  entry_sim (bool_decide (length p = 3%nat)) (entry_at m t i) v -> tree_sim m m' root.
Proof.
  intros Hsim. assert (He : forall q t' j, path_ok q -> table_at m root q = Some t' -> index_ok j ->
    entry_sim (bool_decide (length q = 3%nat)) (entry_at m t' j) (entry_at m' t' j)).
  { intros q t' j Hq Hq' Hj. rewrite (set_entry_at q) by done.
    destruct (decide (q = p /\ j = i)) as [(-> & ->)|]; [|apply entry_sim_refl].
    rewrite Ht in Hq'. by simplify_eq. }
  split; [|done]. intros r Hr. apply table_at_ext. intros q j r' t' -> Hq. symmetry.
  eapply entry_sim_next, (He q); [by apply (path_ok_prefix _ (j :: r')) | done |].
  destruct Hr as (_ & HF). apply Forall_app in HF as (_ & HF). by apply Forall_cons in HF as (? & _).
Qed.

(** The entry points nowhere: the paths through it end. *)
Lemma table_at_set_none r :
  next v = None -> path_ok r ->
  table_at m' root r = if decide ((p ++ [i]) `prefix_of` r) then None else table_at m root r.
Proof.
  intros Hn Hr. case_decide as Hd; [|by apply table_at_set_off].
  destruct Hd as (q & ->). rewrite table_at_set_on, Hn. done.
Qed.

Lemma tree_set_none_wf : next v = None -> tree_wf m' root.
Proof.
  intros Hn. split.
  - intros r u Hr Hu. rewrite table_at_set_none in Hu by done. case_decide; [done|].
    by apply (tw_page _ _ Hwf r).
  - intros r q u Hr Hq Hu Hu'. rewrite table_at_set_none in Hu, Hu' by done.
    do 2 case_decide; try done. by apply (tw_inj _ _ Hwf r q u).
Qed.

(** Clearing an entry below which nothing is mapped changes no mapping. *)
Lemma leaf_unlink idx :
  has v VMM_PRESENT = false -> (forall idx, page_path idx -> (p ++ [i]) `prefix_of` idx -> leaf m root idx = None) ->
  page_path idx -> leaf m' root idx = leaf m root idx.
Proof.
  intros Hn Hnone Hidx. destruct (decide ((p ++ [i]) `prefix_of` idx)) as [Hpre|Hd].
  - rewrite (Hnone idx) by done. destruct Hpre as (r & ->). rewrite <- app_assoc.
    rewrite (leaf_app _ _ p t) by (try done; by rewrite table_at_set_off by (done || apply prefix_snoc_self)).
    simpl. rewrite (set_entry_at p), decide_True by done. by rewrite Hn.
  - apply leaf_ext. intros q j r t' E Hq. destruct (page_path_split _ _ _ _ Hidx E) as (Hpq & Hj & Hr).
    rewrite (set_entry_at q) by done. destruct (decide (q = p /\ j = i)) as [(-> & ->)|]; [|apply entry_sim_refl].
    destruct Hd. exists r. by rewrite <- app_assoc.
Qed.

(** A write to a table of the last level moves no table. *)
Lemma table_at_set_last r : length p = 3%nat -> path_ok r -> table_at m' root r = table_at m root r.
Proof.
  intros Hl Hr. apply table_at_set_off; [done|]. intros Hpre%prefix_length.
  rewrite length_app in Hpre. destruct Hr as (Hr & _). simpl in Hpre. lia.
Qed.

Lemma tree_set_last_wf : length p = 3%nat -> tree_wf m' root.
Proof.
  intros Hl. split.
  - intros r u Hr Hu. rewrite table_at_set_last in Hu by done. by apply (tw_page _ _ Hwf r).
  - intros r q u Hr Hq Hu Hu'. rewrite table_at_set_last in Hu, Hu' by done. by apply (tw_inj _ _ Hwf r q u).
Qed.

Lemma leaf_set_last idx :
  length p = 3%nat -> page_path idx ->
  leaf m' root idx = if decide (idx = p ++ [i]) then (if has v VMM_PRESENT then Some (0, v) else None)
                     else leaf m root idx.
Proof.
  intros Hl Hidx. case_decide as Hd.
  - subst idx. rewrite (leaf_app _ _ p t) by (try done; by rewrite table_at_set_last).
    simpl. rewrite (set_entry_at p), decide_True by done. by destruct (has v VMM_PRESENT).
  - apply leaf_ext. intros q j r t' E Hq. destruct (page_path_split _ _ _ _ Hidx E) as (Hpq & Hj & Hr).
    rewrite (set_entry_at q) by done. destruct (decide (q = p /\ j = i)) as [(-> & ->)|]; [|apply entry_sim_refl].
    rewrite Hl in Hr. apply bool_decide_eq_true in Hr. by subst.
Qed.

(** The entry points to an empty table that no path reached before. *)
Context (f : Z) (Hf : is_page f) (Hnext : next v = Some f).
Context (Hfresh : forall q t', path_ok q -> table_at m root q = Some t' -> t' <> f).
Context (Hempty : forall j, index_ok j -> entry_at m f j = 0).

Lemma entry_fresh j : index_ok j -> entry_at m' f j = 0.
Proof.
  intros Hj. rewrite <- (Hempty j) by done. apply entry_same_page; [|done].
  apply set_entry_other_page; [by apply (tw_page _ _ Hwf p) | done | done |]. by apply (Hfresh p).
Qed.

Lemma table_at_link r :
  path_ok r ->
  table_at m' root r = if decide (r = p ++ [i]) then Some f
                       else if decide ((p ++ [i]) `prefix_of` r) then None else table_at m root r.
Proof.
  intros Hr. destruct (decide ((p ++ [i]) `prefix_of` r)) as [(q & ->)|Hd].
  - rewrite table_at_set_on, Hnext. destruct q as [|j q].
    + rewrite decide_True by apply app_nil_r. done.
    + rewrite decide_False.
      * simpl. destruct Hr as (_ & HF). apply Forall_app in HF as (_ & HF).
        apply Forall_cons in HF as (Hj & _). by rewrite entry_fresh.
      * intros E. apply (f_equal length) in E. rewrite length_app in E. simpl in E. lia.
  - rewrite decide_False; [by apply table_at_set_off|]. intros ->. apply Hd. done.
Qed.

Lemma tree_link_wf : tree_wf m' root.
Proof.
  split.
  - intros r u Hr Hu. rewrite table_at_link in Hu by done. repeat case_decide; simplify_eq; [done|].
    by apply (tw_page _ _ Hwf r).
  - intros r q u Hr Hq Hu Hu'. rewrite table_at_link in Hu, Hu' by done.
    destruct (decide (r = p ++ [i])) as [->|], (decide (q = p ++ [i])) as [->|]; [done | | |].
    + case_decide; [done|]. injection Hu as <-. by destruct (Hfresh q f).
    + case_decide; [done|]. injection Hu' as <-. by destruct (Hfresh r f).
    + do 2 (case_decide; [done|]). by apply (tw_inj _ _ Hwf r q u).
Qed.

(** Linking an empty table below an absent entry maps nothing. *)
Lemma leaf_link idx :
  has (entry_at m t i) VMM_PRESENT = false -> (length p < 3)%nat -> page_path idx ->
  leaf m' root idx = leaf m root idx.
Proof.
  intros Habs Hl Hidx. destruct (decide ((p ++ [i]) `prefix_of` idx)) as [(r & ->)|Hd].
  - assert (Hr : exists j r', r = j :: r' /\ index_ok j).
    { destruct Hidx as (Hlen & HF). destruct r as [|j r'].
      - rewrite !length_app in Hlen. simpl in Hlen. lia.
      - apply Forall_app in HF as (_ & HF). apply Forall_cons in HF as (? & _). eauto. }
    destruct Hr as (j & r' & -> & Hj).
    rewrite (leaf_app m' _ (p ++ [i]) f); [| |done].
    + rewrite <- app_assoc, (leaf_app m _ p t) by done. simpl. rewrite Habs. simpl.
      by rewrite entry_fresh by done.
    + rewrite table_at_link, decide_True by (try done; by apply path_ok_snoc). done.
  - apply leaf_ext. intros q j r t' E Hq. destruct (page_path_split _ _ _ _ Hidx E) as (Hpq & Hj & Hr).
    rewrite (set_entry_at q) by done. destruct (decide (q = p /\ j = i)) as [(-> & ->)|]; [|apply entry_sim_refl].
    destruct Hd. exists r. by rewrite <- app_assoc.
Qed.

End SetEntry.

End PageTable.
