(* ===== verification/Vmm.v ===== *)
(** * Vmm: address spaces (src/mm/vmm.c)

    The operations on one address space: mapping, unmapping, querying and the
    resolution of copy-on-write faults.  A space is [&kernel_space] or an
    object with its own [pml4_physical], and [None] is the null pointer; [tlb]
    records the addresses given to [invlpg]. *)

From S2P Require Import Prelude Memory Pmm PageTable.
Import Memory.Memory Pmm.Pmm PageTable.PageTable.

Module Vmm.

Inductive space := KernelSpace | Space (pml4 : Z).

Record vmm_state := mk_vmm {
  pmm : pmm_state;
  memory : mem;
  cr3 : Z;
  kernel_pml4 : Z;
  tlb : list Z;
}.

Definition with_pmm s p := mk_vmm p (memory s) (cr3 s) (kernel_pml4 s) (tlb s).
Definition with_memory s m := mk_vmm (pmm s) m (cr3 s) (kernel_pml4 s) (tlb s).
Definition with_tlb s t := mk_vmm (pmm s) (memory s) (cr3 s) (kernel_pml4 s) t.

Definition is_kernel (sp : space) : bool := match sp with KernelSpace => true | Space _ => false end.

Definition pml4_physical (s : vmm_state) (sp : space) : Z :=
  match sp with KernelSpace => kernel_pml4 s | Space p => p end.

(** [create_table] stores the new table in the entry at [table[index]]. *)
Definition create_table (table index flags : Z) (s : vmm_state) : bool * vmm_state :=
  let '(physical, p) := pmm_alloc_page (pmm s) in
  let s := with_pmm s p in
  if physical =? PMM_INVALID_ADDRESS then (false, s)
  else
    let m := clear_table (memory s) physical in
    let m := set_entry m table index (physical |! VMM_PRESENT |! VMM_WRITABLE |! (flags &! VMM_USER)) in
    (true, with_memory s m).

(** [invlpg] when the space is the active one. *)
Definition flush (sp : space) (virtual_address : Z) (s : vmm_state) : vmm_state :=
  if (cr3 s &! PAGE_ADDRESS_MASK) =? pml4_physical s sp then with_tlb s (virtual_address :: tlb s) else s.

(** ** map_page_locked *)

(** The loop over the three upper levels: on the way down missing tables are
    created and recorded, most recent first, as (entry address, page). *)
Fixpoint map_descend (idx : list Z) (flags table : Z) (created : list (Z * Z)) (s : vmm_state) :
  option Z * list (Z * Z) * vmm_state :=
  match idx with
  | [] => (Some table, created, s)
  | i :: idx =>
      let entry := entry_at (memory s) table i in
      if negb (has entry VMM_PRESENT) then
        let '(ok, s) := create_table table i flags s in
        if negb ok then (None, created, s)
        else
          let entry := entry_at (memory s) table i in
          map_descend idx flags (table_physical entry) ((table + 8 * i, table_physical entry) :: created) s
      else if has entry PAGE_SIZE_FLAG then (None, created, s)
      else map_descend idx flags (table_physical entry) created s
  end.

Fixpoint rollback (created : list (Z * Z)) (s : vmm_state) : vmm_state :=
  match created with
  | [] => s
  | (entry, page) :: created =>
      let s := with_memory s (write64 (memory s) entry 0) in
      rollback created (with_pmm s (snd (pmm_free_page page (pmm s))))
  end.

Definition LEAF_FLAGS : Z :=
  VMM_WRITABLE |! VMM_USER |! VMM_WRITE_THROUGH |! VMM_CACHE_DISABLE |! VMM_NO_EXECUTE |! VMM_COPY_ON_WRITE.

Definition map_refused (sp : space) (virtual_address physical_address flags : Z) : bool :=
  negb (address_is_canonical virtual_address) ||
  negb (virtual_address mod PMM_PAGE_SIZE =? 0) ||
  negb (physical_address mod PMM_PAGE_SIZE =? 0) ||
  (physical_address =? PMM_INVALID_ADDRESS) ||
  (has flags VMM_WRITABLE && negb (has flags VMM_NO_EXECUTE)) ||
  (has flags VMM_USER && ((0x0000800000000000 <=? virtual_address) || is_kernel sp)) ||
  ((0xFFFF800000000000 <=? virtual_address) && negb (is_kernel sp)).

Definition map_page_locked (space : option space) (virtual_address physical_address flags : Z)
  (s : vmm_state) : bool * vmm_state :=
  match space with
  | None => (false, s)
  | Some sp =>
      if map_refused sp virtual_address physical_address flags then (false, s)
      else
        let idx := indices virtual_address in
        let root := pml4_physical s sp in
        let '(leaf_table, created, s) := map_descend (take 3 idx) flags root [] s in
        match leaf_table with
        | None => (false, rollback created s)
        | Some table =>
            let i := aget 0 idx 3 in
            if has (entry_at (memory s) table i) VMM_PRESENT then (false, rollback created s)
            else
              let m := set_entry (memory s) table i
                         (physical_address |! VMM_PRESENT |! (flags &! LEAF_FLAGS)) in
              let m := if has flags VMM_USER then grant_user (take 3 idx) root m else m in
              (true, flush sp virtual_address (with_memory s m))
        end
  end.

Definition vmm_space_map_page := map_page_locked.

Definition vmm_map_page (virtual_address physical_address flags : Z) : vmm_state -> bool * vmm_state :=
  vmm_space_map_page (Some KernelSpace) virtual_address physical_address flags.

(** ** vmm_space_unmap_page *)

(** Freeing the tables that became empty: [table] is [tables[level]] and the
    head of the list its parent with the index in it. *)
Fixpoint prune (table : Z) (parents : list (Z * Z)) (s : vmm_state) : vmm_state :=
  match parents with
  | [] => s
  | (parent, i) :: parents =>
      if negb (table_is_empty (memory s) table) then s
      else
        let table_page := table_physical (entry_at (memory s) parent i) in
        let s := with_memory s (set_entry (memory s) parent i 0) in
        prune parent parents (with_pmm s (snd (pmm_free_page table_page (pmm s))))
  end.

Definition vmm_space_unmap_page (space : option space) (virtual_address : Z) (s : vmm_state) :
  Z * vmm_state :=
  match space with
  | None => (PMM_INVALID_ADDRESS, s)
  | Some sp =>
      if negb (address_is_canonical virtual_address) ||
         negb (virtual_address mod PMM_PAGE_SIZE =? 0) ||
         ((0xFFFF800000000000 <=? virtual_address) && negb (is_kernel sp))
      then (PMM_INVALID_ADDRESS, s)
      else
        let idx := indices virtual_address in
        match unmap_descend (memory s) (take 3 idx) (pml4_physical s sp) [] with
        | None => (PMM_INVALID_ADDRESS, s)
        | Some (table, parents) =>
            let i := aget 0 idx 3 in
            let entry := entry_at (memory s) table i in
            if negb (has entry VMM_PRESENT) then (PMM_INVALID_ADDRESS, s)
            else
              let physical_address := table_physical entry in
              let s := with_memory s (set_entry (memory s) table i 0) in
              let s := flush sp virtual_address s in
              (physical_address, prune table parents s)
        end
  end.

Definition vmm_unmap_page (virtual_address : Z) : vmm_state -> Z * vmm_state :=
  vmm_space_unmap_page (Some KernelSpace) virtual_address.

(** ** vmm_space_query *)

(** The physical address and the flags of a mapped address. *)
Definition vmm_space_query (space : option space) (virtual_address : Z) (s : vmm_state) : option (Z * Z) :=
  match space with
  | None => None
  | Some sp =>
      if negb (address_is_canonical virtual_address) then None
      else query_walk (memory s) (indices virtual_address) 0 (pml4_physical s sp)
             (VMM_WRITABLE |! VMM_USER) 0 virtual_address
  end.

Definition vmm_space_translate (space : option space) (virtual_address : Z) (s : vmm_state) : Z :=
  match vmm_space_query space virtual_address s with
  | None => PMM_INVALID_ADDRESS
  | Some (physical, _) => physical
  end.

Definition vmm_translate (virtual_address : Z) (s : vmm_state) : Z :=
  vmm_space_translate (Some (Space (cr3 s &! PAGE_ADDRESS_MASK))) virtual_address s.

(** ** vmm_space_resolve_cow *)

Definition COW_MASK : Z := VMM_PRESENT |! VMM_USER |! VMM_COPY_ON_WRITE.

Definition vmm_space_resolve_cow (space : option space) (virtual_address : Z) (s : vmm_state) :
  Z * vmm_state :=
  match space with
  | None => (0, s)
  | Some sp =>
      if negb (address_is_canonical virtual_address) then (0, s)
      else
        let idx := indices virtual_address in
        match cow_descend (memory s) (take 3 idx) (pml4_physical s sp) with
        | None => (0, s)
        | Some table =>
            let i := aget 0 idx 3 in
            let old_entry := entry_at (memory s) table i in
            if negb ((old_entry &! COW_MASK) =? COW_MASK) || has old_entry VMM_WRITABLE then (0, s)
            else
              let old_physical := table_physical old_entry in
              let references := pmm_page_references old_physical (pmm s) in
              if references =? 0 then (0, s)
              else
                let page_address := virtual_address &! not64 (PMM_PAGE_SIZE - 1) in
                if references =? 1 then
                  let new_entry := (old_entry |! VMM_WRITABLE) &! not64 VMM_COPY_ON_WRITE in
                  (1, flush sp page_address (with_memory s (set_entry (memory s) table i new_entry)))
                else
                  let '(new_physical, p) := pmm_alloc_user_page (pmm s) in
                  let s := with_pmm s p in
                  if new_physical =? PMM_INVALID_ADDRESS then (-1, s)
                  else
                    let s := with_memory s (copy_page (memory s) new_physical old_physical) in
                    let new_entry := new_physical |! (old_entry &! not64 PAGE_ADDRESS_MASK) in
                    let new_entry := (new_entry |! VMM_WRITABLE) &! not64 VMM_COPY_ON_WRITE in
                    let s := with_pmm s (snd (pmm_free_page old_physical (pmm s))) in
                    (1, flush sp page_address (with_memory s (set_entry (memory s) table i new_entry)))
        end
  end.

(** ** Well-formed spaces *)

(** The page holding [x] is not on the allocator's free list. *)
Definition page_busy (p : pmm_state) (x : Z) : Prop :=
  0 <= x / PMM_PAGE_SIZE < page_count p -> abs p (x / PMM_PAGE_SIZE) <> Free.

(** Entries above the last level restrict nothing but [VMM_USER]. *)
Definition upper_ok (e : Z) : Prop :=
  is_Some (next e) -> has e VMM_WRITABLE = true /\ has e VMM_NO_EXECUTE = false.

Record space_wf (s : vmm_state) (root : Z) : Prop := {
  sw_pmm : pmm_wf (pmm s);
  sw_mem : mem_ok (memory s);
  sw_tree : tree_wf (memory s) root;
  sw_busy : forall p t, path_ok p -> table_at (memory s) root p = Some t -> page_busy (pmm s) t;
  sw_upper : forall p t i, path_ok p -> (length p < 3)%nat -> table_at (memory s) root p = Some t ->
    index_ok i -> upper_ok (entry_at (memory s) t i);
}.

(** [x] lies in a table of the space. *)
Definition tree_byte (m : mem) (root x : Z) : Prop :=
  exists p t, path_ok p /\ table_at m root p = Some t /\ t <= x < t + 4096.

(** States that differ at most in bytes of tables and of free pages. *)
Record same_outside (s s' : vmm_state) (root : Z) : Prop := {
  so_shape : same_shape (pmm s) (pmm s');
  so_cr3 : cr3 s' = cr3 s;
  so_kernel : kernel_pml4 s' = kernel_pml4 s;
  so_tlb : tlb s' = tlb s;
  so_bytes : forall x, page_busy (pmm s) x -> ~ tree_byte (memory s) root x ->
    rd (memory s') x = rd (memory s) x;
}.

(** The same tables, the same mappings, the same pages in use. *)
Record space_sim (s s' : vmm_state) (root : Z) : Prop := {
  sim_outside : same_outside s s' root;
  sim_tree : tree_sim (memory s) (memory s') root;
  sim_abs : forall q, 0 <= q < page_count (pmm s) -> abs (pmm s') q = abs (pmm s) q;
}.

(** The same mappings with possibly more tables, taken from the free pages. *)
Record space_ext (s s' : vmm_state) (root : Z) : Prop := {
  ext_outside : same_outside s s' root;
  ext_leaf : forall idx, page_path idx -> leaf (memory s') root idx = leaf (memory s) root idx;
  ext_abs : forall q, 0 <= q < page_count (pmm s) -> abs (pmm s) q <> Free ->
    abs (pmm s') q = abs (pmm s) q;
  ext_old : forall r t, path_ok r -> table_at (memory s) root r = Some t ->
    table_at (memory s') root r = Some t;
  ext_new : forall r t, path_ok r -> table_at (memory s') root r = Some t ->
    table_at (memory s) root r = Some t \/ ~ page_busy (pmm s) t;
  ext_user : user_kept (memory s) (memory s') root;
}.

Lemma same_outside_refl s root : same_outside s s root.
Proof. by split. Qed.

Lemma space_sim_refl s root : space_sim s s root.
Proof. split; [apply same_outside_refl | apply tree_sim_refl | done]. Qed.

Lemma user_kept_refl m root : user_kept m m root.
Proof. by intros r. Qed.

Lemma space_ext_refl s root : space_ext s s root.
Proof. split; try done; [by left | apply user_kept_refl]. Qed.

Lemma page_of_byte t x : is_page t -> t <= x < t + 4096 -> x / PMM_PAGE_SIZE = t / PMM_PAGE_SIZE.
Proof.
  intros (H & _) Hx. unfold PMM_PAGE_SIZE. pose proof (Z.div_mod t 4096). change (2 ^ 12) with 4096 in H.
  symmetry. apply (Z.div_unique x 4096 (t / 4096) (x - t)); lia.
Qed.

Lemma page_busy_byte p t x : is_page t -> t <= x < t + 4096 -> page_busy p x <-> page_busy p t.
Proof. intros. unfold page_busy. by rewrite (page_of_byte t x). Qed.

Lemma same_outside_trans s1 s2 s3 root :
  tree_wf (memory s2) root -> same_outside s1 s2 root -> same_outside s2 s3 root ->
  (forall q, 0 <= q < page_count (pmm s1) -> abs (pmm s1) q <> Free -> abs (pmm s2) q = abs (pmm s1) q) ->
  (forall r t, path_ok r -> table_at (memory s2) root r = Some t ->
     table_at (memory s1) root r = Some t \/ ~ page_busy (pmm s1) t) ->
  same_outside s1 s3 root.
Proof.
  intros Hwf [S1 C1 K1 T1 B1] [S2 C2 K2 T2 B2] Habs Hnew. split; [by transitivity (pmm s2) | congruence.. |].
  intros x Hbusy Hout. rewrite B2; [by apply B1 | |].
  - unfold page_busy in *. rewrite (ss_page_count _ _ S1). intros Hx. rewrite Habs; by auto.
  - intros (r & t & Hr & Ht & Hx). destruct (Hnew r t Hr Ht) as [Ht1|Hf].
    + apply Hout. by exists r, t.
    + apply Hf. by apply (page_busy_byte _ t x); [apply (tw_page _ _ Hwf r)|..].
Qed.

Lemma space_ext_trans s1 s2 s3 root :
  tree_wf (memory s2) root -> tree_wf (memory s3) root ->
  space_ext s1 s2 root -> space_ext s2 s3 root -> space_ext s1 s3 root.
Proof.
  intros W2 W3 [O1 L1 A1 P1 N1 U1] [O2 L2 A2 P2 N2 U2]. pose proof (so_shape _ _ _ O1) as S1. split.
  - by apply (same_outside_trans s1 s2 s3).
  - intros idx Hidx. by rewrite L2, L1.
  - intros q Hq Hf. rewrite A2, A1; try done; [by rewrite (ss_page_count _ _ S1) | by rewrite A1].
  - intros r t Hr Ht. by apply P2, P1.
  - intros r t Hr Ht. destruct (N2 r t Hr Ht) as [Ht2|Hf]; [by apply N1|]. right.
    intros Hbusy. apply Hf. unfold page_busy in *. rewrite (ss_page_count _ _ S1).
    intros Hq. rewrite A1; by auto.
  - apply (user_kept_trans _ (memory s2)); [|done | done]. intros r t Hr Ht _. by apply P1.
Qed.

Lemma space_sim_trans s1 s2 s3 root :
  tree_wf (memory s2) root -> space_sim s1 s2 root -> space_sim s2 s3 root -> space_sim s1 s3 root.
Proof.
  intros W2 [O1 T1 A1] [O2 T2 A2]. pose proof (so_shape _ _ _ O1) as S1. split.
  - apply (same_outside_trans s1 s2 s3); try done; [by intros; apply A1|].
    intros r t Hr Ht. left. by rewrite (ts_table _ _ _ T1) in Ht.
  - by apply (tree_sim_trans _ (memory s2)).
  - intros q Hq. rewrite A2, A1; [done | done |]. by rewrite (ss_page_count _ _ S1).
Qed.

(** ** create_table and its undoing *)

Record created (s s' : vmm_state) (root t : Z) (p : list Z) (i f : Z) : Prop := {
  cr_wf : space_wf s' root;
  cr_ext : space_ext s s' root;
  cr_page : is_page f;
  cr_index : 0 <= f / PMM_PAGE_SIZE < page_count (pmm s);
  cr_free : abs (pmm s) (f / PMM_PAGE_SIZE) = Free;
  cr_abs : forall q, 0 <= q -> abs (pmm s') q = upd (abs (pmm s)) (f / PMM_PAGE_SIZE) (Used 1) q;
  cr_table : forall r, path_ok r -> table_at (memory s') root r =
    if decide (r = p ++ [i]) then Some f
    else if decide ((p ++ [i]) `prefix_of` r) then None else table_at (memory s) root r;
  cr_entry : forall q t' j, path_ok q -> table_at (memory s) root q = Some t' -> index_ok j ->
    ~ (q = p /\ j = i) -> entry_at (memory s') t' j = entry_at (memory s) t' j;
  cr_next : next (entry_at (memory s') t i) = Some f;
  cr_empty : forall j, index_ok j -> entry_at (memory s') f j = 0;
}.

Lemma page_address q : 0 <= q <= 2 ^ 40 - 1 -> is_page (q * PMM_PAGE_SIZE) /\ q * PMM_PAGE_SIZE / PMM_PAGE_SIZE = q.
Proof.
  intros Hq. unfold is_page, PMM_PAGE_SIZE. split; [|by apply Z.div_mul].
  change (2 ^ 12) with 4096. rewrite Z_mod_mult. lia.
Qed.

(** The entry of a new table. *)
Definition table_entry (physical flags : Z) : Z :=
  physical |! VMM_PRESENT |! VMM_WRITABLE |! (flags &! VMM_USER).

Lemma land_flag_mask x k : 0 <= k < 12 -> Z.land (Z.land x (2 ^ k)) PAGE_ADDRESS_MASK = 0.
Proof.
  intros Hk. apply Z.bits_inj_0. intros j. destruct (Z_lt_le_dec j 0); [by apply Z.testbit_neg_r|].
  rewrite !Z.land_spec, testbit_mask, testbit_pow2 by lia.
  case_bool_decide; subst; [|by rewrite andb_false_r].
  destruct (Z.leb_spec 12 k); [lia|]. by rewrite andb_false_r.
Qed.

Lemma table_entry_spec f flags :
  is_page f -> let e := table_entry f flags in
  is_u64 e /\ next e = Some f /\ has e VMM_WRITABLE = true /\ has e VMM_NO_EXECUTE = false.
Proof.
  intros Hf e. assert (Hb : forall k, 0 <= k < 12 -> Z.testbit f k = false).
  { intros k Hk. by apply (testbit_aligned f 12); [apply Hf|]. }
  assert (Hu : is_u64 e).
  { unfold e, table_entry. repeat apply lor_u64; [by apply is_page_u64 | done | done |].
    rewrite Z.land_comm. by apply land_u64. }
  split; [done|]. unfold next. unfold e, table_entry. flags.
  bits. rewrite !Hb by lia. rewrite (testbit_small f 52) by (apply Hf || lia). simpl.
  split_and!; try done. f_equal. rewrite <- !Z.lor_assoc. apply table_physical_lor; [done|].
  rewrite !Z.land_lor_distr_l. change VMM_USER with (2 ^ 2). by rewrite (land_flag_mask flags 2).
Qed.

Section CreateTable.
Context (s : vmm_state) (root t i flags q : Z) (p : list Z) (pm : pmm_state).
Context (Hwf : space_wf s root) (Hp : path_ok p) (Hlen : (length p < 3)%nat).
Context (Ht : table_at (memory s) root p = Some t) (Hi : index_ok i).
Context (Habsent : has (entry_at (memory s) t i) VMM_PRESENT = false).
Context (Hq : 0 <= q < page_count (pmm s)) (Hfree : abs (pmm s) q = Free).
Context (Wp : pmm_wf pm) (Sp : same_shape (pmm s) pm).
Context (Ap : forall r, 0 <= r -> abs pm r = upd (abs (pmm s)) q (Used 1) r).

Let f := q * PMM_PAGE_SIZE.
Let m1 := clear_table (memory s) f.
Let s' := mk_vmm pm (set_entry m1 t i (table_entry f flags)) (cr3 s) (kernel_pml4 s) (tlb s).

Lemma ct_page : is_page f /\ f / PMM_PAGE_SIZE = q.
Proof. apply page_address. pose proof (wf_page_count _ (sw_pmm _ _ Hwf)). lia. Qed.

Lemma ct_not_busy : ~ page_busy (pmm s) f.
Proof. unfold page_busy. destruct ct_page as (_ & ->). auto. Qed.

Lemma ct_fresh r t' : path_ok r -> table_at (memory s) root r = Some t' -> t' <> f.
Proof. intros Hr Hr' ->. by apply ct_not_busy, (sw_busy _ _ Hwf r). Qed.

Lemma ct_clear :
  mem_ok m1 /\ (forall j, index_ok j -> entry_at m1 f j = 0) /\
  (forall x, ~ (f <= x < f + 4096) -> rd m1 x = rd (memory s) x).
Proof. apply clear_table_spec, (sw_mem _ _ Hwf). Qed.

Lemma ct_sim1 : tree_sim (memory s) m1 root.
Proof.
  apply tree_sim_frame. intros r t' Hr Hr' x Hx. apply ct_clear.
  pose proof (ct_fresh r t' Hr Hr'). destruct ct_page as (Hf & _).
  pose proof (pages_apart t' f (tw_page _ _ (sw_tree _ _ Hwf) r t' Hr Hr') Hf). lia.
Qed.

Lemma ct_entry1 r t' j :
  path_ok r -> table_at (memory s) root r = Some t' -> index_ok j -> entry_at m1 t' j = entry_at (memory s) t' j.
Proof.
  intros Hr Hr' Hj. apply entry_same_page; [|done]. intros x Hx. apply ct_clear.
  pose proof (ct_fresh r t' Hr Hr'). destruct ct_page as (Hf & _).
  pose proof (pages_apart t' f (tw_page _ _ (sw_tree _ _ Hwf) r t' Hr Hr') Hf). lia.
Qed.

Lemma ct_table r : path_ok r -> table_at (memory s') root r =
  if decide (r = p ++ [i]) then Some f
  else if decide ((p ++ [i]) `prefix_of` r) then None else table_at (memory s) root r.
Proof.
  intros Hr. destruct ct_page as (Hf & _). destruct (table_entry_spec f flags Hf) as (Hu & Hn & _).
  rewrite <- (ts_table _ _ _ ct_sim1 r Hr). apply table_at_link; try done.
  - apply (tree_sim_wf (memory s)); [apply ct_sim1 | apply Hwf].
  - by rewrite (ts_table _ _ _ ct_sim1).
  - intros r' t' Hr' Ht'. rewrite (ts_table _ _ _ ct_sim1) in Ht' by done. by apply (ct_fresh r').
  - apply ct_clear.
Qed.

Lemma ct_entry r t' j :
  path_ok r -> table_at (memory s) root r = Some t' -> index_ok j ->
  entry_at (memory s') t' j = if decide (r = p /\ j = i) then table_entry f flags else entry_at (memory s) t' j.
Proof.
  intros Hr Hr' Hj. rewrite <- (ct_entry1 r t' j) by done.
  destruct ct_page as (Hf & _). destruct (table_entry_spec f flags Hf) as (Hu & Hn & _).
  apply (set_entry_at m1 root t i (table_entry f flags) p); try done.
  - apply (tree_sim_wf (memory s)); [apply ct_sim1 | apply Hwf].
  - by rewrite (ts_table _ _ _ ct_sim1).
  - by rewrite (ts_table _ _ _ ct_sim1).
Qed.

Lemma ct_empty j : index_ok j -> entry_at (memory s') f j = 0.
Proof.
  intros Hj. destruct ct_page as (Hf & _). destruct ct_clear as (_ & Hz & _). rewrite <- (Hz j Hj).
  apply entry_same_page; [|done]. apply set_entry_other_page; try done.
  - by apply (tw_page _ _ (sw_tree _ _ Hwf) p).
  - by apply (ct_fresh p).
Qed.

Lemma ct_leaf idx : page_path idx -> leaf (memory s') root idx = leaf (memory s) root idx.
Proof.
  intros Hidx. destruct ct_page as (Hf & _). destruct (table_entry_spec f flags Hf) as (Hu & Hn & _).
  rewrite <- (tree_sim_leaf _ _ _ _ ct_sim1 Hidx). apply (leaf_link _ _ _ _ _ p) with (f := f); try done.
  - apply (tree_sim_wf (memory s)); [apply ct_sim1 | apply Hwf].
  - by rewrite (ts_table _ _ _ ct_sim1).
  - intros r' t' Hr' Ht'. rewrite (ts_table _ _ _ ct_sim1) in Ht' by done. by apply (ct_fresh r').
  - apply ct_clear.
  - by rewrite (ct_entry1 p).
Qed.

Lemma ct_outside : same_outside s s' root.
Proof.
  split; [done | done | done | done |]. intros x Hbusy Hout. simpl. rewrite rd_set_entry_out.
  - apply ct_clear. intros Hx. apply ct_not_busy. apply (page_busy_byte _ f x); [apply ct_page | done | done].
  - intros Hx. apply Hout. exists p, t. unfold index_ok, ENTRY_COUNT in Hi. split_and!; (done || lia).
Qed.

Lemma ct_ext : space_ext s s' root.
Proof.
  split.
  - apply ct_outside.
  - apply ct_leaf.
  - intros r Hr Hrf. simpl. rewrite Ap by lia. unfold upd. rewrite decide_False; [done|]. congruence.
  - intros r t' Hr Ht'. rewrite ct_table by done. destruct (decide ((p ++ [i]) `prefix_of` r)) as [(r' & ->)|Hd].
    + rewrite <- app_assoc, table_at_app, Ht in Ht'. simpl in Ht'. by rewrite next_None_absent in Ht'.
    + rewrite decide_False; [done|]. intros ->. by apply Hd.
  - intros r t' Hr Ht'. rewrite ct_table in Ht' by done. case_decide.
    + right. injection Ht' as <-. apply ct_not_busy.
    + left. by case_decide.
  - intros r t' j Hr _ Hj Ht' (u & Hu) _ HU. rewrite (ct_entry r) by done. case_decide as Hd; [|done].
    destruct Hd as (-> & ->). rewrite (table_at_next _ _ _ t') in Hu by done. simplify_eq.
    by rewrite next_None_absent in Hu.
Qed.

Lemma ct_busy t' : page_busy (pmm s) t' \/ t' = f -> page_busy pm t'.
Proof.
  unfold page_busy. rewrite (ss_page_count _ _ Sp). intros Hb Hx. rewrite Ap by lia. unfold upd.
  case_decide; [done|]. destruct Hb as [Hb| ->]; [by apply Hb|]. by destruct ct_page.
Qed.

Lemma ct_old r t' : path_ok r -> table_at (memory s') root r = Some t' ->
  (r = p ++ [i] /\ t' = f) \/ table_at (memory s) root r = Some t'.
Proof.
  intros Hr Ht'. rewrite ct_table in Ht' by done. case_decide.
  - left. by injection Ht' as <-.
  - right. by case_decide.
Qed.

Lemma ct_wf : space_wf s' root.
Proof.
  destruct ct_page as (Hf & _). destruct (table_entry_spec f flags Hf) as (Hu & Hn & HW & HN). split.
  - done.
  - apply set_entry_ok, ct_clear.
  - apply (tree_link_wf _ _ _ _ _ p) with (f := f); try done.
    + apply (tree_sim_wf (memory s)); [apply ct_sim1 | apply Hwf].
    + by rewrite (ts_table _ _ _ ct_sim1).
    + intros r' t' Hr' Ht'. rewrite (ts_table _ _ _ ct_sim1) in Ht' by done. by apply (ct_fresh r').
    + apply ct_clear.
  - intros r t' Hr Ht'. apply ct_busy. destruct (ct_old r t' Hr Ht') as [(_ & ->)|Ho]; [by right|].
    left. by apply (sw_busy _ _ Hwf r).
  - intros r t' j Hr Hl Ht' Hj. destruct (ct_old r t' Hr Ht') as [(_ & ->)|Ho].
    + rewrite ct_empty by done. by intros (? & ?).
    + rewrite (ct_entry r) by done. case_decide; [by intros _|]. by apply (sw_upper _ _ Hwf r).
Qed.

Lemma ct_created : created s s' root t p i f.
Proof.
  destruct ct_page as (Hf & Hdiv). destruct (table_entry_spec f flags Hf) as (Hu & Hn & HW & HN).
  split; rewrite ?Hdiv.
  - apply ct_wf.
  - apply ct_ext.
  - exact Hf.
  - exact Hq.
  - exact Hfree.
  - exact Ap.
  - apply ct_table.
  - intros r t' j Hr Hr' Hj Hne. rewrite (ct_entry r) by done. by rewrite decide_False.
  - rewrite (ct_entry p), decide_True by done. done.
  - apply ct_empty.
Qed.

End CreateTable.

Lemma create_table_spec s root t p i flags :
  space_wf s root -> path_ok p -> (length p < 3)%nat -> table_at (memory s) root p = Some t ->
  index_ok i -> has (entry_at (memory s) t i) VMM_PRESENT = false ->
  create_table t i flags s = (false, s) \/
  exists f s', create_table t i flags s = (true, s') /\ created s s' root t p i f.
Proof.
  intros Hwf Hp Hlen Ht Hi Habs. unfold create_table, pmm_alloc_page.
  destruct (alloc_page_fresh 0 (pmm s) (sw_pmm _ _ Hwf)) as [(_ & ->)|(q & pm & -> & Hq & Hfree & Wp & Sp & Ap)];
    [done | left; by destruct s|].
  right. exists (q * PMM_PAGE_SIZE). eexists.
  assert (Hvalid : (q * PMM_PAGE_SIZE =? PMM_INVALID_ADDRESS) = false).
  { pose proof (wf_page_count _ (sw_pmm _ _ Hwf)). apply Z.eqb_neq.
    unfold PMM_INVALID_ADDRESS, UINT64_MAX, PMM_PAGE_SIZE. lia. }
  rewrite Hvalid. split; [reflexivity|]. by apply (ct_created s root t i flags q p pm).
Qed.

(** Undoing one creation from any state with the same tables. *)
Definition undo (entry page : Z) (s : vmm_state) : vmm_state :=
  let s := with_memory s (write64 (memory s) entry 0) in
  with_pmm s (snd (pmm_free_page page (pmm s))).

Section Undo.
Context (s s1 s2 : vmm_state) (root t i f : Z) (p : list Z).
Context (Hwf : space_wf s root) (Hp : path_ok p) (Hlen : (length p < 3)%nat).
Context (Ht : table_at (memory s) root p = Some t) (Hi : index_ok i).
Context (Habsent : has (entry_at (memory s) t i) VMM_PRESENT = false).
Context (Hcr : created s s1 root t p i f) (Hsim : space_sim s1 s2 root) (Hwf2 : space_wf s2 root).

Let s3 := undo (t + 8 * i) f s2.

Lemma un_memory : memory s3 = set_entry (memory s2) t i 0.
Proof. by rewrite set_entry_write64. Qed.

Lemma un_below r : (p ++ [i]) `prefix_of` r -> table_at (memory s) root r = None.
Proof.
  intros (r' & ->). rewrite <- app_assoc, table_at_app, Ht. simpl. by rewrite next_None_absent.
Qed.

Lemma un_table2 : table_at (memory s2) root p = Some t.
Proof. rewrite (ts_table _ _ _ (sim_tree _ _ _ Hsim)) by done. by apply (ext_old _ _ _ (cr_ext _ _ _ _ _ _ _ Hcr)). Qed.

Lemma un_table r : path_ok r -> table_at (memory s3) root r = table_at (memory s) root r.
Proof.
  intros Hr. rewrite un_memory.
  rewrite (table_at_set_none _ _ _ _ _ p); try done; [|apply Hwf2 | apply un_table2].
  case_decide as Hd; [by rewrite un_below|].
  rewrite (ts_table _ _ _ (sim_tree _ _ _ Hsim)), (cr_table _ _ _ _ _ _ _ Hcr) by done.
  rewrite decide_False; [by rewrite decide_False|]. intros ->. by apply Hd.
Qed.

Lemma un_entry r t' j : path_ok r -> table_at (memory s) root r = Some t' -> index_ok j ->
  entry_sim (bool_decide (length r = 3%nat)) (entry_at (memory s) t' j) (entry_at (memory s3) t' j).
Proof.
  intros Hr Hr' Hj. pose proof (ext_old _ _ _ (cr_ext _ _ _ _ _ _ _ Hcr) r t' Hr Hr') as Hr1.
  rewrite un_memory.
  rewrite (set_entry_at _ root _ _ _ p) with (q := r); try done;
    [|apply Hwf2 | apply un_table2 | by rewrite (ts_table _ _ _ (sim_tree _ _ _ Hsim))].
  destruct (decide (r = p /\ j = i)) as [(-> & ->)|Hd].
  - rewrite Ht in Hr'. simplify_eq. by right; left.
  - rewrite <- (cr_entry _ _ _ _ _ _ _ Hcr r t' j) by done. by apply (ts_entry _ _ _ (sim_tree _ _ _ Hsim) r).
Qed.

Lemma un_free : exists pm, pmm_free_page f (pmm s2) = (true, pm) /\ pmm_wf pm /\ same_shape (pmm s2) pm /\
  forall q, 0 <= q < page_count (pmm s) -> abs pm q = abs (pmm s) q.
Proof.
  destruct Hcr as [_ Hext Hpage Hidx Hfree Habs _ _ _ _]. destruct Hsim as [Hout _ Habs2].
  pose proof (so_shape _ _ _ (ext_outside _ _ _ Hext)) as S1. pose proof (so_shape _ _ _ Hout) as S2.
  assert (Hdiv : f = f / PMM_PAGE_SIZE * PMM_PAGE_SIZE).
  { destruct Hpage as (H & _). pose proof (Z.div_mod f 4096). unfold PMM_PAGE_SIZE in *.
    change (2 ^ 12) with 4096 in H. lia. }
  assert (Hused : used_at (pmm s2) f (f / PMM_PAGE_SIZE) 1).
  { split_and!; [done | | | ]; rewrite ?(ss_page_count _ _ S2), ?(ss_page_count _ _ S1); try apply Hidx.
    rewrite Habs2, Habs by (rewrite ?(ss_page_count _ _ S1); lia). unfold upd. by rewrite decide_True. }
  destruct (free_page_spec (pmm s2) f (sw_pmm _ _ Hwf2)) as [(q & n & pm & Hu & E & W & S & _ & A)|(Hno & _)].
  - destruct Hpage as (_ & ?). unfold PMM_PAGE_SIZE. lia.
  - destruct Hu as (Hq & Hq' & Hq''). assert (q = f / PMM_PAGE_SIZE) as ->.
    { rewrite Hq. unfold PMM_PAGE_SIZE. by rewrite Z.div_mul. }
    destruct Hused as (_ & _ & Hused). rewrite Hused in Hq''. injection Hq'' as <-.
    exists pm. split_and!; try done. intros r Hr. rewrite A by lia. unfold upd. simpl.
    destruct (decide (r = f / PMM_PAGE_SIZE)) as [->|Hne]; [done|].
    rewrite Habs2, Habs by (rewrite ?(ss_page_count _ _ S1); lia). unfold upd. by rewrite decide_False.
  - by apply Hno in Hused.
Qed.

Lemma undo_sim : space_sim s s3 root /\ space_wf s3 root.
Proof.
  destruct un_free as (pm & Hfree & Wpm & Spm & Hpm).
  assert (Htree : tree_sim (memory s) (memory s3) root) by (split; [apply un_table | apply un_entry]).
  assert (Hpm3 : pmm s3 = pm) by (unfold s3, undo; simpl; by rewrite Hfree).
  pose proof (cr_ext _ _ _ _ _ _ _ Hcr) as [O1 L1 A1 P1 N1 _]. destruct Hsim as [O2 T2 A2].
  assert (O12 : same_outside s s2 root).
  { apply (same_outside_trans s s1 s2); try done. apply (cr_wf _ _ _ _ _ _ _ Hcr). }
  assert (S03 : same_shape (pmm s) (pmm s3)).
  { rewrite Hpm3. transitivity (pmm s2); [apply O12 | done]. }
  split.
  - split; [|done|].
    + destruct O12 as [S12 C12 K12 T12 B12]. split; [done | done | done | done |].
      intros x Hb Hout. rewrite <- B12 by done. apply (rd_write64_out (memory s2) (t + 8 * i) 0 x).
      intros Hx. apply Hout. exists p, t. unfold index_ok, ENTRY_COUNT in Hi. split_and!; (done || lia).
    + by rewrite Hpm3.
  - split.
    + by rewrite Hpm3.
    + apply write64_ok, Hwf2.
    + apply (tree_sim_wf (memory s)); [done | apply Hwf].
    + intros r t' Hr Ht'. rewrite un_table in Ht' by done. pose proof (sw_busy _ _ Hwf r t' Hr Ht') as Hb.
      unfold page_busy in *. rewrite (ss_page_count _ _ S03). intros Hx. rewrite Hpm3, Hpm by done. by apply Hb.
    + intros r t' j Hr Hl Ht' Hj. rewrite un_table in Ht' by done.
      pose proof (sw_upper _ _ Hwf r t' j Hr Hl Ht' Hj) as Hup. pose proof (un_entry r t' j Hr Ht' Hj) as Hs.
      intros Hn. rewrite <- (entry_sim_next _ _ _ Hs) in Hn. specialize (Hup Hn).
      destruct Hs as [<-|[(Ha & _)|(_ & _ & _ & <- & <- & _)]]; [done | | done].
      destruct Hn as (u & Hn). by rewrite next_None_absent in Hn.
Qed.

End Undo.

(** ** The descent of [map_page_locked] *)

(** Rolling back [created] from any state like [s] restores [s0]. *)
Definition undo_ok (s0 s : vmm_state) (created : list (Z * Z)) (root : Z) : Prop :=
  forall s2, space_sim s s2 root -> space_wf s2 root ->
    space_sim s0 (rollback created s2) root /\ space_wf (rollback created s2) root.

Lemma undo_ok_created s0 s s' root t p i f created :
  space_wf s root -> path_ok p -> (length p < 3)%nat -> table_at (memory s) root p = Some t -> index_ok i ->
  has (entry_at (memory s) t i) VMM_PRESENT = false -> Vmm.created s s' root t p i f ->
  undo_ok s0 s created root -> undo_ok s0 s' ((t + 8 * i, f) :: created) root.
Proof.
  intros Hwf Hp Hl Ht Hi Ha Hcr Hundo s2 Hsim Hwf2. simpl.
  destruct (undo_sim s s' s2 root t i f p) as (Hs3 & Hwf3); try done. by apply Hundo.
Qed.

(** The tables [s'] has more than [s] lie on the path [p], and the pages taken
    for them are the only ones that left the free list. *)
Record tables_taken (s s' : vmm_state) (root : Z) (p : list Z) : Prop := {
  tt_path : forall r t, path_ok r -> table_at (memory s') root r = Some t ->
    table_at (memory s) root r = Some t \/ r `prefix_of` p;
  tt_free : forall q, 0 <= q < page_count (pmm s) -> abs (pmm s) q = Free -> abs (pmm s') q <> Free ->
    abs (pmm s') q = Used 1 /\ exists r t, path_ok r /\ table_at (memory s') root r = Some t /\ t / PMM_PAGE_SIZE = q;
}.

Lemma tables_taken_refl s root p : tables_taken s s root p.
Proof. split; [by left | done]. Qed.

Lemma tables_taken_created s s1 s' root t p i f path :
  created s s1 root t p i f -> path_ok (p ++ [i]) -> (p ++ [i]) `prefix_of` path -> space_ext s1 s' root ->
  tables_taken s1 s' root path -> tables_taken s s' root path.
Proof.
  intros Hcr Hpi Hpre Hext [P F]. pose proof (so_shape _ _ _ (ext_outside _ _ _ (cr_ext _ _ _ _ _ _ _ Hcr))) as S1. split.
  - intros r u Hr Hu. destruct (P r u Hr Hu) as [Hu1|?]; [|by right]. rewrite (cr_table _ _ _ _ _ _ _ Hcr) in Hu1 by done.
    case_decide as Hd; [subst; by right|]. left. by case_decide.
  - intros q Hq Hf Hn. rewrite <- (ss_page_count _ _ S1) in Hq.
    destruct (decide (q = f / PMM_PAGE_SIZE)) as [->|Hne].
    + assert (Hu : abs (pmm s1) (f / PMM_PAGE_SIZE) = Used 1).
      { rewrite (cr_abs _ _ _ _ _ _ _ Hcr) by lia. unfold upd. by rewrite decide_True. }
      rewrite (ext_abs _ _ _ Hext) by (done || by rewrite Hu). split; [done|]. exists (p ++ [i]), f. split_and!; try done.
      apply (ext_old _ _ _ Hext); [done|]. rewrite (cr_table _ _ _ _ _ _ _ Hcr) by done. by rewrite decide_True.
    + apply F; [done | | done]. rewrite (cr_abs _ _ _ _ _ _ _ Hcr) by lia. unfold upd. by rewrite decide_False.
Qed.

Lemma map_descend_spec idx flags root s0 s p table created :
  space_wf s root -> table_at (memory s) root p = Some table -> path_ok (p ++ idx) ->
  undo_ok s0 s created root ->
  let '(result, created', s') := map_descend idx flags table created s in
  space_wf s' root /\ space_ext s s' root /\ undo_ok s0 s' created' root /\ tables_taken s s' root (p ++ idx) /\
  match result with Some t => table_at (memory s') root (p ++ idx) = Some t | None => True end.
Proof.
  revert s p table created. induction idx as [|i idx IH]; intros s p table created Hwf Ht Hp Hundo.
  { simpl. rewrite app_nil_r. split_and!; try done; [apply space_ext_refl | apply tables_taken_refl]. }
  assert (Hpi : path_ok p) by (by apply (path_ok_prefix _ (i :: idx))).
  assert (Hi : index_ok i).
  { destruct Hp as (_ & HF). apply Forall_app in HF as (_ & HF). by apply Forall_cons in HF as (? & _). }
  assert (Hlen : (length p < 3)%nat) by (destruct Hp as (Hl & _); rewrite length_app in Hl; simpl in Hl; lia).
  assert (Hp' : path_ok ((p ++ [i]) ++ idx)) by (by rewrite <- app_assoc).
  assert (Hsplit : p ++ i :: idx = (p ++ [i]) ++ idx) by (by rewrite <- app_assoc).
  simpl. destruct (has (entry_at (memory s) table i) VMM_PRESENT) eqn:HP; simpl.
  - destruct (has (entry_at (memory s) table i) PAGE_SIZE_FLAG) eqn:HS.
    { split_and!; try done; [apply space_ext_refl | apply tables_taken_refl]. }
    rewrite Hsplit. apply IH; try done. rewrite table_at_app, Ht. simpl. unfold next. by rewrite HP, HS.
  - destruct (create_table_spec s root table p i flags) as [->|(f & s1 & -> & Hcr)]; try done; simpl.
    { split_and!; try done; [apply space_ext_refl | apply tables_taken_refl]. }
    pose proof (cr_next _ _ _ _ _ _ _ Hcr) as Hn. pose proof (next_Some _ _ Hn) as (_ & _ & Hf).
    pose proof (undo_ok_created _ _ _ _ _ _ _ _ _ Hwf Hpi Hlen Ht Hi HP Hcr Hundo) as Hundo1.
    rewrite Hf in Hundo1 at 1. pose proof (cr_wf _ _ _ _ _ _ _ Hcr) as Hwf1.
    specialize (IH s1 (p ++ [i]) (table_physical (entry_at (memory s1) table i))
      ((table + 8 * i, table_physical (entry_at (memory s1) table i)) :: created) Hwf1).
    rewrite <- Hsplit in IH. destruct (map_descend idx _ _ _ s1) as [[res cr'] s'].
    destruct IH as (W & E & U & T & R); try done.
    { rewrite table_at_app, (ext_old _ _ _ (cr_ext _ _ _ _ _ _ _ Hcr) p table Hpi Ht). simpl. by rewrite Hn, Hf. }
    split_and!; try done.
    + apply (space_ext_trans s s1 s'); [apply Hwf1 | apply W | apply (cr_ext _ _ _ _ _ _ _ Hcr) | done].
    + apply (tables_taken_created s s1 s' root table p i f); try done; [by apply (path_ok_prefix _ idx) | rewrite Hsplit; by exists idx].
Qed.

(** ** Granting user access along a path *)

Lemma set_user_sim e l :
  is_u64 e -> is_Some (next e) -> l = false -> entry_sim l e (e |! VMM_USER) /\ is_u64 (e |! VMM_USER).
Proof.
  intros Hu Hn ->. split; [|by apply lor_u64]. right; right. unfold same_upper. split_and!; [done | done | | | |].
  - unfold next. flags. bits. by rewrite table_physical_flag.
  - flags. by bits.
  - flags. by bits.
  - flags. by bits.
Qed.

Lemma path_step (p : list Z) i idx (q : list Z) j :
  p `prefix_of` q /\ (q ++ [j]) `prefix_of` (p ++ i :: idx) <->
  (q = p /\ j = i) \/ ((p ++ [i]) `prefix_of` q /\ (q ++ [j]) `prefix_of` ((p ++ [i]) ++ idx)).
Proof.
  rewrite <- app_assoc. simpl. split.
  - intros ((r & ->) & Hpre). destruct r as [|k r].
    + left. rewrite app_nil_r in *. apply prefix_app_inv in Hpre. by apply prefix_cons_inv_1 in Hpre.
    + right. split; [|done]. rewrite <- app_assoc in Hpre. apply prefix_app_inv in Hpre.
      apply prefix_cons_inv_1 in Hpre as ->. exists r. by rewrite <- app_assoc.
  - intros [(-> & ->)|((r & ->) & Hpre)].
    + split; [done|]. exists idx. by rewrite <- app_assoc.
    + split; [|done]. exists (i :: r). by rewrite <- app_assoc.
Qed.

Lemma grant_user_spec idx root p table m :
  mem_ok m -> tree_wf m root -> table_at m root p = Some table -> path_ok (p ++ idx) ->
  is_Some (table_at m root (p ++ idx)) ->
  let m' := grant_user idx table m in
  mem_ok m' /\ tree_sim m m' root /\
  (forall q t j, path_ok q -> index_ok j -> table_at m root q = Some t ->
     p `prefix_of` q /\ (q ++ [j]) `prefix_of` (p ++ idx) -> has (entry_at m' t j) VMM_USER = true) /\
  (forall q t j, path_ok q -> index_ok j -> table_at m root q = Some t ->
     ~ (p `prefix_of` q /\ (q ++ [j]) `prefix_of` (p ++ idx)) -> entry_at m' t j = entry_at m t j) /\
  (forall x, ~ tree_byte m root x -> rd m' x = rd m x).
Proof.
  revert p table m. induction idx as [|i idx IH]; intros p table m Hm Hwf Ht Hp Hsome; simpl.
  { split_and!; [done | apply tree_sim_refl | | done | done]. intros q t j _ _ _ (Hq & Hq').
    apply prefix_length in Hq, Hq'. rewrite !length_app in Hq'. simpl in Hq'. lia. }
  assert (Hpi : path_ok p) by (by apply (path_ok_prefix _ (i :: idx))).
  assert (Hi : index_ok i).
  { destruct Hp as (_ & HF). apply Forall_app in HF as (_ & HF). by apply Forall_cons in HF as (? & _). }
  assert (Hlen : (length p < 3)%nat) by (destruct Hp as (Hl & _); rewrite length_app in Hl; simpl in Hl; lia).
  assert (Hnext : is_Some (next (entry_at m table i))).
  { rewrite table_at_app, Ht in Hsome. simpl in Hsome. by destruct (next _), Hsome. }
  destruct (set_user_sim (entry_at m table i) (bool_decide (length p = 3%nat))) as (Hsim & Hu);
    [by apply entry_u64 | done | by apply bool_decide_false; lia |].
  set (v := entry_at m table i |! VMM_USER) in *. set (m1 := set_entry m table i v).
  assert (Hsim1 : tree_sim m m1 root) by (by apply (tree_set_sim _ _ _ _ _ p)).
  assert (Hent : entry_at m1 table i = v) by (by apply entry_set_eq). rewrite Hent.
  assert (Hp' : path_ok ((p ++ [i]) ++ idx)) by (by rewrite <- app_assoc).
  destruct (IH (p ++ [i]) (table_physical v) m1) as (Hm' & Hsim' & Hset & Hkeep & Hbytes).
  - by apply set_entry_ok.
  - by apply (tree_sim_wf m).
  - rewrite (ts_table _ _ _ Hsim1) by (by apply path_ok_snoc). rewrite table_at_app, Ht. simpl.
    destruct Hnext as (u & Hn). rewrite Hn. pose proof (next_Some _ _ Hn) as (_ & _ & ->).
    unfold v. by rewrite table_physical_flag.
  - done.
  - rewrite (ts_table _ _ _ Hsim1) by done. by rewrite <- app_assoc.
  - assert (Hold : forall q t j, path_ok q -> index_ok j -> table_at m root q = Some t ->
      entry_at m1 t j = if decide (q = p /\ j = i) then v else entry_at m t j).
    { intros q t j Hq Hj Hqt. by apply (set_entry_at m root table i v p). }
    split_and!; [done | by apply (tree_sim_trans _ m1) | | |].
    + intros q t j Hq Hj Hqt Hpre. apply path_step in Hpre as [(-> & ->)|Hpre].
      * rewrite (Hkeep p); [|done | done | by rewrite (ts_table _ _ _ Hsim1) |].
        -- rewrite (Hold p), decide_True by done. unfold v. flags. by bits.
        -- intros (Hpre & _). by apply (prefix_snoc_self i p).
      * apply (Hset q); [done | done | by rewrite (ts_table _ _ _ Hsim1) | done].
    + intros q t j Hq Hj Hqt Hpre. rewrite path_step in Hpre.
      rewrite (Hkeep q); [|done | done | by rewrite (ts_table _ _ _ Hsim1) | by intros ?; apply Hpre; right].
      rewrite (Hold q) by done. rewrite decide_False; [done|]. intros ?. apply Hpre. by left.
    + intros x Hx. rewrite Hbytes.
      * apply rd_set_entry_out. intros Hx'. apply Hx. exists p, table. unfold index_ok, ENTRY_COUNT in Hi.
        split_and!; (done || lia).
      * intros (q & t & Hq & Hqt & Hx'). apply Hx. exists q, t. by rewrite (ts_table _ _ _ Hsim1) in Hqt.
Qed.

(** ** map_page_locked *)

Definition leaf_entry (physical_address flags : Z) : Z :=
  physical_address |! VMM_PRESENT |! (flags &! LEAF_FLAGS).

Lemma leaf_flags_mask x : Z.land (Z.land x LEAF_FLAGS) PAGE_ADDRESS_MASK = 0.
Proof. rewrite <- Z.land_assoc. apply Z.land_0_r. Qed.

Lemma leaf_entry_bit a flags k :
  is_page a -> (k = 1 \/ k = 2 \/ k = 9 \/ k = 63) -> Z.testbit (leaf_entry a flags) k = Z.testbit flags k.
Proof.
  intros Ha Hk. unfold leaf_entry.
  assert (Hz : Z.testbit a k = false).
  { destruct Hk as [->|[->|[->| ->]]]; try (by apply (testbit_aligned a 12); [apply Ha|]).
    by apply (testbit_small a 52); [apply Ha|]. }
  destruct Hk as [->|[->|[->| ->]]]; bits; by rewrite Hz.
Qed.

Lemma leaf_entry_spec a flags :
  is_page a -> let e := leaf_entry a flags in
  is_u64 e /\ has e VMM_PRESENT = true /\ table_physical e = a.
Proof.
  intros Ha. unfold leaf_entry. split_and!.
  - repeat apply lor_u64; [by apply is_page_u64 | done |]. rewrite Z.land_comm. by apply land_u64.
  - flags. bits. by rewrite ?orb_true_r.
  - rewrite <- Z.lor_assoc. apply table_physical_lor; [done|].
    by rewrite Z.land_lor_distr_l, leaf_flags_mask.
Qed.

(** What a successful mapping does. *)
Record mapped (s s' : vmm_state) (sp : space) (va pa flags : Z) : Prop := {
  mp_outside : same_outside s (with_tlb s' (tlb s)) (pml4_physical s sp);
  mp_tlb : tlb s' = if (cr3 s &! PAGE_ADDRESS_MASK) =? pml4_physical s sp then va :: tlb s else tlb s;
  mp_unmapped : leaf (memory s) (pml4_physical s sp) (indices va) = None;
  mp_leaf : forall idx, page_path idx -> leaf (memory s') (pml4_physical s sp) idx =
    if decide (idx = indices va) then Some (0, leaf_entry pa flags)
    else leaf (memory s) (pml4_physical s sp) idx;
  mp_abs : forall q, 0 <= q < page_count (pmm s) -> abs (pmm s) q <> Free -> abs (pmm s') q = abs (pmm s) q;
  mp_query : vmm_space_query (Some sp) va s' = Some (pa, VMM_PRESENT |! (flags &! QUERY_FLAGS));
  mp_new : forall r t, path_ok r -> table_at (memory s') (pml4_physical s sp) r = Some t ->
    table_at (memory s) (pml4_physical s sp) r = Some t \/ ~ page_busy (pmm s) t;
  mp_old : forall r t, path_ok r -> table_at (memory s) (pml4_physical s sp) r = Some t ->
    table_at (memory s') (pml4_physical s sp) r = Some t;
  mp_user : user_kept (memory s) (memory s') (pml4_physical s sp);
  mp_path : has flags VMM_USER = true ->
    path_all (memory s') (pml4_physical s sp) (take 3 (indices va)) (fun e => has e VMM_USER = true);
  mp_taken : tables_taken s s' (pml4_physical s sp) (take 3 (indices va));
}.

(** The walk through tables known from the tree. *)
Lemma path_all_wf s root p (P : Z -> Prop) :
  path_ok p -> is_Some (table_at (memory s) root p) ->
  (forall q t i, path_ok q -> (length q < 3)%nat -> index_ok i -> (q ++ [i]) `prefix_of` p ->
     table_at (memory s) root q = Some t -> is_Some (next (entry_at (memory s) t i)) -> P (entry_at (memory s) t i)) ->
  path_all (memory s) root p P.
Proof.
  intros Hp Hs HP. apply path_all_intro; [done|]. intros q i r t -> Hq.
  assert (Hpre : (q ++ [i]) `prefix_of` (q ++ i :: r)) by (exists r; by rewrite <- app_assoc).
  assert (Hpi : path_ok (q ++ [i])).
  { destruct Hpre as (r' & E). rewrite E in Hp. by apply path_ok_prefix in Hp. }
  destruct Hpi as (Hl & HF). rewrite length_app in Hl. simpl in Hl.
  apply Forall_app in HF as (HF & Hi). apply Forall_cons in Hi as (Hi & _).
  apply (HP q); [split; [lia | done] | lia | done | done | done |].
  rewrite table_at_app, Hq in Hs. simpl in Hs. by destruct (next _), Hs.
Qed.

Lemma path_rights s root p :
  space_wf s root -> path_ok p -> is_Some (table_at (memory s) root p) ->
  path_all (memory s) root p (fun e => has e VMM_WRITABLE = true) /\
  path_all (memory s) root p (fun e => has e VMM_NO_EXECUTE = false).
Proof.
  intros Hwf Hp Hs. split; apply path_all_wf; try done; intros q t i Hq Hl Hi _ Ht Hn;
    by destruct (sw_upper _ _ Hwf q t i Hq Hl Ht Hi Hn).
Qed.

Lemma upper_sim l e e' : entry_sim l e e' -> upper_ok e -> upper_ok e'.
Proof.
  intros Hs Hup Hn. rewrite <- (entry_sim_next _ _ _ Hs) in Hn. specialize (Hup Hn).
  destruct Hs as [<-|[(Ha & _)|(_ & _ & _ & <- & <- & _)]]; [done | | done].
  destruct Hn as (u & Hn). by rewrite next_None_absent in Hn.
Qed.

Section MapLeaf.
Context (s : vmm_state) (root t i flags pa : Z) (p : list Z).
Context (Hwf : space_wf s root) (Hp : path_ok p) (Hlen : length p = 3%nat).
Context (Ht : table_at (memory s) root p = Some t) (Hi : index_ok i) (Hpa : is_page pa).
Context (Habsent : has (entry_at (memory s) t i) VMM_PRESENT = false).

Let v := leaf_entry pa flags.
Let m2 := set_entry (memory s) t i v.
Let m3 := if has flags VMM_USER then grant_user p root m2 else m2.

Lemma ml_v : is_u64 v /\ has v VMM_PRESENT = true /\ table_physical v = pa.
Proof. by apply leaf_entry_spec. Qed.

Lemma ml_tables2 r : path_ok r -> table_at m2 root r = table_at (memory s) root r.
Proof. intros Hr. destruct ml_v. by apply (table_at_set_last _ _ _ _ _ p); [apply Hwf|..]. Qed.

Lemma ml_wf2 : mem_ok m2 /\ tree_wf m2 root.
Proof.
  destruct ml_v. split; [apply set_entry_ok, Hwf|]. by apply (tree_set_last_wf _ _ _ _ _ p); [apply Hwf|..].
Qed.

Lemma ml_grant :
  mem_ok m3 /\ tree_sim m2 m3 root /\
  (has flags VMM_USER = true -> forall q u j, path_ok q -> index_ok j -> table_at m2 root q = Some u ->
     (q ++ [j]) `prefix_of` p -> has (entry_at m3 u j) VMM_USER = true) /\
  (forall q u j, path_ok q -> index_ok j -> table_at m2 root q = Some u ->
     ~ ((q ++ [j]) `prefix_of` p) \/ has flags VMM_USER = false -> entry_at m3 u j = entry_at m2 u j) /\
  (forall x, ~ tree_byte m2 root x -> rd m3 x = rd m2 x).
Proof.
  destruct ml_wf2 as (Hm2 & Ht2). unfold m3. destruct (has flags VMM_USER) eqn:HU.
  - destruct (grant_user_spec p root [] root m2) as (A & B & C & D & E); try done.
    { simpl. rewrite ml_tables2 by done. by rewrite Ht. }
    split_and!; try done.
    + intros _ q u j Hq Hj Hu Hpre. apply (C q); try done. split; [apply prefix_nil | done].
    + intros q u j Hq Hj Hu [Hpre|]; [|done]. apply (D q); try done. by intros (_ & ?).
  - split_and!; try done. apply tree_sim_refl.
Qed.

Lemma ml_tables r : path_ok r -> table_at m3 root r = table_at (memory s) root r.
Proof. intros Hr. destruct ml_grant as (_ & Hs & _). by rewrite (ts_table _ _ _ Hs), ml_tables2. Qed.

Lemma ml_entry2 q u j : path_ok q -> index_ok j -> table_at (memory s) root q = Some u ->
  entry_at m2 u j = if decide (q = p /\ j = i) then v else entry_at (memory s) u j.
Proof. intros. destruct ml_v. by apply (set_entry_at _ root _ _ _ p); [apply Hwf|..]. Qed.

Lemma ml_wf : space_wf (with_memory s m3) root.
Proof.
  destruct ml_wf2 as (Hm2 & Ht2). destruct ml_grant as (Hm3 & Hs & _). split; simpl.
  - apply Hwf.
  - done.
  - by apply (tree_sim_wf m2).
  - intros r u Hr Hu. rewrite ml_tables in Hu by done. by apply (sw_busy _ _ Hwf r).
  - intros r u j Hr Hl Hu Hj. rewrite ml_tables in Hu by done.
    eapply upper_sim; [apply (ts_entry _ _ _ Hs r); [done | by rewrite ml_tables2 | done]|].
    rewrite (ml_entry2 r) by done. rewrite decide_False; [by apply (sw_upper _ _ Hwf r)|].
    intros (-> & _). lia.
Qed.

Lemma ml_leaf idx : page_path idx ->
  leaf m3 root idx = if decide (idx = p ++ [i]) then Some (0, v) else leaf (memory s) root idx.
Proof.
  intros Hidx. destruct ml_grant as (_ & Hs & _). destruct ml_v as (Hu & Hpr & _).
  rewrite (tree_sim_leaf _ _ _ _ Hs) by done. unfold m2.
  rewrite (leaf_set_last _ _ _ _ _ p) by (done || apply Hwf). by rewrite Hpr.
Qed.

Lemma ml_outside : same_outside s (with_memory s m3) root.
Proof.
  split; [done | done | done | done |]. intros x _ Hout. simpl. destruct ml_grant as (_ & _ & _ & _ & Hb).
  rewrite Hb.
  - apply rd_set_entry_out. intros Hx. apply Hout. exists p, t. unfold index_ok, ENTRY_COUNT in Hi.
    split_and!; (done || lia).
  - intros (q & u & Hq & Hu & Hx). apply Hout. exists q, u. by rewrite ml_tables2 in Hu.
Qed.

Lemma ml_user : user_kept (memory s) m3 root.
Proof.
  destruct ml_grant as (_ & Hs & _). apply (user_kept_trans _ m2).
  - intros r u Hr Hu _. by rewrite ml_tables2.
  - intros r u j Hr Hl Hj Hu _ _ HU. rewrite (ml_entry2 r), decide_False; try done. intros (-> & _). lia.
  - by apply tree_sim_user.
Qed.

Lemma ml_path : has flags VMM_USER = true -> path_all m3 root p (fun e => has e VMM_USER = true).
Proof.
  intros HF. destruct ml_grant as (_ & _ & HU & _). apply path_all_wf with (s := with_memory s m3); try done.
  { simpl. rewrite ml_tables by done. by rewrite Ht. }
  intros q u j Hq _ Hj Hpre Hqu _. apply HU with (q := q); try done.
  simpl in Hqu. rewrite ml_tables in Hqu by done. by rewrite ml_tables2.
Qed.

Lemma ml_query va : is_u64 va -> va mod 2 ^ 12 = 0 ->
  query_walk m3 (p ++ [i]) 0 root (VMM_WRITABLE |! VMM_USER) 0 va =
    Some (pa, VMM_PRESENT |! (flags &! QUERY_FLAGS)).
Proof.
  intros Hva Hal. destruct ml_v as (Hu & Hpr & Hph). destruct ml_grant as (_ & _ & HU & Hkeep & _).
  assert (Hsome : is_Some (table_at m3 root p)) by (rewrite ml_tables by done; by rewrite Ht).
  destruct (path_rights _ root p ml_wf Hp Hsome) as (HW & HN).
  rewrite (query_last m3 root p t v); try done.
  - f_equal. f_equal; [by rewrite Hal, Z.add_0_r|]. f_equal. unfold v, leaf_entry.
    rewrite <- Z.lor_assoc, Z.land_lor_distr_l, (is_page_flags pa), Z.lor_0_l by done.
    by rewrite Z.land_lor_distr_l, <- Z.land_assoc.
  - by rewrite ml_tables.
  - intros HvU. apply ml_path. rewrite has_USER in *. unfold v in HvU.
    by rewrite leaf_entry_bit in HvU by (done || auto).
  - rewrite (Hkeep p); [| done | done | by rewrite ml_tables2 |].
    + rewrite (ml_entry2 p), decide_True by done. done.
    + left. intros Hpre%prefix_length. rewrite length_app in Hpre. simpl in Hpre. lia.
Qed.

End MapLeaf.

Lemma map_refused_false sp va pa flags :
  map_refused sp va pa flags = false ->
  va mod 2 ^ 12 = 0 /\ pa mod 2 ^ 12 = 0 /\ address_is_canonical va = true /\
  (has flags VMM_WRITABLE = true -> has flags VMM_NO_EXECUTE = true) /\
  (has flags VMM_USER = true -> va < 0x0000800000000000 /\ is_kernel sp = false) /\
  (is_kernel sp = false -> va < 0xFFFF800000000000).
Proof.
  unfold map_refused, PMM_PAGE_SIZE. intros H. bool_prop.
  split_and!; try done; [by destruct (has flags VMM_WRITABLE), (has flags VMM_NO_EXECUTE) | |].
  - intros HU. rewrite HU in *. simpl in *. bool_prop. split; [lia | done].
  - intros Hk. rewrite Hk in *. rewrite andb_true_r in *. bool_prop. lia.
Qed.

Lemma flush_memory sp va s : memory (flush sp va s) = memory s.
Proof. unfold flush. by case_match. Qed.
Lemma flush_pmm sp va s : pmm (flush sp va s) = pmm s.
Proof. unfold flush. by case_match. Qed.
Lemma flush_cr3 sp va s : cr3 (flush sp va s) = cr3 s.
Proof. unfold flush. by case_match. Qed.
Lemma flush_kernel sp va s : kernel_pml4 (flush sp va s) = kernel_pml4 s.
Proof. unfold flush. by case_match. Qed.
Lemma flush_root sp sp' va s : pml4_physical (flush sp va s) sp' = pml4_physical s sp'.
Proof. unfold flush. by case_match; destruct sp'. Qed.

Lemma space_wf_flush sp va s root : space_wf s root -> space_wf (flush sp va s) root.
Proof. intros [? ? ? ? ?]. unfold flush. by case_match. Qed.

(** What a failed call leaves: the same tables, mappings and pages in use. *)
Lemma map_page_cases sp va pa flags s :
  space_wf s (pml4_physical s sp) -> is_u64 va -> 0 <= pa < 2 ^ 52 ->
  let '(ok, s') := map_page_locked (Some sp) va pa flags s in
  space_wf s' (pml4_physical s sp) /\
  if ok then map_refused sp va pa flags = false /\ mapped s s' sp va pa flags
  else space_sim s s' (pml4_physical s sp).
Proof.
  intros Hwf Hva Hpa. set (root := pml4_physical s sp) in *. unfold map_page_locked.
  destruct (map_refused sp va pa flags) eqn:Href; [split; [done | apply space_sim_refl]|].
  pose proof (map_refused_false _ _ _ _ Href) as (Hval & Hpal & Hcanon & _).
  destruct (indices_table_path va) as (Hp3 & Hl3). fold root.
  pose proof (map_descend_spec (take 3 (indices va)) flags root s s [] root []) as Hd.
  destruct (map_descend _ flags root [] s) as [[res cr] s1].
  destruct Hd as (W1 & E1 & U1 & TT & R1); try done.
  specialize (U1 s1 (space_sim_refl _ _) W1).
  destruct res as [t|]; [|split; apply U1]. simpl in R1.
  set (i := aget 0 (indices va) 3) in *. set (p := take 3 (indices va)) in *.
  assert (Hi : index_ok i) by apply index_range. assert (Hpage : is_page pa) by done.
  destruct (has (entry_at (memory s1) t i) VMM_PRESENT) eqn:HP; [split; apply U1|].
  fold (leaf_entry pa flags). pose proof (ext_outside _ _ _ E1) as O1.
  set (s2 := with_memory s1 _).
  assert (W2 : space_wf s2 root) by (by apply (ml_wf s1 root t i flags pa p)).
  assert (Hroot : pml4_physical s2 sp = root) by (unfold root, pml4_physical; by destruct sp; [apply O1|]).
  split; [by apply space_wf_flush|]. split; [done|]. split; fold root.
  - apply (same_outside_trans s s1); [apply W1 | done | | apply E1 | apply E1].
    pose proof (ml_outside s1 root t i flags pa p W1 Hp3 Hl3 R1 Hi Hpage) as [S' C' K' T' B'].
    split; simpl; rewrite ?flush_pmm, ?flush_memory, ?flush_cr3, ?flush_kernel; try done.
    by rewrite (so_tlb _ _ _ O1).
  - unfold flush. rewrite Hroot. simpl. rewrite (so_cr3 _ _ _ O1).
    rewrite <- (so_tlb _ _ _ O1). by destruct (_ =? root).
  - rewrite <- (ext_leaf _ _ _ E1) by apply indices_path. rewrite indices_split, (leaf_app _ _ p t) by done.
    simpl. fold i. by rewrite HP.
  - intros idx Hidx. rewrite flush_memory. simpl. rewrite (ml_leaf s1 root t i flags pa p) by done.
    rewrite (ext_leaf _ _ _ E1) by done. done.
  - intros q Hq Hf. rewrite flush_pmm. by apply (ext_abs _ _ _ E1).
  - unfold vmm_space_query. rewrite Hcanon, flush_memory, flush_root, Hroot. simpl negb. cbv iota.
    rewrite indices_split. by apply (ml_query s1 root t i flags pa p).
  - intros r u Hr Hu. rewrite flush_memory in Hu. simpl in Hu. rewrite (ml_tables s1 root t i flags pa p) in Hu by done.
    by apply (ext_new _ _ _ E1).
  - intros r u Hr Hu. rewrite flush_memory. simpl. rewrite (ml_tables s1 root t i flags pa p) by done.
    by apply (ext_old _ _ _ E1).
  - rewrite flush_memory. apply (user_kept_trans _ (memory s1)).
    + intros r u Hr Hu _. by apply (ext_old _ _ _ E1).
    + apply E1.
    + by apply (ml_user s1 root t i flags pa p).
  - intros HU. rewrite flush_memory. by apply (ml_path s1 root t i flags pa p).
  - destruct TT as [P F]. split; rewrite ?flush_memory, ?flush_pmm; simpl.
    + intros r u Hr Hu. rewrite (ml_tables s1 root t i flags pa p) in Hu by done. by apply P.
    + intros q Hq Hf Hn. destruct (F q Hq Hf Hn) as (Hu & r & u & Hr & Ht & E). split; [done|]. exists r, u.
      by rewrite (ml_tables s1 root t i flags pa p).
Qed.

(** ** Writing an entry of the last level *)

Section SetLast.
Context (s : vmm_state) (root t i v : Z) (p : list Z).
Context (Hwf : space_wf s root) (Hp : path_ok p) (Hlen : length p = 3%nat).
Context (Ht : table_at (memory s) root p = Some t) (Hi : index_ok i) (Hv : is_u64 v).

Let s' := with_memory s (set_entry (memory s) t i v).

Lemma sl_tables r : path_ok r -> table_at (memory s') root r = table_at (memory s) root r.
Proof. intros Hr. by apply (table_at_set_last _ _ _ _ _ p); [apply Hwf|..]. Qed.

Lemma sl_wf : space_wf s' root.
Proof.
  split; simpl.
  - apply Hwf.
  - apply set_entry_ok, Hwf.
  - by apply (tree_set_last_wf _ _ _ _ _ p); [apply Hwf|..].
  - intros r u Hr Hu. rewrite sl_tables in Hu by done. by apply (sw_busy _ _ Hwf r).
  - intros r u j Hr Hl Hu Hj. rewrite sl_tables in Hu by done.
    rewrite (set_entry_at _ root t i v p) with (q := r) by (done || apply Hwf).
    rewrite decide_False; [by apply (sw_upper _ _ Hwf r)|]. intros (-> & _). lia.
Qed.

Lemma sl_leaf idx : page_path idx ->
  leaf (memory s') root idx = if decide (idx = p ++ [i]) then (if has v VMM_PRESENT then Some (0, v) else None)
                              else leaf (memory s) root idx.
Proof. intros Hidx. by apply (leaf_set_last _ _ _ _ _ p); [apply Hwf|..]. Qed.

Lemma sl_user : user_kept (memory s) (memory s') root.
Proof.
  intros r u j Hr Hl Hj Hu _ _ HU. simpl. rewrite (set_entry_at _ root t i v p) with (q := r) by (done || apply Hwf).
  rewrite decide_False; [done|]. intros (-> & _). lia.
Qed.

Lemma sl_bytes x : ~ tree_byte (memory s) root x -> rd (memory s') x = rd (memory s) x.
Proof.
  intros Hout. apply rd_set_entry_out. intros Hx. apply Hout. exists p, t. unfold index_ok, ENTRY_COUNT in Hi.
  split_and!; (done || lia).
Qed.

End SetLast.

(** ** Freeing an empty table *)

(** States with fewer tables and the same mappings; only table pages change
    their use. *)
Record pruned (s s' : vmm_state) (root : Z) : Prop := {
  pr_wf : space_wf s' root;
  pr_leaf : forall idx, page_path idx -> leaf (memory s') root idx = leaf (memory s) root idx;
  pr_table : forall r t, path_ok r -> table_at (memory s') root r = Some t -> table_at (memory s) root r = Some t;
  pr_bytes : forall x, ~ tree_byte (memory s) root x -> rd (memory s') x = rd (memory s) x;
  pr_shape : same_shape (pmm s) (pmm s');
  pr_abs : forall q, 0 <= q < page_count (pmm s) ->
    (forall r t, path_ok r -> table_at (memory s) root r = Some t -> t / PMM_PAGE_SIZE <> q) ->
    abs (pmm s') q = abs (pmm s) q;
  pr_regs : cr3 s' = cr3 s /\ kernel_pml4 s' = kernel_pml4 s /\ tlb s' = tlb s;
  pr_user : user_kept (memory s) (memory s') root;
}.

Lemma pruned_refl s root : space_wf s root -> pruned s s root.
Proof. split; try done. apply user_kept_refl. Qed.

Lemma pruned_trans s1 s2 s3 root : pruned s1 s2 root -> pruned s2 s3 root -> pruned s1 s3 root.
Proof.
  intros [W1 L1 T1 B1 S1 A1 R1 U1] [W2 L2 T2 B2 S2 A2 R2 U2]. split.
  - done.
  - intros idx Hidx. by rewrite L2, L1.
  - intros r t Hr Ht. by apply T1, T2.
  - intros x Hx. rewrite B2; [by apply B1|]. intros (r & t & Hr & Ht & Hx'). apply Hx. exists r, t. auto.
  - by transitivity (pmm s2).
  - intros q Hq Hno. rewrite A2, A1; try done; [by rewrite (ss_page_count _ _ S1)|].
    intros r t Hr Ht. by apply (Hno r t), T1.
  - destruct R1 as (? & ? & ?), R2 as (? & ? & ?). split_and!; congruence.
  - apply (user_kept_trans _ (memory s2)); [|done | done]. intros r t Hr Ht (u & Hu).
    apply T2 in Hu; [|done]. pose proof (T1 r u Hr Hu). congruence.
Qed.

(** Freeing a page moves the state of no other page. *)
Lemma free_page_other p a :
  pmm_wf p -> is_page a -> let p' := snd (pmm_free_page a p) in
  pmm_wf p' /\ same_shape p p' /\ forall q, 0 <= q -> q <> a / PMM_PAGE_SIZE -> abs p' q = abs p q.
Proof.
  intros Hwf (Ha & Ha'). destruct (free_page_spec p a Hwf) as [(q & n & p' & (-> & _) & -> & W & S & _ & A)|(_ & ->)].
  - unfold PMM_PAGE_SIZE. lia.
  - simpl. split_and!; try done. intros r Hr Hne. rewrite A by done. unfold upd. rewrite decide_False; [done|].
    intros ->. apply Hne. unfold PMM_PAGE_SIZE. by rewrite Z.div_mul.
  - simpl. by split_and!.
Qed.

Lemma page_index_inj t t' : is_page t -> is_page t' -> t / PMM_PAGE_SIZE = t' / PMM_PAGE_SIZE -> t = t'.
Proof.
  intros (H & _) (H' & _) E. unfold PMM_PAGE_SIZE in E. change (2 ^ 12) with 4096 in *.
  pose proof (Z.div_mod t 4096). pose proof (Z.div_mod t' 4096). lia.
Qed.

Lemma prune_step s root parent j t q :
  space_wf s root -> path_ok (q ++ [j]) -> table_at (memory s) root q = Some parent ->
  table_at (memory s) root (q ++ [j]) = Some t -> table_is_empty (memory s) t = true ->
  let table_page := table_physical (entry_at (memory s) parent j) in
  let s1 := with_memory s (set_entry (memory s) parent j 0) in
  pruned s (with_pmm s1 (snd (pmm_free_page table_page (pmm s1)))) root.
Proof.
  intros Hwf Hqj Hq Ht Hempty table_page s1. set (s2 := with_pmm _ _).
  assert (Hpq : path_ok q) by (by apply (path_ok_prefix _ [j])).
  assert (Hj : index_ok j).
  { destruct Hqj as (_ & HF). apply Forall_app in HF as (_ & HF). by apply Forall_cons in HF as (? & _). }
  assert (Hn : next (entry_at (memory s) parent j) = Some t).
  { rewrite table_at_app, Hq in Ht. simpl in Ht. by destruct (next _). }
  pose proof (next_Some _ _ Hn) as (_ & _ & Htp). fold table_page in Htp.
  assert (Hpage : is_page t) by (by apply (tw_page _ _ (sw_tree _ _ Hwf) (q ++ [j]))).
  destruct (free_page_other (pmm s) t (sw_pmm _ _ Hwf) Hpage) as (Wp & Sp & Ap).
  assert (Hpm : pmm s2 = snd (pmm_free_page t (pmm s))) by (unfold s2; simpl; by rewrite <- Htp).
  assert (Htab : forall r, path_ok r -> table_at (memory s2) root r =
    if decide ((q ++ [j]) `prefix_of` r) then None else table_at (memory s) root r).
  { intros r Hr. by apply (table_at_set_none _ _ _ _ _ q); [apply Hwf|..]. }
  assert (Hold : forall r u, path_ok r -> table_at (memory s2) root r = Some u ->
    table_at (memory s) root r = Some u /\ u <> t).
  { intros r u Hr Hu. rewrite Htab in Hu by done. case_decide as Hd; [done|]. split; [done|]. intros ->.
    apply Hd. by rewrite (tw_inj _ _ (sw_tree _ _ Hwf) r (q ++ [j]) t). }
  split; rewrite ?Hpm; try done.
  - split; rewrite ?Hpm.
    + done.
    + apply set_entry_ok, Hwf.
    + by apply (tree_set_none_wf _ _ _ _ _ q); [apply Hwf|..].
    + intros r u Hr Hu. destruct (Hold r u Hr Hu) as (Hu' & Hne). pose proof (sw_busy _ _ Hwf r u Hr Hu') as Hb.
      unfold page_busy in *. rewrite (ss_page_count _ _ Sp). intros Hx. rewrite Ap; [by apply Hb | lia |].
      intros E. apply Hne, page_index_inj; try done. by apply (tw_page _ _ (sw_tree _ _ Hwf) r).
    + intros r u k Hr Hl Hu Hk. destruct (Hold r u Hr Hu) as (Hu' & Hne).
      simpl. rewrite (set_entry_at _ root parent j 0 q) with (q := r) by (done || apply Hwf).
      case_decide; [by intros (? & ?)|]. by apply (sw_upper _ _ Hwf r).
  - intros idx Hidx. apply (leaf_unlink _ _ _ _ _ q); try done; [apply Hwf|].
    intros idx' Hidx' (r & ->). destruct Hidx' as (Hl & HF). apply Forall_app in HF as (_ & HF).
    destruct r as [|k r]; [destruct Hqj as (Hl' & _); rewrite app_nil_r in Hl; lia|].
    apply Forall_cons in HF as (Hk & _). rewrite (leaf_app _ _ (q ++ [j]) t) by done. simpl.
    by rewrite (table_is_empty_spec _ _ Hempty k Hk).
  - intros r u Hr Hu. by apply Hold.
  - intros x Hx. apply rd_set_entry_out. intros Hx'. apply Hx. exists q, parent.
    unfold index_ok, ENTRY_COUNT in Hj. split_and!; (done || lia).
  - intros k Hk Hno. apply Ap; [lia|]. intros ->. by apply (Hno (q ++ [j]) t).
  - intros r u k Hr Hl Hk Hu _ (u' & Hu') HU.
    simpl. rewrite (set_entry_at _ root parent j 0 q) with (q := r) by (done || apply Hwf).
    case_decide as Hd; [|done]. destruct Hd as (-> & ->). rewrite Htab, decide_True in Hu' by done. done.
Qed.

(** The tables above [p] with the indices taken, innermost first. *)
Fixpoint chain (m : mem) (root : Z) (p : list Z) (parents : list (Z * Z)) : Prop :=
  match parents with
  | [] => p = []
  | (t, j) :: parents => exists q, p = q ++ [j] /\ table_at m root q = Some t /\ chain m root q parents
  end.

Lemma chain_ext m m' root p parents :
  (forall r, r `prefix_of` p -> table_at m' root r = table_at m root r) ->
  chain m root p parents -> chain m' root p parents.
Proof.
  revert p. induction parents as [|[t j] parents IH]; intros p H; simpl; [done|].
  intros (q & -> & Hq & Hc). exists q. split_and!; [done | |].
  - rewrite H; [done|]. by exists [j].
  - apply IH; [|done]. intros r Hr. apply H. by apply prefix_app_r.
Qed.

Lemma chain_passed m root p0 t p acc :
  table_at m root p0 = Some t -> chain m root p0 acc -> is_Some (table_at m t p) ->
  chain m root (p0 ++ p) (rev (passed m t p) ++ acc).
Proof.
  revert p0 t acc. induction p as [|i p IH]; intros p0 t acc Ht Hc Hs; simpl in *.
  { by rewrite app_nil_r. }
  destruct (next (entry_at m t i)) as [u|] eqn:E; [|by destruct Hs].
  replace (p0 ++ i :: p) with ((p0 ++ [i]) ++ p) by (by rewrite <- app_assoc).
  rewrite <- (app_assoc (rev (passed m u p))). apply IH; [by rewrite table_at_app, Ht; simpl; rewrite E | | done].
  simpl. by exists p0.
Qed.

Lemma prune_step_above s root parent j t q :
  space_wf s root -> path_ok (q ++ [j]) -> table_at (memory s) root q = Some parent ->
  let s1 := with_memory s (set_entry (memory s) parent j 0) in
  forall r, r `prefix_of` q -> table_at (memory (with_pmm s1 (snd (pmm_free_page t (pmm s1))))) root r = table_at (memory s) root r.
Proof.
  intros Hwf Hp Hq s1 r Hr. simpl. assert (Hpq : path_ok q) by (by apply (path_ok_prefix _ [j])).
  assert (Hj : index_ok j).
  { destruct Hp as (_ & HF). apply Forall_app in HF as (_ & HF). by apply Forall_cons in HF as (? & _). }
  apply (table_at_set_off _ _ _ _ _ q); try done; [apply Hwf | |].
  - destruct Hr as (k & ->). by apply (path_ok_prefix _ k).
  - intros Hpre. apply prefix_length in Hpre, Hr. rewrite length_app in Hpre. simpl in Hpre. lia.
Qed.

Lemma prune_spec root parents p t s :
  space_wf s root -> path_ok p -> table_at (memory s) root p = Some t -> chain (memory s) root p parents ->
  pruned s (prune t parents s) root.
Proof.
  revert p t s. induction parents as [|[parent j] parents IH]; intros p t s Hwf Hp Ht Hc; simpl.
  { by apply pruned_refl. }
  simpl in Hc. destruct Hc as (q & -> & Hq & Hc).
  destruct (table_is_empty (memory s) t) eqn:He; simpl; [|by apply pruned_refl].
  pose proof (prune_step s root parent j t q Hwf Hp Hq Ht He) as Hstep. simpl in Hstep.
  pose proof (prune_step_above s root parent j (table_physical (entry_at (memory s) parent j)) q Hwf Hp Hq) as Hsame.
  set (s2 := with_pmm _ _) in *. apply (pruned_trans _ s2); [done|].
  assert (Hpq : path_ok q) by (by apply (path_ok_prefix _ [j])).
  apply (IH q parent s2); [apply Hstep | done | by rewrite Hsame |]. by apply (chain_ext (memory s)).
Qed.

(** The fate of a table when the tables that became empty are freed: a table
    that stays keeps the state of its page and, on the path [p] of the
    address, has a present entry; a table that goes was on that path and its
    page has lost one reference. *)
Definition table_fate (s s' : vmm_state) (root : Z) (p r : list Z) (t : Z) : Prop :=
  match table_at (memory s') root r with
  | Some _ =>
      (r `prefix_of` p -> r <> [] -> table_is_empty (memory s') t = false) /\
      (0 <= t / PMM_PAGE_SIZE < page_count (pmm s) ->
       abs (pmm s') (t / PMM_PAGE_SIZE) = abs (pmm s) (t / PMM_PAGE_SIZE))
  | None =>
      r `prefix_of` p /\ r <> [] /\
      forall q n, used_at (pmm s) t q n -> abs (pmm s') q = if n =? 1 then Free else Used (n - 1)
  end.

Lemma path_tables_present m root p t :
  path_ok p -> table_at m root p = Some t -> table_is_empty m t = false ->
  forall r u, r `prefix_of` p -> table_at m root r = Some u -> table_is_empty m u = false.
Proof.
  intros Hp Ht He r u (k & ->) Hu. destruct k as [|i k].
  { rewrite app_nil_r in Ht. congruence. }
  rewrite table_at_app, Hu in Ht. simpl in Ht. destruct (next (entry_at m u i)) as [v|] eqn:Hn; [|discriminate Ht].
  apply next_Some in Hn as (HP & _). destruct (table_is_empty m u) eqn:E; [|reflexivity].
  destruct Hp as (_ & HF). apply Forall_app in HF as (_ & HF). apply Forall_cons in HF as (Hi & _).
  rewrite (table_is_empty_spec _ _ E i Hi) in HP. discriminate HP.
Qed.

Lemma prefix_snoc_strict {A} (r q : list A) j : r <> q ++ [j] -> r `prefix_of` q ++ [j] -> r `prefix_of` q.
Proof.
  intros Hne (k & Hk). destruct k as [|x k _] using rev_ind; [rewrite app_nil_r in Hk; by subst|].
  rewrite app_assoc in Hk. apply app_inj_tail in Hk as (-> & _). by exists k.
Qed.

Lemma prune_step_tables s root parent j t q :
  space_wf s root -> path_ok (q ++ [j]) -> table_at (memory s) root q = Some parent ->
  table_at (memory s) root (q ++ [j]) = Some t -> table_is_empty (memory s) t = true ->
  let table_page := table_physical (entry_at (memory s) parent j) in
  let s1 := with_memory s (set_entry (memory s) parent j 0) in
  let s2 := with_pmm s1 (snd (pmm_free_page table_page (pmm s1))) in
  (forall n k, used_at (pmm s) t k n -> abs (pmm s2) k = if n =? 1 then Free else Used (n - 1)) /\
  (forall k, 0 <= k -> k <> t / PMM_PAGE_SIZE -> abs (pmm s2) k = abs (pmm s) k) /\
  (forall r u, path_ok r -> table_at (memory s) root r = Some u ->
     (r = q ++ [j] /\ u = t /\ table_at (memory s2) root r = None) \/
     (r <> q ++ [j] /\ u <> t /\ table_at (memory s2) root r = Some u)).
Proof.
  intros Hwf Hqj Hq Ht Hempty table_page s1 s2. assert (Hpq : path_ok q) by (by apply (path_ok_prefix _ [j])).
  assert (Hj : index_ok j).
  { destruct Hqj as (_ & HF). apply Forall_app in HF as (_ & HF). by apply Forall_cons in HF as (? & _). }
  assert (Hn : next (entry_at (memory s) parent j) = Some t).
  { rewrite table_at_app, Hq in Ht. simpl in Ht. by destruct (next _). }
  pose proof (next_Some _ _ Hn) as (_ & _ & Htp). fold table_page in Htp.
  assert (Hpage : is_page t) by (by apply (tw_page _ _ (sw_tree _ _ Hwf) (q ++ [j]))).
  assert (Hpm : pmm s2 = snd (pmm_free_page t (pmm s))) by (unfold s2; simpl; by rewrite <- Htp).
  rewrite Hpm. split_and!.
  - intros n k Hu. destruct (free_page_spec (pmm s) t (sw_pmm _ _ Hwf)) as [(k' & n' & p' & (E' & R' & U') & -> & _ & _ & _ & A)|(Hno & _)].
    { destruct Hpage. unfold PMM_PAGE_SIZE. lia. }
    + destruct Hu as (E & R & U). assert (k' = k) as -> by (unfold PMM_PAGE_SIZE in *; lia).
      rewrite U in U'. simplify_eq. cbn [snd]. rewrite A by lia. unfold upd. by rewrite decide_True.
    + by apply Hno in Hu.
  - by apply (free_page_other (pmm s) t (sw_pmm _ _ Hwf) Hpage).
  - intros r u Hr Hu.
    assert (Htab : table_at (memory s2) root r = if decide ((q ++ [j]) `prefix_of` r) then None else table_at (memory s) root r)
      by (by apply (table_at_set_none _ _ _ _ _ q); [apply Hwf|..]).
    destruct (decide ((q ++ [j]) `prefix_of` r)) as [Hd|Hd].
    + left. destruct Hd as ([|k r'] & ->).
      * rewrite app_nil_r in *. split_and!; [done | congruence | done].
      * rewrite table_at_app, Ht in Hu. simpl in Hu. destruct Hr as (_ & HF). apply Forall_app in HF as (_ & HF).
        apply Forall_cons in HF as (Hk & _). rewrite next_None_absent in Hu; [done|]. by apply table_is_empty_spec.
    + right. split_and!.
      * intros ->. by apply Hd.
      * intros ->. apply Hd. by rewrite (tw_inj _ _ (sw_tree _ _ Hwf) r (q ++ [j]) t).
      * by rewrite Htab.
Qed.

Lemma prune_fate root parents p t s :
  space_wf s root -> path_ok p -> table_at (memory s) root p = Some t -> chain (memory s) root p parents ->
  forall r u, path_ok r -> table_at (memory s) root r = Some u -> table_fate s (prune t parents s) root p r u.
Proof.
  revert p t s. induction parents as [|[parent j] parents IH]; intros p t s Hwf Hp Ht Hc r u Hr Hu; simpl.
  { simpl in Hc. subst p. unfold table_fate. rewrite Hu. split; [|done]. by intros ->%prefix_nil_inv. }
  simpl in Hc. destruct Hc as (q & -> & Hq & Hc).
  destruct (table_is_empty (memory s) t) eqn:He; simpl.
  2: { unfold table_fate. rewrite Hu. split; [|done]. intros Hpre _. by apply (path_tables_present _ root (q ++ [j]) t Hp Ht He r). }
  pose proof (prune_step s root parent j t q Hwf Hp Hq Ht He) as Hstep. simpl in Hstep.
  pose proof (prune_step_tables s root parent j t q Hwf Hp Hq Ht He) as Htabs. simpl in Htabs.
  pose proof (prune_step_above s root parent j (table_physical (entry_at (memory s) parent j)) q Hwf Hp Hq) as Hsame.
  set (s2 := with_pmm _ _) in *. destruct Htabs as (Hfree & Hother & Htabs).
  assert (Hpq : path_ok q) by (by apply (path_ok_prefix _ [j])).
  assert (Hq2 : table_at (memory s2) root q = Some parent) by (by rewrite Hsame).
  assert (Hc2 : chain (memory s2) root q parents) by (by apply (chain_ext (memory s))).
  pose proof (prune_spec root parents q parent s2 (pr_wf _ _ _ Hstep) Hpq Hq2 Hc2) as Hrest.
  destruct (Htabs r u Hr Hu) as [(-> & -> & Hgone)|(Hne & Hnu & Hu2)].
  - unfold table_fate. destruct (table_at (memory (prune parent parents s2)) root (q ++ [j])) as [v|] eqn:Hv.
    { apply (pr_table _ _ _ Hrest) in Hv; [|done]. change (table_at (memory s2) root (q ++ [j]) = None) in Hgone. congruence. }
    split_and!; [done | by destruct q |]. intros k n Hk. rewrite (pr_abs _ _ _ Hrest); [by apply Hfree | |].
    + rewrite (ss_page_count _ _ (pr_shape _ _ _ Hstep)). apply Hk.
    + intros r' u' Hr' Hu' E. destruct Hk as (Et & _). apply (pr_table _ _ _ Hstep) in Hu' as Hu''; [|done].
      destruct (Htabs r' u' Hr' Hu'') as [(_ & _ & Hn)|(_ & Hd & _)];
        [change (table_at (memory s2) root r' = None) in Hn; congruence|]. apply Hd, page_index_inj.
      * by apply (tw_page _ _ (sw_tree _ _ Hwf) r').
      * by apply (tw_page _ _ (sw_tree _ _ Hwf) (q ++ [j])).
      * rewrite E, Et. unfold PMM_PAGE_SIZE. by rewrite Z.div_mul.
  - assert (Hdiff : u / PMM_PAGE_SIZE <> t / PMM_PAGE_SIZE).
    { intros E. apply Hnu, page_index_inj; [by apply (tw_page _ _ (sw_tree _ _ Hwf) r) | by apply (tw_page _ _ (sw_tree _ _ Hwf) (q ++ [j])) | done]. }
    pose proof (IH q parent s2 (pr_wf _ _ _ Hstep) Hpq Hq2 Hc2 r u Hr Hu2) as Hf. unfold table_fate in *.
    destruct (table_at (memory (prune parent parents s2)) root r).
    + destruct Hf as (Hf1 & Hf2). split.
      * intros Hpre Hr0. apply Hf1; [|done]. by apply prefix_snoc_strict in Hpre.
      * intros Hrange. rewrite Hf2; [apply Hother; lia|]. by rewrite (ss_page_count _ _ (pr_shape _ _ _ Hstep)).
    + destruct Hf as (Hf1 & Hf2 & Hf3). split_and!; [by apply prefix_app_r | done |]. intros k n (Ek & Rk & Uk).
      assert (Hdk : k <> t / PMM_PAGE_SIZE).
      { intros ->. apply Hdiff. rewrite Ek. unfold PMM_PAGE_SIZE. by rewrite Z.div_mul. }
      apply Hf3. rewrite <- (ss_page_count _ _ (pr_shape _ _ _ Hstep)) in Rk.
      split; [done|]. split; [done|]. rewrite Hother by lia. done.
Qed.

Record unmapped (s s' : vmm_state) (sp : space) (va pa : Z) : Prop := {
  um_entry : exists e, leaf (memory s) (pml4_physical s sp) (indices va) = Some (0, e) /\ pa = table_physical e;
  um_leaf : forall idx, page_path idx -> leaf (memory s') (pml4_physical s sp) idx =
    if decide (idx = indices va) then None else leaf (memory s) (pml4_physical s sp) idx;
  um_bytes : forall x, ~ tree_byte (memory s) (pml4_physical s sp) x -> rd (memory s') x = rd (memory s) x;
  um_shape : same_shape (pmm s) (pmm s');
  um_abs : forall q, 0 <= q < page_count (pmm s) ->
    (forall r t, path_ok r -> table_at (memory s) (pml4_physical s sp) r = Some t -> t / PMM_PAGE_SIZE <> q) ->
    abs (pmm s') q = abs (pmm s) q;
  um_table : forall r t, path_ok r -> table_at (memory s') (pml4_physical s sp) r = Some t ->
    table_at (memory s) (pml4_physical s sp) r = Some t;
  um_regs : cr3 s' = cr3 s /\ kernel_pml4 s' = kernel_pml4 s;
  um_tlb : tlb s' = if (cr3 s &! PAGE_ADDRESS_MASK) =? pml4_physical s sp then va :: tlb s else tlb s;
  um_user : user_kept (memory s) (memory s') (pml4_physical s sp);
  um_fate : forall r t, path_ok r -> table_at (memory s) (pml4_physical s sp) r = Some t ->
    table_fate s s' (pml4_physical s sp) (take 3 (indices va)) r t;
}.

(** The addresses [vmm_space_unmap_page] refuses. *)
Definition unmap_refused (sp : space) (va : Z) : bool :=
  negb (address_is_canonical va) || negb (va mod PMM_PAGE_SIZE =? 0) ||
  ((0xFFFF800000000000 <=? va) && negb (is_kernel sp)).

Lemma unmap_page_cases sp va s :
  space_wf s (pml4_physical s sp) ->
  let '(pa, s') := vmm_space_unmap_page (Some sp) va s in
  space_wf s' (pml4_physical s sp) /\
  ((pa = PMM_INVALID_ADDRESS /\ s' = s /\
    (unmap_refused sp va = true \/ forall e, leaf (memory s) (pml4_physical s sp) (indices va) <> Some (0, e))) \/
   (unmap_refused sp va = false /\ unmapped s s' sp va pa)).
Proof.
  intros Hwf. set (root := pml4_physical s sp) in *. unfold vmm_space_unmap_page.
  change (negb (address_is_canonical va) || _ || _) with (unmap_refused sp va).
  destruct (unmap_refused sp va) eqn:Href; [split; [done | left; by auto]|]. fold root.
  rewrite unmap_descend_table_at. destruct (indices_table_path va) as (Hp3 & Hl3).
  set (i := aget 0 (indices va) 3) in *. set (p := take 3 (indices va)) in *.
  assert (Hi : index_ok i) by apply index_range.
  destruct (table_at (memory s) root p) as [t|] eqn:Ht.
  2: { split; [done|]. left. split_and!; [done | done|]. right. intros e He.
       apply (leaf_inv _ _ p i) in He as (t & Ht' & _). congruence. }
  pose proof (leaf_at (memory s) root p t i Ht) as Hleaf. change (p ++ [i]) with (indices va) in Hleaf.
  destruct (has (entry_at (memory s) t i) VMM_PRESENT) eqn:HP; cbn [negb] in *.
  2: { split; [done|]. left. split_and!; [done | done|]. right. intros e He. congruence. }
  rewrite app_nil_r. set (s1 := with_memory s _). set (s2 := flush sp va s1).
  assert (W1 : space_wf s1 root) by (by apply (sl_wf s root t i 0 p)).
  assert (Htab : forall r, path_ok r -> table_at (memory s1) root r = table_at (memory s) root r)
    by (intros; by apply (sl_tables s root t i 0 p)).
  assert (Hc : chain (memory s2) root p (rev (passed (memory s) root p))).
  { apply (chain_ext (memory s)).
    - intros r (k & Hk). unfold s2. rewrite flush_memory. apply Htab. rewrite Hk in Hp3. by apply path_ok_prefix in Hp3.
    - pose proof (chain_passed (memory s) root [] root p []) as Hc. rewrite app_nil_r in Hc. apply Hc; done. }
  assert (Ht2 : table_at (memory s2) root p = Some t) by (unfold s2; by rewrite flush_memory, Htab).
  pose proof (prune_spec root _ p t s2 (space_wf_flush _ _ _ _ W1) Hp3 Ht2 Hc) as Hpr.
  pose proof (prune_fate root _ p t s2 (space_wf_flush _ _ _ _ W1) Hp3 Ht2 Hc) as F.
  destruct Hpr as [W L T B S A (R1 & R2 & R3) U]. unfold s2 in *. rewrite flush_memory, flush_pmm in *.
  split; [done|]. right. split; [done|].
  assert (Hroot : pml4_physical s1 sp = root) by (unfold root, pml4_physical; by destruct sp).
  split; fold root; try done.
  - exists (entry_at (memory s) t i). done.
  - intros idx Hidx. rewrite L by done. unfold s1. rewrite (sl_leaf s root t i 0 p) by done. done.
  - intros x Hx. rewrite B; [by apply (sl_bytes s root t i 0 p)|].
    intros (r & u & Hr & Hu & Hx'). apply Hx. exists r, u. by rewrite Htab in Hu.
  - intros q Hq Hno. rewrite A; [done | done |]. intros r u Hr Hu. rewrite Htab in Hu by done. by apply (Hno r).
  - intros r u Hr Hu. apply T in Hu; [|done]. by rewrite Htab in Hu.
  - by rewrite R1, R2, flush_cr3, flush_kernel.
  - rewrite R3. unfold flush. rewrite Hroot. by destruct (_ =? root).
  - apply (user_kept_trans _ (memory s1)); [|by apply (sl_user s root t i 0 p) | done].
    intros r u Hr Hu _. by rewrite Htab.
  - intros r u Hr Hu. specialize (F r u Hr). rewrite Htab in F by done. specialize (F Hu).
    unfold table_fate in *. by rewrite flush_pmm in F.
Qed.

(** ** Copy-on-write *)

Lemma space_wf_pmm s root p :
  space_wf s root -> pmm_wf p -> same_shape (pmm s) p ->
  (forall q, 0 <= q < page_count (pmm s) -> abs (pmm s) q <> Free -> abs p q <> Free) ->
  space_wf (with_pmm s p) root.
Proof.
  intros [Wp Wm Wt Wb Wu] Hp Hs Habs. split; try done. simpl. intros r t Hr Ht.
  specialize (Wb r t Hr Ht). unfold page_busy in *. rewrite (ss_page_count _ _ Hs). auto.
Qed.

Lemma space_wf_frame s root m :
  space_wf s root -> mem_ok m -> (forall x, tree_byte (memory s) root x -> rd m x = rd (memory s) x) ->
  space_wf (with_memory s m) root /\
  (forall r, path_ok r -> table_at m root r = table_at (memory s) root r) /\
  (forall r t i, path_ok r -> table_at (memory s) root r = Some t -> index_ok i -> entry_at m t i = entry_at (memory s) t i) /\
  (forall idx, page_path idx -> leaf m root idx = leaf (memory s) root idx).
Proof.
  intros [Wp Wm Wt Wb Wu] Hm Hx.
  assert (Hpages : forall r t, path_ok r -> table_at (memory s) root r = Some t -> same_page (memory s) m t).
  { intros r t Hr Ht x Hb. apply Hx. by exists r, t. }
  pose proof (tree_sim_frame _ _ _ Hpages) as Hsim.
  assert (Hent : forall r t i, path_ok r -> table_at (memory s) root r = Some t -> index_ok i ->
    entry_at m t i = entry_at (memory s) t i).
  { intros r t i Hr Ht Hi. by apply entry_same_page; [apply (Hpages r)|]. }
  split_and!; [|by apply Hsim | done | intros; by apply tree_sim_leaf].
  split; simpl; try done.
  - by apply (tree_sim_wf (memory s)).
  - intros r t Hr Ht. rewrite (ts_table _ _ _ Hsim) in Ht by done. by apply (Wb r).
  - intros r t i Hr Hl Ht Hi. rewrite (ts_table _ _ _ Hsim) in Ht by done. rewrite (Hent r) by done. by apply (Wu r).
Qed.

(** The entry of a resolved page: writable, no longer copy-on-write. *)
Definition cow_entry (physical old_entry : Z) : Z :=
  ((physical |! (old_entry &! not64 PAGE_ADDRESS_MASK)) |! VMM_WRITABLE) &! not64 VMM_COPY_ON_WRITE.

Lemma testbit_not_cow k : 0 <= k -> Z.testbit (not64 VMM_COPY_ON_WRITE) k = (k <? 64) && negb (k =? 9).
Proof.
  intros Hk. rewrite testbit_not64 by done. unfold VMM_COPY_ON_WRITE. rewrite testbit_pow2 by done.
  by destruct (bool_decide_reflect (k = 9)), (Z.eqb_spec k 9).
Qed.

Lemma testbit_not_mask k : 0 <= k -> Z.testbit (not64 PAGE_ADDRESS_MASK) k = (k <? 64) && negb ((12 <=? k) && (k <? 52)).
Proof. intros Hk. rewrite testbit_not64 by done. by rewrite testbit_mask. Qed.

(** Granting write access in place is [cow_entry] on the page itself. *)
Lemma cow_entry_same e : is_u64 e ->
  (e |! VMM_WRITABLE) &! not64 VMM_COPY_ON_WRITE = cow_entry (table_physical e) e.
Proof.
  intros He. unfold cow_entry. do 2 f_equal. unfold table_physical. rewrite <- Z.land_lor_distr_r.
  symmetry. apply Z.bits_inj'. intros k Hk. rewrite Z.land_spec, Z.lor_spec, testbit_mask, testbit_not_mask by done.
  destruct (Z.ltb_spec k 64); [|by rewrite (testbit_u64_high e)].
  destruct ((12 <=? k) && (k <? 52)); by rewrite ?andb_true_r.
Qed.

Lemma cow_entry_spec f e :
  is_page f -> is_u64 e -> let e' := cow_entry f e in
  is_u64 e' /\ table_physical e' = f /\ has e' VMM_WRITABLE = true /\ has e' VMM_COPY_ON_WRITE = false /\
  has e' VMM_PRESENT = has e VMM_PRESENT /\ has e' VMM_USER = has e VMM_USER /\
  has e' VMM_NO_EXECUTE = has e VMM_NO_EXECUTE.
Proof.
  intros Hf He. assert (Hb : forall k, 0 <= k < 12 \/ 52 <= k -> Z.testbit f k = false).
  { intros k [Hk|Hk]; [apply (testbit_aligned f 12) | apply (testbit_small f 52)]; (done || apply Hf). }
  unfold cow_entry. flags. split_and!.
  - apply land_u64. apply lor_u64; [|done]. apply lor_u64; [by apply is_page_u64 | by apply land_u64].
  - unfold table_physical. apply Z.bits_inj'. intros k Hk.
    rewrite !Z.land_spec, !Z.lor_spec, Z.land_spec, testbit_not_mask, testbit_mask, testbit_not_cow by done.
    unfold VMM_WRITABLE. rewrite testbit_pow2 by done.
    destruct (Z.leb_spec 12 k), (Z.ltb_spec k 52); simpl; rewrite ?andb_false_r; try (symmetry; apply Hb; lia).
    destruct (Z.ltb_spec k 64), (Z.eqb_spec k 9), (bool_decide_reflect (k = 1)); try lia.
    simpl. by rewrite ?andb_false_r, ?orb_false_r, ?andb_true_r.
  - by bits.
  - by bits.
  - bits. by rewrite Hb by lia.
  - bits. by rewrite Hb by lia.
  - bits. by rewrite Hb by lia.
Qed.

(** A present user page marked copy-on-write and not writable. *)
Definition is_cow (e : Z) : Prop :=
  has e VMM_PRESENT = true /\ has e VMM_USER = true /\ has e VMM_COPY_ON_WRITE = true /\
  has e VMM_WRITABLE = false.

Lemma cow_test e : is_u64 e ->
  negb ((e &! COW_MASK) =? COW_MASK) || has e VMM_WRITABLE = false <-> is_cow e.
Proof.
  intros He. unfold is_cow. rewrite orb_false_iff, negb_false_iff, Z.eqb_eq. flags.
  assert (Hbits : (Z.land e COW_MASK = COW_MASK) <->
    Z.testbit e 0 = true /\ Z.testbit e 2 = true /\ Z.testbit e 9 = true).
  { split.
    - intros E. split_and!.
      + assert (H : Z.testbit (Z.land e COW_MASK) 0 = true) by (by rewrite E). revert H. by bits.
      + assert (H : Z.testbit (Z.land e COW_MASK) 2 = true) by (by rewrite E). revert H. by bits.
      + assert (H : Z.testbit (Z.land e COW_MASK) 9 = true) by (by rewrite E). revert H. by bits.
    - intros (H0 & H2 & H9). apply Z.bits_inj'. intros k Hk.
      destruct (decide (k = 0)) as [->|]; [by bits; rewrite H0|].
      destruct (decide (k = 2)) as [->|]; [by bits; rewrite H2|].
      destruct (decide (k = 9)) as [->|]; [by bits; rewrite H9|].
      rewrite Z.land_spec. replace (Z.testbit COW_MASK k) with false; [by rewrite andb_false_r|].
      unfold COW_MASK, VMM_PRESENT, VMM_USER, VMM_COPY_ON_WRITE.
      by rewrite !Z.lor_spec, !testbit_pow2, !bool_decide_false by done. }
  rewrite Hbits. tauto.
Qed.

(** What a resolved fault leaves: the page is writable, holds the bytes it
    held, and is this space's own. *)
Record resolved (s s' : vmm_state) (sp : space) (va old new : Z) : Prop := {
  rs_old : leaf (memory s) (pml4_physical s sp) (indices va) = Some (0, old) /\ is_cow old;
  rs_new : new = cow_entry (table_physical new) old;
  rs_leaf : forall idx, page_path idx -> leaf (memory s') (pml4_physical s sp) idx =
    if decide (idx = indices va) then Some (0, new) else leaf (memory s) (pml4_physical s sp) idx;
  rs_content : (forall r t, path_ok r -> table_at (memory s) (pml4_physical s sp) r = Some t -> t <> table_physical old) ->
    forall k, 0 <= k < 4096 -> rd (memory s') (table_physical new + k) = rd (memory s) (table_physical old + k);
  rs_bytes : forall x, page_busy (pmm s) x -> ~ tree_byte (memory s) (pml4_physical s sp) x ->
    rd (memory s') x = rd (memory s) x;
  rs_tables : forall r, path_ok r -> table_at (memory s') (pml4_physical s sp) r = table_at (memory s) (pml4_physical s sp) r;
  rs_regs : cr3 s' = cr3 s /\ kernel_pml4 s' = kernel_pml4 s;
  rs_user : user_kept (memory s) (memory s') (pml4_physical s sp);
  rs_pages : exists n, used_at (pmm s) (table_physical old) (table_physical old / PMM_PAGE_SIZE) n /\
    if n =? 1 then table_physical new = table_physical old /\ pmm s' = pmm s
    else exists q, table_physical new = q * PMM_PAGE_SIZE /\ 0 <= q < page_count (pmm s) /\
      abs (pmm s) q = Free /\ same_shape (pmm s) (pmm s') /\
      forall r, 0 <= r -> abs (pmm s') r =
        upd (upd (abs (pmm s)) q (Used 1)) (table_physical old / PMM_PAGE_SIZE) (Used (n - 1)) r;
}.

(** The private copy: allocation, copy and release of the shared page. *)
Section CowCopy.
Context (s : vmm_state) (root old q n : Z) (p1 p2 : pmm_state).
Context (Hwf : space_wf s root) (Hq : 0 <= q < page_count (pmm s)) (Hfree : abs (pmm s) q = Free).
Context (W1 : pmm_wf p1) (S1 : same_shape (pmm s) p1).
Context (A1 : forall r, 0 <= r -> abs p1 r = upd (abs (pmm s)) q (Used 1) r).
Context (Hold : used_at (pmm s) old (old / PMM_PAGE_SIZE) n) (Hn : n <> 1) (Hpage : is_page old).
Context (Hfreed : p2 = snd (pmm_free_page old p1)).

Let f := q * PMM_PAGE_SIZE.
Let m1 := copy_page (memory s) f old.

Lemma cc_page : is_page f /\ f / PMM_PAGE_SIZE = q.
Proof. apply page_address. pose proof (wf_page_count _ (sw_pmm _ _ Hwf)). lia. Qed.

Lemma cc_ne : f <> old.
Proof. intros E. destruct Hold as (_ & _ & Hu). destruct cc_page as (_ & Hd). rewrite E in Hd. congruence. Qed.

Lemma cc_apart : f + 4096 <= old \/ old + 4096 <= f.
Proof. apply pages_apart; [apply cc_page | done | apply cc_ne]. Qed.

Lemma cc_copy :
  mem_ok m1 /\ (forall k, 0 <= k < 4096 -> rd m1 (f + k) = rd (memory s) (old + k)) /\
  (forall x, ~ (f <= x < f + 4096) -> rd m1 x = rd (memory s) x).
Proof. apply copy_page_spec; [apply Hwf | apply cc_apart]. Qed.

Lemma cc_fresh x : f <= x < f + 4096 -> ~ page_busy (pmm s) x.
Proof.
  intros Hx. rewrite (page_busy_byte _ f x) by (done || apply cc_page). unfold page_busy.
  destruct cc_page as (_ & ->). auto.
Qed.

Lemma cc_tree x : tree_byte (memory s) root x -> rd m1 x = rd (memory s) x.
Proof.
  intros (r & t & Hr & Ht & Hx). apply cc_copy. intros Hf. apply (cc_fresh x Hf).
  apply (page_busy_byte _ t x); [by apply (tw_page _ _ (sw_tree _ _ Hwf) r) | done | by apply (sw_busy _ _ Hwf r)].
Qed.

Lemma cc_pages : pmm_wf p2 /\ same_shape (pmm s) p2 /\
  forall r, 0 <= r -> abs p2 r = upd (upd (abs (pmm s)) q (Used 1)) (old / PMM_PAGE_SIZE) (Used (n - 1)) r.
Proof.
  destruct Hold as (E & Hr & Hu).
  assert (Hu1 : used_at p1 old (old / PMM_PAGE_SIZE) n).
  { split_and!; [done | lia | rewrite (ss_page_count _ _ S1); lia |]. rewrite A1 by lia. unfold upd.
    rewrite decide_False; [done|]. intros Hd. rewrite Hd in Hu. congruence. }
  destruct (free_page_spec p1 old W1) as [(r & n' & p' & (E' & Hr' & Hu') & Hf & W & S & _ & A)|(Hno & _)].
  - destruct Hpage. unfold PMM_PAGE_SIZE. lia.
  - assert (r = old / PMM_PAGE_SIZE) as -> by (rewrite E'; unfold PMM_PAGE_SIZE; by rewrite Z.div_mul).
    destruct Hu1 as (_ & _ & Hu1). rewrite Hu1 in Hu'. injection Hu' as <-.
    rewrite Hf in Hfreed. simpl in Hfreed. subst p2. split_and!; [done | by transitivity p1 |].
    intros r Hr0. rewrite A by done. unfold upd. destruct (Z.eqb_spec n 1); [done|].
    case_decide; [done|]. by rewrite A1.
  - by apply Hno in Hu1.
Qed.

Lemma cc_wf : space_wf (with_pmm (with_memory s m1) p2) root.
Proof.
  destruct cc_pages as (W2 & S2 & A2). destruct cc_copy as (Hm & _).
  destruct (space_wf_frame s root m1 Hwf Hm cc_tree) as (Wf & _).
  apply (space_wf_pmm (with_memory s m1)); try done. simpl. intros r Hr Hne. rewrite A2 by lia.
  unfold upd. destruct (decide (r = old / PMM_PAGE_SIZE)); [done|]. by destruct (decide (r = q)).
Qed.

End CowCopy.

(** The fault [vmm_space_resolve_cow] is for: a write to a copy-on-write user
    page with [n] references. *)
Definition cow_fault (s : vmm_state) (sp : space) (va n : Z) : Prop :=
  address_is_canonical va = true /\
  exists e, leaf (memory s) (pml4_physical s sp) (indices va) = Some (0, e) /\ is_cow e /\
    used_at (pmm s) (table_physical e) (table_physical e / PMM_PAGE_SIZE) n.

Section ResolveLeaf.
Context (s s1 : vmm_state) (sp : space) (va t f old n : Z).
Let root := pml4_physical s sp.
Let p := take 3 (indices va).
Let i := aget 0 (indices va) 3.
Context (Hwf : space_wf s root) (Hwf1 : space_wf s1 root) (Ht : table_at (memory s) root p = Some t).
Context (Hent : entry_at (memory s) t i = old) (Hcow : is_cow old) (Hf : is_page f).
Context (Htree : forall x, tree_byte (memory s) root x -> rd (memory s1) x = rd (memory s) x).
Context (Hbytes : forall x, page_busy (pmm s) x -> rd (memory s1) x = rd (memory s) x).
Context (Hcopy : forall k, 0 <= k < 4096 -> rd (memory s1) (f + k) = rd (memory s) (table_physical old + k)).
Context (Hown : forall r u, path_ok r -> table_at (memory s) root r = Some u -> u <> f \/ f = table_physical old).

Let s2 := with_memory s1 (set_entry (memory s1) t i (cow_entry f old)).

Lemma rl_old : is_u64 old.
Proof. rewrite <- Hent. apply entry_u64, Hwf. Qed.

Lemma rl_frame :
  (forall r, path_ok r -> table_at (memory s1) root r = table_at (memory s) root r) /\
  (forall idx, page_path idx -> leaf (memory s1) root idx = leaf (memory s) root idx).
Proof.
  destruct (space_wf_frame s root (memory s1) Hwf) as (_ & A & _ & B); [apply Hwf1 | done |]. done.
Qed.

Lemma rl_wf : space_wf s2 root.
Proof.
  destruct (indices_table_path va) as (Hp & Hl). destruct rl_frame as (Htab & _).
  destruct (cow_entry_spec f old Hf rl_old) as (Hu & _).
  apply (sl_wf s1 root t i (cow_entry f old) p); try done; [by rewrite Htab | apply index_range].
Qed.

Lemma rl_leaf idx : page_path idx -> leaf (memory s2) root idx =
  if decide (idx = indices va) then Some (0, cow_entry f old) else leaf (memory s) root idx.
Proof.
  intros Hidx. destruct (indices_table_path va) as (Hp & Hl). destruct rl_frame as (Htab & Hleaf).
  destruct (cow_entry_spec f old Hf rl_old) as (Hu & _ & _ & _ & HP & _). destruct Hcow as (HP' & _).
  unfold s2. rewrite (sl_leaf s1 root t i (cow_entry f old) p); try done; [|by rewrite Htab | apply index_range].
  rewrite HP, HP', Hleaf by done. done.
Qed.

Lemma rl_tables r : path_ok r -> table_at (memory s2) root r = table_at (memory s) root r.
Proof.
  intros Hr. destruct (indices_table_path va) as (Hp & Hl). destruct rl_frame as (Htab & Hleaf).
  destruct (cow_entry_spec f old Hf rl_old) as (Hu & _).
  unfold s2. rewrite (sl_tables s1 root t i (cow_entry f old) p); try done; [by apply Htab | by rewrite Htab | apply index_range].
Qed.

Lemma rl_bytes x : ~ tree_byte (memory s) root x -> rd (memory s2) x = rd (memory s1) x.
Proof.
  intros Hx. destruct (indices_table_path va) as (Hp & Hl). destruct rl_frame as (Htab & Hleaf).
  destruct (cow_entry_spec f old Hf rl_old) as (Hu & _).
  apply (sl_bytes s1 root t i (cow_entry f old) p); try done; [by rewrite Htab | apply index_range |].
  intros (r & u & Hr & Hru & Hx'). apply Hx. exists r, u. by rewrite Htab in Hru.
Qed.

Lemma rl_user : user_kept (memory s) (memory s2) root.
Proof.
  destruct (indices_table_path va) as (Hp & Hl). destruct rl_frame as (Htab & _).
  destruct (cow_entry_spec f old Hf rl_old) as (Hu & _).
  destruct (space_wf_frame s root (memory s1) Hwf) as (_ & _ & Hent1 & _); [apply Hwf1 | done |].
  apply (user_kept_trans _ (memory s1)).
  - intros r u Hr Hru _. by rewrite Htab.
  - intros r u j Hr _ Hj Hru _ _ HU. by rewrite (Hent1 r).
  - apply (sl_user s1 root t i (cow_entry f old) p); try done; [by rewrite Htab | apply index_range].
Qed.

Lemma rl_resolved :
  (exists n, used_at (pmm s) (table_physical old) (table_physical old / PMM_PAGE_SIZE) n /\
    if n =? 1 then f = table_physical old /\ pmm s1 = pmm s
    else exists q, f = q * PMM_PAGE_SIZE /\ 0 <= q < page_count (pmm s) /\
      abs (pmm s) q = Free /\ same_shape (pmm s) (pmm s1) /\
      forall r, 0 <= r -> abs (pmm s1) r =
        upd (upd (abs (pmm s)) q (Used 1)) (table_physical old / PMM_PAGE_SIZE) (Used (n - 1)) r) ->
  cr3 s1 = cr3 s /\ kernel_pml4 s1 = kernel_pml4 s ->
  resolved s s2 sp va old (cow_entry f old).
Proof.
  intros Hpages Hregs. destruct (cow_entry_spec f old Hf rl_old) as (Hu & Hph & _).
  split; fold root; rewrite ?Hph; try done.
  - split; [|done]. rewrite indices_split. rewrite (leaf_at _ _ p t) by done. fold i. rewrite Hent.
    by destruct Hcow as (-> & _).
  - apply rl_leaf.
  - intros Hdata k Hk. rewrite <- Hcopy by done. apply rl_bytes. intros (r & u & Hr & Hru & Hx).
    assert (u = f) as ->; [|destruct (Hown r f Hr Hru) as [|E]; [done|]; by apply (Hdata r f)].
    destruct (decide (u = f)) as [|Hne]; [done|].
    pose proof (pages_apart u f (tw_page _ _ (sw_tree _ _ Hwf) r u Hr Hru) Hf Hne). lia.
  - intros x Hb Hx. rewrite rl_bytes by done. by apply Hbytes.
  - apply rl_tables.
  - apply rl_user.
Qed.

End ResolveLeaf.

Lemma used_at_fun p a q n q' n' : used_at p a q n -> used_at p a q' n' -> n = n'.
Proof.
  intros (-> & _ & Hn) (E & _ & Hn'). assert (q = q') as -> by (unfold PMM_PAGE_SIZE in E; lia). congruence.
Qed.

Lemma flush_resolved s s' sp sp' va va' old new :
  resolved s s' sp va old new -> resolved s (flush sp' va' s') sp va old new.
Proof. intros [? ? ? ? ? ? ? ? ?]. split; by rewrite ?flush_memory, ?flush_pmm, ?flush_cr3, ?flush_kernel. Qed.

Lemma resolve_cow_cases sp va s :
  space_wf s (pml4_physical s sp) ->
  let '(r, s') := vmm_space_resolve_cow (Some sp) va s in
  space_wf s' (pml4_physical s sp) /\
  ((r = 0 /\ s' = s /\ forall n, ~ cow_fault s sp va n) \/
   (r = -1 /\ s' = s /\ free_pages (pmm s) <= PMM_KERNEL_RESERVE_PAGES /\ exists n, cow_fault s sp va n /\ 1 < n) \/
   (r = 1 /\ (exists n, cow_fault s sp va n) /\ exists old new, resolved s s' sp va old new)).
Proof.
  intros Hwf. set (root := pml4_physical s sp) in *. unfold vmm_space_resolve_cow.
  destruct (address_is_canonical va) eqn:Hc; simpl negb; cbv iota.
  2: { split; [done|]. left. split_and!; [done | done |]. intros n (? & _). congruence. }
  fold root. rewrite descend_table_at. destruct (indices_table_path va) as (Hp3 & Hl3).
  set (i := aget 0 (indices va) 3) in *. set (p := take 3 (indices va)) in *.
  destruct (table_at (memory s) root p) as [t|] eqn:Ht.
  2: { split; [done|]. left. split_and!; [done | done |]. intros n (_ & e & He & _).
       apply (leaf_inv _ _ p i) in He as (t & Ht' & _). fold root in Ht'. congruence. }
  pose proof (leaf_at (memory s) root p t i Ht) as Hleaf. change (p ++ [i]) with (indices va) in Hleaf.
  set (old := entry_at (memory s) t i) in *. assert (Hu : is_u64 old) by apply entry_u64, Hwf.
  destruct (negb ((old &! COW_MASK) =? COW_MASK) || has old VMM_WRITABLE) eqn:Htest.
  { split; [done|]. left. split_and!; [done | done |]. intros n (_ & e & He & Hcow & _). fold root in He.
    rewrite Hleaf in He. destruct (has old VMM_PRESENT); simplify_eq. apply cow_test in Hcow; [|done]. congruence. }
  apply cow_test in Htest as Hcow; [|done]. pose proof (table_physical_page old Hu) as Hpage.
  assert (Hrange : 0 <= table_physical old < 2 ^ 64 - PMM_PAGE_SIZE)
    by (destruct Hpage; unfold PMM_PAGE_SIZE; lia).
  pose proof (page_references_spec (pmm s) (table_physical old) (sw_pmm _ _ Hwf) Hrange) as Href.
  set (refs := pmm_page_references (table_physical old) (pmm s)) in *.
  destruct Hcow as (HP & Hcow'). rewrite HP in Hleaf. assert (Hcow : is_cow old) by done.
  destruct (Z.eqb_spec refs 0) as [H0|Hn0].
  { split; [done|]. left. split_and!; [done | done |]. intros n (_ & e & He & _ & Hused). fold root in He.
    rewrite Hleaf in He. injection He as <-.
    apply page_references_used in Hused as (E & ?); [|apply Hwf]. fold refs in E. lia. }
  specialize (Href Hn0).
  assert (Hfault : cow_fault s sp va refs) by (split; [done|]; by exists old).
  destruct (Z.eqb_spec refs 1) as [H1|Hn1].
  - rewrite cow_entry_same by done. split.
    + apply space_wf_flush, (rl_wf s s); done.
    + right; right. split_and!; [done | by exists refs |]. exists old. eexists. apply flush_resolved.
      apply (rl_resolved s s); try done; [by intros; right |].
      exists refs. rewrite H1 in *. done.
  - unfold pmm_alloc_user_page.
    destruct (alloc_page_fresh PMM_KERNEL_RESERVE_PAGES (pmm s) (sw_pmm _ _ Hwf))
      as [(Hle & ->)|(q & p1 & -> & Hq & Hfree & W1 & S1 & A1)]; [done | |].
    { simpl. split; [by destruct s|]. right; left. split_and!; [done | by destruct s | done |]. exists refs.
      split; [done|]. destruct (page_references_used _ _ _ _ (sw_pmm _ _ Hwf) Href). lia. }
    assert (Hvalid : (q * PMM_PAGE_SIZE =? PMM_INVALID_ADDRESS) = false).
    { pose proof (wf_page_count _ (sw_pmm _ _ Hwf)). apply Z.eqb_neq.
      unfold PMM_INVALID_ADDRESS, UINT64_MAX, PMM_PAGE_SIZE. lia. }
    rewrite Hvalid. fold (cow_entry (q * PMM_PAGE_SIZE) old). cbn [memory pmm with_pmm with_memory].
    set (f := q * PMM_PAGE_SIZE) in *.
    pose proof (cc_copy s root (table_physical old) q refs Hwf Hq Hfree Href Hpage) as (Hm & Hcp & Hout).
    pose proof (cc_pages s (table_physical old) q refs p1 _ Hfree W1 S1 A1 Href Hn1 Hpage eq_refl) as (W2 & S2 & A2).
    pose proof (cc_wf s root (table_physical old) q refs p1 _ Hwf Hq Hfree W1 S1 A1 Href Hn1 Hpage eq_refl) as Hwf1.
    pose proof (cc_tree s root (table_physical old) q refs Hwf Hq Hfree Href Hpage) as Htree.
    pose proof (cc_fresh s root q Hwf Hq Hfree) as Hfresh. pose proof (cc_page s root q Hwf Hq) as (Hf & _).
    assert (Hbusy : forall x, page_busy (pmm s) x -> rd (copy_page (memory s) f (table_physical old)) x = rd (memory s) x).
    { intros x Hb. apply Hout. intros Hx. by apply (Hfresh x). }
    split.
    + by apply space_wf_flush, (rl_wf s (mk_vmm _ (copy_page (memory s) f (table_physical old)) (cr3 s) (kernel_pml4 s) (tlb s))).
    + right; right. split_and!; [done | by exists refs |]. exists old. eexists. apply flush_resolved.
      apply (rl_resolved s (mk_vmm _ (copy_page (memory s) f (table_physical old)) (cr3 s) (kernel_pml4 s) (tlb s))); try done.
      * intros r u Hr Hru. left. intros ->. apply (Hfresh f); [lia | by apply (sw_busy _ _ Hwf r)].
      * exists refs. destruct (Z.eqb_spec refs 1); [done|]. split; [done|]. by exists q.
Qed.

(** ** Mapping succeeds when it can *)

Lemma create_table_total s t i flags :
  pmm_wf (pmm s) -> 0 < free_pages (pmm s) ->
  exists s', create_table t i flags s = (true, s') /\ free_pages (pmm s') = free_pages (pmm s) - 1.
Proof.
  intros Hwf Hfree. unfold create_table, pmm_alloc_page.
  destruct (alloc_page_spec 0 (pmm s) Hwf) as [(? & _)|(_ & q & Hq & Hf & ->)]; [done | lia |].
  assert (Hvalid : (q * PMM_PAGE_SIZE =? PMM_INVALID_ADDRESS) = false).
  { pose proof (wf_page_count _ Hwf). apply Z.eqb_neq. unfold PMM_INVALID_ADDRESS, UINT64_MAX, PMM_PAGE_SIZE. lia. }
  rewrite Hvalid. eexists. split; [reflexivity|]. simpl.
  apply (take_run_wf (pmm s) q 1 Hwf); [lia | lia | lia |]. intros r Hr. by replace r with q by lia.
Qed.

Lemma map_descend_total idx flags root s p table created last :
  space_wf s root -> table_at (memory s) root p = Some table -> page_path (p ++ idx ++ [last]) ->
  leaf (memory s) root (p ++ idx ++ [last]) = None -> Z.of_nat (length idx) <= free_pages (pmm s) ->
  is_Some (fst (fst (map_descend idx flags table created s))).
Proof.
  revert s p table created. induction idx as [|i idx IH]; intros s p table created Hwf Ht Hp Hleaf Hfree; [done|].
  assert (Hsplit : p ++ (i :: idx) ++ [last] = (p ++ [i]) ++ idx ++ [last]) by (by rewrite <- app_assoc).
  destruct Hp as (Hlen & HF). rewrite Hsplit in *.
  assert (Hi : index_ok i).
  { rewrite <- app_assoc in HF. apply Forall_app in HF as (_ & HF). by apply Forall_cons in HF as (? & _). }
  assert (Hpi : path_ok p /\ (length p < 3)%nat).
  { rewrite !length_app in Hlen. simpl in Hlen. rewrite <- app_assoc in HF. apply Forall_app in HF as (HF & _).
    split; [split; [lia | done] | lia]. }
  destruct Hpi as (Hpi & Hl). simpl in *.
  destruct (has (entry_at (memory s) table i) VMM_PRESENT) eqn:HP; simpl.
  - assert (HS : has (entry_at (memory s) table i) PAGE_SIZE_FLAG = false).
    { destruct (has (entry_at (memory s) table i) PAGE_SIZE_FLAG) eqn:HS; [|done].
      rewrite <- app_assoc, (leaf_app _ _ p table) in Hleaf by done. simpl in Hleaf.
      by rewrite HP, HS, orb_true_r in Hleaf. }
    rewrite HS. apply (IH s (p ++ [i])); try done; [|lia]. rewrite table_at_app, Ht. simpl. unfold next. by rewrite HP, HS.
  - destruct (create_table_total s table i flags) as (s1 & E & Hf1); [apply Hwf | lia |].
    destruct (create_table_spec s root table p i flags) as [E'|(f & s1' & E' & Hcr)]; try done; [congruence|].
    rewrite E in E'. injection E' as <-. rewrite E. simpl. pose proof (cr_next _ _ _ _ _ _ _ Hcr) as Hn.
    pose proof (next_Some _ _ Hn) as (_ & _ & Hf). destruct Hcr as [Wc Ec _ _ _ _ _ _ _ _].
    apply (IH s1 (p ++ [i])); [done | | by split | by rewrite (ext_leaf _ _ _ Ec) | lia].
    rewrite table_at_app, (ext_old _ _ _ Ec p table Hpi Ht). simpl. by rewrite Hn, Hf.
Qed.

Lemma map_page_total sp va pa flags s :
  space_wf s (pml4_physical s sp) -> map_refused sp va pa flags = false ->
  leaf (memory s) (pml4_physical s sp) (indices va) = None -> 3 <= free_pages (pmm s) ->
  fst (map_page_locked (Some sp) va pa flags s) = true.
Proof.
  intros Hwf Href Hleaf Hfree. unfold map_page_locked. rewrite Href. set (root := pml4_physical s sp) in *.
  destruct (indices_table_path va) as (Hp3 & Hl3).
  pose proof (map_descend_spec (take 3 (indices va)) flags root s s [] root []) as Hd.
  pose proof (map_descend_total (take 3 (indices va)) flags root s [] root [] (aget 0 (indices va) 3)) as Htot.
  destruct (map_descend _ flags root [] s) as [[res cr] s1]. destruct Hd as (W1 & E1 & _ & _ & R1); try done.
  destruct Htot as (t & Hres); try done; [apply indices_path|]. simpl in Hres. subst res.
  pose proof (leaf_at _ _ _ _ (aget 0 (indices va) 3) R1) as Hl.
  change (([] ++ take 3 (indices va)) ++ [aget 0 (indices va) 3]) with (indices va) in Hl.
  rewrite (ext_leaf _ _ _ E1), Hleaf in Hl by apply indices_path.
  destruct (has (entry_at (memory s1) t _) VMM_PRESENT); [done|]. done.
Qed.

End Vmm.
