(* ===== verification/VmmSafety.v ===== *)
(** * VmmSafety: what the paging operations guarantee

    The theorems of [Vmm] as properties of the calls of src/mm/vmm.c, and the
    security invariant of a user address space under any sequence of them: no
    user access above the user half, no user large page, never both writable
    and executable. *)

From S2P Require Import Prelude Memory Pmm PageTable Vmm.
Import Memory.Memory Pmm.Pmm PageTable.PageTable Vmm.Vmm.

Module VmmSafety.

(** ** What a query reports of the leaf *)

Lemma lor_has x y k : 0 <= k -> has (x |! y) (2 ^ k) = has x (2 ^ k) || has y (2 ^ k).
Proof. intros. rewrite !has_pow2 by done. apply Z.lor_spec. Qed.

Lemma query_walk_leaf m idx level t eff nx va pa fl :
  0 <= level -> level + alen idx = 4 -> Z.land eff (VMM_WRITABLE |! VMM_USER) = eff ->
  Z.land nx VMM_NO_EXECUTE = nx ->
  query_walk m idx level t eff nx va = Some (pa, fl) ->
  exists l e, leaf m t idx = Some (l, e) /\
    (has fl VMM_USER = true -> has e VMM_USER = true) /\
    (has fl VMM_WRITABLE = true -> has e VMM_WRITABLE = true) /\
    (has e VMM_NO_EXECUTE = true -> has fl VMM_NO_EXECUTE = true).
Proof.
  revert level t eff nx. induction idx as [|i idx IH]; intros level t eff nx Hl Hlen Heff Hnx H; simpl in H; [done|].
  simpl. set (e := entry_at m t i) in *. destruct (has e VMM_PRESENT) eqn:HP; simpl in *; [|done].
  destruct ((level =? 0) && has e PAGE_SIZE_FLAG) eqn:H0; [done|].
  assert (Hidx : bool_decide (idx = []) = (level =? 3)).
  { unfold alen in Hlen. destruct idx; cbn [length] in Hlen.
    - rewrite bool_decide_true by done. symmetry. apply Z.eqb_eq. lia.
    - rewrite bool_decide_false by done. symmetry. apply Z.eqb_neq. lia. }
  rewrite Hidx. destruct ((level =? 3) || has e PAGE_SIZE_FLAG) eqn:H3.
  - injection H as <- <-. exists (alen idx), e. split; [done|].
    assert (Hb : forall k, k = 1 \/ k = 2 -> Z.testbit (Z.land eff (e &! (VMM_WRITABLE |! VMM_USER))) k = true -> Z.testbit e k = true).
    { intros k Hk. rewrite !Z.land_spec. by destruct (Z.testbit e k); rewrite ?andb_false_r. }
    assert (Hn2 : Z.testbit nx 2 = false /\ Z.testbit nx 1 = false).
    { rewrite <- Hnx. split; bits; done. }
    destruct Hn2 as (N2 & N1). clearbody e. flags. split_and!.
    + intros Hf. apply (Hb 2); [by right|]. revert Hf. rewrite !(Z.lor_spec _ _ 2), N2. bits. by rewrite ?orb_false_r.
    + intros Hf. apply (Hb 1); [by left|]. revert Hf. rewrite !(Z.lor_spec _ _ 1), N1. bits. by rewrite ?orb_false_r.
    + intros Hf. bits. by rewrite Hf, !orb_true_r.
  - apply orb_false_iff in H3 as (H3 & _). bool_prop.
    apply (IH (level + 1)) in H; [done | lia | unfold alen in *; simpl in *; lia | |].
    + rewrite <- Z.land_assoc. f_equal. rewrite <- Z.land_assoc. done.
    + rewrite Z.land_lor_distr_l, Hnx. f_equal. rewrite <- Z.land_assoc. done.
Qed.

(** The first index tells the user half from the kernel half. *)
Definition user_half (idx : list Z) : Prop := aget 0 idx 0 < 256.

Lemma user_half_address va : is_u64 va -> address_is_canonical va = true ->
  user_half (indices va) <-> va < 0x0000800000000000.
Proof.
  intros Hva Hc. unfold user_half, indices, aget. simpl.
  change 0x1FF with (Z.ones 9). rewrite Z.land_ones, Z.shiftr_div_pow2 by done.
  unfold address_is_canonical in Hc. rewrite Z.shiftr_div_pow2 in Hc by done.
  rewrite (has_pow2 va 47) in Hc by done. rewrite Z.testbit_eqb in Hc by done.
  replace (va / 2 ^ 48) with (va / 2 ^ 39 / 512) in Hc by (by rewrite Z.div_div).
  replace (va / 2 ^ 47) with (va / 2 ^ 39 / 256) in Hc by (by rewrite Z.div_div).
  assert (Hq : va < 0x0000800000000000 <-> va / 2 ^ 39 < 256).
  { change 0x0000800000000000 with (2 ^ 39 * 256). split; intros H.
    - apply Z.div_lt_upper_bound; lia.
    - pose proof (Z.mul_div_le va (2 ^ 39)). pose proof (Z.mod_pos_bound va (2 ^ 39)).
      pose proof (Z.div_mod va (2 ^ 39)). lia. }
  rewrite Hq. assert (0 <= va / 2 ^ 39) by (apply Z.div_pos; unfold is_u64 in Hva; lia).
  set (q := va / 2 ^ 39) in *. clearbody q. change (2 ^ 9) with 512.
  destruct (Z.eqb_spec ((q / 256) mod 2) 1); apply Z.eqb_eq in Hc; cbv iota in Hc; Z.div_mod_to_equations; lia.
Qed.

(** ** The security invariant of a user space *)

(** A user leaf is a 4 KiB page of the lower half, and is not executable when
    it is or can become writable. *)
Definition safe_entry (idx : list Z) (l e : Z) : Prop :=
  has e VMM_USER = true ->
  l = 0 /\ user_half idx /\
  (has e VMM_WRITABLE = true \/ has e VMM_COPY_ON_WRITE = true -> has e VMM_NO_EXECUTE = true).

Definition safe (m : mem) (root : Z) : Prop :=
  forall idx l e, page_path idx -> leaf m root idx = Some (l, e) -> safe_entry idx l e.

(** The same but for the pages of a set [open]. *)
Definition safe_entry_but (open : list Z -> Prop) (idx : list Z) (l e : Z) : Prop :=
  has e VMM_USER = true ->
  l = 0 /\ user_half idx /\
  (has e VMM_WRITABLE = true \/ has e VMM_COPY_ON_WRITE = true -> has e VMM_NO_EXECUTE = true \/ open idx).

Definition safe_but (open : list Z -> Prop) (m : mem) (root : Z) : Prop :=
  forall idx l e, page_path idx -> leaf m root idx = Some (l, e) -> safe_entry_but open idx l e.

Inductive vmm_op :=
| MapPage (virtual_address physical_address flags : Z)
| UnmapPage (virtual_address : Z)
| ResolveCow (virtual_address : Z).

(** Addresses are 64-bit words and frames lie below the 52-bit limit. *)
Definition vmm_op_ok (op : vmm_op) : Prop :=
  match op with
  | MapPage va pa flags => is_u64 va /\ 0 <= pa < 2 ^ 52
  | UnmapPage va | ResolveCow va => is_u64 va
  end.

(** The page of an address was mapped copy-on-write and executable, which
    [map_page_locked] does not refuse. *)
Definition mapped_open (ops : list vmm_op) (idx : list Z) : Prop :=
  exists va pa flags, MapPage va pa flags ∈ ops /\ indices va = idx /\
    has flags VMM_COPY_ON_WRITE = true /\ has flags VMM_NO_EXECUTE = false.

Definition run_vmm (sp : space) (op : vmm_op) (s : vmm_state) : vmm_state :=
  match op with
  | MapPage va pa flags => snd (vmm_space_map_page (Some sp) va pa flags s)
  | UnmapPage va => snd (vmm_space_unmap_page (Some sp) va s)
  | ResolveCow va => snd (vmm_space_resolve_cow (Some sp) va s)
  end.

Definition run_vmm_ops (sp : space) (ops : list vmm_op) (s : vmm_state) : vmm_state :=
  fold_left (fun s op => run_vmm sp op s) ops s.

Lemma safe_open open m root : safe m root -> safe_but open m root.
Proof.
  intros Hs idx l e Hidx He HU. destruct (Hs idx l e Hidx He HU) as (H1 & H2 & H3). split_and!; [done | done |]. left. auto.
Qed.

Lemma safe_same open m m' root :
  (forall idx, page_path idx -> leaf m' root idx = leaf m root idx) -> safe_but open m root -> safe_but open m' root.
Proof. intros H Hs idx l e Hidx He. rewrite H in He by done. by apply (Hs idx l e). Qed.

Lemma map_safe open root va pa flags s :
  space_wf s root -> is_u64 va -> 0 <= pa < 2 ^ 52 ->
  (has flags VMM_COPY_ON_WRITE = true -> has flags VMM_NO_EXECUTE = true \/ open (indices va)) -> safe_but open (memory s) root ->
  let s' := snd (vmm_space_map_page (Some (Space root)) va pa flags s) in
  space_wf s' root /\ safe_but open (memory s') root.
Proof.
  intros Hwf Hva Hpa Hcow Hsafe. pose proof (map_page_cases (Space root) va pa flags s Hwf Hva Hpa) as H.
  unfold vmm_space_map_page. destruct (map_page_locked _ va pa flags s) as [ok s']. simpl in *.
  destruct H as (W & H). split; [done|]. destruct ok.
  - destruct H as (Href & Hm). pose proof (map_refused_false _ _ _ _ Href) as (Hval & Hpal & Hc & HW & HU & _).
    intros idx l e Hidx He. rewrite (mp_leaf _ _ _ _ _ _ Hm) in He by done. simpl in He.
    case_decide as Hd; [|by apply (Hsafe idx l e)]. simplify_eq. intros Hu. flags.
    assert (Hpage : is_page pa) by done. rewrite leaf_entry_bit in Hu by auto.
    rewrite !leaf_entry_bit by auto. destruct (HU Hu) as (Hlow & _).
    split_and!; [done | by apply user_half_address |]. intros [?|?]; auto.
  - apply (safe_same open (memory s)); [|done]. intros idx Hidx. by apply tree_sim_leaf; [apply H|].
Qed.

Lemma unmap_safe open root va s :
  space_wf s root -> safe_but open (memory s) root ->
  let s' := snd (vmm_space_unmap_page (Some (Space root)) va s) in
  space_wf s' root /\ safe_but open (memory s') root.
Proof.
  intros Hwf Hsafe. pose proof (unmap_page_cases (Space root) va s Hwf) as H.
  destruct (vmm_space_unmap_page _ va s) as [pa s']. simpl in *.
  destruct H as (W & [(_ & -> & _)|(_ & Hu)]); [done|]. split; [done|].
  intros idx l e Hidx He. rewrite (um_leaf _ _ _ _ _ Hu) in He by done.
  case_decide; [done|]. by apply (Hsafe idx l e).
Qed.

Lemma resolve_safe open root va s :
  space_wf s root -> safe_but open (memory s) root ->
  let s' := snd (vmm_space_resolve_cow (Some (Space root)) va s) in
  space_wf s' root /\ safe_but open (memory s') root.
Proof.
  intros Hwf Hsafe. pose proof (resolve_cow_cases (Space root) va s Hwf) as H.
  destruct (vmm_space_resolve_cow _ va s) as [r s']. simpl in *.
  destruct H as (W & [(_ & -> & _)|[(_ & -> & _)|(_ & _ & old & new & Hr)]]); [done | done |]. split; [done|].
  destruct (rs_old _ _ _ _ _ _ Hr) as (Hold & HP & HU & HC & HW).
  change (pml4_physical s (Space root)) with root in Hold.
  destruct (Hsafe _ _ _ (indices_path va) Hold HU) as (_ & Hhalf & HX).
  assert (Hu : is_u64 old).
  { rewrite indices_split in Hold. apply leaf_inv in Hold as (t & _ & <- & _). apply entry_u64, Hwf. }
  assert (Hpage : is_page (table_physical new)).
  { rewrite indices_split in Hold.
    assert (Hnew : leaf (memory s') root (indices va) = Some (0, new)).
    { rewrite (rs_leaf _ _ _ _ _ _ Hr) by apply indices_path. by rewrite decide_True. }
    rewrite indices_split in Hnew. apply leaf_inv in Hnew as (t & _ & <- & _).
    apply table_physical_page, entry_u64, W. }
  intros idx l e Hidx He. rewrite (rs_leaf _ _ _ _ _ _ Hr) in He by done.
  case_decide; [|by apply (Hsafe idx l e)]. simplify_eq. intros _. split_and!; [done | done |]. intros _.
  rewrite (rs_new _ _ _ _ _ _ Hr). destruct (cow_entry_spec _ old Hpage Hu) as (_ & _ & _ & _ & _ & _ & ->). auto.
Qed.

Lemma run_vmm_ops_safe open root ops s :
  space_wf s root -> safe_but open (memory s) root -> Forall vmm_op_ok ops -> (forall idx, mapped_open ops idx -> open idx) ->
  let s' := run_vmm_ops (Space root) ops s in space_wf s' root /\ safe_but open (memory s') root.
Proof.
  revert s. induction ops as [|op ops IH]; intros s Hwf Hsafe Hok Hopen; simpl; [done|].
  apply Forall_cons in Hok as (Hop & Hops).
  assert (H : space_wf (run_vmm (Space root) op s) root /\ safe_but open (memory (run_vmm (Space root) op s)) root).
  { destruct op as [va pa flags|va|va]; cbn [run_vmm].
    - destruct Hop as (? & ?). apply map_safe; try done. intros Hcow. destruct (has flags VMM_NO_EXECUTE) eqn:Hnx; [by left|].
      right. apply Hopen. exists va, pa, flags. split; [by left | done].
    - by apply unmap_safe.
    - by apply resolve_safe. }
  destruct H. apply IH; try done. intros idx (va & pa & flags & Hin & Hrest). apply Hopen. exists va, pa, flags. split; [by right | done].
Qed.

(** ** Theorems *)


(** C4 [vmm_space_map_page] maps exactly one page: when it succeeds, the page
    was not mapped, a query of the address returns the given frame with the
    given rights, every other page translates as before, no page in use changes
    its state and no byte outside the tables and the free pages changes.  When
    it fails, the tables it created are returned and every mapping, page state
    and byte is as before.  With three free pages it fails only for a request
    it must refuse or a page that is already mapped. *)
Theorem map_page_correct sp va pa flags s :
  space_wf s (pml4_physical s sp) -> is_u64 va -> 0 <= pa < 2 ^ 52 ->
  let '(ok, s') := vmm_space_map_page (Some sp) va pa flags s in
  space_wf s' (pml4_physical s sp) /\
  (if ok then map_refused sp va pa flags = false /\ mapped s s' sp va pa flags
   else space_sim s s' (pml4_physical s sp)) /\
  (map_refused sp va pa flags = false -> leaf (memory s) (pml4_physical s sp) (indices va) = None ->
   3 <= free_pages (pmm s) -> ok = true).
Proof.
  intros Hwf Hva Hpa. pose proof (map_page_cases sp va pa flags s Hwf Hva Hpa) as H.
  pose proof (map_page_total sp va pa flags s Hwf) as Htot. unfold vmm_space_map_page.
  destruct (map_page_locked (Some sp) va pa flags s) as [ok s']. destruct H as (? & ?). done.
Qed.

(** C5 [vmm_space_unmap_page] removes exactly one page: it returns the frame
    the page was mapped to, the page is no longer mapped, every other page
    translates as before, and only table pages change their state.  Of the
    tables on the address's path every one that stays below the root still has
    a present entry, the others are unlinked and their pages lose a reference,
    which frees them when it was the last; tables off the path stay, with
    their pages.  When it returns [PMM_INVALID_ADDRESS] nothing changed and the
    address was refused or not mapped by a 4 KiB page. *)
Theorem unmap_page_correct sp va s :
  space_wf s (pml4_physical s sp) ->
  let '(pa, s') := vmm_space_unmap_page (Some sp) va s in
  space_wf s' (pml4_physical s sp) /\
  ((pa = PMM_INVALID_ADDRESS /\ s' = s /\
    (unmap_refused sp va = true \/ forall e, leaf (memory s) (pml4_physical s sp) (indices va) <> Some (0, e))) \/
   (unmap_refused sp va = false /\ unmapped s s' sp va pa)).
Proof. apply unmap_page_cases. Qed.

(** C6 [vmm_space_resolve_cow] gives the space a page of its own: on a
    copy-on-write fault with a page to spare it makes the page writable, keeps
    its 4096 bytes, and either keeps the frame, when this was the last
    reference, or copies it to a frame that was free and drops one reference
    to the shared one.  Every other page translates as before and no byte of a
    page in use changes.  It returns 0 exactly when there is no such fault and
    -1 only for a shared page when no user page is left, and then nothing
    changed. *)
Theorem resolve_cow_correct sp va s :
  space_wf s (pml4_physical s sp) ->
  let '(r, s') := vmm_space_resolve_cow (Some sp) va s in
  space_wf s' (pml4_physical s sp) /\
  ((r = 0 /\ s' = s /\ forall n, ~ cow_fault s sp va n) \/
   (r = -1 /\ s' = s /\ free_pages (pmm s) <= PMM_KERNEL_RESERVE_PAGES /\ exists n, cow_fault s sp va n /\ 1 < n) \/
   (r = 1 /\ (exists n, cow_fault s sp va n) /\ exists old new, resolved s s' sp va old new)).
Proof. apply resolve_cow_cases. Qed.

(** ** A small address space *)

(** An empty root table at 0x12000 and a data page at 0x13000, both allocated. *)
Definition sample_space : space := Space 0x12000.
Definition sample_vmm : vmm_state :=
  mk_vmm (snd (pmm_alloc_page (snd (pmm_alloc_page sample_pmm)))) ∅ 0x12000 0 [].

Lemma entry_empty t i : entry_at ∅ t i = 0.
Proof. done. Qed.

Lemma sample_space_wf : space_wf sample_vmm 0x12000.
Proof.
  assert (Hroot : forall p t, table_at ∅ 0x12000 p = Some t -> p = [] /\ t = 0x12000).
  { intros [|i p] t H; [by simplify_eq/=|]. simpl in H. by rewrite entry_empty in H. }
  split.
  - destruct (alloc_page_fresh 0 sample_pmm sample_wf) as [(_ & E)|(q & st & E & _ & _ & W & _)]; [done | |].
    + by vm_compute in E.
    + unfold sample_vmm. cbn [pmm]. unfold pmm_alloc_page. rewrite E. cbn [snd].
      destruct (alloc_page_fresh 0 st W) as [(_ & ->)|(q' & st' & -> & _ & _ & W' & _)]; done.
  - apply empty_ok.
  - split.
    + intros p t _ Ht. apply Hroot in Ht as (_ & ->). unfold is_page. split; [done | lia].
    + intros p q t _ _ Hp Hq. apply Hroot in Hp as (-> & _), Hq as (-> & _). done.
  - intros p t _ Ht. apply Hroot in Ht as (_ & ->). intros _. by vm_compute.
  - intros p t i _ _ Ht _. change (memory sample_vmm) with (∅ : mem). rewrite entry_empty. by intros (? & ?).
Qed.

Definition sample_flags : Z := VMM_USER |! VMM_NO_EXECUTE |! VMM_COPY_ON_WRITE.
Definition sample_mapped : vmm_state :=
  snd (vmm_space_map_page (Some sample_space) 0x400000 0x13000 sample_flags sample_vmm).

Lemma sample_map :
  map_page_locked (Some sample_space) 0x400000 0x13000 sample_flags sample_vmm = (true, sample_mapped) /\
  space_wf sample_mapped 0x12000 /\ mapped sample_vmm sample_mapped sample_space 0x400000 0x13000 sample_flags.
Proof.
  pose proof (map_page_total sample_space 0x400000 0x13000 sample_flags sample_vmm sample_space_wf) as Hok.
  pose proof (map_page_cases sample_space 0x400000 0x13000 sample_flags sample_vmm sample_space_wf) as H.
  unfold sample_mapped, vmm_space_map_page.
  destruct (map_page_locked (Some sample_space) 0x400000 0x13000 sample_flags sample_vmm) as [ok s'].
  cbn [fst snd] in *. rewrite Hok in * by (by vm_compute).
  destruct H as (W & _ & M); [unfold is_u64; lia | lia |]. done.
Qed.

Lemma sample_leaf : leaf (memory sample_mapped) 0x12000 (indices 0x400000) = Some (0, leaf_entry 0x13000 sample_flags).
Proof.
  destruct sample_map as (_ & _ & M). rewrite (mp_leaf _ _ _ _ _ _ M) by apply indices_path. by rewrite decide_True.
Qed.

Lemma sample_safe : safe (memory sample_vmm) 0x12000.
Proof.
  intros idx l e (Hl & _) He. destruct idx as [|i idx]; [done|]. simpl in He. by rewrite entry_empty in He.
Qed.


Lemma map_page_correct_witness :
  fst (vmm_space_map_page (Some sample_space) 0x400000 0x13000 sample_flags sample_vmm) = true.
Proof.
  pose proof (map_page_correct sample_space 0x400000 0x13000 sample_flags sample_vmm sample_space_wf) as H.
  destruct (vmm_space_map_page (Some sample_space) 0x400000 0x13000 sample_flags sample_vmm) as [ok s'].
  apply H; [unfold is_u64; lia | lia | by vm_compute..].
Defined.

#[local] Opaque sample_mapped.

Lemma unmap_page_correct_witness : fst (vmm_space_unmap_page (Some sample_space) 0x400000 sample_mapped) = 0x13000.
Proof.
  destruct sample_map as (_ & W & _). pose proof (unmap_page_correct sample_space 0x400000 sample_mapped W) as H.
  destruct (vmm_space_unmap_page (Some sample_space) 0x400000 sample_mapped) as [pa s'].
  destruct H as (_ & [(_ & _ & [?|Hno])|(_ & U)]); [done | |].
  - destruct (Hno _ sample_leaf).
  - destruct (um_entry _ _ _ _ _ U) as (e & He & ->). pose proof sample_leaf as Hl.
    change (pml4_physical sample_mapped sample_space) with 0x12000 in He. rewrite Hl in He. by injection He as <-.
Defined.

Lemma resolve_cow_correct_witness : fst (vmm_space_resolve_cow (Some sample_space) 0x400123 sample_mapped) = 1.
Proof.
  destruct sample_map as (_ & W & M). pose proof (resolve_cow_correct sample_space 0x400123 sample_mapped W) as H.
  destruct (vmm_space_resolve_cow (Some sample_space) 0x400123 sample_mapped) as [r s'].
  assert (Hused : used_at (pmm sample_mapped) 0x13000 0x13 1).
  { split_and!; [done | lia | |].
    - pose proof (ss_page_count _ _ (so_shape _ _ _ (mp_outside _ _ _ _ _ _ M))) as Hs.
      cbn [pmm with_tlb] in Hs. rewrite Hs. by vm_compute.
    - rewrite (mp_abs _ _ _ _ _ _ M); [by vm_compute | by vm_compute | by vm_compute]. }
  assert (Hfault : cow_fault sample_mapped sample_space 0x400123 1).
  { split; [done|]. exists (leaf_entry 0x13000 sample_flags).
    replace (indices 0x400123) with (indices 0x400000) by (by vm_compute).
    split; [exact sample_leaf|]. split; [by vm_compute|]. exact Hused. }
  destruct H as (_ & [(_ & _ & Hno)|[(_ & _ & _ & n & Hf & Hn)|(-> & _)]]); [by destruct (Hno 1) | | done].
  destruct Hfault as (_ & e & He & _ & Hu), Hf as (_ & e' & He' & _ & Hu'). rewrite He in He'. injection He' as <-.
  pose proof (used_at_fun _ _ _ _ _ _ Hu Hu'). lia.
Defined.

End VmmSafety.
