(* ===== verification/VmmProgress.v ===== *)
(** * VmmProgress: mapping a page succeeds when there is memory

    [vmm_space_map_page] needs at most one page per upper level, so a request
    that is not refused, for an address that is not mapped, fails only when the
    allocator has fewer than three pages. *)

From S2P Require Import Prelude Memory Pmm PageTable Vmm.
Import Memory.Memory Pmm.Pmm PageTable.PageTable Vmm.Vmm.

Module VmmProgress.

Lemma alloc_count reserve st a st' : pmm_wf st -> 0 <= reserve -> alloc_page_with_reserve reserve st = (a, st') ->
  (free_pages st <= reserve /\ a = PMM_INVALID_ADDRESS /\ st' = st) \/
  (reserve < free_pages st /\ a <> PMM_INVALID_ADDRESS /\ free_pages st' = free_pages st - 1).
Proof.
  intros Hwf Hres E. destruct (alloc_page_spec reserve st Hwf Hres) as [(Hle & E')|(Hlt & p & Hp & Hf & E')]; rewrite E in E'; injection E' as -> ->; [by left|].
  right. split_and!; [done | |].
  - pose proof (wf_page_count _ Hwf). unfold PMM_INVALID_ADDRESS, UINT64_MAX, PMM_PAGE_SIZE. lia.
  - apply take_run_wf; try done; try lia. intros q Hq. by replace q with p by lia.
Qed.

Lemma create_table_progress s t i flags : pmm_wf (pmm s) -> 0 < free_pages (pmm s) ->
  exists s', create_table t i flags s = (true, s') /\ free_pages (pmm s') = free_pages (pmm s) - 1.
Proof.
  intros Hwf Hfree. unfold create_table, pmm_alloc_page. destruct (alloc_page_with_reserve 0 (pmm s)) as [a p] eqn:E.
  destruct (alloc_count 0 (pmm s) a p Hwf ltac:(done) E) as [(? & _)|(_ & Ha & Hc)]; [lia|].
  rewrite (proj2 (Z.eqb_neq _ _) Ha). by eexists.
Qed.

(** The walk of the upper levels reaches the last table. *)
Lemma map_descend_progress idx flags root s p table created i :
  space_wf s root -> table_at (memory s) root p = Some table -> path_ok (p ++ idx) -> page_path (p ++ idx ++ [i]) ->
  leaf (memory s) root (p ++ idx ++ [i]) = None -> Z.of_nat (length idx) <= free_pages (pmm s) ->
  exists t created' s', map_descend idx flags table created s = (Some t, created', s') /\
    has (entry_at (memory s') t i) VMM_PRESENT = false.
Proof.
  revert s p table created. induction idx as [|j idx IH]; intros s p table created Hwf Ht Hp Hpp Hl Hfree.
  { exists table, created, s. split; [done|]. rewrite (leaf_app _ _ p table) in Hl by done. simpl in Hl. by destruct (has _ VMM_PRESENT). }
  assert (Hpi : path_ok p) by (by apply (path_ok_prefix _ (j :: idx))).
  assert (Hj : index_ok j).
  { destruct Hp as (_ & HF). apply Forall_app in HF as (_ & HF). by apply Forall_cons in HF as (? & _). }
  assert (Hlen : (length p < 3)%nat) by (destruct Hp as (H & _); rewrite length_app in H; simpl in H; lia).
  cbn [app] in Hl, Hpp. rewrite (cons_middle j p idx), app_assoc in Hp. rewrite (cons_middle j p (idx ++ [i])), app_assoc in Hpp.
  pose proof Hl as Hl'. rewrite (cons_middle j p (idx ++ [i])), app_assoc in Hl'. rewrite (leaf_app _ _ p table) in Hl by done.
  cbn [leaf] in Hl. cbn [map_descend length] in *. destruct (has (entry_at (memory s) table j) VMM_PRESENT) eqn:HP; cbn [negb] in *.
  - rewrite (bool_decide_false (idx ++ [i] = [])) in Hl by (by destruct idx). cbn [orb] in Hl.
    destruct (has (entry_at (memory s) table j) PAGE_SIZE_FLAG) eqn:HS; [done|]. apply (IH s (p ++ [j])); try done; [|lia].
    rewrite table_at_app, Ht. simpl. unfold next. by rewrite HP, HS.
  - destruct (create_table_progress s table j flags (sw_pmm _ _ Hwf) ltac:(lia)) as (s1 & E & Hc). rewrite E. cbn [negb].
    destruct (create_table_spec s root table p j flags Hwf Hpi Hlen Ht Hj HP) as [E'|(f & s1' & E' & Hcr)]; [congruence|].
    rewrite E in E'. injection E' as <-. pose proof (next_Some _ _ (cr_next _ _ _ _ _ _ _ Hcr)) as (_ & _ & Hf).
    apply (IH s1 (p ++ [j])); try done; [apply Hcr | | |lia].
    + rewrite table_at_app, (ext_old _ _ _ (cr_ext _ _ _ _ _ _ _ Hcr) p table Hpi Ht). simpl. by rewrite (cr_next _ _ _ _ _ _ _ Hcr), Hf.
    + by rewrite (ext_leaf _ _ _ (cr_ext _ _ _ _ _ _ _ Hcr)).
Qed.

Lemma map_page_progress sp va pa flags s :
  space_wf s (pml4_physical s sp) -> map_refused sp va pa flags = false ->
  leaf (memory s) (pml4_physical s sp) (indices va) = None -> 3 <= free_pages (pmm s) ->
  fst (vmm_space_map_page (Some sp) va pa flags s) = true.
Proof.
  intros Hwf Href Hl Hfree. unfold vmm_space_map_page, map_page_locked. rewrite Href. destruct (indices_table_path va) as (Hp3 & Hl3).
  destruct (map_descend_progress (take 3 (indices va)) flags (pml4_physical s sp) s [] (pml4_physical s sp) [] (aget 0 (indices va) 3))
    as (t & cr & s' & -> & ->); try done.
  apply indices_path.
Qed.

End VmmProgress.
