(* ===== verification/KernelPages.v ===== *)
(** * KernelPages: runs of fresh kernel pages (src/mm/kmalloc.c, src/mm/stack.c)

    [grow_heap] and [kernel_stack_alloc] map a run of fresh pages with the same
    loop, and undo it when a page or a table is missing; [kernel_stack_free]
    unmaps one.  [PageSupply] is what the heap relies on: a run that was
    supplied is mapped, and pages mapped earlier stay mapped. *)

From S2P Require Import Prelude Memory Pmm PageTable Vmm VmmSafety.
Import Memory.Memory Pmm.Pmm PageTable.PageTable Vmm.Vmm VmmSafety.VmmSafety.

Module KernelPages.

Definition KERNEL_FLAGS : Z := VMM_WRITABLE |! VMM_NO_EXECUTE.

(** [vmm_unmap_page] and release of the frame. *)
Definition unmap_and_free (virtual_address : Z) (s : vmm_state) : vmm_state :=
  let '(physical, s) := vmm_unmap_page virtual_address s in
  if physical =? PMM_INVALID_ADDRESS then s
  else with_pmm s (snd (pmm_free_page physical (pmm s))).

(** [base + page * PMM_PAGE_SIZE] *)
Definition page_va (base : Z) (page : nat) : Z := base +! Z.of_nat page * PMM_PAGE_SIZE.

(** [while (mapped_pages > 0) { mapped_pages--; ... }] *)
Fixpoint unmap_back (mapped_pages : nat) (base : Z) (s : vmm_state) : vmm_state :=
  match mapped_pages with
  | O => s
  | S mapped_pages =>
      unmap_back mapped_pages base (unmap_and_free (page_va base mapped_pages) s)
  end.

(** The loop over the pages from [page] on, [todo] of them left. *)
Fixpoint map_fresh (todo page : nat) (base : Z) (s : vmm_state) : bool * vmm_state :=
  match todo with
  | O => (true, s)
  | S todo =>
      let '(physical, p) := pmm_alloc_page (pmm s) in
      let s := with_pmm s p in
      if physical =? PMM_INVALID_ADDRESS then (false, unmap_back page base s)
      else
        let '(ok, s) := vmm_map_page (page_va base page) physical KERNEL_FLAGS s in
        if ok then map_fresh todo (S page) base s
        else (false, unmap_back page base (with_pmm s (snd (pmm_free_page physical (pmm s)))))
  end.

Definition map_fresh_pages (base page_count : Z) (s : vmm_state) : bool * vmm_state :=
  map_fresh (Z.to_nat page_count) 0 base s.

(** ** The interface of the heap *)

(** [supply base n s] maps [n] pages from [base] on, or fails; a page once
    mapped stays mapped. *)
Class PageSupply (S : Type) := {
  supply : Z -> Z -> S -> bool * S;
  supply_wf : S -> Prop;
  is_mapped : S -> Z -> Prop;
  supply_spec : forall base n s, supply_wf s -> 0 <= base -> 0 <= n -> base + n * PMM_PAGE_SIZE <= 2 ^ 64 ->
    let '(ok, s') := supply base n s in
    supply_wf s' /\ (forall va, is_mapped s va -> is_mapped s' va) /\
    (ok = true -> forall i, 0 <= i < n -> is_mapped s' (base + i * PMM_PAGE_SIZE));
}.

(** ** Mapping and undoing one page *)

Definition kleaf (s : vmm_state) (idx : list Z) : option (Z * Z) := leaf (memory s) (kernel_pml4 s) idx.
Definition kernel_wf (s : vmm_state) : Prop := space_wf s (kernel_pml4 s).

(** The page at [va] is mapped. *)
Definition kernel_mapped (s : vmm_state) (va : Z) : Prop := exists e, kleaf s (indices va) = Some (0, e).

(** The same mappings of the kernel space. *)
Definition same_maps (s s' : vmm_state) : Prop :=
  kernel_wf s' /\ kernel_pml4 s' = kernel_pml4 s /\
  forall idx, page_path idx -> kleaf s' idx = kleaf s idx.

Lemma same_maps_refl s : kernel_wf s -> same_maps s s.
Proof. by split. Qed.

Lemma same_maps_trans s1 s2 s3 : same_maps s1 s2 -> same_maps s2 s3 -> same_maps s1 s3.
Proof. intros (W1 & K1 & L1) (W2 & K2 & L2). split_and!; [done | congruence |]. intros. by rewrite L2, L1. Qed.

(** [f] is not a table of the kernel space. *)
Definition not_table (s : vmm_state) (f : Z) : Prop :=
  is_page f /\ forall r t, path_ok r -> table_at (memory s) (kernel_pml4 s) r = Some t -> t <> f.

(** A frame in use that is not a table. *)
Definition data_frame (s : vmm_state) (f : Z) : Prop := not_table s f /\ page_busy (pmm s) f.

(** Releasing a frame that is not a table keeps the space. *)
Lemma free_frame s f :
  kernel_wf s -> not_table s f ->
  let s' := with_pmm s (snd (pmm_free_page f (pmm s))) in
  same_maps s s' /\ (forall g, not_table s g -> not_table s' g).
Proof.
  intros Hwf (Hf & Hno) s'. destruct (free_page_other (pmm s) f (sw_pmm _ _ Hwf) Hf) as (W & S & A).
  split; [|done]. split_and!; [|done | done]. destruct Hwf as [Wp Wm Wt Wb Wu]. split; simpl; try done.
  intros r t Hr Ht. specialize (Wb r t Hr Ht). unfold page_busy in *. rewrite (ss_page_count _ _ S). intros Hx.
  rewrite A; [by apply Wb | lia |]. intros E. apply (Hno r t Hr Ht).
  apply page_index_inj; [by apply (tw_page _ _ Wt r) | done | done].
Qed.

Lemma unmap_and_free_spec s va e :
  kernel_wf s -> unmap_refused KernelSpace va = false -> kleaf s (indices va) = Some (0, e) ->
  not_table s (table_physical e) ->
  let s' := unmap_and_free va s in
  kernel_wf s' /\ kernel_pml4 s' = kernel_pml4 s /\
  (forall idx, page_path idx -> kleaf s' idx = if decide (idx = indices va) then None else kleaf s idx) /\
  (forall g, not_table s g -> not_table s' g).
Proof.
  intros Hwf Href He Hnt. unfold unmap_and_free, vmm_unmap_page.
  pose proof (unmap_page_cases KernelSpace va s Hwf) as H.
  destruct (vmm_space_unmap_page (Some KernelSpace) va s) as [pa s1].
  destruct H as (W & [(_ & _ & [?|Hno])|(_ & U)]); [congruence | by destruct (Hno e)|].
  change (pml4_physical s KernelSpace) with (kernel_pml4 s) in W. destruct (um_regs _ _ _ _ _ U) as (_ & K). destruct (um_entry _ _ _ _ _ U) as (e' & He' & ->).
  change (pml4_physical s KernelSpace) with (kernel_pml4 s) in He'. unfold kleaf in He. rewrite He in He'. injection He' as <-.
  assert (Hnt1 : forall g, not_table s g -> not_table s1 g).
  { intros g (Hg & Hno). split; [done|]. intros r t Hr Ht. apply (Hno r); [done|].
    rewrite K in Ht. by apply (um_table _ _ _ _ _ U). }
  assert (Hvalid : (table_physical e =? PMM_INVALID_ADDRESS) = false).
  { destruct Hnt as ((_ & ?) & _). apply Z.eqb_neq. unfold PMM_INVALID_ADDRESS, UINT64_MAX. lia. }
  rewrite Hvalid. assert (W1 : kernel_wf s1) by (unfold kernel_wf; by rewrite K).
  destruct (free_frame s1 (table_physical e) W1 (Hnt1 _ Hnt)) as ((W2 & K2 & L2) & Hnt2).
  split_and!; [done | simpl; congruence | | by auto].
  intros idx Hidx. rewrite L2 by done. unfold kleaf. rewrite K. by rewrite (um_leaf _ _ _ _ _ U).
Qed.

(** [f] is the only page that changes its state, from free to a single
    reference. *)
Record frame_taken (s s' : vmm_state) (f : Z) : Prop := {
  ft_range : 0 <= f / PMM_PAGE_SIZE < page_count (pmm s);
  ft_free : abs (pmm s) (f / PMM_PAGE_SIZE) = Free;
  ft_shape : same_shape (pmm s) (pmm s');
  ft_abs : forall q, 0 <= q -> abs (pmm s') q = upd (abs (pmm s)) (f / PMM_PAGE_SIZE) (Used 1) q;
}.

Lemma alloc_frame s :
  kernel_wf s -> let '(physical, p) := pmm_alloc_page (pmm s) in
  (physical = PMM_INVALID_ADDRESS /\ p = pmm s) \/
  (is_page physical /\ (physical =? PMM_INVALID_ADDRESS) = false /\ same_maps s (with_pmm s p) /\
   data_frame (with_pmm s p) physical /\
   (forall g, data_frame s g -> data_frame (with_pmm s p) g /\ g <> physical) /\ frame_taken s (with_pmm s p) physical).
Proof.
  intros Hwf. unfold pmm_alloc_page.
  destruct (alloc_page_fresh 0 (pmm s) (sw_pmm _ _ Hwf)) as [(_ & ->)|(q & p & -> & Hq & Hf & W & S & A)]; [done | by left|].
  right. pose proof (wf_page_count _ (sw_pmm _ _ Hwf)). destruct (page_address q ltac:(lia)) as (Hp & Hd).
  assert (Hbusy : forall x, page_busy (pmm s) x \/ x / PMM_PAGE_SIZE = q -> page_busy p x).
  { unfold page_busy. rewrite (ss_page_count _ _ S). intros x Hx Hr. rewrite A by lia. unfold upd.
    case_decide; [done|]. destruct Hx as [Hx|]; [by apply Hx | done]. }
  split_and!; try done.
  - apply Z.eqb_neq. unfold PMM_INVALID_ADDRESS, UINT64_MAX, PMM_PAGE_SIZE. lia.
  - split_and!; [|done | done]. apply space_wf_pmm; try done. intros r Hr Hne. rewrite A by lia.
    unfold upd. by case_decide.
  - split; [split; [done|]|apply Hbusy; by right].
    intros r t Hr Ht ->. pose proof (sw_busy _ _ Hwf r _ Hr Ht) as Hb. unfold page_busy in Hb. rewrite Hd in Hb.
    by apply Hb.
  - intros g (Hg & Hb). split; [split; [done|]; apply Hbusy; by left|]. intros ->.
    unfold page_busy in Hb. rewrite Hd in Hb. by apply Hb.
  - split; rewrite ?Hd; done.
Qed.

(** ** The pages a run takes and gives back *)

(** [r] leads to a table of the kernel space of [s]. *)
Definition ktable (s : vmm_state) (r : list Z) : option Z := table_at (memory s) (kernel_pml4 s) r.

(** The page number [q] belongs to a table of the kernel space. *)
Definition table_page (s : vmm_state) (q : Z) : Prop :=
  exists r t, path_ok r /\ ktable s r = Some t /\ t / PMM_PAGE_SIZE = q.

(** A frame that was free in [s0] and has one reference in [s]. *)
Definition taken (s0 s : vmm_state) (q : Z) : Prop := abs (pmm s0) q = Free /\ abs (pmm s) q = Used 1.

(** [s] against [s0] with the frames [fs] in use: a table that [s0] does not
    have serves a mapped page, and a page outside the tables of [s0] has its
    state of [s0] unless it was free and now is a frame or a table. *)
Record accounted (s0 s : vmm_state) (fs : list Z) : Prop := {
  ac_shape : same_shape (pmm s0) (pmm s);
  ac_frames : Forall (fun f => 0 <= f / PMM_PAGE_SIZE < page_count (pmm s0) /\ taken s0 s (f / PMM_PAGE_SIZE)) fs;
  ac_table : forall r t, path_ok r -> ktable s r = Some t -> ktable s0 r = Some t \/
    (ktable s0 r = None /\ 0 <= t / PMM_PAGE_SIZE < page_count (pmm s0) /\ taken s0 s (t / PMM_PAGE_SIZE) /\
     exists idx, page_path idx /\ r `prefix_of` idx /\ is_Some (kleaf s idx));
  ac_page : forall q, 0 <= q < page_count (pmm s0) -> ~ table_page s0 q -> abs (pmm s) q = abs (pmm s0) q \/
    (taken s0 s q /\ ((exists f, f ∈ fs /\ f / PMM_PAGE_SIZE = q) \/ table_page s q));
}.

Lemma accounted_refl s : accounted s s [].
Proof. split; [done | constructor | by left | by left]. Qed.

(** A leaf of [s0] below [r] that [s] reaches through a table at [r] has a
    table at [r] in [s0] as well. *)
Lemma leaf_table m root p r l e :
  leaf m root (p ++ r) = Some (l, e) -> l < alen r -> is_Some (table_at m root p).
Proof.
  revert root. induction p as [|i p IH]; intros root H Hl; [by exists root|]. simpl in H |- *.
  destruct (has (entry_at m root i) VMM_PRESENT) eqn:HP; [|discriminate H]. simpl in H.
  destruct (bool_decide (p ++ r = []) || has (entry_at m root i) PAGE_SIZE_FLAG) eqn:E.
  { injection H as <- _. unfold alen in Hl. rewrite length_app in Hl. lia. }
  apply orb_false_iff in E as (_ & HS). unfold next. rewrite HP, HS. simpl. by apply IH.
Qed.

Lemma leaf_depth m root idx l e : leaf m root idx = Some (l, e) -> l < alen idx.
Proof.
  revert root. induction idx as [|i idx IH]; intros root H; simpl in H; [discriminate H|]. unfold alen in *. simpl length.
  destruct (negb _); [discriminate H|]. destruct (_ || _); [injection H as <- _; unfold alen; lia|]. apply IH in H. lia.
Qed.

Lemma table_below m m' root r idx :
  (length r <= 3)%nat -> page_path idx -> r `prefix_of` idx -> is_Some (table_at m root r) -> is_Some (leaf m root idx) ->
  leaf m' root idx = leaf m root idx -> is_Some (table_at m' root r).
Proof.
  intros Hr (Hidx & _) (k & ->) (t & Ht) ([l e] & Hl) E. rewrite length_app in Hidx.
  apply (leaf_table m' root r k l e); [by rewrite E|]. apply (leaf_depth m t k l e).
  rewrite <- (leaf_app m root r t k Ht); [done|]. destruct k; [simpl in Hidx; lia | done].
Qed.

(** With every frame given back and the mappings restored, the tables are
    tables of [s0] and every page outside them has its state back. *)
Lemma accounted_end s0 s :
  accounted s0 s [] -> kernel_pml4 s = kernel_pml4 s0 -> (forall idx, page_path idx -> kleaf s idx = kleaf s0 idx) ->
  (forall r t, path_ok r -> ktable s r = Some t -> ktable s0 r = Some t) /\
  forall q, 0 <= q < page_count (pmm s0) -> ~ table_page s0 q -> abs (pmm s) q = abs (pmm s0) q.
Proof.
  intros [_ _ T P] K L.
  assert (HT : forall r t, path_ok r -> ktable s r = Some t -> ktable s0 r = Some t).
  { intros r t Hr Ht. destruct (T r t Hr Ht) as [?|(Hn & _ & _ & idx & Hidx & Hpre & Hl)]; [done|].
    destruct (table_below (memory s) (memory s0) (kernel_pml4 s0) r idx) as (u & Hu); try done; [apply Hr | | | |].
    - unfold ktable in Ht. rewrite K in Ht. by exists t.
    - unfold kleaf in Hl. by rewrite K in Hl.
    - specialize (L idx Hidx). unfold kleaf in L. by rewrite K in L.
    - unfold ktable in Hn. congruence. }
  split; [done|]. intros q Hq Hno. destruct (P q Hq Hno) as [?|(_ & [(f & Hf & _)|(r & t & Hr & Ht & E)])]; [done | by apply not_elem_of_nil in Hf|].
  destruct Hno. exists r, t. auto.
Qed.

(** ** Taking and releasing *)

(** The tables of [s0] are still there. *)
Definition tables_stay (s0 s : vmm_state) : Prop := forall r t, path_ok r -> ktable s0 r = Some t -> ktable s r = Some t.

Lemma tables_stay_refl s : tables_stay s s.
Proof. by intros r t. Qed.

Lemma table_page_busy s q : kernel_wf s -> table_page s q -> 0 <= q < page_count (pmm s) -> abs (pmm s) q <> Free.
Proof. intros Hwf (r & t & Hr & Ht & <-) Hq. by apply (sw_busy _ _ Hwf r t Hr Ht). Qed.

Lemma stay_free s0 s fs q :
  kernel_wf s -> tables_stay s0 s -> accounted s0 s fs -> 0 <= q < page_count (pmm s0) -> abs (pmm s) q = Free ->
  ~ table_page s0 q /\ abs (pmm s0) q = Free.
Proof.
  intros Hwf Hstay [S _ _ P] Hq Hf. assert (Hno : ~ table_page s0 q).
  { intros (r & t & Hr & Ht & E). apply (table_page_busy s q Hwf); [|by rewrite (ss_page_count _ _ S) | done].
    exists r, t. split_and!; [done | by apply Hstay | done]. }
  split; [done|]. destruct (P q Hq Hno) as [E|((_ & Hu) & _)]; congruence.
Qed.

Lemma accounted_alloc s0 s s1 fs f :
  kernel_wf s -> tables_stay s0 s -> accounted s0 s fs -> frame_taken s s1 f -> memory s1 = memory s -> kernel_pml4 s1 = kernel_pml4 s ->
  accounted s0 s1 (f :: fs) /\ tables_stay s0 s1.
Proof.
  intros Hwf Hstay Hac [R F S1 A] Em Ek. pose proof Hac as [S Fs T P].
  assert (Ht : forall r, ktable s1 r = ktable s r) by (intros r; unfold ktable; by rewrite Em, Ek).
  assert (Hl : forall idx, kleaf s1 idx = kleaf s idx) by (intros idx; unfold kleaf; by rewrite Em, Ek).
  assert (Hkeep : forall q, 0 <= q -> taken s0 s q -> taken s0 s1 q).
  { intros q Hq (H0 & Hu). split; [done|]. rewrite A by done. unfold upd. by case_decide. }
  rewrite (ss_page_count _ _ S) in R.
  split; [|intros r t Hr Hr0; rewrite Ht; by apply Hstay]. split.
  - by transitivity (pmm s).
  - constructor.
    + split; [done|]. split; [by apply (stay_free s0 s fs)|]. rewrite A by lia. unfold upd. by rewrite decide_True.
    + eapply Forall_impl; [exact Fs|]. intros g (Hg & Hu). split; [done|]. apply Hkeep; [lia | done].
  - intros r t Hr Hr1. rewrite Ht in Hr1. destruct (T r t Hr Hr1) as [?|(Hn & Hq & Hu & idx & ? & ? & ?)]; [by left | right].
    split_and!; try lia; [done | apply Hkeep; [lia | done] |]. exists idx. by rewrite Hl.
  - intros q Hq Hno. destruct (decide (q = f / PMM_PAGE_SIZE)) as [->|Hne].
    + right. split; [|left; exists f; split; [by left | done]]. split; [by apply (stay_free s0 s fs)|]. rewrite A by lia. unfold upd. by rewrite decide_True.
    + assert (E : abs (pmm s1) q = abs (pmm s) q) by (rewrite A by lia; unfold upd; by rewrite decide_False).
      rewrite E. destruct (P q Hq Hno) as [?|(Hu & Hw)]; [by left | right]. split; [apply Hkeep; [lia | done]|].
      destruct Hw as [(g & Hg & ?)|(r & t & ? & ? & ?)]; [left; exists g; split; [by right | done] | right; exists r, t; by rewrite Ht].
Qed.

Lemma accounted_map s0 s s' fs va pa flags :
  kernel_wf s -> kernel_wf s' -> tables_stay s0 s -> accounted s0 s fs -> mapped s s' KernelSpace va pa flags ->
  accounted s0 s' fs /\ tables_stay s0 s'.
Proof.
  intros Hwf Hwf' Hstay Hac M. pose proof Hac as [S Fs T P]. pose proof (mp_outside _ _ _ _ _ _ M) as [S1 _ K _ _]. cbn in S1, K.
  destruct (mp_taken _ _ _ _ _ _ M) as [TP TF]. change (pml4_physical s KernelSpace) with (kernel_pml4 s) in *.
  assert (Hkeep : forall q, 0 <= q < page_count (pmm s0) -> taken s0 s q -> taken s0 s' q).
  { intros q Hq (H0 & Hu). split; [done|]. rewrite (mp_abs _ _ _ _ _ _ M); [done | by rewrite (ss_page_count _ _ S) | by rewrite Hu]. }
  assert (Hold : forall r t, path_ok r -> ktable s r = Some t -> ktable s' r = Some t).
  { intros r t Hr Ht. unfold ktable. rewrite K. by apply (mp_old _ _ _ _ _ _ M). }
  split; [|intros r t Hr Ht; by apply Hold, Hstay]. split.
  - by transitivity (pmm s).
  - eapply Forall_impl; [exact Fs|]. intros g (Hg & Hu). by auto.
  - intros r t Hr Ht. pose proof Ht as Ht'. unfold ktable in Ht'. rewrite K in Ht'. pose proof (sw_busy _ _ Hwf' r t Hr Ht) as Hb.
    destruct (mp_new _ _ _ _ _ _ M r t Hr Ht') as [Hs|Hnb].
    + destruct (T r t Hr Hs) as [?|(Hn & Hq & Hu & idx & ? & ? & Hl)]; [by left | right]. split; [done|]. split; [done|]. split; [by auto|].
      exists idx. split_and!; try done. unfold kleaf. rewrite K, (mp_leaf _ _ _ _ _ _ M) by done. by case_decide.
    + right. destruct (TP r t Hr Ht') as [Hs|Hpre].
      { destruct Hnb. by apply (sw_busy _ _ Hwf r). }
      assert (Hf : 0 <= t / PMM_PAGE_SIZE < page_count (pmm s) /\ abs (pmm s) (t / PMM_PAGE_SIZE) = Free).
      { unfold page_busy in Hnb. destruct (decide (0 <= t / PMM_PAGE_SIZE < page_count (pmm s))) as [Hq|Hq]; [|by destruct Hnb].
        split; [done|]. destruct (decide (abs (pmm s) (t / PMM_PAGE_SIZE) = Free)); [done | by destruct Hnb]. }
      destruct Hf as (Hq & Hf). pose proof Hq as Hq0. rewrite (ss_page_count _ _ S) in Hq0.
      destruct (stay_free s0 s fs _ Hwf Hstay Hac Hq0 Hf) as (Hnt & Hf0).
      split_and!; [|lia | lia | split; [done|] | exists (indices va); split_and!; [apply indices_path | |]].
      * destruct (ktable s0 r) as [t0|] eqn:E; [|done]. apply Hstay in E as E1; [|done]. apply Hold in E1; [|done].
        destruct Hnt. exists r, t. split_and!; [done | congruence | done].
      * apply TF; [done | done |]. apply Hb. by rewrite (ss_page_count _ _ S1).
      * destruct Hpre as (k & Hk). exists (k ++ [aget 0 (indices va) 3]). rewrite app_assoc, <- Hk. apply indices_split.
      * unfold kleaf. rewrite K, (mp_leaf _ _ _ _ _ _ M) by apply indices_path. by rewrite decide_True.
  - intros q Hq Hno. pose proof Hq as Hqs. rewrite <- (ss_page_count _ _ S) in Hqs. destruct (decide (abs (pmm s) q = Free)) as [Hf|Hf].
    + destruct (stay_free s0 s fs q Hwf Hstay Hac Hq Hf) as (_ & Hf0). destruct (decide (abs (pmm s') q = Free)) as [Hf'|Hf']; [left; congruence|].
      right. destruct (TF q Hqs Hf Hf') as (Hu & r & t & Hr & Ht & E). split; [done|]. right. exists r, t. unfold ktable. by rewrite K.
    + rewrite (mp_abs _ _ _ _ _ _ M) by done. destruct (P q Hq Hno) as [?|(Hu & Hw)]; [by left | right]. split; [by auto|].
      destruct Hw as [?|(r & t & ? & ? & ?)]; [by left | right; exists r, t; by auto].
Qed.

Lemma table_nonempty m t : table_is_empty m t = false -> exists j, index_ok j /\ has (entry_at m t j) VMM_PRESENT = true.
Proof.
  unfold table_is_empty. destruct (find_up 512 0 _) as [j|] eqn:E; [|discriminate]. intros _.
  apply find_up_Some in E as (Hj & HP & _). exists j. split; [unfold index_ok, ENTRY_COUNT; lia | done].
Qed.

Lemma accounted_sim s0 s s' fs :
  accounted s0 s fs -> space_sim s s' (kernel_pml4 s) -> accounted s0 s' fs /\ forall r, path_ok r -> ktable s' r = ktable s r.
Proof.
  intros [S Fs T P] [O TS A]. pose proof (so_kernel _ _ _ O) as K. pose proof (so_shape _ _ _ O) as S1.
  assert (Ht : forall r, path_ok r -> ktable s' r = ktable s r) by (intros r Hr; unfold ktable; rewrite K; by apply (ts_table _ _ _ TS)).
  assert (Habs : forall q, 0 <= q < page_count (pmm s0) -> abs (pmm s') q = abs (pmm s) q)
    by (intros q Hq; apply A; by rewrite (ss_page_count _ _ S)).
  split; [|done]. split.
  - by transitivity (pmm s).
  - eapply Forall_impl; [exact Fs|]. intros g (Hg & H0 & Hu). split; [done|]. split; [done|]. by rewrite Habs.
  - intros r t Hr Hr1. rewrite Ht in Hr1 by done. destruct (T r t Hr Hr1) as [?|(Hn & Hq & (H0 & Hu) & idx & Hidx & ? & Hl)]; [by left | right].
    split; [done|]. split; [done|]. split; [split; [done | by rewrite Habs]|]. exists idx. split_and!; try done.
    unfold kleaf. rewrite K, (tree_sim_leaf _ _ _ _ TS) by done. done.
  - intros q Hq Hno. unfold taken. rewrite Habs by done. destruct (P q Hq Hno) as [?|(? & [?|(r & t & ? & ? & ?)])]; [by left | by right; auto | right].
    split; [done|]. right. exists r, t. by rewrite Ht.
Qed.

(** Releasing a frame of the run. *)
Lemma accounted_free s0 s f fs :
  kernel_wf s -> accounted s0 s (f :: fs) -> not_table s f -> Forall (fun g => is_page g /\ g <> f) fs ->
  accounted s0 (with_pmm s (snd (pmm_free_page f (pmm s)))) fs.
Proof.
  intros Hwf [S Fs T P] (Hf & Hnt) Hne. apply Forall_cons in Fs as ((Rf & Ff & Uf) & Fs). rewrite Forall_forall in Fs, Hne.
  assert (Hfd : f = f / PMM_PAGE_SIZE * PMM_PAGE_SIZE).
  { destruct Hf as (Ha & _). unfold PMM_PAGE_SIZE. change (2 ^ 12) with 4096 in Ha. pose proof (Z.div_mod f 4096). lia. }
  destruct (free_page_spec (pmm s) f (sw_pmm _ _ Hwf)) as [(q & n & p & (Eq & _ & Uq) & Ep & W & S1 & _ & A)|(Hno & _)].
  { destruct Hf. unfold PMM_PAGE_SIZE. lia. }
  2: { destruct (Hno (f / PMM_PAGE_SIZE) 1). split_and!; [done | lia | rewrite (ss_page_count _ _ S); lia | done]. }
  assert (q = f / PMM_PAGE_SIZE) as -> by (unfold PMM_PAGE_SIZE in *; lia). rewrite Uf in Uq. injection Uq as <-.
  rewrite Ep. cbn [snd]. change (1 =? 1) with true in A. cbv iota in A.
  assert (Hkeep : forall q, 0 <= q -> q <> f / PMM_PAGE_SIZE -> abs p q = abs (pmm s) q).
  { intros q Hq Hqf. rewrite A by done. unfold upd. rewrite decide_False; [done|]. congruence. }
  assert (Htab : forall r t, path_ok r -> ktable s r = Some t -> t / PMM_PAGE_SIZE <> f / PMM_PAGE_SIZE).
  { intros r t Hr Ht E. apply (Hnt r t Hr Ht), page_index_inj; [by apply (tw_page _ _ (sw_tree _ _ Hwf) r) | done | done]. }
  split; cbn [pmm with_pmm]; unfold taken; cbn [pmm with_pmm].
  - by transitivity (pmm s).
  - apply Forall_forall. intros g Hg. destruct (Fs g Hg) as (Rg & F0 & Ug). destruct (Hne g Hg) as (Hg1 & Hg2).
    split; [done|]. split; [done|]. rewrite Hkeep; [done | lia |]. intros E. by apply Hg2, page_index_inj.
  - intros r t Hr Ht. destruct (T r t Hr Ht) as [?|(Hn & Hq & (H0 & Hu) & Hx)]; [by left | right].
    split; [done|]. split; [done|]. split; [|done]. split; [done|]. rewrite Hkeep; [done | lia | by apply (Htab r)].
  - intros q Hq Hno. destruct (decide (q = f / PMM_PAGE_SIZE)) as [->|Hqf].
    { left. rewrite A by lia. unfold upd. by rewrite decide_True. }
    rewrite Hkeep by (done || lia). destruct (P q Hq Hno) as [?|(Hu & [(g & Hg & E)|Ht])]; [by left | right..].
    + apply elem_of_cons in Hg as [->|Hg]; [by destruct Hqf|]. split; [done|]. left. by exists g.
    + split; [done|]. by right.
Qed.

(** ** Unmapping *)

Section Unmapped.
Context (s0 s s' : vmm_state) (va pa : Z) (fs : list Z).
Context (Hwf : kernel_wf s) (Hac : accounted s0 s fs) (U : unmapped s s' KernelSpace va pa).
Context (Hroot : kernel_pml4 s = kernel_pml4 s0).

Lemma uk_root : kernel_pml4 s' = kernel_pml4 s.
Proof. apply (um_regs _ _ _ _ _ U). Qed.

Lemma uk_table r t : path_ok r -> ktable s' r = Some t -> ktable s r = Some t.
Proof. unfold ktable. rewrite uk_root. apply (um_table _ _ _ _ _ U). Qed.

Lemma uk_leaf idx : page_path idx -> kleaf s' idx = if decide (idx = indices va) then None else kleaf s idx.
Proof. unfold kleaf. rewrite uk_root. apply (um_leaf _ _ _ _ _ U). Qed.

(** A table that [s0] does not have serves a mapped page or has an entry. *)
Lemma uk_entry r t : path_ok r -> ktable s' r = Some t -> ktable s0 r = None ->
  (exists idx, page_path idx /\ r `prefix_of` idx /\ is_Some (kleaf s' idx)) \/
  (exists j, index_ok j /\ has (entry_at (memory s') t j) VMM_PRESENT = true).
Proof.
  intros Hr Ht H0. pose proof (uk_table r t Hr Ht) as Hts.
  destruct (ac_table _ _ _ Hac r t Hr Hts) as [?|(_ & _ & _ & idx & Hidx & Hpre & Hl)]; [congruence|].
  destruct (decide (idx = indices va)) as [->|Hne]; [right | left; exists idx; rewrite uk_leaf by done; by rewrite decide_False].
  assert (Hr0 : r <> []) by (intros ->; discriminate H0).
  assert (Hpre3 : r `prefix_of` take 3 (indices va)).
  { rewrite indices_split in Hpre. apply prefix_snoc_strict in Hpre; [done|]. intros ->. destruct Hr as (Hlen & _).
    rewrite length_app in Hlen. destruct (indices_table_path va) as (_ & H3). rewrite H3 in Hlen. simpl in Hlen. lia. }
  pose proof (um_fate _ _ _ _ _ U r t Hr Hts) as Hf. unfold table_fate in Hf. unfold ktable in Ht. rewrite uk_root in Ht.
  change (pml4_physical s KernelSpace) with (kernel_pml4 s) in Hf. rewrite Ht in Hf. by apply table_nonempty, Hf.
Qed.

(** A present entry of the table at [r] that leads to no table maps a page. *)
Lemma entry_maps m root r t j : path_ok r -> table_at m root r = Some t -> index_ok j -> has (entry_at m t j) VMM_PRESENT = true ->
  length r = 3%nat \/ next (entry_at m t j) = None -> exists idx, page_path idx /\ r `prefix_of` idx /\ is_Some (leaf m root idx).
Proof.
  intros (Hlen & HF) Ht Hj HP Hn. exists (r ++ j :: replicate (3 - length r) 0). split_and!.
  - split; [rewrite length_app; simpl; rewrite length_replicate; lia|]. apply Forall_app. split; [done|]. constructor; [done|].
    apply Forall_replicate. unfold index_ok, ENTRY_COUNT. lia.
  - by eexists.
  - rewrite (leaf_app _ _ _ t) by done. simpl. rewrite HP. simpl. destruct Hn as [->|Hn]; [done|].
    unfold next in Hn. rewrite HP in Hn. destruct (has (entry_at m t j) PAGE_SIZE_FLAG); [by rewrite orb_true_r | discriminate Hn].
Qed.

Lemma uk_serves n r t : (3 - length r <= n)%nat -> path_ok r -> ktable s' r = Some t -> ktable s0 r = None ->
  exists idx, page_path idx /\ r `prefix_of` idx /\ is_Some (kleaf s' idx).
Proof.
  revert r t. induction n as [|n IH]; intros r t Hn Hr Ht H0; (destruct (uk_entry r t Hr Ht H0) as [?|(j & Hj & HP)]; [done|]).
  - apply (entry_maps _ _ r t j); try done. left. destruct Hr. lia.
  - destruct (next (entry_at (memory s') t j)) as [u|] eqn:Hu; [|by apply (entry_maps _ _ r t j); auto].
    destruct (decide (length r = 3%nat)) as [H3|H3]; [by apply (entry_maps _ _ r t j); auto|].
    destruct (IH (r ++ [j]) u) as (idx & Hidx & (k & Hk) & Hl').
    + rewrite length_app. simpl. lia.
    + apply path_ok_snoc; [done | destruct Hr; lia | done].
    + unfold ktable in *. rewrite table_at_app, Ht. simpl. by rewrite Hu.
    + unfold ktable in *. rewrite table_at_app. by rewrite H0.
    + exists idx. split_and!; [done | exists ([j] ++ k); by rewrite app_assoc | done].
Qed.

(** The state of a page of the kernel space's tables. *)
Lemma uk_table_abs r t : path_ok r -> ktable s r = Some t -> 0 <= t / PMM_PAGE_SIZE < page_count (pmm s0) ->
  (ktable s' r = Some t /\ abs (pmm s') (t / PMM_PAGE_SIZE) = abs (pmm s) (t / PMM_PAGE_SIZE)) \/
  (abs (pmm s) (t / PMM_PAGE_SIZE) = Used 1 -> abs (pmm s') (t / PMM_PAGE_SIZE) = Free).
Proof.
  intros Hr Ht Hq. rewrite <- (ss_page_count _ _ (ac_shape _ _ _ Hac)) in Hq. pose proof (um_fate _ _ _ _ _ U r t Hr Ht) as Hf. unfold table_fate in Hf.
  change (pml4_physical s KernelSpace) with (kernel_pml4 s) in Hf.
  destruct (table_at (memory s') (kernel_pml4 s) r) as [t'|] eqn:Ht'.
  - left. assert (Hk : ktable s' r = Some t') by (unfold ktable; by rewrite uk_root). pose proof (uk_table r t' Hr Hk) as E.
    rewrite Ht in E. injection E as <-. split; [done | by apply Hf].
  - right. intros Hu. destruct Hf as (_ & _ & Hf). apply (Hf _ 1). split_and!; [|lia | lia | done].
    pose proof (tw_page _ _ (sw_tree _ _ Hwf) r t Hr Ht) as (Ha & _). unfold PMM_PAGE_SIZE. change (2 ^ 12) with 4096 in Ha.
    pose proof (Z.div_mod t 4096). lia.
Qed.

Lemma accounted_unmap : Forall (not_table s) fs -> accounted s0 s' fs.
Proof.
  intros Hnt. pose proof Hac as [S Fs T P]. rewrite Forall_forall in Fs, Hnt.
  assert (Hother : forall q, 0 <= q < page_count (pmm s0) -> ~ table_page s q -> abs (pmm s') q = abs (pmm s) q).
  { intros q Hq Hno. apply (um_abs _ _ _ _ _ U); [by rewrite (ss_page_count _ _ S)|]. intros r t Hr Ht E. apply Hno. by exists r, t. }
  assert (Hfr : forall f, f ∈ fs -> ~ table_page s (f / PMM_PAGE_SIZE)).
  { intros f Hf (r & t & Hr & Ht & E). destruct (Hnt f Hf) as (Hp & Hno). apply (Hno r t Hr Ht), page_index_inj; [|done | done].
    by apply (tw_page _ _ (sw_tree _ _ Hwf) r). }
  split.
  - transitivity (pmm s); [done | apply (um_shape _ _ _ _ _ U)].
  - apply Forall_forall. intros f Hf. destruct (Fs f Hf) as (Hq & H0 & Hu). split; [done|]. split; [done|]. by rewrite Hother by auto.
  - intros r t Hr Ht. pose proof (uk_table r t Hr Ht) as Hts. destruct (T r t Hr Hts) as [?|(H0 & Hq & (HF & Hu) & _)]; [by left | right].
    split; [done|]. split; [done|]. split; [|by apply (uk_serves 3 r t); [lia|..]]. split; [done|].
    destruct (uk_table_abs r t Hr Hts Hq) as [(_ & ->)|Hfree]; [done|].
    pose proof (um_fate _ _ _ _ _ U r t Hr Hts) as Hf. unfold table_fate in Hf. unfold ktable in Ht. rewrite uk_root in Ht.
    change (pml4_physical s KernelSpace) with (kernel_pml4 s) in Hf. rewrite Ht in Hf. rewrite (proj2 Hf); [done|]. by rewrite (ss_page_count _ _ S).
  - intros q Hq Hno. destruct (P q Hq Hno) as [E|((HF & Hu) & [(f & Hf & <-)|(r & t & Hr & Ht & <-)])].
    + left. rewrite Hother; [done | done |]. intros (r & t & Hr & Ht & <-). destruct (T r t Hr Ht) as [Ht0|(_ & _ & (HF & Hu) & _)].
      * destruct Hno. by exists r, t.
      * congruence.
    + right. split; [split; [done|]|left; by exists f]. by rewrite Hother by auto.
    + destruct (uk_table_abs r t Hr Ht Hq) as [(Ht' & Ea)|Hfree].
      * right. split; [split; [done | congruence]|]. right. by exists r, t.
      * left. rewrite Hfree by done. done.
Qed.

End Unmapped.

(** One successful mapping. *)
Lemma map_frame_ok s va f s' :
  kernel_wf s -> is_u64 va -> is_page f -> vmm_map_page va f KERNEL_FLAGS s = (true, s') ->
  kernel_wf s' /\ kernel_pml4 s' = kernel_pml4 s /\ unmap_refused KernelSpace va = false /\
  kleaf s (indices va) = None /\
  (forall idx, page_path idx -> kleaf s' idx =
     if decide (idx = indices va) then Some (0, leaf_entry f KERNEL_FLAGS) else kleaf s idx) /\
  (forall g, data_frame s g -> data_frame s' g) /\ mapped s s' KernelSpace va f KERNEL_FLAGS.
Proof.
  intros Hwf Hva Hf E. unfold vmm_map_page, vmm_space_map_page in E.
  pose proof (map_page_cases KernelSpace va f KERNEL_FLAGS s Hwf Hva (proj2 Hf)) as H. rewrite E in H.
  destruct H as (W & Href & M). simpl in W. pose proof (mp_outside _ _ _ _ _ _ M) as [S C K T B].
  cbn [pmm with_tlb kernel_pml4] in *. pose proof (map_refused_false _ _ _ _ Href) as (Hal & _ & Hc & _).
  split_and!.
  - unfold kernel_wf. by rewrite K.
  - done.
  - unfold unmap_refused, PMM_PAGE_SIZE. change (2 ^ 12) with 4096 in Hal. rewrite Hc, Hal. simpl. by rewrite andb_false_r.
  - apply (mp_unmapped _ _ _ _ _ _ M).
  - intros idx Hidx. unfold kleaf. rewrite K. by apply (mp_leaf _ _ _ _ _ _ M).
  - intros g ((Hg & Hno) & Hb). split; [split; [done|]|].
    + intros r t Hr Ht ->. rewrite K in Ht. destruct (mp_new _ _ _ _ _ _ M r _ Hr Ht) as [Hold|Hnb]; [|done].
      by apply (Hno r g).
    + unfold page_busy in *. rewrite (ss_page_count _ _ S). intros Hx. rewrite (mp_abs _ _ _ _ _ _ M); by auto.
  - done.
Qed.

(** One failed mapping and the release of its frame. *)
Lemma map_frame_fail s va f s' :
  kernel_wf s -> is_u64 va -> not_table s f -> vmm_map_page va f KERNEL_FLAGS s = (false, s') ->
  let s2 := with_pmm s' (snd (pmm_free_page f (pmm s'))) in
  same_maps s s2 /\ (forall g, not_table s g -> not_table s2 g) /\
  forall s0 fs, accounted s0 s (f :: fs) -> Forall (fun g => is_page g /\ g <> f) fs -> accounted s0 s2 fs.
Proof.
  intros Hwf Hva Hf E. unfold vmm_map_page, vmm_space_map_page in E.
  pose proof (map_page_cases KernelSpace va f KERNEL_FLAGS s Hwf Hva (proj2 (proj1 Hf))) as H. rewrite E in H.
  destruct H as (W & [O T A]). simpl in W, O, T.
  pose proof (so_kernel _ _ _ O) as K. assert (W' : kernel_wf s') by (unfold kernel_wf; by rewrite K).
  assert (Hnt : forall g, not_table s g -> not_table s' g).
  { intros g (Hg & Hno). split; [done|]. intros r t Hr Ht. apply (Hno r); [done|].
    rewrite K, (ts_table _ _ _ T) in Ht by done. done. }
  destruct (free_frame s' f W' (Hnt f Hf)) as (Hs & Hnt2). split; [|split; [by auto|]].
  2: { intros s0 fs Hac Hne. apply accounted_free; [done | | by apply Hnt | done]. by apply (accounted_sim s0 s). }
  apply (same_maps_trans _ s'); [|done]. split_and!; [done | done |]. intros idx Hidx. unfold kleaf. rewrite K.
  by apply tree_sim_leaf.
Qed.

(** ** Runs of pages *)

(** [L] is the kernel mapping of [s0] with the frames [fs], last first, mapped
    from [base] on. *)
Fixpoint run_maps (s0 : vmm_state) (base : Z) (fs : list Z) (L : list Z -> option (Z * Z)) : Prop :=
  match fs with
  | [] => forall idx, page_path idx -> L idx = kleaf s0 idx
  | f :: fs =>
      let va := page_va base (length fs) in
      exists L1, run_maps s0 base fs L1 /\ L1 (indices va) = None /\ unmap_refused KernelSpace va = false /\
        forall idx, page_path idx ->
          L idx = if decide (idx = indices va) then Some (0, leaf_entry f KERNEL_FLAGS) else L1 idx
  end.

Lemma run_maps_ext s0 base fs L L' :
  (forall idx, page_path idx -> L' idx = L idx) -> run_maps s0 base fs L -> run_maps s0 base fs L'.
Proof.
  intros H. destruct fs as [|f fs]; simpl.
  - intros HL idx Hidx. by rewrite H, HL.
  - intros (L1 & H1 & H2 & H3 & H4). exists L1. split_and!; try done. intros idx Hidx. by rewrite H, H4.
Qed.

(** [s'] has the mappings of [s0] again, no table more, and every page outside
    the tables of [s0] has its state back. *)
Definition restored (s0 s' : vmm_state) : Prop :=
  same_maps s0 s' /\ (forall r t, path_ok r -> ktable s' r = Some t -> ktable s0 r = Some t) /\
  forall q, 0 <= q < page_count (pmm s0) -> ~ table_page s0 q -> abs (pmm s') q = abs (pmm s0) q.

Lemma others_apart s f fs : NoDup (f :: fs) -> Forall (not_table s) fs -> Forall (fun g => is_page g /\ g <> f) fs.
Proof.
  intros Hdup%NoDup_cons Hnt. rewrite Forall_forall in Hnt |- *. intros g Hg. split; [by apply Hnt|]. intros ->. by apply Hdup.
Qed.

Lemma unmap_and_free_accounted s0 s va e fs :
  kernel_wf s -> unmap_refused KernelSpace va = false -> kleaf s (indices va) = Some (0, e) ->
  accounted s0 s (table_physical e :: fs) -> Forall (not_table s) (table_physical e :: fs) -> NoDup (table_physical e :: fs) ->
  accounted s0 (unmap_and_free va s) fs.
Proof.
  intros Hwf Href He Hac Hnt Hdup. unfold unmap_and_free, vmm_unmap_page. pose proof (unmap_page_cases KernelSpace va s Hwf) as H.
  destruct (vmm_space_unmap_page (Some KernelSpace) va s) as [pa s1].
  destruct H as (W & [(_ & _ & [?|Hno])|(_ & U)]); [congruence | by destruct (Hno e)|]. destruct (um_entry _ _ _ _ _ U) as (e' & He' & ->).
  change (pml4_physical s KernelSpace) with (kernel_pml4 s) in *. unfold kleaf in He. rewrite He in He'. injection He' as <-.
  pose proof (accounted_unmap s0 s s1 va (table_physical e) _ Hwf Hac U Hnt) as Hac1. pose proof (uk_root _ _ _ _ U) as K.
  apply Forall_cons in Hnt as (Hf & Hnt). assert (Hf1 : not_table s1 (table_physical e)).
  { destruct Hf as (Hg & Hno). split; [done|]. intros r t Hr Ht. apply (Hno r); [done|]. by apply (uk_table _ _ _ _ U). }
  replace (table_physical e =? PMM_INVALID_ADDRESS) with false.
  2: { symmetry. destruct Hf as ((_ & ?) & _). apply Z.eqb_neq. unfold PMM_INVALID_ADDRESS, UINT64_MAX. lia. }
  apply accounted_free; try done; [unfold kernel_wf; by rewrite K | by apply (others_apart s)].
Qed.

Lemma unmap_back_spec s0 base fs s :
  kernel_wf s -> kernel_pml4 s = kernel_pml4 s0 -> run_maps s0 base fs (kleaf s) -> Forall (not_table s) fs ->
  NoDup fs -> accounted s0 s fs -> restored s0 (unmap_back (length fs) base s).
Proof.
  revert s. induction fs as [|f fs IH]; intros s Hwf Hk Hrun Hnt Hdup Hac; simpl.
  { split; [by split|]. by apply accounted_end. }
  pose proof Hnt as (Hf & Hnts)%Forall_cons. destruct Hrun as (L1 & Hrun & Hnone & Href & HL).
  set (va := page_va base (length fs)) in *.
  destruct (leaf_entry_spec f KERNEL_FLAGS (proj1 Hf)) as (_ & _ & Hph).
  assert (He : kleaf s (indices va) = Some (0, leaf_entry f KERNEL_FLAGS)) by (rewrite HL by apply indices_path; by rewrite decide_True).
  rewrite <- Hph in Hac, Hnt, Hdup. pose proof (unmap_and_free_accounted s0 s va _ fs Hwf Href He Hac Hnt Hdup) as Hac'.
  destruct (unmap_and_free_spec s va (leaf_entry f KERNEL_FLAGS)) as (W & K & L & N); try done; [by rewrite Hph|].
  apply IH; [done | congruence | | | by apply NoDup_cons in Hdup as (_ & ?) | done].
  - apply (run_maps_ext _ _ _ L1); [|done]. intros idx Hidx. rewrite L by done.
    destruct (decide (idx = indices va)) as [->|Hne]; [done|]. rewrite HL by done. by rewrite decide_False.
  - eapply Forall_impl; [exact Hnts|]. auto.
Qed.

(** The frames of a run in progress. *)
Definition run_frames (s : vmm_state) (fs : list Z) : Prop := NoDup fs /\ Forall (data_frame s) fs.

Lemma map_fresh_spec s0 base todo fs s :
  kernel_wf s -> kernel_pml4 s = kernel_pml4 s0 -> run_maps s0 base fs (kleaf s) -> run_frames s fs ->
  accounted s0 s fs -> tables_stay s0 s ->
  let '(ok, s') := map_fresh todo (length fs) base s in
  if ok then exists fs', length fs' = (length fs + todo)%nat /\ kernel_wf s' /\
    kernel_pml4 s' = kernel_pml4 s0 /\ run_maps s0 base fs' (kleaf s') /\ run_frames s' fs' /\ accounted s0 s' fs'
  else restored s0 s'.
Proof.
  revert fs s. induction todo as [|todo IH]; intros fs s Hwf Hk Hrun (Hdup & Hfs) Hac Hstay; cbn [map_fresh].
  { exists fs. rewrite Nat.add_0_r. done. }
  pose proof (alloc_frame s Hwf) as Ha. destruct (pmm_alloc_page (pmm s)) as [physical p].
  destruct Ha as [(-> & ->)|(Hpg & Hv & (W1 & K1 & L1) & Hd & Hkeep & Htaken)].
  { simpl. replace (with_pmm s (pmm s)) with s by (by destruct s). apply unmap_back_spec; try done.
    eapply Forall_impl; [exact Hfs|]. intros g Hg. by apply Hg. }
  destruct (accounted_alloc s0 s (with_pmm s p) fs physical Hwf Hstay Hac Htaken eq_refl eq_refl) as (Hac1 & Hstay1).
  assert (Hdup1 : NoDup (physical :: fs)).
  { constructor; [|done]. intros Hin. rewrite Forall_forall in Hfs. by destruct (Hkeep physical (Hfs _ Hin)). }
  rewrite Hv. set (va := page_va base (length fs)) in *.
  assert (Hva : is_u64 va) by apply u64_range.
  assert (Hfs1 : Forall (data_frame (with_pmm s p)) fs)
    by (eapply Forall_impl; [exact Hfs|]; intros g Hg; by apply Hkeep).
  destruct (vmm_map_page va physical KERNEL_FLAGS (with_pmm s p)) as [ok s2] eqn:E. destruct ok.
  - destruct (map_frame_ok _ _ _ _ W1 Hva Hpg E) as (W2 & K2 & Href & Hnone & L2 & Hd2 & M).
    destruct (accounted_map s0 _ s2 _ _ _ _ W1 W2 Hstay1 Hac1 M) as (Hac2 & Hstay2).
    specialize (IH (physical :: fs) s2 W2). replace (length (physical :: fs)) with (S (length fs)) in IH by done.
    replace (S (length fs) + todo)%nat with (length fs + S todo)%nat in IH by lia.
    apply IH; [congruence | | | done | done].
    + exists (kleaf (with_pmm s p)). split_and!; try done.
    + split; [done|constructor].
      * by apply Hd2.
      * eapply Forall_impl; [exact Hfs1|]. auto.
  - destruct (map_frame_fail _ _ _ _ W1 Hva (proj1 Hd) E) as ((W2 & K2 & L2) & Hnt & Hfree).
    apply unmap_back_spec; [done | congruence | | | done |].
    + apply (run_maps_ext _ _ _ (kleaf s)); [|done]. intros idx Hidx. by rewrite L2, L1.
    + eapply Forall_impl; [exact Hfs1|]. intros g (Hg & _). by apply Hnt.
    + apply Hfree; [done|]. apply (others_apart (with_pmm s p)); [done|]. eapply Forall_impl; [exact Hfs1|]. by intros g (Hg & _).
Qed.

Lemma run_maps_mono s0 base fs L idx e :
  run_maps s0 base fs L -> page_path idx -> kleaf s0 idx = Some e -> is_Some (L idx).
Proof.
  revert L. induction fs as [|f fs IH]; intros L Hrun Hidx He; simpl in Hrun.
  - rewrite Hrun by done. by rewrite He.
  - destruct Hrun as (L1 & H1 & _ & _ & HL). rewrite HL by done. case_decide; [done|]. by apply IH.
Qed.

Lemma run_maps_keep s0 base fs L idx e :
  run_maps s0 base fs L -> page_path idx -> kleaf s0 idx = Some e -> L idx = Some e.
Proof.
  revert L. induction fs as [|f fs IH]; intros L Hrun Hidx He; simpl in Hrun.
  - by rewrite Hrun.
  - destruct Hrun as (L1 & H1 & Hnone & _ & HL). rewrite HL by done. case_decide as Hd; [|by apply IH].
    subst. rewrite (IH L1) in Hnone by done. done.
Qed.

(** The [i]-th page of the run is mapped to the [i]-th frame. *)
Lemma run_maps_page s0 base fs L i f :
  run_maps s0 base fs L -> rev fs !! i = Some f ->
  L (indices (page_va base i)) = Some (0, leaf_entry f KERNEL_FLAGS).
Proof.
  revert L i. induction fs as [|g fs IH]; intros L i Hrun Hi; simpl in *; [done|].
  destruct Hrun as (L1 & H1 & Hnone & _ & HL). rewrite HL by apply indices_path.
  apply lookup_app_Some in Hi as [Hi|(Hlen & Hi)].
  - rewrite (IH L1 i) by done. case_decide as Hd; [|done]. rewrite <- Hd, (IH L1 i) in Hnone by done. discriminate.
  - rewrite length_rev in *. destruct (i - length fs)%nat eqn:E; [|by destruct n]. injection Hi as ->.
    replace i with (length fs) by lia. by rewrite decide_True.
Qed.

(** Addresses outside the run keep their mapping. *)
Lemma run_maps_other s0 base fs L idx :
  run_maps s0 base fs L -> page_path idx ->
  (forall k, (k < length fs)%nat -> idx <> indices (page_va base k)) -> L idx = kleaf s0 idx.
Proof.
  revert L. induction fs as [|f fs IH]; intros L Hrun Hidx Hno; simpl in Hrun.
  - by apply Hrun.
  - destruct Hrun as (L1 & H1 & _ & _ & HL). rewrite HL by done. rewrite decide_False.
    + apply IH; [done | done |]. intros k Hk. apply Hno. simpl. lia.
    + apply Hno. simpl. lia.
Qed.

#[export] Instance vmm_supply : PageSupply vmm_state.
Proof.
  refine {| supply := map_fresh_pages; supply_wf := kernel_wf; is_mapped := kernel_mapped |}.
  intros base n s Hwf Hb Hn Hend. unfold map_fresh_pages.
  pose proof (map_fresh_spec s base (Z.to_nat n) [] s Hwf eq_refl) as H. simpl in H.
  destruct (map_fresh (Z.to_nat n) 0 base s) as [ok s'].
  specialize (H ltac:(done) ltac:(split; [constructor | done]) (accounted_refl s) (tables_stay_refl s)). destruct ok.
  - destruct H as (fs & Hlen & W & K & Hrun & _). split_and!; [done | |].
    + intros va (e & He). exists e. by apply (run_maps_keep s base fs); [|apply indices_path|].
    + intros _ i Hi. destruct (lookup_lt_is_Some_2 (rev fs) (Z.to_nat i)) as (f & Hf); [rewrite length_rev; lia|].
      exists (leaf_entry f KERNEL_FLAGS). rewrite <- (run_maps_page s base fs _ (Z.to_nat i) f) by done.
      unfold page_va. rewrite Z2Nat.id, u64_small by (unfold is_u64, PMM_PAGE_SIZE in *; lia). done.
  - destruct H as ((W & K & L) & _). split_and!; [done | | done].
    intros va (e & He). exists e. rewrite L by apply indices_path. done.
Defined.

(** ** An empty kernel space *)
Definition sample_kernel : vmm_state := mk_vmm (pmm sample_vmm) ∅ 0x12000 0x12000 [].

Lemma sample_kernel_wf : kernel_wf sample_kernel.
Proof. destruct sample_space_wf as [? ? ? ? ?]. by split. Qed.

End KernelPages.
