(* ===== verification/Stack.v ===== *)
(** * Stack: kernel stacks with guard pages (src/mm/stack.c)

    A stack takes the next free addresses of its region: one guard page that is
    never mapped, then [page_count] fresh pages.  The state is [next_stack_base]
    beside the paging state; [stack] is the object the caller passes, [None] for
    the null pointer. *)

From S2P Require Import Prelude Memory Pmm PageTable Vmm VmmSafety KernelPages.
Import Memory.Memory Pmm.Pmm PageTable.PageTable Vmm.Vmm VmmSafety.VmmSafety KernelPages.KernelPages.

Module Stack.

Definition STACK_REGION_BASE : Z := 0xFFFFE00000000000.

Record kernel_stack := mk_stack {
  guard_base : Z;
  bottom : Z;
  top : Z;
  stack_pages : Z;
}.

Record stack_state := mk_stack_state {
  next_stack_base : Z;
  stack_vmm : vmm_state;
}.

Definition kernel_stack_alloc (stack : option kernel_stack) (page_count : Z) (st : stack_state) :
  bool * option kernel_stack * stack_state :=
  match stack with
  | None => (false, None, st)
  | Some _ =>
      if page_count =? 0 then (false, stack, st)
      else
        let guard_base := next_stack_base st in
        let bottom := guard_base +! PMM_PAGE_SIZE in
        let '(ok, s) := map_fresh_pages bottom page_count (stack_vmm st) in
        if negb ok then (false, stack, mk_stack_state (next_stack_base st) s)
        else
          let top := bottom +! page_count *! PMM_PAGE_SIZE in
          (true, Some (mk_stack guard_base bottom top page_count), mk_stack_state top s)
  end.

Definition free_stack_pages (stack : kernel_stack) (s : vmm_state) : vmm_state :=
  for_up (Z.to_nat (stack_pages stack)) 0
    (fun page s => unmap_and_free (page_va (bottom stack) (Z.to_nat page)) s) s.

Definition kernel_stack_free (stack : option kernel_stack) (st : stack_state) :
  option kernel_stack * stack_state :=
  match stack with
  | None => (None, st)
  | Some stk =>
      if stack_pages stk =? 0 then (stack, st)
      else (Some (mk_stack 0 0 0 0), mk_stack_state (next_stack_base st) (free_stack_pages stk (stack_vmm st)))
  end.

Definition kernel_stack_contains_guard (stack : option kernel_stack) (address : Z) : bool :=
  match stack with
  | None => false
  | Some stk =>
      negb (stack_pages stk =? 0) && (guard_base stk <=? address) &&
      (address <? guard_base stk +! PMM_PAGE_SIZE)
  end.

(** ** The region *)

(** The addresses of the region that are still free: [[next, limit)]. *)
Record region_ok (limit : Z) (st : stack_state) : Prop := {
  rg_wf : kernel_wf (stack_vmm st);
  rg_base : STACK_REGION_BASE <= next_stack_base st;
  rg_aligned : next_stack_base st mod 2 ^ 12 = 0;
  rg_limit : limit <= 2 ^ 64 - PMM_PAGE_SIZE;
  rg_free : forall va, va mod 2 ^ 12 = 0 -> next_stack_base st <= va < limit ->
    kleaf (stack_vmm st) (indices va) = None;
}.

Lemma high_canonical va : STACK_REGION_BASE <= va < 2 ^ 64 -> address_is_canonical va = true.
Proof.
  unfold STACK_REGION_BASE. intros H. unfold address_is_canonical. rewrite Z.shiftr_div_pow2 by done.
  rewrite (has_pow2 va 47), Z.testbit_eqb by done.
  replace (va / 2 ^ 48) with (va / 2 ^ 47 / 2) by (by rewrite Z.div_div).
  assert (Hq : va / 2 ^ 47 = 131071).
  { symmetry. apply (Z.div_unique va (2 ^ 47) 131071 (va - 131071 * 2 ^ 47)); lia. }
  by rewrite Hq.
Qed.

Lemma kernel_query s va e :
  kernel_wf s -> is_u64 va -> address_is_canonical va = true -> va mod 2 ^ 12 = 0 ->
  kleaf s (indices va) = Some (0, e) -> has e VMM_USER = false ->
  vmm_space_query (Some KernelSpace) va s = Some (table_physical e, VMM_PRESENT |! (e &! QUERY_FLAGS)).
Proof.
  intros Hwf Hva Hc Hal He HU. unfold kleaf in He. rewrite indices_split in He.
  apply leaf_inv in He as (t & Ht & Hent & HP). destruct (indices_table_path va) as (Hp & Hl).
  unfold vmm_space_query. rewrite Hc. simpl negb. cbv iota. rewrite indices_split.
  destruct (path_rights s (kernel_pml4 s) (take 3 (indices va)) Hwf Hp) as (HW & HN); [by rewrite Ht|].
  rewrite (query_last _ _ _ t e); try done; [by rewrite Hal, Z.add_0_r | congruence |].
  rewrite <- Hent. apply entry_u64, Hwf.
Qed.

(** What a successful allocation gives: consecutive pages above the guard page,
    each on its own frame that was free before, writable, not executable, out of
    reach of user mode. *)
Record stack_given (st st' : stack_state) (stk : kernel_stack) (page_count limit : Z) : Prop := {
  sg_shape : stk = mk_stack (next_stack_base st) (next_stack_base st + PMM_PAGE_SIZE)
    (next_stack_base st + (page_count + 1) * PMM_PAGE_SIZE) page_count;
  sg_region : region_ok limit st' /\ next_stack_base st' = top stk;
  sg_guard : kleaf (stack_vmm st') (indices (guard_base stk)) = None;
  sg_pages : exists frames, NoDup frames /\ alen frames = page_count /\
    forall i f, frames !! i = Some f -> is_page f /\
      abs (pmm (stack_vmm st)) (f / PMM_PAGE_SIZE) = Free /\ abs (pmm (stack_vmm st')) (f / PMM_PAGE_SIZE) = Used 1 /\
      vmm_space_query (Some KernelSpace) (bottom stk + Z.of_nat i * PMM_PAGE_SIZE) (stack_vmm st') =
        Some (f, VMM_PRESENT |! KERNEL_FLAGS);
  sg_keep : forall idx e, page_path idx -> kleaf (stack_vmm st) idx = Some e -> kleaf (stack_vmm st') idx = Some e;
}.

Section Alloc.
Context (st : stack_state) (s' : vmm_state) (page_count limit : Z) (fs : list Z).
Context (Hrg : region_ok limit st) (Hn : 0 < page_count).
Context (Hfit : next_stack_base st + (page_count + 1) * PMM_PAGE_SIZE <= limit).
Let base := next_stack_base st + PMM_PAGE_SIZE.
Context (Hlen : length fs = Z.to_nat page_count).
Context (W : kernel_wf s') (K : kernel_pml4 s' = kernel_pml4 (stack_vmm st)).
Context (Hrun : run_maps (stack_vmm st) base fs (kleaf s')) (Hfr : run_frames s' fs) (Hac : accounted (stack_vmm st) s' fs).

Lemma al_va k : (k < length fs)%nat ->
  page_va base k = base + Z.of_nat k * PMM_PAGE_SIZE /\ is_u64 (page_va base k) /\
  page_va base k mod 2 ^ 12 = 0 /\ address_is_canonical (page_va base k) = true.
Proof.
  intros Hk. pose proof (rg_base _ _ Hrg). pose proof (rg_limit _ _ Hrg). pose proof (rg_aligned _ _ Hrg) as Ha.
  assert (E : page_va base k = base + Z.of_nat k * PMM_PAGE_SIZE).
  { unfold page_va. apply u64_small. unfold is_u64, base, PMM_PAGE_SIZE, STACK_REGION_BASE in *. lia. }
  rewrite E. unfold base, PMM_PAGE_SIZE, STACK_REGION_BASE in *. split_and!; try done.
  - unfold is_u64. lia.
  - change (2 ^ 12) with 4096 in *. replace (next_stack_base st + 4096 + Z.of_nat k * 4096)
      with (next_stack_base st + (1 + Z.of_nat k) * 4096) by lia. by rewrite Z_mod_plus_full.
  - apply high_canonical. unfold STACK_REGION_BASE. lia.
Qed.

(** An address of the region outside the run is still not mapped. *)
Lemma al_free va : va mod 2 ^ 12 = 0 -> next_stack_base st <= va < limit ->
  (forall k, (k < length fs)%nat -> va <> base + Z.of_nat k * PMM_PAGE_SIZE) -> kleaf s' (indices va) = None.
Proof.
  intros Ha Hva Hno. pose proof (rg_base _ _ Hrg). pose proof (rg_limit _ _ Hrg).
  rewrite (run_maps_other (stack_vmm st) base fs); [by apply (rg_free _ _ Hrg) | done | apply indices_path |].
  intros k Hk E. destruct (al_va k Hk) as (Ek & Hu & Hal & Hc). apply (Hno k Hk). rewrite <- Ek.
  unfold STACK_REGION_BASE, PMM_PAGE_SIZE in *.
  apply indices_inj; try done; [unfold is_u64; lia|]. apply high_canonical. unfold STACK_REGION_BASE. lia.
Qed.

Lemma al_given : stack_given st
  (mk_stack_state (next_stack_base st + (page_count + 1) * PMM_PAGE_SIZE) s')
  (mk_stack (next_stack_base st) base (next_stack_base st + (page_count + 1) * PMM_PAGE_SIZE) page_count)
  page_count limit.
Proof.
  pose proof (rg_base _ _ Hrg) as Hb. pose proof (rg_limit _ _ Hrg). pose proof (rg_aligned _ _ Hrg) as Ha.
  assert (Hlenz : Z.of_nat (length fs) = page_count) by lia.
  split; cbn [guard_base bottom top stack_pages next_stack_base stack_vmm].
  - done.
  - split; [|done]. split; cbn [next_stack_base stack_vmm]; try done.
    + unfold PMM_PAGE_SIZE. lia.
    + unfold PMM_PAGE_SIZE. change (2 ^ 12) with 4096 in *. by rewrite Z_mod_plus_full.
    + intros va Hal Hva. apply al_free; [done | unfold PMM_PAGE_SIZE in *; lia |].
      intros k Hk ->. unfold base, PMM_PAGE_SIZE in *. lia.
  - apply al_free; [done | unfold PMM_PAGE_SIZE in *; lia |]. intros k Hk. unfold base, PMM_PAGE_SIZE. lia.
  - exists (rev fs). destruct Hfr as (Hdup & HF). split_and!.
    + by rewrite <- Permutation_rev.
    + unfold alen. by rewrite length_rev.
    + intros i f Hi. pose proof (lookup_lt_Some _ _ _ Hi) as Hlt. rewrite length_rev in Hlt.
      assert (Hin : f ∈ fs) by (rewrite (Permutation_rev fs); by eapply list_elem_of_lookup_2).
      assert (Hf : is_page f) by (rewrite Forall_forall in HF; by apply (HF f)).
      pose proof (ac_frames _ _ _ Hac) as Hfree. rewrite Forall_forall in Hfree. destruct (Hfree f Hin) as (_ & F0 & F1).
      split; [done|]. split; [done|]. split; [done|]. destruct (al_va i Hlt) as (Ei & Hu & Hal & Hc). rewrite <- Ei.
      destruct (leaf_entry_spec f KERNEL_FLAGS Hf) as (_ & _ & Hph).
      rewrite (kernel_query s' _ (leaf_entry f KERNEL_FLAGS)); try done.
      * rewrite Hph. do 2 f_equal. unfold leaf_entry. rewrite <- Z.lor_assoc, Z.land_lor_distr_l.
        by rewrite (is_page_flags f), Z.lor_0_l.
      * by apply (run_maps_page (stack_vmm st) base fs).
      * rewrite has_USER, leaf_entry_bit by auto. done.
  - intros idx e Hidx He. by apply (run_maps_keep (stack_vmm st) base fs).
Qed.

End Alloc.

(** C19 [kernel_stack_alloc] gives a stack of [page_count] consecutive pages,
    each on a frame of its own that was free before, writable, not executable
    and closed to user mode, above a guard page that is not mapped; earlier
    mappings stay and the rest of the stack region stays free for later stacks.
    When memory runs out the stack object is untouched, the mappings are those
    before the call, there is no table that was not there before, and every
    page that is not one of the kernel's tables has its state back: the frames
    and tables taken on the way are free again. *)
Theorem kernel_stack_alloc_correct limit stk page_count st :
  region_ok limit st -> 0 < page_count ->
  next_stack_base st + (page_count + 1) * PMM_PAGE_SIZE <= limit ->
  let '(ok, stk', st') := kernel_stack_alloc (Some stk) page_count st in
  if ok then exists stk1, stk' = Some stk1 /\ stack_given st st' stk1 page_count limit
  else stk' = Some stk /\ next_stack_base st' = next_stack_base st /\ restored (stack_vmm st) (stack_vmm st').
Proof.
  intros Hrg Hn Hfit. unfold kernel_stack_alloc. destruct (Z.eqb_spec page_count 0); [lia|].
  pose proof (rg_base _ _ Hrg). pose proof (rg_limit _ _ Hrg).
  assert (E1 : next_stack_base st +! PMM_PAGE_SIZE = next_stack_base st + PMM_PAGE_SIZE).
  { apply u64_small. unfold is_u64, PMM_PAGE_SIZE, STACK_REGION_BASE in *. lia. }
  assert (E2 : next_stack_base st + PMM_PAGE_SIZE +! page_count *! PMM_PAGE_SIZE =
    next_stack_base st + (page_count + 1) * PMM_PAGE_SIZE).
  { unfold PMM_PAGE_SIZE, STACK_REGION_BASE in *. rewrite (u64_small (page_count * 4096)) by (unfold is_u64; lia).
    rewrite u64_small by (unfold is_u64; lia). lia. }
  rewrite E1, E2. unfold map_fresh_pages.
  pose proof (map_fresh_spec (stack_vmm st) (next_stack_base st + PMM_PAGE_SIZE) (Z.to_nat page_count) []
    (stack_vmm st) (rg_wf _ _ Hrg) eq_refl) as H1. simpl in H1.
  destruct (map_fresh (Z.to_nat page_count) 0 _ (stack_vmm st)) as [ok s'].
  specialize (H1 ltac:(done) ltac:(split; [constructor | done]) (accounted_refl _) (tables_stay_refl _)). destruct ok; cbn [negb].
  - destruct H1 as (fs & Hlen & W & K & Hrun & Hfr & Hac). eexists. split; [done|]. by apply (al_given st s' page_count limit fs).
  - done.
Qed.

Definition sample_stacks : stack_state := mk_stack_state STACK_REGION_BASE sample_kernel.

Lemma sample_region : region_ok 0xFFFFF00000000000 sample_stacks.
Proof.
  split; [apply sample_kernel_wf | done | done | unfold PMM_PAGE_SIZE; lia |].
  intros va _ _. unfold kleaf. rewrite indices_split. unfold indices. simpl. by rewrite entry_empty.
Qed.

Lemma kernel_stack_alloc_correct_witness :
  fst (fst (kernel_stack_alloc (Some (mk_stack 0 0 0 0)) 1 sample_stacks)) = true /\
  exists stk, snd (fst (kernel_stack_alloc (Some (mk_stack 0 0 0 0)) 1 sample_stacks)) = Some stk /\
    stack_given sample_stacks (snd (kernel_stack_alloc (Some (mk_stack 0 0 0 0)) 1 sample_stacks)) stk 1 0xFFFFF00000000000.
Proof.
  assert (Hok : fst (fst (kernel_stack_alloc (Some (mk_stack 0 0 0 0)) 1 sample_stacks)) = true) by (vm_compute; reflexivity).
  split; [exact Hok|].
  pose proof (kernel_stack_alloc_correct 0xFFFFF00000000000 (mk_stack 0 0 0 0) 1 sample_stacks sample_region) as H.
  destruct (kernel_stack_alloc (Some (mk_stack 0 0 0 0)) 1 sample_stacks) as [[ok stk'] st'].
  cbn [fst snd] in *. rewrite Hok in H. apply H; [lia | by vm_compute].
Defined.

(** ** Release *)

(** The pages of a stack, mapped to frames that are not tables. *)
Definition stack_mapped (stk : kernel_stack) (s : vmm_state) (from : Z) : Prop :=
  forall i, from <= i < stack_pages stk -> exists e,
    kleaf s (indices (bottom stk + i * PMM_PAGE_SIZE)) = Some (0, e) /\ not_table s (table_physical e).

Definition stack_placed (stk : kernel_stack) : Prop :=
  STACK_REGION_BASE <= bottom stk /\ bottom stk mod 2 ^ 12 = 0 /\ 0 <= stack_pages stk /\
  bottom stk + stack_pages stk * PMM_PAGE_SIZE <= 2 ^ 64 - PMM_PAGE_SIZE.

Lemma placed_va stk i : stack_placed stk -> 0 <= i < stack_pages stk ->
  let va := bottom stk + i * PMM_PAGE_SIZE in
  page_va (bottom stk) (Z.to_nat i) = va /\ is_u64 va /\ va mod 2 ^ 12 = 0 /\
  address_is_canonical va = true /\ unmap_refused KernelSpace va = false.
Proof.
  intros (Hb & Ha & Hn & He) Hi va. unfold PMM_PAGE_SIZE, STACK_REGION_BASE in *.
  assert (Hu : is_u64 va) by (unfold is_u64, va, PMM_PAGE_SIZE; lia).
  assert (Hal : va mod 2 ^ 12 = 0).
  { unfold va, PMM_PAGE_SIZE. change (2 ^ 12) with 4096 in *. by rewrite Z_mod_plus_full. }
  assert (Hc : address_is_canonical va = true).
  { apply high_canonical. unfold is_u64, va, PMM_PAGE_SIZE, STACK_REGION_BASE in *. lia. }
  split_and!; try done.
  - unfold page_va. rewrite Z2Nat.id by lia. by apply u64_small.
  - unfold unmap_refused, PMM_PAGE_SIZE. change (2 ^ 12) with 4096 in Hal. rewrite Hc, Hal. simpl. by rewrite andb_false_r.
Qed.

Lemma placed_inj stk i j : stack_placed stk -> 0 <= i < stack_pages stk -> 0 <= j < stack_pages stk ->
  indices (bottom stk + i * PMM_PAGE_SIZE) = indices (bottom stk + j * PMM_PAGE_SIZE) -> i = j.
Proof.
  intros Hp Hi Hj E. destruct (placed_va stk i Hp Hi) as (_ & U1 & A1 & C1 & _).
  destruct (placed_va stk j Hp Hj) as (_ & U2 & A2 & C2 & _).
  apply indices_inj in E; try done. unfold PMM_PAGE_SIZE in E. lia.
Qed.

(** [kernel_stack_free] unmaps exactly the pages of the stack and clears the
    object, so that a second call does nothing. *)
Theorem kernel_stack_free_correct stk st :
  kernel_wf (stack_vmm st) -> stack_placed stk -> stack_pages stk <> 0 -> stack_mapped stk (stack_vmm st) 0 ->
  let '(stk', st') := kernel_stack_free (Some stk) st in
  kernel_wf (stack_vmm st') /\
  (forall i, 0 <= i < stack_pages stk -> kleaf (stack_vmm st') (indices (bottom stk + i * PMM_PAGE_SIZE)) = None) /\
  (forall idx, page_path idx -> (forall i, 0 <= i < stack_pages stk -> idx <> indices (bottom stk + i * PMM_PAGE_SIZE)) ->
     kleaf (stack_vmm st') idx = kleaf (stack_vmm st) idx) /\
  next_stack_base st' = next_stack_base st /\ kernel_stack_free stk' st' = (stk', st').
Proof.
  intros Hwf Hp Hn Hm. unfold kernel_stack_free. destruct (Z.eqb_spec (stack_pages stk) 0); [done|].
  cbn [next_stack_base stack_vmm]. set (I := fun k s => kernel_wf s /\ stack_mapped stk s k /\
    (forall i, 0 <= i < k -> i < stack_pages stk -> kleaf s (indices (bottom stk + i * PMM_PAGE_SIZE)) = None) /\
    (forall idx, page_path idx -> (forall i, 0 <= i < stack_pages stk -> idx <> indices (bottom stk + i * PMM_PAGE_SIZE)) ->
     kleaf s idx = kleaf (stack_vmm st) idx)).
  assert (HI : I (0 + Z.of_nat (Z.to_nat (stack_pages stk))) (free_stack_pages stk (stack_vmm st))).
  { unfold free_stack_pages. apply for_up_ind; [split_and!; try done; lia|]. intros k s Hk (W & M & N & O).
    assert (Hk' : 0 <= k < stack_pages stk) by lia. destruct (placed_va stk k Hp Hk') as (-> & Hu & Hal & Hc & Href).
    destruct (M k) as (e & He & Hnt); [lia|].
    destruct (unmap_and_free_spec s _ e W Href He Hnt) as (W' & K' & L' & N'). split_and!; [done | | |].
    - intros i Hi. destruct (M i) as (e' & He' & Hnt'); [lia|]. exists e'. split; [|by apply N'].
      rewrite L' by apply indices_path. rewrite decide_False; [done|]. intros E. apply (placed_inj stk) in E; (done || lia).
    - intros i Hi Hi'. rewrite L' by apply indices_path. case_decide as Hd; [done|].
      apply N; [|done]. destruct (decide (i = k)) as [->|]; [done | lia].
    - intros idx Hidx Hno. rewrite L' by done. rewrite decide_False; [by apply O|]. by apply Hno. }
  rewrite Z2Nat.id in HI by (destruct Hp as (_ & _ & ? & _); lia). destruct HI as (W & _ & N & O).
  split_and!; [done | | done | done | done]. intros i Hi. by apply N; lia.
Qed.

Definition sample_stack : kernel_stack := mk_stack STACK_REGION_BASE (STACK_REGION_BASE + PMM_PAGE_SIZE)
  (STACK_REGION_BASE + 2 * PMM_PAGE_SIZE) 1.
Definition sample_stack_vmm : vmm_state := snd (map_fresh 1 0 (STACK_REGION_BASE + PMM_PAGE_SIZE) sample_kernel).

Lemma sample_stack_mapped : kernel_wf sample_stack_vmm /\ stack_mapped sample_stack sample_stack_vmm 0.
Proof.
  assert (Hok : fst (map_fresh 1 0 (STACK_REGION_BASE + PMM_PAGE_SIZE) sample_kernel) = true) by (vm_compute; reflexivity).
  pose proof (map_fresh_spec sample_kernel (STACK_REGION_BASE + PMM_PAGE_SIZE) 1 [] sample_kernel sample_kernel_wf eq_refl) as H.
  change (length []) with O in H. unfold sample_stack_vmm.
  destruct (map_fresh 1 0 (STACK_REGION_BASE + PMM_PAGE_SIZE) sample_kernel) as [ok s'].
  cbn [fst snd] in *. subst ok. destruct H as (fs & Hlen & W & _ & Hrun & (_ & HF) & _); [done | split; [constructor | done] | apply accounted_refl | apply tables_stay_refl |].
  split; [done|]. intros i Hi. cbn [stack_pages sample_stack] in Hi. assert (i = 0) as -> by lia.
  destruct fs as [|f [|]]; [done | | done]. apply Forall_cons in HF as ((Hnt & _) & _). exists (leaf_entry f KERNEL_FLAGS).
  destruct (leaf_entry_spec f KERNEL_FLAGS (proj1 Hnt)) as (_ & _ & ->). split; [|done].
  by rewrite <- (run_maps_page sample_kernel (STACK_REGION_BASE + PMM_PAGE_SIZE) [f] (kleaf s') 0 f).
Qed.

Lemma kernel_stack_free_correct_witness :
  kleaf (stack_vmm (snd (kernel_stack_free (Some sample_stack) (mk_stack_state (top sample_stack) sample_stack_vmm))))
    (indices (bottom sample_stack)) = None.
Proof.
  destruct sample_stack_mapped as (W & M).
  pose proof (kernel_stack_free_correct sample_stack (mk_stack_state (top sample_stack) sample_stack_vmm) W) as H.
  destruct (kernel_stack_free (Some sample_stack) (mk_stack_state (top sample_stack) sample_stack_vmm)) as [stk' st'].
  destruct H as (_ & H & _); [by repeat split | done | exact M |].
  specialize (H 0). rewrite Z.add_0_r in H. apply H. by split.
Defined.

End Stack.
