(* ===== verification/Kmalloc.v ===== *)
(** * Kmalloc: the kernel heap (src/mm/kmalloc.c)

    Blocks are tiles of [HEAP_BASE, HEAP_BASE + mapped_size), each a 32-byte
    header followed by its payload, chained by address in both directions.
    Headers are kept as a map from addresses to records; a pointer is its
    address, 0 for NULL.  The pages come from a [PageSupply], so that the heap
    is verified against that interface and not against the page tables.

    The abstract heap is the list of tiles [blk]; [heap_rep] relates it to the
    headers, and [live] reads the allocated payloads off it. *)

From Stdlib Require Import Btauto.
From S2P Require Import Prelude Pmm Vmm KernelPages.
Import Pmm.Pmm Vmm.Vmm KernelPages.KernelPages.

Module Kmalloc.

Definition HEAP_BASE : Z := 0xFFFFD00000000000.
Definition HEAP_MAX_SIZE : Z := 256 * 1024 * 1024.
Definition HEAP_GROW_PAGES : Z := 4.
Definition BLOCK_MAGIC : Z := 0xC04ECAFE.
Definition BLOCK_FREE : Z := 0.
Definition BLOCK_USED : Z := 1.
Definition ALIGNMENT : Z := 16.
(** [sizeof(block_header_t)] *)
Definition HEADER : Z := 32.

Record block_header := mk_header {
  size : Z;
  previous : Z;
  next : Z;
  magic : Z;
  state : Z;
}.

Definition with_size b x := mk_header x (previous b) (next b) (magic b) (state b).
Definition with_previous b x := mk_header (size b) x (next b) (magic b) (state b).
Definition with_next b x := mk_header (size b) (previous b) x (magic b) (state b).
Definition with_state b x := mk_header (size b) (previous b) (next b) (magic b) x.

Section Heap.
Context {P : Type} `{PageSupply P}.

Record heap := mk_heap {
  headers : gmap Z block_header;
  first_block : Z;
  mapped_size : Z;
  active_allocations : Z;
  pages : P;
}.

(** [*block] *)
Definition hdr (h : heap) (a : Z) : block_header := default (mk_header 0 0 0 0 0) (headers h !! a).
Definition set_hdr (h : heap) (a : Z) (b : block_header) : heap :=
  mk_heap (<[a := b]> (headers h)) (first_block h) (mapped_size h) (active_allocations h) (pages h).
Definition with_first h x := mk_heap (headers h) x (mapped_size h) (active_allocations h) (pages h).
Definition with_mapped h x := mk_heap (headers h) (first_block h) x (active_allocations h) (pages h).
Definition with_active h x := mk_heap (headers h) (first_block h) (mapped_size h) x (pages h).
Definition with_pages h x := mk_heap (headers h) (first_block h) (mapped_size h) (active_allocations h) x.

Definition align_up (value alignment : Z) : Z := (value +! alignment -! 1) &! not64 (alignment - 1).

(** A walk visits at most one block per header that fits the mapped bytes. *)
Definition walk_fuel (h : heap) : nat := S (Z.to_nat (mapped_size h / HEADER)).

Fixpoint last_from (fuel : nat) (h : heap) (block : Z) : Z :=
  match fuel with
  | O => block
  | S fuel => if next (hdr h block) =? 0 then block else last_from fuel h (next (hdr h block))
  end.

Definition last_block (h : heap) : Z :=
  if first_block h =? 0 then 0 else last_from (walk_fuel h) h (first_block h).

Definition grow_heap (minimum_payload : Z) (h : heap) : bool * heap :=
  let required := minimum_payload +! HEADER in
  let minimum_growth := HEAP_GROW_PAGES *! PMM_PAGE_SIZE in
  let growth := align_up required PMM_PAGE_SIZE in
  let growth := if growth <? minimum_growth then minimum_growth else growth in
  if HEAP_MAX_SIZE -! mapped_size h <? growth then (false, h)
  else
    let old_end := HEAP_BASE +! mapped_size h in
    let '(ok, p) := supply old_end (growth / PMM_PAGE_SIZE) (pages h) in
    let h := with_pages h p in
    if negb ok then (false, h)
    else
      let last := last_block h in
      let h :=
        if negb (last =? 0) && (state (hdr h last) =? BLOCK_FREE) then
          set_hdr h last (with_size (hdr h last) (size (hdr h last) +! growth))
        else
          let h := set_hdr h old_end (mk_header (growth -! HEADER) last 0 BLOCK_MAGIC BLOCK_FREE) in
          if negb (last =? 0) then set_hdr h last (with_next (hdr h last) old_end)
          else with_first h old_end in
      (true, with_mapped h (mapped_size h +! growth)).

(** [if (after != NULL) after->previous = block;] *)
Definition relink (after block : Z) (h : heap) : heap :=
  if negb (after =? 0) then set_hdr h after (with_previous (hdr h after) block) else h.

Definition split_block (block sz : Z) (h : heap) : heap :=
  if size (hdr h block) <? sz +! HEADER +! ALIGNMENT then h
  else
    let remainder := block +! HEADER +! sz in
    let h := set_hdr h remainder
               (mk_header (size (hdr h block) -! sz -! HEADER) block (next (hdr h block)) BLOCK_MAGIC BLOCK_FREE) in
    let h := relink (next (hdr h remainder)) remainder h in
    let h := set_hdr h block (with_size (hdr h block) sz) in
    set_hdr h block (with_next (hdr h block) remainder).

Definition merge_with_next (block : Z) (h : heap) : heap :=
  let nxt := next (hdr h block) in
  if (nxt =? 0) || negb (state (hdr h nxt) =? BLOCK_FREE) then h
  else
    let h := set_hdr h block (with_size (hdr h block) (size (hdr h block) +! (HEADER +! size (hdr h nxt)))) in
    let h := set_hdr h block (with_next (hdr h block) (next (hdr h nxt))) in
    relink (next (hdr h block)) block h.

(** The loop of [find_block_for_pointer]: 0 when it returns NULL. *)
Fixpoint find_pointer (fuel : nat) (h : heap) (block pointer : Z) : Z :=
  match fuel with
  | O => 0
  | S fuel =>
      if block =? 0 then 0
      else if negb (magic (hdr h block) =? BLOCK_MAGIC) then 0
      else if block +! HEADER =? pointer then block
      else find_pointer fuel h (next (hdr h block)) pointer
  end.

Definition find_block_for_pointer (pointer : Z) (h : heap) : Z :=
  find_pointer (walk_fuel h) h (first_block h) pointer.

Definition kmalloc_init (h : heap) : bool * heap :=
  let '(ok, h) := grow_heap ALIGNMENT h in (ok, h).

(** The inner loop of [kmalloc]: the first free block that is large enough. *)
Fixpoint find_free (fuel : nat) (h : heap) (block sz : Z) : Z :=
  match fuel with
  | O => 0
  | S fuel =>
      if block =? 0 then 0
      else if (magic (hdr h block) =? BLOCK_MAGIC) && (state (hdr h block) =? BLOCK_FREE) &&
              (sz <=? size (hdr h block)) then block
      else find_free fuel h (next (hdr h block)) sz
  end.

(** [for (;;)]: a scan, and a further one after each growth. *)
Fixpoint kmalloc_loop (rounds : nat) (sz : Z) (h : heap) : Z * heap :=
  match rounds with
  | O => (0, h)
  | S rounds =>
      let block := find_free (walk_fuel h) h (first_block h) sz in
      if negb (block =? 0) then
        let h := split_block block sz h in
        let h := set_hdr h block (with_state (hdr h block) BLOCK_USED) in
        (block +! HEADER, with_active h (active_allocations h +! 1))
      else
        let '(ok, h) := grow_heap sz h in
        if ok then kmalloc_loop rounds sz h else (0, h)
  end.

(** Two rounds are enough: [kmalloc_rounds]. *)
Definition kmalloc (sz : Z) (h : heap) : Z * heap :=
  if (sz =? 0) || (HEAP_MAX_SIZE - HEADER <? sz) then (0, h)
  else kmalloc_loop 2 (align_up sz ALIGNMENT) h.

Definition kfree (pointer : Z) (h : heap) : bool * heap :=
  if pointer =? 0 then (false, h)
  else if (pointer <? HEAP_BASE +! HEADER) || (HEAP_BASE +! mapped_size h <=? pointer) ||
          negb (pointer mod ALIGNMENT =? 0) then (false, h)
  else
    let block := find_block_for_pointer pointer h in
    if (block =? 0) || negb (state (hdr h block) =? BLOCK_USED) then (false, h)
    else
      let h := set_hdr h block (with_state (hdr h block) BLOCK_FREE) in
      let h := with_active h (active_allocations h -! 1) in
      let h := merge_with_next block h in
      let before := previous (hdr h block) in
      let h := if negb (before =? 0) && (state (hdr h before) =? BLOCK_FREE)
               then merge_with_next before h else h in
      (true, h).

Record kmalloc_stats := mk_stats {
  mapped_bytes : Z;
  used_bytes : Z;
  free_bytes : Z;
  stats_allocations : Z;
}.

Fixpoint count_bytes (fuel : nat) (h : heap) (block used free : Z) : Z * Z :=
  match fuel with
  | O => (used, free)
  | S fuel =>
      if block =? 0 then (used, free)
      else if state (hdr h block) =? BLOCK_USED
      then count_bytes fuel h (next (hdr h block)) (used +! size (hdr h block)) free
      else count_bytes fuel h (next (hdr h block)) used (free +! size (hdr h block))
  end.

Definition kmalloc_get_stats (h : heap) : kmalloc_stats :=
  let '(used, free) := count_bytes (walk_fuel h) h (first_block h) 0 0 in
  mk_stats (mapped_size h) used free (active_allocations h).

(** ** Tiles *)

Record blk := mk_blk { bsz : Z; bused : bool }.

Definition tile (b : blk) : Z := HEADER + bsz b.
Definition total (bs : list blk) : Z := foldr (fun b n => tile b + n) 0 bs.
Arguments total : simpl never.
Definition bstate (b : blk) : Z := if bused b then BLOCK_USED else BLOCK_FREE.
Definition good (b : blk) : Prop := bsz b mod ALIGNMENT = 0 /\ ALIGNMENT <= bsz b.

(** The tiles [bs] from address [a] on: [prev] is the block before them and
    [nx] the one the last of them points to. *)
Fixpoint seg (hs : gmap Z block_header) (prev a : Z) (bs : list blk) (nx : Z) : Prop :=
  match bs with
  | [] => True
  | b :: bs =>
      hs !! a = Some (mk_header (bsz b) prev (if bool_decide (bs = []) then nx else a + tile b)
                        BLOCK_MAGIC (bstate b)) /\
      seg hs a (a + tile b) bs nx
  end.

Fixpoint last_addr (prev a : Z) (bs : list blk) : Z :=
  match bs with
  | [] => prev
  | b :: bs => last_addr a (a + tile b) bs
  end.

Lemma tile_pos b : good b -> 48 <= tile b.
Proof. unfold good, tile, ALIGNMENT, HEADER. lia. Qed.

Lemma total_cons b bs : total (b :: bs) = tile b + total bs.
Proof. done. Qed.

Lemma total_single b : total [b] = tile b.
Proof. unfold total. simpl. lia. Qed.

Lemma total_app l1 l2 : total (l1 ++ l2) = total l1 + total l2.
Proof. induction l1 as [|b l1 IH]; simpl; [done|]. rewrite !total_cons, IH. lia. Qed.

Lemma total_length bs : Forall good bs -> 48 * alen bs <= total bs.
Proof.
  unfold alen. induction 1 as [|b bs Hb _ IH]; simpl; [done|].
  rewrite total_cons. pose proof (tile_pos b Hb). lia.
Qed.

Lemma good_snoc l b : Forall good l -> good b -> Forall good (l ++ [b]).
Proof. intros Hl Hb. apply Forall_app. split; [done | by constructor]. Qed.

Lemma total_pos bs : Forall good bs -> 0 <= total bs.
Proof. intros Hg. pose proof (total_length bs Hg). unfold alen in *. lia. Qed.

Lemma seg_ext hs hs' prev a bs nx :
  Forall good bs -> (forall x, a <= x < a + total bs -> hs' !! x = hs !! x) ->
  seg hs prev a bs nx -> seg hs' prev a bs nx.
Proof.
  intros Hg. revert prev a. induction Hg as [|b bs Hb Hg IH]; intros prev a Hx; simpl; [done|].
  pose proof (tile_pos b Hb). pose proof (total_pos bs Hg). rewrite total_cons in Hx.
  intros (Hb1 & Hseg). split; [by rewrite Hx by lia|]. apply IH; [|done]. intros. apply Hx. lia.
Qed.

Lemma seg_app hs prev a l1 l2 nx :
  seg hs prev a (l1 ++ l2) nx <->
  seg hs prev a l1 (if bool_decide (l2 = []) then nx else a + total l1) /\
  seg hs (last_addr prev a l1) (a + total l1) l2 nx.
Proof.
  revert prev a. induction l1 as [|b l1 IH]; intros prev a; simpl.
  - change (total []) with 0. rewrite Z.add_0_r. tauto.
  - rewrite IH, total_cons, !Z.add_assoc. destruct l1 as [|c l1]; simpl.
    + change (total []) with 0. rewrite Z.add_0_r. destruct l2; simpl; tauto.
    + tauto.
Qed.

(** The first tile hears of a new predecessor. *)
Lemma seg_set_prev hs prev prev' a b bs nx hd :
  Forall good (b :: bs) -> seg hs prev a (b :: bs) nx -> hs !! a = Some hd ->
  seg (<[a := with_previous hd prev']> hs) prev' a (b :: bs) nx.
Proof.
  intros Hg (Hb & Hseg) Hhd. apply Forall_cons in Hg as (Hgb & Hg). rewrite Hb in Hhd. injection Hhd as <-. split.
  - by rewrite lookup_insert_eq.
  - apply (seg_ext hs); [done | | done]. intros x Hx. pose proof (tile_pos b Hgb).
    rewrite lookup_insert_ne by lia. done.
Qed.

(** A write below or above the tiles does not touch them. *)
Lemma seg_insert_out hs prev a bs nx x hd :
  Forall good bs -> x < a \/ a + total bs <= x -> seg hs prev a bs nx -> seg (<[x := hd]> hs) prev a bs nx.
Proof.
  intros Hg Hx. apply seg_ext; [done|]. intros y Hy. rewrite lookup_insert_ne by lia. done.
Qed.

(** The address of the tile after [l1]. *)
Definition addr (l1 : list blk) : Z := HEAP_BASE + total l1.

(** What a pointer to the tile after [l1] holds, NULL at the end. *)
Definition link (l1 l2 : list blk) : Z := if bool_decide (l2 = []) then 0 else addr l1.

(** The headers of [h] chain the tiles [bs] from [HEAP_BASE] on. *)
Record links (h : heap) (bs : list blk) : Prop := {
  lk_seg : seg (headers h) 0 HEAP_BASE bs 0;
  lk_good : Forall good bs;
  lk_total : total bs <= HEAP_MAX_SIZE;
}.

Lemma addr_app l1 l2 : addr (l1 ++ l2) = addr l1 + total l2.
Proof. unfold addr. rewrite total_app. lia. Qed.

Lemma addr_range l1 : Forall good l1 -> total l1 <= HEAP_MAX_SIZE -> HEAP_BASE <= addr l1 <= HEAP_BASE + HEAP_MAX_SIZE.
Proof. intros Hg Ht. pose proof (total_pos l1 Hg). unfold addr. lia. Qed.

Lemma links_split h l1 b l2 : links h (l1 ++ b :: l2) ->
  seg (headers h) 0 HEAP_BASE l1 (addr l1) /\
  headers h !! addr l1 = Some (mk_header (bsz b) (last_addr 0 HEAP_BASE l1) (link (l1 ++ [b]) l2) BLOCK_MAGIC (bstate b)) /\
  seg (headers h) (addr l1) (addr (l1 ++ [b])) l2 0 /\
  Forall good l1 /\ good b /\ Forall good l2 /\ total l1 + tile b + total l2 <= HEAP_MAX_SIZE.
Proof.
  intros [Hs Hg Ht]. apply seg_app in Hs as (Hs1 & Hb & Hs2). simpl in Hs1.
  apply Forall_app in Hg as (Hg1 & Hg). apply Forall_cons in Hg as (Hgb & Hg2).
  rewrite total_app, total_cons in Ht. unfold link. rewrite addr_app, total_single. unfold addr.
  split_and!; try done; lia.
Qed.

Lemma hdr_at h l1 b l2 : links h (l1 ++ b :: l2) ->
  hdr h (addr l1) = mk_header (bsz b) (last_addr 0 HEAP_BASE l1) (link (l1 ++ [b]) l2) BLOCK_MAGIC (bstate b).
Proof. intros Hl. apply links_split in Hl as (_ & Hb & _). unfold hdr. by rewrite Hb. Qed.

Lemma addr_not_null l1 : Forall good l1 -> (addr l1 =? 0) = false.
Proof. intros Hg. pose proof (total_pos l1 Hg). apply Z.eqb_neq. unfold addr, HEAP_BASE. lia. Qed.

Lemma headers_set h a b : headers (set_hdr h a b) = <[a := b]> (headers h).
Proof. done. Qed.

Lemma hdr_set_eq h a b : hdr (set_hdr h a b) a = b.
Proof. unfold hdr. by rewrite headers_set, lookup_insert_eq. Qed.

Lemma hdr_set_ne h a b x : x <> a -> hdr (set_hdr h a b) x = hdr h x.
Proof. intros. unfold hdr. by rewrite headers_set, lookup_insert_ne. Qed.

(** The tiles from [l1] on are replaced: what is left to show is the new
    middle, when only addresses from [addr l1] on were written. *)
Lemma links_from h h' l1 bs bs' :
  Forall good l1 -> seg (headers h) 0 HEAP_BASE l1 (addr l1) ->
  (forall x, x < addr l1 -> headers h' !! x = headers h !! x) ->
  seg (headers h') (last_addr 0 HEAP_BASE l1) (addr l1) bs' 0 -> bs' <> [] ->
  Forall good bs' -> total l1 + total bs' <= HEAP_MAX_SIZE -> bs = l1 ++ bs' -> links h' bs.
Proof.
  intros Hg Hs Hx Hs' Hne Hg' Ht ->. split.
  - apply seg_app. rewrite bool_decide_false by done. split; [|done].
    apply (seg_ext (headers h)); [done | | done]. intros x Hx'. apply Hx. unfold addr. lia.
  - by apply Forall_app.
  - by rewrite total_app.
Qed.

Lemma links_set_state h l1 b l2 u :
  links h (l1 ++ b :: l2) ->
  links (set_hdr h (addr l1) (with_state (hdr h (addr l1)) (bstate (mk_blk (bsz b) u)))) (l1 ++ mk_blk (bsz b) u :: l2).
Proof.
  intros Hl. rewrite (hdr_at h l1 b l2 Hl). pose proof (links_split h l1 b l2 Hl) as (Hs1 & Hb & Hs2 & Hg1 & Hgb & Hg2 & Ht).
  eapply (links_from h); [exact Hg1 | exact Hs1 | | | | | | reflexivity].
  - intros x Hx. rewrite headers_set, lookup_insert_ne by lia. done.
  - rewrite headers_set. simpl. rewrite lookup_insert_eq. split.
    + unfold link, with_state. simpl. do 2 f_equal. case_bool_decide; [done|].
      rewrite addr_app, total_single. done.
    + pose proof (tile_pos b Hgb). apply seg_insert_out; [done | left; unfold tile in *; simpl; lia |].
      by rewrite addr_app, total_single in Hs2.
  - done.
  - by constructor.
  - rewrite total_cons. unfold tile in *. simpl. lia.
Qed.

(** *** Splitting *)

Definition split_tiles (b : blk) (sz : Z) : list blk :=
  if bsz b <? sz + HEADER + ALIGNMENT then [b]
  else [mk_blk sz (bused b); mk_blk (bsz b - sz - HEADER) false].

Lemma relink_seg h p l1 l2 r nx :
  Forall good l2 -> Forall good l1 -> seg (headers h) p (addr l1) l2 nx ->
  seg (headers (relink (link l1 l2) r h)) r (addr l1) l2 nx.
Proof.
  intros Hg2 Hg1 Hs. unfold relink, link. destruct l2 as [|c l2]; simpl; [done|].
  rewrite addr_not_null by done. simpl negb. cbv iota. rewrite headers_set.
  apply (seg_set_prev _ p); [done | done |]. simpl in Hs. unfold hdr. by destruct Hs as (-> & _).
Qed.

Lemma relink_out h r l1 l2 x : x <> addr l1 -> headers (relink (link l1 l2) r h) !! x = headers h !! x.
Proof.
  intros Hx. unfold relink, link. destruct l2 as [|c l2]; simpl; [done|]. case_match; [|done].
  rewrite headers_set, lookup_insert_ne by done. done.
Qed.

Lemma relink_hdr h r l1 l2 x : x <> addr l1 -> hdr (relink (link l1 l2) r h) x = hdr h x.
Proof. intros Hx. unfold hdr. by rewrite relink_out. Qed.

Lemma split_block_links h l1 b l2 sz :
  links h (l1 ++ b :: l2) -> sz mod ALIGNMENT = 0 -> ALIGNMENT <= sz <= bsz b ->
  links (split_block (addr l1) sz h) (l1 ++ split_tiles b sz ++ l2).
Proof.
  intros Hl Hal Hsz. pose proof (links_split h l1 b l2 Hl) as (Hs1 & Hb & Hs2 & Hg1 & Hgb & Hg2 & Ht).
  pose proof (total_pos l1 Hg1). pose proof (total_pos l2 Hg2). pose proof (tile_pos b Hgb).
  unfold split_block, split_tiles. rewrite (hdr_at h l1 b l2 Hl). cbn [size next].
  assert (Hbig : sz +! HEADER +! ALIGNMENT = sz + HEADER + ALIGNMENT).
  { unfold HEADER, ALIGNMENT, HEAP_MAX_SIZE, tile, HEADER in *. u64_simpl. lia. }
  rewrite Hbig. destruct (Z.ltb_spec (bsz b) (sz + HEADER + ALIGNMENT)) as [Hlt|Hge]; [done|].
  set (A := addr l1) in *. set (r := A +! HEADER +! sz).
  assert (Hr : r = A + HEADER + sz).
  { unfold r, A, addr, HEAP_BASE, HEADER, ALIGNMENT, HEAP_MAX_SIZE, tile, HEADER in *. u64_simpl. lia. }
  assert (Hrest : bsz b -! sz -! HEADER = bsz b - sz - HEADER).
  { unfold HEADER, ALIGNMENT, HEAP_MAX_SIZE, tile, HEADER in *. u64_simpl. lia. }
  rewrite Hrest. set (h1 := set_hdr h r _).
  assert (Hn : next (hdr h1 r) = link (l1 ++ [b]) l2) by (unfold h1; by rewrite hdr_set_eq).
  rewrite Hn, hdr_set_eq.
  assert (HB : addr (l1 ++ [b]) = A + tile b) by (by rewrite addr_app, total_single).
  assert (HrB : r <> addr (l1 ++ [b]) /\ A <> addr (l1 ++ [b]) /\ A < r).
  { rewrite HB, Hr. unfold tile, HEADER, ALIGNMENT in *. lia. }
  set (h2 := relink (link (l1 ++ [b]) l2) r h1).
  assert (HA2 : hdr h2 A = hdr h A).
  { unfold h2. rewrite relink_hdr by apply HrB. unfold h1. rewrite hdr_set_ne by lia. done. }
  pose proof (hdr_at h l1 b l2 Hl) as HdrA. fold A in HdrA. rewrite HA2, !HdrA.
  eapply (links_from h _ l1); [exact Hg1 | exact Hs1 | | | | | | reflexivity].
  - intros x Hx. fold A in Hx. rewrite !headers_set, !lookup_insert_ne by lia.
    unfold h2. rewrite relink_out by lia. unfold h1. rewrite headers_set, lookup_insert_ne by lia. done.
  - fold A. rewrite !headers_set. simpl. rewrite lookup_insert_eq.
    assert (E1 : A + tile (mk_blk sz (bused b)) = r) by (rewrite Hr; unfold tile; simpl; lia).
    assert (E2 : r + tile (mk_blk (bsz b - sz - HEADER) false) = addr (l1 ++ [b])).
    { rewrite HB, Hr. unfold tile. simpl. lia. }
    rewrite E1, E2. rewrite !(lookup_insert_ne _ A r) by lia.
    split; [done|]. split.
    + unfold h2. rewrite relink_out by apply HrB. unfold h1. by rewrite headers_set, lookup_insert_eq.
    + assert (Forall good (l1 ++ [b])) by (by apply good_snoc).
      apply seg_insert_out; [done | left; lia |]. apply seg_insert_out; [done | left; lia |].
      unfold h2. apply (relink_seg h1 A); [done | done |]. unfold h1. rewrite headers_set.
      apply seg_insert_out; [done | left; rewrite HB; unfold tile in *; lia | done].
  - done.
  - destruct Hgb as (Hb1 & Hb2). repeat (constructor; simpl); try done; unfold ALIGNMENT, HEADER in *; try lia.
    Z.div_mod_to_equations. lia.
  - cbn [app]; rewrite !total_cons. unfold tile in *. simpl. lia.
Qed.

(** *** Merging *)

Definition merge_tiles (b : blk) (l2 : list blk) : list blk :=
  match l2 with
  | c :: l2' => if bused c then b :: l2 else mk_blk (bsz b + HEADER + bsz c) (bused b) :: l2'
  | [] => [b]
  end.

Lemma bstate_free b : (bstate b =? BLOCK_FREE) = negb (bused b).
Proof. unfold bstate. by destruct (bused b). Qed.

Lemma links_next h l1 b c l2 : links h (l1 ++ b :: c :: l2) -> links h ((l1 ++ [b]) ++ c :: l2).
Proof. by rewrite <- app_assoc. Qed.

Lemma last_addr_snoc p a l b : last_addr p a (l ++ [b]) = a + total l.
Proof.
  revert p a. induction l as [|c l IH]; intros p a; simpl.
  - change (total []) with 0. lia.
  - rewrite IH, total_cons. lia.
Qed.

Lemma merge_links h l1 b l2 :
  links h (l1 ++ b :: l2) -> links (merge_with_next (addr l1) h) (l1 ++ merge_tiles b l2).
Proof.
  intros Hl. pose proof (links_split h l1 b l2 Hl) as (Hs1 & Hb & Hs2 & Hg1 & Hgb & Hg2 & Ht).
  assert (Hg1b : Forall good (l1 ++ [b])) by (by apply good_snoc).
  unfold merge_with_next. rewrite (hdr_at h l1 b l2 Hl). cbn [next size].
  destruct l2 as [|c l2]; [done|]. unfold link. rewrite bool_decide_false by done.
  rewrite addr_not_null by done. pose proof (hdr_at h (l1 ++ [b]) c l2 (links_next _ _ _ _ _ Hl)) as Hc.
  rewrite Hc. cbn [state size orb]. rewrite bstate_free, negb_involutive. cbn [merge_tiles].
  destruct (bused c); [done|]. rewrite hdr_set_eq. unfold with_size, with_next. cbn [next].
  assert (HB : addr (l1 ++ [b]) = addr l1 + tile b) by (by rewrite addr_app, total_single).
  assert (HC : addr ((l1 ++ [b]) ++ [c]) = addr l1 + tile b + tile c) by (by rewrite addr_app, HB, total_single).
  apply Forall_cons in Hg2 as (Hgc & Hg2). pose proof (tile_pos b Hgb). pose proof (tile_pos c Hgc).
  rewrite total_cons in Ht. pose proof (total_pos l1 Hg1). pose proof (total_pos l2 Hg2).
  rewrite hdr_set_ne by lia. rewrite Hc. cbn [next]. rewrite hdr_set_eq. cbn [next].
  set (n := link ((l1 ++ [b]) ++ [c]) l2).
  assert (Hsz : bsz b +! (HEADER +! bsz c) = bsz b + HEADER + bsz c).
  { unfold tile, HEADER, HEAP_MAX_SIZE in *. u64_simpl. lia. }
  rewrite Hsz. set (h1 := set_hdr (set_hdr h _ _) _ _).
  assert (E : addr l1 + tile (mk_blk (bsz b + HEADER + bsz c) (bused b)) = addr ((l1 ++ [b]) ++ [c])).
  { rewrite HC. unfold tile. simpl. lia. }
  eapply (links_from h _ l1); [exact Hg1 | exact Hs1 | | | | | | reflexivity].
  - intros x Hx. unfold n. rewrite relink_out by lia. unfold h1. rewrite !headers_set, !lookup_insert_ne by lia. done.
  - simpl. rewrite E. split.
    + unfold n. rewrite relink_out by lia. unfold h1. by rewrite !headers_set, lookup_insert_eq.
    + assert (Forall good ((l1 ++ [b]) ++ [c])) by (by apply good_snoc).
      apply (relink_seg h1 (addr (l1 ++ [b]))); [done | done |]. unfold h1. rewrite !headers_set.
      apply seg_insert_out; [done | left; lia |]. apply seg_insert_out; [done | left; lia |].
      destruct Hs2 as (_ & Hs2). by rewrite HC, <- HB.
  - done.
  - destruct Hgb, Hgc. constructor; [|done]. split; cbn [bsz]; unfold ALIGNMENT, HEADER in *; [|lia].
    Z.div_mod_to_equations. lia.
  - rewrite total_cons. unfold tile in *. cbn [bsz]. lia.
Qed.

(** Only the headers change. *)
Definition same_but_headers (h h' : heap) : Prop :=
  first_block h' = first_block h /\ mapped_size h' = mapped_size h /\
  active_allocations h' = active_allocations h /\ pages h' = pages h.

Lemma relink_rest a b h : same_but_headers h (relink a b h).
Proof. unfold relink. by case_match. Qed.

Lemma merge_rest a h : same_but_headers h (merge_with_next a h).
Proof. unfold merge_with_next. case_match; [done|]. apply (relink_rest _ _ (set_hdr (set_hdr h _ _) _ _)). Qed.

Lemma split_rest a sz h : same_but_headers h (split_block a sz h).
Proof. unfold split_block. case_match; [done|]. apply (relink_rest _ _ (set_hdr h _ _)). Qed.

(** *** Walks *)

Lemma walk_next h l1 b l2 : links h (l1 ++ b :: l2) -> next (hdr h (addr l1)) = link (l1 ++ [b]) l2.
Proof. intros Hl. by rewrite (hdr_at h l1 b l2 Hl). Qed.

Lemma links_good1 h l1 l2 : links h (l1 ++ l2) -> Forall good l1.
Proof. intros Hl. by apply lk_good, Forall_app in Hl as [? ?]. Qed.

Lemma link_cons l1 b l2 : link l1 (b :: l2) = addr l1.
Proof. done. Qed.

(** The tiles a scan for [sz] bytes passes over. *)
Definition unfit (sz : Z) (b : blk) : Prop := bused b = true \/ bsz b < sz.

(** First fit. *)
Lemma find_free_spec h l1 l2 sz fuel :
  links h (l1 ++ l2) -> (length l2 < fuel)%nat ->
  (find_free fuel h (link l1 l2) sz = 0 /\ Forall (unfit sz) l2) \/
  exists m b r, l2 = m ++ b :: r /\ Forall (unfit sz) m /\ bused b = false /\ sz <= bsz b /\
    find_free fuel h (link l1 l2) sz = addr (l1 ++ m).
Proof.
  revert l1 fuel. induction l2 as [|b l2 IH]; intros l1 fuel Hl Hf; (destruct fuel; [lia|]).
  { left. by split. }
  cbn [find_free]. rewrite link_cons, addr_not_null by (by eapply links_good1). rewrite (hdr_at h l1 b l2 Hl).
  cbn [magic state size next]. rewrite Z.eqb_refl, bstate_free. cbn [andb].
  destruct (negb (bused b) && (sz <=? bsz b)) eqn:E.
  - right. exists [], b, l2. bool_prop. rewrite app_nil_r. split_and!; try done.
  - assert (Hb : unfit sz b). { unfold unfit. apply andb_false_iff in E as [E|E]; bool_prop; [left | right; lia]. by destruct (bused b). }
    assert (Hl' : links h ((l1 ++ [b]) ++ l2)) by (by rewrite <- app_assoc).
    destruct (IH (l1 ++ [b]) fuel Hl') as [(H1 & H2)|(m & c & r & -> & Hm & Hc & Hsz & ->)]; [simpl in Hf; lia | |].
    + left. split; [done | by constructor].
    + right. exists (b :: m), c, r. split_and!; try done; [by constructor|]. by rewrite <- app_assoc.
Qed.

Lemma find_pointer_spec h l1 l2 pointer fuel :
  links h (l1 ++ l2) -> (length l2 < fuel)%nat ->
  (find_pointer fuel h (link l1 l2) pointer = 0 /\
   forall m b r, l2 = m ++ b :: r -> addr (l1 ++ m) + HEADER <> pointer) \/
  exists m b r, l2 = m ++ b :: r /\ pointer = addr (l1 ++ m) + HEADER /\
    find_pointer fuel h (link l1 l2) pointer = addr (l1 ++ m).
Proof.
  revert l1 fuel. induction l2 as [|b l2 IH]; intros l1 fuel Hl Hf; (destruct fuel; [lia|]).
  { left. split; [done|]. intros [|? m] ? ? E; discriminate. }
  pose proof (links_good1 h l1 _ Hl) as Hg1.
  cbn [find_pointer]. rewrite link_cons, addr_not_null by done. rewrite (hdr_at h l1 b l2 Hl).
  cbn [magic next]. rewrite Z.eqb_refl. cbn [negb].
  assert (Hw : addr l1 +! HEADER = addr l1 + HEADER).
  { pose proof (links_split h l1 b l2 Hl) as (_ & _ & _ & _ & Hgb & Hg2 & Ht). pose proof (tile_pos b Hgb).
    pose proof (total_pos l2 Hg2). pose proof (total_pos l1 Hg1).
    unfold addr, HEADER, HEAP_BASE, HEAP_MAX_SIZE in *. u64_simpl. done. }
  rewrite Hw. destruct (Z.eqb_spec (addr l1 + HEADER) pointer) as [E|E].
  - right. exists [], b, l2. rewrite app_nil_r. by split_and!.
  - assert (Hl' : links h ((l1 ++ [b]) ++ l2)) by (by rewrite <- app_assoc).
    destruct (IH (l1 ++ [b]) fuel Hl') as [(H1 & H2)|(m & c & r & -> & -> & ->)]; [simpl in Hf; lia | |].
    + left. split; [done|]. intros [|d m] c r Em; simplify_list_eq; [done|].
      specialize (H2 m c r eq_refl). by rewrite <- app_assoc in H2.
    + right. exists (b :: m), c, r. rewrite <- app_assoc. by split_and!.
Qed.

Lemma last_from_spec h l1 m b fuel :
  links h (l1 ++ m ++ [b]) -> (length m < fuel)%nat -> last_from fuel h (link l1 (m ++ [b])) = addr (l1 ++ m).
Proof.
  revert l1 fuel. induction m as [|c m IH]; intros l1 fuel Hl Hf; (destruct fuel; [lia|]); cbn [last_from app].
  - rewrite link_cons, (walk_next h l1 b []) by done. by rewrite app_nil_r.
  - rewrite link_cons, (walk_next h l1 c (m ++ [b]) Hl).
    assert (Hl' : links h ((l1 ++ [c]) ++ m ++ [b])) by (by rewrite <- app_assoc).
    unfold link at 1. rewrite bool_decide_false by (by destruct m).
    rewrite addr_not_null by (by eapply links_good1). rewrite IH; [by rewrite <- app_assoc | done | simpl in Hf; lia].
Qed.

(** ** The represented heap *)

Definition head_used (bs : list blk) : bool := match bs with [] => true | b :: _ => bused b end.
Definition last_used (bs : list blk) : bool := match last bs with None => true | Some b => bused b end.

(** No two neighbours are both free. *)
Fixpoint coalesced (bs : list blk) : bool :=
  match bs with
  | [] => true
  | b :: bs => (bused b || head_used bs) && coalesced bs
  end.

Definition used_count (bs : list blk) : Z := foldr (fun b n => (if bused b then 1 else 0) + n) 0 bs.

(** The allocated payloads, each with its size. *)
Fixpoint live_from (a : Z) (bs : list blk) : list (Z * Z) :=
  match bs with
  | [] => []
  | b :: bs => (if bused b then [(a + HEADER, bsz b)] else []) ++ live_from (a + tile b) bs
  end.
Definition live (bs : list blk) : list (Z * Z) := live_from HEAP_BASE bs.

Record heap_rep (h : heap) (bs : list blk) : Prop := {
  hr_links : links h bs;
  hr_first : first_block h = link [] bs;
  hr_mapped : mapped_size h = total bs;
  hr_whole : total bs mod PMM_PAGE_SIZE = 0;
  hr_coalesced : coalesced bs = true;
  hr_active : active_allocations h = used_count bs;
  hr_supply : supply_wf (pages h);
  hr_pages : forall i, 0 <= i -> i * PMM_PAGE_SIZE < total bs -> is_mapped (pages h) (HEAP_BASE + i * PMM_PAGE_SIZE);
}.

Lemma coalesced_app l1 l2 : coalesced (l1 ++ l2) = coalesced l1 && coalesced l2 && (last_used l1 || head_used l2).
Proof.
  induction l1 as [|b l1 IH]; simpl; [by rewrite andb_true_r|]. rewrite IH. destruct l1 as [|c l1]; simpl.
  - unfold last_used. simpl. btauto.
  - change (last_used (b :: c :: l1)) with (last_used (c :: l1)). btauto.
Qed.

Lemma used_count_cons b l : used_count (b :: l) = (if bused b then 1 else 0) + used_count l.
Proof. done. Qed.

Lemma used_count_app l1 l2 : used_count (l1 ++ l2) = used_count l1 + used_count l2.
Proof. induction l1 as [|b l1 IH]; simpl; [done|]. rewrite IH. lia. Qed.

Lemma used_count_range bs : 0 <= used_count bs <= alen bs.
Proof. unfold alen. induction bs as [|b bs IH]; simpl; [done|]. destruct (bused b); lia. Qed.

Lemma live_from_app a l1 l2 : live_from a (l1 ++ l2) = live_from a l1 ++ live_from (a + total l1) l2.
Proof.
  revert a. induction l1 as [|b l1 IH]; intros a; simpl.
  - change (total []) with 0. by rewrite Z.add_0_r.
  - by rewrite IH, total_cons, Z.add_assoc, app_assoc.
Qed.

Lemma live_app l1 l2 : live (l1 ++ l2) = live l1 ++ live_from (addr l1) l2.
Proof. apply live_from_app. Qed.

Lemma live_merge a b l2 : bused b = false -> live_from a (merge_tiles b l2) = live_from a (b :: l2).
Proof.
  intros Hb. destruct l2 as [|c l2]; [done|]. cbn [merge_tiles]. destruct (bused c) eqn:Hc; [done|].
  cbn [live_from bused bsz]. rewrite Hb, Hc. cbn [app]. f_equal. unfold tile. cbn [bsz]. lia.
Qed.

Lemma total_merge b l2 : total (merge_tiles b l2) = total (b :: l2).
Proof.
  destruct l2 as [|c l2]; [done|]. cbn [merge_tiles]. destruct (bused c); [done|].
  rewrite !total_cons. unfold tile. cbn [bsz]. lia.
Qed.

Lemma used_merge b l2 : used_count (merge_tiles b l2) = used_count (b :: l2).
Proof. destruct l2 as [|c l2]; [done|]. cbn [merge_tiles]. destruct (bused c) eqn:Hc; [done|]. simpl. by rewrite Hc. Qed.

Lemma coalesced_merge b l2 : coalesced l2 = true -> coalesced (merge_tiles b l2) = true.
Proof.
  destruct l2 as [|c l2]; simpl; [by rewrite orb_true_r|]. intros Hc.
  apply andb_true_iff in Hc as (Hc1 & Hc2). destruct (bused c) eqn:Hc; simpl in *; rewrite Hc2; rewrite ?Hc; simpl.
  - by rewrite orb_true_r.
  - by rewrite Hc1, orb_true_r.
Qed.

Lemma head_merge b l2 : head_used (merge_tiles b l2) = bused b.
Proof. destruct l2 as [|c l2]; [done|]. simpl. by destruct (bused c). Qed.

Lemma heap_fuel h bs : heap_rep h bs -> (length bs < walk_fuel h)%nat.
Proof.
  intros Hr. pose proof (total_length bs (lk_good _ _ (hr_links _ _ Hr))) as Ht. unfold alen in Ht.
  unfold walk_fuel. rewrite (hr_mapped _ _ Hr). unfold HEADER.
  assert (Z.of_nat (length bs) <= total bs / 32) by (apply Z.div_le_lower_bound; lia). lia.
Qed.

(** The payloads are 16-byte aligned, lie inside the tiles and are separated by
    a header at least. *)
Definition extents_ok (lo hi : Z) (l : list (Z * Z)) : Prop :=
  Forall (fun '(p, n) => lo + HEADER <= p /\ p + n <= hi /\ p mod ALIGNMENT = 0 /\ ALIGNMENT <= n) l /\
  forall i j p n q m, (i < j)%nat -> l !! i = Some (p, n) -> l !! j = Some (q, m) -> p + n + HEADER <= q.

Lemma extents_cons lo hi p n l :
  lo + HEADER <= p -> p + n <= hi -> p mod ALIGNMENT = 0 -> ALIGNMENT <= n ->
  extents_ok (p + n) hi l -> extents_ok lo hi ((p, n) :: l).
Proof.
  intros Hp Hn Ha Hs (HF & HS). assert (0 < ALIGNMENT /\ 0 < HEADER) by done. split.
  - constructor; [done|]. eapply Forall_impl; [exact HF|]. intros [q m] ?. lia.
  - intros [|i] [|j] p1 n1 q m Hij Hi Hj; try lia; simpl in *.
    + injection Hi as <- <-. apply Forall_lookup_1 with (i := j) (x := (q, m)) in HF; [|done]. lia.
    + apply (HS i j p1 n1 q m); [lia | done | done].
Qed.

Lemma extents_weaken lo lo' hi l : lo' <= lo -> extents_ok lo hi l -> extents_ok lo' hi l.
Proof. intros Hlo (HF & HS). split; [|done]. eapply Forall_impl; [exact HF|]. intros [q m] ?. lia. Qed.

Lemma live_extents a bs :
  Forall good bs -> a mod ALIGNMENT = 0 -> extents_ok a (a + total bs) (live_from a bs).
Proof.
  intros Hg. revert a. induction Hg as [|b bs (Hb1 & Hb2) Hg IH]; intros a Ha.
  { split; [constructor | done]. }
  assert (Ht : (a + tile b) mod ALIGNMENT = 0).
  { unfold tile, HEADER, ALIGNMENT in *. Z.div_mod_to_equations. lia. }
  specialize (IH _ Ht). pose proof (total_pos bs Hg). rewrite total_cons, Z.add_assoc. cbn [live_from].
  destruct (bused b); cbn [app].
  - apply extents_cons; unfold tile, HEADER, ALIGNMENT in *; try lia.
    + Z.div_mod_to_equations. lia.
    + by replace (a + 32 + bsz b) with (a + (32 + bsz b)) by lia.
  - eapply extents_weaken; [|exact IH]. unfold tile, HEADER, ALIGNMENT in *. lia.
Qed.

Lemma heap_extents h bs : heap_rep h bs -> extents_ok HEAP_BASE (HEAP_BASE + mapped_size h) (live bs).
Proof.
  intros Hr. rewrite (hr_mapped _ _ Hr). apply live_extents; [|done]. apply (lk_good _ _ (hr_links _ _ Hr)).
Qed.

Lemma align_up_spec x k : 0 <= k <= 64 -> 0 <= x -> x + 2 ^ k < 2 ^ 64 ->
  x <= align_up x (2 ^ k) < x + 2 ^ k /\ align_up x (2 ^ k) mod 2 ^ k = 0.
Proof.
  intros Hk Hx Hx'. assert (0 < 2 ^ k) by (apply Z.pow_pos_nonneg; lia). unfold align_up.
  rewrite (u64_small (x + 2 ^ k)) by (unfold is_u64; lia).
  rewrite (u64_small (x + 2 ^ k - 1)) by (unfold is_u64; lia).
  rewrite land_mask_down by (unfold is_u64; lia).
  pose proof (Z.mod_pos_bound (x + 2 ^ k - 1) (2 ^ k) ltac:(lia)). split; [lia|].
  rewrite Zminus_mod_idemp_r, Z.sub_diag. done.
Qed.

(** *** Growth *)

Lemma links_headers h h' bs : headers h' = headers h -> links h bs -> links h' bs.
Proof. intros E [? ? ?]. split; [by rewrite E | done | done]. Qed.

Lemma snoc_cases {A} (l : list A) : l = [] \/ exists m b, l = m ++ [b].
Proof. induction l as [|b m _] using rev_ind; [by left|]. right. by exists m, b. Qed.

Lemma last_block_spec h bs : heap_rep h bs -> last_block h = last_addr 0 HEAP_BASE bs.
Proof.
  intros Hr. unfold last_block. rewrite (hr_first _ _ Hr). pose proof (hr_links _ _ Hr) as Hl.
  destruct (snoc_cases bs) as [->|(m & b & ->)]; [done|]. rewrite last_addr_snoc.
  unfold link at 1. rewrite bool_decide_false by (by destruct m). rewrite addr_not_null by constructor.
  rewrite (last_from_spec h [] m b); [done | done |].
  pose proof (heap_fuel h _ Hr) as Hf. rewrite length_app in Hf. lia.
Qed.

(** The tiles after a growth by [g] bytes. *)
Definition grow_tiles (g : Z) (bs : list blk) : list blk :=
  match last bs with
  | Some b => if bused b then bs ++ [mk_blk (g - HEADER) false]
              else removelast bs ++ [mk_blk (bsz b + g) false]
  | None => [mk_blk (g - HEADER) false]
  end.

Lemma grow_tiles_snoc g m b : grow_tiles g (m ++ [b]) =
  if bused b then (m ++ [b]) ++ [mk_blk (g - HEADER) false] else m ++ [mk_blk (bsz b + g) false].
Proof. unfold grow_tiles. by rewrite last_snoc, removelast_last. Qed.

Lemma grow_tiles_facts g bs :
  total (grow_tiles g bs) = total bs + g /\ live (grow_tiles g bs) = live bs /\
  used_count (grow_tiles g bs) = used_count bs /\ (coalesced bs = true -> coalesced (grow_tiles g bs) = true) /\
  exists m b, grow_tiles g bs = m ++ [b] /\ bused b = false /\ (Forall good bs -> g - HEADER <= bsz b).
Proof.
  destruct (snoc_cases bs) as [->|(m & b & ->)].
  { unfold grow_tiles. simpl. rewrite total_single. change (total []) with 0. unfold tile. simpl.
    split_and!; try done; [lia|]. eexists [], _. split_and!; [done | done | simpl; lia]. }
  rewrite grow_tiles_snoc. destruct (bused b) eqn:Hb.
  - rewrite !live_app, !used_count_app, !coalesced_app, !total_app, !total_single. simpl. rewrite Hb. unfold tile. simpl.
    split_and!; [lia | by rewrite app_nil_r | lia | |].
    + intros Hc. rewrite Hc. unfold last_used. rewrite last_snoc. by rewrite Hb.
    + eexists _, _. split_and!; [done | done | simpl; lia].
  - rewrite !live_app, !used_count_app, !coalesced_app, !total_app, !total_single. simpl. rewrite Hb. unfold tile. simpl.
    split_and!; [lia | done | lia | done |]. eexists _, _. split_and!; [done | done |].
    intros Hg. apply Forall_app in Hg as (_ & Hg). apply Forall_inv in Hg as (_ & Hg). simpl. unfold ALIGNMENT, HEADER in *. lia.
Qed.

(** What [grow_heap] does to the headers once the pages are there. *)
Definition append_tile (growth old_end : Z) (h : heap) : heap :=
  let last := last_block h in
  if negb (last =? 0) && (state (hdr h last) =? BLOCK_FREE) then
    set_hdr h last (with_size (hdr h last) (size (hdr h last) +! growth))
  else
    let h := set_hdr h old_end (mk_header (growth -! HEADER) last 0 BLOCK_MAGIC BLOCK_FREE) in
    if negb (last =? 0) then set_hdr h last (with_next (hdr h last) old_end)
    else with_first h old_end.

Lemma append_tile_links h bs g :
  heap_rep h bs -> 0 < g -> g mod PMM_PAGE_SIZE = 0 -> total bs + g <= HEAP_MAX_SIZE ->
  links (append_tile g (addr bs) h) (grow_tiles g bs) /\
  first_block (append_tile g (addr bs) h) = link [] (grow_tiles g bs).
Proof.
  intros Hr Hg Hpg Hmax. unfold append_tile. rewrite (last_block_spec h bs Hr).
  pose proof (hr_links _ _ Hr) as Hl. pose proof (lk_good _ _ Hl) as HG. pose proof (total_pos bs HG).
  assert (Hg4 : 4096 <= g) by (unfold PMM_PAGE_SIZE in Hpg; Z.div_mod_to_equations; lia).
  assert (Hsz : g -! HEADER = g - HEADER) by (unfold HEADER, HEAP_MAX_SIZE in *; u64_simpl; done).
  assert (Hgood : good (mk_blk (g - HEADER) false)).
  { split; cbn [bsz]; unfold ALIGNMENT, HEADER, PMM_PAGE_SIZE in *; [Z.div_mod_to_equations; lia | lia]. }
  destruct (snoc_cases bs) as [->|(m & b & ->)].
  { change (last_addr 0 HEAP_BASE []) with 0. cbn [Z.eqb negb andb]. rewrite Hsz. split; [|done]. split.
    - simpl. rewrite lookup_insert_eq. done.
    - by constructor.
    - unfold grow_tiles. simpl. rewrite total_single. unfold tile. simpl. change (total []) with 0 in *. lia. }
  rewrite last_addr_snoc. change (HEAP_BASE + total m) with (addr m).
  rewrite addr_not_null by (by eapply links_good1). cbn [negb andb].
  rewrite (hdr_at h m b [] Hl). cbn [state size]. rewrite bstate_free, grow_tiles_snoc.
  pose proof (links_split h m b [] Hl) as (Hs1 & Hb & _ & Hg1 & Hgb & _ & Ht). pose proof (total_pos m Hg1).
  pose proof (tile_pos b Hgb). rewrite total_app, total_single in Hmax.
  assert (Hfirst : forall x l, first_block h = link [] (m ++ x :: l)).
  { intros x l. rewrite (hr_first _ _ Hr). unfold link. rewrite !bool_decide_false by (by destruct m). done. }
  destruct (bused b) eqn:Eb; cbn [negb].
  - rewrite Hsz, hdr_set_ne by (rewrite addr_app, total_single; lia). rewrite (hdr_at h m b [] Hl).
    split; [|rewrite <- app_assoc; apply Hfirst].
    eapply (links_from h _ m); [exact Hg1 | exact Hs1 | | | | | | by rewrite <- app_assoc].
    + intros x Hx. rewrite !headers_set, !lookup_insert_ne; rewrite ?addr_app, ?total_single; (done || lia).
    + rewrite addr_app, total_single. simpl. rewrite lookup_insert_eq, lookup_insert_ne, lookup_insert_eq by lia. done.
    + done.
    + apply Forall_cons_2; [done|]. by apply Forall_singleton.
    + rewrite total_app, !total_single. unfold tile in *. cbn [bsz]. lia.
  - assert (Hsum : bsz b +! g = bsz b + g) by (unfold tile, HEADER, HEAP_MAX_SIZE in *; u64_simpl; done).
    rewrite Hsum. split; [|apply Hfirst].
    eapply (links_from h _ m); [exact Hg1 | exact Hs1 | | | | | | reflexivity].
    + intros x Hx. rewrite !headers_set, !lookup_insert_ne by lia. done.
    + simpl. rewrite lookup_insert_eq. unfold bstate. by rewrite Eb.
    + done.
    + destruct Hgb. apply Forall_singleton. split; cbn [bsz]; unfold ALIGNMENT, PMM_PAGE_SIZE in *; [Z.div_mod_to_equations; lia | lia].
    + rewrite total_single. unfold tile in *. cbn [bsz]. lia.
Qed.

Lemma append_tile_rest g e h :
  mapped_size (append_tile g e h) = mapped_size h /\ active_allocations (append_tile g e h) = active_allocations h /\
  pages (append_tile g e h) = pages h.
Proof. unfold append_tile. by repeat case_match. Qed.

(** The bytes a growth for [sz] maps. *)
Definition growth_of (sz : Z) : Z :=
  let g := align_up (sz + HEADER) PMM_PAGE_SIZE in if g <? 4 * PMM_PAGE_SIZE then 4 * PMM_PAGE_SIZE else g.

Lemma growth_facts sz : 0 <= sz <= HEAP_MAX_SIZE ->
  growth_of sz mod PMM_PAGE_SIZE = 0 /\ sz + HEADER <= growth_of sz < 2 ^ 32 /\ 0 < growth_of sz.
Proof.
  intros Hsz. unfold HEAP_MAX_SIZE in Hsz.
  destruct (align_up_spec (sz + HEADER) 12) as (H1 & H2); [lia | unfold HEADER; lia | unfold HEADER; lia |].
  unfold growth_of. change PMM_PAGE_SIZE with (2 ^ 12). destruct (Z.ltb_spec (align_up (sz + HEADER) (2 ^ 12)) (4 * 2 ^ 12)).
  - split; [done|]. unfold HEADER in *. lia.
  - split; [done|]. unfold HEADER in *. lia.
Qed.

Lemma grow_heap_eq sz h bs : heap_rep h bs -> 0 <= sz <= HEAP_MAX_SIZE ->
  grow_heap sz h =
  if HEAP_MAX_SIZE - total bs <? growth_of sz then (false, h)
  else let '(ok, p) := supply (addr bs) (growth_of sz / PMM_PAGE_SIZE) (pages h) in
    if ok then (true, with_mapped (append_tile (growth_of sz) (addr bs) (with_pages h p)) (total bs + growth_of sz))
    else (false, with_pages h p).
Proof.
  intros Hr Hsz. destruct (growth_facts sz Hsz) as (_ & Hg & _). pose proof (lk_total _ _ (hr_links _ _ Hr)) as Hmax.
  pose proof (total_pos bs (lk_good _ _ (hr_links _ _ Hr))) as Hpos. unfold grow_heap.
  assert (E1 : sz +! HEADER = sz + HEADER) by (unfold HEADER, HEAP_MAX_SIZE in *; u64_simpl; done).
  assert (E2 : HEAP_GROW_PAGES *! PMM_PAGE_SIZE = 4 * PMM_PAGE_SIZE) by done.
  rewrite E1, E2. fold (growth_of sz). rewrite (hr_mapped _ _ Hr).
  assert (E3 : HEAP_MAX_SIZE -! total bs = HEAP_MAX_SIZE - total bs) by (unfold HEAP_MAX_SIZE in *; u64_simpl; done).
  assert (E4 : HEAP_BASE +! total bs = addr bs) by (unfold addr, HEAP_BASE, HEAP_MAX_SIZE in *; u64_simpl; done).
  rewrite E3, E4. destruct (Z.ltb_spec (HEAP_MAX_SIZE - total bs) (growth_of sz)); [done|].
  change (let g := align_up (sz + HEADER) PMM_PAGE_SIZE in if g <? 4 * PMM_PAGE_SIZE then 4 * PMM_PAGE_SIZE else g) with (growth_of sz).
  destruct (supply _ _ (pages h)) as [ok p]. destruct ok; cbn [negb]; [|done]. do 2 f_equal.
  fold (append_tile (growth_of sz) (addr bs) (with_pages h p)).
  destruct (append_tile_rest (growth_of sz) (addr bs) (with_pages h p)) as (-> & _). cbn [mapped_size with_pages].
  rewrite (hr_mapped _ _ Hr). unfold HEAP_MAX_SIZE, HEADER in *. u64_simpl. done.
Qed.

Lemma heap_rep_pages h bs p :
  heap_rep h bs -> supply_wf p -> (forall va, is_mapped (pages h) va -> is_mapped p va) -> heap_rep (with_pages h p) bs.
Proof. intros [? ? ? ? ? ? ? Hp] Hwf Hk. split; [by apply (links_headers h) | done | done | done | done | done | done |]. intros i Hi Hlt. cbn [pages with_pages]. by apply Hk, Hp. Qed.

Lemma grow_heap_spec sz h bs :
  heap_rep h bs -> 0 <= sz <= HEAP_MAX_SIZE ->
  let '(ok, h') := grow_heap sz h in
  if ok then heap_rep h' (grow_tiles (growth_of sz) bs) else heap_rep h' bs.
Proof.
  intros Hr Hsz. rewrite (grow_heap_eq sz h bs Hr Hsz). destruct (growth_facts sz Hsz) as (Hgp & Hg & Hg0).
  destruct (Z.ltb_spec (HEAP_MAX_SIZE - total bs) (growth_of sz)) as [|Hfit]; [done|].
  pose proof (total_pos bs (lk_good _ _ (hr_links _ _ Hr))) as Hpos. pose proof (hr_whole _ _ Hr) as Hw.
  assert (Hn : growth_of sz / PMM_PAGE_SIZE * PMM_PAGE_SIZE = growth_of sz) by (unfold PMM_PAGE_SIZE in *; Z.div_mod_to_equations; lia).
  pose proof (supply_spec (addr bs) (growth_of sz / PMM_PAGE_SIZE) (pages h) (hr_supply _ _ Hr)) as Hs.
  destruct (supply (addr bs) _ (pages h)) as [ok p]. rewrite Hn in Hs.
  destruct Hs as (Hwf & Hkeep & Hnew).
  { unfold addr, HEAP_BASE. lia. } { apply Z.div_pos; unfold PMM_PAGE_SIZE; lia. }
  { unfold addr, HEAP_BASE, HEAP_MAX_SIZE in *. lia. }
  pose proof (heap_rep_pages h bs p Hr Hwf Hkeep) as Hr'. destruct ok; [|done].
  destruct (append_tile_links _ bs (growth_of sz) Hr' Hg0 Hgp) as (Hl & Hf); [lia|].
  destruct (append_tile_rest (growth_of sz) (addr bs) (with_pages h p)) as (_ & Ea & Ep).
  destruct (grow_tiles_facts (growth_of sz) bs) as (Ht & _ & Hu & Hc & _). split.
  - by eapply links_headers; [|exact Hl].
  - done.
  - by rewrite Ht.
  - rewrite Ht. unfold PMM_PAGE_SIZE in *. Z.div_mod_to_equations. lia.
  - apply Hc, (hr_coalesced _ _ Hr).
  - cbn [active_allocations with_mapped]. rewrite Ea, Hu. apply (hr_active _ _ Hr).
  - cbn [pages with_mapped]. rewrite Ep. done.
  - intros i Hi Hlt. cbn [pages with_mapped]. rewrite Ep. cbn [pages with_pages]. rewrite Ht in Hlt.
    destruct (Z_lt_le_dec (i * PMM_PAGE_SIZE) (total bs)); [by apply Hkeep, (hr_pages _ _ Hr)|].
    set (k := total bs / PMM_PAGE_SIZE). assert (total bs = k * PMM_PAGE_SIZE) as Hk.
    { unfold k, PMM_PAGE_SIZE in *. Z.div_mod_to_equations. lia. }
    replace (HEAP_BASE + i * PMM_PAGE_SIZE) with (addr bs + (i - k) * PMM_PAGE_SIZE) by (unfold addr; lia).
    apply Hnew; [done|]. unfold PMM_PAGE_SIZE in *. lia.
Qed.

(** *** Allocation *)

Definition alloc_tiles (b : blk) (sz : Z) : list blk :=
  if bsz b <? sz + HEADER + ALIGNMENT then [mk_blk (bsz b) true]
  else [mk_blk sz true; mk_blk (bsz b - sz - HEADER) false].

Definition alloc_size (b : blk) (sz : Z) : Z := if bsz b <? sz + HEADER + ALIGNMENT then bsz b else sz.

(** What [kmalloc] does with the block it found. *)
Definition take_block (block sz : Z) (h : heap) : heap :=
  let h := split_block block sz h in
  let h := set_hdr h block (with_state (hdr h block) BLOCK_USED) in
  with_active h (active_allocations h +! 1).

Lemma alloc_tiles_facts l1 b l2 sz : bused b = false ->
  total (l1 ++ alloc_tiles b sz ++ l2) = total (l1 ++ b :: l2) /\
  used_count (l1 ++ alloc_tiles b sz ++ l2) = used_count (l1 ++ b :: l2) + 1 /\
  (coalesced (l1 ++ b :: l2) = true -> coalesced (l1 ++ alloc_tiles b sz ++ l2) = true) /\
  live (l1 ++ b :: l2) = live l1 ++ live_from (addr l1 + tile b) l2 /\
  live (l1 ++ alloc_tiles b sz ++ l2) =
    live l1 ++ (addr l1 + HEADER, alloc_size b sz) :: live_from (addr l1 + tile b) l2.
Proof.
  intros Hb. unfold alloc_tiles, alloc_size. destruct (bsz b <? _); cbn [app].
  - rewrite !total_app, !used_count_app, !coalesced_app, !total_cons, !live_app. cbn [live_from bused bsz app]. rewrite Hb.
    unfold tile. simpl. rewrite Hb. split_and!; [lia | lia | | done | done].
    intros Hc. rewrite !andb_true_iff in *. by destruct Hc as ((-> & _ & ->) & _); rewrite orb_true_r.
  - rewrite !total_app, !used_count_app, !coalesced_app, !total_cons, !live_app. cbn [live_from bused bsz app].
    unfold tile. simpl. rewrite Hb. split_and!; [lia | lia | | done |].
    + intros Hc. rewrite !andb_true_iff in *. destruct Hc as ((-> & Hh & ->) & _). simpl in Hh. by rewrite Hh, orb_true_r.
    + do 3 f_equal. lia.
Qed.

Lemma take_block_rep h l1 b l2 sz :
  heap_rep h (l1 ++ b :: l2) -> bused b = false -> sz mod ALIGNMENT = 0 -> ALIGNMENT <= sz <= bsz b ->
  heap_rep (take_block (addr l1) sz h) (l1 ++ alloc_tiles b sz ++ l2).
Proof.
  intros Hr Hb Hal Hsz. pose proof (split_block_links h l1 b l2 sz (hr_links _ _ Hr) Hal Hsz) as Hl.
  destruct (split_rest (addr l1) sz h) as (Ef & Em & Ea & Ep).
  destruct (alloc_tiles_facts l1 b l2 sz Hb) as (Ht & Hu & Hc & _).
  assert (Hl' : exists c r, split_tiles b sz = c :: r /\ alloc_tiles b sz = mk_blk (bsz c) true :: r).
  { unfold split_tiles, alloc_tiles. destruct (bsz b <? _); by eexists _, _. }
  destruct Hl' as (c & r & E1 & E2). rewrite E1 in Hl. cbn [app] in Hl.
  apply (links_set_state _ _ _ _ true) in Hl. unfold take_block. split; cbn [with_active mapped_size first_block pages set_hdr].
  - rewrite E2. by eapply links_headers; [|exact Hl].
  - rewrite Ef, (hr_first _ _ Hr), E2. unfold link. by rewrite !bool_decide_false by (by destruct l1).
  - rewrite Em, Ht. apply (hr_mapped _ _ Hr).
  - rewrite Ht. apply (hr_whole _ _ Hr).
  - apply Hc, (hr_coalesced _ _ Hr).
  - cbn [active_allocations with_active set_hdr]. rewrite Ea, Hu, (hr_active _ _ Hr).
    pose proof (used_count_range (l1 ++ b :: l2)). pose proof (total_length _ (lk_good _ _ (hr_links _ _ Hr))).
    pose proof (lk_total _ _ (hr_links _ _ Hr)). unfold HEAP_MAX_SIZE in *. u64_simpl. done.
  - rewrite Ep. apply (hr_supply _ _ Hr).
  - rewrite Ep, Ht. apply (hr_pages _ _ Hr).
Qed.

(** [new] is [old] with one more payload of at least [sz] bytes at [p]. *)
Definition one_more (p sz : Z) (old new : list (Z * Z)) : Prop :=
  exists l1 n l2, old = l1 ++ l2 /\ new = l1 ++ (p, n) :: l2 /\ sz <= n.

Lemma take_block_live h l1 b l2 sz :
  heap_rep h (l1 ++ b :: l2) -> bused b = false -> sz mod ALIGNMENT = 0 -> ALIGNMENT <= sz <= bsz b ->
  exists bs', heap_rep (take_block (addr l1) sz h) bs' /\
    one_more (addr l1 + HEADER) sz (live (l1 ++ b :: l2)) (live bs').
Proof.
  intros Hr Hb Hal Hsz. exists (l1 ++ alloc_tiles b sz ++ l2). split; [by apply take_block_rep|].
  destruct (alloc_tiles_facts l1 b l2 sz Hb) as (_ & _ & _ & -> & ->).
  eexists _, _, _. split_and!; [done | done |]. unfold alloc_size. case_match; lia.
Qed.

Lemma scan_spec h bs sz : heap_rep h bs ->
  let block := find_free (walk_fuel h) h (first_block h) sz in
  (block = 0 /\ Forall (unfit sz) bs) \/
  exists l1 b l2, bs = l1 ++ b :: l2 /\ Forall (unfit sz) l1 /\ bused b = false /\ sz <= bsz b /\
    block = addr l1 /\ (block =? 0) = false /\ block +! HEADER = addr l1 + HEADER.
Proof.
  intros Hr block. unfold block. rewrite (hr_first _ _ Hr). pose proof (hr_links _ _ Hr) as Hl.
  destruct (find_free_spec h [] bs sz (walk_fuel h) Hl (heap_fuel _ _ Hr)) as [?|(m & b & r & -> & Hm & Hb & Hsz & ->)]; [by left|].
  right. exists m, b, r. pose proof (links_split h m b r Hl) as (_ & _ & _ & Hg & Hgb & Hg2 & Ht).
  pose proof (total_pos m Hg). pose proof (total_pos r Hg2). pose proof (tile_pos b Hgb).
  split_and!; try done; [by apply addr_not_null|]. cbn [app]. unfold addr, HEADER, HEAP_BASE, HEAP_MAX_SIZE in *. by u64_simpl.
Qed.

Lemma kmalloc_loop_S n sz h :
  kmalloc_loop (S n) sz h =
  let block := find_free (walk_fuel h) h (first_block h) sz in
  if negb (block =? 0) then (block +! HEADER, take_block block sz h)
  else let '(ok, h) := grow_heap sz h in if ok then kmalloc_loop n sz h else (0, h).
Proof. done. Qed.

(** A scan that finds a block, with any number of further rounds. *)
Lemma loop_hit n sz h bs :
  heap_rep h bs -> sz mod ALIGNMENT = 0 -> ALIGNMENT <= sz -> ~ Forall (unfit sz) bs ->
  let '(p, h') := kmalloc_loop (S n) sz h in
  p <> 0 /\ exists bs', heap_rep h' bs' /\ mapped_size h' = mapped_size h /\ one_more p sz (live bs) (live bs').
Proof.
  intros Hr Hal Hsz Hfit. rewrite kmalloc_loop_S.
  destruct (scan_spec h bs sz Hr) as [(_ & Hno)|(l1 & b & l2 & -> & _ & Hb & Hle & Hblk & Hnz & Hp)]; [done|].
  cbv zeta. rewrite Hnz, Hp, Hblk. cbn [negb].
  destruct (take_block_live h l1 b l2 sz Hr Hb Hal) as (bs' & Hr' & Hl); [done|]. split.
  - pose proof (links_split h l1 b l2 (hr_links _ _ Hr)) as (_ & _ & _ & Hg & _). pose proof (total_pos l1 Hg).
    unfold addr, HEAP_BASE, HEADER. lia.
  - exists bs'. split_and!; [done | | done]. apply (split_rest (addr l1) sz h).
Qed.

Lemma loop_spec n sz h bs :
  heap_rep h bs -> sz mod ALIGNMENT = 0 -> ALIGNMENT <= sz <= HEAP_MAX_SIZE ->
  let '(p, h') := kmalloc_loop (S (S n)) sz h in
  exists bs', heap_rep h' bs' /\ mapped_size h <= mapped_size h' /\
  ((p <> 0 /\ one_more p sz (live bs) (live bs')) \/
   (p = 0 /\ bs' = bs /\ Forall (unfit sz) bs /\ fst (grow_heap sz h) = false)).
Proof.
  intros Hr Hal Hsz. assert (0 <= sz <= HEAP_MAX_SIZE) as Hsz' by (unfold ALIGNMENT in *; lia).
  destruct (scan_spec h bs sz Hr) as [(Hz & Hno)|(l1 & b & l2 & Ebs & _ & Hb & Hle & _)].
  - rewrite kmalloc_loop_S. cbv zeta. rewrite Hz. cbn [Z.eqb negb].
    pose proof (grow_heap_spec sz h bs Hr Hsz') as Hg. pose proof (hr_mapped _ _ Hr) as Hm.
    destruct (grow_heap sz h) as [ok h1]. destruct ok.
    + destruct (grow_tiles_facts (growth_of sz) bs) as (Ht & Hlive & _ & _ & m & b & Eg & Hb & Hbig).
      specialize (Hbig (lk_good _ _ (hr_links _ _ Hr))). destruct (growth_facts sz Hsz') as (_ & Hgr & _).
      pose proof (loop_hit n sz h1 _ Hg Hal ltac:(lia)) as Hhit. destruct (kmalloc_loop (S n) sz h1) as [p h2].
      destruct Hhit as (Hp & bs' & Hr2 & Hm2 & Hl2).
      { rewrite Eg. intros HF. apply Forall_app in HF as (_ & HF). apply Forall_inv in HF as [HF|HF]; [congruence | lia]. }
      exists bs'. split_and!; [done | | left; by rewrite <- Hlive].
      rewrite Hm2, (hr_mapped _ _ Hg), Ht, Hm. unfold HEADER, ALIGNMENT in *. lia.
    + exists bs. pose proof (hr_mapped _ _ Hg). split_and!; [done | lia | right; by split_and!].
  - pose proof (loop_hit (S n) sz h bs Hr Hal ltac:(lia)) as Hhit. destruct (kmalloc_loop (S (S n)) sz h) as [p h2].
    destruct Hhit as (Hp & bs' & Hr2 & Hm2 & Hl2).
    { rewrite Ebs. intros HF. apply Forall_app in HF as (_ & HF). apply Forall_inv in HF as [HF|HF]; [congruence | lia]. }
    exists bs'. split_and!; [done | lia | by left].
Qed.

(** The [for (;;)] of [kmalloc] ends: a scan, one growth and a second scan
    are all it ever does, since a block that fits is there after the growth. *)
Theorem kmalloc_rounds n sz h bs :
  heap_rep h bs -> sz mod ALIGNMENT = 0 -> ALIGNMENT <= sz <= HEAP_MAX_SIZE ->
  kmalloc_loop (2 + n) sz h = kmalloc_loop 2 sz h.
Proof.
  intros Hr Hal Hsz. cbn [Nat.add]. rewrite !kmalloc_loop_S. cbv zeta. case_match; [done|].
  pose proof (grow_heap_spec sz h bs Hr ltac:(unfold ALIGNMENT in *; lia)) as Hg.
  destruct (grow_heap sz h) as [ok h1]. destruct ok; [|done]. rewrite !kmalloc_loop_S. cbv zeta.
  destruct (scan_spec h1 _ sz Hg) as [(_ & HF)|(l1 & b & l2 & _ & _ & _ & _ & _ & -> & _)]; [|done]. exfalso.
  destruct (grow_tiles_facts (growth_of sz) bs) as (_ & _ & _ & _ & m & b & Eg & Hb & Hbig).
  specialize (Hbig (lk_good _ _ (hr_links _ _ Hr))). rewrite Eg in HF.
  destruct (growth_facts sz ltac:(unfold ALIGNMENT in *; lia)) as (_ & Hgr & _).
  apply Forall_app in HF as (_ & HF). apply Forall_inv in HF as [HF|HF]; [congruence | lia].
Qed.

Lemma kmalloc_align sz : 0 < sz <= HEAP_MAX_SIZE - HEADER ->
  align_up sz ALIGNMENT mod ALIGNMENT = 0 /\ ALIGNMENT <= align_up sz ALIGNMENT <= HEAP_MAX_SIZE /\
  sz <= align_up sz ALIGNMENT.
Proof.
  unfold HEAP_MAX_SIZE, HEADER. intros Hsz. change ALIGNMENT with (2 ^ 4).
  destruct (align_up_spec sz 4) as (H1 & H2); [lia | lia | lia |]. split_and!; try done; try lia.
  Z.div_mod_to_equations. lia.
Qed.

(** A pointer adds one payload of at least the bytes asked for and moves no
    other; NULL leaves the allocations alone. *)
Lemma kmalloc_spec sz h bs :
  heap_rep h bs -> is_u64 sz ->
  let '(p, h') := kmalloc sz h in
  exists bs', heap_rep h' bs' /\ extents_ok HEAP_BASE (HEAP_BASE + mapped_size h') (live bs') /\
  mapped_size h <= mapped_size h' /\
  ((p <> 0 /\ one_more p sz (live bs) (live bs')) \/
   (p = 0 /\ live bs' = live bs /\
    (sz = 0 \/ HEAP_MAX_SIZE - HEADER < sz \/
     (Forall (unfit (align_up sz ALIGNMENT)) bs /\ fst (grow_heap (align_up sz ALIGNMENT) h) = false)))).
Proof.
  intros Hr Hsz. unfold kmalloc. destruct ((sz =? 0) || (HEAP_MAX_SIZE - HEADER <? sz)) eqn:E.
  - exists bs. split_and!; [done | by apply heap_extents | lia |]. right. split_and!; [done | done |].
    apply orb_true_iff in E as [E|E]; bool_prop; [by left | right; left; lia].
  - apply orb_false_iff in E as (E1 & E2). bool_prop. unfold is_u64 in Hsz.
    destruct (kmalloc_align sz) as (Hal & Hrange & Hge); [lia|].
    pose proof (loop_spec 0 _ h bs Hr Hal Hrange) as Hl. destruct (kmalloc_loop 2 _ h) as [p h'].
    destruct Hl as (bs' & Hr' & Hm & Hres). exists bs'. split_and!; [done | by apply heap_extents | done |].
    destruct Hres as [(Hp & l1 & n & l2 & ? & ? & ?)|(Hp & -> & HF & Hg)].
    + left. split; [done|]. exists l1, n, l2. split_and!; try done. lia.
    + right. split_and!; [done | done |]. right. right. done.
Qed.

(** *** Release *)

(** What [kfree] does with the block it found. *)
Definition release (block : Z) (h : heap) : heap :=
  let h := set_hdr h block (with_state (hdr h block) BLOCK_FREE) in
  let h := with_active h (active_allocations h -! 1) in
  let h := merge_with_next block h in
  let before := previous (hdr h block) in
  if negb (before =? 0) && (state (hdr h before) =? BLOCK_FREE) then merge_with_next before h else h.

(** The tiles after the release of [b]. *)
Definition free_tiles (l1 : list blk) (b : blk) (l2 : list blk) : list blk :=
  let r := merge_tiles (mk_blk (bsz b) false) l2 in
  match last l1 with
  | Some c => if bused c then l1 ++ r else removelast l1 ++ merge_tiles c r
  | None => r
  end.

Lemma free_tiles_snoc m c b l2 : free_tiles (m ++ [c]) b l2 =
  if bused c then (m ++ [c]) ++ merge_tiles (mk_blk (bsz b) false) l2
  else m ++ merge_tiles c (merge_tiles (mk_blk (bsz b) false) l2).
Proof. unfold free_tiles. by rewrite last_snoc, removelast_last. Qed.

Lemma free_tiles_facts l1 b l2 : bused b = true ->
  total (free_tiles l1 b l2) = total (l1 ++ b :: l2) /\
  used_count (free_tiles l1 b l2) = used_count (l1 ++ b :: l2) - 1 /\
  (coalesced (l1 ++ b :: l2) = true -> coalesced (free_tiles l1 b l2) = true) /\
  live (free_tiles l1 b l2) = live l1 ++ live_from (addr l1 + tile b) l2.
Proof.
  intros Hb. set (b' := mk_blk (bsz b) false).
  assert (Hco : coalesced (l1 ++ b :: l2) = true -> coalesced (merge_tiles b' l2) = true).
  { intros Hc. rewrite coalesced_app in Hc. rewrite !andb_true_iff in Hc. destruct Hc as ((_ & Hc) & _).
    simpl in Hc. rewrite andb_true_iff in Hc. apply coalesced_merge, Hc. }
  assert (Hl2 : forall a, live_from a (merge_tiles b' l2) = live_from (a + tile b) l2) by (intros a; by rewrite live_merge).
  destruct (snoc_cases l1) as [->|(m & c & ->)].
  { unfold free_tiles. fold b'. simpl. rewrite total_merge, used_merge, !total_cons. simpl. rewrite Hb.
    split_and!; [done | lia | intros Hc; apply Hco; simpl; by rewrite Hb |]. unfold live. rewrite Hl2. unfold addr. change (total []) with 0. by rewrite Z.add_0_r. }
  rewrite free_tiles_snoc. fold b'. destruct (bused c) eqn:Hc.
  - rewrite !total_app, !used_count_app, !live_app, total_merge, used_merge, !total_cons. simpl. rewrite Hb, Hl2.
    split_and!; [done | lia | | done]. intros H0. rewrite coalesced_app, (Hco H0). rewrite coalesced_app in H0.
    rewrite !andb_true_iff in H0. destruct H0 as ((-> & _) & _). unfold last_used. by rewrite last_snoc, Hc.
  - rewrite !total_app, !used_count_app, !live_app, !total_merge, !used_merge, !used_count_cons, used_merge, used_count_cons.
    rewrite !total_single, !total_cons, total_merge, total_cons, Hb, Hc. cbn [bused b'].
    split_and!; [unfold tile, b'; cbn [bsz]; lia | change (used_count []) with 0; lia | |].
    + intros H0. pose proof (Hco H0) as H1. rewrite <- app_assoc, coalesced_app in H0. rewrite !andb_true_iff in H0.
      destruct H0 as ((H2 & _) & H3). rewrite coalesced_app, H2, head_merge. simpl in H3. rewrite H3.
      rewrite coalesced_merge by done. done.
    + rewrite live_merge by done. cbn [live_from]. rewrite Hc, Hl2, app_nil_r. cbn [app].
      by rewrite addr_app, total_single.
Qed.

Lemma release_links h l1 b l2 : links h (l1 ++ b :: l2) -> links (release (addr l1) h) (free_tiles l1 b l2).
Proof.
  intros Hl. apply (links_set_state _ _ _ _ false) in Hl. unfold release.
  set (h1 := set_hdr h (addr l1) _) in *.
  apply (links_headers _ (with_active h1 (active_allocations h1 -! 1))) in Hl; [|done].
  set (h2 := with_active h1 _) in *. apply merge_links in Hl. set (b' := mk_blk (bsz b) false) in *.
  set (h3 := merge_with_next (addr l1) h2) in *.
  assert (Hr : exists d r, merge_tiles b' l2 = d :: r).
  { unfold merge_tiles. destruct l2 as [|c l2]; [by eexists _, _|]. destruct (bused c); by eexists _, _. }
  destruct Hr as (d & r & Er). rewrite Er in Hl. rewrite (hdr_at h3 l1 d r Hl). cbn [previous].
  destruct (snoc_cases l1) as [->|(m & c & ->)].
  { cbn [last_addr Z.eqb negb andb]. unfold free_tiles. simpl. fold b'. by rewrite Er. }
  rewrite last_addr_snoc. change (HEAP_BASE + total m) with (addr m).
  rewrite <- app_assoc in Hl. cbn [app] in Hl. rewrite addr_not_null by (by eapply links_good1). cbn [negb andb].
  rewrite (hdr_at h3 m c (d :: r) Hl). cbn [state]. rewrite bstate_free, free_tiles_snoc. fold b'. rewrite Er.
  destruct (bused c); cbn [negb].
  - by rewrite <- app_assoc.
  - by apply merge_links.
Qed.

Lemma release_rest block h : let h' := release block h in
  first_block h' = first_block h /\ mapped_size h' = mapped_size h /\
  active_allocations h' = active_allocations h -! 1 /\ pages h' = pages h.
Proof.
  cbv zeta. unfold release. set (h1 := set_hdr h block _). set (h2 := with_active h1 _).
  destruct (merge_rest block h2) as (E1 & E2 & E3 & E4). set (h3 := merge_with_next block h2) in *.
  case_match; [|done]. destruct (merge_rest (previous (hdr h3 block)) h3) as (F1 & F2 & F3 & F4).
  by rewrite F1, F2, F3, F4.
Qed.

Lemma release_rep h l1 b l2 : heap_rep h (l1 ++ b :: l2) -> bused b = true ->
  heap_rep (release (addr l1) h) (free_tiles l1 b l2).
Proof.
  intros Hr Hb. destruct (release_rest (addr l1) h) as (Ef & Em & Ea & Ep).
  destruct (free_tiles_facts l1 b l2 Hb) as (Ht & Hu & Hc & _). split.
  - by apply release_links, (hr_links _ _ Hr).
  - rewrite Ef, (hr_first _ _ Hr). unfold link. rewrite bool_decide_false by (by destruct l1).
    rewrite bool_decide_false; [done|]. intros E. rewrite E in Ht. change (total []) with 0 in Ht.
    pose proof (lk_good _ _ (hr_links _ _ Hr)) as Hg. apply total_length in Hg. unfold alen in Hg. rewrite length_app in Hg. simpl in Hg. lia.
  - rewrite Em, Ht. apply (hr_mapped _ _ Hr).
  - rewrite Ht. apply (hr_whole _ _ Hr).
  - apply Hc, (hr_coalesced _ _ Hr).
  - rewrite Ea, Hu, (hr_active _ _ Hr). rewrite used_count_app. simpl. rewrite Hb.
    pose proof (used_count_range l1). pose proof (used_count_range l2).
    pose proof (total_length _ (lk_good _ _ (hr_links _ _ Hr))) as Hlen. pose proof (lk_total _ _ (hr_links _ _ Hr)).
    unfold alen, HEAP_MAX_SIZE in *. rewrite length_app in Hlen. simpl in Hlen. u64_simpl. done.
  - rewrite Ep. apply (hr_supply _ _ Hr).
  - rewrite Ep, Ht. apply (hr_pages _ _ Hr).
Qed.

Lemma live_elem p n a bs : (p, n) ∈ live_from a bs ->
  exists m b r, bs = m ++ b :: r /\ bused b = true /\ p = a + total m + HEADER /\ n = bsz b.
Proof.
  revert a. induction bs as [|b bs IH]; intros a Hin; [by apply elem_of_nil in Hin|]. simpl in Hin.
  apply elem_of_app in Hin as [Hin|Hin].
  - destruct (bused b) eqn:Hb; [|by apply elem_of_nil in Hin]. apply list_elem_of_singleton in Hin. injection Hin as -> ->.
    exists [], b, bs. change (total []) with 0. split_and!; try done. lia.
  - destruct (IH _ Hin) as (m & c & r & -> & Hc & -> & ->). exists (b :: m), c, r. rewrite total_cons. split_and!; try done. lia.
Qed.

(** A tile is known by its offset. *)
Lemma tiles_inj m b r m' b' r' :
  Forall good (m ++ b :: r) -> m ++ b :: r = m' ++ b' :: r' -> total m = total m' -> m = m'.
Proof.
  revert m'. induction m as [|c m IH]; intros [|c' m'] Hg E Ht; simplify_list_eq.
  - done.
  - rewrite total_cons in Ht. change (total []) with 0 in Ht. apply Forall_cons in Hg as (Hc & Hg).
    apply Forall_app in Hg as (Hg & _). pose proof (tile_pos _ Hc). pose proof (total_pos _ Hg). lia.
  - rewrite total_cons in Ht. change (total []) with 0 in Ht. apply Forall_cons in Hg as (Hc & Hg).
    apply Forall_app in Hg as (Hg & _). pose proof (tile_pos _ Hc). pose proof (total_pos _ Hg). lia.
  - f_equal. apply (IH m'); [by apply Forall_cons in Hg as (_ & ?) | done |]. rewrite !total_cons in Ht. lia.
Qed.

(** [kfree] gives back the allocation it is called on; every other pointer is
    refused with the heap unchanged. *)
Lemma kfree_spec pointer h bs :
  heap_rep h bs ->
  let '(ok, h') := kfree pointer h in
  if ok then exists bs' l1 n l2, heap_rep h' bs' /\ mapped_size h' = mapped_size h /\
    live bs = l1 ++ (pointer, n) :: l2 /\ live bs' = l1 ++ l2
  else h' = h /\ forall n, (pointer, n) ∉ live bs.
Proof.
  intros Hr. pose proof (hr_links _ _ Hr) as Hl. unfold kfree.
  assert (Hout : forall n, (pointer, n) ∈ live bs -> pointer <> 0 /\ HEAP_BASE + HEADER <= pointer < HEAP_BASE + mapped_size h /\
    pointer mod ALIGNMENT = 0).
  { intros n Hin. destruct (heap_extents h bs Hr) as (HF & _). rewrite Forall_forall in HF. specialize (HF _ Hin). simpl in HF.
    unfold HEAP_BASE, HEADER, ALIGNMENT in *. lia. }
  assert (Hw : HEAP_BASE +! HEADER = HEAP_BASE + HEADER /\ HEAP_BASE +! mapped_size h = HEAP_BASE + mapped_size h).
  { pose proof (lk_total _ _ Hl). pose proof (total_pos bs (lk_good _ _ Hl)). rewrite (hr_mapped _ _ Hr).
    unfold HEAP_BASE, HEADER, HEAP_MAX_SIZE in *. u64_simpl. done. }
  destruct Hw as (-> & ->). destruct (Z.eqb_spec pointer 0) as [->|Hnz].
  { split; [done|]. intros n Hin. destruct (Hout n Hin). done. }
  destruct (_ || _ || _) eqn:E.
  { split; [done|]. intros n Hin. destruct (Hout n Hin) as (_ & H1 & H2). rewrite H2 in E. simpl in E.
    rewrite !orb_true_iff in E. destruct E as [[E|E]|E]; bool_prop; (done || lia). }
  unfold find_block_for_pointer. rewrite (hr_first _ _ Hr).
  destruct (find_pointer_spec h [] bs pointer (walk_fuel h) Hl (heap_fuel _ _ Hr)) as [(-> & Hno)|(m & b & r & -> & -> & ->)].
  { split; [done|]. intros n Hin. apply live_elem in Hin as (m & b & r & -> & _ & -> & _). by apply (Hno m b r). }
  cbn [app]. rewrite addr_not_null by (by eapply links_good1). fold (release (addr m) h).
  assert (Hst : state (hdr h (addr m)) = bstate b) by (by rewrite (hdr_at h m b r Hl)). rewrite Hst.
  unfold bstate. destruct (bused b) eqn:Hb; cbn [orb Z.eqb negb BLOCK_USED BLOCK_FREE].
  - exists (free_tiles m b r), (live m), (bsz b), (live_from (addr m + tile b) r).
    destruct (free_tiles_facts m b r Hb) as (_ & _ & _ & Hlive). split_and!; [by apply release_rep | | | done].
    + apply (release_rest (addr m) h).
    + rewrite live_app. cbn [live_from]. by rewrite Hb.
  - split; [done|]. intros n Hin. apply live_elem in Hin as (m' & b' & r' & E' & Hb' & Ha & _).
    assert (Ht : total m = total m') by (unfold addr in Ha; lia).
    assert (m = m') as <-; [|simplify_list_eq; congruence]. clear - E' Ht Hl.
    apply lk_good in Hl. by apply (tiles_inj m b r m' b' r').
Qed.

(** ** The heap as an allocator *)

Inductive heap_op := Malloc (sz : Z) | Free (pointer : Z).

(** One call, with its result: the pointer, or 1 and 0 for success and failure. *)
Definition run_op (op : heap_op) (h : heap) : Z * heap :=
  match op with
  | Malloc sz => kmalloc sz h
  | Free pointer => let '(ok, h) := kfree pointer h in (if ok then 1 else 0, h)
  end.

Fixpoint run_ops (ops : list heap_op) (h : heap) : list Z * heap :=
  match ops with
  | [] => ([], h)
  | op :: ops => let '(r, h) := run_op op h in let '(rs, h) := run_ops ops h in (r :: rs, h)
  end.

(** The contract: a finite set of allocations, listed by address. *)
Inductive spec_step : list (Z * Z) -> heap_op -> Z -> list (Z * Z) -> Prop :=
| spec_malloc l sz p l' : p <> 0 -> one_more p sz l l' -> spec_step l (Malloc sz) p l'
| spec_null l sz : spec_step l (Malloc sz) 0 l
| spec_free l1 p n l2 : spec_step (l1 ++ (p, n) :: l2) (Free p) 1 (l1 ++ l2)
| spec_refuse l p : (forall n, (p, n) ∉ l) -> spec_step l (Free p) 0 l.

Inductive spec_run : list (Z * Z) -> list heap_op -> list Z -> list (Z * Z) -> Prop :=
| spec_nil l : spec_run l [] [] l
| spec_cons l op r l1 ops rs l2 :
    spec_step l op r l1 -> spec_run l1 ops rs l2 -> spec_run l (op :: ops) (r :: rs) l2.

(** The heap before [kmalloc_init]. *)
Definition boot_heap (p : P) : heap := mk_heap ∅ 0 0 0 p.

Lemma boot_rep p : supply_wf p -> heap_rep (boot_heap p) [].
Proof. intros Hp. split; try done. intros i Hi Hlt. change (total []) with 0 in Hlt. unfold PMM_PAGE_SIZE in Hlt. lia. Qed.

Definition op_ok (op : heap_op) : Prop := match op with Malloc sz => is_u64 sz | Free _ => True end.

Lemma run_op_spec op h bs : heap_rep h bs -> op_ok op ->
  let '(r, h') := run_op op h in exists bs', heap_rep h' bs' /\ spec_step (live bs) op r (live bs').
Proof.
  intros Hr Hop. destruct op as [sz|pointer]; cbn [run_op].
  - pose proof (kmalloc_spec sz h bs Hr Hop) as Hk. destruct (kmalloc sz h) as [p h'].
    destruct Hk as (bs' & Hr' & _ & _ & [(Hp & Hm)|(-> & Hlv & _)]); exists bs'; (split; [done|]).
    + by constructor.
    + rewrite Hlv. apply spec_null.
  - pose proof (kfree_spec pointer h bs Hr) as Hk. destruct (kfree pointer h) as [[|] h'].
    + destruct Hk as (bs' & l1 & n & l2 & Hr' & _ & E1 & E2). exists bs'. rewrite E1, E2. split; [done | constructor].
    + destruct Hk as (-> & Hno). exists bs. split; [done | by constructor].
Qed.

Lemma heap_ops_spec ops h bs : heap_rep h bs -> Forall op_ok ops ->
  let '(rs, h') := run_ops ops h in exists bs', heap_rep h' bs' /\ spec_run (live bs) ops rs (live bs').
Proof.
  intros Hr Hops. revert h bs Hr. induction Hops as [|op ops Hop _ IH]; intros h bs Hr; cbn [run_ops].
  { exists bs. split; [done | constructor]. }
  pose proof (run_op_spec op h bs Hr Hop) as H1. destruct (run_op op h) as [r h1]. destruct H1 as (bs1 & Hr1 & Hs1).
  specialize (IH h1 bs1 Hr1). destruct (run_ops ops h1) as [rs h2]. destruct IH as (bs2 & Hr2 & Hs2).
  exists bs2. split; [done | by econstructor].
Qed.

(** With nothing allocated, coalescing leaves one free tile. *)
Lemma nothing_live a bs : coalesced bs = true -> live_from a bs = [] -> bs = [] \/ exists n, bs = [mk_blk n false].
Proof.
  destruct bs as [|b [|c bs]]; intros Hc Hl; [by left | |].
  - right. exists (bsz b). simpl in Hl. destruct b as [n [|]]; done.
  - simpl in *. destruct (bused b); [done|]. simpl in *. by destruct (bused c).
Qed.

(** C18 Every sequence of [kmalloc] and [kfree] calls on a fresh heap answers
    as an allocator of disjoint 16-byte aligned extents does: a pointer stands
    for one new extent of at least the bytes asked for and moves no other,
    [kfree] gives back the extent it is called on and refuses every pointer
    that is not live.  All extents lie in mapped pages.  When all of them have
    been given back, the heap is one free block again. *)
Theorem heap_trace p ops :
  supply_wf p -> Forall op_ok ops ->
  let '(rs, h) := run_ops ops (snd (kmalloc_init (boot_heap p))) in
  exists l, spec_run [] ops rs l /\ extents_ok HEAP_BASE (HEAP_BASE + mapped_size h) l /\
    (forall i, 0 <= i -> i * PMM_PAGE_SIZE < mapped_size h -> is_mapped (pages h) (HEAP_BASE + i * PMM_PAGE_SIZE)) /\
    (l = [] -> mapped_size h <> 0 -> hdr h HEAP_BASE = mk_header (mapped_size h - HEADER) 0 0 BLOCK_MAGIC BLOCK_FREE).
Proof.
  intros Hp Hops. unfold kmalloc_init. pose proof (grow_heap_spec ALIGNMENT _ _ (boot_rep p Hp) ltac:(done)) as Hg.
  destruct (grow_heap ALIGNMENT (boot_heap p)) as [ok h0]. cbn [snd].
  assert (Hr0 : exists bs, heap_rep h0 bs /\ live bs = []).
  { destruct ok; [exists (grow_tiles (growth_of ALIGNMENT) []) | exists []]; split; try done; apply grow_tiles_facts. }
  destruct Hr0 as (bs0 & Hr0 & Hl0). pose proof (heap_ops_spec ops h0 bs0 Hr0 Hops) as Hrun.
  destruct (run_ops ops h0) as [rs h]. destruct Hrun as (bs & Hr & Hs). exists (live bs). rewrite Hl0 in Hs.
  split_and!; [done | by apply heap_extents | |].
  - rewrite (hr_mapped _ _ Hr). apply (hr_pages _ _ Hr).
  - intros Hl Hm. rewrite (hr_mapped _ _ Hr) in *.
    destruct (nothing_live _ _ (hr_coalesced _ _ Hr) Hl) as [->|(n & ->)]; [done|].
    change HEAP_BASE with (addr []). rewrite total_single.
    rewrite (hdr_at h [] _ [] (hr_links _ _ Hr)). unfold tile. cbn [bsz]. by replace (HEADER + n - HEADER) with n by lia.
Qed.

(** [kmalloc] returns NULL exactly for a size of zero or beyond the heap, or
    when no free block fits and the heap cannot grow. *)
Theorem kmalloc_null sz h bs :
  heap_rep h bs -> is_u64 sz ->
  fst (kmalloc sz h) = 0 <->
  sz = 0 \/ HEAP_MAX_SIZE - HEADER < sz \/
  (Forall (unfit (align_up sz ALIGNMENT)) bs /\ fst (grow_heap (align_up sz ALIGNMENT) h) = false).
Proof.
  intros Hr Hsz. pose proof (kmalloc_spec sz h bs Hr Hsz) as Hk. destruct (kmalloc sz h) as [p h'] eqn:E. cbn [fst].
  destruct Hk as (bs' & _ & _ & _ & [(Hp & _)|(-> & _ & Hwhy)]); [|done]. split; [done|]. intros Hwhy. exfalso.
  unfold kmalloc in E. destruct ((sz =? 0) || (HEAP_MAX_SIZE - HEADER <? sz)) eqn:Ez; [by injection E as <- _|].
  apply orb_false_iff in Ez as (Ez1 & Ez2). bool_prop. destruct Hwhy as [?|[?|(HF & Hg)]]; [lia | lia |].
  rewrite kmalloc_loop_S in E. cbv zeta in E.
  destruct (scan_spec h bs (align_up sz ALIGNMENT) Hr) as [(Hz & _)|(l1 & b & l2 & -> & _ & Hb & Hle & _)].
  - rewrite Hz in E. cbn [Z.eqb negb] in E. destruct (grow_heap _ h) as [ok h1]. cbn [fst] in Hg. subst ok. by injection E as <- _.
  - apply Forall_app in HF as (_ & HF). apply Forall_inv in HF as [HF|HF]; [congruence | lia].
Qed.

(** ** Statistics *)

Definition sizes (l : list (Z * Z)) : Z := foldr (fun e n => snd e + n) 0 l.
Definition free_sizes (bs : list blk) : Z := foldr (fun b n => (if bused b then 0 else bsz b) + n) 0 bs.

Lemma count_bytes_spec h l1 l2 fuel used free :
  links h (l1 ++ l2) -> (length l2 < fuel)%nat -> 0 <= used -> 0 <= free -> used + free + total l2 < 2 ^ 64 ->
  count_bytes fuel h (link l1 l2) used free = (used + sizes (live_from (addr l1) l2), free + free_sizes l2).
Proof.
  revert l1 fuel used free. induction l2 as [|b l2 IH]; intros l1 fuel used free Hl Hf Hu Hfr Hmax; (destruct fuel; [lia|]).
  { simpl. by rewrite !Z.add_0_r. }
  cbn [count_bytes]. rewrite link_cons, addr_not_null by (by eapply links_good1). rewrite (hdr_at h l1 b l2 Hl).
  cbn [state size next]. pose proof (links_split h l1 b l2 Hl) as (_ & _ & _ & _ & (_ & Hb) & Hg2 & _).
  pose proof (total_pos l2 Hg2). rewrite total_cons in Hmax. unfold tile, HEADER, ALIGNMENT in *.
  assert (Hl' : links h ((l1 ++ [b]) ++ l2)) by (by rewrite <- app_assoc). simpl in Hf.
  cbn [live_from]. unfold bstate. destruct (bused b) eqn:E; cbn [Z.eqb BLOCK_USED BLOCK_FREE Pos.eqb].
  - u64_simpl. rewrite IH by (done || lia). rewrite addr_app, total_single. simpl. rewrite E. f_equal; lia.
  - u64_simpl. rewrite IH by (done || lia). rewrite addr_app, total_single. simpl. rewrite E. f_equal; lia.
Qed.

Lemma tiles_sum a bs : sizes (live_from a bs) + free_sizes bs + HEADER * alen bs = total bs.
Proof.
  unfold alen. revert a. induction bs as [|b bs IH]; intros a; [done|]. rewrite total_cons, <- (IH (a + tile b)).
  cbn [live_from free_sizes foldr length]. unfold tile, HEADER. fold (free_sizes bs). destruct (bused b); cbn [app].
  - cbn [sizes foldr snd]. fold (sizes (live_from (a + (32 + bsz b)) bs)). lia.
  - lia.
Qed.

Lemma used_count_live a bs : used_count bs = alen (live_from a bs).
Proof.
  unfold alen. revert a. induction bs as [|b bs IH]; intros a; [done|]. rewrite used_count_cons, (IH (a + tile b)).
  simpl. destruct (bused b); simpl; lia.
Qed.

(** [kmalloc_get_stats] reports the bytes of the live payloads, those of the
    free ones and the number of allocations, and with one header per block the
    two sums are all of the mapped bytes. *)
Theorem kmalloc_get_stats_correct h bs :
  heap_rep h bs ->
  let st := kmalloc_get_stats h in
  used_bytes st = sizes (live bs) /\ stats_allocations st = alen (live bs) /\
  used_bytes st + free_bytes st + HEADER * alen bs = mapped_bytes st /\ mapped_bytes st = mapped_size h.
Proof.
  intros Hr. pose proof (hr_links _ _ Hr) as Hl. pose proof (lk_total _ _ Hl). unfold kmalloc_get_stats.
  rewrite (hr_first _ _ Hr), (count_bytes_spec h [] bs); [|done|by apply heap_fuel|done|done|unfold HEAP_MAX_SIZE in *; lia].
  cbn -[Z.add Z.mul]. rewrite !Z.add_0_l. change (live_from (addr []) bs) with (live bs). split_and!; [done | | | done].
  - rewrite (hr_active _ _ Hr). apply used_count_live.
  - rewrite (hr_mapped _ _ Hr). apply tiles_sum.
Qed.

End Heap.
Arguments heap : clear implicits.
Arguments mk_heap {P}.

(** ** What the heap promises to the rest of the kernel

    [alloc_rep a l]: [l] lists the live extents of [a]. *)
Class Allocator (A : Type) := {
  malloc : Z -> A -> Z * A;
  mfree : Z -> A -> bool * A;
  alloc_rep : A -> list (Z * Z) -> Prop;
  malloc_spec : forall sz a l, alloc_rep a l -> is_u64 sz ->
    let '(p, a') := malloc sz a in
    exists l', alloc_rep a' l' /\ ((p <> 0 /\ one_more p sz l l') \/ (p = 0 /\ l' = l));
  mfree_spec : forall p n l1 l2 a, alloc_rep a (l1 ++ (p, n) :: l2) ->
    fst (mfree p a) = true /\ alloc_rep (snd (mfree p a)) (l1 ++ l2);
  alloc_extents : forall a l, alloc_rep a l -> exists lo hi, 0 < lo /\ extents_ok lo hi l;
}.

Lemma extents_unique lo hi l i j p n m :
  extents_ok lo hi l -> l !! i = Some (p, n) -> l !! j = Some (p, m) -> i = j.
Proof.
  intros (HF & HS) Hi Hj. destruct (Nat.lt_total i j) as [Hlt|[Heq|Hlt]]; [exfalso| done |exfalso].
  - pose proof (HS i j _ _ _ _ Hlt Hi Hj). eapply Forall_lookup_1 in HF; [|exact Hi]. unfold ALIGNMENT, HEADER in *. lia.
  - pose proof (HS j i _ _ _ _ Hlt Hj Hi). eapply Forall_lookup_1 in HF; [|exact Hj]. unfold ALIGNMENT, HEADER in *. lia.
Qed.

(** Two live extents with different addresses do not overlap. *)
Lemma extents_disjoint lo hi l p n q m :
  extents_ok lo hi l -> (p, n) ∈ l -> (q, m) ∈ l -> p <> q -> p + n <= q \/ q + m <= p.
Proof.
  intros (HF & HS) Hp Hq Hne. apply list_elem_of_lookup in Hp as (i & Hi). apply list_elem_of_lookup in Hq as (j & Hj).
  unfold HEADER in HS. destruct (Nat.lt_total i j) as [Hlt|[->|Hlt]].
  - left. specialize (HS i j _ _ _ _ Hlt Hi Hj). lia.
  - rewrite Hi in Hj. by simplify_eq.
  - right. specialize (HS j i _ _ _ _ Hlt Hj Hi). lia.
Qed.

#[export] Instance heap_allocator {P} `{PageSupply P} : Allocator (heap P).
Proof.
  refine {| malloc := kmalloc; mfree := kfree; alloc_rep h l := exists bs, heap_rep h bs /\ live bs = l |}.
  - intros sz h l (bs & Hr & <-) Hsz. pose proof (kmalloc_spec sz h bs Hr Hsz) as Hk. destruct (kmalloc sz h) as [p h'].
    destruct Hk as (bs' & Hr' & _ & _ & [(Hp & Hm)|(Hp & Hl & _)]); exists (live bs'); split; eauto.
  - intros p n l1 l2 h (bs & Hr & El). pose proof (kfree_spec p h bs Hr) as Hk. destruct (kfree p h) as [[|] h'].
    + destruct Hk as (bs' & k1 & n' & k2 & Hr' & _ & E1 & E2). split; [done|]. exists bs'. split; [done|].
      pose proof (heap_extents h bs Hr) as Hx. rewrite E2. rewrite E1 in El, Hx.
      assert (length k1 = length l1) as Hlen.
      { apply (extents_unique _ _ _ _ _ p n' n Hx); [by apply list_lookup_middle|]. rewrite El. by apply list_lookup_middle. }
      by apply app_inj_1 in El as (-> & [= _ ->]).
    + destruct Hk as (_ & Hno). exfalso. apply (Hno n). rewrite El. set_solver.
  - intros h l (bs & Hr & <-). exists HEAP_BASE, (HEAP_BASE + mapped_size h). split; [done|]. by apply heap_extents.
Defined.

(** ** On the page tables *)

Definition sample_heap : heap vmm_state := snd (kmalloc_init (boot_heap sample_kernel)).

Lemma sample_heap_rep : heap_rep sample_heap [mk_blk 16352 false].
Proof.
  unfold sample_heap, kmalloc_init.
  pose proof (grow_heap_spec ALIGNMENT _ _ (boot_rep sample_kernel sample_kernel_wf) ltac:(done)) as Hg.
  assert (Hok : fst (grow_heap ALIGNMENT (boot_heap sample_kernel)) = true) by (vm_compute; reflexivity).
  destruct (grow_heap ALIGNMENT (boot_heap sample_kernel)) as [ok h]. cbn [fst snd] in *. by subst ok.
Qed.

Definition sample_ops : list heap_op :=
  [Malloc 100; Malloc 200; Free 0xFFFFD00000000020; Free 0xFFFFD00000000020; Malloc 64; Free 0xFFFFD000000000B0;
   Free 0xFFFFD00000000020].

(** Two allocations, a release, a double one refused, first fit into the hole,
    and everything given back. *)
Lemma heap_trace_witness :
  fst (run_ops sample_ops (snd (kmalloc_init (boot_heap sample_kernel)))) =
    [0xFFFFD00000000020; 0xFFFFD000000000B0; 1; 0; 0xFFFFD00000000020; 1; 1] /\
  exists l, spec_run [] sample_ops (fst (run_ops sample_ops (snd (kmalloc_init (boot_heap sample_kernel))))) l.
Proof.
  split; [vm_compute; reflexivity|].
  pose proof (heap_trace sample_kernel sample_ops sample_kernel_wf) as H.
  destruct (run_ops sample_ops (snd (kmalloc_init (boot_heap sample_kernel)))) as [rs h].
  destruct H as (l & H & _); [by repeat constructor|]. by exists l.
Defined.

Lemma kmalloc_rounds_witness : kmalloc_loop (2 + 5) 20000 sample_heap = kmalloc_loop 2 20000 sample_heap.
Proof. refine (kmalloc_rounds 5 20000 sample_heap _ sample_heap_rep _ _); [reflexivity | by split]. Defined.

Lemma kmalloc_null_witness : fst (kmalloc 100 sample_heap) <> 0.
Proof.
  assert (Hu : is_u64 100) by done. intros H0.
  pose proof (proj1 (kmalloc_null 100 sample_heap _ sample_heap_rep Hu) H0) as H. clear H0.
  destruct H as [H|[H|(H & _)]]; [discriminate | vm_compute in H; discriminate |].
  apply Forall_inv in H as [H|H]; vm_compute in H; discriminate.
Defined.

Lemma kmalloc_get_stats_correct_witness :
  used_bytes (kmalloc_get_stats sample_heap) = sizes (live [mk_blk 16352 false]) /\
  stats_allocations (kmalloc_get_stats sample_heap) = 0.
Proof.
  pose proof (kmalloc_get_stats_correct sample_heap _ sample_heap_rep) as (H1 & H2 & _).
  exact (conj H1 H2).
Defined.

End Kmalloc.
