(* ===== verification/TableTree.v ===== *)
(** * TableTree: a tree of page tables as a value

    [rep level m T] says that the tables from the root of [T] downwards hold
    the entries of [T]; [tpages T] are the pages they lie in.  The walks of
    [VmmSpace] are specified as functions on such trees. *)

From S2P Require Import Prelude Memory Pmm PageTable Vmm.
Import Memory.Memory Pmm.Pmm PageTable.PageTable Vmm.Vmm.

Module TableTree.

(** A table with its entries, each with the tree below it if it has one. *)
#[warnings="-register-all"]
Inductive ptree := PT (page : Z) (slots : list (Z * option ptree)).

Definition troot (T : ptree) : Z := match T with PT t _ => t end.
Definition tslots (T : ptree) : list (Z * option ptree) := match T with PT _ slots => slots end.

Fixpoint tpages (T : ptree) : list Z :=
  match T with PT t slots => t :: flat_map (fun s => match snd s with Some T' => tpages T' | None => [] end) slots end.
Definition slot_pages (s : Z * option ptree) : list Z := match snd s with Some T' => tpages T' | None => [] end.

Lemma tpages_unfold t slots : tpages (PT t slots) = t :: flat_map slot_pages slots.
Proof. done. Qed.

(** The tree below an entry, at a level where there are [below] levels left. *)
Definition slot_rep (below : nat) (sub : ptree -> Prop) (s : Z * option ptree) : Prop :=
  match snd s with
  | None => below = O \/ next (fst s) = None
  | Some T => below <> O /\ next (fst s) = Some (troot T) /\ sub T
  end.

(** The first [w] entries of a table. *)
Definition table_rep (w below : nat) (sub : ptree -> Prop) (m : mem) (T : ptree) : Prop :=
  is_page (troot T) /\ length (tslots T) = w /\
  forall i s, tslots T !! i = Some s -> entry_at m (troot T) (Z.of_nat i) = fst s /\ slot_rep below sub s.

Fixpoint rep (level : nat) (m : mem) (T : ptree) : Prop :=
  match level with
  | O => False
  | S below => table_rep 512 below (rep below m) m T
  end.

(** As [rep], for the first [w] entries of the root only. *)
Definition rep_w (w level : nat) (m : mem) (T : ptree) : Prop :=
  match level with
  | O => False
  | S below => (w <= 512)%nat /\ table_rep w below (rep below m) m T
  end.

Lemma rep_full level m T : rep level m T <-> rep_w 512 level m T.
Proof. destruct level; [done|]. split; [intros H; by split | by intros (_ & H)]. Qed.

Definition in_pages (l : list Z) (x : Z) : Prop := exists p, p ∈ l /\ p <= x < p + 4096.

Lemma rep_w_page w level m T : rep_w w level m T -> is_page (troot T).
Proof. destruct level; [done|]. by intros (_ & ? & _). Qed.

Lemma rep_page level m T : rep level m T -> is_page (troot T).
Proof. rewrite rep_full. apply rep_w_page. Qed.

Lemma troot_in T : troot T ∈ tpages T.
Proof. destruct T as [t slots]. rewrite tpages_unfold. by left. Qed.

Lemma slot_pages_in T i s p : tslots T !! i = Some s -> p ∈ slot_pages s -> p ∈ tpages T.
Proof.
  destruct T as [t slots]. intros Hi Hp. rewrite tpages_unfold. right. apply list_elem_of_In, in_flat_map. exists s.
  split; [apply list_elem_of_In; by eapply list_elem_of_lookup_2 | by apply list_elem_of_In].
Qed.

(** The bytes of its pages are all a tree depends on. *)
Lemma table_rep_ext w below (sub sub' : ptree -> Prop) m m' T : (w <= 512)%nat ->
  (forall x, in_pages (tpages T) x -> rd m' x = rd m x) ->
  (forall T', (forall p, p ∈ tpages T' -> p ∈ tpages T) -> sub T' -> sub' T') ->
  table_rep w below sub m T -> table_rep w below sub' m' T.
Proof.
  intros Hw Hx Hsub (Hp & Hlen & Hs). split; [done|]. split; [done|]. intros i s Hi. destruct (Hs i s Hi) as (E & Hslot). split.
  - rewrite <- E. apply entry_same_page.
    + intros x Hxx. apply Hx. exists (troot T). split; [apply troot_in | done].
    + apply lookup_lt_Some in Hi. rewrite Hlen in Hi. unfold index_ok, ENTRY_COUNT. lia.
  - unfold slot_rep in *. destruct (snd s) as [T'|] eqn:Es; [|done]. destruct Hslot as (H1 & H2 & H3). split; [done|]. split; [done|].
    apply Hsub; [|done]. intros p Hpp. apply (slot_pages_in T i s); [done|]. unfold slot_pages. by rewrite Es.
Qed.

Lemma rep_ext level m m' T : (forall x, in_pages (tpages T) x -> rd m' x = rd m x) -> rep level m T -> rep level m' T.
Proof.
  revert T. induction level as [|below IH]; intros T Hx; [done|]. apply table_rep_ext; [done | done|].
  intros T' Hin. apply IH. intros x (p & Hp & Hpx). apply Hx. exists p. split; [by apply Hin | done].
Qed.

Lemma rep_w_ext w level m m' T : (forall x, in_pages (tpages T) x -> rd m' x = rd m x) -> rep_w w level m T -> rep_w w level m' T.
Proof.
  destruct level as [|below]; [done|]. intros Hx (Hw & H). split; [done|]. revert H. apply table_rep_ext; [done | done|].
  intros T' Hin. apply rep_ext. intros x (p & Hp & Hpx). apply Hx. exists p. split; [by apply Hin | done].
Qed.

Lemma table_rep_pages w below sub m T p : (forall T' q, sub T' -> q ∈ tpages T' -> is_page q) ->
  table_rep w below sub m T -> p ∈ tpages T -> is_page p.
Proof.
  intros Hsub (Hp & Hlen & Hs) Hin. destruct T as [t slots].
  rewrite tpages_unfold in Hin. apply elem_of_cons in Hin as [->|Hin]; [done|].
  apply list_elem_of_In, in_flat_map in Hin as (s & Hs1 & Hs2). apply list_elem_of_In, list_elem_of_lookup in Hs1 as (i & Hi).
  destruct (Hs i s Hi) as (_ & Hslot). unfold slot_rep in Hslot. unfold slot_pages in Hs2.
  destruct (snd s) as [T'|]; [|done]. apply (Hsub T'); [apply Hslot | by apply list_elem_of_In].
Qed.

Lemma rep_pages level m T p : rep level m T -> p ∈ tpages T -> is_page p.
Proof. revert T p. induction level as [|below IH]; intros T p; [done|]. by apply table_rep_pages. Qed.

Lemma rep_w_pages w level m T p : rep_w w level m T -> p ∈ tpages T -> is_page p.
Proof. destruct level as [|below]; [done|]. intros (_ & H). revert H. apply table_rep_pages. intros T' q. apply rep_pages. Qed.

(** Pages that are apart share no byte. *)
Lemma in_pages_apart l p x : is_page p -> (forall q, q ∈ l -> is_page q) -> p ∉ l -> p <= x < p + 4096 -> ~ in_pages l x.
Proof.
  intros Hp Hl Hnot Hx (q & Hq & Hqx). destruct (pages_apart p q Hp (Hl q Hq)); [by intros -> | lia | lia].
Qed.

(** ** Leaves *)

(** The entry a list of indices ends in. *)
Fixpoint leaf_of (T : ptree) (idx : list Z) : option (Z * Z) :=
  match idx with
  | [] => None
  | i :: idx =>
      match tslots T !! Z.to_nat i with
      | None => None
      | Some (e, c) =>
          if negb (has e VMM_PRESENT) then None
          else match c with
               | Some T' => leaf_of T' idx
               | None => Some (alen idx, e)
               end
      end
  end.

Lemma next_cases e : next e = (if has e VMM_PRESENT && negb (has e PAGE_SIZE_FLAG) then Some (table_physical e) else None).
Proof. done. Qed.

Lemma leaf_rep level m T idx : rep level m T -> length idx = level -> Forall index_ok idx -> leaf m (troot T) idx = leaf_of T idx.
Proof.
  revert T idx. induction level as [|below IH]; intros T idx; [done|]. intros (Hp & Hlen & Hs) Hl Hok.
  destruct idx as [|i idx]; [done|]. apply Forall_cons in Hok as (Hi & Hok). simpl in Hl.
  cbn [leaf leaf_of]. assert (Hlt : (Z.to_nat i < length (tslots T))%nat) by (unfold index_ok, ENTRY_COUNT in Hi; lia).
  apply lookup_lt_is_Some_2 in Hlt as ((e & c) & Ei). rewrite Ei. destruct (Hs _ _ Ei) as (Ee & Hslot).
  rewrite Z2Nat.id in Ee by (unfold index_ok in Hi; lia). rewrite Ee. cbn [fst]. unfold slot_rep in Hslot. cbn [fst snd] in Hslot.
  destruct (has e VMM_PRESENT) eqn:Hpres; cbn [negb]; [|done]. destruct c as [T'|].
  - destruct Hslot as (Hb & Hn & Hsub). apply next_Some in Hn as (_ & Hps & Et).
    rewrite <- Et. rewrite bool_decide_false by (destruct idx; [simpl in Hl; lia | done]). rewrite Hps. cbn [orb]. apply IH; [done | lia | done].
  - destruct Hslot as [Hb|Hn].
    + rewrite bool_decide_true; [done|]. destruct idx; [done | simpl in Hl; lia].
    + rewrite next_cases, Hpres in Hn. destruct (has e PAGE_SIZE_FLAG); [|done]. by rewrite orb_true_r.
Qed.

(** ** One entry at a time *)

Definition set_slot (T : ptree) (i : nat) (s : Z * option ptree) : ptree := PT (troot T) (<[i := s]> (tslots T)).

Lemma flat_map_split {A} (f : A -> list Z) l i x : l !! i = Some x ->
  flat_map f l ≡ₚ f x ++ flat_map f (delete i l).
Proof.
  revert i. induction l as [|y l IH]; intros i Hi; [done|]. destruct i as [|i]; simpl in *; [by simplify_eq|].
  rewrite (IH i Hi). rewrite !(assoc (++)). apply Permutation_app_tail, Permutation_app_comm.
Qed.

Lemma delete_insert_slot {A} (l : list A) i x : delete i (<[i := x]> l) = delete i l.
Proof. revert i. induction l as [|y l IH]; intros i; [done|]. destruct i; simpl; [done|]. f_equal. apply IH. Qed.

(** The pages of a tree: its root, those below slot [i], and the others. *)
Definition other_pages (T : ptree) (i : nat) : list Z := flat_map slot_pages (delete i (tslots T)).

Lemma tpages_split T i s : tslots T !! i = Some s -> tpages T ≡ₚ troot T :: slot_pages s ++ other_pages T i.
Proof. destruct T as [t slots]. intros Hi. rewrite tpages_unfold. constructor. by apply flat_map_split. Qed.

Lemma tpages_set T i s0 s : tslots T !! i = Some s0 -> tpages (set_slot T i s) ≡ₚ troot T :: slot_pages s ++ other_pages T i.
Proof.
  intros Hi. assert (E : tslots (set_slot T i s) !! i = Some s).
  { simpl. apply list_lookup_insert_eq. by eapply lookup_lt_Some. }
  rewrite (tpages_split _ i s E). unfold other_pages, set_slot. simpl. by rewrite delete_insert_slot.
Qed.

Lemma other_pages_in T i j s p : tslots T !! j = Some s -> i <> j -> p ∈ slot_pages s -> p ∈ other_pages T i.
Proof.
  intros Hj Hne Hp. unfold other_pages. apply list_elem_of_In, in_flat_map. exists s. split; [|by apply list_elem_of_In].
  apply list_elem_of_In. apply list_elem_of_lookup. destruct (decide (j < i)%nat).
  - exists j. rewrite list_lookup_delete_lt by lia. done.
  - exists (pred j). rewrite list_lookup_delete_ge by lia. by replace (S (pred j)) with j by lia.
Qed.

(** A new memory that holds the new slot and keeps the rest of the tree holds
    the new tree. *)
Lemma rep_set w below m m' T i s0 s : rep_w w (S below) m T -> tslots T !! i = Some s0 ->
  entry_at m' (troot T) (Z.of_nat i) = fst s -> slot_rep below (rep below m') s ->
  (forall j, j <> i -> (j < 512)%nat -> entry_at m' (troot T) (Z.of_nat j) = entry_at m (troot T) (Z.of_nat j)) ->
  (forall x, in_pages (other_pages T i) x -> rd m' x = rd m x) ->
  rep_w w (S below) m' (set_slot T i s).
Proof.
  intros (Hw & Hp & Hlen & Hs) Hi He Hslot Hothers Hbytes. split; [done|]. split; [done|]. split; [simpl; by rewrite length_insert|].
  intros j sj Hj. simpl in Hj. destruct (decide (i = j)) as [<-|Hne].
  - rewrite list_lookup_insert_eq in Hj by (by eapply lookup_lt_Some). by simplify_eq.
  - rewrite list_lookup_insert_ne in Hj by done. destruct (Hs j sj Hj) as (E & Hsub).
    assert (Hlt : (j < 512)%nat) by (apply lookup_lt_Some in Hj; lia). split; [simpl; by rewrite Hothers|].
    unfold slot_rep in *. destruct (snd sj) as [T'|] eqn:Es; [|done]. destruct Hsub as (H1 & H2 & H3). split; [done|]. split; [done|].
    apply (rep_ext below m); [|done]. intros x (p & Hpp & Hpx). apply Hbytes. exists p. split; [|done].
    apply (other_pages_in T i j sj p); [done | done|]. unfold slot_pages. by rewrite Es.
Qed.

(** ** Trees and paths *)

Definition ix (i : nat) : Z := Z.of_nat i.

Lemma index_nat i : index_ok i -> exists n, i = ix n /\ (n < 512)%nat.
Proof. intros Hi. exists (Z.to_nat i). unfold index_ok, ENTRY_COUNT, ix in *. lia. Qed.
Lemma nat_index n : (n < 512)%nat -> index_ok (ix n).
Proof. unfold index_ok, ENTRY_COUNT, ix. lia. Qed.

(** The tree that starts at a table of the memory. *)
Fixpoint read_tree (level : nat) (m : mem) (t : Z) : ptree :=
  match level with
  | O => PT t []
  | S below =>
      PT t (map (fun i => let e := entry_at m t (ix i) in
        (e, match below with
            | O => None
            | S _ => match next e with Some t' => Some (read_tree below m t') | None => None end
            end)) (seq 0 512))
  end.

Lemma troot_read level m t : troot (read_tree level m t) = t.
Proof. by destruct level. Qed.

Lemma read_tree_rep level m t : level <> O ->
  (forall p u, (length p < level)%nat -> Forall index_ok p -> table_at m t p = Some u -> is_page u) ->
  rep level m (read_tree level m t).
Proof.
  revert t. induction level as [|below IH]; intros t H0 Hp; [done|]. cbn [rep read_tree]. unfold table_rep. cbn [troot tslots].
  split; [by apply (Hp [] t); [simpl; lia | constructor |]|]. split; [by rewrite length_map, length_seq|].
  intros i s Hi. apply list_lookup_fmap_Some in Hi as (j & -> & Hj). apply lookup_seq in Hj as (-> & Hlt).
  simpl Nat.add. cbn [fst]. split; [done|]. unfold slot_rep. cbn [fst snd]. destruct below as [|b]; [by left|].
  destruct (next (entry_at m t (ix i))) as [t'|] eqn:En; [|by right]. split; [done|]. rewrite troot_read. split; [done|].
  apply IH; [done|]. intros p u Hl Hok Hu. apply (Hp (ix i :: p) u); [simpl; lia | constructor; [by apply nat_index | done]|].
  cbn [table_at]. by rewrite En.
Qed.

(** No table is reached along two paths. *)
Definition tree_inj (level : nat) (m : mem) (t : Z) : Prop :=
  forall p q u, Forall index_ok p -> Forall index_ok q -> (length p < level)%nat -> (length q < level)%nat ->
    table_at m t p = Some u -> table_at m t q = Some u -> p = q.

Lemma tpages_table level m T u : rep level m T -> u ∈ tpages T <->
  exists p, Forall index_ok p /\ (length p < level)%nat /\ table_at m (troot T) p = Some u.
Proof.
  revert T. induction level as [|below IH]; intros T; [done|]. intros (Hp & Hlen & Hs). destruct T as [t slots]. cbn [troot tslots] in *.
  rewrite tpages_unfold, elem_of_cons, list_elem_of_In, in_flat_map. split.
  - intros [->|(s & Hin & Hu)]; [by exists []; split; [constructor | split; [simpl; lia|]]|].
    apply list_elem_of_In, list_elem_of_lookup in Hin as (i & Hi). destruct (Hs i s Hi) as (He & Hslot).
    unfold slot_rep in Hslot. unfold slot_pages in Hu. destruct (snd s) as [T'|]; [|done]. destruct Hslot as (H1 & H2 & H3).
    apply list_elem_of_In, (IH T' H3) in Hu as (p & Hok & Hl & Ht). exists (ix i :: p). split_and!; [|simpl; lia|].
    + constructor; [apply nat_index; rewrite <- Hlen; by eapply lookup_lt_Some | done].
    + cbn [table_at]. unfold ix. by rewrite He, H2.
  - intros (p & Hok & Hl & Ht). destruct p as [|i p]; [left; by injection Ht|]. right.
    apply Forall_cons in Hok as (Hi & Hok). apply index_nat in Hi as (n & -> & Hn). rewrite <- Hlen in Hn.
    apply lookup_lt_is_Some_2 in Hn as (s & Hs'). destruct (Hs n s Hs') as (He & Hslot). exists s.
    split; [apply list_elem_of_In; by eapply list_elem_of_lookup_2|]. cbn [table_at] in Ht. unfold ix in Ht. rewrite He in Ht.
    unfold slot_rep in Hslot. unfold slot_pages. destruct (next (fst s)) as [t'|] eqn:En; [|done].
    simpl in Hl. destruct (snd s) as [T'|]; [|destruct Hslot as [->|]; [lia | done]]. destruct Hslot as (H1 & [= ->] & H3).
    apply list_elem_of_In, (IH T' H3). exists p. split_and!; [done | lia | done].
Qed.

Lemma NoDup_flat_map {A} (f : A -> list Z) (l : list A) :
  (forall i x, l !! i = Some x -> NoDup (f x)) ->
  (forall i j x y u, l !! i = Some x -> l !! j = Some y -> u ∈ f x -> u ∈ f y -> i = j) -> NoDup (flat_map f l).
Proof.
  induction l as [|x l IH]; intros H1 H2; [constructor|]. cbn [flat_map]. apply NoDup_app. split_and!.
  - by apply (H1 0%nat).
  - intros u Hu Hin. apply list_elem_of_In, in_flat_map in Hin as (y & Hy & Huy).
    apply list_elem_of_In, list_elem_of_lookup in Hy as (j & Hj). apply list_elem_of_In in Huy.
    by specialize (H2 0%nat (S j) x y u eq_refl Hj Hu Huy).
  - apply IH; [intros i y Hi; by apply (H1 (S i))|]. intros i j y z u Hi Hj Hu Hv.
    specialize (H2 (S i) (S j) y z u Hi Hj Hu Hv). by injection H2.
Qed.

Lemma tree_inj_down below m t i t' : tree_inj (S below) m t -> index_ok i -> next (entry_at m t i) = Some t' -> tree_inj below m t'.
Proof.
  intros H Hi Hn p q u Hp Hq Hlp Hlq Hup Huq. assert (E : i :: p = i :: q); [|by injection E].
  apply (H _ _ u); [by constructor | by constructor | simpl; lia | simpl; lia | |]; cbn [table_at]; by rewrite Hn.
Qed.

Lemma rep_NoDup level m T : rep level m T -> tree_inj level m (troot T) -> NoDup (tpages T).
Proof.
  revert T. induction level as [|below IH]; intros T; [done|]. intros Hrep Hinj. pose proof Hrep as (Hp & Hlen & Hs). destruct T as [t slots].
  cbn [troot tslots] in *. rewrite tpages_unfold.
  assert (Hsub : forall i s u, slots !! i = Some s -> u ∈ slot_pages s ->
    exists p, Forall index_ok (ix i :: p) /\ (length p < below)%nat /\ table_at m t (ix i :: p) = Some u).
  { intros i s u Hi Hu. destruct (Hs i s Hi) as (He & Hslot). unfold slot_rep in Hslot. unfold slot_pages in Hu.
    destruct (snd s) as [T'|]; [|by apply elem_of_nil in Hu]. destruct Hslot as (H1 & H2 & H3). apply (tpages_table _ _ _ _ H3) in Hu as (p & Hok & Hl & Ht).
    exists p. split_and!; [constructor; [apply nat_index; rewrite <- Hlen; by eapply lookup_lt_Some | done] | done|].
    cbn [table_at]. unfold ix. by rewrite He, H2. }
  constructor.
  - rewrite list_elem_of_In, in_flat_map. intros (s & Hin & Hu). apply list_elem_of_In, list_elem_of_lookup in Hin as (i & Hi).
    apply list_elem_of_In in Hu. destruct (Hsub i s t Hi Hu) as (p & Hok & Hl & Ht).
    specialize (Hinj (ix i :: p) [] t Hok ltac:(constructor) ltac:(simpl; lia) ltac:(simpl; lia) Ht eq_refl). done.
  - apply NoDup_flat_map.
    + intros i s Hi. destruct (Hs i s Hi) as (He & Hslot). unfold slot_rep in Hslot. unfold slot_pages.
      destruct (snd s) as [T'|]; [|constructor]. destruct Hslot as (H1 & H2 & H3). apply IH; [done|].
      apply (tree_inj_down below m t (ix i)); [done | apply nat_index; rewrite <- Hlen; by eapply lookup_lt_Some|]. unfold ix. by rewrite He.
    + intros i j x y u Hi Hj Hx Hy. destruct (Hsub i x u Hi Hx) as (p & Hok & Hl & Ht). destruct (Hsub j y u Hj Hy) as (q & Hok' & Hl' & Ht').
      specialize (Hinj _ _ u Hok Hok' ltac:(simpl; lia) ltac:(simpl; lia) Ht Ht'). injection Hinj as E _. unfold ix in E. lia.
Qed.

Lemma NoDup_flat_map_inj {A} (f : A -> list Z) (l : list A) i j x y u : NoDup (flat_map f l) ->
  l !! i = Some x -> l !! j = Some y -> u ∈ f x -> u ∈ f y -> i = j.
Proof.
  revert i j. induction l as [|z l IH]; intros i j Hnd Hi Hj Hx Hy; [done|]. cbn [flat_map] in Hnd.
  apply NoDup_app in Hnd as (H1 & H2 & H3). assert (Hin : forall k w, l !! k = Some w -> u ∈ f w -> u ∈ flat_map f l).
  { intros k w Hk Hw. apply list_elem_of_In, in_flat_map. exists w. split; apply list_elem_of_In; [by eapply list_elem_of_lookup_2 | done]. }
  destruct i as [|i], j as [|j]; simplify_eq/=; [done | | |].
  - destruct (H2 u Hx). by apply (Hin j y).
  - destruct (H2 u Hy). by apply (Hin i x).
  - f_equal. by apply IH.
Qed.

Lemma flat_map_NoDup {A} (f : A -> list Z) (l : list A) i x : NoDup (flat_map f l) -> l !! i = Some x -> NoDup (f x).
Proof.
  revert i. induction l as [|z l IH]; intros i Hnd Hi; [done|]. cbn [flat_map] in Hnd. apply NoDup_app in Hnd as (H1 & _ & H3).
  destruct i as [|i]; simplify_eq/=; [done | by apply (IH i)].
Qed.

(** The first step of a path in a tree. *)
Lemma rep_step_path below m T i p u : rep (S below) m T -> index_ok i -> (length p < below)%nat ->
  table_at m (troot T) (i :: p) = Some u ->
  exists n e T', i = ix n /\ tslots T !! n = Some (e, Some T') /\ rep below m T' /\ table_at m (troot T') p = Some u.
Proof.
  intros (Hp & Hlen & Hs) Hi Hl Ht. apply index_nat in Hi as (n & -> & Hn). rewrite <- Hlen in Hn.
  apply lookup_lt_is_Some_2 in Hn as ((e & c) & Hs'). destruct (Hs n _ Hs') as (He & Hslot). cbn [table_at] in Ht. unfold ix in Ht.
  rewrite He in Ht. cbn [fst] in *. unfold slot_rep in Hslot. cbn [fst snd] in Hslot. destruct (next e) as [t'|] eqn:En; [|done].
  destruct c as [T'|]; [|destruct Hslot as [->|]; [lia | done]]. destruct Hslot as (H1 & [= ->] & H3). by exists n, e, T'.
Qed.

Lemma rep_inj level m T : rep level m T -> NoDup (tpages T) -> tree_inj level m (troot T).
Proof.
  revert T. induction level as [|below IH]; intros T; [done|]. intros Hrep Hnd p q u Hp Hq Hlp Hlq Hup Huq.
  assert (Hsub : forall n e T', tslots T !! n = Some (e, Some T') -> forall v, v ∈ tpages T' -> v ∈ flat_map slot_pages (tslots T)).
  { intros n e T' Hn v Hv. apply list_elem_of_In, in_flat_map. exists (e, Some T').
    split; apply list_elem_of_In; [by eapply list_elem_of_lookup_2 | done]. }
  destruct T as [t slots]. rewrite tpages_unfold in Hnd. apply NoDup_cons in Hnd as (Hroot & Hnd). cbn [troot tslots] in *.
  assert (Hin : forall i p u, Forall index_ok (i :: p) -> (length (i :: p) < S below)%nat -> table_at m t (i :: p) = Some u ->
    exists n e T', i = ix n /\ slots !! n = Some (e, Some T') /\ rep below m T' /\ table_at m (troot T') p = Some u /\ u ∈ tpages T').
  { clear p q u Hp Hq Hlp Hlq Hup Huq. intros i p u Hok Hl Ht. apply Forall_cons in Hok as (Hi & Hok). simpl in Hl.
    destruct (rep_step_path below m (PT t slots) i p u Hrep Hi ltac:(lia) Ht) as (n & e & T' & -> & Hn & Hr & Hu).
    exists n, e, T'. split_and!; try done. apply (tpages_table _ _ _ _ Hr). exists p. split_and!; [done | lia | done]. }
  destruct p as [|i p], q as [|j q]; [done | | |].
  - injection Hup as <-. destruct (Hin j q t Hq Hlq Huq) as (n & e & T' & -> & Hn & Hr & Hu & Hmem). destruct Hroot. by apply (Hsub n e T').
  - injection Huq as <-. destruct (Hin i p t Hp Hlp Hup) as (n & e & T' & -> & Hn & Hr & Hu & Hmem). destruct Hroot. by apply (Hsub n e T').
  - destruct (Hin i p u Hp Hlp Hup) as (n & e & T' & -> & Hn & Hr & Hu & Hmem).
    destruct (Hin j q u Hq Hlq Huq) as (n' & e' & T'' & -> & Hn' & Hr' & Hu' & Hmem').
    assert (n = n') as <- by (by apply (NoDup_flat_map_inj slot_pages slots n n' _ _ u Hnd Hn Hn')). simplify_eq. f_equal.
    apply Forall_cons in Hp as (_ & Hp), Hq as (_ & Hq). simpl in *.
    apply (IH T' Hr (flat_map_NoDup _ _ _ _ Hnd Hn) p q u); [done | done | lia | lia | done | done].
Qed.

(** A well-formed space is a tree of four levels, and the other way round. *)
Lemma tree_wf_rep m root : tree_wf m root <-> exists T, troot T = root /\ rep 4 m T /\ NoDup (tpages T).
Proof.
  split.
  - intros Hwf. exists (read_tree 4 m root). assert (Hr : rep 4 m (read_tree 4 m root)).
    { apply read_tree_rep; [done|]. intros p u Hl Hok. apply Hwf. split; [lia | done]. }
    split; [apply troot_read|]. split; [done|]. apply (rep_NoDup 4 m); [done|]. rewrite troot_read.
    intros p q u Hp Hq Hlp Hlq. apply Hwf; split; done || lia.
  - intros (T & <- & Hr & Hnd). split.
    + intros p u (Hl & Hok) Ht. apply (rep_pages 4 m T); [done|]. apply (tpages_table _ _ _ _ Hr). exists p. split_and!; [done | lia | done].
    + intros p q u (Hl & Hok) (Hl' & Hok'). apply (rep_inj 4 m T Hr Hnd); done || lia.
Qed.

Lemma tree_byte_rep m T x : rep 4 m T -> tree_byte m (troot T) x <-> in_pages (tpages T) x.
Proof.
  intros Hr. split.
  - intros (p & t & (Hl & Hok) & Ht & Hx). exists t. split; [|done]. apply (tpages_table _ _ _ _ Hr). exists p. split_and!; [done | lia | done].
  - intros (t & Hin & Hx). apply (tpages_table _ _ _ _ Hr) in Hin as (p & Hok & Hl & Ht). exists p, t. split; [split; [lia | done] | done].
Qed.

(** ** Walks that go through the slots in order *)

(** One step of such a walk: the memory changes in the entry and in the pages
    [l], which belong to the slot or were free. *)
Lemma rep_step w below m m' T i s0 s l : rep_w w (S below) m T -> NoDup (tpages T) -> tslots T !! i = Some s0 ->
  (forall p, p ∈ l -> is_page p /\ p <> troot T /\ p ∉ other_pages T i) ->
  (forall x, ~ (troot T + 8 * ix i <= x < troot T + 8 * ix i + 8) -> ~ in_pages l x -> rd m' x = rd m x) ->
  entry_at m' (troot T) (ix i) = fst s -> slot_rep below (rep below m') s ->
  rep_w w (S below) m' (set_slot T i s).
Proof.
  intros Hr Hnd Hi Hl Hbytes He Hslot. pose proof (rep_w_page _ _ _ _ Hr) as Hroot. pose proof Hr as (Hw & _ & Hlen & _).
  rewrite (tpages_split T i s0 Hi) in Hnd. apply NoDup_cons in Hnd as (Hnr & Hnd).
  assert (Hil : (i < 512)%nat) by (apply lookup_lt_Some in Hi; lia).
  assert (Hpages : forall q, q ∈ other_pages T i -> is_page q).
  { intros q Hq. apply (rep_w_pages _ _ m T q Hr). rewrite (tpages_split T i s0 Hi). right. apply elem_of_app. by right. }
  apply (rep_set w below m m' T i s0 s); try done.
  - intros j Hne Hj. apply entry_ext. intros x Hx. apply Hbytes; [unfold ix; lia|]. intros (p & Hp & Hpx). destruct (Hl p Hp) as (H1 & H2 & _).
    destruct (pages_apart p (troot T) H1 Hroot H2); lia.
  - intros x (q & Hq & Hqx). assert (Hqr : troot T <> q) by (intros E; apply Hnr; rewrite E; apply elem_of_app; by right). apply Hbytes.
    + destruct (pages_apart (troot T) q Hroot (Hpages q Hq) Hqr); unfold ix; lia.
    + intros (p & Hp & Hpx). destruct (Hl p Hp) as (H1 & _ & H3). assert (p <> q) by (by intros ->).
      destruct (pages_apart p q H1 (Hpages q Hq)); [done | lia | lia].
Qed.

(** The first [n] slots of a walk done. *)
Definition upto (n : nat) (f : nat -> Z * option ptree -> Z * option ptree) (slots : list (Z * option ptree)) : list (Z * option ptree) :=
  imap (fun j s => if (j <? n)%nat then f j s else s) slots.

Lemma upto_lookup n f slots j : upto n f slots !! j = (fun s => if (j <? n)%nat then f j s else s) <$> slots !! j.
Proof. unfold upto. by rewrite list_lookup_imap. Qed.

Lemma upto_0 f slots : upto 0 f slots = slots.
Proof. apply list_eq. intros j. rewrite upto_lookup. by destruct (slots !! j). Qed.

Lemma upto_step n f slots s : slots !! n = Some s -> upto (S n) f slots = <[n := f n s]> (upto n f slots).
Proof.
  intros Hn. apply list_eq. intros j. rewrite upto_lookup. destruct (decide (n = j)) as [<-|Hne].
  - rewrite list_lookup_insert_eq by (unfold upto; rewrite length_imap; by eapply lookup_lt_Some). rewrite Hn. simpl.
    by rewrite (proj2 (Nat.ltb_lt n (S n))) by lia.
  - rewrite list_lookup_insert_ne by done. rewrite upto_lookup. destruct (slots !! j); [|done]. simpl. f_equal.
    destruct (Nat.ltb_spec j n), (Nat.ltb_spec j (S n)); done || lia.
Qed.

Lemma upto_here n f slots s : slots !! n = Some s -> upto n f slots !! n = Some s.
Proof. intros Hn. rewrite upto_lookup, Hn. simpl. by rewrite Nat.ltb_irrefl. Qed.

Lemma upto_pages n f slots : (forall j s, slots !! j = Some s -> slot_pages (f j s) = slot_pages s) ->
  flat_map slot_pages (upto n f slots) = flat_map slot_pages slots.
Proof.
  intros H. assert (E : slot_pages <$> upto n f slots = slot_pages <$> slots).
  { apply list_eq. intros j. rewrite !list_lookup_fmap, upto_lookup. destruct (slots !! j) as [s|] eqn:Es; [|done]. simpl. f_equal.
    destruct (j <? n)%nat; [by apply H | done]. }
  rewrite !flat_map_concat_map. change (concat (slot_pages <$> upto n f slots) = concat (slot_pages <$> slots)). by rewrite E.
Qed.

End TableTree.
