(* ===== verification/VmmSpace.v ===== *)
(** * VmmSpace: creation, cloning and protection of address spaces

    The recursive walks of src/mm/vmm.c over whole trees of tables: the boot
    mappings made W^X, the lower half copied into a new space, the user
    mappings shared copy-on-write with a child, and the release of a space.
    The level of a table counts down to 1 as in the code. *)

From S2P Require Import Prelude Memory Pmm PageTable Vmm VmmSafety KernelPages Kmalloc.
Import Memory.Memory Pmm.Pmm PageTable.PageTable Vmm.Vmm VmmSafety.VmmSafety KernelPages.KernelPages Kmalloc.Kmalloc.

Module VmmSpace.

(** [for (size_t i = lo; ...)] with an early return. *)
Fixpoint loop_up {S R} (n : nat) (i : Z) (body : Z -> S -> option R * S) (s : S) : option R * S :=
  match n with
  | O => (None, s)
  | Datatypes.S n => match body i s with
                     | (Some r, s) => (Some r, s)
                     | (None, s) => loop_up n (i + 1) body s
                     end
  end.

Definition free_page (physical : Z) (s : vmm_state) : vmm_state := with_pmm s (snd (pmm_free_page physical (pmm s))).
Definition store (table index v : Z) (s : vmm_state) : vmm_state := with_memory s (set_entry (memory s) table index v).
Definition load (table index : Z) (s : vmm_state) : Z := entry_at (memory s) table index.

Fixpoint destroy_cloned_tables (level : nat) (physical : Z) (s : vmm_state) : vmm_state :=
  match level with
  | O => s
  | S below =>
      let s :=
        match below with
        | O => s
        | S _ =>
            for_up (trips 0 ENTRY_COUNT) 0 (fun i s =>
              let entry := load physical i s in
              if has entry VMM_PRESENT && negb (has entry PAGE_SIZE_FLAG)
              then destroy_cloned_tables below (table_physical entry) s else s) s
        end in
      free_page physical s
  end.

Fixpoint clone_table (level : nat) (source_physical : Z) (s : vmm_state) : Z * vmm_state :=
  match level with
  | O => (PMM_INVALID_ADDRESS, s)
  | S below =>
      let '(destination, p) := pmm_alloc_page (pmm s) in
      let s := with_pmm s p in
      if destination =? PMM_INVALID_ADDRESS then (PMM_INVALID_ADDRESS, s)
      else
        let s := with_memory s (clear_table (memory s) destination) in
        let '(r, s) :=
          loop_up (trips 0 ENTRY_COUNT) 0 (fun i s =>
            let entry := load source_physical i s in
            if negb (has entry VMM_PRESENT) || Nat.eqb level 1 || has entry PAGE_SIZE_FLAG
            then (None, store destination i entry s)
            else
              let '(child, s) := clone_table below (table_physical entry) s in
              if child =? PMM_INVALID_ADDRESS
              then (Some PMM_INVALID_ADDRESS, destroy_cloned_tables level destination s)
              else (None, store destination i (child |! (entry &! not64 PAGE_ADDRESS_MASK)) s)) s in
        (default destination r, s)
  end.

Definition page_table_virtual_address (prefix index : Z) (level : nat) : Z :=
  prefix |! (index <<! (12 + 9 * (Z.of_nat level - 1))).

(** [level == 4 && i >= ENTRY_COUNT / 2] ends the loop there. *)
Definition user_entries (level : nat) : Z := if Nat.eqb level 4 then ENTRY_COUNT / 2 else ENTRY_COUNT.

Definition COW_FLAGS : Z := VMM_WRITABLE |! VMM_USER |! VMM_NO_EXECUTE |! VMM_COPY_ON_WRITE.
Definition shared_flags (entry : Z) : Z :=
  let flags := entry &! COW_FLAGS in
  if has flags VMM_WRITABLE then (flags &! not64 VMM_WRITABLE) |! VMM_COPY_ON_WRITE else flags.

(** False as soon as something fails. *)
Fixpoint clone_user_mappings_cow (level : nat) (child : space) (table prefix : Z) (s : vmm_state) : bool * vmm_state :=
  match level with
  | O => (true, s)
  | S below =>
      let '(r, s) :=
        loop_up (trips 0 (user_entries level)) 0 (fun i s =>
          let entry := load table i s in
          if negb (has entry VMM_PRESENT) then (None, s)
          else
            let address := page_table_virtual_address prefix i level in
            match below with
            | S _ =>
                if has entry PAGE_SIZE_FLAG then (if has entry VMM_USER then Some tt else None, s)
                else let '(ok, s) := clone_user_mappings_cow below child (table_physical entry) address s in
                     (if ok then None else Some tt, s)
            | O =>
                if negb (has entry VMM_USER) then (None, s)
                else
                  let physical := table_physical entry in
                  let '(retained, p) := pmm_retain_page physical (pmm s) in
                  let s := with_pmm s p in
                  if negb retained then (Some tt, s)
                  else
                    let '(mapped, s) := map_page_locked (Some child) address physical (shared_flags entry) s in
                    if mapped then (None, s) else (Some tt, free_page physical s)
            end) s in
      (match r with None => true | Some _ => false end, s)
  end.

Definition USER_WRITABLE : Z := VMM_PRESENT |! VMM_USER |! VMM_WRITABLE.
Definition cow_protected (entry : Z) : Z := (entry &! not64 VMM_WRITABLE) |! VMM_COPY_ON_WRITE.

Fixpoint protect_user_mappings_cow (level : nat) (sp : space) (table prefix : Z) (s : vmm_state) : vmm_state :=
  match level with
  | O => s
  | S below =>
      for_up (trips 0 (user_entries level)) 0 (fun i s =>
        let entry := load table i s in
        if negb (has entry VMM_PRESENT) then s
        else
          let address := page_table_virtual_address prefix i level in
          match below with
          | S _ => if has entry PAGE_SIZE_FLAG then s else protect_user_mappings_cow below sp (table_physical entry) address s
          | O =>
              if negb (entry &! USER_WRITABLE =? USER_WRITABLE) then s
              else flush sp address (store table i (cow_protected entry) s)
          end) s
  end.

(** ** Boot protection *)

Definition range_overlaps (start size protected_start protected_end : Z) : bool :=
  (start <? protected_end) && ((protected_start <=? start) || (protected_start -! start <? size)).
Definition range_contains (protected_start protected_end start size : Z) : bool :=
  (protected_start <=? start) && (start <? protected_end) && (size <=? protected_end -! start).

Definition level_size (level : nat) : Z := 1 <<! (12 + 9 * (Z.of_nat level - 1)).
Definition PAT_LARGE : Z := 2 ^ 12.

(** The entry at [table[index]] is replaced. *)
Definition split_boot_mapping (table index : Z) (level : nat) (s : vmm_state) : bool * vmm_state :=
  let '(fresh, p) := pmm_alloc_page (pmm s) in
  let s := with_pmm s p in
  if fresh =? PMM_INVALID_ADDRESS then (false, s)
  else
    let entry := load table index s in
    let size := level_size level in
    let child_size := size / ENTRY_COUNT in
    let physical := (entry &! PAGE_ADDRESS_MASK) &! not64 (size -! 1) in
    let attributes := entry &! not64 PAGE_ADDRESS_MASK in
    let large_pat := entry &! PAT_LARGE in
    let attributes :=
      if Nat.eqb level 2 then
        let attributes := attributes &! not64 PAGE_SIZE_FLAG in
        if negb (large_pat =? 0) then attributes |! 2 ^ 7 else attributes
      else attributes |! large_pat in
    let s := for_up (trips 0 ENTRY_COUNT) 0 (fun i s => store fresh i ((physical +! i *! child_size) |! attributes) s) s in
    (true, store table index (fresh |! VMM_PRESENT |! VMM_WRITABLE) s).

(** The linker symbols and the physical range that has to be read-only. *)
Record layout := mk_layout { text_start : Z; text_end : Z; readonly_start : Z; readonly_end : Z }.

Definition protected_leaf (readonly executable : bool) (entry : Z) : Z :=
  let entry := entry &! not64 VMM_USER in
  let entry := if readonly || executable then entry &! not64 VMM_WRITABLE else entry in
  if executable then entry &! not64 VMM_NO_EXECUTE else entry |! VMM_NO_EXECUTE.
Definition protected_table (entry : Z) : Z := (entry |! VMM_WRITABLE) &! not64 (VMM_USER |! VMM_NO_EXECUTE).

Definition sign_extend (level : nat) (address : Z) : Z :=
  if Nat.eqb level 4 && negb (address &! 2 ^ 47 =? 0) then address |! 0xFFFF000000000000 else address.

Fixpoint protect_boot_table (level : nat) (l : layout) (table prefix : Z) (s : vmm_state) : bool * vmm_state :=
  match level with
  | O => (true, s)
  | S below =>
      let descend address i s :=
        let s := store table i (protected_table (load table i s)) s in
        let '(ok, s) := protect_boot_table below l (table_physical (load table i s)) address s in
        (if ok then None else Some tt, s) in
      let '(r, s) :=
        loop_up (trips 0 ENTRY_COUNT) 0 (fun i s =>
          let entry := load table i s in
          if negb (has entry VMM_PRESENT) then (None, s)
          else
            let address := sign_extend level (page_table_virtual_address prefix i level) in
            if Nat.eqb level 1 || has entry PAGE_SIZE_FLAG then
              if Nat.eqb level 4 then (Some tt, s)
              else
                let size := level_size level in
                let physical := (entry &! PAGE_ADDRESS_MASK) &! not64 (size -! 1) in
                let readonly := range_contains (readonly_start l) (readonly_end l) physical size in
                let executable := range_contains (text_start l) (text_end l) address size in
                if negb (Nat.eqb level 1) &&
                   ((negb readonly && range_overlaps physical size (readonly_start l) (readonly_end l)) ||
                    (negb executable && range_overlaps address size (text_start l) (text_end l)))
                then
                  let '(ok, s) := split_boot_mapping table i level s in
                  if negb ok then (Some tt, s) else descend address i s
                else (None, store table i (protected_leaf readonly executable entry) s)
            else descend address i s) s in
      (match r with None => true | Some _ => false end, s)
  end.

Definition CR4_LA57 : Z := 2 ^ 12.
Definition CR4_PGE : Z := 2 ^ 7.

(** [nx] is what [cpu_enable_nx()] answers and [kernel] the physical and the
    virtual base of the kernel address response, None for NULL; [text] is
    [__kernel_text_start], [__kernel_text_end] and [__kernel_rodata_end].  The
    result tells whether the global translations were flushed through CR4. *)
Definition vmm_init (cr4 : Z) (nx : bool) (kernel : option (Z * Z)) (text : Z * Z * Z) (s : vmm_state) : option bool * vmm_state :=
  if has cr4 CR4_LA57 then (None, s)
  else
    let s := mk_vmm (pmm s) (memory s) (cr3 s) (cr3 s &! PAGE_ADDRESS_MASK) (tlb s) in
    match nx, kernel with
    | true, Some (physical_base, virtual_base) =>
        let '(kernel_text_start, kernel_text_end, kernel_rodata_end) := text in
        let l := mk_layout kernel_text_start kernel_text_end
          (physical_base +! kernel_text_start -! virtual_base) (physical_base +! kernel_rodata_end -! virtual_base) in
        let '(ok, s) := protect_boot_table 4 l (kernel_pml4 s) 0 s in
        if negb ok then (None, s)
        else if has cr4 CR4_PGE then (Some true, s)
        else (Some false, mk_vmm (pmm s) (memory s) (kernel_pml4 s) (kernel_pml4 s) (tlb s))
    | _, _ => (None, s)
    end.

(** ** Spaces *)

(** The [struct vmm_space] and its [pml4_physical]. *)
Record space_object := mk_space { sp_pointer : Z; sp_pml4 : Z }.
Definition SPACE_SIZE : Z := 8.

(** The lower half of the new root; false when a clone fails. *)
Definition copy_lower (root : Z) (s : vmm_state) : bool * vmm_state :=
  let '(r, s) :=
    loop_up (trips 0 (ENTRY_COUNT / 2)) 0 (fun i s =>
      let entry := load (kernel_pml4 s) i s in
      if negb (has entry VMM_PRESENT) then (None, s)
      else
        let '(child, s) := clone_table 3 (table_physical entry) s in
        if child =? PMM_INVALID_ADDRESS then
          let s := for_up (trips 0 i) 0 (fun j s =>
            let e := load root j s in
            if has e VMM_PRESENT then destroy_cloned_tables 3 (table_physical e) s else s) s in
          (Some tt, free_page root s)
        else (None, store root i (child |! (entry &! not64 PAGE_ADDRESS_MASK)) s)) s in
  (match r with None => true | Some _ => false end, s).

Definition copy_upper (root : Z) (s : vmm_state) : vmm_state :=
  for_up (trips (ENTRY_COUNT / 2) ENTRY_COUNT) (ENTRY_COUNT / 2) (fun i s => store root i (load (kernel_pml4 s) i s) s) s.

Definition vmm_space_create (h : heap vmm_state) : option space_object * heap vmm_state :=
  let '(pointer, h) := kmalloc SPACE_SIZE h in
  if pointer =? 0 then (None, h)
  else
    let '(physical, p) := pmm_alloc_page (pmm (pages h)) in
    let s := with_pmm (pages h) p in
    if physical =? PMM_INVALID_ADDRESS then (None, snd (kfree pointer (with_pages h s)))
    else
      let s := with_memory s (clear_table (memory s) physical) in
      let '(ok, s) := copy_lower physical s in
      if negb ok then (None, snd (kfree pointer (with_pages h s)))
      else (Some (mk_space pointer physical), with_pages h (copy_upper physical s)).

Fixpoint destroy_table (level : nat) (physical : Z) (s : vmm_state) : vmm_state :=
  match level with
  | O => s
  | S below =>
      let s :=
        for_up (trips 0 ENTRY_COUNT) 0 (fun i s =>
          let entry := load physical i s in
          if negb (has entry VMM_PRESENT) then s
          else
            let child := table_physical entry in
            if Nat.eqb level 1 || has entry PAGE_SIZE_FLAG
            then if has entry VMM_USER then free_page child s else s
            else destroy_table below child s) s in
      free_page physical s
  end.

Definition destroy_lower (root : Z) (s : vmm_state) : vmm_state :=
  for_up (trips 0 (ENTRY_COUNT / 2)) 0 (fun i s =>
    let entry := load root i s in
    if has entry VMM_PRESENT then destroy_table 3 (table_physical entry) s else s) s.

(** None is NULL or [&kernel_space]. *)
Definition vmm_space_destroy (space : option space_object) (h : heap vmm_state) : heap vmm_state :=
  match space with
  | None => h
  | Some o => snd (kfree (sp_pointer o) (with_pages h (free_page (sp_pml4 o) (destroy_lower (sp_pml4 o) (pages h)))))
  end.

Definition vmm_space_clone_cow (space : option Z) (h : heap vmm_state) : option space_object * heap vmm_state :=
  match space with
  | None => (None, h)
  | Some pml4 =>
      let '(child, h) := vmm_space_create h in
      match child with
      | None => (None, h)
      | Some child =>
          let '(ok, s) := clone_user_mappings_cow 4 (Space (sp_pml4 child)) pml4 0 (pages h) in
          if negb ok then (None, vmm_space_destroy (Some child) (with_pages h s))
          else (Some child, with_pages h (protect_user_mappings_cow 4 (Space pml4) pml4 0 s))
      end
  end.

Definition vmm_space_activate (space : option Z) (s : vmm_state) : vmm_state :=
  match space with
  | None => s
  | Some pml4 => mk_vmm (pmm s) (memory s) pml4 (kernel_pml4 s) (tlb s)
  end.

End VmmSpace.
