(* ===== verification/VmmCow.v ===== *)
(** * VmmCow: copy-on-write protection of a space

    What [protect_user_mappings_cow] does to the tree of tables of a space:
    every writable user page of the lower half loses [VMM_WRITABLE] and gains
    [VMM_COPY_ON_WRITE], its address is flushed, and nothing else changes. *)

From S2P Require Import Prelude Memory Pmm PageTable Vmm VmmSafety KernelPages Kmalloc TableTree VmmSpace.
Import Memory.Memory Pmm.Pmm PageTable.PageTable Vmm.Vmm VmmSafety.VmmSafety TableTree.TableTree VmmSpace.VmmSpace.

Module VmmCow.

Definition user_writable (e : Z) : bool := e &! USER_WRITABLE =? USER_WRITABLE.
Definition cow_leaf (e : Z) : Z := if user_writable e then cow_protected e else e.

Definition cow_slot (below : nat) (sub : ptree -> ptree) (s : Z * option ptree) : Z * option ptree :=
  match snd s with
  | Some T => (fst s, Some (sub T))
  | None => (if Nat.eqb below 0 then cow_leaf (fst s) else fst s, None)
  end.

Fixpoint cow_tree (level : nat) (T : ptree) : ptree :=
  match level with
  | O => T
  | S below => PT (troot T) (upto (Z.to_nat (user_entries level)) (fun _ => cow_slot below (cow_tree below)) (tslots T))
  end.

(** The address a list of indices stands for, as the walks compute it. *)
Fixpoint table_address (prefix : Z) (idx : list Z) : Z :=
  match idx with
  | [] => prefix
  | i :: rest => table_address (page_table_virtual_address prefix i (length idx)) rest
  end.

Lemma user_entries_bound level : 0 <= user_entries level <= 512.
Proof. unfold user_entries, ENTRY_COUNT. by destruct (Nat.eqb level 4). Qed.

Lemma testbit_user_writable k : 0 <= k -> Z.testbit USER_WRITABLE k = (k <? 3).
Proof.
  intros Hk. unfold USER_WRITABLE, VMM_PRESENT, VMM_USER, VMM_WRITABLE. change (2 ^ 0 |! 2 ^ 2 |! 2 ^ 1) with (Z.ones 3).
  rewrite Z.testbit_ones_nonneg by lia. done.
Qed.

Lemma user_writable_bits e : is_u64 e ->
  user_writable e = has e VMM_PRESENT && has e VMM_USER && has e VMM_WRITABLE.
Proof.
  intros He. unfold user_writable. rewrite has_PRESENT, has_USER, has_WRITABLE. apply eq_bool_prop_intro. split.
  - intros H. apply Is_true_true, Z.eqb_eq in H. assert (Hb : forall k, 0 <= k < 3 -> Z.testbit e k = true).
    { intros k Hk. assert (E : Z.testbit (Z.land e USER_WRITABLE) k = true) by (rewrite H, testbit_user_writable by lia; lia).
      rewrite Z.land_spec in E. by apply andb_prop in E as [E _]. }
    by rewrite !Hb by lia.
  - intros H. apply Is_true_true in H. apply andb_prop in H as (H & H1). apply andb_prop in H as (H0 & H2).
    apply Is_true_true, Z.eqb_eq. apply Z.bits_inj'. intros k Hk. rewrite Z.land_spec, testbit_user_writable by done.
    destruct (Z.ltb_spec k 3); [|by rewrite andb_false_r]. assert (k = 0 \/ k = 1 \/ k = 2) as [->|[->| ->]] by lia; rewrite ?H0, ?H1, ?H2; done.
Qed.

Lemma testbit_not_writable k : 0 <= k -> Z.testbit (not64 VMM_WRITABLE) k = (k <? 64) && negb (k =? 1).
Proof.
  intros Hk. rewrite testbit_not64 by done. unfold VMM_WRITABLE. rewrite testbit_pow2 by done.
  by destruct (bool_decide_reflect (k = 1)), (Z.eqb_spec k 1).
Qed.

Lemma cow_protected_bit e k : is_u64 e -> 0 <= k ->
  Z.testbit (cow_protected e) k = (Z.testbit e k && negb (k =? 1)) || (k =? 9).
Proof.
  intros He Hk. unfold cow_protected. rewrite Z.lor_spec, Z.land_spec, testbit_not_writable by done.
  unfold VMM_COPY_ON_WRITE. rewrite testbit_pow2 by done. destruct (Z.ltb_spec k 64).
  - by destruct (bool_decide_reflect (k = 9)), (Z.eqb_spec k 9).
  - rewrite (testbit_u64_high e k) by done. rewrite bool_decide_false by lia. simpl. symmetry. apply Z.eqb_neq. lia.
Qed.

Lemma cow_protected_u64 e : is_u64 e -> is_u64 (cow_protected e).
Proof. intros He. unfold cow_protected. apply lor_u64; [by apply land_u64 | unfold is_u64, VMM_COPY_ON_WRITE; lia]. Qed.

Lemma cow_tree_pages level T : tpages (cow_tree level T) = tpages T.
Proof.
  revert T. induction level as [|below IH]; intros T; [done|]. destruct T as [t slots]. cbn [cow_tree troot tslots].
  rewrite !tpages_unfold. f_equal. apply upto_pages. intros j [e [T'|]] _; [|done]. apply IH.
Qed.

Lemma cow_slot_pages below s : slot_pages (cow_slot below (cow_tree below) s) = slot_pages s.
Proof. destruct s as [e [T'|]]; [apply cow_tree_pages | done]. Qed.

(** The space is the one the processor uses. *)
Definition active (sp : space) (s : vmm_state) : Prop := cr3 s &! PAGE_ADDRESS_MASK = pml4_physical s sp.

(** After [n] of the [w] slots of the table at the root of [T]. *)
Record cow_done (w below n : nat) (sp : space) (T : ptree) (prefix : Z) (s s' : vmm_state) : Prop := {
  cd_rep : rep_w w (S below) (memory s') (PT (troot T) (upto n (fun _ => cow_slot below (cow_tree below)) (tslots T)));
  cd_mem : mem_ok (memory s');
  cd_bytes : forall x, ~ in_pages (tpages T) x -> rd (memory s') x = rd (memory s) x;
  cd_pmm : pmm s' = pmm s;
  cd_cr3 : cr3 s' = cr3 s;
  cd_kernel : kernel_pml4 s' = kernel_pml4 s;
  cd_tlb : forall a, a ∈ tlb s -> a ∈ tlb s';
  cd_flush : active sp s -> forall i rest e, 0 <= i < Z.of_nat n -> length rest = below -> Forall index_ok rest ->
    leaf_of T (i :: rest) = Some (0, e) -> user_writable e = true -> table_address prefix (i :: rest) ∈ tlb s';
}.

Lemma active_same sp s s' : cr3 s' = cr3 s -> kernel_pml4 s' = kernel_pml4 s -> active sp s -> active sp s'.
Proof. unfold active, pml4_physical. intros -> E. by rewrite E. Qed.

Lemma cow_done_start w below sp T prefix s : rep_w w (S below) (memory s) T -> mem_ok (memory s) -> cow_done w below 0 sp T prefix s s.
Proof. intros Hr Hm. split; try done. - rewrite upto_0. by destruct T. - intros. lia. Qed.

Section Step.
Context (w below n : nat) (sp : space) (T : ptree) (prefix : Z) (s s1 : vmm_state).
Context (Hn : (n < w)%nat) (Hnd : NoDup (tpages T)).
Context (Hd : cow_done w below n sp T prefix s s1).

Local Abbreviation f := (fun _ : nat => cow_slot below (cow_tree below)).
Local Abbreviation T1 := (PT (troot T) (upto n f (tslots T))).

Lemma cs_pages : tpages T1 = tpages T.
Proof. destruct T as [t slots]. rewrite !tpages_unfold. f_equal. apply upto_pages. intros. apply cow_slot_pages. Qed.

(** A slot that stays as it is. *)
Lemma cow_keep e c : tslots T !! n = Some (e, c) -> cow_slot below (cow_tree below) (e, c) = (e, c) ->
  (forall rest e', length rest = below -> leaf_of T (Z.of_nat n :: rest) = Some (0, e') -> user_writable e' = false) ->
  cow_done w below (S n) sp T prefix s s1.
Proof.
  intros Hs Hf Hl. destruct Hd. split; try done.
  - rewrite (upto_step n _ _ _ Hs), Hf, list_insert_id; [done|]. by apply upto_here.
  - intros Ha i rest e' Hi Hr Hok Hlf Hu. destruct (decide (i = Z.of_nat n)) as [->|]; [by rewrite (Hl rest e' Hr Hlf) in Hu|].
    apply (cd_flush0 Ha i rest e'); try done. lia.
Qed.

(** The last level: the entry is replaced and its address flushed. *)
Lemma cow_replace e : below = O -> tslots T !! n = Some (e, None) -> is_u64 e -> user_writable e = true ->
  cow_done w below (S n) sp T prefix s
    (flush sp (page_table_virtual_address prefix (Z.of_nat n) 1) (store (troot T) (Z.of_nat n) (cow_protected e) s1)).
Proof.
  intros Hb Hs He Hu. pose proof cs_pages as Hpages. destruct Hd. pose proof (rep_w_page _ _ _ _ cd_rep0) as Hroot. pose proof (proj1 cd_rep0) as Hw.
  set (s2 := store _ _ _ s1). assert (Hmem : memory s2 = set_entry (memory s1) (troot T) (ix n) (cow_protected e)) by done.
  split.
  - rewrite flush_memory, Hmem, (upto_step n _ _ _ Hs).
    change (PT (troot T) (<[n:=cow_slot below (cow_tree below) (e, None)]> (upto n f (tslots T))))
      with (set_slot T1 n (cow_slot below (cow_tree below) (e, None))).
    apply (rep_step w below (memory s1) _ T1 n (e, None) _ []); [done | by rewrite Hpages | by apply upto_here | | | |].
    + intros p Hp. by apply elem_of_nil in Hp.
    + intros x Hx _. by apply rd_set_entry_out.
    + unfold cow_slot, cow_leaf. cbn [fst snd]. rewrite Hb, Hu. cbn [Nat.eqb fst]. apply entry_set_eq. by apply cow_protected_u64.
    + unfold slot_rep, cow_slot. cbn [fst snd]. by left.
  - rewrite flush_memory, Hmem. by apply set_entry_ok.
  - intros x Hx. rewrite flush_memory, Hmem, rd_set_entry_out; [by apply cd_bytes0|]. intros Hc. apply Hx. exists (troot T).
    split; [apply troot_in | unfold ix in Hc; lia].
  - by rewrite flush_pmm.
  - by rewrite flush_cr3.
  - by rewrite flush_kernel.
  - intros a Ha. unfold flush. case_match; [right|]; by apply cd_tlb0.
  - intros Ha i rest e' Hi Hr Hok Hlf Hue. assert (Ha2 : active sp s2) by (by apply (active_same sp s)).
    unfold flush. rewrite (proj2 (Z.eqb_eq _ _) Ha2). cbn [tlb with_tlb].
    destruct (decide (i = Z.of_nat n)) as [->|]; [|right; apply (cd_flush0 Ha i rest e'); try done; lia].
    rewrite Hb in Hr. destruct rest; [|done]. left.
Qed.

(** A slot with a table below it, walked by the recursive call. *)
Lemma cow_descend e T' s2 : tslots T !! n = Some (e, Some T') -> (below <= 3)%nat -> below <> O -> has e VMM_PRESENT = true ->
  cow_done 512 (pred below) (Z.to_nat (user_entries below)) sp T' (page_table_virtual_address prefix (Z.of_nat n) (S below)) s1 s2 ->
  cow_done w below (S n) sp T prefix s s2.
Proof.
  intros Hs Hb H0 Hpr Hd2. pose proof cs_pages as Hpages. destruct Hd. pose proof (rep_w_page _ _ _ _ cd_rep0) as Hroot. pose proof (proj1 cd_rep0) as Hw.
  assert (E : cow_tree below T' = PT (troot T') (upto (Z.to_nat (user_entries below)) (fun _ => cow_slot (pred below) (cow_tree (pred below))) (tslots T')))
    by (by destruct below).
  pose proof (upto_here n f _ _ Hs) as Hs1. pose proof Hd2 as [Hr2 Hm2 Hb2 Hp2 Hc2 Hk2 Ht2 Hf2].
  replace (S (pred below)) with below in Hr2 by lia. rewrite <- E, <- rep_full in Hr2.
  assert (Hnd1 : NoDup (tpages T1)) by (by rewrite Hpages). pose proof Hnd1 as Hnd'.
  rewrite (tpages_split T1 n _ Hs1) in Hnd'. apply NoDup_cons in Hnd' as (Hrn & Hnd'). apply NoDup_app in Hnd' as (_ & Hdis & _).
  assert (Hsub : forall p, p ∈ tpages T' -> p ∈ tpages T) by (intros p Hp; by apply (slot_pages_in T n (e, Some T'))).
  assert (Hpg : forall p, p ∈ tpages T' -> is_page p) by (intros p Hp; apply (rep_w_pages _ _ _ T1 p cd_rep0); rewrite Hpages; by apply Hsub).
  split.
  - rewrite (upto_step n _ _ _ Hs).
    change (PT (troot T) (<[n:=cow_slot below (cow_tree below) (e, Some T')]> (upto n f (tslots T))))
      with (set_slot T1 n (e, Some (cow_tree below T'))).
    apply (rep_step w below (memory s1) _ T1 n (e, Some T') _ (tpages T')); [done | done | done | | | |].
    + intros p Hp. split_and!.
      * by apply Hpg.
      * intros ->. apply Hrn, elem_of_app. by left.
      * by apply Hdis.
    + intros x _ Hx. by apply Hb2.
    + destruct cd_rep0 as (_ & _ & _ & Hslots). destruct (Hslots n _ Hs1) as (He & _). cbn [fst troot] in *. rewrite <- He.
      apply entry_ext. intros x Hx. apply Hb2. apply (in_pages_apart _ (troot T)); [done | done | | unfold ix in Hx; lia].
      intros Hin. apply Hrn, elem_of_app. by left.
    + destruct cd_rep0 as (_ & _ & _ & Hslots). destruct (Hslots n _ Hs1) as (_ & Hslot). unfold slot_rep in *. cbn [fst snd] in *.
      destruct Hslot as (_ & Hne & _). split; [done|]. rewrite E. cbn [troot]. split; [done|]. by rewrite <- E.
  - done.
  - intros x Hx. rewrite Hb2; [by apply cd_bytes0|]. intros (p & Hp & Hpx). apply Hx. exists p. split; [by apply Hsub | done].
  - congruence.
  - congruence.
  - congruence.
  - intros a Ha. by apply Ht2, cd_tlb0.
  - intros Ha i rest e' Hi Hr Hok Hlf Hue. destruct (decide (i = Z.of_nat n)) as [->|]; [|apply Ht2, (cd_flush0 Ha i rest e'); try done; lia].
    destruct rest as [|j rest]; [simpl in Hr; lia|]. apply Forall_cons in Hok as (Hj & Hok). cbn [leaf_of] in Hlf.
    rewrite Nat2Z.id, Hs, Hpr in Hlf. cbn [negb] in Hlf. cbn [length] in Hr.
    change (table_address (page_table_virtual_address prefix (Z.of_nat n) (S (S (length rest)))) (j :: rest) ∈ tlb s2). rewrite Hr.
    apply (Hf2 ltac:(by apply (active_same sp s)) j rest e'); try done; [|lia].
    unfold user_entries. rewrite (proj2 (Nat.eqb_neq below 4)) by lia. unfold index_ok, ENTRY_COUNT in *. lia.
Qed.
End Step.

Lemma user_writable_present e : user_writable e = true -> has e VMM_PRESENT = true.
Proof.
  unfold user_writable. intros H. apply Z.eqb_eq in H. rewrite has_PRESENT.
  assert (E : Z.testbit (Z.land e USER_WRITABLE) 0 = true) by (by rewrite H). rewrite Z.land_spec in E. by apply andb_prop in E as [E _].
Qed.

Lemma leaf_of_slot T n rest e c : tslots T !! n = Some (e, c) ->
  leaf_of T (Z.of_nat n :: rest) = if negb (has e VMM_PRESENT) then None else match c with Some T' => leaf_of T' rest | None => Some (alen rest, e) end.
Proof. intros H. cbn [leaf_of]. by rewrite Nat2Z.id, H. Qed.

(** The slot of a table as the walks see it. *)
Lemma slot_cases w below m T n e c : rep_w w (S below) m T -> tslots T !! n = Some (e, c) ->
  entry_at m (troot T) (Z.of_nat n) = e /\
  match c with
  | Some T' => below <> O /\ has e VMM_PRESENT = true /\ has e PAGE_SIZE_FLAG = false /\ table_physical e = troot T' /\ rep below m T'
  | None => below = O \/ has e VMM_PRESENT = false \/ has e PAGE_SIZE_FLAG = true
  end.
Proof.
  intros (_ & _ & _ & Hs) Hn. destruct (Hs n _ Hn) as (He & Hslot). split; [done|]. unfold slot_rep in Hslot. cbn [fst snd] in Hslot.
  destruct c as [T'|].
  - destruct Hslot as (H0 & H1 & H2). apply next_Some in H1 as (H3 & H4 & H5). done.
  - destruct Hslot as [|H]; [by left|]. right. rewrite next_cases in H. destruct (has e VMM_PRESENT), (has e PAGE_SIZE_FLAG); auto; done.
Qed.

Lemma rep_lookup w below m T n : rep_w w (S below) m T -> (n < w)%nat -> exists e c, tslots T !! n = Some (e, c).
Proof. intros (_ & _ & Hlen & _) Hn. rewrite <- Hlen in Hn. apply lookup_lt_is_Some_2 in Hn as ((e & c) & H). eauto. Qed.

Lemma subtree_NoDup T n e T' : NoDup (tpages T) -> tslots T !! n = Some (e, Some T') -> NoDup (tpages T').
Proof.
  destruct T as [t slots]. rewrite tpages_unfold. intros Hnd Hs. apply NoDup_cons in Hnd as (_ & Hnd). by apply (flat_map_NoDup _ _ _ _ Hnd Hs).
Qed.

(** One round of the loop. *)
Definition protect_body (below : nat) (sp : space) (table prefix : Z) (i : Z) (s : vmm_state) : vmm_state :=
  let entry := load table i s in
  if negb (has entry VMM_PRESENT) then s
  else
    let address := page_table_virtual_address prefix i (S below) in
    match below with
    | S _ => if has entry PAGE_SIZE_FLAG then s else protect_user_mappings_cow below sp (table_physical entry) address s
    | O =>
        if negb (user_writable entry) then s
        else flush sp address (store table i (cow_protected entry) s)
    end.

Lemma protect_body_step w below n sp T prefix s s1 : (n < w)%nat -> (below <= 3)%nat -> rep_w w (S below) (memory s) T -> NoDup (tpages T) ->
  (forall T' prefix' s', below <> O -> rep below (memory s') T' -> mem_ok (memory s') -> NoDup (tpages T') ->
    cow_done 512 (pred below) (Z.to_nat (user_entries below)) sp T' prefix' s' (protect_user_mappings_cow below sp (troot T') prefix' s')) ->
  cow_done w below n sp T prefix s s1 ->
  cow_done w below (S n) sp T prefix s (protect_body below sp (troot T) prefix (Z.of_nat n) s1).
Proof.
  intros Hn Hlv Hr Hnd Hsub Hd. destruct (rep_lookup _ _ _ _ _ Hr Hn) as (e & c & Hs).
  pose proof (upto_here _ (fun _ => cow_slot below (cow_tree below)) _ _ Hs) as Hs1.
  destruct (slot_cases _ _ _ _ _ _ _ (cd_rep _ _ _ _ _ _ _ _ Hd) Hs1) as (He & Hc). cbn [troot] in He.
  assert (Hu64 : is_u64 e) by (rewrite <- He; apply entry_u64, Hd). unfold protect_body, load. rewrite He.
  destruct c as [T'|].
  - destruct Hc as (H0 & Hp & Hps & Ht & Hr'). rewrite Hp, Ht. cbn [negb]. destruct below as [|b]; [done|]. rewrite Hps.
    apply (cow_descend _ _ _ _ _ _ _ _ Hn Hnd Hd e T'); [done | done | done | done|]. apply Hsub; [done | done | apply Hd|].
    by apply (subtree_NoDup T n e).
  - assert (Hkeep : has e VMM_PRESENT = false \/ below <> O \/ user_writable e = false -> cow_done w below (S n) sp T prefix s s1).
    { intros Hcase. apply (cow_keep _ _ _ _ _ _ _ _ Hn Hd e None Hs).
      - unfold cow_slot, cow_leaf. cbn [fst snd]. destruct (Nat.eqb_spec below 0); [|done].
        destruct (user_writable e) eqn:Hu; [|done]. apply user_writable_present in Hu. destruct Hcase as [|[|]]; congruence.
      - intros rest e' Hr'. rewrite (leaf_of_slot _ _ _ _ _ Hs). destruct (has e VMM_PRESENT); [|done]. intros [= E <-].
        destruct Hcase as [|[|]]; [done | | done]. unfold alen in E. lia. }
    destruct (has e VMM_PRESENT) eqn:Hp; cbn [negb]; [|by apply Hkeep; left].
    destruct below as [|b]; [|destruct Hc as [|[|Hc]]; [done | done | rewrite Hc; apply Hkeep; by right; left]].
    destruct (user_writable e) eqn:Hu; cbn [negb]; [|by apply Hkeep; right; right]. by apply cow_replace.
Qed.

Lemma protect_user_spec w level T sp prefix s : (level < 4)%nat -> user_entries (S level) <= Z.of_nat w -> rep_w w (S level) (memory s) T ->
  mem_ok (memory s) -> NoDup (tpages T) ->
  cow_done w level (Z.to_nat (user_entries (S level))) sp T prefix s (protect_user_mappings_cow (S level) sp (troot T) prefix s).
Proof.
  revert w T prefix s. induction level as [|below IH]; intros w T prefix s Hlv Hw Hr Hm Hnd; pose proof user_entries_bound as Hub.
  all: match goal with |- cow_done _ ?b _ _ _ _ _ _ =>
    change (cow_done w b (Z.to_nat (user_entries (S b))) sp T prefix s (for_up (trips 0 (user_entries (S b))) 0 (protect_body b sp (troot T) prefix) s));
    pose proof (for_up_ind (fun i s' => cow_done w b (Z.to_nat i) sp T prefix s s') (protect_body b sp (troot T) prefix)
      (trips 0 (user_entries (S b))) 0 s) as Hfor end.
  all: unfold trips in *; rewrite Z.sub_0_r, Z.add_0_l, Z2Nat.id in Hfor by apply Hub.
  all: rewrite Z.sub_0_r; apply Hfor; [by apply cow_done_start|]; intros j s1 Hj Hd.
  all: replace (Z.to_nat (j + 1)) with (S (Z.to_nat j)) by lia; rewrite <- (Z2Nat.id j) at 2 by lia.
  all: apply protect_body_step; try done; try lia.
  intros T' prefix' s' _ Hr' Hm' Hnd'. apply IH; [lia | specialize (Hub (S below)); lia | by apply rep_full | done | done].
Qed.

Lemma cow_leaf_present e : is_u64 e -> has (cow_leaf e) VMM_PRESENT = has e VMM_PRESENT.
Proof.
  intros He. unfold cow_leaf. destruct (user_writable e); [|done]. rewrite !has_PRESENT, cow_protected_bit by done. simpl.
  by rewrite andb_true_r, orb_false_r.
Qed.

(** What the walk makes of one leaf. *)
Definition cow_result (bound i : Z) (o : option (Z * Z)) : option (Z * Z) :=
  match o with
  | Some (l, e) => if (l =? 0) && (i <? bound) then Some (l, cow_leaf e) else Some (l, e)
  | None => None
  end.

Lemma cow_tree_leaf w level m T i rest : (level <= 4)%nat -> rep_w w level m T -> mem_ok m -> length (i :: rest) = level ->
  i < Z.of_nat w -> Forall index_ok (i :: rest) -> leaf_of (cow_tree level T) (i :: rest) = cow_result (user_entries level) i (leaf_of T (i :: rest)).
Proof.
  revert w T i rest. induction level as [|below IH]; intros w T i rest Hlv Hr Hm Hl Hiw Hok; [done|]. apply Forall_cons in Hok as (Hi & Hok).
  apply index_nat in Hi as (n & -> & _). unfold ix in Hiw. assert (Hn : (n < w)%nat) by lia. destruct (rep_lookup _ _ _ _ _ Hr Hn) as (e & c & Hs).
  destruct (slot_cases _ _ _ _ _ _ _ Hr Hs) as (He & Hc). cbn [length] in Hl.
  assert (Hu64 : is_u64 e) by (rewrite <- He; by apply entry_u64).
  set (bound := user_entries (S below)) in *. unfold ix.
  assert (Hs' : tslots (cow_tree (S below) T) !! n =
    Some (if (n <? Z.to_nat bound)%nat then cow_slot below (cow_tree below) (e, c) else (e, c))).
  { cbn [cow_tree tslots]. by rewrite upto_lookup, Hs. }
  assert (Hlt : (n <? Z.to_nat bound)%nat = (Z.of_nat n <? bound)) by (pose proof (user_entries_bound (S below)) as Hbb; change (user_entries (S below)) with bound in Hbb;
    destruct (Nat.ltb_spec n (Z.to_nat bound)), (Z.ltb_spec (Z.of_nat n) bound); done || lia).
  rewrite Hlt in Hs'. rewrite (leaf_of_slot T n rest e c Hs). destruct c as [T'|].
  - destruct Hc as (H0 & Hp & Hps & Ht & Hr'). rewrite Hp. cbn [negb].
    assert (Hsub : leaf_of (cow_tree below T') rest = cow_result (user_entries below) (aget 0 rest 0) (leaf_of T' rest)).
    { destruct rest as [|j rest]; [cbn [length] in Hl; lia|]. apply Forall_cons in Hok as Hok2; destruct Hok2 as (Hj & _).
      apply (IH 512%nat); [lia | by apply rep_full | done | lia | apply Hj | done]. }
    assert (Hfull : aget 0 rest 0 < user_entries below).
    { unfold user_entries. rewrite (proj2 (Nat.eqb_neq below 4)) by lia. destruct rest as [|j rest]; [cbn [length] in Hl; lia|].
      apply Forall_cons in Hok as (Hj & _). apply Hj. }
    destruct (Z.ltb_spec (Z.of_nat n) bound) as [Hb|Hb]; rewrite (leaf_of_slot _ n rest e _ Hs'), Hp; cbn [negb].
    + rewrite Hsub. unfold cow_result. destruct (leaf_of T' rest) as [(l & e')|]; [|done].
      rewrite (proj2 (Z.ltb_lt _ _) Hfull), (proj2 (Z.ltb_lt _ _) Hb). done.
    + unfold cow_result. destruct (leaf_of T' rest) as [(l & e')|]; [|done]. rewrite (proj2 (Z.ltb_ge _ _) Hb). by rewrite andb_false_r.
  - destruct (Z.ltb_spec (Z.of_nat n) bound) as [Hb|Hb].
    + unfold cow_slot in Hs'. cbn [fst snd] in Hs'. rewrite (leaf_of_slot _ n rest _ _ Hs'). destruct (Nat.eqb_spec below 0) as [E|E].
      * rewrite cow_leaf_present by done. destruct (has e VMM_PRESENT); [|done]. cbn [negb]. unfold cow_result.
        rewrite (proj2 (Z.ltb_lt _ _) Hb). destruct rest; [done | cbn [length] in Hl; lia].
      * destruct (has e VMM_PRESENT); [|done]. cbn [negb]. unfold cow_result. rewrite (proj2 (Z.eqb_neq (alen rest) 0)); [done|]. unfold alen. lia.
    + rewrite (leaf_of_slot _ n rest e _ Hs'). destruct (has e VMM_PRESENT); [|done]. cbn [negb]. unfold cow_result.
      by rewrite (proj2 (Z.ltb_ge _ _) Hb), andb_false_r.
Qed.

(** [prefix | index << shift] adds when the prefix is aligned above. *)
Lemma page_table_address_add prefix i level : (1 <= level <= 4)%nat -> index_ok i -> 0 <= prefix ->
  prefix mod 2 ^ (12 + 9 * Z.of_nat level) = 0 ->
  page_table_virtual_address prefix i level = prefix + i * 2 ^ (12 + 9 * (Z.of_nat level - 1)).
Proof.
  intros Hl Hi H0 Hp. unfold page_table_virtual_address. rewrite Z.shiftl_mul_pow2 by lia. unfold index_ok, ENTRY_COUNT in Hi.
  set (k := 12 + 9 * (Z.of_nat level - 1)). replace (12 + 9 * Z.of_nat level) with (k + 9) in Hp by lia.
  assert (Hk : 12 <= k <= 39) by lia. assert (Hb : 0 <= i * 2 ^ k < 2 ^ (k + 9)) by (rewrite Z.pow_add_r by lia; change (2 ^ 9) with 512; nia).
  rewrite u64_small; [by apply (lor_disjoint_add _ _ (k + 9)); [lia | |]|]. split; [lia|].
  apply (Z.lt_le_trans _ (2 ^ (k + 9))); [lia|]. apply Z.pow_le_mono_r; lia.
Qed.

Definition path_address (i j k l : Z) : Z := i * 2 ^ 39 + j * 2 ^ 30 + k * 2 ^ 21 + l * 2 ^ 12.

Lemma table_address_path i j k l : index_ok i -> index_ok j -> index_ok k -> index_ok l ->
  table_address 0 [i; j; k; l] = path_address i j k l.
Proof.
  intros Hi Hj Hk Hl. cbn [table_address length]. pose proof Hi as Hi'. pose proof Hj as Hj'. pose proof Hk as Hk'. unfold index_ok, ENTRY_COUNT in Hi', Hj', Hk'.
  rewrite (page_table_address_add 0 i 4) by (done || lia). change (2 ^ (12 + 9 * (Z.of_nat 4 - 1))) with (2 ^ 39).
  rewrite (page_table_address_add _ j 3); [| lia | done | lia | change (2 ^ (12 + 9 * Z.of_nat 3)) with (2 ^ 39); rewrite Z.add_0_l; by apply Z_mod_mult].
  change (2 ^ (12 + 9 * (Z.of_nat 3 - 1))) with (2 ^ 30).
  rewrite (page_table_address_add _ k 2); [| lia | done | lia | change (2 ^ (12 + 9 * Z.of_nat 2)) with (2 ^ 30)].
  2: { replace (0 + i * 2 ^ 39 + j * 2 ^ 30) with ((i * 512 + j) * 2 ^ 30) by (change (2 ^ 39) with (512 * 2 ^ 30); lia). by apply Z_mod_mult. }
  change (2 ^ (12 + 9 * (Z.of_nat 2 - 1))) with (2 ^ 21).
  rewrite (page_table_address_add _ l 1); [| lia | done | lia | change (2 ^ (12 + 9 * Z.of_nat 1)) with (2 ^ 21)].
  2: { replace (0 + i * 2 ^ 39 + j * 2 ^ 30 + k * 2 ^ 21) with ((i * 262144 + j * 512 + k) * 2 ^ 21)
         by (change (2 ^ 39) with (262144 * 2 ^ 21); change (2 ^ 30) with (512 * 2 ^ 21); lia). by apply Z_mod_mult. }
  change (2 ^ (12 + 9 * (Z.of_nat 1 - 1))) with (2 ^ 12). unfold path_address. lia.
Qed.

Lemma path_address_spec i j k l : 0 <= i < 256 -> index_ok j -> index_ok k -> index_ok l -> let va := path_address i j k l in
  is_u64 va /\ va < 2 ^ 47 /\ va mod 2 ^ 12 = 0 /\ indices va = [i; j; k; l] /\ address_is_canonical va = true.
Proof.
  intros Hi Hj Hk Hl va. unfold index_ok, ENTRY_COUNT in *. set (p := i * 134217728 + j * 262144 + k * 512 + l).
  assert (E : va = p * 2 ^ 12) by (unfold va, path_address, p; change (2 ^ 39) with (134217728 * 2 ^ 12);
    change (2 ^ 30) with (262144 * 2 ^ 12); change (2 ^ 21) with (512 * 2 ^ 12); lia).
  assert (Hva : 0 <= va < 2 ^ 47) by (rewrite E; unfold p; change (2 ^ 47) with (34359738368 * 2 ^ 12); lia).
  assert (Hd : va / 2 ^ 12 = p) by (rewrite E; by apply Z.div_mul). split_and!.
  - unfold is_u64. lia.
  - lia.
  - rewrite E. by apply Z_mod_mult.
  - unfold indices. rewrite !index_div by done. replace (va / 2 ^ 39) with (va / 2 ^ 12 / 134217728) by (by rewrite Z.div_div).
    replace (va / 2 ^ 30) with (va / 2 ^ 12 / 262144) by (by rewrite Z.div_div). replace (va / 2 ^ 21) with (va / 2 ^ 12 / 512) by (by rewrite Z.div_div).
    rewrite Hd. clear E Hva Hd va. unfold p. repeat f_equal; Z.div_mod_to_equations; lia.
  - unfold address_is_canonical. rewrite (has_pow2 va 47), (testbit_small va 47 47) by lia. rewrite Z.shiftr_div_pow2, Z.div_small by lia. done.
Qed.

(** The walks' address of a path of the lower half, and the path of an address. *)
Lemma page_path_address idx : page_path idx -> user_half idx -> let va := table_address 0 idx in
  is_u64 va /\ va < 2 ^ 47 /\ va mod 2 ^ 12 = 0 /\ indices va = idx /\ address_is_canonical va = true.
Proof.
  intros (Hl & Hok) Hu. destruct idx as [|i [|j [|k [|l [|]]]]]; try done. repeat (apply Forall_cons in Hok as (? & Hok)).
  rewrite table_address_path by done. apply path_address_spec; try done. unfold user_half, aget in Hu. simpl in Hu. unfold index_ok in *. lia.
Qed.

End VmmCow.
