(* ===== verification/VmmFork.v ===== *)
(** * VmmFork: two spaces that share their user pages

    [clone_user_mappings_cow] is the sequence of [pmm_retain_page] and
    [map_page_locked] calls for the user pages of the parent, in the order of
    the walk; with the protection of the parent that follows it, parent and
    child map the same frames and neither can write to them. *)

From S2P Require Import Prelude Memory Pmm PageTable Vmm VmmSafety KernelPages Kmalloc TableTree VmmSpace VmmCow.
Import Memory.Memory Pmm.Pmm PageTable.PageTable Vmm.Vmm VmmSafety.VmmSafety TableTree.TableTree VmmSpace.VmmSpace VmmCow.VmmCow.

Module VmmFork.

(** ** The calls of the walk *)

(** A user page with its entry, or None for a large one. *)
Definition share_step (child : Z) (page : option (Z * Z)) (s : vmm_state) : bool * vmm_state :=
  match page with
  | None => (false, s)
  | Some (va, e) =>
      let physical := table_physical e in
      let '(retained, p) := pmm_retain_page physical (pmm s) in
      let s := with_pmm s p in
      if negb retained then (false, s)
      else
        let '(mapped, s) := map_page_locked (Some (Space child)) va physical (shared_flags e) s in
        if mapped then (true, s) else (false, free_page physical s)
  end.

Fixpoint share_all (child : Z) (pages : list (option (Z * Z))) (s : vmm_state) : bool * vmm_state :=
  match pages with
  | [] => (true, s)
  | page :: pages =>
      let '(ok, s) := share_step child page s in
      if ok then share_all child pages s else (false, s)
  end.

(** What the walk does with one slot. *)
Definition slot_walk (below : nat) (prefix : Z) (sub : Z -> ptree -> list (option (Z * Z))) (T : ptree) (j : nat) : list (option (Z * Z)) :=
  match tslots T !! j with
  | None => []
  | Some (e, c) =>
      let address := page_table_virtual_address prefix (Z.of_nat j) (S below) in
      match c with
      | Some T' => sub address T'
      | None => if has e VMM_PRESENT && has e VMM_USER then [match below with O => Some (address, e) | S _ => None end] else []
      end
  end.

Fixpoint walk (level : nat) (prefix : Z) (T : ptree) : list (option (Z * Z)) :=
  match level with
  | O => []
  | S below => concat (map (slot_walk below prefix (walk below) T) (seq 0 (Z.to_nat (user_entries level))))
  end.

Lemma share_all_app child l1 l2 s : share_all child (l1 ++ l2) s =
  let '(ok, s1) := share_all child l1 s in if ok then share_all child l2 s1 else (false, s1).
Proof.
  revert s. induction l1 as [|p l1 IH]; intros s; [done|]. cbn [app share_all]. destruct (share_step child p s) as [[] s1]; [apply IH | done].
Qed.

(** ** The parent stays what it was *)

(** [T], the tree of the parent, is as in [s0] and apart from the child. *)
Record beside (s0 s : vmm_state) (child : Z) (T : ptree) : Prop := {
  bs_wf : space_wf s child;
  bs_bytes : forall x, in_pages (tpages T) x -> rd (memory s) x = rd (memory s0) x;
  bs_apart : forall r t, path_ok r -> table_at (memory s) child r = Some t -> t ∉ tpages T;
  bs_busy : forall p, p ∈ tpages T -> page_busy (pmm s) p;
  bs_pages : forall p, p ∈ tpages T -> is_page p;
}.

(** The state after one page: its mapping in the child, its reference. *)
Definition shared_entry (e : Z) : Z := leaf_entry (table_physical e) (shared_flags e).

Definition add_refs (a : page_state) (k : Z) : page_state := match a with Used n => Used (n + k) | _ => a end.

(** The same machine, pages in use stay in use. *)
Record same_machine (s s' : vmm_state) : Prop := {
  sm_cr3 : cr3 s' = cr3 s;
  sm_kernel : kernel_pml4 s' = kernel_pml4 s;
  sm_shape : same_shape (pmm s) (pmm s');
}.

Record shared (s s' : vmm_state) (child va e : Z) : Prop := {
  sh_machine : same_machine s s';
  sh_leaf : forall idx, page_path idx -> leaf (memory s') child idx =
    if decide (idx = indices va) then Some (0, shared_entry e) else leaf (memory s) child idx;
  sh_unmapped : leaf (memory s) child (indices va) = None;
  sh_abs : forall q, 0 <= q < page_count (pmm s) -> abs (pmm s) q <> Free ->
    abs (pmm s') q = add_refs (abs (pmm s) q) (if decide (q = table_physical e / PMM_PAGE_SIZE) then 1 else 0);
  sh_bytes : forall x, page_busy (pmm s) x -> ~ tree_byte (memory s) child x -> rd (memory s') x = rd (memory s) x;
}.

Record refused (s s' : vmm_state) (child : Z) : Prop := {
  rf_machine : same_machine s s';
  rf_leaf : forall idx, page_path idx -> leaf (memory s') child idx = leaf (memory s) child idx;
  rf_abs : forall q, 0 <= q < page_count (pmm s) -> abs (pmm s') q = abs (pmm s) q;
  rf_bytes : forall x, page_busy (pmm s) x -> ~ tree_byte (memory s) child x -> rd (memory s') x = rd (memory s) x;
}.

Lemma add_refs_0 a : add_refs a 0 = a.
Proof. destruct a; [done | done|]. simpl. by rewrite Z.add_0_r. Qed.

Lemma add_refs_Free a k : a <> Free -> add_refs a k <> Free.
Proof. by destruct a. Qed.

Lemma refused_refl s child : refused s s child.
Proof. by split. Qed.

(** More references keep pages busy. *)
Lemma busy_more p p' x : same_shape p p' -> (forall q, 0 <= q < page_count p -> abs p q <> Free -> abs p' q <> Free) ->
  page_busy p x -> page_busy p' x.
Proof. intros Hs H Hb Hx. rewrite (ss_page_count _ _ Hs) in Hx. apply H; [done | by apply Hb]. Qed.

Section ShareStep.
Context (s : vmm_state) (child va e : Z) (Hwf : space_wf s child) (Hva : is_u64 va) (He : is_u64 e).
Let pa := table_physical e.
Context (q0 n : Z) (p1 : pmm_state).
Context (Hu : used_at (pmm s) pa q0 n) (Hw1 : pmm_wf p1) (Hs1 : same_shape (pmm s) p1).
Context (Ha1 : forall q, 0 <= q -> abs p1 q = upd (abs (pmm s)) q0 (Used (n + 1)) q).
Let s1 := with_pmm s p1.

Lemma ss_page : is_page pa /\ pa / PMM_PAGE_SIZE = q0.
Proof. split; [by apply table_physical_page|]. by apply (used_at_good (pmm s) pa q0 n); [apply Hwf|]. Qed.

Lemma ss_abs q : 0 <= q -> abs p1 q = add_refs (abs (pmm s) q) (if decide (q = pa / PMM_PAGE_SIZE) then 1 else 0).
Proof.
  intros Hq. destruct ss_page as (_ & ->). rewrite Ha1 by done. unfold upd. case_decide as E; [|by rewrite add_refs_0].
  destruct Hu as (_ & _ & Hn). by rewrite E, Hn.
Qed.

Lemma ss_busy q : 0 <= q < page_count (pmm s) -> abs (pmm s) q <> Free -> abs p1 q <> Free.
Proof. intros Hq H. rewrite ss_abs by lia. by apply add_refs_Free. Qed.

Lemma ss_wf : space_wf s1 child.
Proof. apply space_wf_pmm; [done | done | done | apply ss_busy]. Qed.

Lemma ss_mapped s' : mapped s1 s' (Space child) va pa (shared_flags e) -> shared s s' child va e /\
  forall r t, path_ok r -> table_at (memory s') child r = Some t -> table_at (memory s) child r = Some t \/ ~ page_busy (pmm s) t.
Proof.
  intros Hm. pose proof (mp_outside _ _ _ _ _ _ Hm) as Ho. split.
  - split.
    + split; [apply Ho | apply Ho | transitivity p1; [done | apply Ho]].
    + intros idx Hidx. apply (mp_leaf _ _ _ _ _ _ Hm idx Hidx).
    + apply (mp_unmapped _ _ _ _ _ _ Hm).
    + intros q Hq Hf. fold pa. rewrite <- ss_abs by lia. apply (mp_abs _ _ _ _ _ _ Hm); [|by apply ss_busy].
      simpl. by rewrite (ss_page_count _ _ Hs1).
    + intros x Hx Ht. apply (so_bytes _ _ _ Ho); [|done]. by apply (busy_more (pmm s)); [| apply ss_busy |].
  - intros r t Hr Ht. destruct (mp_new _ _ _ _ _ _ Hm r t Hr Ht) as [|Hn]; [by left|]. right. intros Hb. apply Hn.
    by apply (busy_more (pmm s)); [| apply ss_busy |].
Qed.

Lemma ss_refused s2 : space_wf s2 child -> space_sim s1 s2 child -> let s' := free_page pa s2 in
  space_wf s' child /\ refused s s' child /\
  forall r t, path_ok r -> table_at (memory s') child r = Some t -> table_at (memory s) child r = Some t.
Proof.
  intros Hw2 Hsim s'. pose proof (sim_outside _ _ _ Hsim) as Ho. destruct Hu as (Epa & Hq0 & Hn).
  pose proof (used_at_good (pmm s) pa q0 n ltac:(apply Hwf) Hu) as (_ & _ & _ & _ & _ & Hn1).
  assert (Hsh : same_shape (pmm s) (pmm s2)) by (transitivity p1; [done | apply Ho]).
  assert (Hab2 : forall q, 0 <= q < page_count (pmm s) -> abs (pmm s2) q = upd (abs (pmm s)) q0 (Used (n + 1)) q).
  { intros q Hq. rewrite (sim_abs _ _ _ Hsim) by (simpl; by rewrite (ss_page_count _ _ Hs1)). apply Ha1. lia. }
  assert (Hu2 : used_at (pmm s2) pa q0 (n + 1)).
  { split; [done|]. split; [by rewrite (ss_page_count _ _ Hsh)|]. rewrite Hab2 by done. unfold upd. by rewrite decide_True. }
  destruct ss_page as ((_ & Hlt) & _).
  destruct (free_page_spec (pmm s2) pa ltac:(apply Hw2)) as [(q & k & p' & Hu' & Ef & W & S & _ & A)|(Hno & _)].
  { unfold PMM_PAGE_SIZE. lia. }
  2: by apply Hno in Hu2.
  assert (q = q0) as -> by (destruct Hu' as (E' & _); unfold PMM_PAGE_SIZE in *; lia).
  assert (k = n + 1) as -> by (destruct Hu' as (_ & _ & E1), Hu2 as (_ & _ & E2); congruence).
  assert (Hs' : s' = with_pmm s2 p') by (unfold s', free_page; by rewrite Ef).
  assert (Habs : forall q, 0 <= q < page_count (pmm s) -> abs p' q = abs (pmm s) q).
  { intros q Hq. rewrite A by lia. rewrite (proj2 (Z.eqb_neq (n + 1) 1)) by lia. unfold upd at 1. case_decide as E.
    - rewrite E, Hn. f_equal. lia.
    - rewrite Hab2 by done. unfold upd. by rewrite decide_False. }
  rewrite Hs'. split_and!.
  - apply space_wf_pmm; [done | done | done|]. intros q Hq Hf. rewrite (ss_page_count _ _ Hsh) in Hq. rewrite Habs by done.
    rewrite Hab2 in Hf by done. unfold upd in Hf. case_decide as E; [by rewrite E, Hn | done].
  - split; [split; [apply Ho | apply Ho | by transitivity (pmm s2)] | | done|].
    + intros idx Hidx. apply (tree_sim_leaf _ _ _ idx (sim_tree _ _ _ Hsim) Hidx).
    + intros x Hx Ht. apply (so_bytes _ _ _ Ho); [|done]. by apply (busy_more (pmm s)); [| apply ss_busy |].
  - intros r t Hr Ht. cbn [memory with_pmm] in Ht. by rewrite (ts_table _ _ _ (sim_tree _ _ _ Hsim) r Hr) in Ht.
Qed.
End ShareStep.

Lemma share_step_cases child va e s : space_wf s child -> is_u64 va -> is_u64 e ->
  let '(ok, s') := share_step child (Some (va, e)) s in
  space_wf s' child /\
  (forall r t, path_ok r -> table_at (memory s') child r = Some t -> table_at (memory s) child r = Some t \/ ~ page_busy (pmm s) t) /\
  if ok then shared s s' child va e else refused s s' child.
Proof.
  intros Hwf Hva He. unfold share_step. pose proof (table_physical_page e He) as (Hal & Hlt).
  destruct (retain_page_spec (pmm s) (table_physical e) ltac:(apply Hwf)) as [(q & n & p & Hu & Hn & -> & W & S & _ & A)|(_ & ->)].
  { unfold PMM_PAGE_SIZE. lia. }
  - cbn [negb]. pose proof (map_page_cases (Space child) va (table_physical e) (shared_flags e) (with_pmm s p)) as Hm.
    pose proof (ss_wf s child e Hwf He q n p Hu W S A) as Hw1.
    destruct (map_page_locked _ _ _ _ _) as [ok s2]. destruct (Hm Hw1 Hva Hlt) as (Hw2 & Hres). destruct ok.
    + destruct Hres as (_ & Hmap). split; [done|]. destruct (ss_mapped s child va e Hwf He q n p Hu S A s2 Hmap) as (H1 & H2). done.
    + destruct (ss_refused s child e Hwf He q n p Hu S A s2 Hw2 Hres) as (H1 & H2 & H3). split; [done|].
      split; [|done]. intros r t Hr Ht. left. by apply H3.
  - cbn [negb]. split; [by destruct s|]. split; [by left|]. destruct s. apply refused_refl.
Qed.

(** A page of the parent is not a byte of the child's tables. *)
Lemma beside_byte s0 s child T x : beside s0 s child T -> in_pages (tpages T) x -> page_busy (pmm s) x /\ ~ tree_byte (memory s) child x.
Proof.
  intros Hb (p & Hp & Hx). pose proof (bs_pages _ _ _ _ Hb p Hp) as Hpg. split.
  - apply (page_busy_byte _ p x Hpg Hx). by apply Hb.
  - intros (r & t & Hr & Ht & Htx). pose proof (bs_apart _ _ _ _ Hb r t Hr Ht) as Hna.
    pose proof (tw_page _ _ (sw_tree _ _ (bs_wf _ _ _ _ Hb)) r t Hr Ht) as Htp.
    assert (Hne : p <> t) by (by intros ->). destruct (pages_apart p t Hpg Htp Hne); lia.
Qed.

Lemma beside_next s0 s s' child T : beside s0 s child T -> space_wf s' child -> same_shape (pmm s) (pmm s') ->
  (forall q, 0 <= q < page_count (pmm s) -> abs (pmm s) q <> Free -> abs (pmm s') q <> Free) ->
  (forall x, page_busy (pmm s) x -> ~ tree_byte (memory s) child x -> rd (memory s') x = rd (memory s) x) ->
  (forall r t, path_ok r -> table_at (memory s') child r = Some t -> table_at (memory s) child r = Some t \/ ~ page_busy (pmm s) t) ->
  beside s0 s' child T.
Proof.
  intros Hb Hwf Hsh Habs Hbytes Hnew. split; [done | | | | apply Hb].
  - intros x Hx. destruct (beside_byte _ _ _ _ x Hb Hx). rewrite Hbytes by done. by apply Hb.
  - intros r t Hr Ht Hin. destruct (Hnew r t Hr Ht) as [Hold|Hfree]; [by apply (bs_apart _ _ _ _ Hb r t Hr Hold)|].
    apply Hfree. by apply Hb.
  - intros p Hp. apply (busy_more (pmm s)); [done | done | by apply Hb].
Qed.

Lemma share_step_beside s0 s child T va e : beside s0 s child T -> is_u64 va -> is_u64 e ->
  beside s0 (snd (share_step child (Some (va, e)) s)) child T.
Proof.
  intros Hb Hva He. pose proof (share_step_cases child va e s (bs_wf _ _ _ _ Hb) Hva He) as H.
  destruct (share_step child (Some (va, e)) s) as [ok s']. destruct H as (Hwf & Hnew & Hres). cbn [snd].
  destruct ok; apply (beside_next s0 s); try done; try apply Hres.
  - intros q Hq Hf. rewrite (sh_abs _ _ _ _ _ Hres q Hq Hf). by apply add_refs_Free.
  - intros q Hq Hf. by rewrite (rf_abs _ _ _ Hres q Hq).
Qed.

(** ** All pages *)

Definition page_ok (page : option (Z * Z)) : Prop := match page with Some (va, e) => is_u64 va /\ is_u64 e | None => True end.

(** The entry of the page at a path, and how often a frame is mapped. *)
Fixpoint find_page (idx : list Z) (pages : list (option (Z * Z))) : option Z :=
  match pages with
  | [] => None
  | Some (va, e) :: pages => if decide (idx = indices va) then Some e else find_page idx pages
  | None :: pages => find_page idx pages
  end.

Fixpoint frame_count (q : Z) (pages : list (option (Z * Z))) : Z :=
  match pages with
  | [] => 0
  | Some (va, e) :: pages => (if decide (q = table_physical e / PMM_PAGE_SIZE) then 1 else 0) + frame_count q pages
  | None :: pages => frame_count q pages
  end.

Record all_shared (s s' : vmm_state) (child : Z) (pages : list (option (Z * Z))) : Prop := {
  as_machine : same_machine s s';
  as_leaf : forall idx, page_path idx -> leaf (memory s') child idx =
    match find_page idx pages with Some e => Some (0, shared_entry e) | None => leaf (memory s) child idx end;
  as_unmapped : forall idx e, page_path idx -> find_page idx pages = Some e -> leaf (memory s) child idx = None;
  as_abs : forall q, 0 <= q < page_count (pmm s) -> abs (pmm s) q <> Free ->
    abs (pmm s') q = add_refs (abs (pmm s) q) (frame_count q pages);
  as_bytes : forall x, page_busy (pmm s) x -> ~ tree_byte (memory s) child x -> rd (memory s') x = rd (memory s) x;
  as_new : forall r t, path_ok r -> table_at (memory s') child r = Some t -> table_at (memory s) child r = Some t \/ ~ page_busy (pmm s) t;
}.

Lemma same_machine_trans s1 s2 s3 : same_machine s1 s2 -> same_machine s2 s3 -> same_machine s1 s3.
Proof. intros [A B C] [A' B' C']. split; [congruence | congruence | by transitivity (pmm s2)]. Qed.

Lemma all_shared_refl s child : all_shared s s child [].
Proof. split; try done; [|by left]. intros. by rewrite add_refs_0. Qed.

Lemma add_refs_add a j k : add_refs (add_refs a j) k = add_refs a (j + k).
Proof. destruct a; [done | done|]. simpl. f_equal. lia. Qed.

Lemma all_shared_cons s s1 s2 child va e pages : space_wf s child -> space_wf s1 child -> shared s s1 child va e ->
  (forall r t, path_ok r -> table_at (memory s1) child r = Some t -> table_at (memory s) child r = Some t \/ ~ page_busy (pmm s) t) ->
  all_shared s1 s2 child pages -> all_shared s s2 child (Some (va, e) :: pages).
Proof.
  intros Hwf Hwf1 [M L U A B] Hnew [M' L' U' A' B' N'].
  assert (Hmore : forall q, 0 <= q < page_count (pmm s) -> abs (pmm s) q <> Free -> abs (pmm s1) q <> Free).
  { intros q Hq Hf. rewrite (A q Hq Hf). by apply add_refs_Free. }
  assert (Hbusy : forall x, page_busy (pmm s) x -> page_busy (pmm s1) x) by (intros x; by apply busy_more; [apply M|]).
  assert (Hcount : page_count (pmm s1) = page_count (pmm s)) by apply M.
  split.
  - by apply (same_machine_trans s s1).
  - intros idx Hidx. rewrite (L' idx Hidx). cbn [find_page]. destruct (find_page idx pages) as [e'|] eqn:Ef.
    + case_decide; [|done]. exfalso. subst idx.
      specialize (U' _ e' Hidx Ef). rewrite (L _ Hidx), decide_True in U' by done. done.
    + rewrite (L idx Hidx). by case_decide.
  - intros idx e' Hidx. cbn [find_page]. case_decide as E; [intros _; by rewrite E|]. intros Ef. specialize (U' idx e' Hidx Ef).
    rewrite (L idx Hidx), decide_False in U' by done. done.
  - intros q Hq Hf. rewrite A' by (rewrite ?Hcount; auto). rewrite A by done. apply add_refs_add.
  - intros x Hx Ht. rewrite B', B; [done | done | done | by apply Hbusy|]. intros (r & t & Hr & Htr & Hxt).
    destruct (Hnew r t Hr Htr) as [Hold|Hfree]; [by apply Ht; exists r, t|]. apply Hfree.
    pose proof (tw_page _ _ (sw_tree _ _ Hwf1) r t Hr Htr) as Htp. by apply (page_busy_byte _ t x Htp Hxt).
  - intros r t Hr Htr. destruct (N' r t Hr Htr) as [Hold|Hfree]; [by apply Hnew|]. right. intros Hb. by apply Hfree, Hbusy.
Qed.

Lemma share_all_spec s0 child T pages s : beside s0 s child T -> Forall page_ok pages ->
  let '(ok, s') := share_all child pages s in
  beside s0 s' child T /\
  if ok then all_shared s s' child pages /\ Forall is_Some pages
  else exists done rest, pages = done ++ rest /\ all_shared s s' child done.
Proof.
  revert s. induction pages as [|page pages IH]; intros s Hb Hok; cbn [share_all].
  { split; [done|]. split; [apply all_shared_refl | constructor]. }
  apply Forall_cons in Hok as (Hp & Hok). destruct page as [(va & e)|].
  2: { split; [done|]. exists [], (None :: pages). split; [done | apply all_shared_refl]. }
  destruct Hp as (Hva & He). pose proof (share_step_cases child va e s (bs_wf _ _ _ _ Hb) Hva He) as Hc.
  pose proof (share_step_beside s0 s child T va e Hb Hva He) as Hb1.
  destruct (share_step child (Some (va, e)) s) as [ok s1]. cbn [snd] in Hb1. destruct Hc as (Hwf & Hnew & Hres). destruct ok.
  - specialize (IH s1 Hb1 Hok). destruct (share_all child pages s1) as [ok2 s2]. destruct IH as (Hb2 & Hres2). split; [done|].
    destruct ok2.
    + destruct Hres2 as (Ha & Hs). split; [|by constructor]. apply (all_shared_cons s s1); try done. apply Hb.
    + destruct Hres2 as (dn & rest & -> & Ha). exists (Some (va, e) :: dn), rest. split; [done|]. apply (all_shared_cons s s1); try done. apply Hb.
  - split; [done|]. exists [], (Some (va, e) :: pages). split; [done|]. destruct Hres as [M L A B]. split; try done.
    intros q Hq Hf. by rewrite A, add_refs_0.
Qed.

(** ** The walk makes these calls *)

Definition clone_body (below : nat) (child : space) (table prefix : Z) (i : Z) (s : vmm_state) : option unit * vmm_state :=
  let entry := load table i s in
  if negb (has entry VMM_PRESENT) then (None, s)
  else
    let address := page_table_virtual_address prefix i (S below) in
    match below with
    | S _ =>
        if has entry PAGE_SIZE_FLAG then (if has entry VMM_USER then Some tt else None, s)
        else let '(ok, s) := clone_user_mappings_cow below child (table_physical entry) address s in
             (if ok then None else Some tt, s)
    | O =>
        if negb (has entry VMM_USER) then (None, s)
        else
          let physical := table_physical entry in
          let '(retained, p) := pmm_retain_page physical (pmm s) in
          let s := with_pmm s p in
          if negb retained then (Some tt, s)
          else
            let '(mapped, s) := map_page_locked (Some child) address physical (shared_flags entry) s in
            if mapped then (None, s) else (Some tt, free_page physical s)
    end.

Definition stops (r : bool * vmm_state) : option unit * vmm_state := let '(ok, s) := r in (if ok then None else Some tt, s).

Lemma clone_unfold below child table prefix s : clone_user_mappings_cow (S below) child table prefix s =
  let '(r, s) := loop_up (trips 0 (user_entries (S below))) 0 (clone_body below child table prefix) s in
  (match r with None => true | Some _ => false end, s).
Proof. done. Qed.

Lemma address_u64 prefix i level : is_u64 prefix -> is_u64 (page_table_virtual_address prefix i level).
Proof. intros H. apply lor_u64; [done | apply u64_range]. Qed.

Lemma rep_entry_u64 w below m T j e c : rep_w w (S below) m T -> mem_ok m -> tslots T !! j = Some (e, c) -> is_u64 e.
Proof. intros Hr Hm Hj. destruct (slot_cases _ _ _ _ _ _ _ Hr Hj) as (<- & _). by apply entry_u64. Qed.

Lemma walk_ok w level prefix m T : rep_w w level m T -> mem_ok m -> is_u64 prefix -> Forall page_ok (walk level prefix T).
Proof.
  revert w prefix T. induction level as [|below IH]; intros w prefix T Hr Hm Hp; [constructor|]. cbn [walk].
  apply Forall_concat, Forall_forall. intros l Hl. apply list_elem_of_In, in_map_iff in Hl as (j & <- & _).
  unfold slot_walk. destruct (tslots T !! j) as [(e & c)|] eqn:Ej; [|constructor]. pose proof (rep_entry_u64 _ _ _ _ _ _ _ Hr Hm Ej) as He.
  destruct (slot_cases _ _ _ _ _ _ _ Hr Ej) as (_ & Hc). destruct c as [T'|].
  - destruct Hc as (_ & _ & _ & _ & Hr'). apply (IH 512%nat); [by apply rep_full | done | by apply address_u64].
  - destruct (has e VMM_PRESENT && has e VMM_USER); [|constructor]. constructor; [|constructor].
    destruct below; [|done]. split; [by apply address_u64 | done].
Qed.

Section Walk.
Context (s0 : vmm_state) (child : Z) (T0 : ptree) (Hm0 : mem_ok (memory s0)).

Lemma share_all_beside pages s : beside s0 s child T0 -> Forall page_ok pages -> beside s0 (snd (share_all child pages s)) child T0.
Proof.
  intros Hb Hok. pose proof (share_all_spec s0 child T0 pages s Hb Hok) as H. destruct (share_all child pages s) as [ok s']. apply H.
Qed.

(** The loop goes through the slots in order and stops at a failure. *)
Lemma loop_slots (body : Z -> vmm_state -> option unit * vmm_state) (f : nat -> list (option (Z * Z))) k i s :
  (forall j s, beside s0 s child T0 -> (i <= j < i + k)%nat -> body (Z.of_nat j) s = stops (share_all child (f j) s)) ->
  (forall j, (i <= j < i + k)%nat -> Forall page_ok (f j)) -> beside s0 s child T0 ->
  loop_up k (Z.of_nat i) body s = stops (share_all child (concat (map f (seq i k))) s).
Proof.
  revert i s. induction k as [|k IH]; intros i s Hbody Hok Hb; [done|]. cbn [loop_up seq map concat].
  rewrite Hbody by (done || lia). rewrite share_all_app.
  pose proof (share_all_beside (f i) s Hb (Hok i ltac:(lia))) as Hb1. destruct (share_all child (f i) s) as [[] s1]; cbn [stops]; [|done].
  replace (Z.of_nat i + 1) with (Z.of_nat (S i)) by lia. apply IH; [|intros j Hj; apply Hok; lia | done].
  intros j s' Hs' Hj. apply Hbody; [done | lia].
Qed.

Lemma clone_walk w level T prefix s : (level <= 4)%nat -> user_entries level <= Z.of_nat w -> rep_w w level (memory s0) T ->
  (forall p, p ∈ tpages T -> p ∈ tpages T0) -> is_u64 prefix -> beside s0 s child T0 ->
  clone_user_mappings_cow level (Space child) (troot T) prefix s = share_all child (walk level prefix T) s.
Proof.
  revert w T prefix s. induction level as [|below IH]; intros w T prefix s Hlv Hw Hr Hin Hp Hb; [done|].
  rewrite clone_unfold. cbn [walk]. pose proof (user_entries_bound (S below)) as Hub.
  unfold trips. rewrite Z.sub_0_r. change 0 with (Z.of_nat 0) at 1.
  rewrite (loop_slots _ (slot_walk below prefix (walk below) T)); [| | |done].
  - by destruct (share_all child _ s) as [[] s'].
  - intros j s' Hb' Hj. destruct (rep_lookup _ _ _ _ j Hr ltac:(lia)) as (e & c & Ej).
    destruct (slot_cases _ _ _ _ _ _ _ Hr Ej) as (He & Hc). unfold slot_walk. rewrite Ej. unfold clone_body, load.
    replace (entry_at (memory s') (troot T) (Z.of_nat j)) with e.
    2: { rewrite <- He. symmetry. apply entry_ext. intros x Hx. apply Hb'. exists (troot T). split; [apply Hin, troot_in|].
         pose proof (proj1 Hr). lia. }
    destruct c as [T'|].
    + destruct Hc as (H0 & Hpr & Hps & Ht & Hr'). rewrite Hpr, Ht. cbn [negb]. destruct below as [|b]; [done|]. rewrite Hps.
      rewrite (IH 512%nat); [by destruct (share_all child _ s') | lia | specialize (user_entries_bound (S b)); lia | by apply rep_full | | by apply address_u64 | done].
      intros p Hpp. apply Hin. by apply (slot_pages_in T j (e, Some T')).
    + destruct (has e VMM_PRESENT) eqn:Hpr; cbn [negb andb]; [|done].
      destruct below as [|b].
      * destruct (has e VMM_USER); cbn [negb]; [|done]. cbn [share_all share_step].
        destruct (pmm_retain_page (table_physical e) (pmm s')) as [[] p']; cbn [negb]; [|done].
        by destruct (map_page_locked _ _ _ _ _) as [[] s''].
      * destruct Hc as [|[|Hps]]; [done | done|]. rewrite Hps. by destruct (has e VMM_USER).
  - intros j Hj. pose proof (walk_ok w (S below) prefix (memory s0) T Hr Hm0 Hp) as Hall. cbn [walk] in Hall.
    rewrite Forall_concat in Hall. rewrite Forall_forall in Hall. apply Hall. apply list_elem_of_In, List.in_map. apply in_seq. lia.
Qed.
End Walk.

(** ** The pages of the walk are the user leaves *)

Lemma walk_elem w level prefix m T va e : (level <= 4)%nat -> user_entries level <= Z.of_nat w -> rep_w w level m T ->
  Some (va, e) ∈ walk level prefix T <->
  exists i rest, length (i :: rest) = level /\ Forall index_ok (i :: rest) /\ i < user_entries level /\
    va = table_address prefix (i :: rest) /\ leaf_of T (i :: rest) = Some (0, e) /\ has e VMM_USER = true.
Proof.
  revert w prefix T. induction level as [|below IH]; intros w prefix T Hlv Hw Hr.
  { split; [by intros ?%elem_of_nil|]. by intros (i & rest & ? & _). }
  cbn [walk]. pose proof (user_entries_bound (S below)) as Hub.
  assert (Hmem : Some (va, e) ∈ concat (map (slot_walk below prefix (walk below) T) (seq 0 (Z.to_nat (user_entries (S below))))) <->
    exists j, (j < Z.to_nat (user_entries (S below)))%nat /\ Some (va, e) ∈ slot_walk below prefix (walk below) T j).
  { rewrite list_elem_of_In, in_concat. split.
    - intros (l & Hl & He). apply in_map_iff in Hl as (j & <- & Hj). apply in_seq in Hj. exists j. split; [lia | by apply list_elem_of_In].
    - intros (j & Hj & He). eexists. split; [apply List.in_map, in_seq | by apply list_elem_of_In]. lia. }
  rewrite Hmem. clear Hmem.
  assert (Hslot : forall j, (j < Z.to_nat (user_entries (S below)))%nat -> Some (va, e) ∈ slot_walk below prefix (walk below) T j <->
    exists rest, length rest = below /\ Forall index_ok rest /\ va = table_address prefix (Z.of_nat j :: rest) /\
      leaf_of T (Z.of_nat j :: rest) = Some (0, e) /\ has e VMM_USER = true).
  { intros j Hj. destruct (rep_lookup _ _ _ _ j Hr ltac:(lia)) as (e0 & c & Ej). destruct (slot_cases _ _ _ _ _ _ _ Hr Ej) as (_ & Hc).
    unfold slot_walk. rewrite Ej. destruct c as [T'|].
    - destruct Hc as (H0 & Hpr & Hps & Ht & Hr'). rewrite (IH 512%nat); [|lia | specialize (user_entries_bound below); lia | by apply rep_full].
      split.
      + intros (i & rest & Hl & Hok & Hi & Hva & Hlf & Hu). exists (i :: rest). split_and!; try done.
        * rewrite Hva. cbn [length] in Hl. rewrite <- Hl. done.
        * by rewrite (leaf_of_slot _ _ _ _ _ Ej), Hpr.
      + intros (rest & Hl & Hok & Hva & Hlf & Hu). destruct rest as [|i rest]; [done|]. exists i, rest.
        rewrite (leaf_of_slot _ _ _ _ _ Ej), Hpr in Hlf. split_and!; try done.
        * unfold user_entries. rewrite (proj2 (Nat.eqb_neq below 4)) by lia. apply Forall_cons in Hok as (Hi & _). apply Hi.
        * rewrite Hva. cbn [length] in Hl. rewrite <- Hl. done.
    - destruct (has e0 VMM_PRESENT && has e0 VMM_USER) eqn:Epu.
      + apply andb_prop in Epu as (Hpr & Hus). rewrite list_elem_of_singleton. split.
        * destruct below; [|done]. intros [= -> ->]. exists []. split_and!; try done. by rewrite (leaf_of_slot _ _ _ _ _ Ej), Hpr.
        * intros (rest & Hl & Hok & Hva & Hlf & Hu). rewrite (leaf_of_slot _ _ _ _ _ Ej), Hpr in Hlf. injection Hlf as Hz <-.
          unfold alen in Hz. destruct rest; [|done]. cbn [length] in Hl. subst below. by rewrite Hva.
      + split; [by intros ?%elem_of_nil|]. intros (rest & _ & _ & _ & Hlf & Hu). rewrite (leaf_of_slot _ _ _ _ _ Ej) in Hlf.
        destruct (has e0 VMM_PRESENT); [|done]. injection Hlf as _ <-. by rewrite Hu in Epu. }
  split.
  - intros (j & Hj & He). apply Hslot in He as (rest & Hl & Hok & Hva & Hlf & Hu); [|done]. exists (Z.of_nat j), rest.
    split_and!; try done; [cbn [length]; lia | | lia]. constructor; [unfold index_ok, ENTRY_COUNT; lia | done].
  - intros (i & rest & Hl & Hok & Hi & Hva & Hlf & Hu). apply Forall_cons in Hok as (Hi0 & Hok). exists (Z.to_nat i).
    unfold index_ok in Hi0. split; [lia|]. apply Hslot; [lia|]. exists rest. rewrite Z2Nat.id by lia. cbn [length] in Hl. split_and!; done || lia.
Qed.

(** ** The lower half of a space *)

Definition half (T : ptree) : ptree := PT (troot T) (take 256 (tslots T)).

Lemma half_rep m T : rep 4 m T -> rep_w 256 4 m (half T).
Proof.
  intros (Hp & Hlen & Hs). split; [lia|]. split; [done|]. split; [cbn [tslots half]; rewrite length_take; lia|].
  intros i s Hi. cbn [tslots half] in Hi. apply lookup_take_Some in Hi as (Hi & _). by apply Hs.
Qed.

Lemma half_NoDup T : NoDup (tpages T) -> NoDup (tpages (half T)).
Proof.
  destruct T as [t slots]. unfold half. cbn [troot tslots]. rewrite !tpages_unfold, <- (take_drop 256 slots) at 1. rewrite flat_map_app.
  intros Hnd. apply NoDup_cons in Hnd as (H1 & H2). apply NoDup_app in H2 as (H2 & _). constructor; [|done].
  intros Hin. apply H1, elem_of_app. by left.
Qed.

(** [t] is a table of the lower half of the space at [root]. *)
Definition lower_table (m : mem) (root t : Z) : Prop :=
  exists r, path_ok r /\ user_half r /\ table_at m root r = Some t.

Lemma half_pages m T p : rep 4 m T -> p ∈ tpages (half T) -> lower_table m (troot T) p.
Proof.
  intros Hr Hin. unfold half in Hin. rewrite tpages_unfold in Hin. apply elem_of_cons in Hin as [->|Hin].
  { exists []. split; [split; [simpl; lia | constructor] | done]. }
  apply list_elem_of_In, in_flat_map in Hin as ((e & c) & Hs & Hp). apply list_elem_of_In, list_elem_of_lookup in Hs as (i & Hi).
  apply lookup_take_Some in Hi as (Hi & Hlt). rewrite rep_full in Hr. destruct (slot_cases _ _ _ _ _ _ _ Hr Hi) as (He & Hc).
  unfold slot_pages in Hp. cbn [snd] in Hp. destruct c as [T'|]; [|done]. destruct Hc as (_ & Hpr & Hps & Ht & Hr').
  apply list_elem_of_In, (tpages_table _ _ _ _ Hr') in Hp as (q & Hok & Hl & Hq). exists (Z.of_nat i :: q). split_and!.
  - split; [cbn [length]; lia|]. constructor; [unfold index_ok, ENTRY_COUNT; lia | done].
  - unfold user_half, aget. simpl. lia.
  - cbn [table_at]. rewrite He, next_cases, Hpr, Hps, Ht. done.
Qed.

Lemma leaf_rep_w w level m T i rest : rep_w w level m T -> length (i :: rest) = level -> Forall index_ok (i :: rest) -> i < Z.of_nat w ->
  leaf m (troot T) (i :: rest) = leaf_of T (i :: rest).
Proof.
  destruct level as [|below]; [done|]. intros Hr Hl Hok Hi. apply Forall_cons in Hok as (Hi0 & Hok). cbn [length] in Hl. unfold index_ok in Hi0.
  destruct (rep_lookup _ _ _ _ (Z.to_nat i) Hr ltac:(lia)) as (e & c & Ej). destruct (slot_cases _ _ _ _ _ _ _ Hr Ej) as (He & Hc).
  rewrite Z2Nat.id in He by lia. rewrite <- (Z2Nat.id i) at 2 by lia. rewrite (leaf_of_slot _ _ _ _ _ Ej). cbn [leaf]. rewrite He.
  destruct (has e VMM_PRESENT) eqn:Hpr; cbn [negb]; [|done]. destruct c as [T'|].
  - destruct Hc as (H0 & _ & Hps & Ht & Hr'). rewrite Hps, Ht, bool_decide_false by (destruct rest; [cbn [length] in Hl; lia | done]).
    cbn [orb]. apply (leaf_rep below); [done | lia | done].
  - destruct Hc as [Hc|[Hc|Hc]]; [| done |].
    + rewrite bool_decide_true by (destruct rest; [done | cbn [length] in Hl; lia]). done.
    + by rewrite Hc, orb_true_r.
Qed.

(** A page address of the lower half. *)
Definition user_page (va : Z) : Prop := is_u64 va /\ va < 2 ^ 47 /\ va mod 2 ^ 12 = 0.

Lemma user_page_path va : user_page va -> exists i rest, indices va = i :: rest /\ length (i :: rest) = 4%nat /\ Forall index_ok (i :: rest) /\
  0 <= i < 256 /\ table_address 0 (i :: rest) = va.
Proof.
  intros (Hu & Hlow & Hal). destruct (indices_path va) as (Hl & Hok).
  assert (Hc : address_is_canonical va = true).
  { unfold is_u64 in Hu. unfold address_is_canonical. rewrite (has_pow2 va 47), (testbit_small va 47 47) by lia.
    rewrite Z.shiftr_div_pow2, Z.div_small by lia. done. }
  assert (Hhalf : user_half (indices va)) by (apply user_half_address; done || lia).
  destruct (page_path_address (indices va) (conj Hl Hok) Hhalf) as (A & B & C & D & E).
  destruct (indices va) as [|i rest] eqn:Ei; [done|]. exists i, rest. split_and!; try done.
  - apply Forall_cons in Hok as (Hi & _). apply Hi.
  - rewrite <- Ei. apply indices_inj; try done; by rewrite Ei.
Qed.

Lemma find_page_elem idx pages e : find_page idx pages = Some e -> exists va, Some (va, e) ∈ pages /\ idx = indices va.
Proof.
  induction pages as [|[(va & e')|] pages IH]; cbn [find_page]; [done | |].
  - case_decide as E; [intros [= ->]; exists va; split; [by left | done]|]. intros H. destruct (IH H) as (va' & Hin & Ei).
    exists va'. split; [by right | done].
  - intros H. destruct (IH H) as (va' & Hin & Ei). exists va'. split; [by right | done].
Qed.

Lemma elem_find_page va e pages : Some (va, e) ∈ pages -> is_Some (find_page (indices va) pages).
Proof.
  induction pages as [|[(va' & e')|] pages IH]; cbn [find_page]; intros Hin; [by apply elem_of_nil in Hin | |].
  - apply elem_of_cons in Hin as [[= <- <-]|Hin]; [by rewrite decide_True|]. case_decide; [done | by apply IH].
  - apply elem_of_cons in Hin as [|Hin]; [done | by apply IH].
Qed.

(** The walk finds exactly the user pages. *)
Lemma find_page_walk m T va : rep_w 256 4 m T -> user_page va -> find_page (indices va) (walk 4 0 T) =
  match leaf_of T (indices va) with Some (l, e) => if (l =? 0) && has e VMM_USER then Some e else None | None => None end.
Proof.
  intros Hr Hva. destruct (user_page_path va Hva) as (i & rest & Ei & Hl & Hok & Hi & Hta).
  assert (Hto : forall e, find_page (indices va) (walk 4 0 T) = Some e -> leaf_of T (indices va) = Some (0, e) /\ has e VMM_USER = true).
  { intros e Hf. apply find_page_elem in Hf as (va' & Hin & Eidx). apply (walk_elem 256%nat 4 0 m T) in Hin; [|lia | done | done].
    destruct Hin as (i' & rest' & Hl' & Hok' & Hi' & Hva' & Hlf & Hu).
    assert (Hh : user_half (i' :: rest')) by (unfold user_half, aget; simpl; apply Hi').
    destruct (page_path_address (i' :: rest') (conj Hl' Hok') Hh) as (_ & _ & _ & D & _). rewrite <- Hva' in D.
    by rewrite Eidx, D. }
  destruct (find_page (indices va) (walk 4 0 T)) as [e|] eqn:Ef.
  { destruct (Hto e eq_refl) as (-> & Hu). by rewrite Hu. }
  destruct (leaf_of T (indices va)) as [(l & e)|] eqn:El; [|done]. destruct (Z.eqb_spec l 0) as [->|]; [|done].
  destruct (has e VMM_USER) eqn:Hu; [|done]. exfalso.
  assert (Hin : Some (va, e) ∈ walk 4 0 T).
  { apply (walk_elem 256%nat 4 0 m T); [lia | done | done|]. exists i, rest. rewrite Ei in El. split_and!; try done. change (user_entries 4) with 256. lia. }
  destruct (elem_find_page _ _ _ Hin) as (e' & He'). congruence.
Qed.

(** ** Entries of shared pages *)

Lemma shared_flags_bit e k : k = 1 \/ k = 2 \/ k = 9 \/ k = 63 -> Z.testbit (shared_flags e) k =
  if k =? 1 then false else if k =? 9 then Z.testbit e 9 || Z.testbit e 1 else Z.testbit e k.
Proof.
  intros Hk. unfold shared_flags. assert (Hm : forall j, j = 1 \/ j = 2 \/ j = 9 \/ j = 63 -> Z.testbit (e &! COW_FLAGS) j = Z.testbit e j).
  { intros j Hj. rewrite Z.land_spec. destruct Hj as [->|[->|[->| ->]]]; apply andb_true_r. }
  rewrite has_WRITABLE, Hm by tauto. destruct (Z.testbit e 1) eqn:E1.
  - rewrite Z.lor_spec, Z.land_spec, Hm, testbit_not_writable by (tauto || lia). unfold VMM_COPY_ON_WRITE. rewrite testbit_pow2 by done.
    destruct Hk as [->|[->|[->| ->]]]; cbn; by rewrite ?andb_false_r, ?andb_true_r, ?orb_true_r, ?orb_false_r.
  - rewrite Hm by done. destruct Hk as [->|[->|[->| ->]]]; cbn; by rewrite ?orb_false_r.
Qed.

(** Two entries that map the frame of [e] with its rights, but read-only. *)
Definition read_only_share (e e' : Z) : Prop :=
  has e' VMM_PRESENT = true /\ table_physical e' = table_physical e /\ has e' VMM_WRITABLE = false /\
  has e' VMM_USER = has e VMM_USER /\ has e' VMM_NO_EXECUTE = has e VMM_NO_EXECUTE /\
  has e' VMM_COPY_ON_WRITE = has e VMM_COPY_ON_WRITE || has e VMM_WRITABLE.

Lemma shared_entry_spec e : is_u64 e -> read_only_share e (shared_entry e).
Proof.
  intros He. unfold shared_entry. pose proof (table_physical_page e He) as Hp. destruct (leaf_entry_spec _ (shared_flags e) Hp) as (_ & Hpr & Hph).
  unfold read_only_share. rewrite !has_WRITABLE, !has_USER, !has_NX, !has_COW. rewrite !leaf_entry_bit by tauto. rewrite !shared_flags_bit by tauto. done.
Qed.

Lemma cow_leaf_spec e : is_u64 e -> has e VMM_PRESENT = true -> has e VMM_USER = true -> read_only_share e (cow_leaf e).
Proof.
  intros He Hp Hu. unfold cow_leaf, read_only_share. rewrite user_writable_bits, Hp, Hu by done. cbn [andb].
  destruct (has e VMM_WRITABLE) eqn:Hw; [|by rewrite orb_false_r].
  rewrite !has_PRESENT, !has_WRITABLE, !has_USER, !has_NX, !has_COW, !cow_protected_bit by (done || lia).
  rewrite has_PRESENT in Hp. rewrite has_USER in Hu. rewrite Hp, Hu. cbn [Z.eqb Pos.eqb negb]. split_and!; try done.
  - unfold table_physical. apply Z.bits_inj'. intros k Hk. rewrite !Z.land_spec, cow_protected_bit, testbit_mask by done.
    destruct (Z.eqb_spec k 1) as [->|]; [cbn; by rewrite !andb_false_r|]. destruct (Z.eqb_spec k 9) as [->|]; [cbn; by rewrite !andb_false_r|].
    by rewrite andb_true_r, orb_false_r.
  - by rewrite andb_false_r.
  - by rewrite andb_true_r, orb_false_r.
  - by rewrite !orb_true_r.
Qed.

(** The user pages of a space with their entries, in the order of the walk. *)
Definition user_pages (m : mem) (root : Z) : list (option (Z * Z)) := walk 4 0 (half (read_tree 4 m root)).

Section Fork.
Context (s : vmm_state) (parent child : Z) (Hpw : space_wf s parent) (Hcw : space_wf s child).
Context (Hapart : forall t r, lower_table (memory s) parent t -> path_ok r -> table_at (memory s) child r <> Some t).
Let T := half (read_tree 4 (memory s) parent).

Lemma fk_tree : rep 4 (memory s) (read_tree 4 (memory s) parent) /\ NoDup (tpages (read_tree 4 (memory s) parent)).
Proof.
  pose proof (sw_tree _ _ Hpw) as Hwf. assert (Hr : rep 4 (memory s) (read_tree 4 (memory s) parent)).
  { apply read_tree_rep; [done|]. intros p u Hl Hok. apply Hwf. split; [lia | done]. }
  split; [done|]. apply (rep_NoDup 4 (memory s)); [done|]. rewrite troot_read. intros p q u Hp Hq Hlp Hlq. apply Hwf; split; done || lia.
Qed.

Lemma fk_rep : rep_w 256 4 (memory s) T.
Proof. apply half_rep, fk_tree. Qed.

Lemma fk_lower p : p ∈ tpages T -> lower_table (memory s) parent p.
Proof. intros Hp. rewrite <- (troot_read 4 (memory s) parent). apply half_pages; [apply fk_tree | done]. Qed.

Lemma fk_beside : beside s s child T.
Proof.
  split; [done | done | | |].
  - intros r t Hr Ht Hin. by apply (Hapart t r); [apply fk_lower| |].
  - intros p Hp. apply fk_lower in Hp as (r & Hr & _ & Ht). by apply (sw_busy _ _ Hpw r p).
  - intros p Hp. apply (rep_w_pages _ _ _ _ _ fk_rep Hp).
Qed.

Lemma fk_leaf s' va : (forall x, in_pages (tpages T) x -> rd (memory s') x = rd (memory s) x) -> user_page va ->
  leaf (memory s') parent (indices va) = leaf_of T (indices va).
Proof.
  intros Hx Hva. destruct (user_page_path va Hva) as (i & rest & -> & Hl & Hok & Hi & _).
  pose proof (rep_w_ext _ _ _ _ _ Hx fk_rep) as Hr. change parent with (troot T) at 1. 
  by apply (leaf_rep_w 256 4); [| | | lia].
Qed.

Lemma fk_clone : clone_user_mappings_cow 4 (Space child) parent 0 s = share_all child (user_pages (memory s) parent) s.
Proof.
  apply (clone_walk s child T (sw_mem _ _ Hpw) 256 4 T 0 s); [lia | done | apply fk_rep | done | done | apply fk_beside].
Qed.

Lemma fk_ok : Forall page_ok (user_pages (memory s) parent).
Proof. by apply (walk_ok 256 4 0 (memory s) T fk_rep (sw_mem _ _ Hpw)). Qed.
End Fork.

(** The entry of a leaf is a present word. *)
Lemma leaf_u64 m t idx l e : mem_ok m -> leaf m t idx = Some (l, e) -> is_u64 e /\ has e VMM_PRESENT = true.
Proof.
  intros Hm. revert t. induction idx as [|i idx IH]; intros t; [done|]. cbn [leaf].
  destruct (has (entry_at m t i) VMM_PRESENT) eqn:Hp; cbn [negb]; [|done]. destruct (_ || _); [|apply IH]. intros [= _ <-].
  split; [by apply entry_u64 | done].
Qed.

(** The protection of the parent after the pages are shared. *)
Lemma pt_done s s1 parent child : space_wf s parent -> beside s s1 child (half (read_tree 4 (memory s) parent)) ->
  cow_done 256 3 256 (Space parent) (half (read_tree 4 (memory s) parent)) 0 s1 (protect_user_mappings_cow 4 (Space parent) parent 0 s1).
Proof.
  intros Hpw Hb. apply (protect_user_spec 256 3 (half (read_tree 4 (memory s) parent)) (Space parent) 0 s1); [lia | done | | apply Hb | ].
  - apply (rep_w_ext _ _ (memory s)); [apply Hb | by apply fk_rep].
  - by apply half_NoDup, fk_tree.
Qed.

Section Protect.
Context (s s1 : vmm_state) (parent child : Z) (Hpw : space_wf s parent) (Hcw : space_wf s child).
Context (Hb : beside s s1 child (half (read_tree 4 (memory s) parent))) (Hsm : same_machine s s1).
Let T := half (read_tree 4 (memory s) parent).
Context (s2 : vmm_state) (Hd : cow_done 256 3 256 (Space parent) T 0 s1 s2).

Lemma pt_parent va : user_page va -> leaf (memory s2) parent (indices va) = cow_result 256 0 (leaf (memory s) parent (indices va)).
Proof.
  intros Hva. rewrite (fk_leaf s parent Hpw s va) by done. destruct (user_page_path va Hva) as (i & rest & -> & Hl & Hok & Hi & _).
  pose proof (cd_rep _ _ _ _ _ _ _ _ Hd) as Hr2.
  change (leaf (memory s2) (troot (cow_tree 4 T)) (i :: rest) = cow_result 256 0 (leaf_of T (i :: rest))).
  rewrite (leaf_rep_w 256 4 (memory s2) (cow_tree 4 T)) by (done || lia).
  rewrite (cow_tree_leaf 256 4 (memory s) T) by (done || lia || apply Hpw || by apply fk_rep).
  unfold cow_result. change (user_entries 4) with 256. by rewrite (proj2 (Z.ltb_lt i 256)) by lia.
Qed.

Lemma pt_frame x : ~ in_pages (tpages T) x -> rd (memory s2) x = rd (memory s1) x.
Proof. apply (cd_bytes _ _ _ _ _ _ _ _ Hd). Qed.

Lemma pt_child : space_wf s2 child /\ forall idx, page_path idx -> leaf (memory s2) child idx = leaf (memory s1) child idx.
Proof.
  destruct (space_wf_frame s1 child (memory s2) (bs_wf _ _ _ _ Hb) (cd_mem _ _ _ _ _ _ _ _ Hd)) as (Hwf & _ & _ & Hl).
  { intros x Hx. apply pt_frame. intros Hin. by apply (beside_byte _ _ _ _ x Hb Hin). }
  split; [|done]. pose proof Hd as [_ _ _ Hp _ _ _ _]. destruct Hwf as [A B C D E]. split; try done.
  - by rewrite Hp.
  - intros p t Hpo Ht. rewrite Hp. by apply (D p).
Qed.

Lemma pt_flush va e : active (Space parent) s -> user_page va -> leaf (memory s) parent (indices va) = Some (0, e) ->
  user_writable e = true -> va ∈ tlb s2.
Proof.
  intros Ha Hva Hl Hu. rewrite (fk_leaf s parent Hpw s va) in Hl by done.
  destruct (user_page_path va Hva) as (i & rest & Ei & Hlen & Hok & Hi & <-). rewrite Ei in Hl.
  assert (Ha1 : active (Space parent) s1) by (by apply (active_same _ s); [apply Hsm | apply Hsm |]).
  apply (cd_flush _ _ _ _ _ _ _ _ Hd Ha1 i rest e); try done.
  - by injection Hlen.
  - by apply Forall_cons in Hok as (_ & Hok).
Qed.
End Protect.

(** C8 The locked part of [vmm_space_clone_cow].  When it succeeds, every user
    page of the parent is mapped at the same address in the child, to the same
    frame and with the same rights except that neither space can write to it;
    a page that was writable is marked copy-on-write in both and its stale
    translation is flushed.  Every other mapping of the lower half is as
    before, the reference count of every frame has grown by the number of new
    mappings, and no byte outside the tables has changed.  When it fails the
    parent is as before, and the child has some of the pages. *)
Theorem cow_clone_correct parent child s : space_wf s parent -> space_wf s child ->
  (forall t r, lower_table (memory s) parent t -> path_ok r -> table_at (memory s) child r <> Some t) ->
  let pages := user_pages (memory s) parent in
  let '(ok, s1) := clone_user_mappings_cow 4 (Space child) parent 0 s in
  space_wf s1 child /\ (forall va, user_page va -> leaf (memory s1) parent (indices va) = leaf (memory s) parent (indices va)) /\
  if ok then
    let s2 := protect_user_mappings_cow 4 (Space parent) parent 0 s1 in
    space_wf s2 child /\
    (forall va, user_page va -> match leaf (memory s) parent (indices va) with
       | Some (0, e) =>
           if has e VMM_USER then exists pe ce, leaf (memory s2) parent (indices va) = Some (0, pe) /\ read_only_share e pe /\
             leaf (memory s2) child (indices va) = Some (0, ce) /\ read_only_share e ce
           else leaf (memory s2) parent (indices va) = Some (0, e) /\ leaf (memory s2) child (indices va) = leaf (memory s) child (indices va)
       | o => leaf (memory s2) parent (indices va) = o /\ leaf (memory s2) child (indices va) = leaf (memory s) child (indices va)
       end) /\
    (forall q, 0 <= q < page_count (pmm s) -> abs (pmm s) q <> Free -> abs (pmm s2) q = add_refs (abs (pmm s) q) (frame_count q pages)) /\
    (forall x, page_busy (pmm s) x -> ~ tree_byte (memory s) child x -> ~ tree_byte (memory s) parent x -> rd (memory s2) x = rd (memory s) x) /\
    (active (Space parent) s -> forall va e, user_page va -> leaf (memory s) parent (indices va) = Some (0, e) -> user_writable e = true -> va ∈ tlb s2)
  else exists shared rest, pages = shared ++ rest /\ all_shared s s1 child shared.
Proof.
  intros Hpw Hcw Hapart. pose proof (fk_beside s parent child Hpw Hcw Hapart) as Hb.
  pose proof (share_all_spec s child _ (user_pages (memory s) parent) s Hb (fk_ok s parent Hpw)) as Hall. cbv zeta.
  rewrite (fk_clone s parent child Hpw Hcw Hapart). destruct (share_all child _ s) as [ok s1]. destruct Hall as (Hb1 & Hres).
  split; [apply Hb1|]. split.
  { intros va Hva. by rewrite !(fk_leaf s parent Hpw) by (done || apply Hb1). }
  destruct ok; [|done]. destruct Hres as (Ha & _). pose proof (as_machine _ _ _ _ Ha) as Hsm.
  pose proof (pt_done s s1 parent child Hpw Hb1) as Hd.
  set (s2 := protect_user_mappings_cow 4 (Space parent) parent 0 s1) in *. clearbody s2.
  destruct (pt_child s s1 parent child Hb1 s2 Hd) as (Hwf2 & Hleaf2). split; [done|]. split_and!.
  - intros va Hva. rewrite (pt_parent s s1 parent Hpw s2 Hd va Hva), Hleaf2, (as_leaf _ _ _ _ Ha) by apply indices_path.
    unfold user_pages. rewrite (find_page_walk (memory s) _ va (fk_rep s parent Hpw) Hva), <- (fk_leaf s parent Hpw s va) by done.
    destruct (leaf (memory s) parent (indices va)) as [(l & e)|] eqn:El; [|done]. unfold cow_result.
    destruct (Z.eqb_spec l 0) as [->|Hl]; [|by destruct l]. cbn [andb]. change (0 <? 256) with true. cbv iota.
    assert (He : is_u64 e /\ has e VMM_PRESENT = true) by (by apply (leaf_u64 (memory s) parent (indices va) 0); [apply Hpw|]).
    destruct He as (He & Hpr). destruct (has e VMM_USER) eqn:Hu.
    + exists (cow_leaf e), (shared_entry e). split; [done|]. split; [by apply cow_leaf_spec|]. split; [done | by apply shared_entry_spec].
    + unfold cow_leaf. rewrite user_writable_bits, Hu, andb_false_r by done. done.
  - intros q Hq Hf. rewrite (cd_pmm _ _ _ _ _ _ _ _ Hd). by apply Ha.
  - intros x Hx Hc Hp. rewrite (pt_frame s s1 parent s2 Hd); [by apply Ha|]. intros (p & Hin & Hxp). apply Hp.
    apply fk_lower in Hin as (r & Hr & _ & Ht); [|done]. by exists r, p.
  - intros Hact va e. by apply (pt_flush s s1 parent Hpw Hsm s2 Hd).
Qed.

(** A space with one writable user page, and an empty space beside it. *)
Definition fork_flags : Z := VMM_WRITABLE |! VMM_USER |! VMM_NO_EXECUTE.
Definition fork_pmm : pmm_state := snd (pmm_alloc_page (snd (pmm_alloc_page (snd (pmm_alloc_page sample_pmm))))).
Definition fork_empty : vmm_state := mk_vmm fork_pmm ∅ 0x12000 0 [].
Definition fork_mapped : vmm_state := snd (map_page_locked (Some (Space 0x12000)) 0x400000 0x13000 fork_flags fork_empty).

Lemma alloc_wf p : pmm_wf p -> pmm_wf (snd (pmm_alloc_page p)).
Proof. intros W. unfold pmm_alloc_page. by destruct (alloc_page_fresh 0 p W) as [(_ & ->)|(q & st & -> & _ & _ & W' & _)]. Qed.

Lemma table_at_empty root r t : table_at ∅ root r = Some t -> r = [] /\ t = root.
Proof. destruct r as [|i r]; [by intros [= ->]|]. cbn [table_at]. by rewrite entry_empty. Qed.

Lemma empty_space_wf root : is_page root -> page_busy fork_pmm root -> space_wf fork_empty root.
Proof.
  intros Hp Hb. split.
  - apply alloc_wf, alloc_wf, alloc_wf, sample_wf.
  - apply empty_ok.
  - split; [intros p t _ H; by apply table_at_empty in H as (_ & ->)|].
    intros p q t _ _ H1 H2. apply table_at_empty in H1 as (-> & _), H2 as (-> & _). done.
  - intros p t _ H. by apply table_at_empty in H as (_ & ->).
  - intros p t i _ _ H _. change (memory fork_empty) with (∅ : mem). rewrite entry_empty. by intros (? & ?).
Qed.

Lemma fork_busy a : a = 0x12000 \/ a = 0x14000 -> is_page a /\ page_busy fork_pmm a.
Proof. intros [->| ->]; (split; [split; [done | lia]|]; intros _; by vm_compute). Qed.

Lemma fork_map : space_wf fork_mapped 0x12000 /\ mapped fork_empty fork_mapped (Space 0x12000) 0x400000 0x13000 fork_flags.
Proof.
  destruct (fork_busy 0x12000 ltac:(by left)) as (Hp & Hb). pose proof (empty_space_wf 0x12000 Hp Hb) as Hwf.
  pose proof (map_page_total (Space 0x12000) 0x400000 0x13000 fork_flags fork_empty Hwf) as Hok.
  pose proof (map_page_cases (Space 0x12000) 0x400000 0x13000 fork_flags fork_empty Hwf) as H.
  unfold fork_mapped. destruct (map_page_locked _ _ _ _ _) as [ok s']. cbn [fst snd] in *. rewrite Hok in * by (by vm_compute).
  destruct H as (W & _ & M); [unfold is_u64; lia | lia |]. done.
Qed.

#[local] Opaque fork_mapped fork_pmm.

(** A space whose tables are apart from those of the space mapped into. *)
Lemma mapped_other s s' root va pa flags other : space_wf s other -> space_wf s root -> space_wf s' root ->
  mapped s s' (Space root) va pa flags ->
  (forall r t r', path_ok r -> path_ok r' -> table_at (memory s) root r = Some t -> table_at (memory s) other r' <> Some t) ->
  space_wf s' other /\ (forall r, path_ok r -> table_at (memory s') other r = table_at (memory s) other r) /\
  forall idx, page_path idx -> leaf (memory s') other idx = leaf (memory s) other idx.
Proof.
  intros Hwf Hrw Hrw' M Hapart. pose proof (mp_outside _ _ _ _ _ _ M) as Ho. cbn [pml4_physical] in Ho.
  destruct (space_wf_frame s other (memory s') Hwf (sw_mem _ _ Hrw')) as (Hw & Ht & _ & Hlf).
  { intros x (r & t & Hr & Htr & Hx). pose proof (tw_page _ _ (sw_tree _ _ Hwf) r t Hr Htr) as Hp. apply (so_bytes _ _ _ Ho).
    - apply (page_busy_byte _ t x Hp Hx). by apply (sw_busy _ _ Hwf r).
    - intros (r' & t' & Hr' & Ht' & Hx'). pose proof (tw_page _ _ (sw_tree _ _ Hrw) r' t' Hr' Ht') as Hp'.
      assert (Hne : t <> t') by (intros ->; by apply (Hapart r' t' r)). destruct (pages_apart t t' Hp Hp' Hne); lia. }
  split; [|split; done]. destruct Hw as [A B C D E]. split; try done; [apply Hrw'|].
  intros r t Hr Htr. rewrite Ht in Htr by done. apply (busy_more (pmm s)); [apply Ho | | by apply (sw_busy _ _ Hwf r)].
  intros q Hq Hf. by rewrite (mp_abs _ _ _ _ _ _ M q Hq Hf).
Qed.

Lemma fork_child_other : space_wf fork_mapped 0x14000 /\
  (forall r, path_ok r -> table_at (memory fork_mapped) 0x14000 r = table_at ∅ 0x14000 r) /\
  forall idx, page_path idx -> leaf (memory fork_mapped) 0x14000 idx = leaf ∅ 0x14000 idx.
Proof.
  destruct fork_map as (Hpw & M). destruct (fork_busy 0x14000 ltac:(by right)) as (Hp & Hb), (fork_busy 0x12000 ltac:(by left)) as (Hp' & Hb').
  apply (mapped_other fork_empty fork_mapped 0x12000 0x400000 0x13000 fork_flags 0x14000).
  - by apply empty_space_wf.
  - by apply empty_space_wf.
  - exact Hpw.
  - exact M.
  - intros r t r' _ _ H1 H2. apply table_at_empty in H1 as (_ & ->), H2 as (_ & ?). done.
Qed.

Lemma fork_child : space_wf fork_mapped 0x14000 /\ forall r t, path_ok r -> table_at (memory fork_mapped) 0x14000 r = Some t -> t = 0x14000.
Proof.
  destruct fork_child_other as (Hw & Ht & _). split; [exact Hw|]. intros r t Hr Htr. rewrite Ht in Htr by exact Hr. by apply table_at_empty in Htr as (_ & ->).
Qed.

Lemma cow_clone_correct_witness :
  leaf (memory fork_mapped) 0x12000 (indices 0x400000) = Some (0, leaf_entry 0x13000 fork_flags) /\
  space_wf (snd (clone_user_mappings_cow 4 (Space 0x14000) 0x12000 0 fork_mapped)) 0x14000.
Proof.
  destruct fork_map as (Hpw & M). destruct fork_child as (Hcw & Htab). split.
  { change 0x12000 with (pml4_physical fork_empty (Space 0x12000)) at 1. rewrite (mp_leaf _ _ _ _ _ _ M) by apply indices_path. by rewrite decide_True. }
  pose proof (cow_clone_correct 0x12000 0x14000 fork_mapped Hpw Hcw) as H.
  destruct (clone_user_mappings_cow 4 (Space 0x14000) 0x12000 0 fork_mapped) as [ok s1]. cbn [snd]. apply H.
  intros t r (r' & Hr' & _ & Ht') Hr Ht. rewrite (Htab r t Hr Ht) in Ht'.
  destruct (mp_new _ _ _ _ _ _ M r' 0x14000 Hr' Ht') as [Hold|Hfree].
  - by apply table_at_empty in Hold as (_ & ?).
  - apply Hfree. by apply fork_busy; right.
Defined.

End VmmFork.
