(* ===== verification/VmmBoot.v ===== *)
(** * VmmBoot: the boot mappings after [vmm_init]

    [protect_boot_table] walks the tables the boot loader left and gives every
    leaf its rights, splitting large pages that cross a boundary.  Each step
    of the walk takes a tree to a tree whose new tables come from free pages
    ([grown]); at the end every page has the frame it had, no page is open to
    user code, none is both writable and executable, only the kernel text is
    executable and nothing of the text and the constants is writable. *)

From S2P Require Import Prelude Memory Pmm PageTable Vmm VmmSafety KernelPages Kmalloc TableTree VmmSpace VmmCow VmmFork.
Import Memory.Memory Pmm.Pmm PageTable.PageTable Vmm.Vmm VmmSafety.VmmSafety TableTree.TableTree VmmSpace.VmmSpace VmmCow.VmmCow VmmFork.VmmFork.

Module VmmBoot.

(** ** Trees that grow *)

(** What the walks need of a tree in a state. *)
Record tree_in (level : nat) (s : vmm_state) (T : ptree) : Prop := {
  ti_rep : rep level (memory s) T;
  ti_nodup : NoDup (tpages T);
  ti_mem : mem_ok (memory s);
  ti_pmm : pmm_wf (pmm s);
  ti_busy : forall p, p ∈ tpages T -> page_busy (pmm s) p;
}.

Record grown (level : nat) (s s' : vmm_state) (T T' : ptree) : Prop := {
  gr_tree : tree_in level s' T';
  gr_root : troot T' = troot T;
  gr_machine : same_machine s s';
  gr_tlb : tlb s' = tlb s;
  gr_pages : forall p, p ∈ tpages T' -> p ∈ tpages T \/ ~ page_busy (pmm s) p;
  gr_abs : forall q, 0 <= q < page_count (pmm s) -> abs (pmm s) q <> Free -> abs (pmm s') q = abs (pmm s) q;
  gr_bytes : forall x, page_busy (pmm s) x -> ~ in_pages (tpages T) x -> rd (memory s') x = rd (memory s) x;
}.

Lemma same_machine_refl s : same_machine s s.
Proof. by split. Qed.

Lemma grown_refl level s T : tree_in level s T -> grown level s s T T.
Proof. intros H. split; try done. by left. Qed.

Lemma grown_busy level s s' T T' x : grown level s s' T T' -> page_busy (pmm s) x -> page_busy (pmm s') x.
Proof. intros H. apply busy_more; [apply H|]. intros q Hq Hf. by rewrite (gr_abs _ _ _ _ _ H q Hq Hf). Qed.

Lemma in_pages_busy level s T x : tree_in level s T -> in_pages (tpages T) x -> page_busy (pmm s) x.
Proof.
  intros H (p & Hp & Hx). apply (page_busy_byte _ p x); [|done | by apply H]. by apply (rep_pages level (memory s) T); [apply H|].
Qed.

Lemma grown_trans level s1 s2 s3 T1 T2 T3 : grown level s1 s2 T1 T2 -> grown level s2 s3 T2 T3 -> grown level s1 s3 T1 T3.
Proof.
  intros H1 H2. assert (Hb : forall x, page_busy (pmm s1) x -> page_busy (pmm s2) x) by (intros x; by apply (grown_busy _ _ _ _ _ _ H1)).
  pose proof (ss_page_count _ _ (sm_shape _ _ (gr_machine _ _ _ _ _ H1))) as Hc. split.
  - apply H2.
  - rewrite (gr_root _ _ _ _ _ H2). apply H1.
  - apply (same_machine_trans s1 s2); [apply H1 | apply H2].
  - rewrite (gr_tlb _ _ _ _ _ H2). apply H1.
  - intros p Hp. destruct (gr_pages _ _ _ _ _ H2 p Hp) as [Hin|Hn]; [by apply (gr_pages _ _ _ _ _ H1)|]. right. intros Hp1. by apply Hn, Hb.
  - intros q Hq Hf. rewrite (gr_abs _ _ _ _ _ H2); [by apply H1 | by rewrite Hc|]. by rewrite (gr_abs _ _ _ _ _ H1 q Hq Hf).
  - intros x Hx Hn. rewrite (gr_bytes _ _ _ _ _ H2); [by apply H1 | by apply Hb|]. intros (p & Hp & Hpx).
    destruct (gr_pages _ _ _ _ _ H1 p Hp) as [Hin|Hnb]; [apply Hn; by exists p|]. apply Hnb.
    apply (page_busy_byte _ p x); [|done | done]. apply (rep_pages level (memory s2) T2); [apply H1 | done].
Qed.

Section Slot.
Context (below : nat) (s : vmm_state) (T : ptree) (n : nat) (e : Z) (c : option ptree).
Context (Ht : tree_in (S below) s T) (Hn : tslots T !! n = Some (e, c)).

Lemma sl_index : (n < 512)%nat.
Proof. destruct (ti_rep _ _ _ Ht) as (_ & Hlen & _). rewrite <- Hlen. by eapply lookup_lt_Some. Qed.

Lemma sl_root : is_page (troot T).
Proof. apply (rep_page _ _ _ (ti_rep _ _ _ Ht)). Qed.

Lemma sl_parts : (troot T ∉ slot_pages (e, c)) /\ (troot T ∉ other_pages T n) /\ NoDup (slot_pages (e, c)) /\ NoDup (other_pages T n) /\
  forall p, p ∈ slot_pages (e, c) -> p ∉ other_pages T n.
Proof.
  pose proof (ti_nodup _ _ _ Ht) as Hnd. rewrite (tpages_split T n _ Hn) in Hnd. apply NoDup_cons in Hnd as (H1 & H2).
  apply NoDup_app in H2 as (H3 & H4 & H5). rewrite elem_of_app in H1. split_and!; try done; tauto.
Qed.

Lemma sl_in p : p ∈ tpages T <-> p = troot T \/ p ∈ slot_pages (e, c) \/ p ∈ other_pages T n.
Proof. rewrite (tpages_split T n _ Hn), elem_of_cons, elem_of_app. done. Qed.

(** New contents of slot [n]: [e'] in the entry, and below it pages that are
    those of the old slot or were free. *)
Lemma grown_slot s' e' c' :
  mem_ok (memory s') -> pmm_wf (pmm s') -> same_machine s s' -> tlb s' = tlb s ->
  (forall q, 0 <= q < page_count (pmm s) -> abs (pmm s) q <> Free -> abs (pmm s') q = abs (pmm s) q) ->
  entry_at (memory s') (troot T) (ix n) = e' -> slot_rep below (rep below (memory s')) (e', c') ->
  (forall j, j <> n -> (j < 512)%nat -> entry_at (memory s') (troot T) (ix j) = entry_at (memory s) (troot T) (ix j)) ->
  (forall x, page_busy (pmm s) x -> ~ (troot T <= x < troot T + 4096) -> ~ in_pages (slot_pages (e, c)) x -> rd (memory s') x = rd (memory s) x) ->
  NoDup (slot_pages (e', c')) ->
  (forall p, p ∈ slot_pages (e', c') -> page_busy (pmm s') p /\ (p ∈ slot_pages (e, c) \/ ~ page_busy (pmm s) p)) ->
  grown (S below) s s' T (set_slot T n (e', c')).
Proof.
  intros Hm Hp Hsm Htlb Habs He Hrep Hent Hbytes Hnd Hpages. destruct sl_parts as (R1 & R2 & N1 & N2 & D).
  assert (Hperm : tpages (set_slot T n (e', c')) ≡ₚ troot T :: slot_pages (e', c') ++ other_pages T n) by (by apply (tpages_set T n (e, c))).
  assert (Hbusy : forall p, p ∈ tpages T -> page_busy (pmm s') p).
  { intros p Hin. apply (busy_more (pmm s)); [apply Hsm | | by apply Ht]. intros q Hq Hf. by rewrite Habs. }
  assert (Hpg : forall p, p ∈ tpages T -> is_page p) by (intros p; apply (rep_pages _ _ T p (ti_rep _ _ _ Ht))).
  assert (Hnew : forall p, p ∈ slot_pages (e', c') -> p <> troot T /\ p ∉ other_pages T n).
  { intros p Hin. destruct (Hpages p Hin) as (_ & [Hold|Hfree]).
    - split; [by intros ->; apply R1 | by apply D].
    - split; [intros ->; apply Hfree, Ht, sl_in; by left|]. intros Hino. apply Hfree, Ht, sl_in. by right; right. }
  split; try done.
  - split; try done.
    + apply rep_full, (rep_set 512 below (memory s) (memory s') T n (e, c) (e', c')); try done; [apply rep_full, Ht|].
      intros x (p & Hpo & Hx). assert (Hin : p ∈ tpages T) by (apply sl_in; by right; right). apply Hbytes.
      * apply (page_busy_byte _ p x (Hpg p Hin) Hx). by apply Ht.
      * assert (Hne : p <> troot T) by (by intros ->). destruct (pages_apart p (troot T) (Hpg p Hin) sl_root Hne); lia.
      * intros (q & Hq & Hqx). assert (Hne : p <> q) by (intros ->; by apply (D q)).
        destruct (pages_apart p q (Hpg p Hin)); [apply Hpg, sl_in; by right; left | done | lia | lia].
    + rewrite Hperm. constructor.
      * rewrite elem_of_app. intros [Hin|Hin]; [by destruct (Hnew _ Hin) as [Hne _]; apply Hne | done].
      * apply NoDup_app. split_and!; [done | | done]. intros p Hin. by apply Hnew.
    + intros p Hin. rewrite Hperm, elem_of_cons, elem_of_app in Hin. destruct Hin as [->|[Hin|Hin]].
      * apply Hbusy, troot_in.
      * by apply Hpages.
      * apply Hbusy, sl_in. by right; right.
  - intros p Hin. rewrite Hperm, elem_of_cons, elem_of_app in Hin. destruct Hin as [->|[Hin|Hin]].
    + left. apply troot_in.
    + destruct (Hpages p Hin) as (_ & [Hold|Hfree]); [left; apply sl_in; by right; left | by right].
    + left. apply sl_in. by right; right.
  - intros x Hx Hnot. apply Hbytes; [done | |].
    + intros Hr. apply Hnot. exists (troot T). split; [apply troot_in | done].
    + intros (p & Hin & Hpx). apply Hnot. exists p. split; [apply sl_in; by right; left | done].
Qed.

(** The entry is replaced by one with the same table below it. *)
Lemma grown_store e' : is_u64 e' -> slot_rep below (rep below (memory s)) (e', c) ->
  grown (S below) s (store (troot T) (ix n) e' s) T (set_slot T n (e', c)).
Proof.
  intros He' Hrep. pose proof sl_index as Hi. pose proof sl_root as Hroot. destruct sl_parts as (R1 & R2 & N1 & N2 & D). assert (Hpg : forall p, p ∈ tpages T -> is_page p) by (intros p; apply (rep_pages _ _ T p (ti_rep _ _ _ Ht))).
  assert (Hsub : forall p, p ∈ slot_pages (e, c) -> p ∈ tpages T /\ p <> troot T).
  { intros p Hp. split; [apply sl_in; by right; left | by intros ->; apply R1]. }
  apply grown_slot; try done.
  - cbn [store memory with_memory]. apply set_entry_ok, Ht.
  - apply Ht.
  - by apply entry_set_eq.
  - unfold slot_rep in *. cbn [fst snd] in *. destruct c as [T'|]; [|done]. destruct Hrep as (H1 & H2 & H3). split; [done|]. split; [done|].
    apply (rep_ext below (memory s)); [|done]. intros x (p & Hp & Hx). cbn [store memory with_memory]. apply rd_set_entry_out.
    destruct (Hsub p Hp) as (Hin & Hne). destruct (pages_apart p (troot T) (Hpg p Hin) Hroot Hne); unfold ix; lia.
  - intros j Hj Hj'. apply entry_set_ne. unfold ix. lia.
  - intros x _ Hx _. cbn [store memory with_memory]. apply rd_set_entry_out. unfold ix. lia.
  - intros p Hp. split; [|by left]. apply Ht, sl_in. by right; left.
Qed.
End Slot.

(** A walk below slot [n]. *)
Lemma grown_sub below s s' T n e T0 T0' : tree_in (S below) s T -> tslots T !! n = Some (e, Some T0) ->
  grown below s s' T0 T0' -> grown (S below) s s' T (set_slot T n (e, Some T0')).
Proof.
  intros Ht Hn Hg. destruct (sl_parts _ _ _ _ _ _ Ht Hn) as (R1 & R2 & N1 & N2 & D). pose proof (sl_root _ _ _ Ht) as Hroot.
  pose proof (ti_rep _ _ _ Ht) as Hr. pose proof Hr as Hr0. rewrite rep_full in Hr0. destruct (slot_cases _ _ _ _ _ _ _ Hr0 Hn) as (He & H0 & Hpr & Hps & Hph & Hr').
  assert (Hrootbytes : forall x, troot T <= x < troot T + 4096 -> rd (memory s') x = rd (memory s) x).
  { intros x Hx. apply (gr_bytes _ _ _ _ _ Hg).
    - apply (page_busy_byte _ (troot T) x Hroot Hx). apply Ht, troot_in.
    - apply (in_pages_apart _ (troot T)); [done | | done | done]. intros q Hq. by apply (rep_pages _ _ _ _ Hr'). }
  assert (Hentry : forall j, (j < 512)%nat -> entry_at (memory s') (troot T) (ix j) = entry_at (memory s) (troot T) (ix j)).
  { intros j Hj. apply entry_ext. intros x Hx. apply Hrootbytes. unfold ix in Hx. lia. }
  apply (grown_slot below s T n e (Some T0) Ht Hn); try apply Hg.
  - rewrite Hentry by (by apply (sl_index _ _ _ _ _ _ Ht Hn)). done.
  - unfold slot_rep. cbn [fst snd]. split; [done|]. rewrite (gr_root _ _ _ _ _ Hg). split; [by rewrite next_cases, Hpr, Hps, Hph | apply Hg].
  - intros j _ Hj. by apply Hentry.
  - intros x Hx _ Hnot. by apply (gr_bytes _ _ _ _ _ Hg).
  - intros p Hp. split; [by apply Hg|]. by apply (gr_pages _ _ _ _ _ Hg).
Qed.

(** ** Splitting a large page *)

Definition leaf_base (level : nat) (e : Z) : Z := (e &! PAGE_ADDRESS_MASK) &! not64 (level_size level -! 1).

Definition split_attributes (level : nat) (e : Z) : Z :=
  let attributes := e &! not64 PAGE_ADDRESS_MASK in
  let large_pat := e &! PAT_LARGE in
  if Nat.eqb level 2 then
    let attributes := attributes &! not64 PAGE_SIZE_FLAG in
    if negb (large_pat =? 0) then attributes |! 2 ^ 7 else attributes
  else attributes |! large_pat.

Definition split_entry (level : nat) (e i : Z) : Z := (leaf_base level e +! i *! (level_size level / ENTRY_COUNT)) |! split_attributes level e.

Definition split_tree (level : nat) (e f : Z) : ptree := PT f (map (fun i => (split_entry level e (ix i), None)) (seq 0 512)).

Lemma fill_spec f (v : Z -> Z) s : mem_ok (memory s) -> (forall i, is_u64 (v i)) ->
  exists m, for_up (trips 0 ENTRY_COUNT) 0 (fun i s => store f i (v i) s) s = with_memory s m /\ mem_ok m /\
    (forall i, index_ok i -> entry_at m f i = v i) /\ (forall x, ~ (f <= x < f + 4096) -> rd m x = rd (memory s) x).
Proof.
  intros Hm Hv. pose proof (for_up_ind (fun k s' => exists m, s' = with_memory s m /\ mem_ok m /\
    (forall i, 0 <= i < k -> entry_at m f i = v i) /\ (forall x, ~ (f <= x < f + 4096) -> rd m x = rd (memory s) x))
    (fun i s => store f i (v i) s) (trips 0 ENTRY_COUNT) 0 s) as H. destruct H as (m & -> & Hok & He & Hx).
  - exists (memory s). split_and!; [by destruct s | done | lia | done].
  - intros k s' Hk (m & -> & Hok & He & Hx). exists (set_entry m f k (v k)). change (trips 0 ENTRY_COUNT) with 512%nat in Hk. split_and!.
    + done.
    + by apply set_entry_ok.
    + intros i Hi. destruct (decide (i = k)) as [->|]; [by apply entry_set_eq|]. rewrite entry_set_ne by done. apply He. lia.
    + intros x Hxx. rewrite rd_set_entry_out by lia. by apply Hx.
  - exists m. split_and!; try done.
Qed.

Lemma split_entry_u64 level e i : is_u64 e -> is_u64 (split_entry level e i).
Proof.
  intros He. apply lor_u64; [apply u64_range|]. unfold split_attributes.
  destruct (Nat.eqb level 2); [destruct (negb _)|]; repeat first [apply lor_u64 | apply land_u64]; try done.
Qed.

(** The entry of a new table. *)
Definition link_entry (f : Z) : Z := f |! VMM_PRESENT |! VMM_WRITABLE.

Lemma link_entry_spec f : is_page f -> is_u64 (link_entry f) /\ next (link_entry f) = Some f.
Proof.
  intros Hf. unfold link_entry. split; [repeat apply lor_u64; [by apply is_page_u64 | done | done]|].
  assert (Hb : forall k, 0 <= k < 12 -> Z.testbit f k = false) by (intros k Hk; apply (testbit_aligned f 12); [apply Hf | done]).
  rewrite next_cases, has_PRESENT, has_PS, !Z.lor_spec, !Hb by lia. cbn. rewrite <- Z.lor_assoc. by rewrite table_physical_lor.
Qed.

Lemma split_boot_cases table n level s e : pmm_wf (pmm s) -> mem_ok (memory s) -> entry_at (memory s) table n = e ->
  match split_boot_mapping table n level s with
  | (false, s') => s' = s
  | (true, s') => exists f q m p,
      s' = store table n (link_entry f) (mk_vmm p m (cr3 s) (kernel_pml4 s) (tlb s)) /\
      f = q * PMM_PAGE_SIZE /\ 0 <= q < page_count (pmm s) /\ abs (pmm s) q = Free /\ pmm_wf p /\ same_shape (pmm s) p /\
      (forall r, 0 <= r -> abs p r = upd (abs (pmm s)) q (Used 1) r) /\ mem_ok m /\
      (forall i, index_ok i -> entry_at m f i = split_entry level e i) /\ (forall x, ~ (f <= x < f + 4096) -> rd m x = rd (memory s) x)
  end.
Proof.
  intros Hp Hm He. unfold split_boot_mapping, pmm_alloc_page.
  destruct (alloc_page_fresh 0 (pmm s) Hp ltac:(done)) as [(_ & ->)|(q & p' & -> & Hq & Hf & W & S & A)].
  { rewrite Z.eqb_refl. by destruct s. }
  pose proof (wf_page_count _ Hp) as Hb. destruct (Z.eqb_spec (q * PMM_PAGE_SIZE) PMM_INVALID_ADDRESS) as [E|_].
  { exfalso. revert E. unfold PMM_INVALID_ADDRESS, PMM_PAGE_SIZE, UINT64_MAX. lia. }
  cbv zeta. cbn [load memory with_pmm]. unfold load. cbn [memory with_pmm]. rewrite He.
  change ((e &! PAGE_ADDRESS_MASK) &! not64 (level_size level -! 1)) with (leaf_base level e).
  fold (split_attributes level e).
  destruct (fill_spec (q * PMM_PAGE_SIZE) (split_entry level e) (with_pmm s p')) as (m & Em & Hmok & Hent & Hout).
  { done. }
  { intros i. apply split_entry_u64. rewrite <- He. by apply entry_u64. }
  unfold split_entry in Em. unfold split_attributes in *. rewrite Em.
  exists (q * PMM_PAGE_SIZE), q, m, p'. split_and!; try done; lia.
Qed.

Definition level_shift (level : nat) : Z := 12 + 9 * (Z.of_nat level - 1).

Lemma level_size_pow level : (1 <= level <= 4)%nat -> level_size level = 2 ^ level_shift level.
Proof.
  intros Hl. unfold level_size. fold (level_shift level). rewrite Z.shiftl_1_l. apply u64_small. unfold is_u64, level_shift. split; [lia|].
  apply Z.pow_lt_mono_r; lia.
Qed.

Lemma leaf_base_bit level e k : (1 <= level <= 4)%nat -> 0 <= k ->
  Z.testbit (leaf_base level e) k = Z.testbit e k && ((level_shift level <=? k) && (k <? 52)).
Proof.
  intros Hl Hk. unfold leaf_base. rewrite level_size_pow by done. set (j := level_shift level). assert (Hj : 12 <= j <= 39) by (unfold j, level_shift; lia).
  assert (Hp : 2 ^ j < 2 ^ 64) by (apply Z.pow_lt_mono_r; lia). assert (H0 : 0 < 2 ^ j) by (apply Z.pow_pos_nonneg; lia).
  rewrite u64_small by (unfold is_u64; lia). rewrite !Z.land_spec, testbit_mask, testbit_not64 by (unfold is_u64; lia).
  replace (2 ^ j - 1) with (Z.ones j) by (rewrite Z.ones_equiv; lia). destruct (Z.leb_spec j k).
  - rewrite (Z.ones_spec_high j k) by lia. destruct (Z.leb_spec 12 k), (Z.ltb_spec k 52), (Z.ltb_spec k 64), (Z.testbit e k); try done; lia.
  - rewrite (Z.ones_spec_low j k) by lia. by rewrite !andb_false_r.
Qed.

Lemma leaf_base_spec level e : (1 <= level <= 4)%nat -> is_u64 e ->
  leaf_base level e mod 2 ^ level_shift level = 0 /\ 0 <= leaf_base level e /\ leaf_base level e + 2 ^ level_shift level <= 2 ^ 52.
Proof.
  intros Hl He. set (j := level_shift level). assert (Hj : 12 <= j <= 39) by (unfold j, level_shift; lia).
  assert (Hal : leaf_base level e mod 2 ^ j = 0).
  { apply aligned_of_bits; [lia|]. intros i Hi. rewrite leaf_base_bit by (done || lia). fold j. destruct (Z.leb_spec j i); [lia|]. by rewrite andb_false_r. }
  assert (H0 : 0 <= leaf_base level e).
  { unfold leaf_base. apply Z.land_nonneg. left. apply Z.land_nonneg. right. done. }
  split; [done|]. split; [done|].
  assert (Hlt : leaf_base level e < 2 ^ 52).
  { destruct (Z_lt_le_dec (leaf_base level e) (2 ^ 52)) as [|Hge]; [done|]. exfalso.
    assert (Hlog : 52 <= Z.log2 (leaf_base level e)) by (by apply Z.log2_le_pow2; [lia|]).
    assert (Hb := Z.bit_log2 (leaf_base level e) ltac:(lia)). rewrite leaf_base_bit in Hb by (done || lia).
    destruct (Z.ltb_spec (Z.log2 (leaf_base level e)) 52); [lia|]. by rewrite !andb_false_r in Hb. }
  apply Z.mod_divide in Hal as (c & Hc); [|lia]. rewrite Hc in *.
  assert (E : 2 ^ 52 = 2 ^ j * 2 ^ (52 - j)) by (rewrite <- Z.pow_add_r by lia; f_equal; lia). rewrite E in *.
  assert (0 < 2 ^ j) by (apply Z.pow_pos_nonneg; lia). assert (c < 2 ^ (52 - j)) by nia. nia.
Qed.

(** The base of part [i] of a split page. *)
Definition split_base (level : nat) (e i : Z) : Z := leaf_base level e + i * 2 ^ level_shift (pred level).

Lemma split_base_spec level e i : (2 <= level <= 3)%nat -> is_u64 e -> index_ok i ->
  leaf_base level e +! i *! (level_size level / ENTRY_COUNT) = split_base level e i /\
  split_base level e i mod 2 ^ level_shift (pred level) = 0 /\ 0 <= split_base level e i < 2 ^ 52.
Proof.
  intros Hl He Hi. destruct (leaf_base_spec level e ltac:(lia) He) as (Hal & H0 & Hlt). unfold split_base. unfold index_ok, ENTRY_COUNT in Hi.
  set (j := level_shift (pred level)). assert (Hj : level_shift level = j + 9) by (unfold j, level_shift; lia).
  assert (Hjr : 12 <= j <= 21) by (unfold j, level_shift; lia). assert (Hp : 0 < 2 ^ j < 2 ^ 22) by (split; [apply Z.pow_pos_nonneg; lia | apply Z.pow_lt_mono_r; lia]).
  rewrite level_size_pow, Hj in * by lia. rewrite Z.pow_add_r in * by lia. change (2 ^ 9) with 512 in *. unfold ENTRY_COUNT. rewrite Z.div_mul by lia.
  rewrite (u64_small (i * 2 ^ j)) by (unfold is_u64; nia). rewrite u64_small by (unfold is_u64; nia). split_and!; [done | | nia | nia].
  apply Z.mod_divide in Hal as (c & Hc); [|lia]. rewrite Hc. replace (c * (2 ^ j * 512) + i * 2 ^ j) with ((c * 512 + i) * 2 ^ j) by lia. by apply Z_mod_mult.
Qed.

Lemma split_attributes_bit level e k : (2 <= level <= 3)%nat -> is_u64 e -> 0 <= k -> Z.testbit (split_attributes level e) k =
  if Nat.eqb level 2 then (Z.testbit e k && negb ((12 <=? k) && (k <? 52)) && negb (k =? 7)) || ((k =? 7) && Z.testbit e 12)
  else (Z.testbit e k && negb ((12 <=? k) && (k <? 52))) || ((k =? 12) && Z.testbit e 12).
Proof.
  intros Hl He Hk. unfold split_attributes. assert (Hpat : ((e &! PAT_LARGE) =? 0) = negb (Z.testbit e 12)).
  { rewrite <- (has_pow2 e 12) by done. unfold has. by rewrite negb_involutive. }
  assert (Hhigh : 64 <= k -> Z.testbit e k = false) by (intros; by apply testbit_u64_high).
  assert (H12 : Z.testbit PAT_LARGE k = (k =? 12)) by (unfold PAT_LARGE; rewrite testbit_pow2 by lia; by destruct (bool_decide_reflect (k = 12)), (Z.eqb_spec k 12)).
  assert (H7 : Z.testbit (2 ^ 7) k = (k =? 7)) by (rewrite testbit_pow2 by lia; by destruct (bool_decide_reflect (k = 7)), (Z.eqb_spec k 7)).
  rewrite Hpat, negb_involutive. destruct (Nat.eqb level 2).
  - assert (Hn7 : Z.testbit (not64 PAGE_SIZE_FLAG) k = (k <? 64) && negb (k =? 7)) by (rewrite testbit_not64 by done; unfold PAGE_SIZE_FLAG; by rewrite H7).
    destruct (Z.testbit e 12); rewrite ?Z.lor_spec, !Z.land_spec, testbit_not_mask, Hn7, ?H7 by done;
      destruct (Z.ltb_spec k 64); rewrite ?Hhigh by lia; destruct (Z.testbit e k), (k =? 7), ((12 <=? k) && (k <? 52)); try done.
  - rewrite Z.lor_spec, !Z.land_spec, testbit_not_mask, H12 by done. destruct (Z.ltb_spec k 64); rewrite ?Hhigh by lia.
    + destruct (Z.eqb_spec k 12) as [->|]; cbn [andb]; [by destruct (Z.testbit e 12)|]. by rewrite andb_false_r.
    + destruct (Z.eqb_spec k 12); [lia|]. by rewrite !andb_false_r.
Qed.

Lemma split_entry_bit level e i k : (2 <= level <= 3)%nat -> is_u64 e -> index_ok i -> 0 <= k ->
  Z.testbit (split_entry level e i) k = Z.testbit (split_base level e i) k || Z.testbit (split_attributes level e) k.
Proof. intros Hl He Hi Hk. unfold split_entry. rewrite (proj1 (split_base_spec level e i Hl He Hi)). apply Z.lor_spec. Qed.

Lemma split_base_low level e i k : (2 <= level <= 3)%nat -> is_u64 e -> index_ok i -> 0 <= k < level_shift (pred level) ->
  Z.testbit (split_base level e i) k = false.
Proof. intros Hl He Hi Hk. destruct (split_base_spec level e i Hl He Hi) as (_ & Hal & _). by apply (testbit_aligned _ (level_shift (pred level))). Qed.

(** What a part of a split page inherits: its place, presence and memory type. *)
Lemma split_entry_base level e i : (2 <= level <= 3)%nat -> is_u64 e -> index_ok i ->
  leaf_base (pred level) (split_entry level e i) = split_base level e i.
Proof.
  intros Hl He Hi. destruct (split_base_spec level e i Hl He Hi) as (_ & Hal & H0 & Hlt). apply Z.bits_inj'. intros k Hk.
  rewrite leaf_base_bit, split_entry_bit, split_attributes_bit by (done || lia). set (j := level_shift (pred level)) in *.
  assert (Hj : 12 <= j) by (unfold j, level_shift; lia). destruct (Z.leb_spec j k) as [Hjk|Hjk].
  - destruct (Z.ltb_spec k 52) as [Hk5|Hk5]; [|by rewrite (testbit_small (split_base level e i) 52 k), ?andb_false_r by lia].
    rewrite (proj2 (Z.leb_le 12 k)) by lia. cbn [andb negb]. rewrite !andb_false_r, andb_true_r. cbn [orb andb].
    destruct (Nat.eqb_spec level 2).
    + rewrite (proj2 (Z.eqb_neq k 7)) by lia. cbn [andb]. by rewrite orb_false_r.
    + rewrite (proj2 (Z.eqb_neq k 12)) by (unfold j, level_shift in Hjk; lia). cbn [andb]. by rewrite orb_false_r.
  - rewrite (testbit_aligned (split_base level e i) j k) by done. by rewrite andb_false_r.
Qed.

Definition memory_type (level : nat) (e : Z) : bool * bool * bool :=
  (Z.testbit e 3, Z.testbit e 4, if Nat.eqb level 1 then Z.testbit e 7 else Z.testbit e 12).

Lemma split_entry_flags level e i : (2 <= level <= 3)%nat -> is_u64 e -> index_ok i ->
  has (split_entry level e i) VMM_PRESENT = has e VMM_PRESENT /\
  memory_type (pred level) (split_entry level e i) = memory_type level e /\
  (level = 3%nat -> has (split_entry level e i) PAGE_SIZE_FLAG = has e PAGE_SIZE_FLAG).
Proof.
  intros Hl He Hi. assert (Hj : 12 <= level_shift (pred level)) by (unfold level_shift; lia).
  assert (Hlow : forall k, 0 <= k < 12 -> Z.testbit (split_entry level e i) k = Z.testbit (split_attributes level e) k).
  { intros k Hk. rewrite split_entry_bit by (done || lia). by rewrite split_base_low by (done || lia). }
  rewrite !has_PRESENT, !has_PS. unfold memory_type. assert (Hcase : level = 2%nat \/ level = 3%nat) by lia.
  destruct Hcase as [->| ->]; cbn [pred Nat.eqb]; split_and!; try (intros H3).
  - rewrite Hlow, split_attributes_bit by (done || lia). cbn. by rewrite ?andb_true_r, ?orb_false_r.
  - rewrite !Hlow, !split_attributes_bit by (done || lia). cbn. by rewrite ?andb_true_r, ?orb_false_r, ?andb_false_r.
  - done.
  - rewrite Hlow, split_attributes_bit by (done || lia). cbn. by rewrite ?andb_true_r, ?orb_false_r.
  - rewrite !Hlow, (split_entry_bit 3 e i 12) by (done || lia). rewrite (split_base_low 3) by (done || (unfold level_shift; simpl; lia)).
    rewrite !split_attributes_bit by (done || lia). cbn. by rewrite ?andb_true_r, ?orb_false_r, ?andb_false_r.
  - rewrite Hlow, split_attributes_bit by (done || lia). cbn. by rewrite ?andb_true_r, ?orb_false_r.
Qed.

(** ** Splitting as growth *)

Lemma split_tree_rep level e f m : (2 <= level <= 3)%nat -> is_u64 e -> is_page f -> has e PAGE_SIZE_FLAG = true ->
  (forall i, index_ok i -> entry_at m f i = split_entry level e i) -> rep (pred level) m (split_tree level e f).
Proof.
  intros Hl He Hf Hps Hent. replace (pred level) with (S (pred (pred level))) by lia. cbn [rep]. unfold table_rep, split_tree. cbn [troot tslots].
  split; [done|]. split; [by rewrite length_map, length_seq|]. intros i s Hi. apply list_lookup_fmap_Some in Hi as (j & -> & Hj).
  apply lookup_seq in Hj as (-> & Hlt). rewrite Nat.add_0_l. cbn [fst]. split; [apply Hent; by apply nat_index|].
  unfold slot_rep. cbn [fst snd]. assert (Hcase : level = 2%nat \/ level = 3%nat) by lia. destruct Hcase as [->| ->]; [by left|]. right.
  destruct (split_entry_flags 3 e (ix i) ltac:(lia) He (nat_index i Hlt)) as (_ & _ & Hp). rewrite next_cases, Hp, Hps by done. by rewrite andb_false_r.
Qed.

Lemma split_tree_pages level e f e' : slot_pages (e', Some (split_tree level e f)) = [f].
Proof.
  unfold slot_pages, split_tree. cbn [snd]. generalize (seq 0 512). intros l. rewrite tpages_unfold.
  induction l as [|i l IH]; [done|]. exact IH.
Qed.

Lemma grown_split below s s' T n e : tree_in (S below) s T -> tslots T !! n = Some (e, None) -> (1 <= below <= 2)%nat ->
  has e PAGE_SIZE_FLAG = true -> split_boot_mapping (troot T) (ix n) (S below) s = (true, s') ->
  exists f, is_page f /\ grown (S below) s s' T (set_slot T n (link_entry f, Some (split_tree (S below) e f))).
Proof.
  intros Ht Hn Hb Hps Hsplit. pose proof (sl_root _ _ _ Ht) as Hroot. pose proof (sl_index _ _ _ _ _ _ Ht Hn) as Hi.
  pose proof (ti_rep _ _ _ Ht) as Hr. rewrite rep_full in Hr. destruct (slot_cases _ _ _ _ _ _ _ Hr Hn) as (He & _).
  assert (Hu : is_u64 e) by (rewrite <- He; apply entry_u64, Ht).
  pose proof (split_boot_cases (troot T) (ix n) (S below) s e (ti_pmm _ _ _ Ht) (ti_mem _ _ _ Ht) He) as Hc. rewrite Hsplit in Hc.
  destruct Hc as (f & q & m & p & -> & Ef & Hq & Hfree & W & S & A & Hm & Hent & Hout).
  assert (Hf : is_page f /\ f / PMM_PAGE_SIZE = q) by (rewrite Ef; apply page_address; pose proof (wf_page_count _ (ti_pmm _ _ _ Ht)); lia).
  destruct Hf as (Hf & Efq). assert (Hnb : ~ page_busy (pmm s) f) by (unfold page_busy; rewrite Efq; auto).
  assert (Hfr : f <> troot T) by (intros E; apply Hnb; rewrite E; apply Ht, troot_in).
  assert (Hfx : forall x, page_busy (pmm s) x -> ~ (f <= x < f + 4096)) by (intros x Hx Hfx; apply Hnb; by apply (page_busy_byte _ f x)).
  assert (Hpages : slot_pages (link_entry f, Some (split_tree (Datatypes.S below) e f)) = [f]) by apply split_tree_pages.
  destruct (link_entry_spec f Hf) as (Hlu & Hln). assert (Hap : f + 4096 <= troot T \/ troot T + 4096 <= f) by (by apply pages_apart).
  exists f. split; [done|]. apply (grown_slot below s T n e None Ht Hn); cbn [store memory with_memory pmm tlb].
  - by apply set_entry_ok.
  - exact W.
  - by split.
  - done.
  - intros r Hr0 Hrf. rewrite A by lia. unfold upd. rewrite decide_False; [done | by intros ->].
  - by apply entry_set_eq.
  - unfold slot_rep. cbn [fst snd]. split; [lia|]. split; [exact Hln|]. replace below with (pred (Datatypes.S below)) at 1 by lia.
    apply split_tree_rep; [lia | exact Hu | exact Hf | exact Hps|]. intros i Hi'. rewrite <- Hent by exact Hi'. apply entry_same_page; [|exact Hi'].
    intros x Hx. apply rd_set_entry_out. unfold ix. lia.
  - intros j Hj Hj'. rewrite entry_set_ne by (unfold ix; lia). apply entry_ext. intros x Hx. apply Hout. unfold ix in *. lia.
  - intros x Hx Hrx _. rewrite rd_set_entry_out by (unfold ix; lia). apply Hout. by apply Hfx.
  - rewrite Hpages. apply NoDup_singleton.
  - rewrite Hpages. intros p' Hp'. apply list_elem_of_singleton in Hp' as ->. split; [|by right]. intros _. rewrite Efq, A by lia. unfold upd. by rewrite decide_True.
Qed.

(** ** Pages *)

Fixpoint path_offset (idx : list Z) : Z :=
  match idx with
  | [] => 0
  | i :: rest => i * 2 ^ level_shift (length idx) + path_offset rest
  end.

(** The frame of the page at a path, its memory type and the entry with its rights. *)
Fixpoint page_of (T : ptree) (idx : list Z) : option (Z * (bool * bool * bool) * Z) :=
  match idx with
  | [] => None
  | i :: rest =>
      match tslots T !! Z.to_nat i with
      | None => None
      | Some (e, c) =>
          if negb (has e VMM_PRESENT) then None
          else match c with
               | Some T' => page_of T' rest
               | None => Some (leaf_base (length idx) e + path_offset rest, memory_type (length idx) e, e)
               end
      end
  end.

(** The address the walk computes, with its sign extension. *)
Fixpoint boot_address (prefix : Z) (idx : list Z) : Z :=
  match idx with
  | [] => prefix
  | i :: rest => boot_address (sign_extend (length idx) (page_table_virtual_address prefix i (length idx))) rest
  end.

(** The rights of a page at [va] with the frame at [p]. *)
Record page_protected (l : layout) (va p e : Z) : Prop := {
  pp_user : has e VMM_USER = false;
  pp_text : has e VMM_NO_EXECUTE = false <-> text_start l <= va < text_end l;
  pp_wx : has e VMM_NO_EXECUTE = false -> has e VMM_WRITABLE = false;
  pp_readonly : readonly_start l <= p < readonly_end l -> has e VMM_WRITABLE = false;
}.

(** The same page with its rights set. *)
Definition page_rel (l : layout) (va : Z) (o o' : option (Z * (bool * bool * bool) * Z)) : Prop :=
  match o, o' with
  | None, None => True
  | Some (p, t, _), Some (p', t', e') => p' = p /\ t' = t /\ page_protected l va p e'
  | _, _ => False
  end.

(** Tables restrict nothing and are closed to user code. *)
Definition open_entry (e : Z) : Prop := has e VMM_WRITABLE = true /\ has e VMM_NO_EXECUTE = false /\ has e VMM_USER = false.

Fixpoint open_tree (level : nat) (T : ptree) : Prop :=
  match level with
  | O => True
  | S below => forall n e T', tslots T !! n = Some (e, Some T') -> open_entry e /\ open_tree below T'
  end.

Record layout_ok (l : layout) : Prop := {
  lo_text : text_start l mod 2 ^ 12 = 0 /\ text_end l mod 2 ^ 12 = 0 /\ is_u64 (text_start l) /\ is_u64 (text_end l);
  lo_readonly : readonly_start l mod 2 ^ 12 = 0 /\ readonly_end l mod 2 ^ 12 = 0 /\ is_u64 (readonly_start l) /\ is_u64 (readonly_end l);
}.

(** ** Ranges *)

Lemma range_contains_spec ps pe a size x : is_u64 ps -> is_u64 pe -> is_u64 a -> range_contains ps pe a size = true ->
  a <= x < a + size -> ps <= x < pe.
Proof. unfold range_contains, is_u64. intros Hs He Ha H Hx. bool_prop. rewrite u64_small in * by (unfold is_u64; lia). lia. Qed.

Lemma range_overlaps_spec ps pe a size x : is_u64 ps -> is_u64 pe -> is_u64 a -> range_overlaps a size ps pe = false ->
  a <= x < a + size -> ~ (ps <= x < pe).
Proof.
  unfold range_overlaps, is_u64. intros Hs He Ha H Hx Hin. rewrite (proj2 (Z.ltb_lt a pe)) in H by lia. cbn [andb] in H. bool_prop.
  rewrite u64_small in * by (unfold is_u64; lia). lia.
Qed.

(** At page granularity the two tests agree. *)
Lemma range_page_spec ps pe a : ps mod 2 ^ 12 = 0 -> pe mod 2 ^ 12 = 0 -> a mod 2 ^ 12 = 0 -> is_u64 ps -> is_u64 pe -> is_u64 a ->
  range_contains ps pe a (2 ^ 12) = false -> ~ (ps <= a < pe).
Proof.
  unfold range_contains, is_u64. intros H1 H2 H3 Hs He Ha H Hin. rewrite (proj2 (Z.leb_le ps a)), (proj2 (Z.ltb_lt a pe)) in H by lia.
  cbn [andb] in H. bool_prop. rewrite u64_small in H by (unfold is_u64; lia). change (2 ^ 12) with 4096 in *.
  apply Z.mod_divide in H2 as (c & Hc), H3 as (d & Hd); [|lia..]. nia.
Qed.

(** A range that is contained or, unless it is a page, not touched. *)
Lemma range_exact level ps pe a x : ps mod 2 ^ 12 = 0 -> pe mod 2 ^ 12 = 0 -> a mod 2 ^ 12 = 0 -> is_u64 ps -> is_u64 pe -> is_u64 a ->
  level = 1%nat \/ range_contains ps pe a (2 ^ level_shift level) = true \/ range_overlaps a (2 ^ level_shift level) ps pe = false ->
  a <= x < a + 2 ^ level_shift level -> (level = 1%nat -> x = a) -> range_contains ps pe a (2 ^ level_shift level) = true <-> ps <= x < pe.
Proof.
  intros H1 H2 H3 Hs He Ha Hcase Hx Hpage. destruct (range_contains ps pe a (2 ^ level_shift level)) eqn:Hc.
  - split; [|done]. intros _. by apply (range_contains_spec ps pe a (2 ^ level_shift level)).
  - split; [done|]. intros Hin. exfalso. destruct Hcase as [->|[|Ho]]; [| done | by apply (range_overlaps_spec ps pe a (2 ^ level_shift level) x)].
    change (level_shift 1) with 12 in *. rewrite Hpage in Hin by done. by apply (range_page_spec ps pe a).
Qed.

(** ** Rights *)

Lemma testbit_not_user k : 0 <= k -> Z.testbit (not64 VMM_USER) k = (k <? 64) && negb (k =? 2).
Proof.
  intros Hk. rewrite testbit_not64 by done. unfold VMM_USER. rewrite testbit_pow2 by done.
  by destruct (bool_decide_reflect (k = 2)), (Z.eqb_spec k 2).
Qed.

Lemma testbit_not_nx k : 0 <= k -> Z.testbit (not64 VMM_NO_EXECUTE) k = (k <? 64) && negb (k =? 63).
Proof.
  intros Hk. rewrite testbit_not64 by done. unfold VMM_NO_EXECUTE. rewrite testbit_pow2 by done.
  by destruct (bool_decide_reflect (k = 63)), (Z.eqb_spec k 63).
Qed.

Lemma protected_leaf_bit readonly executable e k : is_u64 e -> 0 <= k -> Z.testbit (protected_leaf readonly executable e) k =
  if k =? 2 then false else if k =? 1 then Z.testbit e 1 && negb (readonly || executable) else if k =? 63 then negb executable else Z.testbit e k.
Proof.
  intros He Hk. unfold protected_leaf. assert (Hhigh : 64 <= k -> Z.testbit e k = false) by (intros; by apply testbit_u64_high).
  assert (Hnx : Z.testbit VMM_NO_EXECUTE k = (k =? 63)) by (unfold VMM_NO_EXECUTE; rewrite testbit_pow2 by done; by destruct (bool_decide_reflect (k = 63)), (Z.eqb_spec k 63)).
  destruct readonly, executable; cbn [orb negb]; rewrite ?Z.lor_spec, ?Z.land_spec, ?testbit_not_user, ?testbit_not_writable, ?testbit_not_nx, ?Hnx by done.
  all: destruct (Z.ltb_spec k 64); rewrite ?Hhigh by lia.
  all: destruct (Z.eqb_spec k 2) as [->|]; [cbn [negb andb orb Z.eqb Pos.eqb]; by rewrite ?andb_false_r|].
  all: destruct (Z.eqb_spec k 1) as [->|]; [cbn [negb andb orb Z.eqb Pos.eqb]; by rewrite ?andb_true_r, ?andb_false_r, ?orb_false_r|].
  all: destruct (Z.eqb_spec k 63) as [->|]; [cbn [negb andb orb Z.eqb Pos.eqb]; rewrite ?andb_false_r, ?orb_true_r; done || lia|].
  all: cbn [negb andb orb]; by rewrite ?andb_true_r, ?orb_false_r.
Qed.

Lemma protected_leaf_u64 readonly executable e : is_u64 e -> is_u64 (protected_leaf readonly executable e).
Proof.
  intros He. unfold protected_leaf. destruct (readonly || executable), executable; repeat first [apply lor_u64 | apply land_u64]; done.
Qed.

Lemma protected_leaf_same level readonly executable e : (1 <= level <= 4)%nat -> is_u64 e -> let e' := protected_leaf readonly executable e in
  has e' VMM_PRESENT = has e VMM_PRESENT /\ has e' PAGE_SIZE_FLAG = has e PAGE_SIZE_FLAG /\
  leaf_base level e' = leaf_base level e /\ memory_type level e' = memory_type level e.
Proof.
  intros Hl He e'. assert (Hb : forall k, 0 <= k -> k <> 1 -> k <> 2 -> k <> 63 -> Z.testbit e' k = Z.testbit e k).
  { intros k Hk H1 H2 H3. unfold e'. rewrite protected_leaf_bit by done.
    by rewrite (proj2 (Z.eqb_neq k 2)), (proj2 (Z.eqb_neq k 1)), (proj2 (Z.eqb_neq k 63)). }
  rewrite !has_PRESENT, !has_PS. unfold memory_type. rewrite !Hb by lia. split_and!; try done.
  apply Z.bits_inj'. intros k Hk. rewrite !leaf_base_bit by done. destruct (Z.leb_spec (level_shift level) k), (Z.ltb_spec k 52); try by rewrite !andb_false_r.
  rewrite Hb; [done | done | | |]; unfold level_shift in *; lia.
Qed.

Lemma protected_table_spec e : is_u64 e -> let e' := protected_table e in
  is_u64 e' /\ next e' = next e /\ open_entry e'.
Proof.
  intros He e'. assert (Hb : forall k, 0 <= k -> Z.testbit e' k = (Z.testbit e k || (k =? 1)) && negb (k =? 2) && negb (k =? 63)).
  { intros k Hk. unfold e', protected_table. rewrite Z.land_spec, Z.lor_spec, testbit_not64 by done.
    rewrite Z.lor_spec. unfold VMM_WRITABLE, VMM_USER, VMM_NO_EXECUTE. rewrite !testbit_pow2 by done.
    destruct (Z.ltb_spec k 64); [|rewrite (testbit_u64_high e k) by done; rewrite (bool_decide_false (k = 1)), (proj2 (Z.eqb_neq k 1)) by lia; done].
    destruct (bool_decide_reflect (k = 1)), (Z.eqb_spec k 1), (bool_decide_reflect (k = 2)), (Z.eqb_spec k 2), (bool_decide_reflect (k = 63)), (Z.eqb_spec k 63);
      try done; by destruct (Z.testbit e k). }
  split_and!.
  - unfold e', protected_table. apply land_u64, lor_u64; done.
  - rewrite !next_cases, !has_PRESENT, !has_PS, !Hb by lia. cbn [negb andb orb Z.eqb Pos.eqb]. rewrite !orb_false_r, !andb_true_r.
    destruct (Z.testbit e 0 && negb (Z.testbit e 7)); [|done]. f_equal. unfold table_physical. apply Z.bits_inj'. intros k Hk.
    rewrite !Z.land_spec, Hb, testbit_mask by done. destruct (Z.leb_spec 12 k), (Z.ltb_spec k 52); try by rewrite !andb_false_r.
    rewrite (proj2 (Z.eqb_neq k 1)), (proj2 (Z.eqb_neq k 2)), (proj2 (Z.eqb_neq k 63)) by lia. cbn [negb andb orb Z.eqb Pos.eqb]. by rewrite orb_false_r, !andb_true_r.
  - unfold open_entry. rewrite has_WRITABLE, has_NX, has_USER, !Hb by lia. cbn [negb andb orb Z.eqb Pos.eqb]. rewrite orb_true_r, !andb_false_r. done.
Qed.

(** ** Addresses *)

Definition prefix_ok (level : nat) (prefix : Z) : Prop :=
  if Nat.eqb level 4 then prefix = 0 else prefix mod 2 ^ level_shift (S level) = 0 /\ is_u64 prefix.

Lemma level_shift_S level : level_shift (S (S level)) = level_shift (S level) + 9.
Proof. unfold level_shift. lia. Qed.

Lemma aligned_room a j : 0 <= j <= 64 -> a mod 2 ^ j = 0 -> is_u64 a -> a + 2 ^ j <= 2 ^ 64.
Proof.
  intros Hj Ha (H0 & Hlt). assert (E : 2 ^ 64 = 2 ^ j * 2 ^ (64 - j)) by (rewrite <- Z.pow_add_r by lia; f_equal; lia). rewrite E in *.
  assert (0 < 2 ^ j) by (apply Z.pow_pos_nonneg; lia). apply Z.mod_divide in Ha as (c & ->); [|lia]. assert (c < 2 ^ (64 - j)) by nia. nia.
Qed.

Lemma sign_extend_low level a : level <> 4%nat -> sign_extend level a = a.
Proof. intros H. unfold sign_extend. by rewrite (proj2 (Nat.eqb_neq level 4)). Qed.

(** The region a slot stands for. *)
Lemma slot_address level prefix i : (1 <= level <= 4)%nat -> prefix_ok level prefix -> index_ok i ->
  let a := sign_extend level (page_table_virtual_address prefix i level) in a mod 2 ^ level_shift level = 0 /\ is_u64 a.
Proof.
  intros Hl Hp Hi. unfold prefix_ok in Hp. destruct (Nat.eqb_spec level 4) as [->|Hne].
  - subst prefix. cbv zeta. pose proof Hi as Hi'. unfold index_ok, ENTRY_COUNT in Hi'. rewrite page_table_address_add by (done || lia).
    rewrite Z.add_0_l. change (12 + 9 * (Z.of_nat 4 - 1)) with 39. change (level_shift 4) with 39. unfold sign_extend. cbn [Nat.eqb andb].
    change (2 ^ 39) with 549755813888 in *. destruct (negb _); [|split; [by apply Z_mod_mult | unfold is_u64; lia]].
    change 0xFFFF000000000000 with (0xFFFF * 2 ^ 48). rewrite Z.lor_comm, (lor_disjoint_add _ _ 48) by (done || lia || by apply Z_mod_mult).
    split; [|unfold is_u64; lia]. replace (65535 * 2 ^ 48 + i * 549755813888) with ((65535 * 512 + i) * 549755813888) by lia. by apply Z_mod_mult.
  - destruct Hp as (Hal & Hu). rewrite sign_extend_low by done. cbv zeta. pose proof Hi as Hi'. unfold index_ok, ENTRY_COUNT in Hi'.
    assert (Hsh : 12 + 9 * Z.of_nat level = level_shift (S level)) by (unfold level_shift; lia).
    rewrite page_table_address_add by (done || lia || (unfold is_u64 in Hu; lia) || by rewrite Hsh). fold (level_shift level).
    assert (E : level_shift (S level) = level_shift level + 9) by (unfold level_shift; lia). set (j := level_shift level) in *.
    assert (Hj : 12 <= j <= 30) by (unfold j, level_shift; lia). assert (Hpos : 0 < 2 ^ j) by (apply Z.pow_pos_nonneg; lia).
    pose proof (aligned_room prefix (j + 9) ltac:(lia) ltac:(by rewrite <- E) Hu) as Hroom. rewrite E in Hal. rewrite Z.pow_add_r in * by lia.
    change (2 ^ 9) with 512 in *. split; [|unfold is_u64 in *; nia]. apply Z.mod_divide in Hal as (c & ->); [|lia].
    replace (c * (2 ^ j * 512) + i * 2 ^ j) with ((c * 512 + i) * 2 ^ j) by lia. apply Z_mod_mult.
Qed.

Lemma path_offset_range idx : Forall index_ok idx -> 0 <= path_offset idx < 2 ^ level_shift (S (length idx)) /\ path_offset idx mod 2 ^ 12 = 0.
Proof.
  induction idx as [|i idx IH]; intros Hok; [split; [by split | done]|]. apply Forall_cons in Hok as (Hi & Hok). destruct (IH Hok) as (Hr & Hal).
  cbn [path_offset length]. rewrite level_shift_S. unfold index_ok, ENTRY_COUNT in Hi. set (j := level_shift (S (length idx))) in *.
  assert (Hj : 12 <= j) by (unfold j, level_shift; lia). rewrite Z.pow_add_r by lia. change (2 ^ 9) with 512. split; [nia|].
  apply Z.mod_divide in Hal as (c & ->); [|done]. replace j with (12 + (j - 12)) by lia. rewrite Z.pow_add_r by lia.
  replace (i * (2 ^ 12 * 2 ^ (j - 12)) + c * 2 ^ 12) with ((i * 2 ^ (j - 12) + c) * 2 ^ 12) by lia. by apply Z_mod_mult.
Qed.

(** Below the top the address of a page is the start of its region plus the offset. *)
Lemma boot_address_add a idx : (length idx <= 3)%nat -> Forall index_ok idx -> a mod 2 ^ level_shift (S (length idx)) = 0 -> is_u64 a ->
  boot_address a idx = a + path_offset idx.
Proof.
  revert a. induction idx as [|i idx IH]; intros a Hl Hok Hal Hu; [cbn; lia|]. apply Forall_cons in Hok as (Hi & Hok). cbn [length] in *.
  cbn [boot_address path_offset length]. destruct (slot_address (S (length idx)) a i) as (Hal' & Hu'); [lia | | done |].
  { unfold prefix_ok. rewrite (proj2 (Nat.eqb_neq (S (length idx)) 4)) by lia. done. }
  rewrite IH by (done || lia). rewrite sign_extend_low by lia.
  rewrite page_table_address_add; [unfold level_shift; lia | lia | done | unfold is_u64 in Hu; lia|].
  by replace (12 + 9 * Z.of_nat (S (length idx))) with (level_shift (S (S (length idx)))) by (unfold level_shift; lia).
Qed.

(** ** The walk *)

(** The entry is made a plain table entry and the table below it walked. *)
Definition boot_descend (below : nat) (l : layout) (table address i : Z) (s : vmm_state) : option unit * vmm_state :=
  let s := store table i (protected_table (load table i s)) s in
  let '(ok, s) := protect_boot_table below l (table_physical (load table i s)) address s in
  (if ok then None else Some tt, s).

Definition boot_body (below : nat) (l : layout) (table prefix i : Z) (s : vmm_state) : option unit * vmm_state :=
  let level := S below in
  let entry := load table i s in
  if negb (has entry VMM_PRESENT) then (None, s)
  else
    let address := sign_extend level (page_table_virtual_address prefix i level) in
    if Nat.eqb level 1 || has entry PAGE_SIZE_FLAG then
      if Nat.eqb level 4 then (Some tt, s)
      else
        let size := level_size level in
        let physical := (entry &! PAGE_ADDRESS_MASK) &! not64 (size -! 1) in
        let readonly := range_contains (readonly_start l) (readonly_end l) physical size in
        let executable := range_contains (text_start l) (text_end l) address size in
        if negb (Nat.eqb level 1) &&
           ((negb readonly && range_overlaps physical size (readonly_start l) (readonly_end l)) ||
            (negb executable && range_overlaps address size (text_start l) (text_end l)))
        then
          let '(ok, s) := split_boot_mapping table i level s in
          if negb ok then (Some tt, s) else boot_descend below l table address i s
        else (None, store table i (protected_leaf readonly executable entry) s)
    else boot_descend below l table address i s.

Lemma boot_unfold below l table prefix s : protect_boot_table (S below) l table prefix s =
  let '(r, s) := loop_up (trips 0 ENTRY_COUNT) 0 (boot_body below l table prefix) s in
  (match r with None => true | Some _ => false end, s).
Proof. done. Qed.

Lemma loop_up_ind {S R} (P : nat -> S -> Prop) (body : Z -> S -> option R * S) k i s s' :
  P i s -> (forall j t t', (i <= j < i + k)%nat -> P j t -> body (Z.of_nat j) t = (None, t') -> P (Datatypes.S j) t') ->
  loop_up k (Z.of_nat i) body s = (None, s') -> P (i + k)%nat s'.
Proof.
  revert i s. induction k as [|k IH]; intros i s Hi Hstep Hl; [injection Hl as <-; by rewrite Nat.add_0_r|]. cbn [loop_up] in Hl.
  destruct (body (Z.of_nat i) s) as [[r|] t] eqn:Hb; [done|]. replace (Z.of_nat i + 1) with (Z.of_nat (Datatypes.S i)) in Hl by lia.
  replace (i + Datatypes.S k)%nat with (Datatypes.S i + k)%nat by lia. apply (IH _ t); [|intros j u u' Hj; apply Hstep; lia | done].
  apply (Hstep i s t); [lia | done | done].
Qed.

(** A leaf that is not split gets its rights. *)
Lemma leaf_protected below l prefix n rest e : (below <= 2)%nat -> layout_ok l -> prefix_ok (S below) prefix -> (n < 512)%nat -> is_u64 e ->
  length rest = below -> Forall index_ok rest ->
  let level := S below in
  let address := sign_extend level (page_table_virtual_address prefix (ix n) level) in
  let readonly := range_contains (readonly_start l) (readonly_end l) (leaf_base level e) (level_size level) in
  let executable := range_contains (text_start l) (text_end l) address (level_size level) in
  negb (Nat.eqb level 1) &&
    ((negb readonly && range_overlaps (leaf_base level e) (level_size level) (readonly_start l) (readonly_end l)) ||
     (negb executable && range_overlaps address (level_size level) (text_start l) (text_end l))) = false ->
  page_protected l (boot_address prefix (ix n :: rest)) (leaf_base level e + path_offset rest) (protected_leaf readonly executable e).
Proof.
  intros Hb Hlo Hp Hn He Hlen Hok level address readonly executable Hsplit. destruct Hlo as [(T1 & T2 & T3 & T4) (R1 & R2 & R3 & R4)].
  destruct (slot_address level prefix (ix n)) as (Hal & Hu); [lia | done | by apply nat_index|]. fold address in Hal, Hu.
  destruct (leaf_base_spec level e ltac:(lia) He) as (Bal & B0 & Blt). destruct (path_offset_range rest Hok) as (Hoff & Hoal).
  assert (Hsh : level_shift (S (length rest)) = level_shift level) by (unfold level; by rewrite Hlen). rewrite Hsh in Hoff.
  assert (Hva : boot_address prefix (ix n :: rest) = address + path_offset rest).
  { cbn [boot_address length]. rewrite Hlen. fold level. fold address. apply boot_address_add; [lia | done | by rewrite Hsh | done]. }
  assert (Hdown : forall a, a mod 2 ^ level_shift level = 0 -> a mod 2 ^ 12 = 0).
  { intros a Ha. apply Z.mod_divide in Ha as (c & ->); [|apply Z.pow_nonzero; unfold level_shift; lia].
    replace (level_shift level) with ((level_shift level - 12) + 12) by lia. rewrite Z.pow_add_r by (unfold level_shift; lia). rewrite Z.mul_assoc. by apply Z_mod_mult. }
  assert (Hbu : is_u64 (leaf_base level e)) by (unfold is_u64; lia).
  assert (Hone : level = 1%nat -> path_offset rest = 0) by (intros E; destruct rest; [done | cbn [length] in Hlen; lia]).
  subst readonly executable. rewrite level_size_pow in * by lia.
  assert (Hcase : level = 1%nat \/
    ((range_contains (readonly_start l) (readonly_end l) (leaf_base level e) (2 ^ level_shift level) = true \/
      range_overlaps (leaf_base level e) (2 ^ level_shift level) (readonly_start l) (readonly_end l) = false) /\
     (range_contains (text_start l) (text_end l) address (2 ^ level_shift level) = true \/
      range_overlaps address (2 ^ level_shift level) (text_start l) (text_end l) = false))).
  { destruct (Nat.eqb_spec level 1); [by left | right]. cbn [negb andb] in Hsplit. apply orb_false_iff in Hsplit as (S1 & S2).
    split; [destruct (range_contains _ _ (leaf_base level e) _) | destruct (range_contains _ _ address _)]; auto. }
  assert (Htext := range_exact level (text_start l) (text_end l) address (address + path_offset rest) T1 T2 (Hdown _ Hal) T3 T4 Hu ltac:(tauto) ltac:(lia) ltac:(lia)).
  assert (Hro := range_exact level (readonly_start l) (readonly_end l) (leaf_base level e) (leaf_base level e + path_offset rest) R1 R2 (Hdown _ Bal) R3 R4 Hbu ltac:(tauto) ltac:(lia) ltac:(lia)).
  rewrite Hva. split; rewrite ?has_USER, ?has_NX, ?has_WRITABLE, !protected_leaf_bit by (done || lia); cbn [Z.eqb Pos.eqb].
  - done.
  - rewrite <- Htext. by destruct (range_contains _ _ address _).
  - destruct (range_contains _ _ address _); [|done]. intros _. by rewrite orb_true_r, andb_false_r.
  - intros Hin. apply Hro in Hin. rewrite Hin. cbn [orb negb]. apply andb_false_r.
Qed.

Record boot_done (below n : nat) (l : layout) (prefix : Z) (T : ptree) (s : vmm_state) (T' : ptree) (s' : vmm_state) : Prop := {
  bd_grown : grown (S below) s s' T T';
  bd_rest : forall m, (n <= m)%nat -> tslots T' !! m = tslots T !! m;
  bd_pages : forall m rest, (m < n)%nat -> length rest = below -> Forall index_ok rest ->
    page_rel l (boot_address prefix (ix m :: rest)) (page_of T (ix m :: rest)) (page_of T' (ix m :: rest));
  bd_open : forall m e T0, (m < n)%nat -> tslots T' !! m = Some (e, Some T0) -> open_entry e /\ open_tree below T0;
  bd_top : below = 3%nat -> forall m e, (m < n)%nat -> tslots T !! m = Some (e, None) \/ tslots T' !! m = Some (e, None) -> has e VMM_PRESENT = false;
}.

Lemma page_of_slot T n rest e c : tslots T !! n = Some (e, c) -> page_of T (ix n :: rest) =
  if negb (has e VMM_PRESENT) then None
  else match c with
       | Some T' => page_of T' rest
       | None => Some (leaf_base (S (length rest)) e + path_offset rest, memory_type (S (length rest)) e, e)
       end.
Proof. intros H. cbn [page_of]. unfold ix. by rewrite Nat2Z.id, H. Qed.

Lemma page_of_other T n m x rest : m <> n -> page_of (set_slot T n x) (ix m :: rest) = page_of T (ix m :: rest).
Proof. intros Hne. cbn [page_of set_slot tslots]. unfold ix. by rewrite Nat2Z.id, list_lookup_insert_ne by done. Qed.

(** One more slot. *)
Lemma boot_done_step below n l prefix T s T1 s1 s2 x : (n < 512)%nat -> boot_done below n l prefix T s T1 s1 ->
  grown (S below) s1 s2 T1 (set_slot T1 n x) ->
  (forall rest, length rest = below -> Forall index_ok rest ->
    page_rel l (boot_address prefix (ix n :: rest)) (page_of T (ix n :: rest)) (page_of (set_slot T1 n x) (ix n :: rest))) ->
  (forall e T0, x = (e, Some T0) -> open_entry e /\ open_tree below T0) ->
  (below = 3%nat -> forall e, tslots T !! n = Some (e, None) \/ x = (e, None) -> has e VMM_PRESENT = false) ->
  boot_done below (S n) l prefix T s (set_slot T1 n x) s2.
Proof.
  intros Hn [G R P O Tp] Hg Hp Ho Htop. assert (Hlen : (n < length (tslots T1))%nat).
  { destruct (ti_rep _ _ _ (gr_tree _ _ _ _ _ G)) as (_ & -> & _). done. }
  split.
  - by apply (grown_trans _ s s1 s2 T T1).
  - intros m Hm. cbn [set_slot tslots]. rewrite list_lookup_insert_ne by lia. apply R. lia.
  - intros m rest Hm Hl Hok. destruct (decide (m = n)) as [->|Hne]; [by apply Hp|]. rewrite page_of_other by done. apply P; [lia | done | done].
  - intros m e T0 Hm Hs. cbn [set_slot tslots] in Hs. destruct (decide (m = n)) as [->|Hne].
    + rewrite list_lookup_insert_eq in Hs by done. by injection Hs as ->; apply Ho.
    + rewrite list_lookup_insert_ne in Hs by done. apply (O m e T0); [lia | done].
  - intros H3 m e Hm Hs. cbn [set_slot tslots] in Hs. destruct (decide (m = n)) as [->|Hne].
    + rewrite list_lookup_insert_eq in Hs by done. apply Htop; [done|]. destruct Hs as [Hs|[= ->]]; auto.
    + rewrite list_lookup_insert_ne in Hs by done. apply (Tp H3 m e); [lia | done].
Qed.

Lemma set_slot_same T n x : tslots T !! n = Some x -> set_slot T n x = T.
Proof. intros H. destruct T as [t slots]. unfold set_slot. cbn [troot tslots] in *. by rewrite list_insert_id. Qed.

Lemma set_slot_here T n x : (n < length (tslots T))%nat -> tslots (set_slot T n x) !! n = Some x.
Proof. intros H. cbn [set_slot tslots]. by apply list_lookup_insert_eq. Qed.

Lemma set_slot_twice T n x y : set_slot (set_slot T n x) n y = set_slot T n y.
Proof. unfold set_slot. cbn [troot tslots]. by rewrite list_insert_insert_eq. Qed.

(** The parts of a split page are the pages it had. *)
Lemma split_tree_page level e f rest : (2 <= level <= 3)%nat -> is_u64 e -> has e VMM_PRESENT = true -> length rest = pred level -> Forall index_ok rest ->
  exists e', page_of (split_tree level e f) rest = Some (leaf_base level e + path_offset rest, memory_type level e, e').
Proof.
  intros Hl He Hp Hlen Hok. destruct rest as [|i rest]; [cbn [length] in Hlen; lia|]. cbn [length] in Hlen.
  apply Forall_cons in Hok as (Hi & Hok). pose proof Hi as Hi0. apply index_nat in Hi0 as (n & -> & Hn).
  assert (Hs : tslots (split_tree level e f) !! n = Some (split_entry level e (ix n), None)).
  { unfold split_tree. cbn [tslots]. change (map ?g ?x) with (g <$> x). rewrite list_lookup_fmap, lookup_seq_lt by lia. done. }
  destruct (split_entry_flags level e (ix n) Hl He Hi) as (Hp' & Hmt & _).
  rewrite (page_of_slot _ _ _ _ _ Hs), Hp', Hp. cbn [negb]. rewrite Hlen, Hmt, split_entry_base by done.
  exists (split_entry level e (ix n)). do 2 f_equal. f_equal. unfold split_base. cbn [path_offset length]. rewrite Hlen. lia.
Qed.

Section BootStep.
Context (below : nat) (l : layout) (prefix : Z) (Hlv : (below <= 3)%nat) (Hlo : layout_ok l) (Hpf : prefix_ok (S below) prefix).
Context (IH : forall T prefix' s s', below <> O -> tree_in below s T -> prefix_ok below prefix' ->
  protect_boot_table below l (troot T) prefix' s = (true, s') ->
  exists T', grown below s s' T T' /\ open_tree below T' /\
    forall idx, length idx = below -> Forall index_ok idx -> page_rel l (boot_address prefix' idx) (page_of T idx) (page_of T' idx)).

(** Descending into the table below slot [n]. *)
Lemma boot_descend_step n T s s' e T0 : tree_in (S below) s T -> tslots T !! n = Some (e, Some T0) ->
  boot_descend below l (troot T) (sign_extend (S below) (page_table_virtual_address prefix (ix n) (S below))) (ix n) s = (None, s') ->
  exists e' T', grown (S below) s s' T (set_slot T n (e', Some T')) /\ open_entry e' /\ has e' VMM_PRESENT = true /\ open_tree below T' /\
    forall rest, length rest = below -> Forall index_ok rest -> page_rel l (boot_address prefix (ix n :: rest)) (page_of T0 rest) (page_of T' rest).
Proof.
  intros Ht Hn Hd. pose proof (ti_rep _ _ _ Ht) as Hr. rewrite rep_full in Hr. destruct (slot_cases _ _ _ _ _ _ _ Hr Hn) as (He & H0 & Hpr & Hps & Hph & Hr0).
  assert (Hu : is_u64 e) by (rewrite <- He; apply entry_u64, Ht). destruct (protected_table_spec e Hu) as (Hu' & Hnx & Hopen).
  assert (Hnext : next (protected_table e) = Some (troot T0)) by (rewrite Hnx, next_cases, Hpr, Hps, Hph; done).
  unfold boot_descend, load in Hd. change (Z.of_nat n) with (ix n) in He. rewrite He in Hd.
  set (s1 := store (troot T) (ix n) (protected_table e) s) in *.
  assert (G1 : grown (S below) s s1 T (set_slot T n (protected_table e, Some T0))).
  { apply (grown_store below s T n e (Some T0)); [done | done | done|]. unfold slot_rep. cbn [fst snd]. done. }
  assert (Hn1 : tslots (set_slot T n (protected_table e, Some T0)) !! n = Some (protected_table e, Some T0)).
  { apply set_slot_here. by eapply lookup_lt_Some. }
  pose proof (ti_rep _ _ _ (gr_tree _ _ _ _ _ G1)) as Hr1. rewrite rep_full in Hr1. destruct (slot_cases _ _ _ _ _ _ _ Hr1 Hn1) as (He1 & _ & Hpr1 & _ & Hph1 & Hr01).
  cbn [set_slot troot] in He1. change (Z.of_nat n) with (ix n) in He1. rewrite He1, Hph1 in Hd.
  destruct (protect_boot_table below l (troot T0) _ s1) as [ok s2] eqn:Hrec. destruct ok; [|done]. injection Hd as <-.
  assert (Hin : forall p, p ∈ tpages T0 -> p ∈ tpages (set_slot T n (protected_table e, Some T0))).
  { intros p Hp. by apply (slot_pages_in _ n (protected_table e, Some T0)). }
  destruct (slot_address (S below) prefix (ix n)) as (Hal & Hau); [lia | done | apply nat_index; by apply (sl_index _ _ _ _ _ _ Ht Hn)|].
  edestruct (IH T0) as (T' & G2 & Ho2 & Hp2); [exact H0 | | | exact Hrec |].
  - destruct (gr_tree _ _ _ _ _ G1) as [A B C D E]. split; [done | by apply (subtree_NoDup _ n (protected_table e) _ B) | done | done | auto].
  - unfold prefix_ok. rewrite (proj2 (Nat.eqb_neq below 4)) by lia. done.
  - exists (protected_table e), T'. split; [|split; [exact Hopen|]; split; [exact Hpr1|]; split; [exact Ho2|]].
    + rewrite <- (set_slot_twice T n (protected_table e, Some T0)). apply (grown_trans _ s s1 s2 T _ _ G1).
      by apply (grown_sub below s1 s2 _ n (protected_table e) T0 T'); [apply G1 | |].
    + intros rest Hl Hok. cbn [boot_address length]. rewrite Hl. by apply Hp2.
Qed.

Lemma boot_body_step n T s T1 s1 s2 : (n < 512)%nat -> tree_in (S below) s T -> boot_done below n l prefix T s T1 s1 ->
  boot_body below l (troot T) prefix (ix n) s1 = (None, s2) -> exists T2, boot_done below (S n) l prefix T s T2 s2.
Proof.
  intros Hn Ht Hd Hbody. pose proof (gr_tree _ _ _ _ _ (bd_grown _ _ _ _ _ _ _ _ Hd)) as Ht1. pose proof (ti_rep _ _ _ Ht) as Hr. rewrite rep_full in Hr.
  destruct (rep_lookup _ _ _ _ n Hr Hn) as (e & c & Hs). pose proof (bd_rest _ _ _ _ _ _ _ _ Hd n ltac:(lia)) as Hs1. rewrite Hs in Hs1.
  pose proof (ti_rep _ _ _ Ht1) as Hr1. rewrite rep_full in Hr1. destruct (slot_cases _ _ _ _ _ _ _ Hr1 Hs1) as (He & Hc).
  assert (Hu : is_u64 e) by (rewrite <- He; apply entry_u64, Ht1). assert (Hroot : troot T1 = troot T) by apply Hd.
  rewrite <- Hroot in Hbody. unfold boot_body, load in Hbody. change (Z.of_nat n) with (ix n) in He. rewrite He in Hbody.
  destruct (has e VMM_PRESENT) eqn:Hpr; cbn [negb] in Hbody.
  2: { injection Hbody as <-. exists T1. rewrite <- (set_slot_same T1 n (e, c)) by done. apply (boot_done_step below n l prefix T s T1 s1); [done | done | | | |].
       - rewrite set_slot_same by done. by apply grown_refl.
       - intros rest _ _. rewrite set_slot_same by done. rewrite (page_of_slot T n rest e c Hs), (page_of_slot T1 n rest e c Hs1), Hpr. done.
       - intros e0 T0 [= -> ->]. destruct Hc as (_ & Hc & _). congruence.
       - intros _ e0 [He0|He0]; congruence. }
  destruct c as [T0|].
  - destruct Hc as (H0 & _ & Hps & _ & _). rewrite Hps in Hbody. destruct (Nat.eqb_spec (S below) 1) as [|_]; [lia|]. cbn [orb] in Hbody.
    destruct (boot_descend_step n T1 s1 s2 e T0 Ht1 Hs1 Hbody) as (e' & T' & G & Hopen & Hpr' & Hot & Hp). exists (set_slot T1 n (e', Some T')).
    apply (boot_done_step below n l prefix T s T1 s1); [done | done | done | | | intros _ e0 [He0|He0]; congruence].
    + intros rest Hl Hok. rewrite (page_of_slot T n rest e _ Hs), Hpr. rewrite (page_of_slot _ n rest e' (Some T')), Hpr'; [by apply Hp|].
      apply set_slot_here. by eapply lookup_lt_Some.
    + by intros e0 T2 [= -> ->].
  - assert (Hleaf : (Nat.eqb (S below) 1 || has e PAGE_SIZE_FLAG) = true).
    { destruct Hc as [->|[|Hc]]; [done | congruence | by rewrite Hc, orb_true_r]. }
    rewrite Hleaf in Hbody. destruct (Nat.eqb_spec (S below) 4) as [|H4]; [done|]. fold (leaf_base (S below) e) in Hbody. cbv zeta in Hbody.
    match type of Hbody with (if ?b then _ else _) = _ => destruct b eqn:Hsplit end.
    + apply andb_prop in Hsplit as (H1 & _). destruct (Nat.eqb_spec (S below) 1) as [|Hb1]; [done|]. clear H1.
      assert (Hps : has e PAGE_SIZE_FLAG = true) by (destruct (has e PAGE_SIZE_FLAG); [done | by rewrite orb_false_r in Hleaf]).
      destruct (split_boot_mapping (troot T1) (ix n) (S below) s1) as [ok sp] eqn:Hsp. destruct ok; cbn [negb] in Hbody; [|done].
      destruct (grown_split below s1 sp T1 n e Ht1 Hs1 ltac:(lia) Hps Hsp) as (f & Hf & G1). set (Tm := set_slot T1 n (link_entry f, Some (split_tree (S below) e f))) in *.
      assert (Hlt : (n < length (tslots T1))%nat) by (by eapply lookup_lt_Some). assert (Hsm : tslots Tm !! n = Some (link_entry f, Some (split_tree (S below) e f))) by (by apply set_slot_here).
      destruct (boot_descend_step n Tm sp s2 _ _ (gr_tree _ _ _ _ _ G1) Hsm Hbody) as (e' & T' & G & Hopen & Hpr' & Hot & Hp). exists (set_slot T1 n (e', Some T')).
      assert (Etw : set_slot Tm n (e', Some T') = set_slot T1 n (e', Some T')) by apply set_slot_twice. rewrite Etw in G.
      apply (boot_done_step below n l prefix T s T1 s1); [done | done | by apply (grown_trans _ s1 sp s2 T1 Tm) | | | lia].
      * intros rest Hl Hok. rewrite (page_of_slot T n rest e None Hs), Hpr. rewrite (page_of_slot _ n rest e' (Some T')), Hpr' by (by apply set_slot_here).
        cbn [negb]. rewrite Hl. specialize (Hp rest Hl Hok). destruct (split_tree_page (S below) e f rest) as (e1 & E1); [lia | done | done | done | done|].
        rewrite E1 in Hp. exact Hp.
      * by intros e0 T2 [= -> ->].
    + injection Hbody as <-. set (e' := protected_leaf _ _ e). exists (set_slot T1 n (e', None)).
      destruct (protected_leaf_same (S below) (range_contains (readonly_start l) (readonly_end l) (leaf_base (S below) e) (level_size (S below)))
        (range_contains (text_start l) (text_end l) (sign_extend (S below) (page_table_virtual_address prefix (ix n) (S below))) (level_size (S below))) e ltac:(lia) Hu)
        as (Q1 & Q2 & Q3 & Q4). fold e' in Q1, Q2, Q3, Q4.
      apply (boot_done_step below n l prefix T s T1 s1); [done | done | | | done | lia].
      * apply (grown_store below s1 T1 n e None); [done | done | by apply protected_leaf_u64|]. unfold slot_rep. cbn [fst snd].
        destruct below as [|b]; [by left | right]. rewrite next_cases, Q1, Q2, Hpr. cbn [Nat.eqb orb] in Hleaf. by rewrite Hleaf.
      * intros rest Hl Hok. rewrite (page_of_slot T n rest e None Hs), Hpr. rewrite (page_of_slot _ n rest e' None), Q1, Hpr by (apply set_slot_here; by eapply lookup_lt_Some).
        cbn [negb]. rewrite Hl, Q3, Q4. split; [done|]. split; [done|]. by apply leaf_protected; [lia | | | | | | |].
Qed.
End BootStep.

Lemma protect_boot_spec level l T prefix s s' : (1 <= level <= 4)%nat -> layout_ok l -> tree_in level s T -> prefix_ok level prefix ->
  protect_boot_table level l (troot T) prefix s = (true, s') ->
  exists T', grown level s s' T T' /\ open_tree level T' /\
    (forall idx, length idx = level -> Forall index_ok idx -> page_rel l (boot_address prefix idx) (page_of T idx) (page_of T' idx)) /\
    (level = 4%nat -> forall n e, tslots T !! n = Some (e, None) \/ tslots T' !! n = Some (e, None) -> has e VMM_PRESENT = false).
Proof.
  revert T prefix s s'. induction level as [|below IH]; intros T prefix s s' Hlv Hlo Ht Hpf Hrun; [lia|]. rewrite boot_unfold in Hrun.
  destruct (loop_up (trips 0 ENTRY_COUNT) 0 (boot_body below l (troot T) prefix) s) as [r s1] eqn:Hloop. destruct r; [done|]. injection Hrun as <-.
  change 0 with (Z.of_nat 0) in Hloop at 2. change (trips 0 ENTRY_COUNT) with 512%nat in Hloop.
  destruct (loop_up_ind (fun n s' => exists T', boot_done below n l prefix T s T' s') (boot_body below l (troot T) prefix) 512 0 s s1) as (T' & Hd); [| | done|].
  - exists T. split; [by apply grown_refl | done | intros; lia | intros; lia | intros; lia].
  - intros j t t' Hj (T1 & Hd) Hbody. apply (boot_body_step below l prefix ltac:(lia) Hlo Hpf) with (T1 := T1) (s1 := t); [|lia | done | done | done].
    intros T0 prefix' u u' H0 Ht0 Hp0 Hrec. destruct (IH T0 prefix' u u') as (T2 & A & B & C & _); [lia | done | done | done | done|]. by exists T2.
  - exists T'. split; [apply Hd|]. destruct (ti_rep _ _ _ (gr_tree _ _ _ _ _ (bd_grown _ _ _ _ _ _ _ _ Hd))) as (_ & Hlen & _). split.
    { intros n e T0 Hn. apply (bd_open _ _ _ _ _ _ _ _ Hd n e T0); [|done]. apply lookup_lt_Some in Hn. lia. }
    split.
    + intros idx Hl Hok. destruct idx as [|i rest]; [done|]. apply Forall_cons in Hok as (Hi & Hok). apply index_nat in Hi as (n & -> & Hn).
      apply (bd_pages _ _ _ _ _ _ _ _ Hd); [lia | by injection Hl | done].
    + intros H4 n e Hn. apply (bd_top _ _ _ _ _ _ _ _ Hd ltac:(lia) n e); [|done].
      destruct (ti_rep _ _ _ Ht) as (_ & Hlen0 & _). destruct Hn as [Hn|Hn]; apply lookup_lt_Some in Hn; lia.
Qed.

End VmmBoot.
