(* ===== verification/VmmInit.v ===== *)
(** * VmmInit: what [vmm_init] establishes

    The walk of [VmmBoot] read through [vmm_space_query]: after [vmm_init] the
    kernel space is well-formed, every address translates as before, and the
    rights are those of a kernel whose text alone is executable. *)

From S2P Require Import Prelude Memory Pmm PageTable Vmm VmmSafety KernelPages Kmalloc TableTree VmmSpace VmmCow VmmFork VmmBoot.
Import Memory.Memory Pmm.Pmm PageTable.PageTable Vmm.Vmm VmmSafety.VmmSafety TableTree.TableTree VmmSpace.VmmSpace VmmCow.VmmCow VmmFork.VmmFork VmmBoot.VmmBoot.

Module VmmInit.

(** ** Queries read pages *)

(** The indices below each level of a path are the offset in its region. *)
Fixpoint offsets (va : Z) (idx : list Z) : Prop :=
  match idx with
  | [] => True
  | i :: rest => va mod 2 ^ level_shift (length idx) = path_offset rest /\ offsets va rest
  end.

Lemma indices_offsets va : va mod 2 ^ 12 = 0 -> offsets va (indices va).
Proof.
  intros Hal. unfold indices. rewrite !index_div by done. cbn [offsets path_offset length].
  change (level_shift 4) with 39. change (level_shift 3) with 30. change (level_shift 2) with 21. change (level_shift 1) with 12.
  assert (Hd : va / 2 ^ 21 = va / 2 ^ 12 / 512 /\ va / 2 ^ 30 = va / 2 ^ 12 / 512 / 512) by (rewrite !Z.div_div by done; done).
  destruct Hd as (-> & ->). assert (Hx : va = 4096 * (va / 2 ^ 12)) by (change (2 ^ 12) with 4096 in *; pose proof (Z.div_mod va 4096); lia).
  set (x := va / 2 ^ 12) in *. clearbody x. subst va. change (2 ^ 39) with 549755813888. change (2 ^ 30) with 1073741824.
  change (2 ^ 21) with 2097152. change (2 ^ 12) with 4096. clear. split_and!; try done; Z.div_mod_to_equations; lia.
Qed.

Lemma query_page m level T idx eff nx va : (1 <= level <= 4)%nat -> rep level m T -> mem_ok m -> length idx = level -> Forall index_ok idx ->
  (level = 4%nat -> forall n e, tslots T !! n = Some (e, None) -> has e VMM_PRESENT = false) -> offsets va idx ->
  Z.testbit nx 1 = false -> Z.testbit nx 2 = false ->
  match page_of T idx with
  | None => query_walk m idx (4 - Z.of_nat level) (troot T) eff nx va = None
  | Some (p, _, e) => exists fl, query_walk m idx (4 - Z.of_nat level) (troot T) eff nx va = Some (p, fl) /\
      (open_tree level T -> has fl VMM_WRITABLE = Z.testbit eff 1 && has e VMM_WRITABLE /\
        has fl VMM_NO_EXECUTE = Z.testbit nx 63 || has e VMM_NO_EXECUTE /\ (has e VMM_USER = false -> has fl VMM_USER = false))
  end.
Proof.
  revert T idx eff nx. induction level as [|below IH]; intros T idx eff nx Hlv Hr Hm Hl Hok Htop Hoff N1 N2; [lia|].
  destruct idx as [|i rest]; [done|]. apply Forall_cons in Hok as (Hi & Hok). cbn [length] in Hl. injection Hl as Hl. destruct Hoff as (Hva & Hoff).
  apply index_nat in Hi as (n & -> & Hn). rewrite rep_full in Hr. destruct (rep_lookup _ _ _ _ n Hr Hn) as (e & c & Hs).
  destruct (slot_cases _ _ _ _ _ _ _ Hr Hs) as (He & Hc). rewrite (page_of_slot T n rest e c Hs). cbn [query_walk]. unfold ix. rewrite He.
  destruct (has e VMM_PRESENT) eqn:Hp; cbn [negb orb]; [|done]. assert (Hu : is_u64 e) by (rewrite <- He; by apply entry_u64).
  assert (Hsub : forall k, k = 1 \/ k = 2 \/ k = 63 -> Z.testbit (nx |! (e &! VMM_NO_EXECUTE)) k = Z.testbit nx k || ((k =? 63) && Z.testbit e 63)).
  { intros k Hk. rewrite Z.lor_spec, Z.land_spec. unfold VMM_NO_EXECUTE. rewrite testbit_pow2 by lia.
    destruct Hk as [->|[->| ->]]; cbn [Z.eqb Pos.eqb andb]; rewrite ?bool_decide_false, ?bool_decide_true, ?andb_false_r, ?andb_true_r by lia; done. }
  assert (Heff : forall k, k = 1 \/ k = 2 -> Z.testbit (eff &! (e &! (VMM_WRITABLE |! VMM_USER))) k = Z.testbit eff k && Z.testbit e k).
  { intros k Hk. rewrite !Z.land_spec. f_equal. destruct Hk as [->| ->]; apply andb_true_r. }
  destruct c as [T'|].
  - destruct Hc as (H0 & _ & Hps & Ht & Hr'). rewrite Hps, andb_false_r. cbn [orb]. rewrite (proj2 (Z.eqb_neq (4 - Z.of_nat (S below)) 3)) by lia. cbn [orb]. rewrite Ht.
    specialize (IH T' rest (eff &! (e &! (VMM_WRITABLE |! VMM_USER))) (nx |! (e &! VMM_NO_EXECUTE)) ltac:(lia) Hr' Hm Hl Hok ltac:(lia) Hoff).
    rewrite !Hsub in IH by tauto. cbn [Z.eqb Pos.eqb andb] in IH. rewrite N1, N2 in IH. specialize (IH eq_refl eq_refl).
    replace (4 - Z.of_nat below) with (4 - Z.of_nat (S below) + 1) in IH by lia.
    destruct (page_of T' rest) as [[[p t] e']|]; [|exact IH]. destruct IH as (fl & Hq & Hopen). exists fl. split; [exact Hq|].
    intros Ho. destruct (Ho n e T' Hs) as ((W & X & _) & Ho'). destruct (Hopen Ho') as (A & B & C). rewrite Heff in A by tauto.
    rewrite has_WRITABLE in W. rewrite has_NX in X. rewrite W in A. rewrite X in B. rewrite andb_true_r in A. rewrite orb_false_r in B. done.
  - assert (Hlow : below <> 3%nat) by (intros ->; specialize (Htop eq_refl n e Hs); congruence).
    assert (Hlast : ((4 - Z.of_nat (S below) =? 3) || has e PAGE_SIZE_FLAG) = true).
    { destruct Hc as [->|[|Hc]]; [done | congruence | by rewrite Hc, orb_true_r]. }
    rewrite (proj2 (Z.eqb_neq (4 - Z.of_nat (S below)) 0)) by lia. cbn [andb]. rewrite Hlast. rewrite Hl.
    set (f := VMM_PRESENT |! _ |! _ |! _). exists f. split.
    + replace (12 + 9 * (3 - (4 - Z.of_nat (S below)))) with (level_shift (S below)) by (unfold level_shift; lia).
      change (1 <<! level_shift (S below)) with (level_size (S below)). pose proof (level_size_pow (S below) ltac:(lia)) as Hsz.
      destruct (leaf_base_spec (S below) e ltac:(lia) Hu) as (_ & B0 & Blt). assert (Hj : 12 <= level_shift (S below) <= 30) by (unfold level_shift; lia).
      assert (Hpw : 0 < 2 ^ level_shift (S below) < 2 ^ 31) by (split; [apply Z.pow_pos_nonneg; lia | apply Z.pow_lt_mono_r; lia]).
      do 2 f_equal. cbn [length] in Hva. rewrite Hl in Hva. rewrite <- Hva, Hsz, land_mask_low by lia.
      assert (El : leaf_base (S below) e = (e &! PAGE_ADDRESS_MASK) &! not64 (2 ^ level_shift (S below) - 1)).
      { unfold leaf_base. rewrite Hsz, u64_small; [done|]. unfold is_u64. lia. }
      rewrite <- El. pose proof (Z.mod_pos_bound va (2 ^ level_shift (S below)) ltac:(lia)). apply u64_small. unfold is_u64. lia.
    + intros _. assert (H63 : Z.testbit (eff &! (e &! (VMM_WRITABLE |! VMM_USER))) 63 = false) by (rewrite !Z.land_spec; cbn; by rewrite !andb_false_r).
      assert (Hf : forall k, k = 1 \/ k = 2 \/ k = 63 -> Z.testbit f k =
        Z.testbit (eff &! (e &! (VMM_WRITABLE |! VMM_USER))) k || Z.testbit (nx |! (e &! VMM_NO_EXECUTE)) k).
      { intros k Hk. unfold f. rewrite Z.lor_spec, Z.lor_spec, Z.lor_spec, (Z.land_spec e VMM_COPY_ON_WRITE). unfold VMM_PRESENT, VMM_COPY_ON_WRITE.
        rewrite !testbit_pow2 by lia. rewrite !bool_decide_false by lia. by rewrite andb_false_r, orb_false_r. }
      rewrite !has_WRITABLE, !has_NX, !has_USER, !Hf, H63, !Heff, !Hsub, N1, N2 by tauto. cbn [Z.eqb Pos.eqb andb orb].
      rewrite !orb_false_r. split_and!; [done | done|]. intros ->. by rewrite andb_false_r.
Qed.

(** ** Addresses and tables *)

Lemma boot_address_indices va : is_u64 va -> address_is_canonical va = true -> va mod 2 ^ 12 = 0 -> boot_address 0 (indices va) = va.
Proof.
  intros Hu Hc Hal. destruct (indices_path va) as (Hl & Hok). pose proof (indices_offsets va Hal) as Hoff. pose proof (canonical_cases va Hu Hc) as Hcase.
  assert (Hi : aget 0 (indices va) 0 = (va / 2 ^ 39) mod 512) by (unfold indices; rewrite !index_div by done; done).
  destruct (indices va) as [|i rest]; [done|]. cbn [length] in Hl. injection Hl as Hl. apply Forall_cons in Hok as (Hi0 & Hok).
  unfold aget in Hi. simpl in Hi. destruct Hoff as (Hoff & _). cbn [length] in Hoff. rewrite Hl in Hoff. change (level_shift 4) with 39 in Hoff.
  cbn [boot_address length]. rewrite Hl. destruct (slot_address 4 0 i) as (Hal' & Hu'); [lia | done | done|]. change (level_shift 4) with 39 in Hal'.
  rewrite boot_address_add; [| lia | done | by rewrite Hl | done]. rewrite <- Hoff. rewrite page_table_address_add by (done || lia).
  change (12 + 9 * (Z.of_nat 4 - 1)) with 39. rewrite Z.add_0_l. unfold index_ok, ENTRY_COUNT in Hi0. unfold sign_extend. cbn [Nat.eqb andb].
  fold (has (i * 2 ^ 39) (2 ^ 47)). rewrite has_pow2 by done. rewrite Z.testbit_eqb by done.
  replace (i * 2 ^ 39 / 2 ^ 47) with (i / 256) by (change (2 ^ 47) with (2 ^ 39 * 256); rewrite <- Z.div_div, Z.div_mul by done; done).
  pose proof (Z.div_mod va (2 ^ 39) ltac:(done)) as Hdm. unfold is_u64 in Hu. assert (H0 : 0 <= va / 2 ^ 39) by (apply Z.div_pos; lia).
  assert (Hup : va / 2 ^ 39 < 2 ^ 25) by (apply Z.div_lt_upper_bound; [done | change (2 ^ 39 * 2 ^ 25) with (2 ^ 64); lia]).
  set (q := va / 2 ^ 39) in *. clearbody q. change (2 ^ 25) with 33554432 in *. destruct (Z.eqb_spec ((i / 256) mod 2) 1) as [E|E].
  - change 0xFFFF000000000000 with (0xFFFF * 2 ^ 48). rewrite Z.lor_comm, (lor_disjoint_add _ _ 48) by (lia || by apply Z_mod_mult).
    assert (Eq : q = 33553920 + i) by (Z.div_mod_to_equations; lia). rewrite Eq in Hdm. lia.
  - assert (Eq : q = i) by (Z.div_mod_to_equations; lia). rewrite Eq in Hdm. lia.
Qed.

Lemma open_path level m T p t i : (length p + 1 < level)%nat -> rep level m T -> open_tree level T -> Forall index_ok p -> index_ok i ->
  table_at m (troot T) p = Some t -> is_Some (next (entry_at m t i)) -> open_entry (entry_at m t i).
Proof.
  revert T level. induction p as [|j p IH]; intros T level Hl Hr Ho Hok Hi Ht Hn; (destruct level as [|below]; [done|]).
  - injection Ht as <-. apply index_nat in Hi as (n & -> & Hn'). rewrite rep_full in Hr. destruct (rep_lookup _ _ _ _ n Hr Hn') as (e & c & Hs).
    destruct (slot_cases _ _ _ _ _ _ _ Hr Hs) as (He & Hc). unfold ix in *. rewrite He in *. destruct c as [T'|]; [by apply (Ho n e T')|].
    rewrite next_cases in Hn. cbn [length] in Hl. destruct Hc as [->|[Hc|Hc]]; [lia | |]; rewrite Hc in Hn; rewrite ?andb_false_r in Hn; by destruct Hn.
  - apply Forall_cons in Hok as (Hj & Hok). cbn [length] in Hl.
    assert (Hin : (length p < below)%nat) by lia. destruct (rep_step_path below m T j p t Hr Hj Hin Ht) as (n & e & T' & -> & Hs & Hr' & Ht').
    apply (IH T' below); [lia | done | by apply (Ho n e T') | done | done | done | done].
Qed.

(** The state the boot loader hands over. *)
Record boot_state (s : vmm_state) (root : Z) : Prop := {
  bt_tree : tree_wf (memory s) root;
  bt_mem : mem_ok (memory s);
  bt_pmm : pmm_wf (pmm s);
  bt_busy : forall r t, path_ok r -> table_at (memory s) root r = Some t -> page_busy (pmm s) t;
}.

Lemma boot_tree s root : boot_state s root -> exists T, troot T = root /\ tree_in 4 s T.
Proof.
  intros [Ht Hm Hp Hb]. apply tree_wf_rep in Ht as (T & Hroot & Hr & Hnd). exists T. split; [done|]. split; try done.
  intros p Hin. apply (tpages_table _ _ _ _ Hr) in Hin as (r & Hok & Hl & Ht). rewrite Hroot in Ht. apply (Hb r p); [split; [lia | done] | done].
Qed.

Lemma grown_space s s' T T' : grown 4 s s' T T' -> open_tree 4 T' -> space_wf s' (troot T').
Proof.
  intros G Ho. destruct (gr_tree _ _ _ _ _ G) as [Hr Hnd Hm Hp Hb]. split; try done.
  - apply tree_wf_rep. by exists T'.
  - intros r t (Hl & Hok) Ht. apply Hb, (tpages_table _ _ _ _ Hr). exists r. split_and!; [done | lia | done].
  - intros r t i (Hl & Hok) Hl3 Ht Hi Hn. destruct (open_path 4 (memory s') T' r t i) as (W & X & _); try done. lia.
Qed.

(** What a successful [protect_boot_table] means for queries. *)
Lemma protect_query l s s' T : layout_ok l -> tree_in 4 s T -> protect_boot_table 4 l (troot T) 0 s = (true, s') ->
  same_machine s s' /\ space_wf s' (troot T) /\
  forall va, is_u64 va -> address_is_canonical va = true -> va mod 2 ^ 12 = 0 ->
    match vmm_space_query (Some (Space (troot T))) va s with
    | None => vmm_space_query (Some (Space (troot T))) va s' = None
    | Some (pa, _) => exists fl, vmm_space_query (Some (Space (troot T))) va s' = Some (pa, fl) /\ page_protected l va pa fl
    end.
Proof.
  intros Hlo Ht Hrun. destruct (protect_boot_spec 4 l T 0 s s' ltac:(lia) Hlo Ht eq_refl Hrun) as (T' & G & Ho & Hp & Htop). specialize (Htop eq_refl).
  split; [apply G|]. rewrite <- (gr_root _ _ _ _ _ G). split; [by apply (grown_space s s' T)|]. intros va Hu Hc Hal.
  destruct (indices_path va) as (Hl & Hok). pose proof (indices_offsets va Hal) as Hoff. specialize (Hp (indices va) Hl Hok).
  rewrite boot_address_indices in Hp by done.
  unfold vmm_space_query. rewrite Hc. cbn [negb pml4_physical].
  pose proof (query_page (memory s) 4 T (indices va) (VMM_WRITABLE |! VMM_USER) 0 va ltac:(lia) (ti_rep _ _ _ Ht) (ti_mem _ _ _ Ht) Hl Hok ltac:(eauto) Hoff eq_refl eq_refl) as Q.
  pose proof (query_page (memory s') 4 T' (indices va) (VMM_WRITABLE |! VMM_USER) 0 va ltac:(lia) (ti_rep _ _ _ (gr_tree _ _ _ _ _ G)) (ti_mem _ _ _ (gr_tree _ _ _ _ _ G)) Hl Hok ltac:(eauto) Hoff eq_refl eq_refl) as Q'.
  rewrite <- (gr_root _ _ _ _ _ G) in Q. change (4 - Z.of_nat 4) with 0 in *.
  destruct (page_of T (indices va)) as [[[p t] e]|], (page_of T' (indices va)) as [[[p' t'] e']|]; try done; [|by rewrite Q].
  destruct Q as (fl & -> & _), Q' as (fl' & -> & Hfl), Hp as (-> & _ & [A B C D]). exists fl'. split; [done|].
  destruct (Hfl Ho) as (W & X & U). split; rewrite ?W, ?X; cbn; auto.
Qed.

(** C7 After a successful [vmm_init], started on the tables of the boot loader,
    the kernel space is well-formed - which is what the theorems on mapping,
    unmapping and copy-on-write start from - and every page address answers
    as before, with the same physical address, but: no page is open to user
    code, a page is executable exactly when it belongs to the kernel text, no
    page is both writable and executable, and no page of the text and of the
    constants is writable through any address. *)
Theorem vmm_init_protects cr4 physical_base virtual_base text_start text_end rodata_end s flushed s' :
  let root := cr3 s &! PAGE_ADDRESS_MASK in
  let l := mk_layout text_start text_end (physical_base +! text_start -! virtual_base) (physical_base +! rodata_end -! virtual_base) in
  boot_state s root -> layout_ok l ->
  vmm_init cr4 true (Some (physical_base, virtual_base)) (text_start, text_end, rodata_end) s = (Some flushed, s') ->
  kernel_pml4 s' = root /\ space_wf s' root /\
  forall va, is_u64 va -> address_is_canonical va = true -> va mod 2 ^ 12 = 0 ->
    match vmm_space_query (Some (Space root)) va s with
    | None => vmm_space_query (Some KernelSpace) va s' = None
    | Some (pa, _) => exists fl, vmm_space_query (Some KernelSpace) va s' = Some (pa, fl) /\
        has fl VMM_USER = false /\ (has fl VMM_NO_EXECUTE = false <-> text_start <= va < text_end) /\
        (has fl VMM_NO_EXECUTE = false -> has fl VMM_WRITABLE = false) /\
        (physical_base +! text_start -! virtual_base <= pa < physical_base +! rodata_end -! virtual_base -> has fl VMM_WRITABLE = false)
    end.
Proof.
  intros root l Hb Hlo Hrun. unfold vmm_init in Hrun. destruct (has cr4 CR4_LA57); [done|]. cbn [kernel_pml4] in Hrun. fold root in Hrun. fold l in Hrun.
  set (s0 := mk_vmm (pmm s) (memory s) (cr3 s) root (tlb s)) in *. destruct (boot_tree s root Hb) as (T & Hroot & Ht).
  assert (Ht0 : tree_in 4 s0 T) by (by destruct Ht). rewrite <- Hroot in Hrun at 1.
  destruct (protect_boot_table 4 l (troot T) 0 s0) as [ok s1] eqn:Hp. destruct ok; [|done]. cbn [negb] in Hrun.
  destruct (protect_query l s0 s1 T Hlo Ht0 Hp) as (Hsm & Hwf & Hq). rewrite Hroot in Hwf, Hq.
  assert (Hk1 : kernel_pml4 s1 = root) by apply Hsm.
  assert (Hs' : memory s' = memory s1 /\ pmm s' = pmm s1 /\ kernel_pml4 s' = root).
  { destruct (has cr4 CR4_PGE); injection Hrun as _ <-; (split; [reflexivity | split; [reflexivity | exact Hk1]]). }
  destruct Hs' as (Em & Ep & Ek). clear Hrun Hp. split; [exact Ek|]. split.
  - destruct Hwf as [A B C D E]. split; rewrite ?Em, ?Ep; done.
  - intros va Hu Hc Hal. specialize (Hq va Hu Hc Hal).
    assert (Eq : vmm_space_query (Some KernelSpace) va s' = vmm_space_query (Some (Space root)) va s1).
    { unfold vmm_space_query. cbn [pml4_physical]. by rewrite Em, Ek. }
    rewrite Eq. change (vmm_space_query (Some (Space root)) va s) with (vmm_space_query (Some (Space root)) va s0).
    destruct (vmm_space_query (Some (Space root)) va s0) as [(pa & fl)|]; [|done]. destruct Hq as (fl' & -> & [U X W R]). by exists fl'.
Qed.

(** A boot loader that maps the kernel with one page of 1 GiB, and a kernel
    with two pages of text and one of constants. *)
Definition boot_base : Z := 0xFFFFFFFF80000000.
Definition boot_memory : mem := set_entry (set_entry ∅ 0x12000 511 0x13003) 0x13000 510 0x40000083.
Definition boot_vmm : vmm_state := mk_vmm (pmm sample_vmm) boot_memory 0x12000 0 [].
Definition booted : vmm_state := snd (vmm_init 0 true (Some (0x40000000, boot_base)) (boot_base, boot_base + 0x2000, boot_base + 0x3000) boot_vmm).

Lemma boot_entry_root i : index_ok i -> entry_at boot_memory 0x12000 i = if decide (i = 511) then 0x13003 else 0.
Proof.
  intros Hi. unfold boot_memory. rewrite (entry_same_page (set_entry ∅ 0x12000 511 0x13003)); [|by apply set_entry_other_page; [split; [done | lia] | split; [done | lia] | |] | done].
  case_decide as E; [subst i; by apply entry_set_eq|]. rewrite entry_set_ne by done. apply entry_empty.
Qed.

Lemma boot_entry_second i : index_ok i -> entry_at boot_memory 0x13000 i = if decide (i = 510) then 0x40000083 else 0.
Proof.
  intros Hi. unfold boot_memory. case_decide as E; [subst i; by apply entry_set_eq|]. rewrite entry_set_ne by done.
  rewrite (entry_same_page ∅); [apply entry_empty | by apply set_entry_other_page; [split; [done | lia] | split; [done | lia] | |] | done].
Qed.

Lemma boot_tables r t : path_ok r -> table_at boot_memory 0x12000 r = Some t -> (r = [] /\ t = 0x12000) \/ (r = [511] /\ t = 0x13000).
Proof.
  intros (_ & Hok) Ht. destruct r as [|i r]; [left; by injection Ht as <-|]. apply Forall_cons in Hok as (Hi & Hok). cbn [table_at] in Ht.
  rewrite boot_entry_root in Ht by done. case_decide as E; [|done]. subst i. change (next 0x13003) with (Some 0x13000) in Ht.
  destruct r as [|j r]; [right; by injection Ht as <-|]. apply Forall_cons in Hok as (Hj & _). cbn [table_at] in Ht.
  rewrite boot_entry_second in Ht by done. by case_decide.
Qed.

Lemma boot_vmm_state : boot_state boot_vmm 0x12000.
Proof.
  split.
  - split.
    + intros r t Hr Ht. apply boot_tables in Ht as [(_ & ->)|(_ & ->)]; [split; [done | lia] | split; [done | lia] | done].
    + intros r r' t Hr Hr' H1 H2. apply boot_tables in H1, H2; [|done..]. destruct H1 as [(-> & ->)|(-> & ->)], H2 as [(-> & ?)|(-> & ?)]; done.
  - apply set_entry_ok, set_entry_ok, empty_ok.
  - apply sample_space_wf.
  - intros r t Hr Ht. apply boot_tables in Ht as [(_ & ->)|(_ & ->)]; [| | done]; intros _; by vm_compute.
Qed.

Lemma booted_result : fst (vmm_init 0 true (Some (0x40000000, boot_base)) (boot_base, boot_base + 0x2000, boot_base + 0x3000) boot_vmm) = Some false.
Proof. vm_compute. reflexivity. Qed.

Lemma boot_query : vmm_space_query (Some (Space 0x12000)) (boot_base + 0x1000) boot_vmm = Some (0x40001000, 3).
Proof. vm_compute. reflexivity. Qed.

Lemma vmm_init_protects_witness :
  space_wf booted 0x12000 /\ exists fl, vmm_space_query (Some KernelSpace) (boot_base + 0x1000) booted = Some (0x40001000, fl) /\ has fl VMM_WRITABLE = false.
Proof.
  pose proof booted_result as Hr. unfold booted.
  destruct (vmm_init 0 true (Some (0x40000000, boot_base)) (boot_base, boot_base + 0x2000, boot_base + 0x3000) boot_vmm) as [r s'] eqn:E.
  cbn [fst snd] in *. subst r.
  destruct (vmm_init_protects 0 0x40000000 boot_base boot_base (boot_base + 0x2000) (boot_base + 0x3000) boot_vmm false s' boot_vmm_state) as (_ & Hwf & Hq);
    [split; (split_and!; [done | done | by split | by split]) | exact E|].
  split; [exact Hwf|]. specialize (Hq (boot_base + 0x1000) ltac:(by split) eq_refl eq_refl).
  change (cr3 boot_vmm &! PAGE_ADDRESS_MASK) with 0x12000 in Hq. rewrite boot_query in Hq.
  destruct Hq as (fl & Hq & _ & Hx & Hw & _). exists fl. split; [exact Hq|]. apply Hw, Hx. clear. unfold boot_base. lia.
Defined.

End VmmInit.
