(* ===== verification/UserMem.v ===== *)
(** * UserMem: the memory a user space shows

    The bytes a process sees: [user_byte] reads a user address through the page
    tables.  [user_wf] is the invariant of a user space: its user pages are
    4 KiB pages of the lower half, reachable with user rights, in frames of
    their own that are no tables.  The lemmas say what writing a frame, mapping
    a fresh page, resolving a copy-on-write fault and unmapping a page do to
    the bytes, and that bytes of memory in use that the space may not write
    stay as they are.  The clients are the user copies and the ELF loader. *)

From S2P Require Import Prelude Memory Pmm PageTable Vmm VmmSafety VmmFork.
Import Memory.Memory Pmm.Pmm PageTable.PageTable Vmm.Vmm VmmSafety.VmmSafety VmmFork.VmmFork.

Module UserMem.

(** The entry of the user page a path of indices leads to. *)
Definition user_entry (s : vmm_state) (root : Z) (idx : list Z) : option Z :=
  match leaf (memory s) root idx with
  | Some (_, e) => if has e VMM_USER then Some e else None
  | None => None
  end.

(** The byte at a user address. *)
Definition user_byte (s : vmm_state) (root a : Z) : option Z :=
  match user_entry s root (indices a) with
  | Some e => Some (rd (memory s) (table_physical e + a mod 4096))
  | None => None
  end.

Definition used_page (p : pmm_state) (f n : Z) : Prop := used_at p f (f / PMM_PAGE_SIZE) n.

Definition in_page (f x : Z) : Prop := f <= x < f + 4096.

(** A copy-on-write page is not writable. *)
Definition cow_excl (e : Z) : Prop := has e VMM_COPY_ON_WRITE = true -> has e VMM_WRITABLE = false.

Record user_wf (s : vmm_state) (root : Z) : Prop := {
  uw_space : space_wf s root;
  uw_safe : safe (memory s) root;
  uw_path : forall idx e, page_path idx -> user_entry s root idx = Some e ->
    path_all (memory s) root (take 3 idx) (fun e => has e VMM_USER = true);
  uw_used : forall idx e, page_path idx -> user_entry s root idx = Some e -> exists n, used_page (pmm s) (table_physical e) n;
  uw_data : forall idx e r, page_path idx -> user_entry s root idx = Some e -> path_ok r ->
    table_at (memory s) root r <> Some (table_physical e);
  uw_inj : forall idx idx' e e', page_path idx -> page_path idx' -> user_entry s root idx = Some e ->
    user_entry s root idx' = Some e' -> table_physical e = table_physical e' -> idx = idx';
  uw_cow : forall idx e, page_path idx -> user_entry s root idx = Some e -> cow_excl e;
}.

(** The space may write the page: it is writable or referenced once. *)
Definition owns (s : vmm_state) (e : Z) : Prop :=
  has e VMM_WRITABLE = true \/ used_page (pmm s) (table_physical e) 1.

(** A byte of memory in use that the space may not write. *)
Definition foreign (s : vmm_state) (root x : Z) : Prop :=
  page_busy (pmm s) x /\ ~ tree_byte (memory s) root x /\
  forall idx e, page_path idx -> user_entry s root idx = Some e -> in_page (table_physical e) x -> ~ owns s e.

(** ** No kernel pages in the lower half *)

Definition low_clean (s : vmm_state) (root : Z) : Prop :=
  forall idx l e, page_path idx -> user_half idx -> leaf (memory s) root idx = Some (l, e) -> has e VMM_USER = true.

Lemma clean_same s s' root :
  (forall idx, page_path idx -> leaf (memory s') root idx = leaf (memory s) root idx) -> low_clean s root -> low_clean s' root.
Proof. intros H Hc idx l e Hidx Hh Hl. rewrite H in Hl by done. by apply (Hc idx l e). Qed.

Lemma clean_update s s' root i0 new :
  (forall idx, page_path idx -> leaf (memory s') root idx = if decide (idx = i0) then new else leaf (memory s) root idx) ->
  (forall l e, new = Some (l, e) -> has e VMM_USER = true) -> low_clean s root -> low_clean s' root.
Proof. intros H Hn Hc idx l e Hidx Hh Hl. rewrite H in Hl by done. case_decide; [by apply (Hn l) | by apply (Hc idx l e)]. Qed.

(** What every operation on user memory guarantees. *)
Record user_step (s s' : vmm_state) (root : Z) : Prop := {
  us_wf : user_wf s' root;
  us_shape : same_shape (pmm s) (pmm s');
  us_regs : cr3 s' = cr3 s /\ kernel_pml4 s' = kernel_pml4 s;
  us_foreign : forall x, foreign s root x -> rd (memory s') x = rd (memory s) x /\ foreign s' root x;
  us_clean : low_clean s root -> low_clean s' root;
}.

Lemma user_step_refl s root : user_wf s root -> user_step s s root.
Proof. by split. Qed.

Lemma user_step_trans s1 s2 s3 root : user_step s1 s2 root -> user_step s2 s3 root -> user_step s1 s3 root.
Proof.
  intros [W1 S1 R1 F1 C1] [W2 S2 R2 F2 C2]. split; [done | by transitivity (pmm s2) | destruct R1, R2; split; congruence | |by auto].
  intros x Hx. destruct (F1 x Hx) as (E1 & Hx1). destruct (F2 x Hx1) as (E2 & Hx2). split; [congruence | done].
Qed.

Lemma user_entry_leaf s root idx e : user_wf s root -> page_path idx ->
  user_entry s root idx = Some e <-> leaf (memory s) root idx = Some (0, e) /\ has e VMM_USER = true.
Proof.
  intros Hwf Hidx. unfold user_entry. split.
  - destruct (leaf (memory s) root idx) as [[l e']|] eqn:E; [|done]. destruct (has e' VMM_USER) eqn:HU; [|done].
    intros [= ->]. by destruct (uw_safe _ _ Hwf idx l e Hidx E HU) as (-> & _).
  - by intros (-> & ->).
Qed.

Lemma user_entry_u64 s root idx e : user_wf s root -> page_path idx -> user_entry s root idx = Some e ->
  is_u64 e /\ has e VMM_PRESENT = true /\ is_page (table_physical e).
Proof.
  intros Hwf Hidx He. apply user_entry_leaf in He as (He & _); [|done | done].
  destruct (leaf_u64 (memory s) root idx 0 e) as (Hu & HP); [apply Hwf | done |].
  split_and!; try done. by apply table_physical_page.
Qed.

(** ** What a query reports *)

Lemma low_address a : 0 <= a < 2 ^ 47 -> is_u64 a /\ address_is_canonical a = true.
Proof.
  intros Ha. split; [unfold is_u64; lia|]. unfold address_is_canonical.
  rewrite Z.shiftr_div_pow2, (has_pow2 a 47), (testbit_small a 47), Z.div_small by (done || lia). done.
Qed.

Lemma query_user s root a e :
  user_wf s root -> 0 <= a < 2 ^ 47 -> user_entry s root (indices a) = Some e ->
  vmm_space_query (Some (Space root)) a s = Some (table_physical e + a mod 4096, VMM_PRESENT |! (e &! QUERY_FLAGS)).
Proof.
  intros Hwf Ha He. destruct (low_address a Ha) as (Hu & Hc). destruct (indices_table_path a) as (Hp & Hl).
  pose proof (uw_path _ _ Hwf _ _ (indices_path a) He) as HU. pose proof (user_entry_u64 _ _ _ _ Hwf (indices_path a) He) as (He' & _).
  apply user_entry_leaf in He as (Hleaf & Hue); [|done | apply indices_path]. rewrite indices_split in Hleaf.
  apply leaf_inv in Hleaf as (t & Ht & Hent & HP).
  destruct (path_rights s root (take 3 (indices a)) (uw_space _ _ Hwf) Hp) as (HW & HN); [by rewrite Ht|].
  unfold vmm_space_query. rewrite Hc. cbn [negb pml4_physical]. rewrite indices_split. by apply (query_last _ _ _ t).
Qed.

Lemma query_not_user s root a pa fl :
  user_entry s root (indices a) = None -> vmm_space_query (Some (Space root)) a s = Some (pa, fl) ->
  has fl VMM_USER = false.
Proof.
  intros He Hq. unfold vmm_space_query in Hq. destruct (address_is_canonical a); [|done]. cbn [negb pml4_physical] in Hq.
  apply query_walk_leaf in Hq as (l & e & Hl & HU & _); [|done..]. unfold user_entry in He. rewrite Hl in He.
  destruct (has fl VMM_USER); [|done]. by rewrite HU in He.
Qed.

Lemma query_flags_bit e k : k = 1 \/ k = 2 \/ k = 9 \/ k = 63 ->
  Z.testbit (VMM_PRESENT |! (e &! QUERY_FLAGS)) k = Z.testbit e k.
Proof. intros [->|[->|[->| ->]]]; by bits. Qed.

Lemma query_rights e : let fl := VMM_PRESENT |! (e &! QUERY_FLAGS) in
  has fl VMM_WRITABLE = has e VMM_WRITABLE /\ has fl VMM_USER = has e VMM_USER /\
  has fl VMM_COPY_ON_WRITE = has e VMM_COPY_ON_WRITE /\ has fl VMM_NO_EXECUTE = has e VMM_NO_EXECUTE.
Proof. cbv zeta. flags. rewrite !query_flags_bit by auto. done. Qed.

(** ** Writing the frame of a user page *)

Lemma in_page_eq f f' x : is_page f -> is_page f' -> in_page f x -> in_page f' x -> f = f'.
Proof.
  intros Hf Hf' Hx Hx'. destruct (decide (f = f')) as [|Hne]; [done|].
  unfold in_page in *. destruct (pages_apart f f' Hf Hf' Hne); lia.
Qed.

Lemma in_page_offset f a : in_page f (f + a mod 4096).
Proof. unfold in_page. pose proof (Z.mod_pos_bound a 4096). lia. Qed.

Lemma tree_byte_ext m m' root x :
  (forall r, path_ok r -> table_at m' root r = table_at m root r) -> tree_byte m' root x <-> tree_byte m root x.
Proof.
  intros H. split; intros (r & t & Hr & Ht & Hx); exists r, t; (split; [done | split; [|done]]).
  - by rewrite H in Ht.
  - by rewrite H.
Qed.

(** ** Changing at most one mapping *)

Lemma page_path_take idx : page_path idx -> path_ok (take 3 idx).
Proof. intros (Hl & HF). split; [rewrite length_take; lia | by apply Forall_take]. Qed.

Lemma leaf_last_table m root idx e :
  page_path idx -> leaf m root idx = Some (0, e) -> is_Some (table_at m root (take 3 idx)).
Proof.
  intros (Hl & _) He. assert (Hd : length (drop 3 idx) = 1%nat) by (rewrite length_drop; lia).
  destruct (drop 3 idx) as [|i [|]] eqn:E; try done. rewrite <- (take_drop 3 idx), E in He.
  by apply leaf_inv in He as (t & -> & _).
Qed.

(** [s'] has the mappings of [s] but for the path [i0], whose leaf is [new];
    the frames of the other user pages stay in use and keep their bytes. *)
Section UserUpdate.
Context (s s' : vmm_state) (root : Z) (i0 : list Z) (new : option (Z * Z)).
Context (Hwf : user_wf s root) (Hwf' : space_wf s' root) (Hi0 : page_path i0).
Context (Hleaf : forall idx, page_path idx -> leaf (memory s') root idx =
  if decide (idx = i0) then new else leaf (memory s) root idx).
Context (Huser : user_kept (memory s) (memory s') root).
Context (Htab : forall r t t', path_ok r -> table_at (memory s) root r = Some t ->
  table_at (memory s') root r = Some t' -> t' = t).
Context (Hnewtab : forall r t, path_ok r -> table_at (memory s') root r = Some t ->
  table_at (memory s) root r = Some t \/ ~ page_busy (pmm s) t).
Context (Hframe : forall idx e n, page_path idx -> idx <> i0 -> user_entry s root idx = Some e ->
  used_page (pmm s) (table_physical e) n -> used_page (pmm s') (table_physical e) n).
Context (Hnew : forall l e, new = Some (l, e) -> has e VMM_USER = true ->
  safe_entry i0 l e /\ path_all (memory s') root (take 3 i0) (fun e => has e VMM_USER = true) /\
  (exists n, used_page (pmm s') (table_physical e) n) /\
  (forall r, path_ok r -> table_at (memory s') root r <> Some (table_physical e)) /\
  (forall idx e', page_path idx -> idx <> i0 -> user_entry s root idx = Some e' -> table_physical e' <> table_physical e) /\
  cow_excl e).

Lemma uu_entry idx : page_path idx -> user_entry s' root idx =
  if decide (idx = i0) then match new with Some (_, e) => if has e VMM_USER then Some e else None | None => None end
  else user_entry s root idx.
Proof. intros Hidx. unfold user_entry. rewrite Hleaf by done. by case_decide. Qed.

Lemma uu_cases idx e : page_path idx -> user_entry s' root idx = Some e ->
  (idx = i0 /\ exists l, new = Some (l, e) /\ has e VMM_USER = true) \/ (idx <> i0 /\ user_entry s root idx = Some e).
Proof.
  intros Hidx. rewrite uu_entry by done. clear Hleaf Hnew. case_decide; [|by right]. intros He. left. split; [done|].
  destruct new as [[l e']|]; [|done]. destruct (has e' VMM_USER) eqn:HU; [|done]. injection He as ->. by exists l.
Qed.

Lemma used_busy p f n : used_page p f n -> page_busy p f.
Proof. intros (_ & _ & Ha) _. by rewrite Ha. Qed.

Lemma uu_wf : user_wf s' root.
Proof.
  split; [done | | | | | |].
  - intros idx l e Hidx He HU. rewrite Hleaf in He by done. case_decide as Hd; [|by apply (uw_safe _ _ Hwf idx l e)].
    subst idx. by apply (proj1 (Hnew l e He HU)).
  - intros idx e Hidx He. destruct (uu_cases idx e Hidx He) as [(-> & l & E & HU)|(Hne & He0)]; [by apply (Hnew l e)|].
    pose proof (uw_path _ _ Hwf idx e Hidx He0) as Hp. apply user_entry_leaf in He0 as (He0 & _); [|done | done].
    pose proof (page_path_take idx Hidx). apply (user_kept_path (memory s)); try done; [by apply (leaf_last_table _ _ _ e)|].
    apply (leaf_last_table _ _ _ e); [done|]. by rewrite Hleaf, decide_False.
  - intros idx e Hidx He. destruct (uu_cases idx e Hidx He) as [(-> & l & E & HU)|(Hne & He0)]; [by apply (Hnew l e)|].
    destruct (uw_used _ _ Hwf idx e Hidx He0) as (n & Hn). exists n. by apply (Hframe idx).
  - intros idx e r Hidx He Hr Ht. destruct (uu_cases idx e Hidx He) as [(-> & l & E & HU)|(Hne & He0)].
    { destruct (Hnew l e E HU) as (_ & _ & _ & Hno & _). by apply (Hno r). }
    destruct (Hnewtab r _ Hr Ht) as [Hold|Hfree]; [by apply (uw_data _ _ Hwf idx e r)|].
    destruct (uw_used _ _ Hwf idx e Hidx He0) as (n & Hn). by apply Hfree, (used_busy _ _ n).
  - intros idx idx' e e' Hi Hi' He He' Hf.
    destruct (uu_cases idx e Hi He) as [(-> & l & E & HU)|(Hne & He0)], (uu_cases idx' e' Hi' He') as [(-> & l' & E' & HU')|(Hne' & He0')].
    + done.
    + destruct (Hnew l e E HU) as (_ & _ & _ & _ & Hno & _). by destruct (Hno idx' e' Hi' Hne' He0').
    + destruct (Hnew l' e' E' HU') as (_ & _ & _ & _ & Hno & _). by destruct (Hno idx e Hi Hne He0).
    + by apply (uw_inj _ _ Hwf idx idx' e e').
  - intros idx e Hidx He. destruct (uu_cases idx e Hidx He) as [(-> & l & E & HU)|(Hne & He0)]; [by apply (Hnew l e)|].
    by apply (uw_cow _ _ Hwf idx).
Qed.

Lemma uu_byte a :
  (forall idx e x, page_path idx -> idx <> i0 -> user_entry s root idx = Some e -> in_page (table_physical e) x ->
     rd (memory s') x = rd (memory s) x) ->
  indices a <> i0 -> user_byte s' root a = user_byte s root a.
Proof.
  intros Hb Ha. pose proof (indices_path a) as Hp. unfold user_byte. rewrite uu_entry, decide_False by done.
  destruct (user_entry s root (indices a)) as [e|] eqn:He; [|done]. f_equal.
  apply (Hb (indices a) e); try done. apply in_page_offset.
Qed.

(** A foreign byte stays foreign when the new page is not its page. *)
Lemma uu_foreign x : foreign s root x ->
  (forall q, 0 <= q < page_count (pmm s) -> q = x / PMM_PAGE_SIZE -> abs (pmm s) q <> Free -> abs (pmm s') q <> Free) ->
  same_shape (pmm s) (pmm s') ->
  (forall idx e, page_path idx -> idx <> i0 -> user_entry s root idx = Some e -> in_page (table_physical e) x -> owns s' e -> owns s e) ->
  (forall l e, new = Some (l, e) -> has e VMM_USER = true -> in_page (table_physical e) x -> ~ owns s' e) ->
  foreign s' root x.
Proof.
  intros (Hb & Ht & Hx) Hbusy Hs Howns Hn. split_and!.
  - unfold page_busy in *. rewrite (ss_page_count _ _ Hs). intros Hr. apply Hbusy; auto.
  - intros (r & t & Hr & Htr & Hin). destruct (Hnewtab r t Hr Htr) as [Hold|Hfree].
    + apply Ht. by exists r, t.
    + apply Hfree. apply (page_busy_byte _ t x); [|done | done]. by apply (tw_page _ _ (sw_tree _ _ Hwf') r).
  - intros idx e Hidx He Hin Ho. destruct (uu_cases idx e Hidx He) as [(-> & l & E & HU)|(Hne & He0)].
    + by apply (Hn l e).
    + apply (Hx idx e Hidx He0 Hin). by apply (Howns idx e).
Qed.

End UserUpdate.

(** ** Changing no mapping *)

(** [s'] has the mappings of [s], pages in use keep their state, and new tables
    come from free pages. *)
Record same_pages (s s' : vmm_state) (root : Z) : Prop := {
  sp_space : space_wf s' root;
  sp_shape : same_shape (pmm s) (pmm s');
  sp_regs : cr3 s' = cr3 s /\ kernel_pml4 s' = kernel_pml4 s;
  sp_leaf : forall idx, page_path idx -> leaf (memory s') root idx = leaf (memory s) root idx;
  sp_user : user_kept (memory s) (memory s') root;
  sp_tables : forall r t t', path_ok r -> table_at (memory s) root r = Some t ->
    table_at (memory s') root r = Some t' -> t' = t;
  sp_new : forall r t, path_ok r -> table_at (memory s') root r = Some t ->
    table_at (memory s) root r = Some t \/ ~ page_busy (pmm s) t;
  sp_abs : forall q, 0 <= q < page_count (pmm s) -> abs (pmm s) q <> Free -> abs (pmm s') q = abs (pmm s) q;
}.

Lemma used_page_same p p' f n :
  same_shape p p' -> (forall q, 0 <= q < page_count p -> abs p q <> Free -> abs p' q = abs p q) ->
  used_page p f n -> used_page p' f n.
Proof.
  intros Hs Ha (E & Hr & Hn). split_and!; [done | lia | rewrite (ss_page_count _ _ Hs); lia |]. rewrite Ha; [done | done | congruence].
Qed.

Section SamePages.
Context (s s' : vmm_state) (root : Z) (Hwf : user_wf s root) (Hs : same_pages s s' root).

Lemma sp_entry idx : page_path idx -> user_entry s' root idx = user_entry s root idx.
Proof. intros Hidx. unfold user_entry. by rewrite (sp_leaf _ _ _ Hs). Qed.

Lemma sp_wf : user_wf s' root.
Proof.
  destruct Hs as [W S R L U T N A]. pose proof (indices_path 0) as H0.
  apply (uu_wf s s' root (indices 0) (leaf (memory s) root (indices 0))); try done.
  - intros idx Hidx. rewrite L by done. by case_decide as Hd; [rewrite Hd|].
  - intros idx e n Hidx _ He. by apply used_page_same.
  - intros l e E HU. assert (He : user_entry s root (indices 0) = Some e) by (unfold user_entry; by rewrite E, HU).
    pose proof He as HE. apply user_entry_leaf in HE as (HE & _); [|done | done]. rewrite E in HE. injection HE as ->.
    split_and!.
    + by apply (uw_safe _ _ Hwf).
    + apply (user_kept_path (memory s)); try done; [by apply page_path_take | by apply (leaf_last_table _ _ _ e) | |].
      * apply (leaf_last_table _ _ _ e); [done|]. by rewrite L.
      * by apply (uw_path _ _ Hwf _ e).
    + destruct (uw_used _ _ Hwf _ e H0 He) as (n & Hn). exists n. by apply (used_page_same (pmm s)).
    + intros r Hr Ht. destruct (N r _ Hr Ht) as [Hold|Hf]; [by apply (uw_data _ _ Hwf _ e r H0 He)|].
      destruct (uw_used _ _ Hwf _ e H0 He) as (n & Hn). by apply Hf, (used_busy _ _ n).
    + intros idx e' Hidx Hne He' Hf. by apply Hne, (uw_inj _ _ Hwf _ _ e' e).
    + by apply (uw_cow _ _ Hwf (indices 0)).
Qed.

Lemma sp_owns idx e : page_path idx -> user_entry s root idx = Some e -> owns s' e -> owns s e.
Proof.
  intros Hidx He [?|Hu]; [by left|]. right. destruct (uw_used _ _ Hwf idx e Hidx He) as (n & Hn).
  pose proof (used_page_same _ _ _ _ (sp_shape _ _ _ Hs) (sp_abs _ _ _ Hs) Hn) as Hn'.
  by rewrite (used_at_fun _ _ _ _ _ _ Hu Hn').
Qed.

Lemma sp_step :
  (forall x, foreign s root x -> rd (memory s') x = rd (memory s) x) -> user_step s s' root.
Proof.
  intros Hx. pose proof sp_wf as Hwf'. destruct Hs as [W S R L U T N A]. split; try done; [|by apply clean_same].
  intros x Hf. split; [by apply Hx|]. apply (uu_foreign s s' root (indices 0) (leaf (memory s) root (indices 0))); try done.
  - intros idx Hidx. rewrite L by done. by case_decide as Hd; [rewrite Hd|].
  - intros q Hq _ Hne. by rewrite A.
  - intros idx e Hidx _ He _. by apply (sp_owns idx).
  - intros l e E HU Hin Ho. assert (He : user_entry s root (indices 0) = Some e) by (unfold user_entry; by rewrite E, HU).
    destruct Hf as (_ & _ & Hf). apply (Hf _ _ (indices_path 0) He Hin). by apply (sp_owns _ _ (indices_path 0)).
Qed.

Lemma sp_byte a :
  (forall e, user_entry s root (indices a) = Some e -> rd (memory s') (table_physical e + a mod 4096) = rd (memory s) (table_physical e + a mod 4096)) ->
  user_byte s' root a = user_byte s root a.
Proof.
  intros Hx. unfold user_byte. rewrite sp_entry by apply indices_path.
  destruct (user_entry s root (indices a)) as [e|]; [|done]. by rewrite Hx.
Qed.

End SamePages.

(** Writing bytes that are no tables. *)
Lemma same_pages_frame s root m :
  user_wf s root -> mem_ok m -> (forall x, tree_byte (memory s) root x -> rd m x = rd (memory s) x) ->
  same_pages s (with_memory s m) root.
Proof.
  intros Hwf Hm Hx. destruct (space_wf_frame s root m (uw_space _ _ Hwf) Hm Hx) as (W & T & E & L). split; try done.
  - intros r t i Hr _ Hi Ht _ _ HU. simpl. by rewrite (E r).
  - intros r t t' Hr Ht Ht'. simpl in Ht'. rewrite T in Ht' by done. congruence.
  - intros r t Hr Ht. simpl in Ht. rewrite T in Ht by done. by left.
Qed.

(** ** Writing the frame of a user page *)

(** The process sees the change on this page only, whoever else maps it. *)
Lemma poke_pages s root idx e m :
  user_wf s root -> page_path idx -> user_entry s root idx = Some e -> mem_ok m ->
  (forall x, ~ in_page (table_physical e) x -> rd m x = rd (memory s) x) -> same_pages s (with_memory s m) root.
Proof.
  intros Hwf Hidx He Hm Hout. pose proof (user_entry_u64 _ _ _ _ Hwf Hidx He) as (_ & _ & Hpage).
  apply same_pages_frame; try done. intros x (r & t & Hr & Ht & Hx). apply Hout. intros Hx'.
  assert (t = table_physical e) as ->; [|by apply (uw_data _ _ Hwf idx e r)].
  apply (in_page_eq t (table_physical e) x); try done. by apply (tw_page _ _ (sw_tree _ _ (uw_space _ _ Hwf)) r).
Qed.

Lemma poke_bytes s root idx e m a :
  user_wf s root -> page_path idx -> user_entry s root idx = Some e -> mem_ok m ->
  (forall x, ~ in_page (table_physical e) x -> rd m x = rd (memory s) x) ->
  indices a <> idx -> user_byte (with_memory s m) root a = user_byte s root a.
Proof.
  intros Hwf Hidx He Hm Hout Ha. pose proof (user_entry_u64 _ _ _ _ Hwf Hidx He) as (_ & _ & Hpage).
  apply sp_byte; [by apply (poke_pages s root idx e)|]. intros e' He'. simpl. apply Hout. intros Hin. apply Ha.
  pose proof (user_entry_u64 _ _ _ _ Hwf (indices_path a) He') as (_ & _ & Hpage').
  apply (uw_inj _ _ Hwf _ _ e' e); try done; [apply indices_path|].
  apply (in_page_eq _ _ (table_physical e' + a mod 4096)); try done. apply in_page_offset.
Qed.

(** A page the space may write is nobody else's. *)
Lemma poke_step s root idx e m :
  user_wf s root -> page_path idx -> user_entry s root idx = Some e -> owns s e -> mem_ok m ->
  (forall x, ~ in_page (table_physical e) x -> rd m x = rd (memory s) x) -> user_step s (with_memory s m) root.
Proof.
  intros Hwf Hidx He Ho Hm Hout. apply sp_step; [done | by apply (poke_pages s root idx e)|].
  intros x (_ & _ & Hx). simpl. apply Hout. intros Hin. by apply (Hx idx e Hidx He Hin).
Qed.

(** ** A fresh page *)

(** A page just taken from the allocator and cleared. *)
Record fresh_page (s s1 : vmm_state) (root f : Z) : Prop := {
  fp_page : is_page f;
  fp_valid : (f =? PMM_INVALID_ADDRESS) = false;
  fp_same : same_pages s s1 root;
  fp_tables : forall r, path_ok r -> table_at (memory s1) root r = table_at (memory s) root r;
  fp_used : used_page (pmm s1) f 1;
  fp_free : abs (pmm s) (f / PMM_PAGE_SIZE) = Free;
  fp_abs : forall q, 0 <= q -> abs (pmm s1) q = upd (abs (pmm s)) (f / PMM_PAGE_SIZE) (Used 1) q;
  fp_out : forall x, page_busy (pmm s) x -> ~ in_page f x;
  fp_bytes : forall x, ~ in_page f x -> rd (memory s1) x = rd (memory s) x;
}.

Lemma tree_byte_busy s root x : space_wf s root -> tree_byte (memory s) root x -> page_busy (pmm s) x.
Proof.
  intros Hwf (r & t & Hr & Ht & Hx). apply (page_busy_byte _ t x); [|done | by apply (sw_busy _ _ Hwf r)].
  by apply (tw_page _ _ (sw_tree _ _ Hwf) r).
Qed.

Lemma user_busy s root idx e x : user_wf s root -> page_path idx -> user_entry s root idx = Some e ->
  in_page (table_physical e) x -> page_busy (pmm s) x.
Proof.
  intros Hwf Hidx He Hx. destruct (uw_used _ _ Hwf idx e Hidx He) as (n & Hn).
  apply (page_busy_byte _ (table_physical e) x); [|done | by apply (used_busy _ _ n)].
  by apply (user_entry_u64 s root idx e).
Qed.

Lemma user_page_tree s root idx e x : user_wf s root -> page_path idx -> user_entry s root idx = Some e ->
  in_page (table_physical e) x -> ~ tree_byte (memory s) root x.
Proof.
  intros W Hidx He Hx (r & t & Hr & Ht & Hx'). pose proof (user_entry_u64 _ _ _ _ W Hidx He) as (_ & _ & Hp).
  apply (uw_data _ _ W idx e r Hidx He Hr). rewrite Ht. f_equal. apply (in_page_eq t _ x); try done.
  by apply (tw_page _ _ (sw_tree _ _ (uw_space _ _ W)) r).
Qed.

(** [for (size_t i = 0; i < PMM_PAGE_SIZE; i++) memory[i] = 0;] *)
Definition zero_page (m : mem) (f : Z) : mem := memset m f 0 4096.

Lemma zero_page_rd m f x : rd (zero_page m f) x = if bool_decide (in_page f x) then 0 else rd m x.
Proof. unfold zero_page. by rewrite memset_rd. Qed.

Lemma zero_page_ok m f : mem_ok m -> mem_ok (zero_page m f).
Proof. intros Hm. unfold zero_page. generalize 4096%nat. intros n. by apply memset_ok. Qed.

#[global] Opaque zero_page.

Lemma alloc_fresh s root f p m :
  user_wf s root -> pmm_alloc_user_page (pmm s) = (f, p) -> mem_ok m -> (forall x, ~ in_page f x -> rd m x = rd (memory s) x) ->
  (f = PMM_INVALID_ADDRESS /\ p = pmm s /\ free_pages (pmm s) <= PMM_KERNEL_RESERVE_PAGES) \/
  fresh_page s (with_memory (with_pmm s p) m) root f.
Proof.
  intros Hwf E Hm Hrd. pose proof (uw_space _ _ Hwf) as Hsw. unfold pmm_alloc_user_page in E.
  destruct (alloc_page_fresh PMM_KERNEL_RESERVE_PAGES (pmm s) (sw_pmm _ _ Hsw)) as [(Hle & E')|(q & p' & E' & Hq & Hf & W & S & A)];
    [done | |]; rewrite E in E'; injection E' as -> ->; [by left|]. right.
  pose proof (wf_page_count _ (sw_pmm _ _ Hsw)). destruct (page_address q ltac:(lia)) as (Hp & Hd).
  set (f := q * PMM_PAGE_SIZE) in *.
  assert (Hnb : forall x, page_busy (pmm s) x -> ~ in_page f x).
  { intros x Hb Hx. apply (page_busy_byte _ f x Hp Hx) in Hb. unfold page_busy in Hb. rewrite Hd in Hb. by apply Hb. }
  assert (Habs : forall r, 0 <= r < page_count (pmm s) -> abs (pmm s) r <> Free -> abs p' r = abs (pmm s) r).
  { intros r Hr Hne. rewrite A by lia. unfold upd. by rewrite decide_False by congruence. }
  assert (Htree : forall x, tree_byte (memory s) root x -> rd m x = rd (memory s) x).
  { intros x Hx. apply Hrd. by apply Hnb, (tree_byte_busy _ root). }
  split; cbn [pmm memory with_pmm with_memory]; rewrite ?Hd; [done | | | | | done | done | done | done].
  - apply Z.eqb_neq. unfold PMM_INVALID_ADDRESS, UINT64_MAX, f, PMM_PAGE_SIZE. lia.
  - destruct (same_pages_frame s root _ Hwf Hm Htree) as [Sw Ss Sr Sl Su St Sn Sa].
    split; try assumption. apply (space_wf_pmm _ _ p') in Sw; try done. intros r Hr Hne. by rewrite Habs.
  - by destruct (space_wf_frame s root m Hsw Hm Htree) as (_ & ? & _).
  - split_and!; [by rewrite Hd | lia | by rewrite (ss_page_count _ _ S), Hd; lia |]. simpl. rewrite Hd, A by lia.
    unfold upd. by rewrite decide_True.
Qed.

Lemma user_alloc s root f p :
  user_wf s root -> pmm_alloc_user_page (pmm s) = (f, p) ->
  (f = PMM_INVALID_ADDRESS /\ p = pmm s /\ free_pages (pmm s) <= PMM_KERNEL_RESERVE_PAGES) \/
  fresh_page s (with_memory (with_pmm s p) (zero_page (memory s) f)) root f.
Proof.
  intros Hwf E. apply (alloc_fresh s root f p (zero_page (memory s) f) Hwf E).
  - apply zero_page_ok, Hwf.
  - intros x Hx. by rewrite zero_page_rd, bool_decide_false.
Qed.

(** ** Mapping a fresh page *)

Section MapFresh.
Context (s s1 s' : vmm_state) (root f va flags : Z).
Context (Hwf : user_wf s root) (Hf : fresh_page s s1 root f) (Hva : is_u64 va).
Context (HU : has flags VMM_USER = true) (Hcow : has flags VMM_COPY_ON_WRITE = false).

Lemma mf_wf1 : user_wf s1 root.
Proof. by apply (sp_wf s), (fp_same _ _ _ _ Hf). Qed.

Lemma mf_not_user idx e : page_path idx -> user_entry s1 root idx = Some e -> table_physical e <> f.
Proof.
  intros Hidx He Hfe. rewrite (sp_entry s s1 root (fp_same _ _ _ _ Hf)) in He by done.
  apply (fp_out _ _ _ _ Hf f); [|split; [lia | lia]].
  apply (user_busy s root idx e f); try done. rewrite Hfe. split; lia.
Qed.

Lemma mf_step1 : user_step s s1 root.
Proof.
  apply (sp_step s s1 root Hwf (fp_same _ _ _ _ Hf)). intros x (Hb & _). apply (fp_bytes _ _ _ _ Hf).
  by apply (fp_out _ _ _ _ Hf).
Qed.

Context (Hmap : vmm_space_map_page (Some (Space root)) va f flags s1 = (true, s')).

Lemma mf_mapped : space_wf s' root /\ map_refused (Space root) va f flags = false /\ mapped s1 s' (Space root) va f flags.
Proof.
  pose proof (map_page_cases (Space root) va f flags s1 (uw_space _ _ mf_wf1) Hva (proj2 (fp_page _ _ _ _ Hf))) as H.
  unfold vmm_space_map_page in Hmap. rewrite Hmap in H. done.
Qed.

Lemma mf_entry_user : has (leaf_entry f flags) VMM_USER = true.
Proof. rewrite has_USER, leaf_entry_bit by (apply (fp_page _ _ _ _ Hf) || auto). by rewrite <- has_USER. Qed.

Lemma mf_new l e : Some (0, leaf_entry f flags) = Some (l, e) -> has e VMM_USER = true ->
  safe_entry (indices va) l e /\
  path_all (memory s') root (take 3 (indices va)) (fun e => has e VMM_USER = true) /\
  (exists n, used_page (pmm s') (table_physical e) n) /\
  (forall r, path_ok r -> table_at (memory s') root r <> Some (table_physical e)) /\
  (forall idx e', page_path idx -> idx <> indices va -> user_entry s1 root idx = Some e' -> table_physical e' <> table_physical e) /\
  cow_excl e.
Proof.
  intros [= <- <-] _. destruct mf_mapped as (W & Href & M). pose proof (fp_page _ _ _ _ Hf) as Hp.
  pose proof (map_refused_false _ _ _ _ Href) as (Hal & _ & Hc & HWX & Hlow & _). destruct (leaf_entry_spec f flags Hp) as (_ & _ & Hph).
  rewrite Hph. split_and!.
  - intros _. destruct (Hlow HU) as (Hl & _). split_and!; [done | by apply user_half_address |].
    flags. rewrite !leaf_entry_bit by auto. intros [?|?]; [auto | congruence].
  - by apply (mp_path _ _ _ _ _ _ M).
  - exists 1. apply (used_page_same (pmm s1)); [apply (mp_outside _ _ _ _ _ _ M) | apply (mp_abs _ _ _ _ _ _ M) | apply Hf].
  - intros r Hr Ht. pose proof (used_busy _ _ _ (fp_used _ _ _ _ Hf)) as Hb.
    destruct (mp_new _ _ _ _ _ _ M r f Hr Ht) as [Hold|Hfree]; [|done].
    rewrite (fp_tables _ _ _ _ Hf) in Hold by done.
    apply (fp_out _ _ _ _ Hf f); [by apply (sw_busy _ _ (uw_space _ _ Hwf) r) | split; lia].
  - intros idx e' Hidx _ He'. by apply (mf_not_user idx).
  - unfold cow_excl. flags. rewrite !leaf_entry_bit by auto. congruence.
Qed.

Lemma mf_byte_kept x : page_busy (pmm s1) x -> ~ tree_byte (memory s1) root x -> rd (memory s') x = rd (memory s1) x.
Proof. destruct mf_mapped as (_ & _ & M). apply (so_bytes _ _ _ (mp_outside _ _ _ _ _ _ M)). Qed.

Lemma mf_leaf idx : page_path idx -> leaf (memory s') root idx =
  if decide (idx = indices va) then Some (0, leaf_entry f flags) else leaf (memory s1) root idx.
Proof. destruct mf_mapped as (_ & _ & M). apply (mp_leaf _ _ _ _ _ _ M). Qed.

Lemma mf_tables r t t' : path_ok r -> table_at (memory s1) root r = Some t -> table_at (memory s') root r = Some t' -> t' = t.
Proof. destruct mf_mapped as (_ & _ & M). intros Hr Ht Ht'. apply (mp_old _ _ _ _ _ _ M) in Ht; [|done]. simpl in Ht. congruence. Qed.

Lemma mf_used g n : used_page (pmm s1) g n -> used_page (pmm s') g n.
Proof.
  destruct mf_mapped as (_ & _ & M).
  apply used_page_same; [apply (mp_outside _ _ _ _ _ _ M) | apply (mp_abs _ _ _ _ _ _ M)].
Qed.

Lemma mf_wf : user_wf s' root.
Proof.
  destruct mf_mapped as (W & _ & M). apply (uu_wf s1 s' root (indices va) (Some (0, leaf_entry f flags))); try done.
  - apply mf_wf1.
  - apply mf_leaf.
  - apply (mp_user _ _ _ _ _ _ M).
  - apply mf_tables.
  - apply (mp_new _ _ _ _ _ _ M).
  - intros idx e n _ _ _. apply mf_used.
  - apply mf_new.
Qed.

Lemma mf_entry idx : page_path idx -> user_entry s' root idx =
  if decide (idx = indices va) then Some (leaf_entry f flags) else user_entry s root idx.
Proof.
  intros Hidx. rewrite (uu_entry s1 s' root (indices va) (Some (0, leaf_entry f flags)) mf_leaf) by done.
  rewrite mf_entry_user, (sp_entry s s1 root (fp_same _ _ _ _ Hf)) by done. done.
Qed.

Lemma mf_step : user_step s s' root.
Proof.
  destruct mf_mapped as (W & _ & M). pose proof (mp_outside _ _ _ _ _ _ M) as O. destruct mf_step1 as [W1 S1 R1 F1 C1]. split.
  - apply mf_wf.
  - transitivity (pmm s1); [done | apply O].
  - destruct R1 as (<- & <-). split; [apply (so_cr3 _ _ _ O) | apply (so_kernel _ _ _ O)].
  - intros x Hx. destruct (F1 x Hx) as (E1 & Hx1). rewrite <- E1. pose proof Hx as (Hb & _). pose proof Hx1 as (Hb1 & Ht1 & _).
    split; [by apply mf_byte_kept|].
    apply (uu_foreign s1 s' root (indices va) (Some (0, leaf_entry f flags))); try done.
    + apply mf_leaf.
    + apply (mp_new _ _ _ _ _ _ M).
    + intros q Hq _ Hne. by rewrite (mp_abs _ _ _ _ _ _ M).
    + apply O.
    + intros idx e Hidx _ He _ [?|Hu]; [by left|]. right. destruct (uw_used _ _ W1 idx e Hidx He) as (n & Hn).
      by rewrite (used_at_fun _ _ _ _ _ _ Hu (mf_used _ _ Hn)).
    + intros l e [= <- <-] _ Hin _. destruct (leaf_entry_spec f flags (fp_page _ _ _ _ Hf)) as (_ & _ & Hph).
      rewrite Hph in Hin. by apply (fp_out _ _ _ _ Hf x).
  - intros Hc. apply (clean_update s1 s' root (indices va) (Some (0, leaf_entry f flags))); [apply mf_leaf | | by apply C1].
    intros l e [= _ <-]. apply mf_entry_user.
Qed.

Lemma mf_byte a : user_byte s' root a = if decide (indices a = indices va) then Some (rd (memory s1) (f + a mod 4096)) else user_byte s root a.
Proof.
  unfold user_byte. rewrite mf_entry by apply indices_path. case_decide as Hd.
  - destruct (leaf_entry_spec f flags (fp_page _ _ _ _ Hf)) as (Hu & HP & Hph). f_equal. rewrite Hph.
    pose proof (in_page_offset f a) as Hin. rewrite mf_byte_kept; [done | |].
    + apply (page_busy_byte _ f); [apply Hf | done | apply (used_busy _ _ 1), Hf].
    + rewrite (tree_byte_ext (memory s)) by apply (fp_tables _ _ _ _ Hf). intros Ht.
      apply (fp_out _ _ _ _ Hf (f + a mod 4096)); [|done]. by apply (tree_byte_busy _ root), Ht; apply Hwf.
  - destruct (user_entry s root (indices a)) as [e|] eqn:He; [|done]. f_equal.
    pose proof (in_page_offset (table_physical e) a) as Hin. pose proof (indices_path a) as Hp.
    rewrite <- (fp_bytes _ _ _ _ Hf) by (by apply (fp_out _ _ _ _ Hf), (user_busy s root (indices a) e)).
    rewrite <- (sp_entry s s1 root (fp_same _ _ _ _ Hf)) in He by done.
    apply mf_byte_kept; [by apply (user_busy s1 root (indices a) e), Hin; [apply mf_wf1|..] |].
    by apply (user_page_tree s1 root (indices a) e), Hin; [apply mf_wf1|..].
Qed.

End MapFresh.


(** ** A mapping that fails gives the page back *)

Lemma free_used p f n : pmm_wf p -> is_page f -> used_page p f n -> exists p', pmm_free_page f p = (true, p') /\
  pmm_wf p' /\ same_shape p p' /\
  forall q, 0 <= q -> abs p' q = upd (abs p) (f / PMM_PAGE_SIZE) (if n =? 1 then Free else Used (n - 1)) q.
Proof.
  intros Hwf Hp Hu. destruct (free_page_spec p f Hwf) as [(q & n' & p' & Hu' & E & W & S & _ & A)|(Hno & _)].
  - destruct Hp as (_ & ?). unfold PMM_PAGE_SIZE. lia.
  - exists p'. rewrite (used_at_fun _ _ _ _ _ _ Hu Hu'). destruct Hu' as (-> & _). unfold PMM_PAGE_SIZE at 2.
    by rewrite Z.div_mul.
  - by apply Hno in Hu.
Qed.

Section MapFailed.
Context (s s1 s2 : vmm_state) (root f va flags : Z).
Context (Hwf : user_wf s root) (Hf : fresh_page s s1 root f) (Hva : is_u64 va).
Context (Hmap : vmm_space_map_page (Some (Space root)) va f flags s1 = (false, s2)).
Let s' := with_pmm s2 (snd (pmm_free_page f (pmm s2))).

Lemma fl_sim : space_wf s2 root /\ space_sim s1 s2 root.
Proof.
  pose proof (map_page_cases (Space root) va f flags s1 (sp_space _ _ _ (fp_same _ _ _ _ Hf)) Hva (proj2 (fp_page _ _ _ _ Hf))) as H.
  unfold vmm_space_map_page in Hmap. rewrite Hmap in H. done.
Qed.

Lemma fl_pmm : pmm_wf (pmm s') /\ same_shape (pmm s) (pmm s') /\
  forall q, 0 <= q < page_count (pmm s) -> abs (pmm s) q <> Free -> abs (pmm s') q = abs (pmm s) q.
Proof.
  destruct fl_sim as (W2 & [O _ A2]). pose proof (so_shape _ _ _ O) as S2.
  pose proof (sp_shape _ _ _ (fp_same _ _ _ _ Hf)) as S1. pose proof (ss_page_count _ _ S1) as E1. pose proof (ss_page_count _ _ S2) as E2.
  assert (Hu : used_page (pmm s2) f 1).
  { destruct (fp_used _ _ _ _ Hf) as (E & Hr & Hn). split_and!; [done | lia | lia |]. by rewrite A2. }
  destruct (free_used (pmm s2) f 1 (sw_pmm _ _ W2) (fp_page _ _ _ _ Hf) Hu) as (p' & E & W & S & A).
  unfold s'. rewrite E. cbn [snd pmm with_pmm]. split_and!; [done | by transitivity (pmm s1); [|transitivity (pmm s2)] |].
  intros q Hq Hne. rewrite A by lia. unfold upd. assert (q <> f / PMM_PAGE_SIZE) by (intros ->; by apply Hne, Hf).
  rewrite decide_False, A2, (fp_abs _ _ _ _ Hf) by (done || lia). unfold upd. by rewrite decide_False.
Qed.

Lemma fl_kept x : page_busy (pmm s) x -> ~ tree_byte (memory s) root x -> rd (memory s') x = rd (memory s) x.
Proof.
  intros Hb Ht. destruct fl_sim as (W2 & [O _ A2]). unfold s'. cbn [memory with_pmm]. rewrite (so_bytes _ _ _ O).
  - apply (fp_bytes _ _ _ _ Hf). by apply (fp_out _ _ _ _ Hf).
  - apply (busy_more (pmm s)); [apply (sp_shape _ _ _ (fp_same _ _ _ _ Hf)) | | done].
    intros q Hq Hne. by rewrite (sp_abs _ _ _ (fp_same _ _ _ _ Hf)).
  - by rewrite (tree_byte_ext (memory s)) by apply (fp_tables _ _ _ _ Hf).
Qed.

Lemma fl_same : same_pages s s' root.
Proof.
  destruct fl_sim as (W2 & [O T2 A2]). destruct fl_pmm as (Wp & Sp & Ap). pose proof (fp_same _ _ _ _ Hf) as P1.
  assert (HT : forall r, path_ok r -> table_at (memory s') root r = table_at (memory s) root r).
  { intros r Hr. unfold s'. cbn [memory with_pmm]. by rewrite (ts_table _ _ _ T2), (fp_tables _ _ _ _ Hf). }
  split; try done.
  - destruct W2 as [_ W2m W2t _ W2u]. split; try done. intros r t Hr Ht. rewrite HT in Ht by done.
    apply (busy_more (pmm s)); [done | | by apply (sw_busy _ _ (uw_space _ _ Hwf) r)]. intros q Hq Hne. by rewrite Ap.
  - destruct (sp_regs _ _ _ P1) as (<- & <-). split; [apply (so_cr3 _ _ _ O) | apply (so_kernel _ _ _ O)].
  - intros idx Hidx. unfold s'. cbn [memory with_pmm]. by rewrite (tree_sim_leaf _ _ _ _ T2), (sp_leaf _ _ _ P1).
  - apply (user_kept_trans _ (memory s1)); [|apply P1 | by apply tree_sim_user].
    intros r t Hr Ht _. by rewrite (fp_tables _ _ _ _ Hf).
  - intros r t t' Hr Ht Ht'. rewrite HT in Ht' by done. congruence.
  - intros r t Hr Ht. rewrite HT in Ht by done. by left.
Qed.

(** Nothing a process sees changed. *)
Lemma map_failed : user_step s s' root /\
  (forall idx, page_path idx -> user_entry s' root idx = user_entry s root idx) /\
  (forall a, user_byte s' root a = user_byte s root a).
Proof.
  pose proof fl_same as Hs. split_and!.
  - apply (sp_step s s' root Hwf Hs). intros x (Hb & Ht & _). by apply fl_kept.
  - apply (sp_entry s s' root Hs).
  - intros a. apply (sp_byte s s' root Hs). intros e He. pose proof (in_page_offset (table_physical e) a) as Hin.
    apply fl_kept; [by apply (user_busy s root (indices a) e), Hin; [|apply indices_path|] |].
    by apply (user_page_tree s root (indices a) e), Hin; [|apply indices_path|].
Qed.

End MapFailed.


(** ** Resolving a copy-on-write fault *)

Section Resolve.
Context (s s' : vmm_state) (root va old new : Z).
Context (Hwf : user_wf s root) (Hwf' : space_wf s' root) (R : resolved s s' (Space root) va old new).
Let i0 := indices va.

Lemma rv_i0 : page_path i0.
Proof. apply indices_path. Qed.

Lemma rv_old : user_entry s root i0 = Some old /\ is_cow old /\ is_u64 old.
Proof.
  destruct (rs_old _ _ _ _ _ _ R) as (Hl & Hc). pose proof Hc as (_ & HU & _). unfold user_entry. fold i0 in Hl.
  cbn [pml4_physical] in Hl. rewrite Hl, HU. split_and!; try done. destruct (leaf_u64 (memory s) root i0 0 old) as (? & _); [apply Hwf | done | done].
Qed.

Lemma rv_new : is_page (table_physical new) /\ has new VMM_WRITABLE = true /\ has new VMM_COPY_ON_WRITE = false /\
  has new VMM_USER = true /\ has new VMM_NO_EXECUTE = has old VMM_NO_EXECUTE.
Proof.
  destruct rv_old as (_ & (_ & HU & _) & Hu).
  assert (Hl : leaf (memory s') root i0 = Some (0, new)).
  { rewrite (rs_leaf _ _ _ _ _ _ R) by apply rv_i0. by rewrite decide_True. }
  destruct (leaf_u64 (memory s') root i0 0 new) as (Hu' & _); [apply Hwf' | done |].
  pose proof (table_physical_page new Hu') as Hp. split; [done|]. rewrite (rs_new _ _ _ _ _ _ R).
  destruct (cow_entry_spec (table_physical new) old Hp Hu) as (_ & _ & A & B & _ & C & D). by rewrite C.
Qed.

(** The frame: the one referenced once, or a free one. *)
Lemma rv_pages :
  same_shape (pmm s) (pmm s') /\ used_page (pmm s') (table_physical new) 1 /\
  (forall q, 0 <= q < page_count (pmm s) -> q <> table_physical old / PMM_PAGE_SIZE -> abs (pmm s) q <> Free -> abs (pmm s') q = abs (pmm s) q) /\
  (forall q, 0 <= q < page_count (pmm s) -> abs (pmm s) q <> Free -> abs (pmm s') q <> Free) /\
  ((table_physical new = table_physical old /\ used_page (pmm s) (table_physical old) 1) \/
   ~ page_busy (pmm s) (table_physical new)).
Proof.
  destruct (rs_pages _ _ _ _ _ _ R) as (n & Hn & H). destruct (Z.eqb_spec n 1) as [->|Hn1].
  - destruct H as (E & ->). rewrite E. split_and!; try done. by left.
  - destruct H as (q & E & Hq & Hf & S & A). rewrite E. destruct Hn as (Ho & Hor & Hn).
    assert (Hd : q * PMM_PAGE_SIZE / PMM_PAGE_SIZE = q) by (by apply Z.div_mul).
    assert (Hne : q <> table_physical old / PMM_PAGE_SIZE) by congruence. split_and!; [done | | | |].
    + split_and!; rewrite ?Hd; [done | lia | rewrite (ss_page_count _ _ S); lia |]. rewrite A by lia. unfold upd.
      by rewrite decide_False, decide_True.
    + intros r Hr Hro Hrf. rewrite A by lia. unfold upd. rewrite !decide_False; congruence.
    + intros r Hr Hrf. rewrite A by lia. unfold upd. by repeat case_decide.
    + right. unfold page_busy. rewrite Hd. auto.
Qed.

Lemma rv_other idx e : page_path idx -> idx <> i0 -> user_entry s root idx = Some e ->
  table_physical e <> table_physical old /\ table_physical e <> table_physical new.
Proof.
  intros Hidx Hne He. destruct rv_old as (Ho & _). assert (Hd : table_physical e <> table_physical old).
  { intros Hf. by apply Hne, (uw_inj _ _ Hwf idx i0 e old Hidx rv_i0). }
  split; [done|]. destruct rv_pages as (_ & _ & _ & _ & [(-> & _)|Hf]); [done|]. intros E. apply Hf. rewrite <- E.
  destruct (uw_used _ _ Hwf idx e Hidx He) as (n & Hn). by apply (used_busy _ _ n).
Qed.

Lemma rv_used idx e n : page_path idx -> idx <> i0 -> user_entry s root idx = Some e ->
  used_page (pmm s) (table_physical e) n -> used_page (pmm s') (table_physical e) n.
Proof.
  intros Hidx Hne He (E & Hr & Hn). destruct rv_pages as (S & _ & A & _). split_and!; [done | lia | rewrite (ss_page_count _ _ S); lia |].
  rewrite A; [done | done | | congruence]. destruct (rv_other idx e Hidx Hne He) as (Hd & _). intros Hq. apply Hd.
  apply page_index_inj; [| |done]; [by apply (user_entry_u64 s root idx e) | apply (user_entry_u64 s root i0 old Hwf rv_i0), rv_old].
Qed.

Lemma rv_entry idx : page_path idx -> user_entry s' root idx = if decide (idx = i0) then Some new else user_entry s root idx.
Proof.
  intros Hidx. destruct rv_new as (_ & _ & _ & HU & _).
  rewrite (uu_entry s s' root i0 (Some (0, new)) (rs_leaf _ _ _ _ _ _ R)) by done. by rewrite HU.
Qed.

Lemma rv_tables r t t' : path_ok r -> table_at (memory s) root r = Some t -> table_at (memory s') root r = Some t' -> t' = t.
Proof. intros Hr Ht Ht'. rewrite (rs_tables _ _ _ _ _ _ R) in Ht' by done. cbn [pml4_physical] in Ht'. congruence. Qed.

Lemma rv_newtab r t : path_ok r -> table_at (memory s') root r = Some t -> table_at (memory s) root r = Some t \/ ~ page_busy (pmm s) t.
Proof. intros Hr Ht. rewrite (rs_tables _ _ _ _ _ _ R) in Ht by done. by left. Qed.

Lemma rv_wf : user_wf s' root.
Proof.
  destruct rv_old as (Ho & Hc & _), rv_new as (_ & HW & HC & HU & HN), rv_pages as (S & Hu1 & A & B & Hfr). pose proof rv_i0 as Hi0.
  apply (uu_wf s s' root i0 (Some (0, new))); try done.
  - apply (rs_leaf _ _ _ _ _ _ R).
  - apply (rs_user _ _ _ _ _ _ R).
  - apply rv_tables.
  - apply rv_newtab.
  - apply rv_used.
  - intros l e [= <- <-] _. pose proof Ho as Hl. apply user_entry_leaf in Hl as (Hl & HUo); [|done | done]. split_and!.
    + intros _. destruct (uw_safe _ _ Hwf _ _ _ Hi0 Hl HUo) as (_ & Hh & HX). destruct Hc as (_ & _ & HCo & _).
      split_and!; [done | done |]. intros _. rewrite HN. auto.
    + apply (user_kept_path (memory s)); [apply (rs_user _ _ _ _ _ _ R) | apply rv_tables | by apply page_path_take | | |].
      * by apply (leaf_last_table _ _ _ old).
      * apply (leaf_last_table _ _ _ new); [done|]. rewrite (rs_leaf _ _ _ _ _ _ R) by done. by rewrite decide_True.
      * by apply (uw_path _ _ Hwf _ old).
    + by exists 1.
    + intros r Hr Ht. destruct (rv_newtab r _ Hr Ht) as [Hold|Hf].
      * destruct Hfr as [(E & _)|Hf]; [rewrite E in Hold; by apply (uw_data _ _ Hwf i0 old r)|].
        apply Hf. by apply (sw_busy _ _ (uw_space _ _ Hwf) r).
      * rewrite (rs_tables _ _ _ _ _ _ R) in Ht by done. apply Hf. by apply (sw_busy _ _ (uw_space _ _ Hwf) r).
    + intros idx e' Hidx Hne He'. by apply rv_other with (idx := idx).
    + unfold cow_excl. congruence.
Qed.

Lemma rv_kept idx e x : page_path idx -> user_entry s root idx = Some e -> in_page (table_physical e) x ->
  rd (memory s') x = rd (memory s) x.
Proof.
  intros Hidx He Hx. apply (rs_bytes _ _ _ _ _ _ R); [by apply (user_busy s root idx e) | by apply (user_page_tree s root idx e)].
Qed.

Lemma rv_byte a : user_byte s' root a = user_byte s root a.
Proof.
  unfold user_byte. rewrite rv_entry by apply indices_path. case_decide as Hd.
  - destruct rv_old as (Ho & _). rewrite Hd, Ho. f_equal. apply (rs_content _ _ _ _ _ _ R).
    + intros r t Hr Ht ->. by apply (uw_data _ _ Hwf i0 old r rv_i0 Ho Hr).
    + apply Z.mod_pos_bound. lia.
  - destruct (user_entry s root (indices a)) as [e|] eqn:He; [|done]. f_equal.
    apply (rv_kept (indices a) e); [apply indices_path | done | apply in_page_offset].
Qed.

Lemma rv_step : user_step s s' root.
Proof.
  destruct rv_pages as (S & Hu1 & A & B & Hfr). destruct rv_old as (Ho & _). split; [apply rv_wf | done | apply (rs_regs _ _ _ _ _ _ R) | |].
  2: { apply (clean_update s s' root i0 (Some (0, new))); [apply R|]. intros l e [= _ <-]. apply rv_new. }
  intros x Hx. pose proof Hx as (Hb & Ht & Ho'). split; [by apply (rs_bytes _ _ _ _ _ _ R)|].
  apply (uu_foreign s s' root i0 (Some (0, new))); try done.
  - apply (rs_leaf _ _ _ _ _ _ R).
  - apply rv_newtab.
  - intros q Hq _. by apply B.
  - intros idx e Hidx Hne He _ [?|Hu]; [by left|]. right. destruct (uw_used _ _ Hwf idx e Hidx He) as (n & Hn).
    by rewrite (used_at_fun _ _ _ _ _ _ Hu (rv_used idx e n Hidx Hne He Hn)).
  - intros l e [= <- <-] _ Hin _. destruct Hfr as [(E & Hu)|Hf].
    + rewrite E in Hin. apply (Ho' i0 old rv_i0 Ho Hin). by right.
    + apply Hf, (page_busy_byte _ _ x); [apply rv_new | done | done].
Qed.

End Resolve.


(** ** Unmapping a user page and releasing its frame *)

Section Unmap.
Context (s s1 : vmm_state) (root va pa : Z).
Context (Hwf : user_wf s root) (Hwf1 : space_wf s1 root) (U : unmapped s s1 (Space root) va pa).
Context (Hclean : forall l e, leaf (memory s) root (indices va) = Some (l, e) -> has e VMM_USER = true).
Let i0 := indices va.
Let s' := with_pmm s1 (snd (pmm_free_page pa (pmm s1))).

Lemma un_old : exists e, user_entry s root i0 = Some e /\ pa = table_physical e /\ is_page pa.
Proof.
  destruct (um_entry _ _ _ _ _ U) as (e & Hl & ->). exists e. pose proof (Hclean 0 e Hl) as HU.
  assert (He : user_entry s root i0 = Some e) by (apply (user_entry_leaf s root); [done | apply indices_path | done]).
  split_and!; try done; by apply (user_entry_u64 s root i0 e Hwf (indices_path va)).
Qed.

Lemma un_free_table r t : path_ok r -> table_at (memory s) root r = Some t -> t / PMM_PAGE_SIZE <> pa / PMM_PAGE_SIZE.
Proof.
  intros Hr Ht E. destruct un_old as (e & He & Hpa & Hp). apply (uw_data _ _ Hwf i0 e r (indices_path va) He Hr). rewrite Ht, <- Hpa. f_equal.
  apply page_index_inj; try done. by apply (tw_page _ _ (sw_tree _ _ (uw_space _ _ Hwf)) r).
Qed.

(** The frame loses one reference; other frames that are no tables keep theirs. *)
Lemma un_pages : exists n, used_page (pmm s) pa n /\ pmm_wf (pmm s') /\ same_shape (pmm s) (pmm s') /\
  (forall q, 0 <= q < page_count (pmm s) -> abs (pmm s') q =
     if decide (q = pa / PMM_PAGE_SIZE) then (if n =? 1 then Free else Used (n - 1)) else abs (pmm s1) q) /\
  forall q, 0 <= q < page_count (pmm s) ->
    (forall r t, path_ok r -> table_at (memory s) root r = Some t -> t / PMM_PAGE_SIZE <> q) -> abs (pmm s1) q = abs (pmm s) q.
Proof.
  destruct un_old as (e & He & Hpa & Hp). destruct (uw_used _ _ Hwf i0 e (indices_path va) He) as (n & Hn). rewrite <- Hpa in Hn.
  pose proof (um_shape _ _ _ _ _ U) as S. pose proof (um_abs _ _ _ _ _ U) as A. cbn [pml4_physical] in A.
  assert (Hn1 : used_page (pmm s1) pa n).
  { destruct Hn as (E & Hr & Hn). split_and!; [done | lia | rewrite (ss_page_count _ _ S); lia |]. rewrite A; [done | done |]. apply un_free_table. }
  destruct (free_used (pmm s1) pa n (sw_pmm _ _ Hwf1) Hp Hn1) as (p' & E & W & S' & A').
  exists n. unfold s'. rewrite E. cbn [snd pmm with_pmm]. split_and!; [done | done | by transitivity (pmm s1) | |done].
  intros q Hq. rewrite A' by lia. unfold upd. done.
Qed.

Lemma un_used idx e n : page_path idx -> idx <> i0 -> user_entry s root idx = Some e ->
  used_page (pmm s) (table_physical e) n -> used_page (pmm s') (table_physical e) n.
Proof.
  intros Hidx Hne He (E & Hr & Hn). destruct un_old as (e0 & He0 & Hpa & Hp). destruct un_pages as (n0 & _ & _ & S & A & A1).
  pose proof (user_entry_u64 s root idx e Hwf Hidx He) as (_ & _ & Hpe).
  split_and!; [done | lia | rewrite (ss_page_count _ _ S); lia |]. rewrite A, decide_False, A1; try done.
  - intros r t Hrp Ht Eq. apply (uw_data _ _ Hwf idx e r Hidx He Hrp). rewrite Ht. f_equal. apply page_index_inj; try done.
    by apply (tw_page _ _ (sw_tree _ _ (uw_space _ _ Hwf)) r).
  - intros Eq. apply Hne. apply (uw_inj _ _ Hwf idx i0 e e0 Hidx (indices_path va) He He0). rewrite <- Hpa. by apply page_index_inj.
Qed.

Lemma un_space : space_wf s' root.
Proof.
  destruct un_pages as (n & _ & W & S & A & _). destruct Hwf1 as [_ Wm Wt Wb Wu]. split; try done.
  intros r t Hr Ht. specialize (Wb r t Hr Ht). pose proof (um_table _ _ _ _ _ U r t Hr Ht) as Hts. cbn [pml4_physical] in Hts.
  unfold page_busy in *. rewrite (ss_page_count _ _ S). rewrite (ss_page_count _ _ (um_shape _ _ _ _ _ U)) in Wb. intros Hx.
  rewrite A by done. rewrite decide_False; [by apply Wb|]. by apply (un_free_table r).
Qed.

Lemma un_leaf idx : page_path idx -> leaf (memory s') root idx = if decide (idx = i0) then None else leaf (memory s) root idx.
Proof. apply (um_leaf _ _ _ _ _ U). Qed.

Lemma un_tab r t t' : path_ok r -> table_at (memory s) root r = Some t -> table_at (memory s') root r = Some t' -> t' = t.
Proof. intros Hr Ht Ht'. pose proof (um_table _ _ _ _ _ U r t' Hr Ht') as H. cbn [pml4_physical] in H. congruence. Qed.

Lemma un_newtab r t : path_ok r -> table_at (memory s') root r = Some t -> table_at (memory s) root r = Some t \/ ~ page_busy (pmm s) t.
Proof. intros Hr Ht. left. by apply (um_table _ _ _ _ _ U). Qed.

Lemma un_wf : user_wf s' root.
Proof.
  apply (uu_wf s s' root i0 None); try done.
  - apply un_space.
  - apply un_leaf.
  - apply (um_user _ _ _ _ _ U).
  - apply un_tab.
  - apply un_newtab.
  - apply un_used.
Qed.

Lemma un_user_entry idx : page_path idx -> user_entry s' root idx = if decide (idx = i0) then None else user_entry s root idx.
Proof. intros Hidx. by rewrite (uu_entry s s' root i0 None un_leaf) by done. Qed.

Lemma un_byte a : user_byte s' root a = if decide (indices a = i0) then None else user_byte s root a.
Proof.
  unfold user_byte. rewrite un_user_entry by apply indices_path. case_decide; [done|].
  destruct (user_entry s root (indices a)) as [e|] eqn:He; [|done]. f_equal. apply (um_bytes _ _ _ _ _ U).
  apply (user_page_tree s root (indices a) e); [done | apply indices_path | done | apply in_page_offset].
Qed.

Lemma un_step : user_step s s' root.
Proof.
  destruct un_pages as (n & Hn & W & S & A & A1). destruct un_old as (e0 & He0 & Hpa & Hp).
  split; [apply un_wf | done | apply (um_regs _ _ _ _ _ U) | |by apply (clean_update s s' root i0 None); [apply un_leaf|]]. intros x Hx. pose proof Hx as (Hb & Ht & Ho).
  split; [by apply (um_bytes _ _ _ _ _ U)|]. apply (uu_foreign s s' root i0 None); try done.
  - apply un_space.
  - apply un_leaf.
  - apply un_newtab.
  - intros q Hq -> Hne. rewrite A by done. case_decide as E.
    + destruct (Z.eqb_spec n 1) as [->|]; [|done]. exfalso. apply (Ho i0 e0 (indices_path va) He0); [|right; by rewrite <- Hpa].
      rewrite <- Hpa. unfold in_page. destruct Hp as (Hal & _). unfold PMM_PAGE_SIZE in E. change (2 ^ 12) with 4096 in Hal.
      pose proof (Z.div_mod x 4096). pose proof (Z.div_mod pa 4096). pose proof (Z.mod_pos_bound x 4096). lia.
    + rewrite A1; [done | done |]. intros r t Hr Htr E'. apply Ht. exists r, t. split_and!; try done;
        pose proof (tw_page _ _ (sw_tree _ _ (uw_space _ _ Hwf)) r t Hr Htr) as (Hal & _); unfold PMM_PAGE_SIZE in E';
        change (2 ^ 12) with 4096 in Hal; pose proof (Z.div_mod x 4096); pose proof (Z.div_mod t 4096); pose proof (Z.mod_pos_bound x 4096); lia.
  - intros idx e Hidx Hne He _ [?|Hu]; [by left|]. right. destruct (uw_used _ _ Hwf idx e Hidx He) as (k & Hk).
    by rewrite (used_at_fun _ _ _ _ _ _ Hu (un_used idx e k Hidx Hne He Hk)).
Qed.

End Unmap.

(** ** Writing a run of bytes of one page *)

Lemma indices_page a b : a / 4096 = b / 4096 -> indices a = indices b.
Proof.
  intros E. unfold indices. rewrite !index_div by done.
  assert (H : forall x k, 0 <= k -> x / 2 ^ (12 + k) = x / 4096 / 2 ^ k).
  { intros x k Hk. rewrite Z.div_div by lia. by rewrite Z.pow_add_r. }
  change 39 with (12 + 27). change 30 with (12 + 18). change 21 with (12 + 9).
  rewrite !H by done. change (2 ^ 12) with 4096. by rewrite E.
Qed.

Lemma page_start a : 0 <= a < 2 ^ 47 -> let p := a - a mod 4096 in
  0 <= p < 2 ^ 47 /\ p mod 2 ^ 12 = 0 /\ indices p = indices a /\ p / 4096 = a / 4096.
Proof.
  intros Ha p. pose proof (Z.mod_pos_bound a 4096). pose proof (Z.div_mod a 4096).
  assert (Hp : p = a / 4096 * 4096) by (unfold p; lia). assert (Hd : p / 4096 = a / 4096) by (rewrite Hp; by apply Z.div_mul).
  assert (0 <= a / 4096) by (apply Z.div_pos; lia).
  split_and!; [lia | lia | rewrite Hp; apply Z_mod_mult | by apply indices_page | done].
Qed.

Lemma indices_low a b : 0 <= a < 2 ^ 47 -> 0 <= b < 2 ^ 47 -> indices a = indices b <-> a / 4096 = b / 4096.
Proof.
  intros Ha Hb. split; [|apply indices_page]. intros E.
  destruct (page_start a Ha) as (Ha' & Ha0 & Hia & <-), (page_start b Hb) as (Hb' & Hb0 & Hib & <-).
  destruct (low_address _ Ha'), (low_address _ Hb'). f_equal. apply indices_inj; try done. congruence.
Qed.

(** [g] gives the bytes written at [a, a + len), inside one page. *)
Definition writes_page (s : vmm_state) (a e len : Z) (g : Z -> Z) (m : mem) : Prop :=
  forall x, let p := table_physical e + a mod 4096 in
    rd m x = if bool_decide (p <= x < p + len) then g (x - p) else rd (memory s) x.

Lemma writes_page_out s a e len g m x :
  a mod 4096 + len <= 4096 -> writes_page s a e len g m -> ~ in_page (table_physical e) x -> rd m x = rd (memory s) x.
Proof.
  intros Hlen Hrd Hx. unfold writes_page in Hrd. cbv zeta in Hrd. rewrite Hrd, bool_decide_false; [done|]. unfold in_page in Hx.
  pose proof (Z.mod_pos_bound a 4096). lia.
Qed.

Lemma write_bytes s root a e len g m b :
  user_wf s root -> 0 <= a < 2 ^ 47 -> user_entry s root (indices a) = Some e -> mem_ok m -> a mod 4096 + len <= 4096 ->
  writes_page s a e len g m -> 0 <= b < 2 ^ 47 ->
  user_byte (with_memory s m) root b = if bool_decide (a <= b < a + len) then Some (g (b - a)) else user_byte s root b.
Proof.
  intros Hwf Ha He Hm Hlen Hw Hb. pose proof (indices_path a) as Hp. pose proof (Z.mod_pos_bound a 4096).
  pose proof (fun x => writes_page_out s a e len g m x Hlen Hw) as Hout.
  pose proof (Z.div_mod a 4096). pose proof (Z.div_mod b 4096). pose proof (Z.mod_pos_bound b 4096).
  destruct (decide (indices b = indices a)) as [E|E].
  - unfold user_byte. rewrite (sp_entry s (with_memory s m) root), E, He by (apply indices_path || by apply (poke_pages s root (indices a) e)).
    cbn [memory with_memory]. unfold writes_page in Hw. cbv zeta in Hw. rewrite Hw. apply indices_low in E; [|done | done].
    replace (table_physical e + b mod 4096 - (table_physical e + a mod 4096)) with (b - a) by lia.
    repeat case_bool_decide; (done || lia).
  - rewrite (poke_bytes s root (indices a) e) by done. rewrite bool_decide_false; [done|]. intros Hin. apply E, indices_page.
    symmetry. apply (Z.div_unique b 4096 (a / 4096) (b - a + a mod 4096)); lia.
Qed.

Lemma user_write s root a e len g m :
  user_wf s root -> 0 <= a < 2 ^ 47 -> user_entry s root (indices a) = Some e -> owns s e -> mem_ok m ->
  a mod 4096 + len <= 4096 -> writes_page s a e len g m ->
  user_step s (with_memory s m) root /\
  (forall idx, page_path idx -> user_entry (with_memory s m) root idx = user_entry s root idx) /\
  (forall b, 0 <= b < 2 ^ 47 -> user_byte (with_memory s m) root b = if bool_decide (a <= b < a + len) then Some (g (b - a)) else user_byte s root b).
Proof.
  intros Hwf Ha He Ho Hm Hlen Hw. pose proof (indices_path a) as Hp. pose proof (fun x => writes_page_out s a e len g m x Hlen Hw) as Hout.
  split_and!.
  - by apply (poke_step s root (indices a) e).
  - apply sp_entry. by apply (poke_pages s root (indices a) e).
  - intros b Hb. by apply (write_bytes s root a e).
Qed.

(** ** Addresses of a clean lower half *)

Lemma low_half a : 0 <= a < 2 ^ 47 -> user_half (indices a).
Proof. intros Ha. destruct (low_address a Ha). apply user_half_address; try done. change 0x0000800000000000 with (2 ^ 47). lia. Qed.

(** In a clean lower half an address is translated exactly on user pages. *)
Lemma translate_clean s root a : user_wf s root -> low_clean s root -> 0 <= a < 2 ^ 47 ->
  vmm_space_translate (Some (Space root)) a s =
    match user_entry s root (indices a) with Some e => table_physical e + a mod 4096 | None => PMM_INVALID_ADDRESS end.
Proof.
  intros Hwf Hc Ha. unfold vmm_space_translate. destruct (user_entry s root (indices a)) as [e|] eqn:He.
  - by rewrite (query_user s root a e).
  - destruct (vmm_space_query (Some (Space root)) a s) as [[pa fl]|] eqn:Hq; [|done]. exfalso.
    unfold vmm_space_query in Hq. destruct (address_is_canonical a); [|done]. cbn [negb pml4_physical] in Hq.
    apply query_walk_leaf in Hq as (l & e & Hl & _); [|done..]. unfold user_entry in He. rewrite Hl in He.
    by rewrite (Hc _ l e (indices_path a) (low_half a Ha) Hl) in He.
Qed.

Lemma translate_valid s root a e : user_wf s root -> user_entry s root (indices a) = Some e ->
  (table_physical e + a mod 4096 =? PMM_INVALID_ADDRESS) = false.
Proof.
  intros Hwf He. pose proof (user_entry_u64 s root _ e Hwf (indices_path _) He) as (_ & _ & Hp & Hr).
  pose proof (Z.mod_pos_bound a 4096). apply Z.eqb_neq. unfold PMM_INVALID_ADDRESS, UINT64_MAX. lia.
Qed.

(** ** A space that maps nothing *)

Lemma empty_user_wf p root c k tl : pmm_wf p -> is_page root -> page_busy p root -> user_wf (mk_vmm p ∅ c k tl) root.
Proof.
  intros Hp Hr Hb. assert (Hl : forall idx, leaf ∅ root idx = None).
  { intros [|i idx]; [done|]. cbn [leaf]. by rewrite entry_empty. }
  assert (Hn : forall idx e, user_entry (mk_vmm p ∅ c k tl) root idx <> Some e) by (intros idx e; unfold user_entry; cbn [memory]; by rewrite Hl).
  split; try (intros idx e; intros; by destruct (Hn idx e)).
  - split; cbn [pmm memory]; [done | apply empty_ok | | |].
    + split; [intros r t _ H; by apply table_at_empty in H as (_ & ->)|].
      intros r r' t _ _ H1 H2. apply table_at_empty in H1 as (-> & _), H2 as (-> & _). done.
    + intros r t _ H. by apply table_at_empty in H as (_ & ->).
    + intros r t i _ _ _ _. rewrite entry_empty. by intros (? & ?).
  - intros idx l e _ H. cbn [memory] in H. by rewrite Hl in H.
  - intros idx idx' e e' _ _ He. by apply Hn in He.
Qed.

(** ** A space with one writable page *)

Lemma mapped_used s s' sp va pa flags g n : mapped s s' sp va pa flags -> used_page (pmm s) g n -> used_page (pmm s') g n.
Proof. intros M. apply used_page_same; [apply (mp_outside _ _ _ _ _ _ M) | apply (mp_abs _ _ _ _ _ _ M)]. Qed.

Lemma mapped_cr3 s s' sp va pa flags : mapped s s' sp va pa flags -> cr3 s' = cr3 s.
Proof. intros M. apply (so_cr3 _ _ _ (mp_outside _ _ _ _ _ _ M)). Qed.

Lemma sample_frame : used_page (pmm fork_empty) 0x13000 1 /\ page_busy (pmm fork_empty) 0x13000.
Proof. split; [|intros _]; by vm_compute. Qed.

#[local] Opaque fork_mapped fork_pmm.

Lemma sample_leaves idx : page_path idx -> leaf (memory fork_mapped) 0x12000 idx =
  if decide (idx = indices 0x400000) then Some (0, leaf_entry 0x13000 fork_flags) else None.
Proof.
  intros Hidx. destruct fork_map as (_ & M). pose proof (mp_leaf _ _ _ _ _ _ M idx Hidx) as H. cbn [pml4_physical] in H. rewrite H.
  destruct (decide (idx = indices 0x400000)); [reflexivity|].
  destruct idx as [|i idx]; [reflexivity|]. change (memory fork_empty) with (∅ : mem). cbn [leaf]. by rewrite entry_empty.
Qed.

Lemma sample_cr3 : cr3 fork_mapped = 0x12000.
Proof. destruct fork_map as (_ & M). rewrite (mapped_cr3 _ _ _ _ _ _ M). reflexivity. Qed.

Lemma sample_used : used_page (pmm fork_mapped) 0x13000 1.
Proof. destruct fork_map as (_ & M). exact (mapped_used _ _ _ _ _ _ _ _ M (proj1 sample_frame)). Qed.

Lemma sample_user_entry idx e : page_path idx -> user_entry fork_mapped 0x12000 idx = Some e ->
  idx = indices 0x400000 /\ e = leaf_entry 0x13000 fork_flags.
Proof. intros Hidx. unfold user_entry. rewrite sample_leaves by exact Hidx. case_decide; [|by intros]. intros HE. by injection HE as <-. Qed.

Lemma sample_user_wf : user_wf fork_mapped 0x12000.
Proof.
  destruct fork_map as (W & M). assert (Hp : is_page 0x13000) by (split; [reflexivity | lia]).
  destruct (leaf_entry_spec 0x13000 fork_flags Hp) as (_ & _ & Hph). split.
  - exact W.
  - intros idx l e Hidx He _. rewrite sample_leaves in He by exact Hidx. case_decide as Hd; [|discriminate].
    injection He as <- <-. rewrite Hd. split_and!; [reflexivity | by vm_compute | intros _; by vm_compute].
  - intros idx e Hidx He. apply sample_user_entry in He as (-> & _); [|exact Hidx]. by apply (mp_path _ _ _ _ _ _ M).
  - intros idx e Hidx He. apply sample_user_entry in He as (_ & ->); [|exact Hidx]. rewrite Hph. exists 1. apply sample_used.
  - intros idx e r Hidx He Hr Ht. apply sample_user_entry in He as (_ & ->); [|exact Hidx]. rewrite Hph in Ht.
    destruct (mp_new _ _ _ _ _ _ M r 0x13000 Hr Ht) as [Hold|Hfree].
    + by apply table_at_empty in Hold as (_ & ?).
    + apply Hfree, sample_frame.
  - intros idx idx' e e' Hi Hi' He He' _. apply sample_user_entry in He as (-> & _), He' as (-> & _); [reflexivity | exact Hi' | exact Hi].
  - intros idx e Hidx He. apply sample_user_entry in He as (_ & ->); [|exact Hidx]. by vm_compute.
Qed.


End UserMem.
