(* ===== verification/Usercopy.v ===== *)
(** * Usercopy: copies between the kernel and user memory

    src/mm/usercopy.c: the range checks and the chunked copies that system
    calls use for every buffer a process names.  A kernel buffer is the list of
    its bytes, [None] for a null pointer.  The loops go page by page; their
    fuel is the number of pages a range of the size can touch, plus one for
    the last test. *)

From S2P Require Import Prelude Memory Pmm PageTable Vmm VmmSafety VmmFork UserMem.
Import Memory.Memory Pmm.Pmm PageTable.PageTable Vmm.Vmm VmmSafety.VmmSafety VmmFork.VmmFork UserMem.UserMem.

Module Usercopy.

Definition USER_ADDRESS_LIMIT : Z := 0x0000800000000000.

Definition user_range_valid (address size : Z) : bool :=
  (address <? USER_ADDRESS_LIMIT) && (size <=? USER_ADDRESS_LIMIT -! address).

(** The space of the page table root in cr3. *)
Definition current (s : vmm_state) : space := Space (cr3 s &! 0x000FFFFFFFFFF000).

Definition page_fuel (size : Z) : nat := (Z.to_nat (size / PMM_PAGE_SIZE) + 3)%nat.

(** The loop over the pages of [user_range_accessible]. *)
Fixpoint pages_accessible (fuel : nat) (page end_ : Z) (writable : bool) (s : vmm_state) : bool :=
  match fuel with
  | O => false
  | S fuel =>
      if negb (page <? end_) then true
      else
        match vmm_space_query (Some (current s)) page s with
        | None => false
        | Some (_, flags) =>
            if negb (has flags VMM_USER) || (writable && negb (has flags (VMM_WRITABLE |! VMM_COPY_ON_WRITE))) then false
            else pages_accessible fuel (page +! PMM_PAGE_SIZE) end_ writable s
        end
  end.

Definition user_range_accessible (address size : Z) (writable : bool) (s : vmm_state) : bool :=
  if negb (user_range_valid address size) then false
  else if size =? 0 then true
  else pages_accessible (page_fuel size) (address &! not64 (PMM_PAGE_SIZE - 1)) (address +! size) writable s.

(** The copy of one chunk, in either direction. *)
Definition copy_chunk (write_to_user : bool) (physical copied chunk : Z) (buffers : list Z * mem) : list Z * mem :=
  for_up (trips 0 chunk) 0 (fun i '(kernel, m) =>
    if write_to_user then (kernel, wr m (physical + i) (aget 0 kernel (copied + i)))
    else (aset kernel (copied + i) (rd m (physical + i)), m)) buffers.

(** The page a chunk goes to: copy-on-write is resolved before a write. *)
Definition chunk_page (write_to_user : bool) (address : Z) (s : vmm_state) : option (Z * Z) * vmm_state :=
  match vmm_space_query (Some (current s)) address s with
  | None => (None, s)
  | Some (physical, flags) =>
      if write_to_user && has flags VMM_COPY_ON_WRITE then
        let '(resolved, s) := vmm_space_resolve_cow (Some (current s)) address s in
        if resolved <=? 0 then (None, s) else (vmm_space_query (Some (current s)) address s, s)
      else (Some (physical, flags), s)
  end.

Fixpoint copy_user_loop (fuel : nat) (kernel : list Z) (user_address size copied : Z) (write_to_user : bool)
    (s : vmm_state) : bool * list Z * vmm_state :=
  match fuel with
  | O => (false, kernel, s)
  | S fuel =>
      if negb (copied <? size) then (true, kernel, s)
      else
        let address := user_address +! copied in
        match chunk_page write_to_user address s with
        | (None, s) => (false, kernel, s)
        | (Some (physical, flags), s) =>
            if negb (has flags VMM_USER) || (write_to_user && negb (has flags VMM_WRITABLE)) then (false, kernel, s)
            else
              let chunk := PMM_PAGE_SIZE -! (address &! (PMM_PAGE_SIZE - 1)) in
              let chunk := if size -! copied <? chunk then size -! copied else chunk in
              let '(kernel, m) := copy_chunk write_to_user physical copied chunk (kernel, memory s) in
              copy_user_loop fuel kernel user_address size (copied +! chunk) write_to_user (with_memory s m)
        end
  end.

Definition copy_user (kernel_buffer : option (list Z)) (user_address size : Z) (write_to_user : bool)
    (s : vmm_state) : bool * option (list Z) * vmm_state :=
  if size =? 0 then (true, kernel_buffer, s)
  else
    match kernel_buffer with
    | None => (false, None, s)
    | Some kernel =>
        if negb (user_range_valid user_address size) then (false, Some kernel, s)
        else
          let '(ok, kernel, s) := copy_user_loop (page_fuel size) kernel user_address size 0 write_to_user s in
          (ok, Some kernel, s)
    end.

Definition copy_from_user (destination : option (list Z)) (source size : Z) (s : vmm_state) :
    bool * option (list Z) * vmm_state :=
  copy_user destination source size false s.

Definition copy_to_user (destination : Z) (source : option (list Z)) (size : Z) (s : vmm_state) :
    bool * vmm_state :=
  let '(ok, _, s) := copy_user source destination size true s in (ok, s).

Definition user_range_readable (address size : Z) (s : vmm_state) : bool := user_range_accessible address size false s.
Definition user_range_writable (address size : Z) (s : vmm_state) : bool := user_range_accessible address size true s.

(** ** Chunks *)

Lemma copy_chunk_read physical copied n kernel m :
  0 <= copied -> copied + Z.of_nat n <= alen kernel ->
  let '(kernel', m') := for_up n 0 (fun i '(kernel, m) => (aset kernel (copied + i) (rd m (physical + i)), m)) (kernel, m) in
  m' = m /\ alen kernel' = alen kernel /\
  forall k, 0 <= k -> aget 0 kernel' k = if bool_decide (copied <= k < copied + Z.of_nat n) then rd m (physical + (k - copied)) else aget 0 kernel k.
Proof.
  intros Hc. induction n as [|n IH]; intros Hl.
  { split_and!; [done | done |]. intros k Hk. by rewrite bool_decide_false by lia. }
  rewrite for_up_S. destruct (for_up n 0 _ (kernel, m)) as [k' m']. destruct IH as (-> & Hlen & Hget); [lia|].
  rewrite Z.add_0_l, alen_aset. split_and!; [done | done |]. intros k Hk. rewrite aget_aset by lia. rewrite Hget by done.
  repeat case_decide; repeat case_bool_decide; try lia; try done. f_equal. lia.
Qed.

Lemma copy_chunk_write physical copied n kernel m :
  mem_ok m ->
  let '(kernel', m') := for_up n 0 (fun i '(kernel, m) => (kernel, wr m (physical + i) (aget 0 kernel (copied + i)))) (kernel, m) in
  kernel' = kernel /\ mem_ok m' /\
  forall x, rd m' x = if bool_decide (physical <= x < physical + Z.of_nat n) then u8 (aget 0 kernel (copied + (x - physical))) else rd m x.
Proof.
  intros Hm. induction n as [|n IH].
  { split_and!; [done | done |]. intros x. by rewrite bool_decide_false by lia. }
  rewrite for_up_S. destruct (for_up n 0 _ (kernel, m)) as [k' m']. destruct IH as (-> & Hok & Hrd).
  rewrite Z.add_0_l. split_and!; [done | by apply wr_ok |]. intros x. rewrite rd_wr, Hrd.
  repeat case_decide; repeat case_bool_decide; try lia; try done. do 2 f_equal. lia.
Qed.

Lemma trips_size c : 0 <= c -> Z.of_nat (trips 0 c) = c.
Proof. unfold trips. lia. Qed.

Lemma copy_chunk_from physical copied c kernel m :
  0 <= copied -> 0 <= c -> copied + c <= alen kernel -> exists kernel',
  copy_chunk false physical copied c (kernel, m) = (kernel', m) /\ alen kernel' = alen kernel /\
  forall k, 0 <= k -> aget 0 kernel' k = if bool_decide (copied <= k < copied + c) then rd m (physical + (k - copied)) else aget 0 kernel k.
Proof.
  intros Hc Hn Hl. pose proof (copy_chunk_read physical copied (trips 0 c) kernel m Hc) as H. rewrite trips_size in H by done.
  unfold copy_chunk. destruct (for_up _ 0 _ (kernel, m)) as [k' m']. destruct H as (-> & ? & ?); [done|]. by exists k'.
Qed.

Lemma copy_chunk_to physical copied c kernel m :
  mem_ok m -> 0 <= c -> exists m',
  copy_chunk true physical copied c (kernel, m) = (kernel, m') /\ mem_ok m' /\
  forall x, rd m' x = if bool_decide (physical <= x < physical + c) then u8 (aget 0 kernel (copied + (x - physical))) else rd m x.
Proof.
  intros Hm Hn. pose proof (copy_chunk_write physical copied (trips 0 c) kernel m Hm) as H. rewrite trips_size in H by done.
  unfold copy_chunk. destruct (for_up _ 0 _ (kernel, m)) as [k' m']. destruct H as (-> & ? & ?). by exists m'.
Qed.

(** ** What the process may read and write *)

Definition may_read (s : vmm_state) (root a : Z) : Prop := is_Some (user_entry s root (indices a)).

Definition may_write (s : vmm_state) (root a : Z) : Prop :=
  exists e, user_entry s root (indices a) = Some e /\ (has e VMM_WRITABLE = true \/ has e VMM_COPY_ON_WRITE = true).

Lemma may_read_byte s root a : may_read s root a <-> is_Some (user_byte s root a).
Proof. unfold may_read, user_byte. by destruct (user_entry s root (indices a)). Qed.

Lemma has_lor x a b : 0 <= a -> 0 <= b -> has x (2 ^ a |! 2 ^ b) = has x (2 ^ a) || has x (2 ^ b).
Proof.
  intros Ha Hb. unfold has. rewrite Z.land_lor_distr_r. destruct (Z.eqb_spec (Z.land x (2 ^ a)) 0) as [->|Hn]; cbn [negb orb].
  - by rewrite Z.lor_0_l.
  - destruct (Z.eqb_spec (Z.lor (Z.land x (2 ^ a)) (Z.land x (2 ^ b))) 0) as [E|]; [|done]. apply Z.lor_eq_0_iff in E. tauto.
Qed.

Lemma valid_range a n : is_u64 a -> is_u64 n -> user_range_valid a n = true <-> a < 2 ^ 47 /\ a + n <= 2 ^ 47.
Proof.
  unfold user_range_valid, USER_ADDRESS_LIMIT, is_u64. intros Ha Hn. rewrite andb_true_iff, Z.ltb_lt, Z.leb_le. split.
  - intros (Hl & H). rewrite u64_small in H by (unfold is_u64; lia). lia.
  - intros (Hl & H). rewrite u64_small by (unfold is_u64; lia). lia.
Qed.

Section Copy.
Context (root : Z).

Definition runs_on (s : vmm_state) : Prop := user_wf s root /\ current s = Space root.

Lemma current_step s s' : user_step s s' root -> current s = Space root -> runs_on s'.
Proof. intros [W _ (E & _) _] Hc. split; [done|]. unfold current. by rewrite E. Qed.

(** What the query behind a chunk tells. *)
Lemma query_entry s a : runs_on s -> 0 <= a < 2 ^ 47 ->
  match user_entry s root (indices a) with
  | Some e => exists fl, vmm_space_query (Some (current s)) a s = Some (table_physical e + a mod 4096, fl) /\
      has fl VMM_USER = true /\ has fl VMM_WRITABLE = has e VMM_WRITABLE /\ has fl VMM_COPY_ON_WRITE = has e VMM_COPY_ON_WRITE
  | None => forall pa fl, vmm_space_query (Some (current s)) a s = Some (pa, fl) -> has fl VMM_USER = false
  end.
Proof.
  intros (Hwf & ->) Ha. destruct (user_entry s root (indices a)) as [e|] eqn:He.
  - eexists. split; [by apply query_user|]. destruct (query_rights e) as (-> & -> & -> & _).
    by apply user_entry_leaf in He as (_ & ->); [|done | apply indices_path].
  - intros pa fl Hq. by apply (query_not_user s root a pa fl).
Qed.

(** ** The range checks *)

Definition pages_from (page end_ : Z) : Z := (end_ - page + 4095) / 4096.

Definition allowed (writable : bool) (s : vmm_state) (a : Z) : Prop :=
  if writable then may_write s root a else may_read s root a.

Lemma page_test s page writable : runs_on s -> 0 <= page < 2 ^ 47 ->
  match vmm_space_query (Some (current s)) page s with
  | None => false
  | Some (_, flags) =>
      negb (negb (has flags VMM_USER) || (writable && negb (has flags (VMM_WRITABLE |! VMM_COPY_ON_WRITE))))
  end = true <-> allowed writable s page.
Proof.
  intros Hr Hp. pose proof (query_entry s page Hr Hp) as H. unfold allowed, may_write, may_read.
  destruct (user_entry s root (indices page)) as [e|].
  - destruct H as (fl & -> & HU & HW & HC). rewrite HU. cbn [negb orb].
    change (VMM_WRITABLE |! VMM_COPY_ON_WRITE) with (2 ^ 1 |! 2 ^ 9). rewrite has_lor by done.
    change (2 ^ 1) with VMM_WRITABLE. change (2 ^ 9) with VMM_COPY_ON_WRITE. rewrite HW, HC.
    destruct writable; cbn [andb negb]; [|by split].
    rewrite negb_involutive, orb_true_iff. split; [by exists e|]. by intros (e' & [= <-] & ?).
  - destruct (vmm_space_query _ page s) as [[pa fl]|].
    + rewrite (H pa fl) by done. split; [done|]. destruct writable; [by intros (? & ? & _) | by intros (? & ?)].
    + split; [done|]. destruct writable; [by intros (? & ? & _) | by intros (? & ?)].
Qed.

Lemma allowed_page writable s a b : a / 4096 = b / 4096 -> allowed writable s a <-> allowed writable s b.
Proof. intros E. unfold allowed, may_write, may_read. by rewrite (indices_page a b E). Qed.

Lemma pages_accessible_spec fuel s page end_ writable :
  runs_on s -> 0 <= page <= end_ + 4095 -> page mod 4096 = 0 -> end_ <= 2 ^ 47 -> pages_from page end_ < Z.of_nat fuel ->
  pages_accessible fuel page end_ writable s = true <-> forall a, page <= a < end_ -> allowed writable s a.
Proof.
  intros Hr. revert page. induction fuel as [|fuel IH]; intros page Hp Hal Hend Hfuel.
  { unfold pages_from in Hfuel. pose proof (Z.div_pos (end_ - page + 4095) 4096). lia. }
  cbn [pages_accessible]. destruct (Z.ltb_spec page end_) as [Hlt|Hge]; cbn [negb]; [|split; [intros _ a Ha; lia | done]].
  pose proof (page_test s page writable Hr ltac:(lia)) as Ht.
  assert (Hsplit : (forall a, page <= a < end_ -> allowed writable s a) <->
    allowed writable s page /\ forall a, page + 4096 <= a < end_ -> allowed writable s a).
  { split; [intros H; split; [apply H; lia | intros a Ha; apply H; lia]|]. intros (H0 & H) a Ha.
    destruct (Z.leb_spec (page + 4096) a); [apply H; lia|]. apply (allowed_page writable s page a); [|done].
    pose proof (Z.div_mod page 4096). apply (Z.div_unique a 4096 (page / 4096) (a - page)); lia. }
  rewrite Hsplit, <- Ht. destruct (vmm_space_query _ page s) as [[pa flags]|]; [|split; [done | by intros (? & _)]].
  destruct (negb (has flags VMM_USER) || _); cbn [negb]; [split; [done | by intros (? & _)]|].
  replace (page +! PMM_PAGE_SIZE) with (page + 4096) by (unfold PMM_PAGE_SIZE; symmetry; apply u64_small; unfold is_u64; lia).
  rewrite IH; [|lia | | done |].
  - split; [done | by intros (_ & ?)].
  - rewrite Z.add_mod, Hal by done. done.
  - unfold pages_from in *. replace (end_ - page + 4095) with (end_ - (page + 4096) + 4095 + 1 * 4096) in Hfuel by lia.
    rewrite Z.div_add in Hfuel by done. lia.
Qed.

Lemma range_fuel a n : 0 <= a -> 0 <= n -> pages_from (a - a mod 4096) (a + n) < Z.of_nat (page_fuel n).
Proof.
  intros Ha Hn. unfold pages_from, page_fuel, PMM_PAGE_SIZE. pose proof (Z.mod_pos_bound a 4096). pose proof (Z.div_pos n 4096).
  rewrite Nat2Z.inj_add, Z2Nat.id by lia. apply Z.div_lt_upper_bound; [lia|]. pose proof (Z.div_mod n 4096). pose proof (Z.mod_pos_bound n 4096). lia.
Qed.

Lemma range_accessible_spec a n writable s : runs_on s -> is_u64 a -> is_u64 n ->
  user_range_accessible a n writable s = true <->
  user_range_valid a n = true /\ forall k, a <= k < a + n -> allowed writable s k.
Proof.
  intros Hr Ha Hn. unfold user_range_accessible.
  destruct (user_range_valid a n) eqn:Hv; cbn [negb]; [|split; [done | by intros (? & _)]].
  pose proof Hv as Hv'. apply valid_range in Hv' as (Hl & Hend); [|done | done]. unfold is_u64 in Ha, Hn.
  destruct (Z.eqb_spec n 0) as [->|Hn0]; [split; [intros _; split; [done | lia] | done]|].
  change (PMM_PAGE_SIZE - 1) with (2 ^ 12 - 1). rewrite land_mask_down by (unfold is_u64; lia).
  rewrite u64_small by (unfold is_u64; lia). destruct (page_start a ltac:(lia)) as (Hp & Hal & _ & Hd).
  change (2 ^ 12) with 4096 in *. pose proof (Z.mod_pos_bound a 4096).
  rewrite pages_accessible_spec; [|done | lia | done | done | apply range_fuel; lia].
  split; [intros H'; split; [done|]; intros k Hk; apply H'; lia|]. intros (_ & H') k Hk.
  destruct (Z.leb_spec a k); [apply H'; lia|]. apply (allowed_page writable s a); [|apply H'; lia].
  pose proof (Z.div_mod a 4096). apply (Z.div_unique k 4096 (a / 4096) (k - (a - a mod 4096))); lia.
Qed.

(** ** The copy loops *)

(** The pages still to be visited. *)
Definition pages_left (a r : Z) : Z := if r <=? 0 then 0 else (a mod 4096 + r + 4095) / 4096.

Definition chunk_size (a r : Z) : Z := Z.min (4096 - a mod 4096) r.

Lemma pages_left_step a r : 0 < r -> 0 <= pages_left (a + chunk_size a r) (r - chunk_size a r) <= pages_left a r - 1.
Proof.
  intros Hr. unfold pages_left, chunk_size. pose proof (Z.mod_pos_bound a 4096). rewrite (proj2 (Z.leb_gt r 0)) by done.
  destruct (Z.leb_spec (r - Z.min (4096 - a mod 4096) r) 0).
  - pose proof (Z.div_le_mono 4096 (a mod 4096 + r + 4095) 4096). rewrite Z.div_same in * by done. lia.
  - rewrite Z.min_l by lia. assert (E : (a + (4096 - a mod 4096)) mod 4096 = 0).
    { replace (a + (4096 - a mod 4096)) with ((a / 4096 + 1) * 4096) by (pose proof (Z.div_mod a 4096); lia). apply Z_mod_mult. }
    rewrite E. replace (a mod 4096 + r + 4095) with (0 + (r - (4096 - a mod 4096)) + 4095 + 1 * 4096) by lia.
    rewrite Z.div_add by done. pose proof (Z.div_pos (0 + (r - (4096 - a mod 4096)) + 4095) 4096). lia.
Qed.

Lemma left_fuel a n : 0 <= n -> pages_left a n < Z.of_nat (page_fuel n).
Proof.
  intros Hn. unfold pages_left, page_fuel, PMM_PAGE_SIZE. pose proof (Z.mod_pos_bound a 4096). pose proof (Z.div_pos n 4096).
  rewrite Nat2Z.inj_add, Z2Nat.id by lia. destruct (Z.leb_spec n 0); [lia|]. apply Z.div_lt_upper_bound; [lia|].
  pose proof (Z.div_mod n 4096). pose proof (Z.mod_pos_bound n 4096). lia.
Qed.

Lemma chunk_eq a r : 0 <= a -> 0 <= r < 2 ^ 63 ->
  (if r <? PMM_PAGE_SIZE -! (a &! (PMM_PAGE_SIZE - 1)) then r else PMM_PAGE_SIZE -! (a &! (PMM_PAGE_SIZE - 1))) = chunk_size a r.
Proof.
  intros Ha Hr. unfold chunk_size. change (PMM_PAGE_SIZE - 1) with (2 ^ 12 - 1). rewrite land_mask_low by done.
  change (2 ^ 12) with 4096. pose proof (Z.mod_pos_bound a 4096). unfold PMM_PAGE_SIZE.
  rewrite u64_small by (unfold is_u64; lia). destruct (Z.ltb_spec r (4096 - a mod 4096)); lia.
Qed.

Lemma in_chunk a r b : 0 < r -> a <= b < a + chunk_size a r -> b / 4096 = a / 4096.
Proof.
  unfold chunk_size. intros Hr Hb. pose proof (Z.div_mod a 4096). pose proof (Z.mod_pos_bound a 4096).
  symmetry. apply (Z.div_unique b 4096 (a / 4096) (b - a + a mod 4096)); lia.
Qed.

Lemma copy_from_loop fuel kernel ua size copied s :
  runs_on s -> 0 <= ua -> 0 <= copied <= size -> ua + size <= 2 ^ 47 -> size <= alen kernel ->
  pages_left (ua + copied) (size - copied) < Z.of_nat fuel ->
  let '(ok, kernel', s') := copy_user_loop fuel kernel ua size copied false s in
  s' = s /\ alen kernel' = alen kernel /\
  (ok = true <-> forall k, copied <= k < size -> may_read s root (ua + k)) /\
  forall k, 0 <= k -> ok = true \/ ~ (copied <= k < size) ->
    aget 0 kernel' k = if bool_decide (copied <= k < size) then default 0 (user_byte s root (ua + k)) else aget 0 kernel k.
Proof.
  intros Hr Hua. revert kernel copied. induction fuel as [|fuel IH]; intros kernel copied Hc Hend Hlen Hfuel.
  { unfold pages_left in Hfuel. destruct (Z.leb_spec (size - copied) 0); [lia|]. pose proof (Z.mod_pos_bound (ua + copied) 4096).
    pose proof (Z.div_pos ((ua + copied) mod 4096 + (size - copied) + 4095) 4096). lia. }
  cbn [copy_user_loop]. destruct (Z.ltb_spec copied size) as [Hlt|Hge]; cbn [negb].
  2: { split_and!; [done | done | split; [intros _ k ?; lia | done] |]. intros k Hk _. by rewrite bool_decide_false by lia. }
  rewrite !u64_small by (unfold is_u64; lia). unfold chunk_page. cbn [andb].
  pose proof (query_entry s (ua + copied) Hr ltac:(lia)) as Hq.
  destruct (vmm_space_query _ (ua + copied) s) as [[pa fl]|] eqn:Eq.
  2: { split_and!; [done | done | |intros k Hk [?|?]; [done | by rewrite bool_decide_false]]. split; [done|]. intros H.
       destruct (H copied ltac:(lia)) as (e & He). rewrite He in Hq. by destruct Hq as (fl & ? & _). }
  rewrite orb_false_r. destruct (user_entry s root (indices (ua + copied))) as [e|] eqn:He.
  2: { rewrite (Hq pa fl) by done. cbn [negb]. split_and!; [done | done | |intros k Hk [?|?]; [done | by rewrite bool_decide_false]].
       split; [done|]. intros H. destruct (H copied ltac:(lia)) as (e & He'). congruence. }
  destruct Hq as (fl' & [= -> ->] & -> & _). cbn [negb]. rewrite chunk_eq by lia.
  pose proof (pages_left_step (ua + copied) (size - copied) ltac:(lia)) as Hstep.
  set (c := chunk_size (ua + copied) (size - copied)) in *.
  assert (Hcr : 0 < c <= size - copied) by (unfold c, chunk_size; pose proof (Z.mod_pos_bound (ua + copied) 4096); lia).
  destruct (copy_chunk_from (table_physical e + (ua + copied) mod 4096) copied c kernel (memory s)) as (k1 & -> & Hl1 & Hg1); [lia..|].
  rewrite u64_small by (unfold is_u64; lia). replace (with_memory s (memory s)) with s by (by destruct s).
  specialize (IH k1 (copied + c)). destruct (copy_user_loop fuel k1 ua size (copied + c) false s) as [[ok k2] s2].
  replace (ua + (copied + c)) with (ua + copied + c) in IH by lia. replace (size - (copied + c)) with (size - copied - c) in IH by lia.
  destruct IH as (-> & Hl2 & Hok & Hg2); [lia | done | lia | lia |].
  assert (Hbyte : forall k, copied <= k < copied + c -> user_byte s root (ua + k) = Some (rd (memory s) (table_physical e + (ua + copied) mod 4096 + (k - copied)))).
  { intros k Hk. assert (Hd : (ua + k) / 4096 = (ua + copied) / 4096) by (apply (in_chunk _ (size - copied)); fold c; lia).
    unfold user_byte. rewrite (indices_page _ _ Hd), He. do 2 f_equal.
    pose proof (Z.div_mod (ua + k) 4096). pose proof (Z.div_mod (ua + copied) 4096). lia. }
  split_and!; [done | congruence | |].
  - rewrite Hok. split; intros H k Hk; [|apply H; lia]. destruct (Z.ltb_spec k (copied + c)); [|apply H; lia].
    rewrite may_read_byte, Hbyte by lia. done.
  - intros k Hk Hcase. destruct (decide (copied <= k < copied + c)) as [Hin|Hout].
    + rewrite Hg2 by (done || (right; lia)). rewrite bool_decide_false, Hg1, !bool_decide_true, Hbyte by lia. done.
    + rewrite Hg2 by (done || (destruct Hcase; [by left | right; lia])). rewrite Hg1, (bool_decide_false (copied <= k < copied + c)) by lia.
      repeat case_bool_decide; (done || lia).
Qed.


(** The page a write goes to: refused, out of memory, or a page of the
    process's own with the bytes it had. *)
Definition write_refused (r : option (Z * Z)) : Prop :=
  match r with Some (_, fl) => negb (has fl VMM_USER) || negb (has fl VMM_WRITABLE) = true | None => True end.

Record writable_page (s s1 : vmm_state) (a e : Z) : Prop := {
  wp_step : user_step s s1 root;
  wp_entry : user_entry s1 root (indices a) = Some e;
  wp_writable : has e VMM_WRITABLE = true;
  wp_bytes : forall b, user_byte s1 root b = user_byte s root b;
  wp_rights : forall b, may_write s1 root b <-> may_write s root b;
}.

Lemma resolve_page s a e : runs_on s -> 0 <= a < 2 ^ 47 -> user_entry s root (indices a) = Some e -> has e VMM_COPY_ON_WRITE = true ->
  let '(r, s1) := vmm_space_resolve_cow (Some (current s)) a s in
  (r <= 0 /\ s1 = s /\ free_pages (pmm s) <= PMM_KERNEL_RESERVE_PAGES) \/
  (0 < r /\ exists e', writable_page s s1 a e').
Proof.
  intros (Hwf & ->) Ha He HC. pose proof (resolve_cow_cases (Space root) a s (uw_space _ _ Hwf)) as H. cbn [pml4_physical] in H.
  destruct (vmm_space_resolve_cow (Some (Space root)) a s) as [r s1]. pose proof (indices_path a) as Hp.
  destruct H as (W & [(_ & _ & Hno)|[(-> & -> & Hfree & _)|(-> & _ & old & new & R)]]).
  - exfalso. destruct (uw_used _ _ Hwf _ e Hp He) as (n & Hn). apply (Hno n). split; [by apply low_address|]. exists e.
    pose proof (user_entry_u64 _ _ _ _ Hwf Hp He) as (_ & HP & _). pose proof (uw_cow _ _ Hwf _ e Hp He HC) as HW.
    apply user_entry_leaf in He as (He & HU); [|done | done]. by split_and!.
  - left. split_and!; (done || lia).
  - right. split; [lia|]. exists new. pose proof (rv_new s s1 root a old new Hwf W R) as (_ & HW & _ & HU & _).
    pose proof (rv_entry s s1 root a old new Hwf W R) as HE. destruct (rv_old s s1 root a old new Hwf R) as (Ho & (_ & _ & HCo & _) & _).
    split; [by apply (rv_step s s1 root a old new) | by rewrite HE, decide_True | done | by apply (rv_byte s s1 root a old new) |].
    intros b. unfold may_write. rewrite HE by apply indices_path. case_decide as Hd; [|done]. rewrite Hd, Ho.
    split; intros _; [exists old | exists new]; (split; [done|]); auto.
Qed.

Lemma chunk_page_write s a : runs_on s -> 0 <= a < 2 ^ 47 ->
  let '(r, s1) := chunk_page true a s in
  (s1 = s /\ write_refused r /\ ~ may_write s root a) \/
  (s1 = s /\ r = None /\ free_pages (pmm s) <= PMM_KERNEL_RESERVE_PAGES) \/
  (may_write s root a /\ exists e fl, r = Some (table_physical e + a mod 4096, fl) /\ has fl VMM_USER = true /\
    has fl VMM_WRITABLE = true /\ writable_page s s1 a e).
Proof.
  intros Hr Ha. pose proof (query_entry s a Hr Ha) as Hq. unfold chunk_page. cbn [andb].
  destruct (user_entry s root (indices a)) as [e|] eqn:He.
  - destruct Hq as (fl & -> & HU & HW & HC). rewrite HC. destruct (has e VMM_COPY_ON_WRITE) eqn:HCe.
    + pose proof (resolve_page s a e Hr Ha He HCe) as H. destruct (vmm_space_resolve_cow _ a s) as [r s1].
      destruct H as [(Hle & -> & Hfree)|(Hpos & e' & P)].
      { rewrite (proj2 (Z.leb_le r 0)) by done. right; left. done. }
      rewrite (proj2 (Z.leb_gt r 0)) by done. right; right. split; [exists e; auto|].
      pose proof (query_entry s1 a (current_step _ _ (wp_step _ _ _ _ P) (proj2 Hr)) Ha) as Hq1.
      rewrite (wp_entry _ _ _ _ P) in Hq1. destruct Hq1 as (fl1 & -> & HU1 & HW1 & _).
      exists e', fl1. rewrite HW1, (wp_writable _ _ _ _ P). done.
    + destruct (has e VMM_WRITABLE) eqn:HWe.
      * right; right. split; [exists e; auto|]. exists e, fl. rewrite HW. split_and!; try done.
        split; try done. by apply user_step_refl, Hr.
      * left. split_and!; [done | cbn; by rewrite HW, orb_true_r |]. intros (e' & He' & [|]); congruence.
  - assert (Hno : ~ may_write s root a) by (intros (e & He' & _); congruence).
    destruct (vmm_space_query _ a s) as [[pa fl]|] eqn:Eq; [|by left]. pose proof (Hq pa fl eq_refl) as HU.
    destruct (has fl VMM_COPY_ON_WRITE).
    + pose proof (resolve_cow_cases (current s) a s) as H. destruct Hr as (Hwf & Hc). rewrite Hc in H |- *.
      specialize (H (uw_space _ _ Hwf)). destruct (vmm_space_resolve_cow _ a s) as [r s1].
      assert (Hnf : forall n, ~ cow_fault s (Space root) a n).
      { intros n (_ & e & Hl & (_ & HUe & _) & _). cbn [pml4_physical] in Hl. unfold user_entry in He. by rewrite Hl, HUe in He. }
      destruct H as (_ & [(-> & -> & _)|[(_ & _ & _ & n & Hn & _)|(_ & (n & Hn) & _)]]); [by left | by apply Hnf in Hn | by apply Hnf in Hn].
    + left. split_and!; [done | cbn; by rewrite HU | done].
Qed.


(** What a copy to user memory leaves, [n] being the end of what it wrote. *)
Record written (s s' : vmm_state) (ua lo n : Z) (g : Z -> Z) : Prop := {
  wn_step : user_step s s' root;
  wn_rights : forall b, may_write s' root b <-> may_write s root b;
  wn_bytes : forall b, 0 <= b < 2 ^ 47 -> user_byte s' root b =
    if bool_decide (ua + lo <= b < ua + n) then Some (g (b - ua)) else user_byte s root b;
  wn_allowed : forall k, lo <= k < n -> may_write s root (ua + k);
}.

Lemma written_refl s ua lo g : user_wf s root -> written s s ua lo lo g.
Proof. intros Hwf. split; [by apply user_step_refl | done | intros b Hb; by rewrite bool_decide_false by lia | lia]. Qed.

Lemma written_trans s1 s2 s3 ua lo mid n g : lo <= mid <= n -> written s1 s2 ua lo mid g -> written s2 s3 ua mid n g -> written s1 s3 ua lo n g.
Proof.
  intros Hm [S1 R1 B1 A1] [S2 R2 B2 A2]. split.
  - by apply (user_step_trans s1 s2).
  - intros b. by rewrite R2.
  - intros b Hb. rewrite B2, B1 by done. repeat case_bool_decide; (done || lia).
  - intros k Hk. destruct (Z.ltb_spec k mid); [apply A1; lia|]. apply R1, A2. lia.
Qed.

(** One chunk into a writable page. *)
Lemma chunk_written s s1 ua copied c e g m :
  runs_on s -> writable_page s s1 (ua + copied) e -> may_write s root (ua + copied) -> 0 <= ua + copied -> 0 < c ->
  ua + copied + c <= 2 ^ 47 -> (ua + copied) mod 4096 + c <= 4096 -> mem_ok m ->
  (forall x, let p := table_physical e + (ua + copied) mod 4096 in
     rd m x = if bool_decide (p <= x < p + c) then g (copied + (x - p)) else rd (memory s1) x) ->
  written s (with_memory s1 m) ua copied (copied + c) g.
Proof.
  intros Hr P Hmay Ha Hc Hend Hpage Hm Hrd. cbv zeta in Hrd. pose proof (us_wf _ _ _ (wp_step _ _ _ _ P)) as W1.
  destruct (user_write s1 root (ua + copied) e c (fun d => g (copied + d)) m W1) as (Hs & HE & HB);
    [lia | apply P | left; apply P | done | done | done |].
  split.
  - apply (user_step_trans s s1); [apply P | done].
  - intros b. rewrite <- (wp_rights _ _ _ _ P). unfold may_write. by rewrite HE by apply indices_path.
  - intros b Hb. rewrite HB, (wp_bytes _ _ _ _ P) by done. replace (copied + (b - (ua + copied))) with (b - ua) by lia.
    by replace (ua + (copied + c)) with (ua + copied + c) by lia.
  - intros k Hk. destruct Hmay as (e' & He' & Hor). exists e'. split; [|done]. rewrite <- He'. f_equal. apply indices_page.
    pose proof (Z.div_mod (ua + copied) 4096). pose proof (Z.mod_pos_bound (ua + copied) 4096).
    symmetry. apply (Z.div_unique (ua + k) 4096 _ (k - copied + (ua + copied) mod 4096)); lia.
Qed.

Lemma copy_to_loop fuel kernel ua size copied s :
  runs_on s -> 0 <= ua -> 0 <= copied <= size -> ua + size <= 2 ^ 47 ->
  pages_left (ua + copied) (size - copied) < Z.of_nat fuel ->
  let '(ok, kernel', s') := copy_user_loop fuel kernel ua size copied true s in
  kernel' = kernel /\ exists n, copied <= n <= size /\ written s s' ua copied n (fun k => u8 (aget 0 kernel k)) /\
  if ok then n = size else free_pages (pmm s') <= PMM_KERNEL_RESERVE_PAGES \/ (n < size /\ ~ may_write s root (ua + n)).
Proof.
  intros Hr Hua. revert s copied Hr. induction fuel as [|fuel IH]; intros s copied Hr Hc Hend Hfuel.
  { unfold pages_left in Hfuel. destruct (Z.leb_spec (size - copied) 0); [lia|]. pose proof (Z.mod_pos_bound (ua + copied) 4096).
    pose proof (Z.div_pos ((ua + copied) mod 4096 + (size - copied) + 4095) 4096). lia. }
  cbn [copy_user_loop]. pose proof (written_refl s ua copied (fun k => u8 (aget 0 kernel k)) (proj1 Hr)) as Hrefl.
  destruct (Z.ltb_spec copied size) as [Hlt|Hge]; cbn [negb].
  2: { split; [done|]. exists copied. split_and!; (done || lia). }
  rewrite !u64_small by (unfold is_u64; lia). pose proof (chunk_page_write s (ua + copied) Hr ltac:(lia)) as Hp.
  destruct (chunk_page true (ua + copied) s) as [r s1].
  destruct Hp as [(-> & Href & Hno)|[(-> & -> & Hfree)|(Hmay & e & fl & -> & HU & HW & P)]].
  - destruct r as [[pa fl]|]; [cbn in Href; cbn [andb]; rewrite Href|]; (split; [done|]; exists copied; split_and!; (done || lia || by right)).
  - split; [done|]. exists copied. split_and!; (done || lia || by left).
  - rewrite HU, HW. cbn [negb andb orb]. rewrite chunk_eq by lia.
    pose proof (pages_left_step (ua + copied) (size - copied) ltac:(lia)) as Hstep.
    set (c := chunk_size (ua + copied) (size - copied)) in *. pose proof (Z.mod_pos_bound (ua + copied) 4096).
    assert (Hcr : 0 < c <= size - copied /\ (ua + copied) mod 4096 + c <= 4096) by (unfold c, chunk_size; lia).
    destruct (copy_chunk_to (table_physical e + (ua + copied) mod 4096) copied c kernel (memory s1)) as (m & -> & Hm & Hrd);
      [apply (us_wf _ _ _ (wp_step _ _ _ _ P)) | lia |]. rewrite u64_small by (unfold is_u64; lia).
    assert (Hw : written s (with_memory s1 m) ua copied (copied + c) (fun k => u8 (aget 0 kernel k)))
      by (apply (chunk_written s s1 ua copied c e); (done || lia)).
    specialize (IH (with_memory s1 m) (copied + c) (current_step _ _ (wn_step _ _ _ _ _ _ Hw) (proj2 Hr))).
    destruct (copy_user_loop fuel kernel ua size (copied + c) true (with_memory s1 m)) as [[ok k2] s2].
    replace (ua + (copied + c)) with (ua + copied + c) in IH by lia. replace (size - (copied + c)) with (size - copied - c) in IH by lia.
    destruct IH as (-> & n & Hn & Hw2 & Hok); [lia | done | lia |]. split; [done|]. exists n. split_and!; [lia | lia | |].
    + apply (written_trans _ (with_memory s1 m) _ _ _ (copied + c)); (done || lia).
    + destruct ok; [done|]. destruct Hok as [?|(Hlt' & Hno)]; [by left|]. right. split; [done|].
      by rewrite <- (wn_rights _ _ _ _ _ _ Hw).
Qed.


End Copy.


(** ** Theorems *)

(** C9 [copy_from_user] reads exactly the bytes the process sees: it succeeds
    when the range passes [user_range_readable] (or is empty), it then fills the
    first [size] bytes of the kernel buffer with them, it never touches the
    buffer past [size], and it changes no memory. *)
Theorem copy_from_user_correct source size buffer s :
  let root := cr3 s &! 0x000FFFFFFFFFF000 in
  user_wf s root -> is_u64 source -> is_u64 size -> size <= alen buffer ->
  let '(ok, out, s') := copy_from_user (Some buffer) source size s in
  s' = s /\ ok = (size =? 0) || user_range_readable source size s /\
  exists bytes, out = Some bytes /\ alen bytes = alen buffer /\
    (forall k, size <= k -> aget 0 bytes k = aget 0 buffer k) /\
    (ok = true -> forall k, 0 <= k < size -> user_byte s root (source + k) = Some (aget 0 bytes k)).
Proof.
  intros root Hwf Ha Hn Hlen. assert (Hr : runs_on root s) by done.
  assert (Hread : user_range_readable source size s = true <-> _) by (by apply (range_accessible_spec root)).
  unfold copy_from_user, copy_user. destruct (Z.eqb_spec size 0) as [->|Hn0].
  { split_and!; [done | done |]. exists buffer. split_and!; (done || lia). }
  cbn [orb]. destruct (user_range_valid source size) eqn:Hv; cbn [negb].
  2: { split_and!; [done | |by exists buffer]. symmetry. apply not_true_is_false. intros (? & _)%Hread. done. }
  pose proof Hv as Hv'. apply valid_range in Hv' as (_ & Hend); [|done | done]. unfold is_u64 in Ha, Hn.
  pose proof (copy_from_loop root (page_fuel size) buffer source size 0 s Hr ltac:(lia) ltac:(lia) Hend Hlen) as H.
  rewrite Z.add_0_r, Z.sub_0_r in H. specialize (H (left_fuel source size ltac:(lia))).
  destruct (copy_user_loop _ buffer source size 0 false s) as [[ok bytes] s']. destruct H as (-> & Hl & Hok & Hget).
  split; [done|]. split.
  - apply eq_true_iff_eq. rewrite Hok, Hread. split.
    + intros H. split; [done|]. intros k Hk. replace k with (source + (k - source)) by lia. apply H. lia.
    + intros (_ & H) k Hk. apply H. lia.
  - exists bytes. split_and!; [done | done | |].
    + intros k Hk. rewrite Hget by (lia || (right; lia)). by rewrite bool_decide_false by lia.
    + intros Ht k Hk. rewrite Hget by (lia || by left). rewrite bool_decide_true by lia.
      pose proof (proj1 Hok Ht k ltac:(lia)) as Hb. rewrite may_read_byte in Hb. by destruct Hb as (b & ->).
Qed.

#[local] Opaque fork_mapped fork_pmm.

Lemma copy_from_user_correct_witness :
  user_wf fork_mapped 0x12000 /\
  let '(ok, out, s') := copy_from_user (Some [1; 2; 3]) 0x400ffe 2 fork_mapped in s' = fork_mapped.
Proof.
  pose proof sample_user_wf as W. split; [exact W|].
  pose proof (copy_from_user_correct 0x400ffe 2 [1; 2; 3] fork_mapped) as H. rewrite sample_cr3 in H. change (0x12000 &! 0x000FFFFFFFFFF000) with 0x12000 in H.
  destruct (copy_from_user (Some [1; 2; 3]) 0x400ffe 2 fork_mapped) as [[ok out] s'].
  apply H; [exact W | unfold is_u64; lia | unfold is_u64; lia | unfold alen; simpl; lia].
Defined.

(** C10 [copy_to_user] writes exactly the range it is given: afterwards the
    process sees the buffer in the first [n] bytes and every other byte as
    before; [n] is [size] on success, which needs a range that
    [user_range_writable] accepts.  It fails only for a range that check
    refuses, or when the allocator is down to its reserve.  Memory in use
    outside the pages the process may write, such as a frame still shared
    copy-on-write or a kernel page, keeps its bytes on every path. *)
Theorem copy_to_user_correct destination size buffer s :
  let root := cr3 s &! 0x000FFFFFFFFFF000 in
  user_wf s root -> is_u64 destination -> is_u64 size ->
  let '(ok, s') := copy_to_user destination (Some buffer) size s in
  user_wf s' root /\ cr3 s' = cr3 s /\
  (forall x, foreign s root x -> rd (memory s') x = rd (memory s) x) /\
  exists n, 0 <= n <= size /\
    (forall b, 0 <= b < 2 ^ 47 -> user_byte s' root b =
       if bool_decide (destination <= b < destination + n) then Some (u8 (aget 0 buffer (b - destination))) else user_byte s root b) /\
    if ok then n = size /\ (size = 0 \/ user_range_writable destination size s = true)
    else user_range_writable destination size s = false \/ free_pages (pmm s') <= PMM_KERNEL_RESERVE_PAGES.
Proof.
  intros root Hwf Ha Hn. assert (Hr : runs_on root s) by done. unfold copy_to_user, copy_user.
  assert (Hwrite : user_range_writable destination size s = true <-> _) by (by apply (range_accessible_spec root)).
  destruct (Z.eqb_spec size 0) as [->|Hn0].
  { split_and!; [done | done | done |]. exists 0. split_and!; [done | done | | done | by left].
    intros b Hb. by rewrite bool_decide_false by lia. }
  unfold is_u64 in Ha, Hn. destruct (user_range_valid destination size) eqn:Hv; cbn [negb].
  2: { split_and!; [done | done | done |]. exists 0. split_and!; [lia | lia | intros b Hb; by rewrite bool_decide_false by lia |].
       left. apply not_true_is_false. intros (? & _)%Hwrite. done. }
  pose proof Hv as Hv'. apply valid_range in Hv' as (_ & Hend); [|done | done].
  pose proof (copy_to_loop root (page_fuel size) buffer destination size 0 s Hr ltac:(lia) ltac:(lia) Hend) as H.
  rewrite Z.add_0_r, Z.sub_0_r in H. specialize (H (left_fuel destination size ltac:(lia))).
  destruct (copy_user_loop _ buffer destination size 0 true s) as [[ok k'] s'].
  destruct H as (-> & n & Hn' & [S R B A] & Hok). rewrite Z.add_0_r in B. split_and!.
  - apply S.
  - apply (us_regs _ _ _ S).
  - intros x Hx. by apply (us_foreign _ _ _ S).
  - exists n. split_and!; [lia | lia | exact B |]. destruct ok.
    + subst n. split; [done|]. right. apply Hwrite. split; [done|]. intros k Hk.
      replace k with (destination + (k - destination)) by lia. apply A. lia.
    + destruct Hok as [?|(Hlt & Hno)]; [by right|]. left. apply not_true_is_false. intros (_ & H)%Hwrite.
      apply Hno, (H (destination + n)). lia.
Qed.

Lemma copy_to_user_correct_witness :
  user_wf fork_mapped 0x12000 /\ user_wf (snd (copy_to_user 0x400ffe (Some [7; 8]) 2 fork_mapped)) 0x12000.
Proof.
  pose proof sample_user_wf as W. split; [exact W|].
  pose proof (copy_to_user_correct 0x400ffe 2 [7; 8] fork_mapped) as H. rewrite sample_cr3 in H. change (0x12000 &! 0x000FFFFFFFFFF000) with 0x12000 in H.
  destruct (copy_to_user 0x400ffe (Some [7; 8]) 2 fork_mapped) as [ok s']. cbn [snd].
  apply H; [exact W | unfold is_u64; lia | unfold is_u64; lia].
Defined.


End Usercopy.
