(* ===== verification/Elf.v ===== *)
(** * Elf: loading an executable

    src/kernel/elf.c: the checks on the header and the program headers, the
    mapping of each loadable segment into fresh cleared pages and the copy of
    its bytes.  An image is the list of its bytes; the packed structures are
    read from it in little-endian order at the offsets of their fields. *)

From S2P Require Import Prelude Memory Pmm PageTable Vmm VmmSafety VmmFork UserMem Usercopy.
Import Memory.Memory Pmm.Pmm PageTable.PageTable Vmm.Vmm VmmSafety.VmmSafety VmmFork.VmmFork UserMem.UserMem Usercopy.Usercopy.

Module Elf.

Definition ELF_CLASS_64 : Z := 2.
Definition ELF_DATA_LSB : Z := 1.
Definition ELF_CURRENT_VERSION : Z := 1.
Definition ELF_TYPE_EXECUTABLE : Z := 2.
Definition ELF_MACHINE_X86_64 : Z := 62.
Definition ELF_PROGRAM_LOAD : Z := 1.
Definition ELF_FLAG_EXECUTE : Z := 1.
Definition ELF_FLAG_WRITE : Z := 2.
Definition USER_STACK_ADDRESS : Z := 0x0000000000800000.

Inductive elf_load_result := ELF_LOAD_OUT_OF_MEMORY | ELF_LOAD_INVALID | ELF_LOAD_SUCCESS.

(** [n] bytes of the image at [offset] as a little-endian number. *)
Fixpoint field (n : nat) (image : list Z) (offset : Z) : Z :=
  match n with
  | O => 0
  | S n => aget 0 image offset + 256 * field n image (offset + 1)
  end.

Record elf64_header := mk_header {
  ident : list Z; h_type : Z; machine : Z; version : Z; entry : Z; program_offset : Z;
  program_entry_size : Z; program_count : Z }.

Record elf64_program_header := mk_program {
  p_type : Z; p_flags : Z; p_offset : Z; virtual_address : Z; file_size : Z; memory_size : Z }.

Definition HEADER_SIZE : Z := 64.
Definition PROGRAM_HEADER_SIZE : Z := 56.

Definition header_at (image : list Z) : elf64_header :=
  mk_header (map (fun i => aget 0 image (Z.of_nat i)) (seq 0 16)) (field 2 image 16) (field 2 image 18) (field 4 image 20)
    (field 8 image 24) (field 8 image 32) (field 2 image 54) (field 2 image 56).

Definition program_at (image : list Z) (base : Z) : elf64_program_header :=
  mk_program (field 4 image base) (field 4 image (base + 4)) (field 8 image (base + 8)) (field 8 image (base + 16))
    (field 8 image (base + 32)) (field 8 image (base + 40)).

Definition page_floor (value : Z) : Z := value &! not64 (PMM_PAGE_SIZE - 1).

Definition range_valid (start size limit : Z) : bool := (start <=? limit) && (size <=? limit -! start).

Definition copy_bytes (m : mem) (destination : Z) (image : list Z) (source count : Z) : mem :=
  for_up (trips 0 count) 0 (fun i m => wr m (destination + i) (aget 0 image (source + i))) m.

(** ** load_segment *)

(** The page loop: a fresh cleared page for every page of the segment. *)
Fixpoint map_segment (fuel : nat) (page end_ flags : Z) (sp : space) (s : vmm_state) : elf_load_result * vmm_state :=
  match fuel with
  | O => (ELF_LOAD_OUT_OF_MEMORY, s)
  | S fuel =>
      if negb (page <? end_) then (ELF_LOAD_SUCCESS, s)
      else if negb (vmm_space_translate (Some sp) page s =? PMM_INVALID_ADDRESS) then (ELF_LOAD_INVALID, s)
      else
        let '(physical, p) := pmm_alloc_user_page (pmm s) in
        let s := with_pmm s p in
        if physical =? PMM_INVALID_ADDRESS then (ELF_LOAD_OUT_OF_MEMORY, s)
        else
          let s := with_memory s (zero_page (memory s) physical) in
          let '(ok, s) := vmm_space_map_page (Some sp) page physical flags s in
          if negb ok then (ELF_LOAD_OUT_OF_MEMORY, with_pmm s (snd (pmm_free_page physical (pmm s))))
          else map_segment fuel (page +! PMM_PAGE_SIZE) end_ flags sp s
  end.

(** The copy loop. *)
Fixpoint copy_segment (fuel : nat) (image : list Z) (program : elf64_program_header) (copied : Z) (sp : space)
    (s : vmm_state) : elf_load_result * vmm_state :=
  match fuel with
  | O => (ELF_LOAD_INVALID, s)
  | S fuel =>
      if negb (copied <? file_size program) then (ELF_LOAD_SUCCESS, s)
      else
        let address := virtual_address program +! copied in
        let physical := vmm_space_translate (Some sp) address s in
        if physical =? PMM_INVALID_ADDRESS then (ELF_LOAD_INVALID, s)
        else
          let chunk := PMM_PAGE_SIZE -! (address &! (PMM_PAGE_SIZE - 1)) in
          let chunk := if file_size program -! copied <? chunk then file_size program -! copied else chunk in
          let s := with_memory s (copy_bytes (memory s) physical image (p_offset program + copied) chunk) in
          copy_segment fuel image program (copied +! chunk) sp s
  end.

Definition segment_flags (program : elf64_program_header) : Z :=
  let flags := VMM_USER in
  let flags := if has (p_flags program) ELF_FLAG_WRITE then flags |! VMM_WRITABLE else flags in
  if negb (has (p_flags program) ELF_FLAG_EXECUTE) then flags |! VMM_NO_EXECUTE else flags.

Definition load_segment (image : list Z) (image_size : Z) (program : elf64_program_header) (sp : space)
    (s : vmm_state) : elf_load_result * vmm_state :=
  if (memory_size program <? file_size program) ||
     negb (range_valid (p_offset program) (file_size program) image_size) ||
     negb (range_valid (virtual_address program) (memory_size program) USER_ADDRESS_LIMIT) ||
     (has (p_flags program) ELF_FLAG_WRITE && has (p_flags program) ELF_FLAG_EXECUTE)
  then (ELF_LOAD_INVALID, s)
  else if memory_size program =? 0 then (ELF_LOAD_SUCCESS, s)
  else
    let end_ := virtual_address program +! memory_size program in
    match map_segment (page_fuel (memory_size program)) (page_floor (virtual_address program)) end_ (segment_flags program) sp s with
    | (ELF_LOAD_SUCCESS, s) => copy_segment (page_fuel (file_size program)) image program 0 sp s
    | failed => failed
    end.

(** ** elf_load *)

Definition segment_pages (program : elf64_program_header) : Z :=
  if memory_size program =? 0 then 0
  else (virtual_address program +! memory_size program -! 1 -! page_floor (virtual_address program)) / PMM_PAGE_SIZE +! 1.

Definition entry_in (header : elf64_header) (program : elf64_program_header) : bool :=
  has (p_flags program) ELF_FLAG_EXECUTE && (virtual_address program <=? entry header) &&
  (entry header -! virtual_address program <? memory_size program).

(** The loop over the program headers: whether the entry point is executable,
    the highest end and the pages mapped so far. *)
Fixpoint load_programs (n : nat) (i : Z) (image : list Z) (image_size : Z) (header : elf64_header) (sp : space) (page_limit : Z)
    (entry_is_executable : bool) (highest_end total_pages : Z) (s : vmm_state) :
    (elf_load_result * (bool * Z * Z)) * vmm_state :=
  match n with
  | O => ((ELF_LOAD_SUCCESS, (entry_is_executable, highest_end, total_pages)), s)
  | S n =>
      let program := program_at image (program_offset header + i * PROGRAM_HEADER_SIZE) in
      let failed r s := ((r, (entry_is_executable, highest_end, total_pages)), s) in
      if negb (p_type program =? ELF_PROGRAM_LOAD) then
        load_programs n (i + 1) image image_size header sp page_limit entry_is_executable highest_end total_pages s
      else if negb (range_valid (virtual_address program) (memory_size program) USER_ADDRESS_LIMIT) then failed ELF_LOAD_INVALID s
      else
        let segment_end := virtual_address program +! memory_size program in
        if page_limit -! total_pages <? segment_pages program then failed ELF_LOAD_OUT_OF_MEMORY s
        else
          match load_segment image image_size program sp s with
          | (ELF_LOAD_SUCCESS, s) =>
              load_programs n (i + 1) image image_size header sp page_limit
                (if entry_in header program then true else entry_is_executable)
                (if highest_end <? segment_end then segment_end else highest_end)
                (total_pages +! segment_pages program) s
          | (r, s) => failed r s
          end
  end.

Definition header_invalid (header : elf64_header) (image_size : Z) : bool :=
  negb (aget 0 (ident header) 0 =? 0x7F) || negb (aget 0 (ident header) 1 =? 0x45) ||
  negb (aget 0 (ident header) 2 =? 0x4C) || negb (aget 0 (ident header) 3 =? 0x46) ||
  negb (aget 0 (ident header) 4 =? ELF_CLASS_64) || negb (aget 0 (ident header) 5 =? ELF_DATA_LSB) ||
  negb (aget 0 (ident header) 6 =? ELF_CURRENT_VERSION) ||
  negb (h_type header =? ELF_TYPE_EXECUTABLE) || negb (machine header =? ELF_MACHINE_X86_64) ||
  negb (version header =? ELF_CURRENT_VERSION) || negb (program_entry_size header =? PROGRAM_HEADER_SIZE) ||
  (program_count header =? 0) ||
  negb (range_valid (program_offset header) (program_count header *! program_entry_size header) image_size) ||
  (USER_ADDRESS_LIMIT <=? entry header).

(** The result with the entry point, the end of the image and the number of
    pages mapped. [outputs] tells whether the three out-pointers are set. *)
Definition elf_load (image : option (list Z)) (image_size : Z) (sp : option space) (page_limit : Z) (outputs : bool)
    (s : vmm_state) : (elf_load_result * option (Z * Z * Z)) * vmm_state :=
  match image, sp with
  | Some image, Some sp =>
      if negb outputs || (image_size <? HEADER_SIZE) then ((ELF_LOAD_INVALID, None), s)
      else
        let header := header_at image in
        if header_invalid header image_size then ((ELF_LOAD_INVALID, None), s)
        else
          match load_programs (Z.to_nat (program_count header)) 0 image image_size header sp page_limit false 0 0 s with
          | ((ELF_LOAD_SUCCESS, (entry_is_executable, highest_end, total_pages)), s) =>
              if negb entry_is_executable then ((ELF_LOAD_INVALID, None), s)
              else if USER_STACK_ADDRESS -! PMM_PAGE_SIZE <=? highest_end then ((ELF_LOAD_INVALID, None), s)
              else ((ELF_LOAD_SUCCESS, Some (entry header, highest_end, total_pages)), s)
          | ((r, _), s) => ((r, None), s)
          end
  | _, _ => ((ELF_LOAD_INVALID, None), s)
  end.

(** ** The pages of a segment *)

Section Segment.
Context (root : Z).

(** [s'] is [s] with fresh cleared pages at [lo, hi). *)
Record mapped_run (s s' : vmm_state) (lo hi flags : Z) : Prop := {
  mr_step : user_step s s' root;
  mr_bytes : forall b, 0 <= b < 2 ^ 47 -> user_byte s' root b = if bool_decide (lo <= b < hi) then Some 0 else user_byte s root b;
  mr_new : forall b, lo <= b < hi -> user_entry s root (indices b) = None /\
    exists f, is_page f /\ user_entry s' root (indices b) = Some (leaf_entry f flags) /\ used_page (pmm s') f 1;
  mr_old : forall b, 0 <= b < 2 ^ 47 -> ~ (lo <= b < hi) -> user_entry s' root (indices b) = user_entry s root (indices b);
}.

Lemma mapped_run_refl s lo flags : user_wf s root -> mapped_run s s lo lo flags.
Proof. intros Hwf. split; [by apply user_step_refl | intros; by rewrite bool_decide_false by lia | lia | done]. Qed.

(** One more page. *)
Lemma mapped_run_snoc s s1 s2 s3 lo hi flags f :
  mapped_run s s1 lo hi flags -> fresh_page s1 s2 root f -> (forall x, in_page f x -> rd (memory s2) x = 0) -> vmm_space_map_page (Some (Space root)) hi f flags s2 = (true, s3) ->
  has flags VMM_USER = true -> has flags VMM_COPY_ON_WRITE = false -> 0 <= lo <= hi -> hi < 2 ^ 47 -> hi mod 4096 = 0 ->
  mapped_run s s3 lo (hi + 4096) flags.
Proof.
  intros [S B N O] Hf Hz Hmap HU HC Hlo Hhi Hal. pose proof (us_wf _ _ _ S) as W1.
  assert (Hva : is_u64 hi) by (unfold is_u64; lia). pose proof (mf_entry s1 s2 s3 root f hi flags W1 Hf Hva HU Hmap) as HE.
  pose proof (mf_byte s1 s2 s3 root f hi flags W1 Hf Hva HU Hmap) as HB.
  assert (Hpage : forall b, 0 <= b < 2 ^ 47 -> indices b = indices hi <-> hi <= b < hi + 4096).
  { intros b Hb. rewrite indices_low by lia. pose proof (Z.div_mod b 4096). pose proof (Z.div_mod hi 4096). pose proof (Z.mod_pos_bound b 4096).
    split; [lia|]. intros Hin. symmetry. apply (Z.div_unique b 4096 (hi / 4096) (b - hi)); lia. }
  assert (Hend : hi + 4096 <= 2 ^ 47).
  { pose proof (Z.div_mod hi 4096). change (2 ^ 47) with (34359738368 * 4096) in *. lia. }
  split.
  - apply (user_step_trans s s1); [done|]. by apply (mf_step s1 s2 s3 root f hi flags).
  - intros b Hb. rewrite HB. destruct (decide (indices b = indices hi)) as [E|E].
    + apply Hpage in E; [|done]. rewrite bool_decide_true by lia. by rewrite Hz by apply in_page_offset.
    + rewrite B by done. rewrite Hpage in E by done. repeat case_bool_decide; (done || lia).
  - intros b Hb. rewrite HE by apply indices_path. case_decide as E.
    + split.
      * destruct (decide (lo <= b < hi)) as [Hin|Hout]; [by apply N|]. rewrite <- O by lia. rewrite E.
        destruct (mf_mapped s1 s2 s3 root f hi flags W1 Hf Hva Hmap) as (_ & _ & M).
        pose proof (mp_unmapped _ _ _ _ _ _ M) as Hl. cbn [pml4_physical] in Hl.
        rewrite <- (sp_entry s1 s2 root (fp_same _ _ _ _ Hf)) by apply indices_path. unfold user_entry. by rewrite Hl.
      * exists f. split_and!; [apply Hf | done |]. by apply (mf_used s1 s2 s3 root f hi flags), Hf.
    + rewrite Hpage in E by lia. destruct (N b ltac:(lia)) as (Hn & g & Hg & He & Hu). split; [done|]. exists g. split_and!; try done.
      apply (mf_used s1 s2 s3 root f hi flags); try done.
      apply (used_page_same (pmm s1)); [apply (fp_same _ _ _ _ Hf) | apply (sp_abs _ _ _ (fp_same _ _ _ _ Hf)) | done].
  - intros b Hb Hout. rewrite HE by apply indices_path. rewrite decide_False; [apply O; [done | lia]|]. rewrite Hpage by done. lia.
Qed.

Lemma map_segment_spec fuel page end_ flags s0 s lo :
  mapped_run s0 s lo page flags -> has flags VMM_USER = true -> has flags VMM_COPY_ON_WRITE = false ->
  0 <= lo <= page -> page <= end_ + 4095 -> page mod 4096 = 0 -> end_ <= 2 ^ 47 -> pages_from page end_ < Z.of_nat fuel ->
  let '(r, s') := map_segment fuel page end_ flags (Space root) s in
  user_step s0 s' root /\ (r = ELF_LOAD_SUCCESS -> exists hi, page <= hi /\ end_ <= hi < Z.max (page + 1) (end_ + 4096) /\ hi mod 4096 = 0 /\
    mapped_run s0 s' lo hi flags).
Proof.
  intros Hrun HU HC. revert page s Hrun. induction fuel as [|fuel IH]; intros page s Hrun Hlo Hp Hal Hend Hfuel.
  { unfold pages_from in Hfuel. pose proof (Z.div_pos (end_ - page + 4095) 4096). lia. }
  pose proof (mr_step _ _ _ _ _ Hrun) as S0. pose proof (us_wf _ _ _ S0) as Hwf. cbn [map_segment].
  destruct (Z.ltb_spec page end_) as [Hlt|Hge]; cbn [negb].
  2: { split; [done|]. intros _. exists page. split_and!; (done || lia). }
  destruct (vmm_space_translate _ page s =? _); cbn [negb]; [|done].
  destruct (pmm_alloc_user_page (pmm s)) as [f p] eqn:Ea.
  destruct (user_alloc s root f p Hwf Ea) as [(-> & -> & _)|Hf].
  { rewrite Z.eqb_refl. split; [by destruct s | done]. }
  assert (Hz : forall x, in_page f x -> rd (zero_page (memory s) f) x = 0) by (intros x Hx; by rewrite zero_page_rd, bool_decide_true).
  rewrite (fp_valid _ _ _ _ Hf). cbn [memory with_pmm]. set (s1 := with_memory _ _) in *.
  destruct (vmm_space_map_page (Some (Space root)) page f flags s1) as [ok s2] eqn:Em.
  assert (Hva : is_u64 page) by (unfold is_u64; lia). destruct ok; cbn [negb].
  - replace (page +! PMM_PAGE_SIZE) with (page + 4096) by (unfold PMM_PAGE_SIZE; symmetry; apply u64_small; unfold is_u64; lia).
    specialize (IH (page + 4096) s2). destruct (map_segment fuel (page + 4096) end_ flags (Space root) s2) as [r s'].
    destruct IH as (S & H); [by apply (mapped_run_snoc s0 s s1 s2 lo page flags f); (done || lia) | lia | lia | | done | |].
    + rewrite Z.add_mod, Hal by done. done.
    + unfold pages_from in *. replace (end_ - page + 4095) with (end_ - (page + 4096) + 4095 + 1 * 4096) in Hfuel by lia.
      rewrite Z.div_add in Hfuel by done. lia.
    + split; [done|]. intros Hr. destruct (H Hr) as (hi & H1 & H2 & H3 & H4). exists hi. split_and!; (done || lia).
  - split; [|done]. apply (user_step_trans s0 s); [done|]. by apply (map_failed s s1 s2 root f page flags).
Qed.

(** ** The bytes of a segment *)

Lemma copy_bytes_spec m d image source c : mem_ok m -> 0 <= c -> let m' := copy_bytes m d image source c in
  mem_ok m' /\ forall x, rd m' x = if bool_decide (d <= x < d + c) then u8 (aget 0 image (source + (x - d))) else rd m x.
Proof.
  intros Hm Hc.
  assert (H : forall n, let m' := for_up n 0 (fun i m => wr m (d + i) (aget 0 image (source + i))) m in mem_ok m' /\
    forall x, rd m' x = if bool_decide (d <= x < d + Z.of_nat n) then u8 (aget 0 image (source + (x - d))) else rd m x).
  { induction n as [|n (Hok & Hrd)].
    { split; [done|]. intros x. by rewrite bool_decide_false by lia. }
    rewrite for_up_S, Z.add_0_l. split; [by apply wr_ok|]. intros x. rewrite rd_wr, Hrd.
    repeat case_decide; repeat case_bool_decide; try lia; try done. do 2 f_equal. lia. }
  specialize (H (trips 0 c)). by rewrite trips_size in H.
Qed.

(** [s'] is [s] with the bytes [g] at [lo, hi). *)
Record filled (s s' : vmm_state) (lo hi : Z) (g : Z -> Z) : Prop := {
  fd_step : user_step s s' root;
  fd_pmm : pmm s' = pmm s;
  fd_entry : forall idx, page_path idx -> user_entry s' root idx = user_entry s root idx;
  fd_bytes : forall b, 0 <= b < 2 ^ 47 -> user_byte s' root b = if bool_decide (lo <= b < hi) then Some (g b) else user_byte s root b;
}.

Lemma filled_refl s lo g : user_wf s root -> filled s s lo lo g.
Proof. intros Hwf. split; [by apply user_step_refl | done | done | intros; by rewrite bool_decide_false by lia]. Qed.

Lemma filled_trans s1 s2 s3 lo mid hi g : lo <= mid <= hi -> filled s1 s2 lo mid g -> filled s2 s3 mid hi g -> filled s1 s3 lo hi g.
Proof.
  intros Hm [S1 P1 E1 B1] [S2 P2 E2 B2]. split; [by apply (user_step_trans s1 s2) | congruence | |].
  - intros idx Hidx. by rewrite E2, E1.
  - intros b Hb. rewrite B2, B1 by done. repeat case_bool_decide; (done || lia).
Qed.

(** Pages of the process's own at the addresses [lo, hi). *)
Definition own_pages (s : vmm_state) (lo hi : Z) : Prop :=
  forall b, lo <= b < hi -> exists e, user_entry s root (indices b) = Some e /\ used_page (pmm s) (table_physical e) 1.

Definition image_byte (image : list Z) (program : elf64_program_header) (b : Z) : Z :=
  u8 (aget 0 image (p_offset program + (b - virtual_address program))).

Lemma copy_segment_spec fuel image program copied s :
  let va := virtual_address program in
  user_wf s root -> own_pages s va (va + file_size program) -> 0 <= va -> 0 <= copied <= file_size program -> va + file_size program <= 2 ^ 47 ->
  pages_left (va + copied) (file_size program - copied) < Z.of_nat fuel ->
  let '(r, s') := copy_segment fuel image program copied (Space root) s in
  r = ELF_LOAD_SUCCESS /\ filled s s' (va + copied) (va + file_size program) (image_byte image program).
Proof.
  intros va Hwf Hown Hva. revert s copied Hwf Hown. induction fuel as [|fuel IH]; intros s copied Hwf Hown Hc Hend Hfuel.
  { unfold pages_left in Hfuel. destruct (Z.leb_spec (file_size program - copied) 0); [lia|]. pose proof (Z.mod_pos_bound (va + copied) 4096).
    pose proof (Z.div_pos ((va + copied) mod 4096 + (file_size program - copied) + 4095) 4096). lia. }
  cbn [copy_segment]. destruct (Z.ltb_spec copied (file_size program)) as [Hlt|Hge]; cbn [negb].
  2: { replace copied with (file_size program) by lia. split; [done | by apply filled_refl]. }
  fold va. rewrite (u64_small (va + copied)), (u64_small (file_size program - copied)) by (unfold is_u64; lia). destruct (Hown (va + copied) ltac:(lia)) as (e & He & Hu).
  pose proof (user_entry_u64 s root _ e Hwf (indices_path _) He) as (_ & _ & Hpage). pose proof (Z.mod_pos_bound (va + copied) 4096).
  unfold vmm_space_translate. rewrite (query_user s root (va + copied) e Hwf ltac:(lia) He).
  replace (table_physical e + (va + copied) mod 4096 =? PMM_INVALID_ADDRESS) with false.
  2: { symmetry. apply Z.eqb_neq. unfold PMM_INVALID_ADDRESS, UINT64_MAX. destruct Hpage. lia. }
  rewrite chunk_eq by lia. pose proof (pages_left_step (va + copied) (file_size program - copied) ltac:(lia)) as Hstep.
  set (c := chunk_size (va + copied) (file_size program - copied)) in *.
  assert (Hcr : 0 < c <= file_size program - copied /\ (va + copied) mod 4096 + c <= 4096) by (unfold c, chunk_size; lia).
  rewrite u64_small by (unfold is_u64; lia).
  destruct (copy_bytes_spec (memory s) (table_physical e + (va + copied) mod 4096) image (p_offset program + copied) c) as (Hm & Hrd);
    [apply Hwf | lia |]. set (m := copy_bytes _ _ _ _ _) in *. clearbody m.
  destruct (user_write s root (va + copied) e c (fun d => u8 (aget 0 image (p_offset program + copied + d))) m Hwf) as (S1 & E1 & B1);
    [lia | done | by right | done | lia | done |].
  assert (Hf : filled s (with_memory s m) (va + copied) (va + (copied + c)) (image_byte image program)).
  { split; [done | done | done |]. intros b Hb. rewrite B1 by done. replace (va + (copied + c)) with (va + copied + c) by lia.
    case_bool_decide; [|done]. unfold image_byte. fold va. do 3 f_equal. lia. }
  specialize (IH (with_memory s m) (copied + c) (us_wf _ _ _ S1)). destruct (copy_segment fuel image program (copied + c) _ _) as [r s'].
  replace (va + (copied + c)) with (va + copied + c) in * by lia.
  destruct IH as (Hr & Hf'); [|lia | done | by replace (file_size program - (copied + c)) with (file_size program - copied - c) by lia; lia |].
  - intros b Hb. destruct (Hown b Hb) as (e' & He' & Hu'). exists e'. by rewrite E1 by apply indices_path.
  - split; [done|]. by apply (filled_trans s (with_memory s m) s' _ (va + copied + c)); [lia|..].
Qed.


(** ** load_segment *)

Definition program_ok (p : elf64_program_header) : Prop :=
  is_u64 (virtual_address p) /\ is_u64 (memory_size p) /\ is_u64 (file_size p) /\ is_u64 (p_offset p).

Definition page_lo (p : elf64_program_header) : Z := virtual_address p - virtual_address p mod 4096.

(** The addresses of the pages of a segment. *)
Definition in_segment (p : elf64_program_header) (b : Z) : Prop := page_lo p <= b < page_lo p + 4096 * segment_pages p.

#[global] Instance in_segment_dec p b : Decision (in_segment p b).
Proof. unfold in_segment. apply _. Defined.

(** What the process sees there: the file's bytes, then zeros. *)
Definition segment_byte (image : list Z) (p : elf64_program_header) (b : Z) : Z :=
  if bool_decide (virtual_address p <= b < virtual_address p + file_size p) then image_byte image p b else 0.

Definition segment_valid (image_size : Z) (p : elf64_program_header) : Prop :=
  file_size p <= memory_size p /\ p_offset p + file_size p <= image_size /\ virtual_address p + memory_size p <= 2 ^ 47 /\
  ~ (has (p_flags p) ELF_FLAG_WRITE = true /\ has (p_flags p) ELF_FLAG_EXECUTE = true).

(** The rights of a page of the segment. *)
Definition segment_rights (p : elf64_program_header) (e : Z) : Prop :=
  has e VMM_WRITABLE = has (p_flags p) ELF_FLAG_WRITE /\ has e VMM_NO_EXECUTE = negb (has (p_flags p) ELF_FLAG_EXECUTE).

Record segment_loaded (s s' : vmm_state) (image : list Z) (image_size : Z) (p : elf64_program_header) : Prop := {
  sg_valid : segment_valid image_size p;
  sg_bytes : forall b, 0 <= b < 2 ^ 47 -> user_byte s' root b =
    if bool_decide (in_segment p b) then Some (segment_byte image p b) else user_byte s root b;
  sg_new : forall b, in_segment p b -> user_entry s root (indices b) = None /\
    exists e, user_entry s' root (indices b) = Some e /\ segment_rights p e;
  sg_old : forall b, 0 <= b < 2 ^ 47 -> ~ in_segment p b -> user_entry s' root (indices b) = user_entry s root (indices b);
}.

Lemma range_valid_iff a n limit : is_u64 a -> is_u64 n -> is_u64 limit -> range_valid a n limit = true <-> a + n <= limit.
Proof.
  unfold range_valid, is_u64. intros Ha Hn Hl. rewrite andb_true_iff, !Z.leb_le. split.
  - intros (H1 & H2). rewrite u64_small in H2 by (unfold is_u64; lia). lia.
  - intros H. rewrite u64_small by (unfold is_u64; lia). lia.
Qed.

Lemma page_floor_eq a : is_u64 a -> page_floor a = a - a mod 4096.
Proof. intros Ha. unfold page_floor. change (PMM_PAGE_SIZE - 1) with (2 ^ 12 - 1). by rewrite land_mask_down. Qed.

Lemma segment_pages_eq p : program_ok p -> virtual_address p + memory_size p <= 2 ^ 47 -> memory_size p <> 0 ->
  segment_pages p = (virtual_address p + memory_size p - 1 - page_lo p) / 4096 + 1 /\
  virtual_address p + memory_size p <= page_lo p + 4096 * segment_pages p < virtual_address p + memory_size p + 4096.
Proof.
  intros (Hva & Hms & _) Hend Hm0. unfold segment_pages. rewrite (proj2 (Z.eqb_neq _ _)) by done. rewrite page_floor_eq by done. fold (page_lo p).
  unfold is_u64 in *. assert (Hlo : 0 <= page_lo p <= virtual_address p).
  { unfold page_lo. pose proof (Z.mod_pos_bound (virtual_address p) 4096). pose proof (Z.mod_le (virtual_address p) 4096). lia. }
  rewrite (u64_small (virtual_address p + memory_size p)), (u64_small (virtual_address p + memory_size p - 1)),
    (u64_small (virtual_address p + memory_size p - 1 - page_lo p)) by (unfold is_u64; lia).
  unfold PMM_PAGE_SIZE. set (d := virtual_address p + memory_size p - 1 - page_lo p). assert (0 <= d < 2 ^ 47) by lia.
  pose proof (Z.div_mod d 4096). pose proof (Z.mod_pos_bound d 4096). rewrite u64_small by (unfold is_u64; lia). lia.
Qed.

Lemma segment_flags_spec p : let fl := segment_flags p in
  has fl VMM_USER = true /\ has fl VMM_COPY_ON_WRITE = false /\
  has fl VMM_WRITABLE = has (p_flags p) ELF_FLAG_WRITE /\ has fl VMM_NO_EXECUTE = negb (has (p_flags p) ELF_FLAG_EXECUTE).
Proof. unfold segment_flags. by destruct (has (p_flags p) ELF_FLAG_WRITE), (has (p_flags p) ELF_FLAG_EXECUTE). Qed.

Lemma load_segment_spec image image_size p s :
  user_wf s root -> program_ok p -> is_u64 image_size ->
  let '(r, s') := load_segment image image_size p (Space root) s in
  user_step s s' root /\ (r = ELF_LOAD_SUCCESS -> segment_loaded s s' image image_size p).
Proof.
  intros Hwf Hp Hi. pose proof Hp as (Hva & Hms & Hfs & Hof). unfold load_segment. pose proof (user_step_refl s root Hwf) as Hrefl.
  destruct (_ || _ || _ || _) eqn:Hbad; [by split|]. apply orb_false_iff in Hbad as ((( Hb1 & Hb2)%orb_false_iff & Hb3)%orb_false_iff & Hb4).
  apply Z.ltb_ge in Hb1. apply negb_false_iff, range_valid_iff in Hb2, Hb3; try done. change USER_ADDRESS_LIMIT with (2 ^ 47) in Hb3.
  assert (Hvalid : segment_valid image_size p).
  { split_and!; try done. intros (E1 & E2). by rewrite E1, E2 in Hb4. }
  destruct (Z.eqb_spec (memory_size p) 0) as [Hm0|Hm0].
  { split; [done|]. intros _. assert (Hno : forall b, ~ in_segment p b) by (intros b; unfold in_segment, segment_pages; rewrite Hm0; cbn; lia).
    split; [done | | |done]. - intros b Hb. by rewrite bool_decide_false. - intros b Hb. by apply Hno in Hb. }
  destruct (segment_pages_eq p Hp Hb3 Hm0) as (_ & Hhi). destruct (segment_flags_spec p) as (HU & HC & HW & HX).
  unfold is_u64 in Hva, Hms, Hfs, Hof. rewrite u64_small, page_floor_eq by (unfold is_u64; lia). fold (page_lo p).
  assert (Hlo : 0 <= page_lo p <= virtual_address p /\ page_lo p mod 4096 = 0).
  { destruct (page_start (virtual_address p) ltac:(lia)) as (? & ? & _). unfold page_lo in *.
    pose proof (Z.mod_pos_bound (virtual_address p) 4096). split; [lia | done]. }
  pose proof (map_segment_spec (page_fuel (memory_size p)) (page_lo p) (virtual_address p + memory_size p) (segment_flags p) s s
    (page_lo p) (mapped_run_refl s _ _ Hwf) HU HC ltac:(lia) ltac:(lia) (proj2 Hlo) Hb3 (range_fuel (virtual_address p) (memory_size p) ltac:(lia) ltac:(lia))) as Hmap.
  destruct (map_segment _ _ _ _ _ s) as [r1 s1]. destruct Hmap as (S1 & Hmap). destruct r1; [by split | by split |].
  destruct (Hmap eq_refl) as (hi & _ & Hhi1 & Hal & Hrun). clear Hmap.
  assert (hi = page_lo p + 4096 * segment_pages p) as ->.
  { pose proof (Z.div_mod hi 4096). pose proof (Z.div_mod (page_lo p) 4096). lia. }
  pose proof (copy_segment_spec (page_fuel (file_size p)) image p 0 s1 (us_wf _ _ _ S1)) as Hcopy. cbv zeta in Hcopy.
  rewrite Z.add_0_r, Z.sub_0_r in Hcopy. destruct (copy_segment _ image p 0 _ s1) as [r s'].
  destruct Hcopy as (-> & [S2 P2 E2 B2]); [| lia | lia | lia | apply left_fuel; lia |].
  { intros b Hb. destruct (mr_new _ _ _ _ _ Hrun b ltac:(lia)) as (_ & f & Hf & He & Hu).
    destruct (leaf_entry_spec f (segment_flags p) Hf) as (_ & _ & Hph). exists (leaf_entry f (segment_flags p)). by rewrite Hph. }
  split; [by apply (user_step_trans s s1)|]. intros _. split; [done | | |].
  - intros b Hb. rewrite B2, (mr_bytes _ _ _ _ _ Hrun) by done. unfold segment_byte, in_segment. repeat case_bool_decide; (done || lia).
  - intros b Hb. destruct (mr_new _ _ _ _ _ Hrun b Hb) as (Hn & f & Hf & He & _). split; [done|]. exists (leaf_entry f (segment_flags p)).
    rewrite E2 by apply indices_path. split; [done|]. unfold segment_rights. rewrite <- HW, <- HX. flags. by rewrite !leaf_entry_bit by auto.
  - intros b Hb Hout. rewrite E2 by apply indices_path. by apply (mr_old _ _ _ _ _ Hrun).
Qed.


(** ** The program headers *)

Lemma in_segment_low image_size p b : program_ok p -> segment_valid image_size p -> in_segment p b -> 0 <= b < 2 ^ 47.
Proof.
  intros Hp (_ & _ & Hend & _) Hb. pose proof Hp as (Hva & _). unfold is_u64 in Hva.
  destruct (decide (memory_size p = 0)) as [Hm0|Hm0].
  { unfold in_segment, segment_pages in Hb. rewrite Hm0 in Hb. cbn in Hb. lia. }
  destruct (segment_pages_eq p Hp Hend Hm0) as (_ & Hhi). unfold in_segment in Hb.
  assert (Hlo : 0 <= page_lo p /\ page_lo p mod 4096 = 0).
  { destruct (page_start (virtual_address p)) as (? & ? & _); [destruct Hp as (_ & Hms & _); unfold is_u64 in Hms; lia|]. unfold page_lo in *. split; [lia | done]. }
  pose proof (Z.div_mod (page_lo p) 4096). change (2 ^ 47) with (34359738368 * 4096) in *. lia.
Qed.

(** The segments of the headers in [P] are in place, and nothing else changed. *)
Record loaded (s0 s : vmm_state) (image : list Z) (image_size : Z) (P : elf64_program_header -> Prop) : Prop := {
  ld_step : user_step s0 s root;
  ld_valid : forall p, P p -> program_ok p /\ segment_valid image_size p;
  ld_in : forall p b, P p -> in_segment p b -> user_byte s root b = Some (segment_byte image p b) /\
    exists e, user_entry s root (indices b) = Some e /\ segment_rights p e;
  ld_new : forall p b, P p -> in_segment p b -> user_entry s0 root (indices b) = None;
  ld_out : forall b, 0 <= b < 2 ^ 47 -> (forall p, P p -> ~ in_segment p b) ->
    user_byte s root b = user_byte s0 root b /\ user_entry s root (indices b) = user_entry s0 root (indices b);
}.

Lemma loaded_add s0 s s' image image_size P p :
  loaded s0 s image image_size P -> user_step s s' root -> program_ok p -> segment_loaded s s' image image_size p ->
  loaded s0 s' image image_size (fun q => P q \/ q = p).
Proof.
  intros [S V I N O] S' Hp [SV SB SN SO]. split.
  - by apply (user_step_trans s0 s).
  - intros q [Hq| ->]; [by apply V | done].
  - intros q b [Hq| ->] Hb.
    + destruct (V q Hq) as (Hqo & Hqv). pose proof (in_segment_low _ _ _ Hqo Hqv Hb) as Hlow. destruct (I q b Hq Hb) as (HB & e & He & Hr).
      assert (Hno : ~ in_segment p b) by (intros Hb'; destruct (SN b Hb') as (? & _); congruence).
      rewrite SB, bool_decide_false by done. split; [done|]. exists e. by rewrite SO.
    + pose proof (in_segment_low _ _ _ Hp SV Hb) as Hlow. rewrite SB, bool_decide_true by done. split; [done|]. by apply SN.
  - intros q b [Hq| ->] Hb; [by apply (N q)|]. destruct (SN b Hb) as (Hnone & _).
    rewrite <- Hnone. symmetry. apply O; [by apply (in_segment_low image_size p)|]. intros r Hr Hb'.
    destruct (I r b Hr Hb') as (_ & e & He & _). congruence.
  - intros b Hb Hout. destruct (O b Hb) as (<- & <-); [intros q Hq; apply Hout; by left|].
    assert (Hno : ~ in_segment p b) by (apply Hout; by right). rewrite SB, bool_decide_false by done. split; [done | by apply SO].
Qed.

Definition bytes_ok (image : list Z) : Prop := Forall (fun b => 0 <= b < 256) image.

Lemma field_range n image o : bytes_ok image -> 0 <= field n image o < 256 ^ Z.of_nat n.
Proof.
  intros Hb. revert o. induction n as [|n IH]; intros o; [done|]. cbn [field]. specialize (IH (o + 1)).
  assert (0 <= aget 0 image o < 256) by (apply (Forall_aget (fun b => 0 <= b < 256)); (done || lia)).
  rewrite Nat2Z.inj_succ, Z.pow_succ_r by lia. lia.
Qed.

Lemma program_at_ok image base : bytes_ok image -> program_ok (program_at image base).
Proof. intros Hb. unfold program_ok, is_u64, program_at. cbn [virtual_address memory_size file_size p_offset]. split_and!; by apply (field_range 8). Qed.

Section Programs.
Context (image : list Z) (image_size page_limit : Z) (header : elf64_header).
Context (Hbytes : bytes_ok image) (Hsize : is_u64 image_size) (Hlimit : is_u64 page_limit).

(** The loadable headers among the first [i]. *)
Definition program_of (i : Z) (p : elf64_program_header) : Prop :=
  exists j, 0 <= j < i /\ p = program_at image (program_offset header + j * PROGRAM_HEADER_SIZE) /\ p_type p = ELF_PROGRAM_LOAD.

(** The pages of the loadable segments among the first [i]. *)
Definition program_pages (i : Z) : Z :=
  sum_up (trips 0 i) 0 (fun j =>
    let p := program_at image (program_offset header + j * PROGRAM_HEADER_SIZE) in
    if p_type p =? ELF_PROGRAM_LOAD then segment_pages p else 0).

Lemma program_pages_succ i : 0 <= i -> let q := program_at image (program_offset header + i * PROGRAM_HEADER_SIZE) in
  program_pages (i + 1) = program_pages i + (if p_type q =? ELF_PROGRAM_LOAD then segment_pages q else 0).
Proof.
  intros Hi q. unfold program_pages, trips. replace (Z.to_nat (i + 1 - 0)) with (S (Z.to_nat (i - 0))) by lia.
  rewrite sum_up_snoc. replace (0 + Z.of_nat (Z.to_nat (i - 0))) with i by lia. done.
Qed.

Lemma segment_pages_nonneg p : 0 <= segment_pages p.
Proof. unfold segment_pages. case_match; [done | apply u64_range]. Qed.

Lemma program_pages_nonneg i : 0 <= program_pages i.
Proof. apply sum_up_nonneg. intros k Hk. cbv zeta. case_match; [apply segment_pages_nonneg | done]. Qed.

(** What the loop has found so far. *)
Record progress (s0 s : vmm_state) (i : Z) (exec : bool) (highest total : Z) : Prop := {
  pg_loaded : loaded s0 s image image_size (program_of i);
  pg_exec : exec = true <-> exists p, program_of i p /\ entry_in header p = true;
  pg_highest : 0 <= highest /\ (forall p, program_of i p -> virtual_address p + memory_size p <= highest) /\
    (highest = 0 \/ exists p, program_of i p /\ highest = virtual_address p + memory_size p);
  pg_total : 0 <= total <= page_limit /\ total = program_pages i;
}.

Lemma program_of_succ i p : 0 <= i -> let q := program_at image (program_offset header + i * PROGRAM_HEADER_SIZE) in
  program_of (i + 1) p <-> program_of i p \/ (p = q /\ p_type q = ELF_PROGRAM_LOAD).
Proof.
  intros Hi q. split.
  - intros (j & Hj & -> & Ht). destruct (decide (j = i)) as [->|Hne]; [by right|]. left. exists j. split_and!; (done || lia).
  - intros [(j & Hj & -> & Ht)|(-> & Ht)]; [exists j | exists i]; split_and!; (done || lia).
Qed.

Lemma loaded_ext s0 s (P Q : elf64_program_header -> Prop) :
  (forall p, P p <-> Q p) -> loaded s0 s image image_size P -> loaded s0 s image image_size Q.
Proof.
  intros H [S V I N O]. split; [done | | | |].
  - intros p Hp. by apply V, H.
  - intros p b Hp. by apply I, H.
  - intros p b Hp. apply (N p). by apply H.
  - intros b Hb Hout. apply O; [done|]. intros p Hp. by apply Hout, H.
Qed.

Lemma load_programs_spec n i exec highest total s0 s :
  0 <= i -> progress s0 s i exec highest total ->
  let '((r, (exec', highest', total')), s') := load_programs n i image image_size header (Space root) page_limit exec highest total s in
  user_step s0 s' root /\ (r = ELF_LOAD_SUCCESS -> progress s0 s' (i + Z.of_nat n) exec' highest' total').
Proof.
  revert i exec highest total s. induction n as [|n IH]; intros i exec highest total s Hi Hpg; cbn [load_programs].
  { rewrite Z.add_0_r. split; [apply Hpg | done]. }
  set (q := program_at image (program_offset header + i * PROGRAM_HEADER_SIZE)).
  assert (Hq : program_ok q) by (by apply program_at_ok). pose proof (program_of_succ i) as Hsucc. cbv zeta in Hsucc. fold q in Hsucc.
  replace (i + Z.of_nat (S n)) with (i + 1 + Z.of_nat n) by lia. destruct Hpg as [L E (H0 & H & HA) (T & Tsum)].
  pose proof (program_pages_succ i Hi) as Hsum. cbv zeta in Hsum. fold q in Hsum. pose proof (ld_step _ _ _ _ _ L) as S0.
  destruct (Z.eqb_spec (p_type q) ELF_PROGRAM_LOAD) as [Ht|Ht]; cbn [negb].
  2: { assert (Hsame : forall p, program_of i p <-> program_of (i + 1) p) by (intros p; rewrite Hsucc by done; tauto).
       apply IH; [lia|]. split; [by apply (loaded_ext s0 s (program_of i)) | | |lia].
       - rewrite E. split; intros (p & Hp & ?); exists p; (split; [by apply Hsame | done]).
       - split_and!; [done | intros p Hp; by apply H, Hsame|]. destruct HA as [?|(p & Hp & ?)]; [by left | right].
         exists p. split; [by apply Hsame | done]. }
  pose proof Hq as (Hva & Hms & _). change USER_ADDRESS_LIMIT with (2 ^ 47).
  destruct (range_valid _ _ (2 ^ 47)) eqn:Hrv; cbn [negb]; [|done]. apply range_valid_iff in Hrv; [|done..]. unfold is_u64 in Hva, Hms, Hlimit.
  rewrite (u64_small (page_limit - total)) by (unfold is_u64; lia). destruct (Z.ltb_spec (page_limit - total) (segment_pages q)) as [Hlt|Hge]; [done|].
  pose proof (load_segment_spec image image_size q s (us_wf _ _ _ S0) Hq Hsize) as Hseg.
  destruct (load_segment image image_size q (Space root) s) as [r1 s1]. destruct Hseg as (S1 & Hseg).
  pose proof (user_step_trans _ _ _ _ S0 S1) as S01. destruct r1; [by split | by split |].
  rewrite (u64_small (virtual_address q + memory_size q)) by (unfold is_u64; lia).
  pose proof (segment_pages_nonneg q) as Hpos.
  rewrite (u64_small (total + segment_pages q)) by (unfold is_u64; lia).
  apply IH; [lia|]. split.
  - apply (loaded_ext s0 s1 (fun p => program_of i p \/ p = q)); [intros p; rewrite Hsucc by done; tauto|]. apply (loaded_add s0 s); auto.
  - destruct (entry_in header q) eqn:He.
    + split; [|done]. intros _. exists q. split; [|done]. rewrite Hsucc by done. by right.
    + rewrite E. split; intros (p & Hp & Hin); exists p; (split; [|done]).
      * rewrite Hsucc by done. by left.
      * rewrite Hsucc in Hp by done. destruct Hp as [?|(-> & _)]; [done | congruence].
  - split_and!; [case_match; lia | |].
    + intros p Hp. rewrite Hsucc in Hp by done.
      destruct (Z.ltb_spec highest (virtual_address q + memory_size q)); destruct Hp as [Hp|(-> & _)]; try (pose proof (H p Hp)); lia.
    + destruct (highest <? _); [right; exists q; rewrite Hsucc by done; by auto|].
      destruct HA as [?|(p & Hp & ?)]; [by left | right]. exists p. rewrite Hsucc by done. by auto.
  - lia.
Qed.

End Programs.


End Segment.


(** ** Theorems *)

Lemma header_valid header image_size : is_u64 (program_offset header) -> is_u64 image_size -> 0 <= program_count header < 2 ^ 16 ->
  header_invalid header image_size = false ->
  program_offset header + program_count header * PROGRAM_HEADER_SIZE <= image_size /\ entry header < 2 ^ 47.
Proof.
  intros Ho Hi Hc H. unfold header_invalid in H. apply orb_false_iff in H as (H & He). apply orb_false_iff in H as (H & Hr).
  apply orb_false_iff in H as (H & _). apply orb_false_iff in H as (_ & Hp). apply Z.leb_gt in He. apply negb_false_iff, Z.eqb_eq in Hp.
  rewrite Hp in Hr. unfold PROGRAM_HEADER_SIZE in *. rewrite (u64_small (program_count header * 56)) in Hr by (unfold is_u64; lia).
  apply negb_false_iff, range_valid_iff in Hr; [|done | unfold is_u64; lia | done]. split; [lia | done].
Qed.

(** The entry point of a program lies in its pages. *)
Lemma entry_in_segment header image_size p : is_u64 (entry header) -> program_ok p -> segment_valid image_size p -> entry_in header p = true ->
  in_segment p (entry header) /\ has (p_flags p) ELF_FLAG_EXECUTE = true.
Proof.
  intros He Hp (_ & _ & Hend & _) H. unfold entry_in in H. apply andb_true_iff in H as (H & H3). apply andb_true_iff in H as (H1 & H2).
  apply Z.leb_le in H2. apply Z.ltb_lt in H3. pose proof Hp as (Hva & Hms & _). unfold is_u64 in *.
  rewrite u64_small in H3 by (unfold is_u64; lia). destruct (segment_pages_eq p Hp Hend ltac:(lia)) as (_ & Hhi).
  split; [|done]. unfold in_segment. assert (page_lo p <= virtual_address p); [|lia].
  unfold page_lo. pose proof (Z.mod_pos_bound (virtual_address p) 4096). lia.
Qed.

(** What a header the loader accepts says. *)
Record header_checked (header : elf64_header) : Prop := {
  hc_ident : take 7 (ident header) = [0x7F; 0x45; 0x4C; 0x46; 2; 1; 1];
  hc_type : h_type header = 2 /\ machine header = 62 /\ version header = 1;
  hc_programs : program_entry_size header = 56 /\ program_count header <> 0;
}.

Lemma header_checks header image_size : length (ident header) = 16%nat -> header_invalid header image_size = false -> header_checked header.
Proof.
  intros Hl H. unfold header_invalid in H. repeat (apply orb_false_iff in H as (H & ?)).
  repeat match goal with E : negb _ = false |- _ => apply negb_false_iff in E end.
  repeat match goal with E : (_ =? _) = true |- _ => apply Z.eqb_eq in E end.
  destruct (ident header) as [|i0 [|i1 [|i2 [|i3 [|i4 [|i5 [|i6 l]]]]]]] eqn:E; try done.
  change (i0 = 127) in H. change (i1 = 69) in H12. change (i2 = 76) in H11. change (i3 = 70) in H10. change (i4 = 2) in H9.
  change (i5 = 1) in H8. change (i6 = 1) in H7. split; [rewrite E; subst; reflexivity | done | split; [done | by apply Z.eqb_neq]].
Qed.

(** The state and the outputs after a load. *)
Lemma elf_load_spec image root page_limit s :
  user_wf s root -> bytes_ok image -> alen image < 2 ^ 64 -> is_u64 page_limit ->
  let header := header_at image in
  let loads := program_of image header (program_count header) in
  let '((r, out), s') := elf_load (Some image) (alen image) (Some (Space root)) page_limit true s in
  user_step s s' root /\
  match r with
  | ELF_LOAD_SUCCESS =>
      header_checked header /\ program_offset header + program_count header * PROGRAM_HEADER_SIZE <= alen image /\
      loaded root s s' image (alen image) loads /\ (exists p, loads p /\ entry_in header p = true) /\
      program_pages image header (program_count header) <= page_limit /\
      exists image_end, out = Some (entry header, image_end, program_pages image header (program_count header)) /\
        0 <= image_end < USER_STACK_ADDRESS - PMM_PAGE_SIZE /\ (forall p, loads p -> virtual_address p + memory_size p <= image_end) /\
        exists p, loads p /\ image_end = virtual_address p + memory_size p
  | _ => out = None
  end.
Proof.
  intros Hwf Hbytes Hlen Hlimit header loads. assert (Hsize : is_u64 (alen image)) by (unfold is_u64, alen in *; lia).
  pose proof (user_step_refl s root Hwf) as Hrefl. unfold elf_load. cbn [negb orb]. fold header.
  destruct (alen image <? HEADER_SIZE); [done|]. destruct (header_invalid header (alen image)) eqn:Hh; [done|].
  pose proof (field_range 8 image 32 Hbytes) as Hoff. pose proof (field_range 2 image 56 Hbytes) as Hcount.
  destruct (header_valid header (alen image)) as (Hprog & _); try done.
  pose proof (load_programs_spec root image (alen image) page_limit header Hbytes Hsize Hlimit (Z.to_nat (program_count header)) 0 false 0 0 s s) as H.
  destruct (load_programs _ 0 image _ header _ _ false 0 0 s) as [[r [[exec highest] total]] s'].
  assert (Hnone : forall p, ~ program_of image header 0 p) by (intros p (j & Hj & _); lia).
  destruct H as (S & H); [done | |].
  { split; [split; [done | | | |done] | | |]; try (intros p; intros; by destruct (Hnone p)); [|split_and!; [lia| |by left] | unfold is_u64 in Hlimit; split; [lia | done]].
    - split; [done|]. by intros (p & Hp%Hnone & _).
    - intros p Hp. by destruct (Hnone p). }
  destruct r; [done | done |]. specialize (H eq_refl). rewrite Z.add_0_l, Z2Nat.id in H by (cbn in *; lia). destruct H as [L LE (LH0 & LH & LA) (LT & LS)].
  destruct exec; cbn [negb]; [|done]. rewrite (u64_small (USER_STACK_ADDRESS - PMM_PAGE_SIZE)) by done.
  destruct (Z.leb_spec (USER_STACK_ADDRESS - PMM_PAGE_SIZE) highest) as [Hbig|Hsmall]; [done|].
  destruct (proj1 LE eq_refl) as (p & Hp & Hin). rewrite <- LS.
  split_and!; [done | by apply (header_checks _ (alen image)) | done | done | by exists p | lia |]. exists highest. split_and!; [done | done | done | done |].
  destruct LA as [Hz|?]; [|done]. exists p. split; [done|]. pose proof (LH p Hp).
  destruct (ld_valid _ _ _ _ _ _ L p Hp) as ((Hva & Hms & _) & _). unfold is_u64 in Hva, Hms. lia.
Qed.

(** C11 Loading an executable.  On success every loadable segment is in place:
    the process sees the file's bytes and then zeros on its pages, with the
    rights the header asks for (never writable and executable), pages that were
    not mapped before; the header has the magic number, class, byte order,
    versions, type and machine of a 64-bit x86 executable; all headers and file
    bytes were read inside the image; the entry point is on an executable page;
    the end reported is the highest end of a segment and lies below the stack;
    the number of pages reported is the sum over the loadable segments and at
    most the limit, so an image with more pages than that is never loaded; and
    every other address shows what it showed before.  A failure is reported
    without outputs.  On every path the space stays well formed and memory the
    process may not write keeps its bytes. *)
Theorem elf_load_correct image root page_limit s :
  user_wf s root -> bytes_ok image -> alen image < 2 ^ 64 -> is_u64 page_limit ->
  let header := header_at image in
  let loads := program_of image header (program_count header) in
  let '((r, out), s') := elf_load (Some image) (alen image) (Some (Space root)) page_limit true s in
  user_wf s' root /\ (forall x, foreign s root x -> rd (memory s') x = rd (memory s) x) /\
  match r with
  | ELF_LOAD_SUCCESS =>
      header_checked header /\ program_offset header + program_count header * PROGRAM_HEADER_SIZE <= alen image /\
      program_pages image header (program_count header) <= page_limit /\
      (exists image_end, out = Some (entry header, image_end, program_pages image header (program_count header)) /\
         image_end < USER_STACK_ADDRESS - PMM_PAGE_SIZE /\ (forall p, loads p -> virtual_address p + memory_size p <= image_end) /\
         exists p, loads p /\ image_end = virtual_address p + memory_size p) /\
      (exists e, user_entry s' root (indices (entry header)) = Some e /\ has e VMM_NO_EXECUTE = false) /\
      (forall p, loads p -> segment_valid (alen image) p /\ forall b, in_segment p b ->
         user_entry s root (indices b) = None /\ user_byte s' root b = Some (segment_byte image p b) /\
         exists e, user_entry s' root (indices b) = Some e /\ segment_rights p e) /\
      (forall b, 0 <= b < 2 ^ 47 -> (forall p, loads p -> ~ in_segment p b) -> user_byte s' root b = user_byte s root b)
  | _ => out = None
  end.
Proof.
  intros Hwf Hbytes Hlen Hlimit header loads. pose proof (elf_load_spec image root page_limit s Hwf Hbytes Hlen Hlimit) as H. cbv zeta in H.
  destruct (elf_load _ _ _ _ _ s) as [[r out] s']. destruct H as (S & H). split; [apply S|]. split; [intros x Hx; by apply (us_foreign _ _ _ S)|].
  destruct r; [done | done |]. destruct H as (Hhead & Hprog & [_ LV LI LN LO] & (p & Hp & Hin) & Hpg & image_end & -> & Hend & LH & LA).
  split_and!; [done | done | done | | | |].
  - exists image_end. split_and!; (done || lia).
  - destruct (LV p Hp) as (Hok & Hv). pose proof (field_range 8 image 24 Hbytes) as Hentry.
    destruct (entry_in_segment header (alen image) p Hentry Hok Hv Hin) as (Hseg & HX). destruct (LI p _ Hp Hseg) as (_ & e & He & _ & HN).
    exists e. by rewrite HN, HX.
  - intros q Hq. split; [by apply LV|]. intros b Hb. split; [by apply (LN q) | by apply LI].
  - intros b Hb Hout. by apply LO.
Qed.


(** ** A small executable loaded into an empty space *)

Fixpoint le (n : nat) (v : Z) : list Z := match n with O => [] | S n => v mod 256 :: le n (v / 256) end.

Definition sample_image : list Z :=
  [0x7F; 0x45; 0x4C; 0x46; 2; 1; 1; 0; 0; 0; 0; 0; 0; 0; 0; 0] ++ le 2 2 ++ le 2 62 ++ le 4 1 ++ le 8 0x400010 ++ le 8 64 ++
  le 8 0 ++ le 4 0 ++ le 2 64 ++ le 2 56 ++ le 2 1 ++ le 6 0 ++
  le 4 1 ++ le 4 5 ++ le 8 120 ++ le 8 0x400010 ++ le 8 0 ++ le 8 3 ++ le 8 8 ++ le 8 4096 ++ [0xF4; 0xEB; 0xFD].

Definition load_entries : list limine_memmap_entry := [mk_entry 0x10000 0x500000 LIMINE_MEMMAP_USABLE].
Definition load_pmm0 : pmm_state := snd (pmm_init (Some load_entries) (Some 0xFFFF800000000000) pmm_static).
Definition load_root : Z := fst (pmm_alloc_page load_pmm0).
Definition load_state : vmm_state := mk_vmm (snd (pmm_alloc_page load_pmm0)) ∅ load_root 0 [].

Lemma load_pmm0_wf : pmm_wf load_pmm0.
Proof.
  apply (init_wf load_entries 0xFFFF800000000000); [|vm_compute; reflexivity]. split.
  - repeat constructor; simpl; try lia; intros; done.
  - repeat constructor; unfold entries_disjoint; simpl; intros; (done || lia).
Qed.

Lemma load_success : fst (elf_load (Some sample_image) (alen sample_image) (Some (Space load_root)) 16 true load_state) =
  (ELF_LOAD_SUCCESS, Some (0x400010, 0x400018, 1)).
Proof. vm_compute. reflexivity. Qed.


Lemma sample_bytes : bytes_ok sample_image.
Proof. unfold bytes_ok. apply (bool_decide_unpack _). vm_compute. exact I. Qed.

Lemma load_state_wf : user_wf load_state load_root.
Proof.
  apply empty_user_wf; [exact (alloc_wf _ load_pmm0_wf) | |].
  - split; [vm_compute; reflexivity | vm_compute; split; [discriminate | reflexivity]].
  - intros _. vm_compute. discriminate.
Qed.

#[local] Opaque load_state load_root.

Lemma elf_load_correct_witness :
  user_byte (snd (elf_load (Some sample_image) (alen sample_image) (Some (Space load_root)) 16 true load_state)) load_root 0x400011 = Some 0xEB.
Proof.
  pose proof (elf_load_correct sample_image load_root 16 load_state load_state_wf) as H. cbv zeta in H. pose proof load_success as Hok.
  destruct (elf_load (Some sample_image) (alen sample_image) (Some (Space load_root)) 16 true load_state) as [[r out] s'].
  cbn [fst] in Hok. injection Hok as -> ->. cbn [snd].
  destruct H as (_ & _ & _ & _ & _ & _ & _ & Hin & _); [exact sample_bytes | by vm_compute | unfold is_u64; lia |].
  destruct (Hin (program_at sample_image 64)) as (_ & Hb); [exists 0; by vm_compute|].
  destruct (Hb 0x400011) as (_ & Hbyte & _); [by vm_compute|]. rewrite Hbyte. vm_compute. reflexivity.
Defined.


End Elf.
