(* ===== verification/CString.v ===== *)
(** * CString: C strings as the kernel uses them

    A C string is the list of its bytes up to the terminating NUL, so that a
    pointer into it is a suffix, and a character array that is only ever used
    as a string is that list.  Reading at the length gives the NUL. *)

From stdpp Require Export strings.
From S2P Require Import Prelude.

Module CString.

Abbreviation cstr := (list Z).

(** A string literal. *)
Fixpoint str (s : string) : cstr :=
  match s with
  | EmptyString => []
  | String c s => Z.of_N (Ascii.N_of_ascii c) :: str s
  end.

Arguments str _%_string_scope.

Definition NUL : Z := 0.
Definition SLASH : Z := 47.
Definition DOT : Z := 46.

(** [s[i]] *)
Definition ch (s : cstr) (i : Z) : Z := aget NUL s i.

(** No NUL inside. *)
Definition cstr_ok (s : cstr) : Prop := Forall (fun c => c <> NUL) s.

(** The comparison loop of [name_equal] and [names_equal]. *)
Fixpoint name_equal (l r : cstr) : bool :=
  match l, r with
  | a :: l, b :: r => if a =? b then name_equal l r else false
  | [], [] => true
  | _, _ => false
  end.

(** [while (prefix[i] && path[i] == prefix[i]) i++;], and what is left of
    [path] when the whole of [prefix] was seen. *)
Fixpoint after_prefix (prefix path : cstr) : option cstr :=
  match prefix, path with
  | [], _ => Some path
  | p :: prefix, c :: path => if c =? p then after_prefix prefix path else None
  | _ :: _, [] => None
  end.

Definition has_slash (s : cstr) : bool := existsb (fun c => c =? SLASH) s.

Lemma name_equal_spec l r : name_equal l r = bool_decide (l = r).
Proof.
  revert r. induction l as [|a l IH]; intros [|b r]; simpl; [done | done | done |].
  destruct (Z.eqb_spec a b) as [->|Hne].
  - rewrite IH. apply bool_decide_ext. split; [by intros -> | by intros [= ->]].
  - symmetry. apply bool_decide_false. by intros [= ? ?].
Qed.

Lemma name_equal_true l r : name_equal l r = true <-> l = r.
Proof. rewrite name_equal_spec. apply bool_decide_eq_true. Qed.

Lemma name_equal_refl l : name_equal l l = true.
Proof. by apply name_equal_true. Qed.

Lemma after_prefix_Some prefix path rest : after_prefix prefix path = Some rest <-> path = prefix ++ rest.
Proof.
  revert path. induction prefix as [|p prefix IH]; intros path; simpl; [naive_solver|].
  destruct path as [|c path]; [split; discriminate|]. destruct (Z.eqb_spec c p) as [->|Hne].
  - rewrite IH. split; [by intros -> | by intros [= ->]].
  - split; [discriminate | intros [= ? ?]; congruence].
Qed.

Lemma has_slash_false s : has_slash s = false <-> SLASH ∉ s.
Proof.
  unfold has_slash. split.
  - intros H Hin. assert (existsb (fun c => c =? SLASH) s = true) as H'; [|congruence].
    apply existsb_exists. exists SLASH. split; [by apply list_elem_of_In | done].
  - intros H. apply not_true_is_false. intros H'. apply existsb_exists in H' as (x & Hx & ->%Z.eqb_eq).
    by apply H, list_elem_of_In.
Qed.

Lemma ch_cons c s i : 0 < i -> ch (c :: s) i = ch s (i - 1).
Proof. intros. unfold ch, aget. destruct (Z.to_nat i) eqn:E; [lia|]. simpl. do 2 f_equal. lia. Qed.

Lemma ch_0 s : cstr_ok s -> (ch s 0 =? NUL) = bool_decide (s = []).
Proof.
  intros Hs. destruct s as [|c s]; [done|]. apply Forall_cons in Hs as (Hc & _). 
  rewrite bool_decide_false by done. by apply Z.eqb_neq.
Qed.

End CString.
