(* ===== verification/Ramfs.v ===== *)
(** * Ramfs: the file system in memory (src/fs/ramfs.c)

    The file table and the directory list with the file data in the kernel
    memory, in buffers of an [Allocator].  A name array is its string, the
    [directories] array is the list of its first [directory_count] rows, and a
    pointer argument that may be NULL is an option.

    The abstract file system is a map from names to contents; [ramfs_ok]
    relates it to the table, the buffers and the live extents of the heap. *)

From S2P Require Import Prelude Memory Vmm KernelPages Kmalloc CString.
Import Memory.Memory Vmm.Vmm KernelPages.KernelPages Kmalloc.Kmalloc CString.CString.
Local Open Scope Z_scope.

Module Ramfs.

Definition RAMFS_MAX_FILES : Z := 64.
Definition RAMFS_MAX_DIRECTORIES : Z := 16.
Definition RAMFS_NAME_SIZE : Z := 256.
Definition RAMFS_DATA_SIZE : Z := 32768.
Definition FS_DIRENT_NAME_MAX : Z := 768.
Definition FS_DIRENT_FILE : Z := 1.
Definition FS_DIRENT_DIRECTORY : Z := 2.

Record ramfs_file := mk_file { f_used : bool; f_name : cstr; f_data : Z; f_size : Z }.
Definition no_file : ramfs_file := mk_file false [] 0 0.

Record fs_dirent := mk_dirent { d_name : cstr; d_size : Z; d_type : Z }.

Section Fs.
Context {A : Type} `{Allocator A}.

Record ramfs := mk_ramfs {
  files : list ramfs_file;
  directories : list cstr;
  memory : mem;
  allocator : A;
}.

Definition directory_count (st : ramfs) : Z := alen (directories st).
Definition file (st : ramfs) (i : Z) : ramfs_file := aget no_file (files st) i.
Definition set_file (st : ramfs) (i : Z) (f : ramfs_file) : ramfs :=
  mk_ramfs (aset (files st) i f) (directories st) (memory st) (allocator st).
Definition with_directories st d := mk_ramfs (files st) d (memory st) (allocator st).
Definition with_memory st m := mk_ramfs (files st) (directories st) m (allocator st).
Definition with_allocator st a := mk_ramfs (files st) (directories st) (memory st) a.

(** The index of the file, None for NULL. *)
Definition find_file (name : cstr) (st : ramfs) : option Z :=
  find_up (trips 0 RAMFS_MAX_FILES) 0 (fun i => f_used (file st i) && name_equal (f_name (file st i)) name).

(** [for (i = 0; i < size; i++) buffer[i] = data[i];] *)
Definition copy_in (m : mem) (buffer : Z) (data : list Z) (size : Z) : mem :=
  for_up (trips 0 size) 0 (fun i m => wr m (buffer + i) (aget 0 data i)) m.
Definition read_bytes (m : mem) (buffer size : Z) : list Z :=
  (fun i => rd m (buffer + Z.of_nat i)) <$> seq 0 (Z.to_nat size).

(** The first unused slot takes the name and a buffer. *)
Definition create_file (name : cstr) (st : ramfs) : option Z * ramfs :=
  match find_up (trips 0 RAMFS_MAX_FILES) 0 (fun i => negb (f_used (file st i))) with
  | None => (None, st)
  | Some i =>
      let '(data, a) := malloc RAMFS_DATA_SIZE (allocator st) in
      let name := take (Z.to_nat (RAMFS_NAME_SIZE - 1)) name in
      (Some i, set_file (with_allocator st a) i (mk_file true name data (f_size (file st i))))
  end.

Definition ramfs_write (name : option cstr) (data : option (list Z)) (size : Z) (st : ramfs) : bool * ramfs :=
  match name, data with
  | Some name, Some data =>
      if RAMFS_DATA_SIZE <? size then (false, st)
      else
        let '(found, st) := match find_file name st with
                            | Some i => (Some i, st)
                            | None => create_file name st
                            end in
        match found with
        | None => (false, st)
        | Some i =>
            let f := file st i in
            if f_data f =? 0 then (false, st)
            else
              let st := with_memory st (copy_in (memory st) (f_data f) data size) in
              (true, set_file st i (mk_file (f_used f) (f_name f) (f_data f) size))
        end
  | _, _ => (false, st)
  end.

(** The bytes put into the caller's buffer; their number is [*size]. *)
Definition ramfs_read (name : cstr) (buffer size : bool) (capacity : Z) (st : ramfs) : option (list Z) :=
  match find_file name st with
  | None => None
  | Some i =>
      if negb buffer || negb size then None
      else
        let f := file st i in
        let count := if f_size f <? capacity then f_size f else capacity in
        Some (read_bytes (memory st) (f_data f) count)
  end.

Definition ramfs_stat (name : cstr) (size : bool) (st : ramfs) : option Z :=
  match find_file name st with
  | None => None
  | Some i => if negb size then None else Some (f_size (file st i))
  end.

(** The number of files, and what is written to [output]. *)
Definition ramfs_list (output : bool) (capacity : Z) (st : ramfs) : Z * list (cstr * Z) :=
  for_up (trips 0 RAMFS_MAX_FILES) 0 (fun i '(count, out) =>
    if negb (f_used (file st i)) then (count, out)
    else
      let out := if output && (count <? capacity) then out ++ [(f_name (file st i), f_size (file st i))] else out in
      (count + 1, out)) (0, []).

Definition ramfs_is_directory (path : option cstr) (st : ramfs) : bool :=
  match path with
  | None => false
  | Some path =>
      match find_up (trips 0 (directory_count st)) 0 (fun i => name_equal (aget [] (directories st) i) path) with
      | Some _ => true
      | None => false
      end
  end.

Definition ramfs_mkdir (path : option cstr) (st : ramfs) : bool * ramfs :=
  match path with
  | None => (false, st)
  | Some p =>
      if (ch p 0 =? NUL) || (RAMFS_MAX_DIRECTORIES <=? directory_count st) then (false, st)
      else if ramfs_is_directory path st then (false, st)
      else
        let length := if alen p <? RAMFS_NAME_SIZE then alen p else RAMFS_NAME_SIZE in
        if RAMFS_NAME_SIZE <=? length then (false, st)
        else (true, with_directories st (directories st ++ [p]))
  end.

Definition ramfs_unlink (path : cstr) (st : ramfs) : bool * ramfs :=
  match find_file path st with
  | None => (false, st)
  | Some i =>
      let f := file st i in
      let st := if negb (f_data f =? 0) then with_allocator st (snd (mfree (f_data f) (allocator st))) else st in
      (true, set_file st i (mk_file false (f_name f) 0 0))
  end.

(** [prefix] is a prefix of [name]: the inner loops of [ramfs_rmdir]. *)
Definition starts_with (prefix name : cstr) : bool :=
  match after_prefix prefix name with Some _ => true | None => false end.

Definition ramfs_rmdir (path : option cstr) (st : ramfs) : bool * ramfs :=
  match path with
  | None => (false, st)
  | Some path =>
      if name_equal path (str "/") || name_equal path (str "/bin") then (false, st)
      else
        match find_up (trips 0 (directory_count st)) 0 (fun i => name_equal (aget [] (directories st) i) path) with
        | None => (false, st)
        | Some index =>
            let length := if alen path <? RAMFS_NAME_SIZE - 1 then alen path else RAMFS_NAME_SIZE - 1 in
            if (length =? 0) || (RAMFS_NAME_SIZE - 1 <=? length) then (false, st)
            else
              let prefix := if negb (ch path (length - 1) =? SLASH) then path ++ [SLASH] else path in
              match find_up (trips 0 RAMFS_MAX_FILES) 0 (fun i =>
                      f_used (file st i) && starts_with prefix (f_name (file st i))) with
              | Some _ => (false, st)
              | None =>
                  match find_up (trips 0 (directory_count st)) 0 (fun i =>
                          negb (i =? index) && starts_with prefix (aget [] (directories st) i)) with
                  | Some _ => (false, st)
                  | None => (true, with_directories st (delete (Z.to_nat index) (directories st)))
                  end
              end
        end
  end.

Definition ramfs_init (st : ramfs) : ramfs :=
  let st := for_up (trips 0 RAMFS_MAX_FILES) 0 (fun i st => set_file st i (mk_file false (f_name (file st i)) 0 0)) st in
  let st := with_directories st [] in
  let st := snd (ramfs_mkdir (Some (str "/")) st) in
  let st := snd (ramfs_mkdir (Some (str "/bin")) st) in
  let st := snd (ramfs_mkdir (Some (str "/dev")) st) in
  let st := snd (ramfs_mkdir (Some (str "/disk")) st) in
  snd (ramfs_write (Some (str "/hello.txt")) (Some (str "ConeOS ramfs" ++ [10])) 13 st).

(** The number of directories, and the rows written to [output]. *)
Definition ramfs_list_directories (capacity : Z) (st : ramfs) : Z * list cstr :=
  let count := if directory_count st <? capacity then directory_count st else capacity in
  (directory_count st, take (Z.to_nat count) (directories st)).

(** The last component of [path] when its directory is [directory]. *)
Definition ramfs_direct_child (directory path : cstr) : option cstr :=
  let rest :=
    if (alen directory =? 1) && (ch directory 0 =? SLASH) then
      if negb (ch path 0 =? SLASH) || (ch path 1 =? NUL) then None else Some (drop 1 path)
    else
      match after_prefix directory path with
      | None => None
      | Some rest => if negb (ch rest 0 =? SLASH) || (ch rest 1 =? NUL) then None else Some (drop 1 rest)
      end in
  match rest with
  | None => None
  | Some rest => if has_slash rest then None else Some rest
  end.

Definition copy_entry_name (name : cstr) : cstr := take (Z.to_nat (FS_DIRENT_NAME_MAX - 1)) name.

(** A scan for the entry number [index]: the entry, or how many were visible. *)
Fixpoint pick_entry {X} (entry : X -> option fs_dirent) (xs : list X) (visible index : Z) : fs_dirent + Z :=
  match xs with
  | [] => inr visible
  | x :: xs =>
      match entry x with
      | None => pick_entry entry xs visible index
      | Some e => if visible =? index then inl e else pick_entry entry xs (visible + 1) index
      end
  end.

Definition directory_entry (path directory : cstr) : option fs_dirent :=
  match ramfs_direct_child path directory with
  | None => None
  | Some name => Some (mk_dirent (copy_entry_name name) 0 FS_DIRENT_DIRECTORY)
  end.

Definition file_entry (path : cstr) (f : ramfs_file) : option fs_dirent :=
  if negb (f_used f) then None
  else match ramfs_direct_child path (f_name f) with
       | None => None
       | Some name => Some (mk_dirent (copy_entry_name name) (f_size f) FS_DIRENT_FILE)
       end.

(** The result and the entry that was filled in. *)
Definition ramfs_readdir (path : cstr) (index : Z) (entry : bool) (st : ramfs) : Z * option fs_dirent :=
  if negb (ramfs_is_directory (Some path) st) || negb entry then (-1, None)
  else
    match pick_entry (directory_entry path) (directories st) 0 index with
    | inl e => (1, Some e)
    | inr visible =>
        match pick_entry (file_entry path) (files st) visible index with
        | inl e => (1, Some e)
        | inr _ => (0, None)
        end
    end.

(** ** Buffers *)

Lemma copy_in_rd m p data n x : 0 <= n ->
  rd (copy_in m p data n) x = if decide (p <= x < p + n) then u8 (aget 0 data (x - p)) else rd m x.
Proof.
  intros Hn. unfold copy_in, trips. rewrite Z.sub_0_r.
  set (I := fun (k : Z) (m' : mem) => forall x, rd m' x = if decide (p <= x < p + k) then u8 (aget 0 data (x - p)) else rd m x).
  assert (HI : I (0 + Z.of_nat (Z.to_nat n)) (for_up (Z.to_nat n) 0 (fun i m => wr m (p + i) (aget 0 data i)) m)).
  { apply for_up_ind.
    - intros y. by rewrite decide_False by lia.
    - intros k m' Hk Hm' y. rewrite rd_wr. destruct (decide (y = p + k)) as [->|Hne].
      + rewrite decide_True by lia. do 2 f_equal. lia.
      + rewrite Hm'. destruct (decide (p <= y < p + k)); [by rewrite decide_True by lia | by rewrite decide_False by lia]. }
  rewrite Z2Nat.id in HI by done. apply HI.
Qed.

Lemma read_bytes_ext m m' p n :
  (forall x, p <= x < p + n -> rd m' x = rd m x) -> read_bytes m' p n = read_bytes m p n.
Proof.
  intros Hx. unfold read_bytes. apply list_fmap_ext. intros i k Hk. apply lookup_seq in Hk as (-> & Hk). apply Hx. lia.
Qed.

Lemma read_copied m p data n :
  0 <= n <= alen data -> Forall (fun b => 0 <= b < 2 ^ 8) data ->
  read_bytes (copy_in m p data n) p n = take (Z.to_nat n) data.
Proof.
  intros Hn HF. apply list_eq. intros i. unfold read_bytes. rewrite list_lookup_fmap.
  destruct (Nat.lt_ge_cases i (Z.to_nat n)) as [Hi|Hi].
  - rewrite lookup_seq_lt, lookup_take_lt by done. simpl. rewrite copy_in_rd, decide_True by lia.
    unfold alen in Hn. destruct (lookup_lt_is_Some_2 data i) as (b & Hb); [lia|]. rewrite Hb. f_equal.
    replace (p + Z.of_nat i - p) with (Z.of_nat i) by lia. unfold aget. rewrite Nat2Z.id, Hb. simpl.
    apply u8_small. by apply (Forall_lookup_1 _ _ _ _ HF Hb).
  - rewrite lookup_seq_ge, lookup_take_ge by lia. done.
Qed.

Lemma take_read_bytes m p n k : 0 <= k <= n -> take (Z.to_nat k) (read_bytes m p n) = read_bytes m p k.
Proof. intros Hk. unfold read_bytes. rewrite <- fmap_take, take_seq. do 2 f_equal. lia. Qed.

Lemma length_read_bytes m p n : length (read_bytes m p n) = Z.to_nat n.
Proof. unfold read_bytes. by rewrite length_fmap, length_seq. Qed.

(** ** The represented file system *)

Definition slot (i : Z) : Prop := 0 <= i < RAMFS_MAX_FILES.

(** [l] are the live extents of the heap, [rest] those of its other users. *)
Record ramfs_ok (rest l : list (Z * Z)) (st : ramfs) : Prop := {
  ro_len : alen (files st) = RAMFS_MAX_FILES;
  ro_heap : alloc_rep (allocator st) l;
  ro_rest : forall e, e ∈ rest -> e ∈ l /\ forall i, slot i -> f_used (file st i) = true -> f_data (file st i) <> fst e;
  ro_owned : forall p n, (p, n) ∈ l -> (p, n) ∈ rest \/ exists i, slot i /\ f_used (file st i) = true /\ f_data (file st i) = p;
  ro_unused : forall i, slot i -> f_used (file st i) = false -> f_data (file st i) = 0 /\ f_size (file st i) = 0;
  ro_size : forall i, slot i -> 0 <= f_size (file st i) <= RAMFS_DATA_SIZE;
  ro_null : forall i, slot i -> f_data (file st i) = 0 -> f_size (file st i) = 0;
  ro_buffer : forall i, slot i -> f_data (file st i) <> 0 -> exists n, (f_data (file st i), n) ∈ l /\ RAMFS_DATA_SIZE <= n;
  ro_data : forall i j, slot i -> slot j -> i <> j -> f_data (file st i) <> 0 -> f_data (file st i) <> f_data (file st j);
  ro_name : forall i j, slot i -> slot j -> i <> j -> f_used (file st i) = true -> f_used (file st j) = true ->
    f_name (file st i) <> f_name (file st j);
}.

(** What is stored under a name. *)
Definition content (st : ramfs) (name : cstr) : option (list Z) :=
  match find_file name st with
  | None => None
  | Some i => Some (read_bytes (memory st) (f_data (file st i)) (f_size (file st i)))
  end.

Lemma find_file_Some st name i : find_file name st = Some i ->
  slot i /\ f_used (file st i) = true /\ f_name (file st i) = name.
Proof.
  intros E. unfold find_file, trips in E. apply find_up_Some in E as (Hi & HP & _).
  rewrite andb_true_iff, name_equal_true in HP. unfold slot, RAMFS_MAX_FILES in *. split_and!; [lia | lia | apply HP | apply HP].
Qed.

Lemma find_file_None st name : find_file name st = None <->
  forall i, slot i -> f_used (file st i) = true -> f_name (file st i) <> name.
Proof.
  unfold find_file, trips. rewrite find_up_None. unfold slot, RAMFS_MAX_FILES. split; intros Hn i Hi.
  - intros Hu He. specialize (Hn i ltac:(lia)). rewrite Hu, (proj2 (name_equal_true _ _) He) in Hn. done.
  - specialize (Hn i ltac:(lia)). destruct (f_used (file st i)); [|done]. simpl.
    apply not_true_is_false. intros He. apply name_equal_true in He. by apply Hn.
Qed.

Lemma find_file_unique st name i rest l : ramfs_ok rest l st -> slot i -> f_used (file st i) = true ->
  f_name (file st i) = name -> find_file name st = Some i.
Proof.
  intros Hok Hi Hu Hn. destruct (find_file name st) as [j|] eqn:E.
  - apply find_file_Some in E as (Hj & Huj & Hnj). destruct (decide (i = j)) as [->|Hne]; [done|].
    exfalso. apply (ro_name _ _ _ Hok i j); [done..|]. congruence.
  - exfalso. rewrite find_file_None in E. by apply (E i).
Qed.

Lemma file_set st i j f : alen (files st) = RAMFS_MAX_FILES -> slot i -> slot j ->
  file (set_file st i f) j = if decide (i = j) then f else file st j.
Proof. intros Hl Hi Hj. unfold file, set_file. cbn [files]. unfold slot in *. rewrite aget_aset by (rewrite ?Hl; lia). done. Qed.

Lemma one_more_elem p sz l l' : one_more p sz l l' ->
  exists n, sz <= n /\ (p, n) ∈ l' /\ (forall e, e ∈ l -> e ∈ l') /\ (forall e, e ∈ l' -> e = (p, n) \/ e ∈ l).
Proof.
  intros (l1 & n & l2 & -> & -> & Hn). exists n. split_and!; [done | | |].
  - rewrite elem_of_app, elem_of_cons. tauto.
  - intros e. rewrite !elem_of_app, elem_of_cons. tauto.
  - intros e. rewrite !elem_of_app, elem_of_cons. tauto.
Qed.

Lemma one_more_fresh p sz l l' n lo hi : one_more p sz l l' -> extents_ok lo hi l' -> (p, n) ∉ l.
Proof.
  intros (l1 & k & l2 & -> & -> & _) Hx Hin.
  assert (Hp : (l1 ++ (p, k) :: l2) !! length l1 = Some (p, k)) by (by apply list_lookup_middle).
  apply elem_of_app in Hin as [Hin|Hin]; apply list_elem_of_lookup in Hin as (i & Hi).
  - pose proof (lookup_lt_Some _ _ _ Hi). assert (i = length l1); [|lia].
    eapply (extents_unique _ _ _ _ _ p n k Hx); [|exact Hp]. by rewrite lookup_app_l.
  - assert (S (length l1 + i) = length l1)%nat; [|lia].
    eapply (extents_unique _ _ _ _ _ p n k Hx); [|exact Hp]. rewrite lookup_app_r by lia.
    replace (S (length l1 + i) - length l1)%nat with (S i) by lia. done.
Qed.

Lemma content_Some rest l st name c : ramfs_ok rest l st ->
  content st name = Some c <->
  exists i, slot i /\ f_used (file st i) = true /\ f_name (file st i) = name /\
    c = read_bytes (memory st) (f_data (file st i)) (f_size (file st i)).
Proof.
  intros Hok. unfold content. split.
  - destruct (find_file name st) as [i|] eqn:E; [|done]. intros [= <-]. apply find_file_Some in E as (? & ? & ?). by exists i.
  - intros (i & Hi & Hu & Hn & ->). by rewrite (find_file_unique st name i rest l).
Qed.

Lemma content_None st name : content st name = None <-> find_file name st = None.
Proof. unfold content. by destruct (find_file name st). Qed.

(** *** Overwriting *)

Definition overwrite (i : Z) (data : list Z) (size : Z) (st : ramfs) : ramfs :=
  let f := file st i in
  set_file (with_memory st (copy_in (memory st) (f_data f) data size)) i (mk_file (f_used f) (f_name f) (f_data f) size).

Section Overwrite.
Context (rest l : list (Z * Z)) (st : ramfs) (i : Z) (data : list Z) (size : Z).
Context (Hok : ramfs_ok rest l st) (Hi : slot i) (Hu : f_used (file st i) = true) (Hd : f_data (file st i) <> 0).
Context (Hs : 0 <= size <= RAMFS_DATA_SIZE).
Let st' := overwrite i data size st.

Lemma ow_file j : slot j -> file st' j =
  if decide (i = j) then mk_file (f_used (file st i)) (f_name (file st i)) (f_data (file st i)) size else file st j.
Proof. intros Hj. unfold st', overwrite. rewrite file_set by (done || apply (ro_len _ _ _ Hok)). done. Qed.

Lemma ow_meta j : slot j -> f_used (file st' j) = f_used (file st j) /\ f_name (file st' j) = f_name (file st j) /\
  f_data (file st' j) = f_data (file st j).
Proof. intros Hj. rewrite ow_file by done. case_decide as E; [by subst|done]. Qed.

Lemma ow_ok : ramfs_ok rest l st'.
Proof.
  assert (HM := ow_meta). destruct Hok as [L Hh Hr Ho Hun Hsz Hnull Hb Hdt Hnm]. split; intros.
  - unfold st', overwrite. cbn [files set_file with_memory]. by rewrite alen_aset.
  - done.
  - split; [by apply Hr|]. intros j Hj. destruct (HM j Hj) as (-> & _ & ->). by apply Hr.
  - destruct (Ho p n) as [?|(j & Hj & ? & ?)]; [done | by left |]. right. exists j. destruct (HM j Hj) as (-> & _ & ->). done.
  - rewrite ow_file by done. destruct (HM i0) as (E & _ & _); [done|].
    case_decide as Ei; [subst; congruence|]. apply Hun; congruence.
  - rewrite ow_file by done. case_decide; [done | by apply Hsz].
  - rewrite ow_file in * by done. case_decide; [done | by apply Hnull].
  - destruct (HM i0) as (_ & _ & E); [done|]. rewrite E in *. by apply Hb.
  - destruct (HM i0) as (_ & _ & E); [done|]. destruct (HM j) as (_ & _ & E'); [done|]. rewrite E, E' in *. by apply Hdt.
  - destruct (HM i0) as (E1 & E2 & _); [done|]. destruct (HM j) as (E1' & E2' & _); [done|].
    rewrite E2, E2'. apply Hnm; congruence.
Qed.

(** The buffers of two files do not overlap. *)
Lemma ow_apart j x : slot j -> i <> j -> f_data (file st j) <> 0 ->
  f_data (file st j) <= x < f_data (file st j) + RAMFS_DATA_SIZE ->
  ~ (f_data (file st i) <= x < f_data (file st i) + size).
Proof.
  intros Hj Hne Hdj Hx. destruct (ro_buffer _ _ _ Hok i Hi Hd) as (n & Hn & Hn1).
  destruct (ro_buffer _ _ _ Hok j Hj Hdj) as (k & Hk & Hk1).
  destruct (alloc_extents _ _ (ro_heap _ _ _ Hok)) as (lo & hi & _ & Hxt).
  pose proof (ro_data _ _ _ Hok i j Hi Hj Hne Hd) as Hdd.
  destruct (extents_disjoint _ _ _ _ _ _ _ Hxt Hn Hk Hdd); lia.
Qed.

Lemma ow_bytes j : slot j -> i <> j ->
  read_bytes (memory st') (f_data (file st j)) (f_size (file st j)) =
  read_bytes (memory st) (f_data (file st j)) (f_size (file st j)).
Proof.
  intros Hj Hne. apply read_bytes_ext. intros x Hx. pose proof (ro_size _ _ _ Hok j Hj).
  unfold st', overwrite. cbn [memory set_file with_memory]. rewrite copy_in_rd by lia. rewrite decide_False; [done|].
  destruct (decide (f_data (file st j) = 0)) as [E|Hdj].
  - rewrite (ro_null _ _ _ Hok j Hj E) in Hx. lia.
  - apply (ow_apart j); [done | done | done | lia].
Qed.

Lemma ow_content name : size <= alen data -> Forall (fun b => 0 <= b < 2 ^ 8) data ->
  content st' name = if decide (name = f_name (file st i)) then Some (take (Z.to_nat size) data) else content st name.
Proof.
  intros Hlen HF. apply option_eq. intros c. rewrite (content_Some rest l st') by apply ow_ok.
  split.
  - intros (j & Hj & Huj & Hnj & ->). destruct (ow_meta j Hj) as (E1 & E2 & E3). rewrite ow_file by done.
    destruct (decide (i = j)) as [<-|Hne].
    + rewrite E2 in Hnj. rewrite decide_True by done. cbn [f_data f_size]. f_equal. symmetry. apply read_copied; [lia | done].
    + rewrite E1 in Huj. rewrite E2 in Hnj. subst name. rewrite decide_False.
      * apply (content_Some rest l st); [done|]. exists j. split_and!; [done | done | done |]. by apply ow_bytes.
      * intros E. apply (ro_name _ _ _ Hok i j); [done..|]. congruence.
  - case_decide as E.
    + intros [= <-]. exists i. destruct (ow_meta i Hi) as (E1 & E2 & E3). rewrite E1, E2. split_and!; [done | done | done |].
      rewrite ow_file, decide_True by done. cbn [f_data f_size]. symmetry. apply read_copied; [lia | done].
    + rewrite (content_Some rest l st) by done. intros (j & Hj & Huj & Hnj & ->). exists j.
      destruct (ow_meta j Hj) as (E1 & E2 & E3). rewrite E1, E2, E3. split_and!; [done | done | done |].
      assert (i <> j) by (intros ->; congruence). rewrite ow_file, decide_False by done. symmetry. by apply ow_bytes.
Qed.

End Overwrite.

(** *** Creation *)

(** What an allocation of [sz] bytes means for the live extents. *)
Lemma malloc_live sz a l : alloc_rep a l -> is_u64 sz ->
  let '(p, a') := malloc sz a in
  exists l', alloc_rep a' l' /\ (forall e, e ∈ l -> e ∈ l') /\
    (forall q n, (q, n) ∈ l' -> (q, n) ∈ l \/ (q = p /\ p <> 0)) /\
    (p <> 0 -> (exists n, (p, n) ∈ l' /\ sz <= n) /\ forall n, (p, n) ∉ l).
Proof.
  intros Hl Hsz. pose proof (malloc_spec sz a l Hl Hsz) as Hm. destruct (malloc sz a) as [p a'].
  destruct Hm as (l' & Hl' & [(Hp & Hm)|(Hp & El)]); exists l'.
  - destruct (alloc_extents _ _ Hl') as (lo & hi & _ & Hx). destruct (one_more_elem _ _ _ _ Hm) as (n & Hn & H1 & H2 & H3).
    split_and!; [done | done | |].
    + intros q k Hq. destruct (H3 _ Hq) as [E|?]; [injection E as -> ->; by right | by left].
    + intros _. split; [by exists n|]. intros k. by apply (one_more_fresh _ _ _ _ _ _ _ Hm Hx).
  - subst l'. split_and!; [done | done | by left | done].
Qed.

Section Create.
Context (rest l l' : list (Z * Z)) (st : ramfs) (name : cstr) (i p : Z) (a : A).
Context (Hok : ramfs_ok rest l st) (Hno : find_file name st = None).
Context (Hi : slot i) (Hun : f_used (file st i) = false).
Context (Hrep : alloc_rep a l') (Hin : forall e, e ∈ l -> e ∈ l').
Context (Hnew : forall q n, (q, n) ∈ l' -> (q, n) ∈ l \/ (q = p /\ p <> 0)).
Context (Hp : p <> 0 -> (exists n, (p, n) ∈ l' /\ RAMFS_DATA_SIZE <= n) /\ forall n, (p, n) ∉ l).
Let st' := set_file (with_allocator st a) i (mk_file true name p 0).

Lemma cr_file j : slot j -> file st' j = if decide (i = j) then mk_file true name p 0 else file st j.
Proof. intros Hj. unfold st'. rewrite file_set by (done || apply (ro_len _ _ _ Hok)). done. Qed.

Lemma cr_other j : slot j -> f_data (file st j) = p -> p = 0.
Proof.
  intros Hj E. destruct (decide (p = 0)) as [?|Hne]; [done|]. exfalso. rewrite <- E in Hne.
  destruct (ro_buffer _ _ _ Hok j Hj Hne) as (n & Hn & _). rewrite E in *. by apply (proj2 (Hp Hne) n).
Qed.

Lemma cr_ok : ramfs_ok rest l' st'.
Proof.
  assert (HF := cr_file). assert (HO := cr_other). rewrite find_file_None in Hno.
  destruct Hok as [L Hh Hr Ho Hunu Hsz Hnull Hb Hdt Hnm]. split.
  - unfold st'. cbn [files set_file with_allocator]. by rewrite alen_aset.
  - done.
  - intros [q n] He. split; [by apply Hin, Hr|]. intros j Hj. rewrite HF by done. case_decide as Ej; [|by apply Hr].
    intros _. cbn [f_data fst]. intros E. subst q. destruct (Hr _ He) as (Hl & _).
    destruct (decide (p = 0)) as [->|Hne]; [|by apply (proj2 (Hp Hne) n)].
    destruct (alloc_extents _ _ Hh) as (lo & hi & Hlo & Hx & _). rewrite Forall_forall in Hx. specialize (Hx _ Hl). simpl in Hx.
    unfold HEADER in Hx. lia.
  - intros q n Hq. destruct (Hnew q n Hq) as [Hq'|(-> & Hne)].
    + destruct (Ho q n Hq') as [?|(j & Hj & Hu & Hd)]; [by left|]. right. exists j. rewrite HF by done.
      rewrite decide_False by (intros ->; congruence). done.
    + right. exists i. rewrite HF, decide_True by done. done.
  - intros j Hj. rewrite HF by done. case_decide; [done | by apply Hunu].
  - intros j Hj. rewrite HF by done. case_decide; [done | by apply Hsz].
  - intros j Hj. rewrite HF by done. case_decide; [done | by apply Hnull].
  - intros j Hj. rewrite HF by done. case_decide; [intros Hne; by apply Hp|]. intros Hne.
    destruct (Hb j Hj Hne) as (n & Hn & ?). exists n. split; [by apply Hin | done].
  - intros j k Hj Hk Hjk. rewrite !HF by done. case_decide; case_decide; subst; cbn [f_data]; [done | | | by apply Hdt].
    + intros Hne E. by apply Hne, (HO k).
    + intros Hne E. apply Hne. rewrite E. by apply (HO j).
  - intros j k Hj Hk Hjk. rewrite !HF by done. case_decide; case_decide; subst; cbn [f_used f_name]; [done | | | by apply Hnm].
    + intros _ Hu E. by apply (Hno k).
    + intros Hu _ E. by apply (Hno j).
Qed.

Lemma cr_content n : content st' n = if decide (n = name) then Some [] else content st n.
Proof.
  apply option_eq. intros c. rewrite (content_Some rest l' st') by apply cr_ok. split.
  - intros (j & Hj & Huj & Hnj & ->). rewrite cr_file in * by done. case_decide as E; cbn [f_name f_data f_size f_used] in *.
    + by rewrite decide_True.
    + rewrite decide_False; [apply (content_Some rest l st); [done|]; by exists j|].
      intros ->. rewrite find_file_None in Hno. by apply (Hno j).
  - case_decide as E.
    + intros [= <-]. exists i. rewrite cr_file, decide_True by done. done.
    + rewrite (content_Some rest l st) by done. intros (j & Hj & Huj & Hnj & ->). exists j.
      rewrite cr_file by done. rewrite decide_False by (intros ->; congruence). done.
Qed.

End Create.

Lemma create_file_spec rest l st name :
  ramfs_ok rest l st -> find_file name st = None -> alen name < RAMFS_NAME_SIZE ->
  let '(found, st') := create_file name st in
  match found with
  | None => st' = st
  | Some i => exists l' p, ramfs_ok rest l' st' /\ slot i /\ file st' i = mk_file true name p 0 /\
      forall n, content st' n = if decide (n = name) then Some [] else content st n
  end.
Proof.
  intros Hok Hno Hlen. unfold create_file. destruct (find_up _ 0 _) as [i|] eqn:E; [|done].
  unfold trips in E. apply find_up_Some in E as (Hi & Hun & _). apply negb_true_iff in Hun.
  assert (slot i) as Hsi by (unfold slot, RAMFS_MAX_FILES in *; lia).
  destruct (ro_unused _ _ _ Hok i Hsi Hun) as (Hd0 & Hs0).
  pose proof (malloc_live RAMFS_DATA_SIZE _ _ (ro_heap _ _ _ Hok) ltac:(done)) as Hm.
  destruct (malloc RAMFS_DATA_SIZE (allocator st)) as [p a].
  rewrite Hs0, take_ge by (unfold alen, RAMFS_NAME_SIZE in *; lia). destruct Hm as (l' & Hrep & Hin & Hnew & Hp).
  exists l', p. split_and!; [by apply (cr_ok rest l) | done | |].
  - by rewrite (cr_file rest l), decide_True.
  - by apply (cr_content rest l l').
Qed.

(** *** Removal *)

Lemma mfree_live p a l : alloc_rep a l -> (p = 0 \/ exists n, (p, n) ∈ l) ->
  exists l', alloc_rep (if negb (p =? 0) then snd (mfree p a) else a) l' /\
    (forall e, e ∈ l' -> e ∈ l) /\ (forall q n, (q, n) ∈ l' -> q <> p) /\
    (forall q n, (q, n) ∈ l -> q <> p -> (q, n) ∈ l').
Proof.
  intros Hl Hp. destruct (alloc_extents _ _ Hl) as (lo & hi & Hlo & Hx). destruct (Z.eqb_spec p 0) as [->|Hne]; cbn [negb].
  - exists l. split_and!; [done | done | | done]. intros q n Hq ->. destruct Hx as (HF & _). rewrite Forall_forall in HF.
    specialize (HF _ Hq). simpl in HF. unfold HEADER in HF. lia.
  - destruct Hp as [?|(n & Hn)]; [done|]. apply list_elem_of_split in Hn as (l1 & l2 & ->).
    destruct (mfree_spec p n l1 l2 a Hl) as (_ & Hl'). exists (l1 ++ l2). split_and!; [done | | |].
    + intros e. rewrite !elem_of_app, elem_of_cons. tauto.
    + intros q k Hq ->. eapply (one_more_fresh p n (l1 ++ l2) _ k lo hi); [|exact Hx|exact Hq]. by exists l1, n, l2.
    + intros q k. rewrite !elem_of_app, elem_of_cons. intros [?|[E|?]]; [tauto | injection E as -> ->; done | tauto].
Qed.

Section Unlink.
Context (rest l l' : list (Z * Z)) (st : ramfs) (i : Z) (a : A).
Context (Hok : ramfs_ok rest l st) (Hi : slot i) (Hu : f_used (file st i) = true).
Let p := f_data (file st i).
Context (Hrep : alloc_rep a l') (Hsub : forall e, e ∈ l' -> e ∈ l) (Hgone : forall q n, (q, n) ∈ l' -> q <> p).
Context (Hkeep : forall q n, (q, n) ∈ l -> q <> p -> (q, n) ∈ l').
Let st' := set_file (with_allocator st a) i (mk_file false (f_name (file st i)) 0 0).

Lemma ul_file j : slot j -> file st' j = if decide (i = j) then mk_file false (f_name (file st i)) 0 0 else file st j.
Proof. intros Hj. unfold st'. rewrite file_set by (done || apply (ro_len _ _ _ Hok)). done. Qed.

Lemma ul_ok : ramfs_ok rest l' st'.
Proof.
  assert (HF := ul_file). destruct Hok as [L Hh Hr Ho Hunu Hsz Hnull Hb Hdt Hnm]. split.
  - unfold st'. cbn [files set_file with_allocator]. by rewrite alen_aset.
  - done.
  - intros [q n] He. destruct (Hr _ He) as (H1 & H2). split; [apply Hkeep; [done|]; intros ->; by apply (H2 i)|].
    intros j Hj. rewrite HF by done. case_decide; [done | by apply H2].
  - intros q n Hq. destruct (Ho q n (Hsub _ Hq)) as [?|(j & Hj & Huj & Hd)]; [by left|]. right. exists j. rewrite HF by done.
    rewrite decide_False; [done|]. intros ->. by apply (Hgone q n).
  - intros j Hj. rewrite HF by done. case_decide; [done | by apply Hunu].
  - intros j Hj. rewrite HF by done. case_decide; [done | by apply Hsz].
  - intros j Hj. rewrite HF by done. case_decide; [done | by apply Hnull].
  - intros j Hj. rewrite HF by done. case_decide as E; [done|]. intros Hne. destruct (Hb j Hj Hne) as (n & Hn & ?).
    exists n. split; [|done]. apply Hkeep; [done|]. unfold p. by apply Hdt.
  - intros j k Hj Hk Hjk. rewrite !HF by done. case_decide; case_decide; subst; cbn [f_data]; [done | done | done | by apply Hdt].
  - intros j k Hj Hk Hjk. rewrite !HF by done. case_decide; case_decide; subst; cbn [f_used]; [done | done | done | by apply Hnm].
Qed.

Lemma ul_content n : content st' n = if decide (n = f_name (file st i)) then None else content st n.
Proof.
  apply option_eq. intros c. rewrite (content_Some rest l' st') by apply ul_ok. split.
  - intros (j & Hj & Huj & Hnj & ->). rewrite ul_file in * by done. case_decide as E; cbn [f_used] in *; [done|].
    rewrite decide_False; [apply (content_Some rest l st); [done|]; by exists j|].
    intros ->. by apply (ro_name _ _ _ Hok j i).
  - case_decide as E; [done|]. rewrite (content_Some rest l st) by done. intros (j & Hj & Huj & Hnj & ->). exists j.
    rewrite ul_file by done. rewrite decide_False by (intros ->; congruence). done.
Qed.

End Unlink.

(** ** The contract: a map from names to contents *)

Inductive ramfs_op :=
| Write (name : cstr) (data : list Z)
| Unlink (name : cstr)
| Mkdir (path : cstr)
| Rmdir (path : cstr).

Definition run_ramfs (op : ramfs_op) (st : ramfs) : bool * ramfs :=
  match op with
  | Write name data => ramfs_write (Some name) (Some data) (alen data) st
  | Unlink name => ramfs_unlink name st
  | Mkdir path => ramfs_mkdir (Some path) st
  | Rmdir path => ramfs_rmdir (Some path) st
  end.

(** The callers pass names that fit the name field and bytes. *)
Definition ramfs_op_ok (op : ramfs_op) : Prop :=
  match op with
  | Write name data => alen name < RAMFS_NAME_SIZE /\ Forall (fun b => 0 <= b < 2 ^ 8) data
  | _ => True
  end.

Inductive ramfs_spec : gmap cstr (list Z) -> ramfs_op -> bool -> gmap cstr (list Z) -> Prop :=
| sp_write M name data : alen data <= RAMFS_DATA_SIZE -> ramfs_spec M (Write name data) true (<[name := data]> M)
| sp_write_refused M name data : ramfs_spec M (Write name data) false M
| sp_write_no_buffer M name data : M !! name = None ->
    ramfs_spec M (Write name data) false (<[name := []]> M)
| sp_unlink M name : is_Some (M !! name) -> ramfs_spec M (Unlink name) true (delete name M)
| sp_unlink_refused M name : M !! name = None -> ramfs_spec M (Unlink name) false M
| sp_mkdir M path ok : ramfs_spec M (Mkdir path) ok M
| sp_rmdir M path ok : ramfs_spec M (Rmdir path) ok M.

(** The names and contents of [st] are those of [M]; [rest] are the live
    extents of the other users of the heap. *)
Definition ramfs_rep (rest : list (Z * Z)) (st : ramfs) (M : gmap cstr (list Z)) : Prop :=
  exists l, ramfs_ok rest l st /\ forall name, content st name = M !! name.

Lemma unlink_rep rest st M name : ramfs_rep rest st M ->
  let '(ok, st') := ramfs_unlink name st in exists M', ramfs_rep rest st' M' /\ ramfs_spec M (Unlink name) ok M'.
Proof.
  intros (l & Hok & HM). unfold ramfs_unlink. destruct (find_file name st) as [i|] eqn:E.
  - pose proof (find_file_Some st name i E) as (Hi & Hu & Hn).
    destruct (mfree_live (f_data (file st i)) (allocator st) l (ro_heap _ _ _ Hok)) as (l' & H1 & H2 & H3 & H4).
    { destruct (decide (f_data (file st i) = 0)) as [?|Hne]; [by left|]. right.
      destruct (ro_buffer _ _ _ Hok i Hi Hne) as (n & Hin & _). by exists n. }
    set (a := if negb (f_data (file st i) =? 0) then _ else _) in *.
    assert (Est : (if negb (f_data (file st i) =? 0) then with_allocator st (snd (mfree (f_data (file st i)) (allocator st))) else st)
                  = with_allocator st a) by (unfold a; destruct st; by case_match).
    rewrite Est. exists (delete name M). split.
    + exists l'. split; [by apply (ul_ok rest l)|]. intros n. rewrite (ul_content rest l l') by done. rewrite HM, Hn.
      case_decide; [subst; by rewrite lookup_delete_eq | by rewrite lookup_delete_ne].
    + constructor. rewrite <- HM. unfold content. by rewrite E.
  - exists M. split; [by exists l|]. constructor. by rewrite <- HM, content_None.
Qed.

Lemma write_rep rest st M name data : ramfs_rep rest st M -> ramfs_op_ok (Write name data) ->
  let '(ok, st') := ramfs_write (Some name) (Some data) (alen data) st in
  exists M', ramfs_rep rest st' M' /\ ramfs_spec M (Write name data) ok M'.
Proof.
  intros (l & Hok & HM) (Hlen & HF). cbn [ramfs_write]. destruct (Z.ltb_spec RAMFS_DATA_SIZE (alen data)) as [|Hfit].
  { exists M. split; [by exists l | constructor]. }
  assert (Hfull : forall i l st M, ramfs_ok rest l st -> (forall name, content st name = M !! name) -> slot i ->
    f_used (file st i) = true -> f_name (file st i) = name -> f_data (file st i) <> 0 ->
    ramfs_rep rest (overwrite i data (alen data) st) (<[name := data]> M)).
  { clear - HF Hfit. intros i l st M Hok HM Hi Hu Hn Hd. assert (0 <= alen data <= RAMFS_DATA_SIZE) by (unfold alen in *; lia).
    exists l. split; [by apply ow_ok|]. intros n. rewrite (ow_content rest l) by (done || lia). rewrite HM, Hn.
    case_decide; [subst; rewrite lookup_insert_eq | by rewrite lookup_insert_ne]. unfold alen. by rewrite Nat2Z.id, firstn_all. }
  destruct (find_file name st) as [i|] eqn:E.
  - pose proof (find_file_Some st name i E) as (Hi & Hu & Hn).
    destruct (Z.eqb_spec (f_data (file st i)) 0) as [Hd|Hd].
    + exists M. split; [by exists l | constructor].
    + exists (<[name := data]> M). split; [by apply (Hfull i l) | by constructor].
  - pose proof (create_file_spec rest l st name Hok E Hlen) as Hc. destruct (create_file name st) as [[i|] st1].
    + destruct Hc as (l' & p & Hok1 & Hi & Hf & Hc1).
      assert (HM1 : forall n, content st1 n = <[name := []]> M !! n).
      { intros n. rewrite Hc1, HM. case_decide; [subst; by rewrite lookup_insert_eq | by rewrite lookup_insert_ne]. }
      destruct (Z.eqb_spec (f_data (file st1 i)) 0) as [Hd|Hd].
      * exists (<[name := []]> M). split; [by exists l'|]. apply sp_write_no_buffer. by rewrite <- HM, content_None.
      * exists (<[name := data]> M). split; [|by constructor]. rewrite <- (insert_insert_eq M name data []).
        apply (Hfull i l'); try done; by rewrite Hf.
    + subst st1. exists M. split; [by exists l | constructor].
Qed.

Lemma directories_rep rest st M d : ramfs_rep rest st M -> ramfs_rep rest (with_directories st d) M.
Proof. intros (l & [? ? ? ? ? ? ? ? ? ?] & HM). exists l. by split; [split|]. Qed.

Lemma mkdir_rep rest st M path : ramfs_rep rest st M -> ramfs_rep rest (snd (ramfs_mkdir path st)) M.
Proof. intros Hr. unfold ramfs_mkdir. repeat case_match; try done. by apply directories_rep. Qed.

Lemma rmdir_rep rest st M path : ramfs_rep rest st M -> ramfs_rep rest (snd (ramfs_rmdir path st)) M.
Proof. intros Hr. unfold ramfs_rmdir. repeat case_match; try done; by apply directories_rep. Qed.

Lemma run_ramfs_rep rest st M op : ramfs_rep rest st M -> ramfs_op_ok op ->
  let '(ok, st') := run_ramfs op st in exists M', ramfs_rep rest st' M' /\ ramfs_spec M op ok M'.
Proof.
  intros Hr Hop. destruct op as [name data|name|path|path]; cbn [run_ramfs].
  - by apply write_rep.
  - by apply unlink_rep.
  - pose proof (mkdir_rep rest st M (Some path) Hr) as H1. destruct (ramfs_mkdir (Some path) st) as [ok st'].
    exists M. split; [done | constructor].
  - pose proof (rmdir_rep rest st M (Some path) Hr) as H1. destruct (ramfs_rmdir (Some path) st) as [ok st'].
    exists M. split; [done | constructor].
Qed.

Fixpoint run_ramfs_ops (ops : list ramfs_op) (st : ramfs) : list bool * ramfs :=
  match ops with
  | [] => ([], st)
  | op :: ops => let '(ok, st) := run_ramfs op st in let '(oks, st) := run_ramfs_ops ops st in (ok :: oks, st)
  end.

Inductive ramfs_spec_run : gmap cstr (list Z) -> list ramfs_op -> list bool -> gmap cstr (list Z) -> Prop :=
| sr_nil M : ramfs_spec_run M [] [] M
| sr_cons M op ok M1 ops oks M2 :
    ramfs_spec M op ok M1 -> ramfs_spec_run M1 ops oks M2 -> ramfs_spec_run M (op :: ops) (ok :: oks) M2.

Lemma run_ramfs_ops_rep rest ops st M : ramfs_rep rest st M -> Forall ramfs_op_ok ops ->
  let '(oks, st') := run_ramfs_ops ops st in exists M', ramfs_rep rest st' M' /\ ramfs_spec_run M ops oks M'.
Proof.
  intros Hr Hops. revert st M Hr. induction Hops as [|op ops Hop _ IH]; intros st M Hr; cbn [run_ramfs_ops].
  { exists M. split; [done | constructor]. }
  pose proof (run_ramfs_rep rest st M op Hr Hop) as H1. destruct (run_ramfs op st) as [ok st1]. destruct H1 as (M1 & Hr1 & Hs1).
  specialize (IH st1 M1 Hr1). destruct (run_ramfs_ops ops st1) as [oks st2]. destruct IH as (M2 & Hr2 & Hs2).
  exists M2. split; [done | by econstructor].
Qed.

Lemma read_rep rest st M name capacity : ramfs_rep rest st M -> 0 <= capacity ->
  ramfs_read name true true capacity st = take (Z.to_nat capacity) <$> M !! name.
Proof.
  intros (l & Hok & HM) Hc. unfold ramfs_read. rewrite <- HM. unfold content.
  destruct (find_file name st) as [i|] eqn:E; [|done]. cbn [negb orb fmap option_fmap option_map]. f_equal.
  apply find_file_Some in E as (Hi & _). pose proof (ro_size _ _ _ Hok i Hi).
  destruct (Z.ltb_spec (f_size (file st i)) capacity).
  - rewrite take_ge; [done|]. rewrite length_read_bytes. lia.
  - symmetry. apply take_read_bytes. lia.
Qed.

Lemma stat_rep rest st M name : ramfs_rep rest st M -> ramfs_stat name true st = alen <$> M !! name.
Proof.
  intros (l & Hok & HM). unfold ramfs_stat. rewrite <- HM. unfold content.
  destruct (find_file name st) as [i|] eqn:E; [|done]. cbn [negb fmap option_fmap option_map]. f_equal.
  apply find_file_Some in E as (Hi & _). pose proof (ro_size _ _ _ Hok i Hi). unfold alen. rewrite length_read_bytes. lia.
Qed.

(** ** What the operations write *)

(** The bytes [op] may change: those it stores, in the buffer of its file. *)
Definition writes_only (op : ramfs_op) (st st' : ramfs) : Prop :=
  forall x, rd (memory st') x = rd (memory st) x \/
    match op with
    | Write name data => alen data <= RAMFS_DATA_SIZE /\ exists i, find_file name st' = Some i /\ f_data (file st' i) <> 0 /\
        f_data (file st' i) <= x < f_data (file st' i) + alen data
    | _ => False
    end.

Fixpoint confined (ops : list ramfs_op) (st : ramfs) : Prop :=
  match ops with
  | [] => True
  | op :: ops => let st' := snd (run_ramfs op st) in writes_only op st st' /\ confined ops st'
  end.

Lemma overwrite_confined rest l st0 st name data i : ramfs_ok rest l st -> slot i -> f_used (file st i) = true -> f_name (file st i) = name ->
  f_data (file st i) <> 0 -> alen data <= RAMFS_DATA_SIZE -> memory st = memory st0 -> writes_only (Write name data) st0 (overwrite i data (alen data) st).
Proof.
  intros Hok Hi Hu Hn Hd Hfit Hm x. assert (Hs : 0 <= alen data <= RAMFS_DATA_SIZE) by (unfold alen in *; lia).
  destruct (ow_meta rest l st i data (alen data) Hok Hi Hu Hd i Hi) as (E1 & E2 & E3).
  destruct (decide (f_data (file st i) <= x < f_data (file st i) + alen data)) as [Hx|Hx].
  - right. split; [done|]. exists i. rewrite E3. split_and!; try done; try lia.
    rewrite <- Hn, <- E2. apply (find_file_unique _ _ _ rest l); [by apply ow_ok | done | congruence | done].
  - left. unfold overwrite. cbn [memory set_file with_memory]. rewrite copy_in_rd by lia. rewrite decide_False by done. by rewrite Hm.
Qed.

Lemma write_confined rest st M name data : ramfs_rep rest st M -> alen name < RAMFS_NAME_SIZE ->
  writes_only (Write name data) st (snd (ramfs_write (Some name) (Some data) (alen data) st)).
Proof.
  intros (l & Hok & _) Hlen. assert (Hsame : forall st', memory st' = memory st -> writes_only (Write name data) st st')
    by (intros st' E x; left; by rewrite E).
  cbn [ramfs_write]. destruct (Z.ltb_spec RAMFS_DATA_SIZE (alen data)) as [|Hfit]; [by apply Hsame|].
  destruct (find_file name st) as [i|] eqn:E.
  - pose proof (find_file_Some st name i E) as (Hi & Hu & Hn). destruct (Z.eqb_spec (f_data (file st i)) 0) as [Hd|Hd]; [by apply Hsame|].
    by apply (overwrite_confined rest l st st).
  - pose proof (create_file_spec rest l st name Hok E Hlen) as Hc.
    assert (Hm : memory (snd (create_file name st)) = memory st) by (unfold create_file; repeat case_match; done).
    destruct (create_file name st) as [[i|] st1]; cbn [snd] in Hm; [|by apply Hsame].
    destruct Hc as (l' & p & Hok1 & Hi & Hf & _). destruct (Z.eqb_spec (f_data (file st1 i)) 0) as [Hd|Hd]; [by apply Hsame|].
    apply (overwrite_confined rest l' st st1); try done; by rewrite Hf.
Qed.

Lemma run_confined rest st M op : ramfs_rep rest st M -> ramfs_op_ok op -> writes_only op st (snd (run_ramfs op st)).
Proof.
  intros Hr Hop. destruct op as [name data|name|path|path]; cbn [run_ramfs].
  - apply (write_confined rest st M); [done | apply Hop].
  - intros x. left. unfold ramfs_unlink. repeat case_match; done.
  - intros x. left. unfold ramfs_mkdir. repeat case_match; done.
  - intros x. left. unfold ramfs_rmdir. repeat case_match; done.
Qed.

(** The live extents of the other users of the heap keep their bytes. *)
Definition rest_kept (rest : list (Z * Z)) (st st' : ramfs) : Prop :=
  forall p n x, (p, n) ∈ rest -> p <= x < p + n -> rd (memory st') x = rd (memory st) x.

Lemma writes_rest rest st st' M op : ramfs_rep rest st' M -> writes_only op st st' -> rest_kept rest st st'.
Proof.
  intros (l & Hok & _) Hw p n x Hin Hx. destruct (Hw x) as [?|Hc]; [done|]. destruct op as [name data| | |]; try done.
  destruct Hc as (Hfit & i & Hf & Hd & Hb). apply find_file_Some in Hf as (Hi & Hu & _).
  destruct (ro_buffer _ _ _ Hok i Hi Hd) as (k & Hk & Hk1). destruct (ro_rest _ _ _ Hok _ Hin) as (Hl & Hno). specialize (Hno i Hi Hu).
  destruct (alloc_extents _ _ (ro_heap _ _ _ Hok)) as (lo & hi & _ & Hxt).
  destruct (extents_disjoint _ _ _ _ _ _ _ Hxt Hk Hl Hno); lia.
Qed.

Lemma run_ramfs_ops_confined rest ops st M : ramfs_rep rest st M -> Forall ramfs_op_ok ops ->
  confined ops st /\ rest_kept rest st (snd (run_ramfs_ops ops st)).
Proof.
  intros Hr Hops. revert st M Hr. induction Hops as [|op ops Hop _ IH]; intros st M Hr; cbn [run_ramfs_ops confined]; [done|].
  pose proof (run_confined rest st M op Hr Hop) as Hw. pose proof (run_ramfs_rep rest st M op Hr Hop) as H1.
  destruct (run_ramfs op st) as [ok st1]. cbn [snd] in *. destruct H1 as (M1 & Hr1 & _). destruct (IH st1 M1 Hr1) as (Hc & Hk).
  destruct (run_ramfs_ops ops st1) as [oks st2]. cbn [snd] in *. split; [done|].
  intros p n x Hin Hx. rewrite (Hk p n x Hin Hx). by apply (writes_rest rest st st1 M1 op Hr1 Hw p n).
Qed.

(** The state before [ramfs_init]. *)
Definition boot_ramfs (m : mem) (a : A) : ramfs := mk_ramfs (replicate 64 no_file) [] m a.
Definition HELLO : list Z := str "ConeOS ramfs" ++ [10].

Lemma reset_ok l st : alloc_rep (allocator st) l -> alen (files st) = RAMFS_MAX_FILES ->
  ramfs_rep l (for_up (trips 0 RAMFS_MAX_FILES) 0 (fun i st => set_file st i (mk_file false (f_name (file st i)) 0 0)) st) ∅.
Proof.
  intros Hl Hlen. set (I := fun k st' => alen (files st') = RAMFS_MAX_FILES /\ allocator st' = allocator st /\
    forall i, slot i -> i < k -> exists n, file st' i = mk_file false n 0 0).
  assert (HI : I (0 + Z.of_nat (trips 0 RAMFS_MAX_FILES)) (for_up (trips 0 RAMFS_MAX_FILES) 0
    (fun i st => set_file st i (mk_file false (f_name (file st i)) 0 0)) st)).
  { apply for_up_ind.
    - split_and!; [done | done |]. unfold slot. lia.
    - intros k st' Hk (H1 & H2 & H3). assert (slot k) by (unfold slot, trips, RAMFS_MAX_FILES in *; lia). split_and!.
      + cbn [files set_file]. by rewrite alen_aset.
      + done.
      + intros i Hi Hik. rewrite file_set by done. case_decide; [by eexists|]. apply H3; [done | lia]. }
  set (st' := for_up _ 0 _ st) in *. destruct HI as (H1 & H2 & H3).
  assert (HF : forall i, slot i -> exists n, file st' i = mk_file false n 0 0).
  { intros i Hi. apply H3; [done|]. unfold slot, trips, RAMFS_MAX_FILES in *. lia. }
  assert (HF' : forall i, slot i -> f_used (file st' i) = false /\ f_data (file st' i) = 0 /\ f_size (file st' i) = 0).
  { intros i Hi. destruct (HF i Hi) as (n & ->). done. }
  exists l. split; [split|].
  - done.
  - by rewrite H2.
  - intros e He. split; [done|]. intros i Hi Hu. destruct (HF' i Hi) as (E & _). congruence.
  - intros p n Hp. by left.
  - intros i Hi _. destruct (HF' i Hi) as (_ & ? & ?). done.
  - intros i Hi. destruct (HF' i Hi) as (_ & _ & ->). done.
  - intros i Hi _. by destruct (HF' i Hi) as (_ & _ & ->).
  - intros i Hi Hd. destruct (HF' i Hi) as (_ & E & _). congruence.
  - intros i j Hi Hj _ Hd. destruct (HF' i Hi) as (_ & E & _). congruence.
  - intros i j Hi Hj _ Hu. destruct (HF' i Hi) as (E & _). congruence.
  - intros name. rewrite lookup_empty. apply content_None, find_file_None. intros i Hi Hu. destruct (HF' i Hi). congruence.
Qed.

Lemma mkdir_memory path st : memory (snd (ramfs_mkdir path st)) = memory st.
Proof. unfold ramfs_mkdir. repeat case_match; done. Qed.

Lemma reset_memory n st :
  memory (for_up n 0 (fun i st => set_file st i (mk_file false (f_name (file st i)) 0 0)) st) = memory st.
Proof. apply (for_up_ind (fun _ st' => memory st' = memory st)); [done|]. intros k st' _ E. done. Qed.

Lemma ramfs_init_rep l st : alloc_rep (allocator st) l -> alen (files st) = RAMFS_MAX_FILES ->
  exists ok M, ramfs_rep l (ramfs_init st) M /\ ramfs_spec ∅ (Write (str "/hello.txt") HELLO) ok M /\
    writes_only (Write (str "/hello.txt") HELLO) st (ramfs_init st).
Proof.
  intros Hl Hlen. pose proof (reset_ok l st Hl Hlen) as Hr. pose proof (reset_memory (trips 0 RAMFS_MAX_FILES) st) as Hm.
  unfold ramfs_init. set (st1 := for_up _ 0 _ st) in *.
  cbv zeta. match goal with |- context [ramfs_write _ _ _ ?s] => set (st5 := s) end.
  assert (Hr5 : ramfs_rep l st5 ∅) by (unfold st5; repeat apply mkdir_rep; by apply directories_rep).
  assert (Hm5 : memory st5 = memory st) by (unfold st5; by rewrite !mkdir_memory).
  pose proof (write_rep l st5 ∅ (str "/hello.txt") HELLO Hr5) as Hw.
  pose proof (write_confined l st5 ∅ (str "/hello.txt") HELLO Hr5 ltac:(by vm_compute)) as Hc. change (alen HELLO) with 13 in Hw, Hc. fold HELLO.
  destruct (ramfs_write (Some (str "/hello.txt")) (Some HELLO) 13 st5) as [ok st6]. cbn [snd] in *.
  destruct Hw as (M & HM & Hs); [split; [done|]; by repeat (apply Forall_cons; split; [done|])|]. exists ok, M. split_and!; [done | done |].
  intros x. rewrite <- Hm5. apply Hc.
Qed.

(** C29 The ramfs behaves as a map from names to contents.  After [ramfs_init]
    and any sequence of writes, unlinks and directory changes, [ramfs_read]
    returns what was last written under the name and [ramfs_stat] its length;
    a write changes no byte of memory outside the bytes it stores in the buffer
    of its file, the other operations change none, the live extents of the
    other users of the heap keep their bytes, and every live buffer of the file
    system belongs to a file.  A refused write leaves the map alone, except that
    one for a new name whose buffer cannot be allocated leaves an empty file. *)
Theorem ramfs_trace l m a ops :
  alloc_rep a l -> Forall ramfs_op_ok ops ->
  let st0 := ramfs_init (boot_ramfs m a) in
  let '(oks, st) := run_ramfs_ops ops st0 in
  exists ok M0 M, ramfs_spec ∅ (Write (str "/hello.txt") HELLO) ok M0 /\ ramfs_spec_run M0 ops oks M /\
    ramfs_rep l st M /\
    (forall name capacity, 0 <= capacity ->
       ramfs_read name true true capacity st = take (Z.to_nat capacity) <$> M !! name) /\
    (forall name, ramfs_stat name true st = alen <$> M !! name) /\
    writes_only (Write (str "/hello.txt") HELLO) (boot_ramfs m a) st0 /\ confined ops st0 /\
    (forall p n x, (p, n) ∈ l -> p <= x < p + n -> rd (memory st) x = rd m x).
Proof.
  intros Ha Hops st0. destruct (ramfs_init_rep l (boot_ramfs m a) Ha eq_refl) as (ok & M0 & Hr0 & Hs0 & Hw0). fold st0 in Hr0, Hw0.
  pose proof (run_ramfs_ops_rep l ops _ M0 Hr0 Hops) as Hrun. pose proof (run_ramfs_ops_confined l ops _ M0 Hr0 Hops) as (Hc & Hk).
  destruct (run_ramfs_ops ops st0) as [oks st]. cbn [snd] in Hk.
  destruct Hrun as (M & Hr & Hs). exists ok, M0, M. split_and!; [done | done | done | | | done | done |].
  - intros name capacity Hcap. by apply (read_rep l).
  - intros name. by apply (stat_rep l).
  - intros p n x Hin Hx. rewrite (Hk p n x Hin Hx). by apply (writes_rest l (boot_ramfs m a) st0 M0 _ Hr0 Hw0 p n).
Qed.

(** ** Directories *)

Lemma directory_index st path :
  match find_up (trips 0 (directory_count st)) 0 (fun i => name_equal (aget [] (directories st) i) path) with
  | Some i => directories st !! Z.to_nat i = Some path /\ 0 <= i < directory_count st
  | None => path ∉ directories st
  end.
Proof.
  destruct (find_up _ _ _) as [i|] eqn:E.
  - apply find_up_Some in E as (Hi & HP & _). apply name_equal_true in HP. unfold trips, directory_count, alen in *.
    split; [|lia]. rewrite (aget_lookup []) by (unfold alen; lia). by rewrite HP.
  - rewrite find_up_None in E. intros Hin. apply list_elem_of_lookup in Hin as (k & Hk).
    pose proof (lookup_lt_Some _ _ _ Hk). specialize (E (Z.of_nat k)). unfold trips, directory_count, alen in E.
    unfold aget in E. rewrite Nat2Z.id, Hk in E. simpl in E. rewrite name_equal_refl in E. discriminate E. lia.
Qed.

Lemma is_directory_spec st path : ramfs_is_directory (Some path) st = bool_decide (path ∈ directories st).
Proof.
  unfold ramfs_is_directory. pose proof (directory_index st path) as Hd. destruct (find_up _ _ _) as [i|].
  - symmetry. apply bool_decide_true. apply list_elem_of_lookup. eexists. apply Hd.
  - symmetry. by apply bool_decide_false.
Qed.

(** What [ramfs_rmdir] looks for in front of a name. *)
Definition below (path : cstr) : cstr := if negb (ch path (alen path - 1) =? SLASH) then path ++ [SLASH] else path.

Lemma starts_with_spec prefix name : starts_with prefix name = true <-> prefix `prefix_of` name.
Proof.
  unfold starts_with. destruct (after_prefix prefix name) as [rest|] eqn:E.
  - apply after_prefix_Some in E as ->. split; [by exists rest | done].
  - split; [done|]. intros (rest & ->). assert (after_prefix prefix (prefix ++ rest) = Some rest) by (by apply after_prefix_Some).
    congruence.
Qed.

Lemma find_up_none_iff n P : find_up (trips 0 n) 0 P = None <-> forall k, 0 <= k < n -> P k = false.
Proof. rewrite find_up_None. unfold trips. split; intros Hn k Hk; apply Hn; lia. Qed.

(** A directory can go. *)
Definition removable (path : cstr) (st : ramfs) : Prop :=
  path ∈ directories st /\ path <> str "/" /\ path <> str "/bin" /\ 0 < alen path < RAMFS_NAME_SIZE - 1 /\
  (forall i, slot i -> f_used (file st i) = true -> ~ below path `prefix_of` f_name (file st i)) /\
  (forall d, d ∈ directories st -> d <> path -> ~ below path `prefix_of` d).

Lemma rmdir_files path st :
  find_up (trips 0 RAMFS_MAX_FILES) 0 (fun i => f_used (file st i) && starts_with (below path) (f_name (file st i))) = None <->
  forall i, slot i -> f_used (file st i) = true -> ~ below path `prefix_of` f_name (file st i).
Proof.
  rewrite find_up_none_iff. split; intros Hn i Hi.
  - intros Hu Hp. specialize (Hn i Hi). apply starts_with_spec in Hp. by rewrite Hu, Hp in Hn.
  - destruct (f_used (file st i)) eqn:Hu; [|done]. simpl. apply not_true_is_false. rewrite starts_with_spec. by apply Hn.
Qed.

Lemma rmdir_others path st index :
  NoDup (directories st) -> directories st !! Z.to_nat index = Some path -> 0 <= index ->
  find_up (trips 0 (directory_count st)) 0
    (fun i => negb (i =? index) && starts_with (below path) (aget [] (directories st) i)) = None <->
  forall d, d ∈ directories st -> d <> path -> ~ below path `prefix_of` d.
Proof.
  intros Hnd Hix Hix0. rewrite find_up_none_iff. split.
  - intros Hn d Hin Hne Hp. apply list_elem_of_lookup in Hin as (k & Hk). pose proof (lookup_lt_Some _ _ _ Hk).
    specialize (Hn (Z.of_nat k)). unfold directory_count, alen, aget in Hn. rewrite Nat2Z.id, Hk in Hn. simpl in Hn.
    apply starts_with_spec in Hp. rewrite Hp, andb_true_r in Hn.
    destruct (Z.eqb_spec (Z.of_nat k) index) as [E|E]; [subst index; rewrite Nat2Z.id in Hix; congruence|].
    specialize (Hn ltac:(lia)). discriminate.
  - intros Hn k Hk. destruct (Z.eqb_spec k index) as [|Hne]; [done|]. simpl. apply not_true_is_false. rewrite starts_with_spec.
    unfold directory_count in Hk. pose proof (aget_lookup [] (directories st) k Hk) as Hlk. apply Hn.
    + apply list_elem_of_lookup. by eexists.
    + intros E. rewrite E in Hlk. apply Hne. pose proof (NoDup_lookup _ _ _ _ Hnd Hlk Hix). lia.
Qed.

(** [ramfs_rmdir] removes exactly the directory it is called on, and only
    when it is neither the root nor /bin and nothing lies below it. *)
Theorem ramfs_rmdir_correct path st :
  NoDup (directories st) ->
  let '(ok, st') := ramfs_rmdir (Some path) st in
  (ok = true <-> removable path st) /\
  files st' = files st /\ memory st' = memory st /\ allocator st' = allocator st /\
  (ok = false -> st' = st) /\ NoDup (directories st') /\
  (ok = true -> forall d, d ∈ directories st' <-> d ∈ directories st /\ d <> path).
Proof.
  intros Hnd. unfold ramfs_rmdir.
  assert (Hno : ~ removable path st ->
    (false = true <-> removable path st) /\ files st = files st /\ memory st = memory st /\ allocator st = allocator st /\
    (false = false -> st = st) /\ NoDup (directories st) /\
    (false = true -> forall d, d ∈ directories st <-> d ∈ directories st /\ d <> path)) by (intros; naive_solver).
  destruct (name_equal path (str "/") || _) eqn:E1.
  { apply Hno. intros (_ & H1 & H2 & _). rewrite orb_true_iff, !name_equal_true in E1. tauto. }
  rewrite orb_false_iff, !name_equal_spec, !bool_decide_eq_false in E1. destruct E1 as (Hroot & Hbin).
  pose proof (directory_index st path) as Hix. destruct (find_up _ _ _) as [index|]; [|apply Hno; by intros (? & _)].
  destruct Hix as (Hix & Hix0). destruct (Z.ltb_spec (alen path) (RAMFS_NAME_SIZE - 1)) as [Hl|Hl].
  2: { replace (RAMFS_NAME_SIZE - 1 <=? RAMFS_NAME_SIZE - 1) with true by done. rewrite orb_true_r.
       apply Hno. intros (_ & _ & _ & ? & _). lia. }
  destruct (alen path =? 0) eqn:E0; cbn [orb]; [apply Z.eqb_eq in E0; apply Hno; intros (_ & _ & _ & ? & _); lia|].
  apply Z.eqb_neq in E0. destruct (Z.leb_spec (RAMFS_NAME_SIZE - 1) (alen path)); [lia|]. fold (below path).
  destruct (find_up _ 0 (fun i => f_used _ && _)) eqn:E2.
  { apply Hno. intros (_ & _ & _ & _ & Hf & _). apply rmdir_files in Hf. congruence. }
  destruct (find_up _ 0 (fun i => negb _ && _)) eqn:E3.
  { apply Hno. intros (_ & _ & _ & _ & _ & Hd). apply (rmdir_others path st index) in Hd; (done || lia || congruence). }
  pose proof (proj1 (rmdir_files path st) E2) as Hf.
  pose proof (proj1 (rmdir_others path st index Hnd Hix (proj1 Hix0)) E3) as Hd.
  destruct (NoDup_delete_elem _ _ _ Hnd Hix) as (Hnd' & Hel). split_and!; try done.
  split; [intros _|done]. split_and!; try done; try (unfold alen in *; lia). by apply (list_elem_of_lookup_2 _ (Z.to_nat index)).
Qed.

(** The path of [name] in [directory]. *)
Definition join (directory name : cstr) : cstr :=
  if name_equal directory (str "/") then SLASH :: name else directory ++ SLASH :: name.

(** A tail that starts with a slash and goes on. *)
Lemma slash_tail rest name : cstr_ok rest ->
  (if negb (ch rest 0 =? SLASH) || (ch rest 1 =? NUL) then None else Some (drop 1 rest)) = Some name <->
  rest = SLASH :: name /\ name <> [].
Proof.
  intros Hok. destruct rest as [|c [|d rest]].
  - split; [discriminate | intros (? & _); discriminate].
  - change (ch [c] 1 =? NUL) with true. rewrite orb_true_r. split; [discriminate|]. intros (E & Hne). by injection E as -> <-.
  - apply Forall_cons in Hok as (_ & Hok). apply Forall_cons in Hok as (Hd & _). apply Z.eqb_neq in Hd.
    change (ch (c :: d :: rest) 1) with d. rewrite Hd, orb_false_r. change (ch (c :: d :: rest) 0) with c.
    destruct (Z.eqb_spec c SLASH) as [->|Hc]; cbn [negb drop]; split.
    + intros [= <-]. done.
    + intros (E & _). by injection E as <-.
    + discriminate.
    + intros (E & _). by injection E as ? ?.
Qed.

Lemma is_root directory : (alen directory =? 1) && (ch directory 0 =? SLASH) = name_equal directory (str "/").
Proof.
  rewrite name_equal_spec. change (str "/") with [SLASH]. destruct directory as [|c [|d directory]].
  - done.
  - change (alen [c] =? 1) with true. change (ch [c] 0) with c. cbn [andb].
    destruct (Z.eqb_spec c SLASH) as [->|Hc]; symmetry; [by apply bool_decide_true|]. apply bool_decide_false. by intros [= ?].
  - rewrite bool_decide_false by (intros E; discriminate).
    destruct (Z.eqb_spec (alen (c :: d :: directory)) 1) as [E|]; [|done]. unfold alen in E. simpl in E. lia.
Qed.

Lemma direct_child_spec directory path name : cstr_ok path ->
  ramfs_direct_child directory path = Some name <-> path = join directory name /\ name <> [] /\ SLASH ∉ name.
Proof.
  intros Hok. unfold ramfs_direct_child, join. rewrite is_root.
  assert (Hlast : forall rest, (match rest with None => None | Some rest => if has_slash rest then None else Some rest end) = Some name <->
    rest = Some name /\ SLASH ∉ name).
  { intros [rest|]; [|split; [discriminate | intros (? & _); discriminate]]. destruct (has_slash rest) eqn:E.
    - split; [done|]. intros ([= ->] & Hs). apply has_slash_false in Hs. congruence.
    - apply has_slash_false in E. split; [by intros [= ->] | by intros ([= ->] & _)]. }
  rewrite Hlast. destruct (name_equal directory (str "/")).
  - rewrite slash_tail by done. tauto.
  - destruct (after_prefix directory path) as [rest|] eqn:E.
    + apply after_prefix_Some in E as ->. apply Forall_app in Hok as (_ & Hok). rewrite slash_tail by done.
      split; [intros ((-> & ?) & ?); done|]. intros (E & ? & ?). apply app_inv_head in E. done.
    + split; [by intros (? & _)|]. intros (-> & _). assert (after_prefix directory (directory ++ SLASH :: name) = Some (SLASH :: name)).
      { by apply after_prefix_Some. } congruence.
Qed.

(** What [ramfs_readdir] enumerates. *)
Definition entries (path : cstr) (st : ramfs) : list fs_dirent :=
  omap (directory_entry path) (directories st) ++ omap (file_entry path) (files st).

Lemma pick_entry_spec {X} (entry : X -> option fs_dirent) xs visible index :
  0 <= visible <= index ->
  pick_entry entry xs visible index =
  match omap entry xs !! Z.to_nat (index - visible) with
  | Some e => inl e
  | None => inr (visible + alen (omap entry xs))
  end.
Proof.
  revert visible. induction xs as [|x xs IH]; intros visible Hv; cbn [pick_entry omap list_omap].
  - unfold alen. simpl. by rewrite Z.add_0_r.
  - destruct (entry x) as [e|] eqn:E; simpl; [|by apply IH]. destruct (Z.eqb_spec visible index) as [->|Hne].
    + by rewrite Z.sub_diag.
    + rewrite IH by lia. replace (Z.to_nat (index - visible)) with (S (Z.to_nat (index - (visible + 1)))) by lia. simpl.
      case_match; [done|]. f_equal. unfold alen. simpl. lia.
Qed.

(** The rows and name fields hold C strings. *)
Definition names_ok (st : ramfs) : Prop :=
  Forall (fun d => cstr_ok d /\ alen d < RAMFS_NAME_SIZE) (directories st) /\
  Forall (fun f => cstr_ok (f_name f) /\ alen (f_name f) < RAMFS_NAME_SIZE) (files st).

Lemma child_name directory path name : cstr_ok path -> alen path < RAMFS_NAME_SIZE ->
  path = join directory name -> copy_entry_name name = name.
Proof.
  intros _ Hlen ->. unfold copy_entry_name. apply take_ge. unfold join, alen, RAMFS_NAME_SIZE, FS_DIRENT_NAME_MAX in *.
  destruct (name_equal directory (str "/")); rewrite ?length_app in Hlen; simpl in Hlen; lia.
Qed.

(** C30 [ramfs_readdir] enumerates a directory: the indices from 0 on give one
    entry for each directory and then for each file whose path is that of the
    directory and one more component, and 0 after the last; a path that is not
    a directory is refused. *)
Theorem ramfs_readdir_correct path st :
  names_ok st ->
  (forall index, 0 <= index -> ramfs_readdir path index true st =
     if bool_decide (path ∈ directories st) then
       match entries path st !! Z.to_nat index with Some e => (1, Some e) | None => (0, None) end
     else (-1, None)) /\
  (forall e, e ∈ entries path st <->
     (exists name, join path name ∈ directories st /\ name <> [] /\ (SLASH ∉ name) /\ e = mk_dirent name 0 FS_DIRENT_DIRECTORY) \/
     (exists f name, f ∈ files st /\ f_used f = true /\ f_name f = join path name /\ name <> [] /\ (SLASH ∉ name) /\
        e = mk_dirent name (f_size f) FS_DIRENT_FILE)).
Proof.
  intros (Hd & Hf). rewrite Forall_forall in Hd. rewrite Forall_forall in Hf. split.
  - intros index Hi. unfold ramfs_readdir. rewrite is_directory_spec. case_bool_decide; [|done]. cbn [negb orb].
    rewrite pick_entry_spec, Z.sub_0_r by lia. unfold entries. rewrite lookup_app.
    destruct (omap (directory_entry path) (directories st) !! Z.to_nat index) eqn:E; [done|].
    apply lookup_ge_None in E. rewrite pick_entry_spec by (unfold alen; lia).
    replace (Z.to_nat (index - (0 + alen (omap (directory_entry path) (directories st)))))
      with (Z.to_nat index - length (omap (directory_entry path) (directories st)))%nat by (unfold alen; lia).
    by destruct (omap (file_entry path) (files st) !! _).
  - intros e. unfold entries. rewrite elem_of_app, !list_elem_of_omap. unfold directory_entry, file_entry. split.
    + intros [(d & Hin & He)|(f & Hin & He)].
      * left. destruct (Hd d Hin) as (G1 & G2). destruct (ramfs_direct_child path d) as [name|] eqn:E; [|done].
        apply direct_child_spec in E as (Ed & ? & ?); [|done]. injection He as <-. exists name. rewrite <- Ed.
        by rewrite (child_name path d name).
      * right. destruct (Hf f Hin) as (G1 & G2). destruct (f_used f) eqn:Hu; [|done]. cbn [negb] in He.
        destruct (ramfs_direct_child path (f_name f)) as [name|] eqn:E; [|done].
        apply direct_child_spec in E as (Ed & ? & ?); [|done]. injection He as <-. exists f, name.
        by rewrite (child_name path (f_name f) name).
    + intros [(name & Hin & ? & ? & ->)|(f & name & Hin & Hu & En & ? & ? & ->)].
      * left. exists (join path name). split; [done|]. destruct (Hd _ Hin) as (G1 & G2).
        rewrite (proj2 (direct_child_spec path (join path name) name G1)) by done. by rewrite (child_name path (join path name) name).
      * right. exists f. split; [done|]. destruct (Hf _ Hin) as (G1 & G2). rewrite Hu. cbn [negb].
        rewrite (proj2 (direct_child_spec path (f_name f) name G1)) by done. by rewrite (child_name path (f_name f) name).
Qed.

End Fs.
Arguments ramfs : clear implicits.
Arguments mk_ramfs {A}.

(** ** On the kernel heap *)

Definition sample_fs : ramfs (heap vmm_state) := ramfs_init (boot_ramfs ∅ sample_heap).
Definition sample_fs_ops : list ramfs_op :=
  [Mkdir (str "/tmp"); Write (str "/tmp/a") [1; 2; 3]; Write (str "/tmp/b") [9]; Write (str "/tmp/a") [7];
   Rmdir (str "/tmp"); Unlink (str "/tmp/b")].

Lemma sample_heap_alloc : alloc_rep sample_heap [].
Proof. exists [mk_blk 16352 false]. split; [apply sample_heap_rep | done]. Qed.

Lemma ramfs_trace_witness :
  fst (run_ramfs_ops sample_fs_ops (ramfs_init (boot_ramfs ∅ sample_heap))) = [true; true; true; true; false; true] /\
  exists M, ramfs_rep [] (snd (run_ramfs_ops sample_fs_ops (ramfs_init (boot_ramfs ∅ sample_heap)))) M.
Proof.
  split; [vm_compute; reflexivity|].
  pose proof (ramfs_trace [] ∅ sample_heap sample_fs_ops sample_heap_alloc) as H. cbv zeta in H.
  destruct (run_ramfs_ops sample_fs_ops (ramfs_init (boot_ramfs ∅ sample_heap))) as [oks st].
  destruct H as (ok & M0 & M & _ & _ & H & _); [|by exists M].
  repeat (apply Forall_cons; split; [by repeat constructor|]). done.
Defined.

Definition sample_dirs : ramfs (heap vmm_state) := mk_ramfs [] [str "/"; str "/bin"; str "/tmp"; str "/tmp/x"] ∅ sample_heap.

Lemma ramfs_rmdir_correct_witness :
  removable (str "/tmp/x") sample_dirs /\ fst (ramfs_rmdir (Some (str "/tmp")) sample_dirs) = false.
Proof.
  assert (Hnd : NoDup (directories sample_dirs)) by (apply (bool_decide_unpack _); vm_compute; exact I).
  pose proof (ramfs_rmdir_correct (str "/tmp/x") sample_dirs Hnd) as H. split; [|vm_compute; reflexivity].
  assert (Hok : fst (ramfs_rmdir (Some (str "/tmp/x")) sample_dirs) = true) by (vm_compute; reflexivity).
  destruct (ramfs_rmdir (Some (str "/tmp/x")) sample_dirs) as [ok st']. cbn [fst] in Hok. by apply H.
Defined.

Lemma ramfs_readdir_correct_witness :
  ramfs_readdir (str "/tmp") 0 true sample_dirs = (1, Some (mk_dirent (str "x") 0 FS_DIRENT_DIRECTORY)).
Proof.
  assert (Hn : names_ok sample_dirs).
  { split; [|constructor]. cbn [directories sample_dirs].
    repeat (apply Forall_cons; split; [split; [repeat constructor; discriminate | vm_compute; reflexivity]|]). constructor. }
  rewrite (proj1 (ramfs_readdir_correct (str "/tmp") sample_dirs Hn)) by lia. vm_compute. reflexivity.
Defined.

(** Five files of 32 KiB fill the memory of the sample machine. *)
Definition sample_full : ramfs (heap vmm_state) :=
  snd (run_ramfs_ops ((fun c => Write [SLASH; c] [1]) <$> [97; 98; 99; 100; 101]) sample_fs).

(** A write that is refused for want of memory leaves the new name behind
    as an empty file: [ramfs_write] marks the slot used before it calls
    [kmalloc], and does not undo it. *)
Theorem ramfs_write_phantom :
  ramfs_stat (str "/f") true sample_full = None /\
  fst (ramfs_write (Some (str "/f")) (Some [1]) 1 sample_full) = false /\
  ramfs_stat (str "/f") true (snd (ramfs_write (Some (str "/f")) (Some [1]) 1 sample_full)) = Some 0.
Proof. vm_compute. done. Qed.

End Ramfs.
