(* ===== verification/Pipe.v ===== *)
(** * Pipe: the pipes of src/fs/vfs.c

    A pipe is a ring of [VFS_PIPE_CAPACITY] bytes with counts of its readers
    and writers.  Each pass of the loops of [pipe_read] and [pipe_write] runs
    with interrupts off and is one step here; a pass that finds nothing to do
    ends in [task_block_current_if], which is the outcome [Wait].  A call is
    the sequence of its passes, interleaved with those of other tasks. *)

From S2P Require Import Prelude.
Local Open Scope Z_scope.

Module Pipe.

Definition VFS_PIPE_CAPACITY : Z := 4096.

Inductive vfs_pipe_mode := VFS_PIPE_NONE | VFS_PIPE_READ | VFS_PIPE_WRITE.

#[export] Instance vfs_pipe_mode_eq : EqDecision vfs_pipe_mode.
Proof. solve_decision. Defined.

Record vfs_pipe := mk_pipe {
  p_used : bool;
  p_readers : Z;
  p_writers : Z;
  p_head : Z;
  p_tail : Z;
  p_count : Z;
  p_data : list Z;
}.

Definition pipe_drop_reference_locked (mode : vfs_pipe_mode) (p : vfs_pipe) : vfs_pipe :=
  if negb (p_used p) then p
  else
    let readers := if bool_decide (mode = VFS_PIPE_READ) && negb (p_readers p =? 0) then p_readers p -! 1 else p_readers p in
    let writers := if bool_decide (mode = VFS_PIPE_WRITE) && negb (p_writers p =? 0) then p_writers p -! 1 else p_writers p in
    if (readers =? 0) && (writers =? 0) then mk_pipe false readers writers 0 0 0 (p_data p)
    else mk_pipe (p_used p) readers writers (p_head p) (p_tail p) (p_count p) (p_data p).

(** [pipe->readers++] or [pipe->writers++] *)
Definition pipe_add_reference (mode : vfs_pipe_mode) (p : vfs_pipe) : vfs_pipe :=
  match mode with
  | VFS_PIPE_NONE => p
  | VFS_PIPE_READ => mk_pipe (p_used p) (p_readers p +! 1) (p_writers p) (p_head p) (p_tail p) (p_count p) (p_data p)
  | VFS_PIPE_WRITE => mk_pipe (p_used p) (p_readers p) (p_writers p +! 1) (p_head p) (p_tail p) (p_count p) (p_data p)
  end.

Definition pipe_retain_reference (mode : vfs_pipe_mode) (p : vfs_pipe) : vfs_pipe :=
  if p_used p then pipe_add_reference mode p else p.

(** The initialisation in [vfs_pipe]. *)
Definition pipe_open (p : vfs_pipe) : vfs_pipe := mk_pipe true 1 1 0 0 0 (p_data p).

Definition pipe_reader_should_wait (p : vfs_pipe) : bool :=
  p_used p && (p_count p =? 0) && negb (p_writers p =? 0).
Definition pipe_writer_should_wait (p : vfs_pipe) : bool :=
  p_used p && (p_count p =? VFS_PIPE_CAPACITY) && negb (p_readers p =? 0).

(** [buffer[i] = pipe->data[pipe->head]; pipe->head = (pipe->head + 1) % CAPACITY;] *)
Fixpoint take_bytes (count : nat) (head : Z) (data : list Z) : list Z * Z :=
  match count with
  | O => ([], head)
  | S count =>
      let '(bytes, last) := take_bytes count ((head + 1) mod VFS_PIPE_CAPACITY) data in
      (aget 0 data head :: bytes, last)
  end.

(** [pipe->data[pipe->tail] = buffer[i]; pipe->tail = (pipe->tail + 1) % CAPACITY;] *)
Fixpoint put_bytes (bytes : list Z) (tail : Z) (data : list Z) : list Z * Z :=
  match bytes with
  | [] => (data, tail)
  | b :: bytes => put_bytes bytes ((tail + 1) mod VFS_PIPE_CAPACITY) (aset data tail b)
  end.

(** [Return code bytes]: the call returns [code] with [*read = alen bytes]. *)
Inductive read_outcome := ReadReturn (code : Z) (bytes : list Z) | ReadWait.

(** One pass of [pipe_read], whose guards come first. *)
Definition pipe_read (mode : vfs_pipe_mode) (length : Z) (p : vfs_pipe) : read_outcome * vfs_pipe :=
  if negb (bool_decide (mode = VFS_PIPE_READ)) then (ReadReturn (-1) [], p)
  else if length =? 0 then (ReadReturn 0 [], p)
  else if negb (p_count p =? 0) then
    let count := if p_count p <? length then p_count p else length in
    let '(bytes, head) := take_bytes (Z.to_nat count) (p_head p) (p_data p) in
    (ReadReturn 0 bytes,
     mk_pipe (p_used p) (p_readers p) (p_writers p) head (p_tail p) (p_count p -! count) (p_data p))
  else if p_writers p =? 0 then (ReadReturn 0 [], p)
  else (ReadWait, p).

(** [WriteReturn code total]: the call returns [code] with [*written = total];
    [WriteMore]: the loop goes on with the new [total]. *)
Inductive write_outcome := WriteReturn (code total : Z) | WriteMore (total : Z) | WriteWait (total : Z).

(** One pass of [pipe_write] with [total] bytes of [buffer] written. *)
Definition pipe_write (mode : vfs_pipe_mode) (buffer : list Z) (total : Z) (p : vfs_pipe) : write_outcome * vfs_pipe :=
  if negb (bool_decide (mode = VFS_PIPE_WRITE)) then (WriteReturn (-1) 0, p)
  else if negb (total <? alen buffer) then (WriteReturn 0 total, p)
  else if p_readers p =? 0 then (WriteReturn (if total =? 0 then -1 else 0) total, p)
  else
    let available := VFS_PIPE_CAPACITY -! p_count p in
    let amount := alen buffer -! total in
    let amount := if available <? amount then available else amount in
    let '(data, tail) := put_bytes (take (Z.to_nat amount) (drop (Z.to_nat total) buffer)) (p_tail p) (p_data p) in
    let p := mk_pipe (p_used p) (p_readers p) (p_writers p) (p_head p) tail (p_count p +! amount) data in
    if negb (amount =? 0) then (WriteMore (total +! amount), p) else (WriteWait total, p).

(** ** The bytes in the pipe *)

Definition index (i : Z) : Prop := 0 <= i < VFS_PIPE_CAPACITY.

Definition ring (data : list Z) (head : Z) (count : nat) : list Z :=
  (fun i => aget 0 data ((head + Z.of_nat i) mod VFS_PIPE_CAPACITY)) <$> seq 0 count.

Definition contents (p : vfs_pipe) : list Z := ring (p_data p) (p_head p) (Z.to_nat (p_count p)).

Record pipe_ok (p : vfs_pipe) : Prop := {
  po_data : alen (p_data p) = VFS_PIPE_CAPACITY;
  po_head : index (p_head p);
  po_count : 0 <= p_count p <= VFS_PIPE_CAPACITY;
  po_tail : p_tail p = (p_head p + p_count p) mod VFS_PIPE_CAPACITY;
  po_refs : is_u64 (p_readers p) /\ is_u64 (p_writers p);
}.

Lemma ring_S data head count : ring data head (S count) =
  aget 0 data (head mod VFS_PIPE_CAPACITY) :: ring data (head + 1) count.
Proof.
  unfold ring. cbn [seq fmap list_fmap]. rewrite Z.add_0_r. f_equal. rewrite <- fmap_S_seq, <- list_fmap_compose.
  apply list_fmap_ext. intros i k Hk. simpl. do 2 f_equal. lia.
Qed.

Lemma ring_mod data head count : ring data (head mod VFS_PIPE_CAPACITY) count = ring data head count.
Proof.
  unfold ring. apply list_fmap_ext. intros i k Hk. f_equal. unfold VFS_PIPE_CAPACITY. by rewrite Zplus_mod_idemp_l.
Qed.

Lemma ring_add data head n m : ring data head (n + m) = ring data head n ++ ring data (head + Z.of_nat n) m.
Proof.
  revert head. induction n as [|n IH]; intros head; cbn [Nat.add].
  - simpl. by rewrite Z.add_0_r.
  - rewrite !ring_S, IH. simpl. do 3 f_equal. lia.
Qed.

Lemma length_ring data head n : length (ring data head n) = n.
Proof. unfold ring. by rewrite length_fmap, length_seq. Qed.

Lemma take_bytes_spec count head data : index head ->
  take_bytes count head data = (ring data head count, (head + Z.of_nat count) mod VFS_PIPE_CAPACITY).
Proof.
  revert head. induction count as [|count IH]; intros head Hh; cbn [take_bytes].
  - rewrite Z.add_0_r, Z.mod_small by done. done.
  - rewrite IH by (apply Z.mod_pos_bound; done). rewrite ring_S, ring_mod, (Z.mod_small head) by done.
    f_equal. rewrite Zplus_mod_idemp_l. f_equal. lia.
Qed.

(** Writing at a tail that is not among the [count] bytes appends. *)
Lemma put_bytes_spec bytes data head count :
  alen data = VFS_PIPE_CAPACITY -> Z.of_nat (count + length bytes) <= VFS_PIPE_CAPACITY ->
  let '(data', tail') := put_bytes bytes ((head + Z.of_nat count) mod VFS_PIPE_CAPACITY) data in
  alen data' = VFS_PIPE_CAPACITY /\ tail' = (head + Z.of_nat (count + length bytes)) mod VFS_PIPE_CAPACITY /\
  ring data' head (count + length bytes) = ring data head count ++ bytes.
Proof.
  revert data count. induction bytes as [|b bytes IH]; intros data count Hd Hc; cbn [put_bytes length].
  { rewrite Nat.add_0_r, app_nil_r. done. }
  set (t := (head + Z.of_nat count) mod VFS_PIPE_CAPACITY).
  assert (Ht : 0 <= t < VFS_PIPE_CAPACITY) by (apply Z.mod_pos_bound; done).
  specialize (IH (aset data t b) (S count)). rewrite alen_aset in IH.
  replace ((t + 1) mod VFS_PIPE_CAPACITY) with ((head + Z.of_nat (S count)) mod VFS_PIPE_CAPACITY).
  2: { unfold t. rewrite Zplus_mod_idemp_l. f_equal. lia. }
  destruct (put_bytes bytes _ (aset data t b)) as [data' tail'].
  destruct IH as (H1 & H2 & H3); [done | simpl in Hc; lia |].
  replace (count + S (length bytes))%nat with (S count + length bytes)%nat by lia. split_and!; [done | done |].
  rewrite H3. replace (S count) with (count + 1)%nat by lia. rewrite ring_add. rewrite <- app_assoc. f_equal.
  - unfold ring. apply list_fmap_ext. intros i k Hk. apply lookup_seq in Hk as (-> & Hk).
    apply aget_aset_ne; [lia | apply Z.mod_pos_bound; done |]. unfold t, VFS_PIPE_CAPACITY in *. intros E.
    simpl in Hc. Z.div_mod_to_equations. lia.
  - rewrite ring_S. fold t. rewrite aget_aset_eq by lia. done.
Qed.
Lemma contents_length p : pipe_ok p -> alen (contents p) = p_count p.
Proof. intros Hp. unfold contents, alen. rewrite length_ring. pose proof (po_count _ Hp). lia. Qed.

(** What a pass of [pipe_read] does to the bytes in the pipe. *)
Lemma pipe_read_spec length p : pipe_ok p -> 0 <= length ->
  let '(out, p') := pipe_read VFS_PIPE_READ length p in
  pipe_ok p' /\ p_used p' = p_used p /\ p_readers p' = p_readers p /\ p_writers p' = p_writers p /\
  match out with
  | ReadReturn code bytes => code = 0 /\ bytes = take (Z.to_nat length) (contents p) /\
      contents p' = drop (Z.to_nat length) (contents p) /\
      (bytes = [] -> length = 0 \/ (contents p = [] /\ p_writers p = 0))
  | ReadWait => p' = p /\ 0 < length /\ contents p = [] /\ p_writers p <> 0
  end.
Proof.
  intros Hp Hl. pose proof (contents_length p Hp) as Hlen. unfold pipe_read. cbn [negb bool_decide decide_rel].
  rewrite bool_decide_true by done. cbn [negb]. destruct (Z.eqb_spec length 0) as [->|Hl0].
  { split_and!; try done. by left. }
  destruct Hp as [Hd Hh Hc Ht Hr]. destruct (Z.eqb_spec (p_count p) 0) as [Hc0|Hc0]; cbn [negb].
  - assert (contents p = []) as Hnil by (unfold contents; by rewrite Hc0).
    destruct (Z.eqb_spec (p_writers p) 0); split_and!; try done; try (by rewrite Hnil, ?take_nil, ?drop_nil); try (by right).
    lia.
  - rewrite take_bytes_spec by done. set (count := if p_count p <? length then p_count p else length).
    assert (Hcount : 0 < count <= p_count p) by (unfold count; destruct (Z.ltb_spec (p_count p) length); lia).
    assert (Hsplit : contents p = ring (p_data p) (p_head p) (Z.to_nat count) ++
                      ring (p_data p) (p_head p + count) (Z.to_nat (p_count p - count))).
    { unfold contents. replace (Z.to_nat (p_count p)) with (Z.to_nat count + Z.to_nat (p_count p - count))%nat by lia.
      rewrite ring_add. do 2 f_equal. lia. }
    assert (Hsub : p_count p -! count = p_count p - count) by (unfold VFS_PIPE_CAPACITY in *; u64_simpl; done).
    rewrite Hsub, Z2Nat.id by lia.
    assert (Htake : take (Z.to_nat length) (contents p) = ring (p_data p) (p_head p) (Z.to_nat count) /\
                    drop (Z.to_nat length) (contents p) = ring (p_data p) (p_head p + count) (Z.to_nat (p_count p - count))).
    { unfold count in *. destruct (Z.ltb_spec (p_count p) length).
      - rewrite take_ge, drop_ge by (unfold alen in Hlen; lia). replace (p_count p - p_count p) with 0 by lia. done.
      - rewrite Hsplit. rewrite take_app_length', drop_app_length' by (by rewrite length_ring). done. }
    split_and!; try done.
    + split; cbn [p_data p_head p_count p_tail p_readers p_writers]; try done.
      * apply Z.mod_pos_bound. done.
      * lia.
      * rewrite Ht, Zplus_mod_idemp_l. f_equal. lia.
    + by rewrite (proj1 Htake).
    + rewrite (proj2 Htake). unfold contents. cbn [p_data p_head p_count]. apply ring_mod.
    + intros E. apply (f_equal alen) in E. unfold alen in E. rewrite length_ring in E. simpl in E. lia.
Qed.

(** What a pass of [pipe_write] does to the bytes in the pipe. *)
Lemma pipe_write_spec buffer total p : pipe_ok p -> 0 <= total -> alen buffer < 2 ^ 64 ->
  let '(out, p') := pipe_write VFS_PIPE_WRITE buffer total p in
  pipe_ok p' /\ p_used p' = p_used p /\ p_readers p' = p_readers p /\ p_writers p' = p_writers p /\
  match out with
  | WriteReturn code written => p' = p /\ written = total /\
      ((alen buffer <= total /\ code = 0) \/ (total < alen buffer /\ p_readers p = 0 /\ code = if total =? 0 then -1 else 0))
  | WriteMore total' => total < total' <= alen buffer /\ p_readers p <> 0 /\
      contents p' = contents p ++ take (Z.to_nat (total' - total)) (drop (Z.to_nat total) buffer) /\
      p_count p' = p_count p + (total' - total) /\ (total' = alen buffer \/ p_count p' = VFS_PIPE_CAPACITY)
  | WriteWait total' => total' = total /\ total < alen buffer /\ p_count p = VFS_PIPE_CAPACITY /\ p_readers p <> 0 /\
      contents p' = contents p
  end.
Proof.
  intros Hp Ht0 Hb. unfold pipe_write. rewrite bool_decide_true by done. cbn [negb].
  destruct (Z.ltb_spec total (alen buffer)) as [Hlt|Hge]; cbn [negb].
  2: { split_and!; try done. left. done. }
  destruct (Z.eqb_spec (p_readers p) 0) as [Hr0|Hr0].
  { split_and!; try done. right. split_and!; done. }
  destruct Hp as [Hd Hh Hc Ht Hr].
  assert (E1 : VFS_PIPE_CAPACITY -! p_count p = VFS_PIPE_CAPACITY - p_count p) by (unfold VFS_PIPE_CAPACITY in *; u64_simpl; done).
  assert (E2 : alen buffer -! total = alen buffer - total) by (u64_simpl; done). rewrite E1, E2.
  set (amount := if VFS_PIPE_CAPACITY - p_count p <? alen buffer - total then VFS_PIPE_CAPACITY - p_count p else alen buffer - total).
  assert (Ha : 0 <= amount <= alen buffer - total /\ amount <= VFS_PIPE_CAPACITY - p_count p /\
               (amount = alen buffer - total \/ amount = VFS_PIPE_CAPACITY - p_count p)).
  { unfold amount. destruct (Z.ltb_spec (VFS_PIPE_CAPACITY - p_count p) (alen buffer - total)); lia. }
  set (bytes := take (Z.to_nat amount) (drop (Z.to_nat total) buffer)).
  assert (Hlen : length bytes = Z.to_nat amount).
  { unfold bytes. rewrite length_take, length_drop. unfold alen in *. lia. }
  pose proof (put_bytes_spec bytes (p_data p) (p_head p) (Z.to_nat (p_count p)) Hd) as Hput.
  rewrite Hlen, Z2Nat.id, <- Ht in Hput by lia. destruct (put_bytes bytes (p_tail p) (p_data p)) as [data tail].
  destruct Hput as (H1 & H2 & H3); [unfold VFS_PIPE_CAPACITY in *; lia|].
  assert (E3 : p_count p +! amount = p_count p + amount) by (unfold VFS_PIPE_CAPACITY in *; u64_simpl; done).
  assert (E4 : total +! amount = total + amount) by (u64_simpl; done). rewrite E3, E4.
  assert (Hok : pipe_ok (mk_pipe (p_used p) (p_readers p) (p_writers p) (p_head p) tail (p_count p + amount) data)).
  { split; cbn [p_data p_head p_count p_tail p_readers p_writers]; try done; [lia|]. rewrite H2. do 2 f_equal. lia. }
  assert (Hcont : contents (mk_pipe (p_used p) (p_readers p) (p_writers p) (p_head p) tail (p_count p + amount) data) =
                  contents p ++ bytes).
  { unfold contents. cbn [p_data p_head p_count]. rewrite <- H3. do 2 f_equal. lia. }
  destruct (Z.eqb_spec amount 0) as [Hz|Hz]; cbn [negb]; split_and!; try done; try lia.
  - rewrite Hcont. unfold bytes. rewrite Hz. simpl. by rewrite app_nil_r.
  - rewrite Hcont. unfold bytes. do 2 f_equal. lia.
  - cbn [p_count]. lia.
  - cbn [p_count]. lia.
Qed.

(** ** Interleaved use *)

Inductive pipe_event :=
| PRead (length : Z)
| PWrite (buffer : list Z) (total : Z)
| PRetain (mode : vfs_pipe_mode)
| PDrop (mode : vfs_pipe_mode).

Definition pipe_event_ok (e : pipe_event) : Prop :=
  match e with
  | PRead length => 0 <= length
  | PWrite buffer total => 0 <= total /\ alen buffer < 2 ^ 64
  | _ => True
  end.

(** The bytes handed to a reader, the bytes taken from a writer, the pipe. *)
Definition run_pipe_event (e : pipe_event) (p : vfs_pipe) : list Z * list Z * vfs_pipe :=
  match e with
  | PRead length =>
      let '(out, p) := pipe_read VFS_PIPE_READ length p in
      (match out with ReadReturn _ bytes => bytes | ReadWait => [] end, [], p)
  | PWrite buffer total =>
      let '(out, p) := pipe_write VFS_PIPE_WRITE buffer total p in
      ([], match out with
           | WriteMore total' => take (Z.to_nat (total' - total)) (drop (Z.to_nat total) buffer)
           | _ => []
           end, p)
  | PRetain mode => ([], [], pipe_retain_reference mode p)
  | PDrop mode => ([], [], pipe_drop_reference_locked mode p)
  end.

Fixpoint run_pipe (es : list pipe_event) (p : vfs_pipe) : list Z * list Z * vfs_pipe :=
  match es with
  | [] => ([], [], p)
  | e :: es =>
      let '(r1, w1, p) := run_pipe_event e p in
      let '(r2, w2, p) := run_pipe es p in
      (r1 ++ r2, w1 ++ w2, p)
  end.

Lemma pipe_ok_refs p u r w : pipe_ok p -> is_u64 r -> is_u64 w ->
  pipe_ok (mk_pipe u r w (p_head p) (p_tail p) (p_count p) (p_data p)).
Proof. intros [? ? ? ? ?] ? ?. by split. Qed.

Lemma retain_ok mode p : pipe_ok p ->
  pipe_ok (pipe_retain_reference mode p) /\ p_used (pipe_retain_reference mode p) = p_used p /\
  contents (pipe_retain_reference mode p) = contents p.
Proof.
  intros Hp. destruct (po_refs _ Hp) as (Hr & Hw). unfold pipe_retain_reference, pipe_add_reference.
  destruct (p_used p) eqn:Hu; [|done]. destruct mode; (split; [|done]); try done; apply pipe_ok_refs; auto with coneos.
Qed.

Lemma drop_ok mode p : pipe_ok p ->
  pipe_ok (pipe_drop_reference_locked mode p) /\
  (p_used (pipe_drop_reference_locked mode p) = true -> p_used p = true /\ contents (pipe_drop_reference_locked mode p) = contents p).
Proof.
  intros Hp. destruct (po_refs _ Hp) as (Hr & Hw). unfold pipe_drop_reference_locked.
  destruct (p_used p) eqn:Hu; cbn [negb]; [|split; [done | congruence]].
  set (readers := if _ && _ then p_readers p -! 1 else _). set (writers := if _ && _ then p_writers p -! 1 else _).
  assert (is_u64 readers /\ is_u64 writers) as (Hr' & Hw').
  { split; [unfold readers | unfold writers]; (case_match; [apply u64_range | done]). }
  destruct ((readers =? 0) && (writers =? 0)).
  - split; [|done]. destruct Hp as [Hd Hh Hc Ht _]. by split; cbn; unfold index, VFS_PIPE_CAPACITY in *; try lia.
  - split; [by apply pipe_ok_refs | done].
Qed.

Lemma run_pipe_event_spec e p : pipe_ok p -> pipe_event_ok e ->
  let '(r, w, p') := run_pipe_event e p in
  pipe_ok p' /\ (p_used p' = true -> p_used p = true /\ r ++ contents p' = contents p ++ w).
Proof.
  intros Hp He. destruct e as [length|buffer total|mode|mode]; cbn [run_pipe_event].
  - pose proof (pipe_read_spec length p Hp He) as H. destruct (pipe_read _ _ _) as [out p'].
    destruct H as (Hok & -> & _ & _ & H). split; [done|]. intros Hu. split; [done|]. rewrite app_nil_r. destruct out as [code bytes|].
    + destruct H as (_ & -> & -> & _). apply take_drop.
    + by destruct H as (-> & _).
  - destruct He as (Ht & Hb). pose proof (pipe_write_spec buffer total p Hp Ht Hb) as H. destruct (pipe_write _ _ _ _) as [out p'].
    destruct H as (Hok & -> & _ & _ & H). split; [done|]. intros Hu. split; [done|]. simpl. destruct out as [code written|total'|total'].
    + destruct H as (-> & _). by rewrite app_nil_r.
    + by destruct H as (_ & _ & -> & _).
    + destruct H as (_ & _ & _ & _ & ->). by rewrite app_nil_r.
  - destruct (retain_ok mode p Hp) as (Hok & -> & ->). rewrite app_nil_r. done.
  - destruct (drop_ok mode p Hp) as (Hok & H). split; [done|]. intros Hu. destruct (H Hu) as (? & ->). by rewrite app_nil_r.
Qed.

Lemma run_pipe_spec es p : pipe_ok p -> Forall pipe_event_ok es ->
  let '(r, w, p') := run_pipe es p in
  pipe_ok p' /\ (p_used p' = true -> p_used p = true /\ r ++ contents p' = contents p ++ w).
Proof.
  intros Hp Hes. revert p Hp. induction Hes as [|e es He _ IH]; intros p Hp; cbn [run_pipe].
  { split; [done|]. intros Hu. by rewrite app_nil_r. }
  pose proof (run_pipe_event_spec e p Hp He) as H1. destruct (run_pipe_event e p) as [[r1 w1] p1].
  destruct H1 as (Hp1 & H1). specialize (IH p1 Hp1). destruct (run_pipe es p1) as [[r2 w2] p2].
  destruct IH as (Hp2 & H2). split; [done|]. intros Hu. destruct (H2 Hu) as (Hu1 & E2). destruct (H1 Hu1) as (Hu0 & E1).
  split; [done|]. by rewrite <- app_assoc, E2, app_assoc, E1, app_assoc.
Qed.

Lemma open_ok p : alen (p_data p) = VFS_PIPE_CAPACITY -> pipe_ok (pipe_open p).
Proof. intros Hd. by split; cbn; unfold index, VFS_PIPE_CAPACITY, is_u64 in *; try lia. Qed.

(** C37 A pipe is a FIFO: whatever passes of readers and writers, duplications
    and closes are interleaved on a pipe from its creation on, the bytes handed
    to the readers followed by those still in the ring are the bytes taken
    from the writers, in order, as long as an end is open. *)
Theorem pipe_fifo p es :
  alen (p_data p) = VFS_PIPE_CAPACITY -> Forall pipe_event_ok es ->
  let '(r, w, p') := run_pipe es (pipe_open p) in p_used p' = true -> r ++ contents p' = w.
Proof.
  intros Hd Hes. pose proof (run_pipe_spec es (pipe_open p) (open_ok p Hd) Hes) as H.
  destruct (run_pipe es (pipe_open p)) as [[r w] p']. intros Hu. by apply H.
Qed.

(** A pass blocks exactly when the condition that [task_block_current_if]
    tests again holds: a reader on an empty pipe that a writer still holds
    open, a writer on a full pipe that a reader holds open.  The two are never
    blocked at the same time. *)
Theorem pipe_blocking p length buffer total :
  pipe_ok p -> p_used p = true -> 0 < length -> 0 <= total < alen buffer -> alen buffer < 2 ^ 64 ->
  (fst (pipe_read VFS_PIPE_READ length p) = ReadWait <-> pipe_reader_should_wait p = true) /\
  (fst (pipe_write VFS_PIPE_WRITE buffer total p) = WriteWait total <-> pipe_writer_should_wait p = true) /\
  ~ (pipe_reader_should_wait p = true /\ pipe_writer_should_wait p = true).
Proof.
  intros Hp Hu Hl Ht Hb. pose proof (contents_length p Hp) as Hlen.
  unfold pipe_reader_should_wait, pipe_writer_should_wait. rewrite Hu. cbn [andb]. split_and!.
  - unfold pipe_read. rewrite bool_decide_true by done. cbn [negb]. destruct (Z.eqb_spec length 0); [lia|].
    destruct (p_count p =? 0); cbn [negb andb]; [destruct (p_writers p =? 0); cbn; split; done|].
    destruct (take_bytes _ _ _) as [bytes head]. cbn. split; done.
  - pose proof (pipe_write_spec buffer total p Hp (proj1 Ht) Hb) as H. destruct (pipe_write _ _ _ _) as [out p']. cbn [fst].
    destruct H as (Hp' & _ & _ & _ & H). rewrite andb_true_iff, negb_true_iff, Z.eqb_eq, Z.eqb_neq. destruct out as [code w|t|t].
    + split; [done|]. intros (Hc & Hr). destruct H as (_ & _ & [(? & _)|(_ & ? & _)]); [lia | done].
    + split; [done|]. intros (Hc & _). exfalso. destruct H as (Ht' & _ & _ & Hc' & _). pose proof (po_count _ Hp'). lia.
    + destruct H as (-> & _ & Hc & Hr & _). done.
  - rewrite !andb_true_iff, !negb_true_iff, !Z.eqb_eq. unfold VFS_PIPE_CAPACITY. lia.
Qed.

(** ** A writer among readers *)

(** Passes of [pipe_read] by other tasks, with the lengths they ask for. *)
Fixpoint pipe_reads (lengths : list Z) (p : vfs_pipe) : list Z * vfs_pipe :=
  match lengths with
  | [] => ([], p)
  | length :: lengths =>
      let '(out, p) := pipe_read VFS_PIPE_READ length p in
      let '(bytes, p) := pipe_reads lengths p in
      (match out with ReadReturn _ b => b | ReadWait => [] end ++ bytes, p)
  end.

(** The loop of [pipe_write] with the reads of other tasks before each of its
    passes: its outcome, the bytes the others read, the pipe. *)
Fixpoint pipe_write_among (rounds : list (list Z)) (buffer : list Z) (total : Z) (p : vfs_pipe) :
    write_outcome * list Z * vfs_pipe :=
  match rounds with
  | [] => (WriteMore total, [], p)
  | lengths :: rounds =>
      let '(r1, p) := pipe_reads lengths p in
      let '(out, p) := pipe_write VFS_PIPE_WRITE buffer total p in
      match out with
      | WriteReturn _ _ => (out, r1, p)
      | WriteMore total | WriteWait total =>
          let '(out, r2, p) := pipe_write_among rounds buffer total p in (out, r1 ++ r2, p)
      end
  end.

(** A writer that found the ring full goes on after somebody asked for bytes. *)
Fixpoint served (waited : bool) (rounds : list (list Z)) (buffer : list Z) (total : Z) (p : vfs_pipe) : Prop :=
  match rounds with
  | [] => True
  | lengths :: rounds =>
      (waited = true -> Exists (fun length => 0 < length) lengths) /\
      let '(_, p) := pipe_reads lengths p in
      let '(out, p) := pipe_write VFS_PIPE_WRITE buffer total p in
      match out with
      | WriteReturn _ _ => True
      | WriteMore total => served false rounds buffer total p
      | WriteWait total => served true rounds buffer total p
      end
  end.

Lemma pipe_reads_spec lengths p : pipe_ok p -> Forall (fun length => 0 <= length) lengths ->
  let '(bytes, p') := pipe_reads lengths p in
  pipe_ok p' /\ p_readers p' = p_readers p /\ bytes ++ contents p' = contents p /\
  (Exists (fun length => 0 < length) lengths -> p_count p' < VFS_PIPE_CAPACITY).
Proof.
  revert p. induction lengths as [|n lengths IH]; intros p Hp Hl; cbn [pipe_reads].
  { split_and!; try done. by intros ?%Exists_nil. }
  apply Forall_cons in Hl as (Hn & Hl). pose proof (pipe_read_spec n p Hp Hn) as Hr. pose proof (contents_length p Hp) as Hlen.
  destruct (pipe_read VFS_PIPE_READ n p) as [out p1]. destruct Hr as (Hp1 & _ & Er & _ & Hr). pose proof (contents_length p1 Hp1) as Hlen1.
  specialize (IH p1 Hp1 Hl). destruct (pipe_reads lengths p1) as [bytes p2]. destruct IH as (Hp2 & Er2 & E & Hc).
  assert (Hle : p_count p2 <= p_count p1).
  { rewrite <- (contents_length p2 Hp2), <- Hlen1, <- E. unfold alen. rewrite length_app. lia. }
  pose proof (po_count _ Hp). split_and!; [done | congruence | |].
  - rewrite <- app_assoc, E. destruct out as [code b|]; [|by destruct Hr as (-> & _)]. destruct Hr as (_ & -> & -> & _). apply take_drop.
  - rewrite Exists_cons. intros [Hn0|He]; [|by apply Hc]. destruct out as [code b|].
    + destruct Hr as (_ & _ & Ed & _). rewrite Ed in Hlen1. unfold alen in Hlen, Hlen1. rewrite length_drop in Hlen1. unfold VFS_PIPE_CAPACITY in *. lia.
    + destruct Hr as (-> & _ & Hnil & _). rewrite Hnil in Hlen. unfold alen in Hlen. simpl in Hlen. unfold VFS_PIPE_CAPACITY in *. lia.
Qed.

Lemma pipe_write_among_spec waited rounds buffer total p :
  pipe_ok p -> p_readers p <> 0 -> 0 <= total <= alen buffer -> alen buffer < 2 ^ 64 ->
  Forall (Forall (fun length => 0 <= length)) rounds -> served waited rounds buffer total p ->
  2 * (alen buffer - total) + (if waited then 0 else 1) <= alen rounds -> 0 < alen rounds ->
  let '(out, r, p') := pipe_write_among rounds buffer total p in
  out = WriteReturn 0 (alen buffer) /\ r ++ contents p' = contents p ++ drop (Z.to_nat total) buffer.
Proof.
  intros Hp Hr Ht Hb Hnn. revert waited total p Hp Hr Ht. induction Hnn as [|lengths rounds Hl _ IH]; intros waited total p Hp Hr Ht Hs Hfuel Hpos; [done|].
  cbn [pipe_write_among served] in *. destruct Hs as (Hw & Hs). pose proof (pipe_reads_spec lengths p Hp Hl) as H1.
  destruct (pipe_reads lengths p) as [r1 p1]. destruct H1 as (Hp1 & Er1 & E1 & Hroom).
  pose proof (pipe_write_spec buffer total p1 Hp1 (proj1 Ht) Hb) as H2. destruct (pipe_write VFS_PIPE_WRITE buffer total p1) as [out p2].
  destruct H2 as (Hp2 & _ & Er2 & _ & H2). rewrite <- Er1 in Hr. rewrite <- Er2 in Hr. rewrite Er2 in Hr.
  assert (Hlen : alen (lengths :: rounds) = alen rounds + 1) by (unfold alen; simpl; lia). rewrite Hlen in Hfuel.
  destruct out as [code written|total'|total'].
  - destruct H2 as (-> & -> & [(Hge & ->)|(_ & ? & _)]); [|done]. assert (total = alen buffer) as -> by lia. split; [done|].
    rewrite E1. rewrite drop_ge by (unfold alen; lia). by rewrite app_nil_r.
  - destruct H2 as (Ht' & _ & Ec & _). specialize (IH false total' p2 Hp2 ltac:(congruence) ltac:(lia) Hs).
    destruct (pipe_write_among rounds buffer total' p2) as [[out r2] p']. destruct IH as (-> & E); [destruct waited; lia | destruct waited; lia |]. split; [done|].
    rewrite <- app_assoc, E, Ec, app_assoc, app_assoc, E1, <- app_assoc. f_equal. unfold alen in *.
    rewrite <- (take_drop (Z.to_nat (total' - total)) (drop (Z.to_nat total) buffer)) at 2. f_equal. rewrite drop_drop. f_equal. lia.
  - destruct H2 as (-> & Hlt & Hfull & _ & Ec). destruct waited; [specialize (Hroom (Hw eq_refl)); lia|].
    specialize (IH true total p2 Hp2 ltac:(congruence) ltac:(lia) Hs).
    destruct (pipe_write_among rounds buffer total p2) as [[out r2] p']. destruct IH as (-> & E); [lia | lia |]. split; [done|].
    rewrite <- app_assoc, E, Ec, app_assoc, E1. done.
Qed.

(** C38 A write to a pipe ends.  As long as a reader holds the pipe open and a
    writer that found the ring full goes on only after somebody asked for bytes,
    with any reads of other tasks before its passes, [pipe_write] returns 0 with
    the whole buffer written after at most two passes per byte and one more; the
    bytes the others read in the meantime followed by those in the ring are those
    that were in it followed by the rest of the buffer.  When no reader is left
    it returns at once with what it has written, -1 for nothing. *)
Theorem pipe_write_ends p buffer total rounds :
  pipe_ok p -> 0 <= total < alen buffer -> alen buffer < 2 ^ 64 ->
  (p_readers p = 0 -> pipe_write VFS_PIPE_WRITE buffer total p = (WriteReturn (if total =? 0 then -1 else 0) total, p)) /\
  (p_readers p <> 0 -> Forall (Forall (fun length => 0 <= length)) rounds -> served false rounds buffer total p ->
   2 * (alen buffer - total) + 1 <= alen rounds ->
   let '(out, r, p') := pipe_write_among rounds buffer total p in
   out = WriteReturn 0 (alen buffer) /\ r ++ contents p' = contents p ++ drop (Z.to_nat total) buffer).
Proof.
  intros Hp Ht Hb. split.
  - intros Hr. unfold pipe_write. rewrite bool_decide_true by done. cbn [negb]. destruct (Z.ltb_spec total (alen buffer)); [|lia]. by rewrite Hr.
  - intros Hr Hnn Hs Hfuel. apply (pipe_write_among_spec false); (done || lia).
Qed.

(** ** A pipe in use *)

Definition fresh_pipe : vfs_pipe := mk_pipe false 0 0 0 0 0 (replicate 4096 0).
Definition sample_events : list pipe_event :=
  [PWrite [1; 2; 3] 0; PRead 2; PRetain VFS_PIPE_READ; PWrite [4] 0; PDrop VFS_PIPE_READ; PRead 8; PRead 8].

Lemma pipe_fifo_witness :
  let '(r, w, p') := run_pipe sample_events (pipe_open fresh_pipe) in
  r = [1; 2; 3; 4] /\ p_used p' = true /\ r ++ contents p' = w.
Proof.
  pose proof (pipe_fifo fresh_pipe sample_events eq_refl) as H.
  assert (Hr : fst (fst (run_pipe sample_events (pipe_open fresh_pipe))) = [1; 2; 3; 4] /\
               p_used (snd (run_pipe sample_events (pipe_open fresh_pipe))) = true) by (vm_compute; done).
  destruct (run_pipe sample_events (pipe_open fresh_pipe)) as [[r w] p']. destruct Hr as (Hr & Hu). cbn [fst snd] in *.
  split_and!; [done | done |]. apply H; [|done]. unfold sample_events. repeat (apply Forall_cons; split; [done|]). done.
Defined.

Lemma pipe_blocking_witness :
  fst (pipe_read VFS_PIPE_READ 8 (pipe_open fresh_pipe)) = ReadWait /\
  ~ (pipe_reader_should_wait (pipe_open fresh_pipe) = true /\ pipe_writer_should_wait (pipe_open fresh_pipe) = true).
Proof.
  destruct (pipe_blocking (pipe_open fresh_pipe) 8 [1] 0 (open_ok fresh_pipe eq_refl) eq_refl) as (H1 & _ & H3); [lia | by split | done |].
  split; [by apply H1 | exact H3].
Defined.

(** A full pipe, a writer of two bytes and a reader that takes them one by one. *)
Definition full_pipe : vfs_pipe := mk_pipe true 1 1 0 0 4096 (replicate 4096 7).
Definition slow_reads : list (list Z) := [[]; [1]; []; [0; 1]; []].

Lemma pipe_write_ends_witness :
  let '(out, r, p') := pipe_write_among slow_reads [1; 2] 0 full_pipe in out = WriteReturn 0 2 /\ r = [7; 7].
Proof.
  destruct (pipe_write_ends full_pipe [1; 2] 0 slow_reads) as (_ & H).
  - split; cbn; unfold index, VFS_PIPE_CAPACITY, is_u64; (reflexivity || lia).
  - by split.
  - done.
  - assert (Hr : snd (fst (pipe_write_among slow_reads [1; 2] 0 full_pipe)) = [7; 7]) by (vm_compute; reflexivity).
    destruct (pipe_write_among slow_reads [1; 2] 0 full_pipe) as [[out r] p']. cbn [fst snd] in Hr. subst r.
    destruct H as (-> & _); [done | by repeat constructor | | done | done].
    vm_compute. split_and!; try done; intros _; (by apply Exists_cons; left) || (apply Exists_cons; right; by apply Exists_cons; left).
Defined.

End Pipe.
