(* ===== verification/Path.v ===== *)
(** * Path: path resolution and the mount table of src/fs/vfs.c

    [resolve_path] builds the absolute path in an output buffer of [capacity]
    bytes.  Here the buffer is the list of the bytes written so far with the
    last one first, so that [output[out - 1]] is its head.  The current
    directory is an argument, None when [process_getcwd] fails.

    A mount names its file system by a value of a type [B], which the clients
    interpret. *)

From S2P Require Import Prelude CString.
Import CString.CString.
Local Open Scope Z_scope.

Module Path.

Definition FS_PATH_MAX : Z := 256.
Definition VFS_MAX_MOUNTS : Z := 8.

(** [while (input[in] == '/') in++;] *)
Fixpoint skip_slashes (s : cstr) : cstr :=
  match s with
  | [] => []
  | c :: rest => if c =? SLASH then skip_slashes rest else s
  end.

(** [while (input[in] && input[in] != '/') in++;] *)
Fixpoint span_component (s : cstr) : cstr * cstr :=
  match s with
  | [] => ([], [])
  | c :: rest => if c =? SLASH then ([], s) else let '(a, b) := span_component rest in (c :: a, b)
  end.

(** [while (out > 1 && output[out - 1] != '/') out--;] *)
Fixpoint drop_component (out : cstr) : cstr :=
  match out with
  | [] => []
  | c :: rest => match rest with
                 | [] => out
                 | _ => if c =? SLASH then out else drop_component rest
                 end
  end.

Definition parent (out : cstr) : cstr :=
  if 1 <? alen out then drop_component (if ch out 0 =? SLASH then drop 1 out else out) else out.

Definition resolve_component (capacity : Z) (component out : cstr) : option cstr :=
  let length := alen component in
  if (length =? 0) || ((length =? 1) && (ch component 0 =? DOT)) then Some out
  else if (length =? 2) && (ch component 0 =? DOT) && (ch component 1 =? DOT) then Some (parent out)
  else
    let out :=
      if (1 <? alen out) && negb (ch out 0 =? SLASH) then
        if capacity -! 1 <=? alen out then None else Some (SLASH :: out)
      else Some out in
    match out with
    | None => None
    | Some out => if capacity <=? alen out + length then None else Some (rev component ++ out)
    end.

Fixpoint resolve_loop (fuel : nat) (capacity : Z) (input out : cstr) : option cstr :=
  match fuel with
  | O => None
  | S fuel =>
      match input with
      | [] => Some out
      | _ =>
          let '(component, rest) := span_component input in
          match resolve_component capacity component out with
          | None => None
          | Some out => resolve_loop fuel capacity (skip_slashes rest) out
          end
      end
  end.

Definition resolve_path (cwd : option cstr) (input : option cstr) (output : bool) (capacity : Z) : option cstr :=
  match input with
  | None => None
  | Some input =>
      if negb output || (capacity <? 2) then None
      else
        let start :=
          if ch input 0 =? SLASH then Some ([SLASH], skip_slashes input)
          else match cwd with
               | None => None
               | Some cwd => Some (rev (take (Z.to_nat (capacity - 1)) cwd), input)
               end in
        match start with
        | None => None
        | Some (out, input) =>
            match resolve_loop (S (length input)) capacity input out with
            | None => None
            | Some out => Some (rev (if alen out =? 0 then [SLASH] else out))
            end
        end
  end.

(** ** Mounts *)

Definition path_has_prefix (path prefix : cstr) : bool :=
  match after_prefix prefix path with
  | None => false
  | Some rest => (ch rest 0 =? NUL) || (ch rest 0 =? SLASH)
  end.

Section Mounts.
Context {B : Type}.

Record vfs_mount := mk_mount {
  m_used : bool;
  m_removable : bool;
  m_path : cstr;
  m_type : cstr;
  m_ops : option B;
}.
Definition no_mount : vfs_mount := mk_mount false false [] [] None.
Definition mount_at (mounts : list vfs_mount) (i : Z) : vfs_mount := aget no_mount mounts i.

(** The mount and the path relative to it. *)
Definition find_mount (path : cstr) (mounts : list vfs_mount) : option (vfs_mount * cstr) :=
  let '(best, best_length) :=
    for_up (trips 0 VFS_MAX_MOUNTS) 0 (fun i '(best, best_length) =>
      let m := mount_at mounts i in
      if negb (m_used m) || negb (path_has_prefix path (m_path m)) then (best, best_length)
      else if best_length <=? alen (m_path m) then (Some m, alen (m_path m)) else (best, best_length)) (None, 0) in
  match best with
  | None => None
  | Some m =>
      let tail := drop (Z.to_nat best_length) path in
      Some (m, if ch tail 0 =? SLASH then drop 1 tail else tail)
  end.

Definition install_mount (path type : cstr) (ops : B) (removable : bool) (mounts : list vfs_mount) : bool * list vfs_mount :=
  match find_up (trips 0 VFS_MAX_MOUNTS) 0 (fun i => m_used (mount_at mounts i) && name_equal (m_path (mount_at mounts i)) path) with
  | Some _ => (false, mounts)
  | None =>
      match find_up (trips 0 VFS_MAX_MOUNTS) 0 (fun i => negb (m_used (mount_at mounts i))) with
      | None => (false, mounts)
      | Some i => (true, aset mounts i (mk_mount true removable path type (Some ops)))
      end
  end.

End Mounts.
Arguments vfs_mount : clear implicits.

(** ** Components *)

(** The segments between slashes, empty ones included. *)
Fixpoint split_slash (s : cstr) : list cstr :=
  match s with
  | [] => [[]]
  | c :: rest =>
      if c =? SLASH then [] :: split_slash rest
      else match split_slash rest with
           | w :: ws => (c :: w) :: ws
           | [] => [[c]]
           end
  end.

Definition components (s : cstr) : list cstr := filter (fun w => w <> []) (split_slash s).

Definition dots (w : cstr) : Prop := w = [DOT] \/ w = [DOT; DOT].
#[export] Instance dots_dec w : Decision (dots w).
Proof. unfold dots. apply _. Defined.

(** "." stays, ".." goes up, everything else goes down. *)
Definition norm_step (st : list cstr) (w : cstr) : list cstr :=
  if decide (w = [DOT]) then st else if decide (w = [DOT; DOT]) then removelast st else st ++ [w].
Definition normalize (st : list cstr) (ws : list cstr) : list cstr := foldl norm_step st ws.

(** "/a/b", and "/" for no components. *)
Definition render (st : list cstr) : cstr :=
  match st with
  | [] => [SLASH]
  | _ => st ≫= (fun w => SLASH :: w)
  end.

(** A name that a path is made of. *)
Definition good_name (w : cstr) : Prop := w <> [] /\ (SLASH ∉ w) /\ ~ dots w.

(** [o] is the path of [st], with a slash at the end or not. *)
Definition names (o : cstr) (st : list cstr) : Prop :=
  Forall good_name st /\ (o = render st \/ (st <> [] /\ o = render st ++ [SLASH])).

Lemma split_slash_cons s : exists w ws, split_slash s = w :: ws.
Proof.
  destruct s as [|c s]; [by eexists _, _|]. simpl. destruct (c =? SLASH); [by eexists _, _|].
  destruct (split_slash s); by eexists _, _.
Qed.

Lemma split_slash_word w s : SLASH ∉ w -> exists v vs, split_slash s = v :: vs /\ split_slash (w ++ s) = (w ++ v) :: vs.
Proof.
  intros Hw. destruct (split_slash_cons s) as (v & vs & E). exists v, vs. split; [done|].
  induction w as [|c w IH]; simpl; [done|]. apply not_elem_of_cons in Hw as (Hc & Hw).
  destruct (Z.eqb_spec c SLASH) as [->|]; [done|]. by rewrite IH.
Qed.

Lemma components_slash s : components (SLASH :: s) = components s.
Proof. unfold components. simpl. by rewrite filter_cons_False by (by intros []). Qed.

Lemma components_word w s : SLASH ∉ w -> w <> [] -> s = [] \/ ch s 0 = SLASH ->
  components (w ++ s) = w :: components s.
Proof.
  intros Hw Hne Hs. destruct (split_slash_word w s Hw) as (v & vs & E1 & E2).
  assert (v = []) as ->.
  { destruct Hs as [->|Hs]; [by injection E1|]. destruct s as [|c s]; [done|]. change (ch (c :: s) 0) with c in Hs. subst c.
    simpl in E1. by injection E1. }
  unfold components. rewrite E2, E1, app_nil_r. by rewrite filter_cons_True, filter_cons_False by (done || by intros []).
Qed.

Lemma components_skip s : components (skip_slashes s) = components s.
Proof.
  induction s as [|c s IH]; [done|]. simpl. destruct (Z.eqb_spec c SLASH) as [->|]; [|done]. by rewrite IH, components_slash.
Qed.

Lemma span_component_spec s : let '(w, rest) := span_component s in
  s = w ++ rest /\ (SLASH ∉ w) /\ (rest = [] \/ ch rest 0 = SLASH).
Proof.
  induction s as [|c s IH]; simpl; [split_and!; [done | apply not_elem_of_nil | by left]|].
  destruct (Z.eqb_spec c SLASH) as [->|Hc]; [split_and!; [done | apply not_elem_of_nil | by right]|].
  destruct (span_component s) as [w rest]. destruct IH as (-> & Hw & Hr). split_and!; [done | | done].
  apply not_elem_of_cons. split; [congruence | done].
Qed.

Lemma components_span s : let '(w, rest) := span_component s in
  components s = (if decide (w = []) then [] else [w]) ++ components rest.
Proof.
  pose proof (span_component_spec s) as H. destruct (span_component s) as [w rest]. destruct H as (-> & Hw & Hr).
  case_decide as E; [by subst|]. rewrite components_word by done. done.
Qed.

(** ** The resolved path *)

Definition body (st : list cstr) : cstr := st ≫= (fun w => SLASH :: w).

Lemma render_body st : st <> [] -> render st = body st.
Proof. by destruct st. Qed.

Lemma rev_body_snoc st w : rev (body (st ++ [w])) = rev w ++ SLASH :: rev (body st).
Proof.
  unfold body. rewrite bind_app. simpl. rewrite app_nil_r, rev_app_distr. simpl. by rewrite <- app_assoc.
Qed.

Lemma rev_render_snoc st w : rev (render (st ++ [w])) = rev w ++ SLASH :: rev (body st).
Proof. rewrite render_body by (by destruct st). apply rev_body_snoc. Qed.

(** [names] for a buffer kept last byte first. *)
Definition rnames (out : cstr) (st : list cstr) : Prop :=
  Forall good_name st /\ (out = rev (render st) \/ (st <> [] /\ out = SLASH :: rev (render st))).

Lemma rnames_names out st : rnames out st -> names (rev out) st.
Proof.
  intros (Hg & [->|(Hne & ->)]); (split; [done|]).
  - left. by rewrite rev_involutive.
  - right. split; [done|]. simpl. by rewrite rev_involutive.
Qed.

Lemma names_rnames o st : names o st -> rnames (rev o) st.
Proof.
  intros (Hg & [->|(Hne & ->)]); (split; [done|]); [by left|]. right. split; [done|]. by rewrite rev_app_distr.
Qed.

(** The last byte of a name. *)
Lemma rev_word w : good_name w -> exists c r, rev w = c :: r /\ c <> SLASH /\ SLASH ∉ r.
Proof.
  intros (Hne & Hs & _). destruct (rev w) as [|c r] eqn:E.
  - apply (f_equal (@rev Z)) in E. rewrite rev_involutive in E. done.
  - exists c, r. assert (SLASH ∉ c :: r) as H by (rewrite <- E; by rewrite <- Permutation_rev).
    apply not_elem_of_cons in H as (? & ?). done.
Qed.

Lemma drop_component_word w r : SLASH ∉ w -> drop_component (w ++ SLASH :: r) = SLASH :: r.
Proof.
  induction w as [|c w IH]; intros Hw; simpl; [by destruct r|]. apply not_elem_of_cons in Hw as (Hc & Hw).
  rewrite IH by done. destruct (Z.eqb_spec c SLASH) as [->|]; [done|]. by destruct w.
Qed.

Lemma snoc_cases_path (st : list cstr) : st = [] \/ exists st' w, st = st' ++ [w].
Proof. induction st as [|w st' _] using rev_ind; [by left|]. right. by exists st', w. Qed.

Lemma rnames_last st w : Forall good_name (st ++ [w]) -> good_name w /\ Forall good_name st.
Proof. intros H. apply Forall_app in H as (H1 & H2). split; [by apply Forall_inv in H2 | done]. Qed.

Lemma parent_snoc out st w : rnames out (st ++ [w]) -> parent out = SLASH :: rev (body st).
Proof.
  intros (Hg & Hout). apply rnames_last in Hg as (Hw & Hg). destruct (rev_word w Hw) as (c & r & Er & Hc & Hr).
  assert (Hdrop : drop_component (rev w ++ SLASH :: rev (body st)) = SLASH :: rev (body st)).
  { apply drop_component_word. rewrite Er. apply not_elem_of_cons. done. }
  rewrite <- Hdrop. unfold parent. destruct Hout as [->|(_ & ->)]; rewrite rev_render_snoc, Er; cbn [app].
  - destruct (Z.ltb_spec 1 (alen (c :: r ++ SLASH :: rev (body st)))) as [_|Hlt].
    + change (ch (c :: r ++ SLASH :: rev (body st)) 0) with c. destruct (Z.eqb_spec c SLASH); done.
    + unfold alen in Hlt. simpl in Hlt. rewrite length_app in Hlt. simpl in Hlt. lia.
  - destruct (Z.ltb_spec 1 (alen (SLASH :: c :: r ++ SLASH :: rev (body st)))) as [_|Hlt]; [done|].
    unfold alen in Hlt. simpl in Hlt. lia.
Qed.

Lemma parent_names out st : rnames out st -> rnames (parent out) (removelast st).
Proof.
  intros Hn. pose proof Hn as (Hg & Hout). destruct (snoc_cases_path st) as [->|(st' & w & ->)].
  { destruct Hout as [->|(? & _)]; [|done]. split; [constructor | by left]. }
  rewrite (parent_snoc out st' w Hn). apply rnames_last in Hg as (_ & Hg). rewrite removelast_last.
  split; [done|]. destruct st' as [|v st']; [by left|]. right. split; [done|]. by rewrite render_body.
Qed.

(** The slash in front of a pushed name. *)
Definition with_slash (out : cstr) : cstr := if (1 <? alen out) && negb (ch out 0 =? SLASH) then SLASH :: out else out.

Lemma with_slash_names out st : rnames out st -> with_slash out = SLASH :: rev (body st).
Proof.
  intros (Hg & Hout). destruct (snoc_cases_path st) as [->|(st' & w & ->)].
  { destruct Hout as [->|(? & _)]; [|done]. done. }
  apply rnames_last in Hg as (Hw & _). destruct (rev_word w Hw) as (c & r & Er & Hc & _). unfold with_slash.
  rewrite rev_body_snoc. destruct Hout as [->|(_ & ->)]; rewrite rev_render_snoc, Er; cbn [app].
  - change (ch (c :: r ++ SLASH :: rev (body st')) 0) with c. destruct (Z.eqb_spec c SLASH); [done|]. cbn [negb].
    destruct (Z.ltb_spec 1 (alen (c :: r ++ SLASH :: rev (body st')))) as [_|Hlt]; [done|].
    unfold alen in Hlt. simpl in Hlt. rewrite length_app in Hlt. simpl in Hlt. lia.
  - change (ch (SLASH :: c :: r ++ SLASH :: rev (body st')) 0) with SLASH. by rewrite andb_false_r.
Qed.

(** The two tests for "." and "..". *)
Lemma is_dot w : (alen w =? 1) && (ch w 0 =? DOT) = bool_decide (w = [DOT]).
Proof.
  destruct w as [|c [|d w]]; [done | |].
  - change (alen [c] =? 1) with true. change (ch [c] 0) with c. cbn [andb]. destruct (Z.eqb_spec c DOT) as [->|Hc]; symmetry.
    + by apply bool_decide_true.
    + apply bool_decide_false. by intros [= ?].
  - rewrite bool_decide_false by discriminate. destruct (Z.eqb_spec (alen (c :: d :: w)) 1) as [E|]; [|done].
    unfold alen in E. simpl in E. lia.
Qed.

Lemma is_dotdot w : (alen w =? 2) && (ch w 0 =? DOT) && (ch w 1 =? DOT) = bool_decide (w = [DOT; DOT]).
Proof.
  destruct w as [|c [|d [|e w]]]; [done | | |].
  - rewrite bool_decide_false by discriminate. done.
  - change (alen [c; d] =? 2) with true. change (ch [c; d] 0) with c. change (ch [c; d] 1) with d. cbn [andb].
    destruct (Z.eqb_spec c DOT) as [->|Hc]; [destruct (Z.eqb_spec d DOT) as [->|Hd]|]; symmetry; cbn [andb].
    + by apply bool_decide_true.
    + apply bool_decide_false. by intros [= ?].
    + apply bool_decide_false. by intros [= ? ?].
  - rewrite bool_decide_false by discriminate. destruct (Z.eqb_spec (alen (c :: d :: e :: w)) 2) as [E|]; [|done].
    unfold alen in E. simpl in E. lia.
Qed.

Lemma length_rev_alen (o : cstr) : alen (rev o) = alen o.
Proof. unfold alen. by rewrite length_rev. Qed.

(** One component; [need] bytes of the buffer are enough. *)
Lemma resolve_component_spec capacity w out st :
  rnames out st -> SLASH ∉ w -> w <> [] -> 2 <= capacity < 2 ^ 64 ->
  match resolve_component capacity w out with
  | Some out' => rnames out' (norm_step st w) /\ (alen out < capacity -> alen out' < capacity) /\
      alen out' <= alen out + 1 + alen w
  | None => capacity <= alen out + 1 + alen w
  end.
Proof.
  intros Hn Hs Hne Hcap. unfold resolve_component, norm_step. rewrite is_dot, is_dotdot.
  assert (Hlen : 0 < alen w) by (unfold alen; destruct w; [done | simpl; lia]).
  destruct (Z.eqb_spec (alen w) 0); [lia|]. cbn [orb]. destruct (decide (w = [DOT])) as [->|Hdot].
  { rewrite bool_decide_true by done. split_and!; [done | done | lia]. }
  rewrite bool_decide_false by done. destruct (decide (w = [DOT; DOT])) as [->|Hdd].
  { rewrite bool_decide_true by done. split; [by apply parent_names|].
    assert (alen (parent out) <= alen out); [|split; lia]. unfold parent. case_match; [|done].
    assert (Hd : forall o, alen (drop_component o) <= alen o).
    { unfold alen. induction o as [|c o IH]; simpl; [done|]. destruct o as [|d o]; [done|]. destruct (c =? SLASH); simpl in *; lia. }
    case_match; [|apply Hd]. etransitivity; [apply Hd|]. unfold alen. rewrite length_drop. lia. }
  rewrite bool_decide_false by done.
  assert (Hpush : rnames (rev w ++ with_slash out) (st ++ [w])).
  { rewrite (with_slash_names out st Hn). split.
    - apply Forall_app. split; [apply Hn|]. apply Forall_singleton. split_and!; [done | done |]. by intros [?|?].
    - left. by rewrite rev_render_snoc. }
  unfold with_slash in Hpush. assert (Hlw : alen (rev w) = alen w) by (unfold alen; by rewrite length_rev).
  assert (Happ : forall o, alen (rev w ++ o) = alen w + alen o).
  { intros o. unfold alen in *. rewrite length_app. lia. }
  destruct ((1 <? alen out) && negb (ch out 0 =? SLASH)).
  - assert (E : capacity -! 1 = capacity - 1) by (u64_simpl; done). rewrite E.
    assert (Hso : alen (SLASH :: out) = alen out + 1) by (unfold alen; simpl; lia).
    destruct (Z.leb_spec (capacity - 1) (alen out)); [lia|].
    rewrite Hso. destruct (Z.leb_spec capacity (alen out + 1 + alen w)); [lia|].
    split; [done|]. rewrite Happ, Hso. lia.
  - destruct (Z.leb_spec capacity (alen out + alen w)); [lia|]. split; [done|]. rewrite Happ. lia.
Qed.

(** The bytes the components of a path can add to the buffer. *)
Definition cost (ws : list cstr) : Z := foldr (fun w n => 1 + alen w + n) 0 ws.

Lemma cost_app a b : cost (a ++ b) = cost a + cost b.
Proof. induction a as [|w a IH]; simpl; [done|]. rewrite IH. lia. Qed.

Lemma cost_components s : cost (components s) <= alen s + 1.
Proof.
  assert (H : foldr (fun w n => 1 + alen w + n) 0 (split_slash s) = alen s + 1).
  { induction s as [|c s IH]; [done|]. simpl. destruct (c =? SLASH); simpl.
    - rewrite IH. unfold alen. simpl. lia.
    - destruct (split_slash_cons s) as (w & ws & E). rewrite E in *. simpl in *. unfold alen in *. simpl. lia. }
  rewrite <- H. unfold components. generalize (split_slash s). intros ws. unfold cost.
  induction ws as [|w ws IH]; [done|]. rewrite filter_cons. pose proof (alen_nonneg w). case_decide; simpl; lia.
Qed.

Lemma length_skip s : (length (skip_slashes s) <= length s)%nat.
Proof. induction s as [|c s IH]; simpl; [done|]. destruct (c =? SLASH); simpl; lia. Qed.

(** A pass of the loop consumes input. *)
Lemma span_progress s : s <> [] -> (length (skip_slashes (snd (span_component s))) < length s)%nat.
Proof.
  intros Hne. pose proof (span_component_spec s) as H. destruct (span_component s) as [w rest]. cbn [snd].
  destruct H as (-> & _ & Hr). rewrite length_app. destruct w as [|c w]; simpl.
  - destruct Hr as [->|Hr]; [done|]. destruct rest as [|c rest]; [done|]. change (ch (c :: rest) 0) with c in Hr. subst c.
    simpl. pose proof (length_skip rest). lia.
  - pose proof (length_skip rest). lia.
Qed.

Lemma resolve_loop_spec fuel capacity input out st :
  rnames out st -> 2 <= capacity < 2 ^ 64 -> (length input < fuel)%nat ->
  match resolve_loop fuel capacity input out with
  | Some out' => rnames out' (normalize st (components input)) /\ (alen out < capacity -> alen out' < capacity)
  | None => capacity <= alen out + cost (components input)
  end.
Proof.
  revert input out st. induction fuel as [|fuel IH]; intros input out st Hn Hcap Hf; [lia|]. cbn [resolve_loop].
  destruct input as [|c input']; [done|]. set (input := c :: input') in *. assert (input <> []) as Hne by done.
  pose proof (span_progress input Hne) as Hprog. pose proof (components_span input) as Hcomp.
  pose proof (span_component_spec input) as Hspan. destruct (span_component input) as [w rest]. cbn [snd] in Hprog.
  destruct Hspan as (_ & Hw & _). rewrite Hcomp, <- (components_skip rest). unfold normalize. rewrite foldl_app, cost_app.
  destruct (decide (w = [])) as [->|Hwne].
  - cbn [foldl cost foldr]. unfold resolve_component. cbn [alen length Z.of_nat Z.eqb orb].
    apply (IH (skip_slashes rest) out st Hn Hcap). lia.
  - pose proof (resolve_component_spec capacity w out st Hn Hw Hwne Hcap) as Hc. cbn [foldl cost foldr].
    destruct (resolve_component capacity w out) as [out'|].
    + destruct Hc as (Hn' & Hl1 & Hl2). specialize (IH (skip_slashes rest) out' _ Hn' Hcap ltac:(lia)).
      destruct (resolve_loop fuel capacity (skip_slashes rest) out'); [|lia]. destruct IH as (? & Hl3). auto.
    + pose proof (cost_components (skip_slashes rest)).
      assert (0 <= cost (components (skip_slashes rest))); [|lia].
      generalize (components (skip_slashes rest)). clear. intros ws. unfold cost. induction ws as [|v ws IH]; simpl; [done|].
      pose proof (alen_nonneg v). lia.
Qed.

Lemma resolve_path_spec cwd input capacity st :
  names cwd st -> alen cwd < capacity -> 2 <= capacity < 2 ^ 64 ->
  let start := if ch input 0 =? SLASH then [] else st in
  match resolve_path (Some cwd) (Some input) true capacity with
  | Some output => names output (normalize start (components input)) /\ alen output < capacity
  | None => capacity <= alen cwd + alen input + 1
  end.
Proof.
  intros Hcwd Hlen Hcap. unfold resolve_path. cbn [negb orb]. destruct (Z.ltb_spec capacity 2); [lia|].
  assert (Hfinal : forall out st', rnames out st' -> (if alen out =? 0 then [SLASH] else out) = out).
  { intros out st' (_ & [->|(_ & ->)]).
    - destruct (snoc_cases_path st') as [->|(v & w & ->)]; [done|]. rewrite rev_render_snoc.
      destruct (Z.eqb_spec (alen (rev w ++ SLASH :: rev (body v))) 0) as [E|]; [|done].
      unfold alen in E. rewrite length_app in E. simpl in E. lia.
    - done. }
  assert (Hrev : forall o : cstr, alen (rev o) = alen o) by (intros; unfold alen; by rewrite length_rev).
  assert (Hpos : 1 <= alen cwd).
  { destruct Hcwd as (_ & [->|(Hne & ->)]); [|unfold alen; rewrite length_app; simpl; lia].
    destruct st; [done|]. unfold alen. simpl. lia. }
  destruct (ch input 0 =? SLASH).
  - pose proof (resolve_loop_spec (S (length (skip_slashes input))) capacity (skip_slashes input) [SLASH] []) as Hl.
    rewrite components_skip in Hl. pose proof (cost_components input).
    destruct (resolve_loop _ _ _ _) as [out|].
    + destruct Hl as (Hn & Hb); [by split; [constructor | left] | done | lia |]. rewrite (Hfinal out _ Hn). split.
      * by apply rnames_names.
      * rewrite Hrev. apply Hb. unfold alen. simpl. lia.
    + specialize (Hl ltac:(by split; [constructor | left]) Hcap ltac:(lia)). unfold alen in *. simpl in Hl. lia.
  - rewrite take_ge by (unfold alen in Hlen; lia).
    pose proof (resolve_loop_spec (S (length input)) capacity input (rev cwd) st (names_rnames _ _ Hcwd) Hcap ltac:(lia)) as Hl.
    pose proof (cost_components input). destruct (resolve_loop _ _ _ _) as [out|].
    + destruct Hl as (Hn & Hb). rewrite (Hfinal out _ Hn). split; [by apply rnames_names|]. rewrite Hrev in *. auto.
    + rewrite Hrev in Hl. lia.
Qed.

(** ** The walk, exactly *)

(** The text of a path: its components, with a slash at the end or not. *)
Definition path_text (at_ : list cstr * bool) : cstr :=
  let '(st, slash) := at_ in render st ++ (if slash && bool_decide (st <> []) then [SLASH] else []).

(** A directory walk through [ws] in a buffer of [capacity] bytes: "." stays,
    ".." goes up and leaves a slash behind it, a name goes down if the path
    that ends in it fits together with its terminator. *)
Fixpoint walk (capacity : Z) (at_ : list cstr * bool) (ws : list cstr) : option (list cstr * bool) :=
  match ws with
  | [] => Some at_
  | w :: ws =>
      if decide (w = [DOT]) then walk capacity at_ ws
      else if decide (w = [DOT; DOT]) then walk capacity (removelast (fst at_), true) ws
      else if alen (render (fst at_ ++ [w])) <? capacity then walk capacity (fst at_ ++ [w], false) ws
      else None
  end.

Lemma walk_normalize capacity at_ ws at' : walk capacity at_ ws = Some at' -> fst at' = normalize (fst at_) ws.
Proof.
  revert at_. induction ws as [|w ws IH]; intros at_; [by intros [= <-]|]. cbn [walk]. unfold normalize. cbn [foldl]. fold (normalize (norm_step (fst at_) w) ws).
  unfold norm_step. case_decide; [apply IH|]. case_decide; [apply IH|]. case_match; [apply IH | done].
Qed.

Lemma text_names st slash : Forall good_name st -> names (path_text (st, slash)) st.
Proof.
  intros Hg. split; [done|]. cbn [path_text]. destruct slash; cbn [andb]; [|left; by rewrite app_nil_r].
  case_bool_decide; [by right | left; by rewrite app_nil_r].
Qed.

Lemma names_text o st : names o st -> Forall good_name st /\ exists slash, o = path_text (st, slash).
Proof.
  intros (Hg & [->|(Hne & ->)]); (split; [done|]); [exists false | exists true]; cbn [path_text andb].
  - by rewrite app_nil_r.
  - by rewrite bool_decide_true.
Qed.

Lemma rev_text_true st : rev (path_text (st, true)) = SLASH :: rev (body st).
Proof.
  cbn [path_text andb]. destruct st as [|w st]; [done|]. rewrite bool_decide_true by done. rewrite rev_app_distr. done.
Qed.

Lemma resolve_component_exact capacity st slash w :
  Forall good_name st -> SLASH ∉ w -> w <> [] -> 2 <= capacity < 2 ^ 64 ->
  resolve_component capacity w (rev (path_text (st, slash))) = (fun at_ => rev (path_text at_)) <$> walk capacity (st, slash) [w].
Proof.
  intros Hg Hs Hne Hcap. pose proof (names_rnames _ _ (text_names st slash Hg)) as Hn. set (out := rev (path_text (st, slash))) in *.
  unfold resolve_component. rewrite is_dot, is_dotdot. cbn [walk fst].
  assert (Hlen : 0 < alen w) by (unfold alen; destruct w; [done | simpl; lia]).
  destruct (Z.eqb_spec (alen w) 0); [lia|]. cbn [orb]. destruct (decide (w = [DOT])) as [->|Hdot]; [by rewrite bool_decide_true|].
  rewrite bool_decide_false by done. destruct (decide (w = [DOT; DOT])) as [->|Hdd].
  { rewrite bool_decide_true by done. cbn [fmap option_fmap option_map]. f_equal. rewrite rev_text_true.
    destruct (snoc_cases_path st) as [->|(st' & v & ->)].
    - unfold out. cbn [path_text]. by rewrite bool_decide_false, andb_false_r by (by intros []).
    - rewrite removelast_last. by apply (parent_snoc out st' v). }
  rewrite bool_decide_false by done. pose proof (with_slash_names out st Hn) as Hw. unfold with_slash in Hw.
  assert (Hr : alen (render (st ++ [w])) = alen (SLASH :: rev (body st)) + alen w).
  { rewrite <- (length_rev_alen (render _)), rev_render_snoc. unfold alen. rewrite length_app, length_rev. lia. }
  assert (Hpush : rev w ++ SLASH :: rev (body st) = rev (path_text (st ++ [w], false))).
  { cbn [path_text andb]. by rewrite app_nil_r, rev_render_snoc. }
  assert (Hcase : forall o, o = SLASH :: rev (body st) ->
    (if capacity <=? alen o + alen w then None else Some (rev w ++ o)) =
    (fun at_ => rev (path_text at_)) <$> (if alen (render (st ++ [w])) <? capacity then Some (st ++ [w], false) else None)).
  { intros o ->. rewrite Hr. destruct (Z.leb_spec capacity (alen (SLASH :: rev (body st)) + alen w)), (Z.ltb_spec (alen (SLASH :: rev (body st)) + alen w) capacity);
      try lia; [done|]. cbn [fmap option_fmap option_map]. by rewrite Hpush. }
  destruct ((1 <? alen out) && negb (ch out 0 =? SLASH)); [|by apply Hcase].
  assert (E : capacity -! 1 = capacity - 1) by (u64_simpl; done). rewrite E.
  destruct (Z.leb_spec (capacity - 1) (alen out)) as [Hle|]; [|by apply Hcase].
  assert (Hso : alen (SLASH :: out) = alen out + 1) by (unfold alen; simpl; lia).
  rewrite Hr, <- Hw, Hso. destruct (Z.ltb_spec (alen out + 1 + alen w) capacity); [lia | done].
Qed.

Lemma walk_good capacity at_ w at' : Forall good_name (fst at_) -> SLASH ∉ w -> w <> [] -> walk capacity at_ [w] = Some at' -> Forall good_name (fst at').
Proof.
  intros Hg Hs Hne. cbn [walk]. case_decide as Hd; [by intros [= <-]|]. case_decide as Hdd.
  - intros [= <-]. cbn [fst]. destruct (snoc_cases_path (fst at_)) as [->|(st' & v & E)]; [constructor|]. rewrite E in *. rewrite removelast_last. by apply rnames_last in Hg as (_ & ?).
  - case_match; [|done]. intros [= <-]. apply Forall_app. split; [done|]. apply Forall_singleton. split_and!; [done | done |]. by intros [?|?].
Qed.

Lemma walk_cons capacity at_ w ws : walk capacity at_ (w :: ws) = walk capacity at_ [w] ≫= (fun at' => walk capacity at' ws).
Proof. cbn [walk]. repeat case_decide; [done | done |]. by case_match. Qed.

Lemma resolve_loop_exact fuel capacity input at_ :
  Forall good_name (fst at_) -> 2 <= capacity < 2 ^ 64 -> (length input < fuel)%nat ->
  resolve_loop fuel capacity input (rev (path_text at_)) = (fun at_ => rev (path_text at_)) <$> walk capacity at_ (components input).
Proof.
  revert input at_. induction fuel as [|fuel IH]; intros input at_ Hg Hcap Hf; [lia|]. cbn [resolve_loop].
  destruct input as [|c input']; [done|]. set (input := c :: input') in *. assert (input <> []) as Hne by done.
  pose proof (span_progress input Hne) as Hprog. pose proof (components_span input) as Hcomp.
  pose proof (span_component_spec input) as Hspan. destruct (span_component input) as [w rest]. cbn [snd] in Hprog.
  destruct Hspan as (_ & Hw & _). rewrite Hcomp, <- (components_skip rest). destruct (decide (w = [])) as [->|Hwne].
  { apply (IH (skip_slashes rest) at_ Hg Hcap). lia. }
  cbn [app]. rewrite walk_cons. destruct at_ as [st slash]. rewrite (resolve_component_exact capacity st slash w) by done.
  destruct (walk capacity (st, slash) [w]) as [at'|] eqn:E; [|done]. cbn [fmap option_fmap option_map mbind option_bind].
  apply IH; [by apply (walk_good capacity (st, slash) w) | done | lia].
Qed.



(** A path that ends in ".." keeps a slash at its end, unless it names the
    root: the parent of /home/user is written /home/, which the file systems
    do not know, since they compare names byte by byte. *)
Theorem resolve_parent_slash :
  resolve_path (Some (str "/home/user")) (Some (str "..")) true 256 = Some (str "/home/") /\
  resolve_path (Some (str "/")) (Some (str "/home/user/..")) true 256 = Some (str "/home/") /\
  resolve_path (Some (str "/home")) (Some (str "..")) true 256 = Some (str "/").
Proof. vm_compute. done. Qed.

(** ** The mount of a path *)

Lemma path_has_prefix_spec path prefix : cstr_ok path ->
  path_has_prefix path prefix = true <-> path = prefix \/ exists rest, path = prefix ++ SLASH :: rest.
Proof.
  intros Hok. unfold path_has_prefix. destruct (after_prefix prefix path) as [rest|] eqn:E.
  - apply after_prefix_Some in E as ->. apply Forall_app in Hok as (_ & Hok). rewrite ch_0 by done.
    rewrite orb_true_iff, bool_decide_eq_true, Z.eqb_eq. split.
    + intros [->|Hs]; [left; by rewrite app_nil_r|]. right. destruct rest as [|c rest]; [done|].
      change (ch (c :: rest) 0) with c in Hs. subst c. by exists rest.
    + intros [E|(r & E)].
      * left. rewrite <- (app_nil_r prefix) in E at 2. by apply app_inv_head in E.
      * right. apply app_inv_head in E. by subst.
  - split; [done|]. intros [->|(r & ->)].
    + assert (after_prefix prefix prefix = Some []); [|congruence]. apply after_prefix_Some. by rewrite app_nil_r.
    + assert (after_prefix prefix (prefix ++ SLASH :: r) = Some (SLASH :: r)); [|congruence]. by apply after_prefix_Some.
Qed.

Section MountTheory.
Context {B : Type}.
Implicit Type mounts : list (vfs_mount B).

Definition covers mounts (path : cstr) (i : Z) : Prop :=
  0 <= i < VFS_MAX_MOUNTS /\ m_used (mount_at mounts i) = true /\ path_has_prefix path (m_path (mount_at mounts i)) = true.

(** [find_mount] answers with the longest mounted path that covers the path,
    and with the rest of the path relative to it; it answers NULL exactly when
    no mount covers the path. *)
Theorem find_mount_correct path mounts :
  match find_mount path mounts with
  | None => forall i, ~ covers mounts path i
  | Some (m, relative) => exists i, covers mounts path i /\ m = mount_at mounts i /\
      (forall j, covers mounts path j -> alen (m_path (mount_at mounts j)) <= alen (m_path m)) /\
      (path = m_path m ++ relative \/ path = m_path m ++ SLASH :: relative)
  end.
Proof.
  unfold find_mount. set (step := fun (i : Z) '(best, best_length) => _).
  set (I := fun (k : Z) '(best, best_length) => match best with
    | None => best_length = 0 /\ forall i, i < k -> ~ covers mounts path i
    | Some m => exists i, covers mounts path i /\ m = mount_at mounts i /\ best_length = alen (m_path m) /\
        forall j, j < k -> covers mounts path j -> alen (m_path (mount_at mounts j)) <= best_length
    end).
  assert (HI : I (0 + Z.of_nat (trips 0 VFS_MAX_MOUNTS)) (for_up (trips 0 VFS_MAX_MOUNTS) 0 step (None, 0))).
  { apply for_up_ind.
    - split; [done|]. intros i Hi (? & _). lia.
    - intros k [best bl] Hk Hb. unfold step. assert (Hk' : 0 <= k < VFS_MAX_MOUNTS) by (unfold trips, VFS_MAX_MOUNTS in *; lia).
      assert (Hlt : forall i, i < k + 1 -> i <> k -> i < k) by lia. pose proof (alen_nonneg (m_path (mount_at mounts k))) as Hnn.
      destruct (negb (m_used (mount_at mounts k)) || negb (path_has_prefix path (m_path (mount_at mounts k)))) eqn:E.
      + assert (Hno : ~ covers mounts path k).
        { intros (_ & H1 & H2). rewrite H1, H2 in E. discriminate. }
        destruct best as [m|].
        * destruct Hb as (i & H1 & H2 & H3 & H4). exists i. split_and!; try done. intros j Hj Hc. apply H4; [|done].
          apply Hlt; [done|]. by intros ->.
        * destruct Hb as (H1 & H2). split; [done|]. intros i Hi Hc. apply (H2 i); [|done]. apply Hlt; [done|]. by intros ->.
      + rewrite orb_false_iff, !negb_false_iff in E. assert (Hc : covers mounts path k) by done.
        destruct (Z.leb_spec bl (alen (m_path (mount_at mounts k)))) as [Hle|Hgt].
        * exists k. split_and!; try done. intros j Hj Hcj. destruct (decide (j = k)) as [->|Hne]; [done|].
          destruct best as [m|].
          -- destruct Hb as (i & _ & _ & _ & H4). specialize (H4 j (Hlt j Hj Hne) Hcj). lia.
          -- destruct Hb as (_ & H2). by destruct (H2 j (Hlt j Hj Hne)).
        * destruct best as [m|]; [|destruct Hb as (-> & _); lia].
          destruct Hb as (i & H1 & H2 & H3 & H4). exists i. split_and!; try done. intros j Hj Hcj.
          destruct (decide (j = k)) as [->|Hne]; [lia|]. apply H4; [by apply Hlt | done]. }
  destruct (for_up _ 0 step (None, 0)) as [[m|] bl].
  - destruct HI as (i & H1 & H2 & -> & H4). exists i. split_and!; try done.
    + intros j Hj. apply H4; [|done]. destruct Hj as (? & _). unfold trips, VFS_MAX_MOUNTS in *. lia.
    + destruct H1 as (_ & _ & Hp). rewrite <- H2 in Hp. unfold path_has_prefix in Hp.
      destruct (after_prefix (m_path m) path) as [rest|] eqn:E; [|done]. apply after_prefix_Some in E as ->.
      unfold alen. rewrite Nat2Z.id, drop_app_length. destruct (Z.eqb_spec (ch rest 0) SLASH) as [Hs|Hs]; [|by left].
      right. destruct rest as [|c rest]; [done|]. change (ch (c :: rest) 0) with c in Hs. by subst c.
  - destruct HI as (_ & H2). intros i Hc. apply (H2 i); [|done]. destruct Hc as (? & _). unfold trips, VFS_MAX_MOUNTS in *. lia.
Qed.

End MountTheory.

End Path.
