(* ===== verification/Ps2.v ===== *)
(** * Ps2: the keyboard of src/drivers/ps2.c

    The scan-code translation and the ring of [KEYBOARD_BUFFER_SIZE] bytes
    between the interrupt handler and the readers.  The byte that the handler
    reads from port 0x60 is its argument; whether it ends in
    [task_wake_blocked] is part of its result.  The command sequence of
    [ps2_init] is port I/O and is not modelled. *)

From S2P Require Import Prelude CString.
Import CString.CString.
Local Open Scope Z_scope.

Module Ps2.

Definition KEYBOARD_BUFFER_SIZE : Z := 64.

Record keyboard := mk_keyboard {
  keyboard_buffer : list Z;
  keyboard_head : Z;
  keyboard_tail : Z;
  shift_left : bool;
  shift_right : bool;
  caps_lock : bool;
}.

(** A designated initialiser: [table] lists runs of keys from a scan code on. *)
Fixpoint key_run (code : Z) (keys : cstr) (sc : Z) : Z :=
  match keys with
  | [] => 0
  | k :: keys => if sc =? code then k else key_run (code + 1) keys sc
  end.
Fixpoint key_table (table : list (Z * cstr)) (sc : Z) : Z :=
  match table with
  | [] => 0
  | (code, keys) :: table => let k := key_run code keys sc in if k =? 0 then key_table table sc else k
  end.

Definition keymap : Z -> Z := key_table
  [(0x02, str "1234567890-=" ++ [8; 9]); (0x10, str "qwertyuiop[]" ++ [13]);
   (0x1E, str "asdfghjkl;'`"); (0x2B, str "\zxcvbnm,./"); (0x39, str " ")].

Definition shifted_keymap : Z -> Z := key_table
  [(0x02, str "!@#$%^&*()_+"); (0x1A, str "{}"); (0x27, [58; 34; 126]); (0x2B, str "|"); (0x33, str "<>?")].

(** The key with its modifiers. *)
Definition translate (k : keyboard) (sc : Z) : Z :=
  let c := keymap sc in
  let shifted := shift_left k || shift_right k in
  if (97 <=? c) && (c <=? 122) then
    if negb (Bool.eqb shifted (caps_lock k)) then c - (97 - 65) else c
  else if shifted && negb (shifted_keymap sc =? 0) then shifted_keymap sc else c.

Definition with_modifiers k l r c :=
  mk_keyboard (keyboard_buffer k) (keyboard_head k) (keyboard_tail k) l r c.

(** The handler for scan code [sc]: whether sleepers are woken, and the state. *)
Definition keyboard_handler (sc : Z) (k : keyboard) : bool * keyboard :=
  if sc =? 0x2A then (false, with_modifiers k true (shift_right k) (caps_lock k))
  else if sc =? 0x36 then (false, with_modifiers k (shift_left k) true (caps_lock k))
  else if sc =? 0xAA then (false, with_modifiers k false (shift_right k) (caps_lock k))
  else if sc =? 0xB6 then (false, with_modifiers k (shift_left k) false (caps_lock k))
  else if sc =? 0x3A then (false, with_modifiers k (shift_left k) (shift_right k) (negb (caps_lock k)))
  else if has sc 0x80 then (false, k)
  else if keymap sc =? 0 then (false, k)
  else
    let c := translate k sc in
    let next := u8 ((keyboard_head k + 1) mod KEYBOARD_BUFFER_SIZE) in
    if next =? keyboard_tail k then (false, k)
    else (true, mk_keyboard (aset (keyboard_buffer k) (keyboard_head k) c) next (keyboard_tail k)
                  (shift_left k) (shift_right k) (caps_lock k)).

Definition keyboard_read_char (k : keyboard) : option Z * keyboard :=
  if keyboard_tail k =? keyboard_head k then (None, k)
  else (Some (aget 0 (keyboard_buffer k) (keyboard_tail k)),
        mk_keyboard (keyboard_buffer k) (keyboard_head k) (u8 ((keyboard_tail k + 1) mod KEYBOARD_BUFFER_SIZE))
          (shift_left k) (shift_right k) (caps_lock k)).

Definition keyboard_char_available (k : keyboard) : bool := negb (keyboard_tail k =? keyboard_head k).

(** ** The typed characters *)

Record keyboard_ok (k : keyboard) : Prop := {
  ko_buffer : alen (keyboard_buffer k) = KEYBOARD_BUFFER_SIZE;
  ko_head : 0 <= keyboard_head k < KEYBOARD_BUFFER_SIZE;
  ko_tail : 0 <= keyboard_tail k < KEYBOARD_BUFFER_SIZE;
}.

Definition pending (k : keyboard) : nat := Z.to_nat ((keyboard_head k - keyboard_tail k) mod KEYBOARD_BUFFER_SIZE).

(** What the readers have not seen yet, oldest first. *)
Definition typed (k : keyboard) : list Z :=
  (fun i => aget 0 (keyboard_buffer k) ((keyboard_tail k + Z.of_nat i) mod KEYBOARD_BUFFER_SIZE)) <$> seq 0 (pending k).

Lemma next_index x : 0 <= x < KEYBOARD_BUFFER_SIZE ->
  u8 ((x + 1) mod KEYBOARD_BUFFER_SIZE) = (x + 1) mod KEYBOARD_BUFFER_SIZE /\
  0 <= (x + 1) mod KEYBOARD_BUFFER_SIZE < KEYBOARD_BUFFER_SIZE.
Proof. unfold KEYBOARD_BUFFER_SIZE. intros. rewrite u8_small; Z.div_mod_to_equations; lia. Qed.

Lemma typed_S k n : pending k = S n ->
  typed k = aget 0 (keyboard_buffer k) (keyboard_tail k mod KEYBOARD_BUFFER_SIZE) ::
    ((fun i => aget 0 (keyboard_buffer k) ((keyboard_tail k + 1 + Z.of_nat i) mod KEYBOARD_BUFFER_SIZE)) <$> seq 0 n).
Proof.
  intros E. unfold typed. rewrite E. cbn [seq fmap list_fmap]. rewrite Z.add_0_r. f_equal.
  rewrite <- fmap_S_seq, <- list_fmap_compose. apply list_fmap_ext. intros i x _. simpl. do 2 f_equal. lia.
Qed.

Lemma read_char_spec k : keyboard_ok k ->
  let '(c, k') := keyboard_read_char k in
  keyboard_ok k' /\ match c with None => typed k = [] /\ k' = k | Some c => typed k = c :: typed k' end.
Proof.
  intros [Hb Hh Ht]. unfold keyboard_read_char. destruct (Z.eqb_spec (keyboard_tail k) (keyboard_head k)) as [E|Hne].
  - split; [by split|]. split; [|done]. unfold typed, pending. rewrite E, Z.sub_diag. done.
  - destruct (next_index _ Ht) as (E1 & E2). rewrite E1. split; [by split|].
    set (k' := mk_keyboard _ _ _ _ _ _).
    assert (Ep : pending k = S (pending k')).
    { unfold pending, k', KEYBOARD_BUFFER_SIZE in *. cbn [keyboard_head keyboard_tail]. Z.div_mod_to_equations. lia. }
    rewrite (typed_S k _ Ep), Z.mod_small by done. f_equal. unfold typed, k'. cbn [keyboard_buffer keyboard_tail].
    apply list_fmap_ext. intros i x _. f_equal. by rewrite Zplus_mod_idemp_l.
Qed.

Lemma typed_length k : length (typed k) = pending k.
Proof. unfold typed. by rewrite length_fmap, length_seq. Qed.

(** Putting a character into the ring: there is room for 63. *)
Lemma put_spec k c : keyboard_ok k ->
  let next := u8 ((keyboard_head k + 1) mod KEYBOARD_BUFFER_SIZE) in
  let k' := mk_keyboard (aset (keyboard_buffer k) (keyboard_head k) c) next (keyboard_tail k) (shift_left k) (shift_right k) (caps_lock k) in
  (next =? keyboard_tail k) = negb (length (typed k) <? 63)%nat /\
  (next <> keyboard_tail k -> keyboard_ok k' /\ typed k' = typed k ++ [c]).
Proof.
  intros [Hb Hh Ht] next k'. destruct (next_index _ Hh) as (E1 & E2). rewrite typed_length.
  assert (Hn : next = (keyboard_head k + 1) mod KEYBOARD_BUFFER_SIZE) by done. clearbody next. subst next. split.
  { destruct (Z.eqb_spec ((keyboard_head k + 1) mod KEYBOARD_BUFFER_SIZE) (keyboard_tail k)), (Nat.ltb_spec (pending k) 63); try done;
      unfold pending, KEYBOARD_BUFFER_SIZE in *; Z.div_mod_to_equations; lia. }
  intros Hne.
  assert (Ep : pending k' = S (pending k)).
  { unfold pending, k', KEYBOARD_BUFFER_SIZE in *. cbn [keyboard_head keyboard_tail]. Z.div_mod_to_equations. lia. }
  split; [split; cbn [keyboard_buffer keyboard_head keyboard_tail k']; [by rewrite alen_aset | done | done]|].
  unfold typed. rewrite Ep, seq_S, fmap_app. cbn [keyboard_buffer keyboard_tail k']. f_equal.
  - apply list_fmap_ext. intros i x Hi. apply lookup_seq in Hi as (-> & Hi). apply aget_aset_ne; [lia | apply Z.mod_pos_bound; done |].
    unfold pending, KEYBOARD_BUFFER_SIZE in *. Z.div_mod_to_equations. lia.
  - simpl. f_equal. replace ((keyboard_tail k + Z.of_nat (pending k)) mod KEYBOARD_BUFFER_SIZE) with (keyboard_head k).
    + rewrite aget_aset_eq by lia. done.
    + unfold pending, KEYBOARD_BUFFER_SIZE in *. Z.div_mod_to_equations. lia.
Qed.

(** ** A keyboard with a queue *)

(** The keys of the layout by rows: the scan code of the first one, and the
    characters without and with shift. *)
Definition layout : list (Z * cstr * cstr) :=
  [(0x02, str "1234567890-=", str "!@#$%^&*()_+"); (0x0E, [8; 9], [8; 9]);
   (0x10, str "qwertyuiop[]", str "QWERTYUIOP{}"); (0x1C, [13], [13]);
   (0x1E, str "asdfghjkl;'", str "ASDFGHJKL:" ++ [34]); (0x29, str "`", str "~");
   (0x2B, str "\zxcvbnm,./", str "|ZXCVBNM<>?"); (0x39, str " ", str " ")].

Definition key_in (sc : Z) (row : Z * cstr * cstr) : option (Z * Z) :=
  let '(first, plain, shifted) := row in
  if (first <=? sc) && (sc <? first + alen plain) then Some (aget 0 plain (sc - first), aget 0 shifted (sc - first)) else None.

(** The characters of the key with make code [sc]. *)
Definition key_of (sc : Z) : option (Z * Z) := head (omap (key_in sc) layout).

Record typist := mk_typist {
  queue : list Z;
  left_held : bool;
  right_held : bool;
  caps_on : bool;
}.

(** Caps lock turns the shift of the letters around. *)
Definition character (t : typist) (key : Z * Z) : Z :=
  let '(plain, shifted) := key in
  let shift := left_held t || right_held t in
  let letter := (97 <=? plain) && (plain <=? 122) in
  if (if letter then xorb shift (caps_on t) else shift) then shifted else plain.

(** A scan code: whether sleepers are woken, and the new state.  The queue
    holds at most 63 characters; what is typed beyond them is lost. *)
Definition type_key (sc : Z) (t : typist) : bool * typist :=
  if sc =? 0x2A then (false, mk_typist (queue t) true (right_held t) (caps_on t))
  else if sc =? 0x36 then (false, mk_typist (queue t) (left_held t) true (caps_on t))
  else if sc =? 0xAA then (false, mk_typist (queue t) false (right_held t) (caps_on t))
  else if sc =? 0xB6 then (false, mk_typist (queue t) (left_held t) false (caps_on t))
  else if sc =? 0x3A then (false, mk_typist (queue t) (left_held t) (right_held t) (negb (caps_on t)))
  else match key_of sc with
       | None => (false, t)
       | Some key =>
           if (length (queue t) <? 63)%nat
           then (true, mk_typist (queue t ++ [character t key]) (left_held t) (right_held t) (caps_on t))
           else (false, t)
       end.

Definition read_key (t : typist) : option Z * typist :=
  match queue t with
  | [] => (None, t)
  | c :: rest => (Some c, mk_typist rest (left_held t) (right_held t) (caps_on t))
  end.

Definition typist_of (k : keyboard) : typist := mk_typist (typed k) (shift_left k) (shift_right k) (caps_lock k).

(** ** Refinement *)

(** The two tables of the driver and the layout agree on every scan code. *)
Definition agree (sc : Z) (l r c : bool) : bool :=
  let t := mk_typist [] l r c in
  let k := mk_keyboard [] 0 0 l r c in
  match key_of sc with
  | None => has sc 0x80 || (keymap sc =? 0)
  | Some key => negb (has sc 0x80) && negb (keymap sc =? 0) && (translate k sc =? character t key)
  end.

Lemma tables_agree sc l r c : 0 <= sc < 256 -> agree sc l r c = true.
Proof.
  intros Hsc. assert (H : forallb (fun i => agree (Z.of_nat i) l r c) (seq 0 256) = true)
    by (destruct l, r, c; vm_compute; reflexivity).
  rewrite forallb_forall in H. specialize (H (Z.to_nat sc)). rewrite Z2Nat.id in H by lia. apply H, in_seq. lia.
Qed.

Lemma handler_spec sc k : keyboard_ok k -> 0 <= sc < 256 ->
  let '(woken, k') := keyboard_handler sc k in
  keyboard_ok k' /\ type_key sc (typist_of k) = (woken, typist_of k').
Proof.
  intros Hk Hsc. unfold keyboard_handler, type_key.
  assert (Hm : forall l r c, keyboard_ok (with_modifiers k l r c) /\
    (false, mk_typist (queue (typist_of k)) l r c) = (false, typist_of (with_modifiers k l r c))).
  { intros l r c. destruct Hk. by split. }
  destruct (sc =? 0x2A); [apply Hm|]. destruct (sc =? 0x36); [apply Hm|]. destruct (sc =? 0xAA); [apply Hm|].
  destruct (sc =? 0xB6); [apply Hm|]. destruct (sc =? 0x3A); [apply Hm|]. clear Hm.
  pose proof (tables_agree sc (shift_left k) (shift_right k) (caps_lock k) Hsc) as Ha. unfold agree in Ha.
  destruct (key_of sc) as [key|].
  2: { destruct (has sc 0x80); [done|]. cbn [orb] in Ha. by rewrite Ha. }
  apply andb_true_iff in Ha as ((Hx & Hy)%andb_true_iff & Hz). apply negb_true_iff in Hx, Hy. apply Z.eqb_eq in Hz. rewrite Hx, Hy.
  change (translate _ sc) with (translate k sc) in Hz. change (character (mk_typist [] _ _ _) key) with (character (typist_of k) key) in Hz.
  destruct (put_spec k (translate k sc) Hk) as (Hfull & Hput). cbn [queue typist_of].
  set (next := u8 _) in *. rewrite Hfull. destruct (length (typed k) <? 63)%nat; cbn [negb].
  - apply Z.eqb_neq in Hfull. destruct (Hput Hfull) as (Hk' & E). split; [done|]. unfold typist_of in *. rewrite E, Hz. done.
  - done.
Qed.

Lemma read_key_spec k : keyboard_ok k ->
  let '(c, k') := keyboard_read_char k in keyboard_ok k' /\ read_key (typist_of k) = (c, typist_of k').
Proof.
  intros Hk. pose proof (read_char_spec k Hk) as H. unfold read_key, typist_of. cbn [queue left_held right_held caps_on].
  assert (Hm : let '(_, k') := keyboard_read_char k in shift_left k' = shift_left k /\ shift_right k' = shift_right k /\ caps_lock k' = caps_lock k)
    by (unfold keyboard_read_char; by destruct (keyboard_tail k =? keyboard_head k)).
  destruct (keyboard_read_char k) as [c k']. destruct H as (Hk' & H). destruct Hm as (-> & -> & ->). split; [done|].
  destruct c as [c|]; [by rewrite H|]. destruct H as (E & ->). by rewrite E.
Qed.

Inductive key_event := Key (sc : Z) | ReadChar | Available.
Inductive key_result := Woken (b : bool) | Char (c : option Z) | IsAvailable (b : bool).

Definition event_ok (e : key_event) : Prop := match e with Key sc => 0 <= sc < 256 | _ => True end.

Definition run_key (e : key_event) (k : keyboard) : key_result * keyboard :=
  match e with
  | Key sc => let '(b, k) := keyboard_handler sc k in (Woken b, k)
  | ReadChar => let '(c, k) := keyboard_read_char k in (Char c, k)
  | Available => (IsAvailable (keyboard_char_available k), k)
  end.

Definition type_event (e : key_event) (t : typist) : key_result * typist :=
  match e with
  | Key sc => let '(b, t) := type_key sc t in (Woken b, t)
  | ReadChar => let '(c, t) := read_key t in (Char c, t)
  | Available => (IsAvailable (bool_decide (queue t <> [])), t)
  end.

Fixpoint run_keys (es : list key_event) (k : keyboard) : list key_result * keyboard :=
  match es with
  | [] => ([], k)
  | e :: es => let '(r, k) := run_key e k in let '(rs, k) := run_keys es k in (r :: rs, k)
  end.

Fixpoint type_events (es : list key_event) (t : typist) : list key_result * typist :=
  match es with
  | [] => ([], t)
  | e :: es => let '(r, t) := type_event e t in let '(rs, t) := type_events es t in (r :: rs, t)
  end.

Lemma available_spec k : keyboard_ok k -> keyboard_char_available k = bool_decide (typed k <> []).
Proof.
  intros Hk. pose proof (read_char_spec k Hk) as H. unfold keyboard_read_char, keyboard_char_available in *.
  destruct (keyboard_tail k =? keyboard_head k); cbn [negb].
  - destruct H as (_ & -> & _). done.
  - destruct H as (_ & ->). done.
Qed.

(** C40 The keyboard driver implements a keyboard with a queue: for every
    interleaving of scan codes, reads and tests for input, the results are
    those of a queue of at most 63 characters to which a key of the US layout
    adds the character for the modifiers held at the time, shift by either
    shift key and caps lock for letters; a key typed beyond 63 pending
    characters is lost, releases and unknown codes do nothing, sleepers are
    woken exactly for the characters added, and reads take the characters in
    the order they were typed. *)
Theorem keyboard_fifo es k :
  keyboard_ok k -> Forall event_ok es ->
  let '(rs, k') := run_keys es k in keyboard_ok k' /\ type_events es (typist_of k) = (rs, typist_of k').
Proof.
  intros Hk Hes. revert k Hk. induction Hes as [|e es He _ IH]; intros k Hk; cbn [run_keys type_events]; [done|].
  assert (H1 : let '(r, k1) := run_key e k in keyboard_ok k1 /\ type_event e (typist_of k) = (r, typist_of k1)).
  { destruct e as [sc| |]; cbn [run_key type_event].
    - pose proof (handler_spec sc k Hk He) as H. destruct (keyboard_handler sc k) as [b k1]. destruct H as (? & ->). done.
    - pose proof (read_key_spec k Hk) as H. destruct (keyboard_read_char k) as [c k1]. destruct H as (? & ->). done.
    - by rewrite (available_spec k Hk). }
  destruct (run_key e k) as [r k1]. destruct H1 as (Hk1 & ->). specialize (IH k1 Hk1).
  destruct (run_keys es k1) as [rs k2]. destruct IH as (Hk2 & ->). done.
Qed.

Definition idle_keyboard : keyboard := mk_keyboard (replicate 64 0) 0 0 false false false.

(** Left shift, "a", release, "a", caps lock, "1", "a". *)
Definition sample_keys : list key_event :=
  [Key 0x2A; Key 0x1E; ReadChar; Key 0xAA; Key 0x1E; Key 0x3A; Key 0x02; Key 0x1E; ReadChar; ReadChar; ReadChar; ReadChar; Available].

Lemma keyboard_fifo_witness :
  fst (type_events sample_keys (mk_typist [] false false false)) =
    [Woken false; Woken true; Char (Some 65); Woken false; Woken true; Woken false; Woken true; Woken true;
     Char (Some 97); Char (Some 49); Char (Some 65); Char None; IsAvailable false].
Proof.
  pose proof (keyboard_fifo sample_keys idle_keyboard) as H.
  assert (E : fst (run_keys sample_keys idle_keyboard) =
    [Woken false; Woken true; Char (Some 65); Woken false; Woken true; Woken false; Woken true; Woken true;
     Char (Some 97); Char (Some 49); Char (Some 65); Char None; IsAvailable false]) by (vm_compute; reflexivity).
  destruct (run_keys sample_keys idle_keyboard) as [rs k']. cbn [fst] in E. subst rs.
  destruct H as (_ & H); [by split | unfold sample_keys; repeat (apply Forall_cons; split; [done|]); done |].
  change (mk_typist [] false false false) with (typist_of idle_keyboard). by rewrite H.
Defined.

End Ps2.
