(* ===== verification/Devfs.v ===== *)
(** * Devfs: the device files of src/fs/devfs.c

    The console reads from the keyboard ring and writes to the serial line and
    the screen, which are one list of bytes here.  A pass of the loop of
    [devfs_read] that finds no key ends in [task_block_current_if] on
    [keyboard_input_waiting] and is the outcome [DevWait]. *)

From S2P Require Import Prelude CString Ramfs Ps2.
Import CString.CString Ramfs.Ramfs Ps2.Ps2.
Local Open Scope Z_scope.

Module Devfs.

Inductive devfs_device := DEVFS_DEVICE_NONE | DEVFS_DEVICE_CONSOLE | DEVFS_DEVICE_NULL | DEVFS_DEVICE_ZERO.

#[export] Instance devfs_device_eq : EqDecision devfs_device.
Proof. solve_decision. Defined.

Record tty := mk_tty { keys : keyboard; screen : list Z }.

Definition devices : list (cstr * devfs_device) :=
  [(str "console", DEVFS_DEVICE_CONSOLE); (str "null", DEVFS_DEVICE_NULL); (str "zero", DEVFS_DEVICE_ZERO)].

Definition keyboard_input_waiting (t : tty) : bool := negb (keyboard_char_available (keys t)).

Definition path_is_root (path : option cstr) : bool :=
  match path with None => false | Some path => ch path 0 =? NUL end.

Fixpoint device_in (devs : list (cstr * devfs_device)) (path : cstr) : devfs_device :=
  match devs with
  | [] => DEVFS_DEVICE_NONE
  | (name, device) :: devs =>
      match after_prefix name path with
      | Some [] => device
      | _ => device_in devs path
      end
  end.

Definition devfs_device_for_path (path : option cstr) : devfs_device :=
  match path with None => DEVFS_DEVICE_NONE | Some path => device_in devices path end.

(** [while (count < length && keyboard_read_char(&value)) buffer[count++] = value;] *)
Fixpoint read_keys (length : nat) (k : keyboard) : list Z * keyboard :=
  match length with
  | O => ([], k)
  | S length =>
      match keyboard_read_char k with
      | (None, k) => ([], k)
      | (Some c, k) => let '(cs, k) := read_keys length k in (c :: cs, k)
      end
  end.

(** [DevReturn ok bytes]: the result and what the buffer got. *)
Inductive dev_outcome := DevReturn (ok : bool) (bytes : list Z) | DevWait.

(** One pass of [devfs_read]. *)
Definition devfs_read (device : devfs_device) (buffer : bool) (length : Z) (t : tty) : dev_outcome * tty :=
  if negb buffer && negb (length =? 0) then (DevReturn false [], t)
  else match device with
       | DEVFS_DEVICE_NULL => (DevReturn true [], t)
       | DEVFS_DEVICE_ZERO => (DevReturn true (replicate (Z.to_nat length) 0), t)
       | DEVFS_DEVICE_NONE => (DevReturn false [], t)
       | DEVFS_DEVICE_CONSOLE =>
           let '(bytes, k) := read_keys (Z.to_nat length) (keys t) in
           let t := mk_tty k (screen t) in
           if (alen bytes =? 0) && negb (length =? 0) then (DevWait, t) else (DevReturn true bytes, t)
       end.

(** The result, the bytes written and the terminal. *)
Definition devfs_write (device : devfs_device) (buffer : option (list Z)) (length : Z) (t : tty) : bool * Z * tty :=
  match buffer with
  | None =>
      if negb (length =? 0) then (false, 0, t)
      else match device with
           | DEVFS_DEVICE_NONE => (false, 0, t)
           | _ => (true, length, t)
           end
  | Some bytes =>
      match device with
      | DEVFS_DEVICE_CONSOLE => (true, length, mk_tty (keys t) (screen t ++ take (Z.to_nat length) bytes))
      | DEVFS_DEVICE_NULL | DEVFS_DEVICE_ZERO => (true, length, t)
      | DEVFS_DEVICE_NONE => (false, 0, t)
      end
  end.

Definition devfs_stat (path : option cstr) (size : bool) : option Z :=
  if negb size || bool_decide (devfs_device_for_path path = DEVFS_DEVICE_NONE) then None else Some 0.

Definition devfs_readdir (path : option cstr) (index : Z) (entry : bool) : Z * option fs_dirent :=
  if negb (path_is_root path) || negb entry || (alen devices <=? index) then (0, None)
  else
    let name := fst (aget ([], DEVFS_DEVICE_NONE) devices index) in
    (1, Some (mk_dirent (take (Z.to_nat (FS_DIRENT_NAME_MAX - 1)) name) 0 FS_DIRENT_FILE)).

Definition devfs_is_directory (path : option cstr) : bool := path_is_root path.
Definition devfs_reject (path : cstr) : bool := false.
Definition devfs_sync : bool := true.

(** ** The console *)

Lemma read_keys_spec n k : keyboard_ok k ->
  let '(cs, k') := read_keys n k in keyboard_ok k' /\ cs = take n (typed k) /\ typed k' = drop n (typed k).
Proof.
  revert k. induction n as [|n IH]; intros k Hk; cbn [read_keys]; [done|].
  pose proof (read_char_spec k Hk) as H. destruct (keyboard_read_char k) as [[c|] k1]; destruct H as (Hk1 & E).
  - specialize (IH k1 Hk1). destruct (read_keys n k1) as [cs k2]. destruct IH as (Hk2 & -> & ->). by rewrite E.
  - destruct E as (E & ->). rewrite E, take_nil, drop_nil. done.
Qed.

(** A read of the console hands over the keys typed first, as many as fit the
    buffer, in order; it blocks exactly when none is there, which is when
    [keyboard_input_waiting], tested again before the task sleeps, holds.  A
    write appends to the screen. *)
Theorem console_correct t length bytes :
  keyboard_ok (keys t) -> 0 < length ->
  (let '(out, t') := devfs_read DEVFS_DEVICE_CONSOLE true length t in
   keyboard_ok (keys t') /\ screen t' = screen t /\
   match out with
   | DevReturn ok got => ok = true /\ got = take (Z.to_nat length) (typed (keys t)) /\ got <> [] /\
       typed (keys t') = drop (Z.to_nat length) (typed (keys t))
   | DevWait => t' = t /\ keyboard_input_waiting t = true
   end) /\
  devfs_write DEVFS_DEVICE_CONSOLE (Some bytes) (alen bytes) t = (true, alen bytes, mk_tty (keys t) (screen t ++ bytes)).
Proof.
  intros Hk Hl. split.
  - unfold devfs_read. cbn [negb andb]. pose proof (read_keys_spec (Z.to_nat length) (keys t) Hk) as H.
    destruct (read_keys (Z.to_nat length) (keys t)) as [got k'] eqn:E. destruct H as (Hk' & Hgot & Hrest).
    destruct (Z.eqb_spec length 0); [lia|]. cbn [negb]. rewrite andb_true_r.
    destruct (Z.eqb_spec (alen got) 0) as [Hz|Hnz].
    + assert (got = []) as Hnil by (destruct got; [done | unfold alen in Hz; simpl in Hz; lia]).
      destruct (Z.to_nat length) as [|len] eqn:En; [lia|]. cbn [read_keys] in E.
      pose proof (read_char_spec (keys t) Hk) as Hr. destruct (keyboard_read_char (keys t)) as [[c|] k1] eqn:Ec.
      * destruct (read_keys len k1). injection E as E _. congruence.
      * injection E as _ <-. destruct Hr as (_ & _ & ->). destruct t as [k s]. split_and!; try done.
        unfold keyboard_input_waiting, keyboard_char_available, keyboard_read_char in *. cbn [keys] in *.
        destruct (keyboard_tail k =? keyboard_head k); [done | discriminate].
    + split_and!; try done. intros ->. done.
  - unfold devfs_write. unfold alen. rewrite Nat2Z.id, firstn_all. done.
Qed.

Definition sample_tty : tty := mk_tty (snd (keyboard_handler 0x1E idle_keyboard)) [].

Lemma console_correct_witness :
  fst (devfs_read DEVFS_DEVICE_CONSOLE true 8 sample_tty) = DevReturn true (str "a") /\
  devfs_write DEVFS_DEVICE_CONSOLE (Some (str "hi")) 2 sample_tty = (true, 2, mk_tty (keys sample_tty) (str "hi")).
Proof.
  assert (Hk : keyboard_ok (keys sample_tty)) by (by split; vm_compute).
  destruct (console_correct sample_tty 8 (str "hi") Hk) as (H1 & H2); [done|]. split; [|exact H2].
  assert (E : fst (devfs_read DEVFS_DEVICE_CONSOLE true 8 sample_tty) <> DevWait) by (vm_compute; discriminate).
  destruct (devfs_read DEVFS_DEVICE_CONSOLE true 8 sample_tty) as [[ok got|] t']; [|done]. cbn [fst] in *.
  destruct H1 as (_ & _ & -> & -> & _). vm_compute. reflexivity.
Defined.

End Devfs.
