(* ===== verification/Block.v ===== *)
(** * Block: the virtio block driver of src/drivers/block.c

    The requests of the driver: what it puts into the ring, how it waits and
    what it returns.  The device is a parameter: it is shown the request and
    the index of the available ring, and answers with the index of its used
    ring at the end of the wait, the status byte and the data buffer.  The
    set-up of the queue in [block_init] is port I/O and is not modelled.

    [BlockDevice] is what a file system may rely on; the driver provides it. *)

From S2P Require Import Prelude.
Local Open Scope Z_scope.

Module Block.

Definition SECTOR_SIZE : Z := 512.
Definition VIRTIO_BLK_T_IN : Z := 0.
Definition VIRTIO_BLK_T_OUT : Z := 1.
Definition VIRTIO_BLK_T_FLUSH : Z := 4.

(** ** The interface *)

(** A request that fails may have reached the disk: the sector of a failed
    write holds some bytes, every other one what it held. *)
Class BlockDevice (D : Type) := {
  block_ready : D -> bool;
  block_read_sector : Z -> D -> option (list Z) * D;
  block_write_sector : Z -> list Z -> D -> bool * D;
  block_flush : D -> bool * D;
  contents : D -> Z -> list Z;
  disk_ok : D -> Prop;
  contents_length d n : disk_ok d -> length (contents d n) = 512%nat;
  read_spec n d : disk_ok d -> let '(r, d') := block_read_sector n d in
    disk_ok d' /\ (forall m, contents d' m = contents d m) /\ forall data, r = Some data -> data = contents d n;
  write_spec n data d : disk_ok d -> length data = 512%nat -> let '(ok, d') := block_write_sector n data d in
    disk_ok d' /\ (forall m, m <> n -> contents d' m = contents d m) /\ (ok = true -> contents d' n = data);
  flush_spec d : disk_ok d -> let '(ok, d') := block_flush d in disk_ok d' /\ forall m, contents d' m = contents d m;
}.

(** A device on which the requests for its sectors succeed. *)
Class ReliableDevice (D : Type) `{BlockDevice D} := {
  sector_count : D -> Z;
  reads n d : disk_ok d -> 0 <= n < sector_count d -> exists data d', block_read_sector n d = (Some data, d') /\ sector_count d' = sector_count d;
  writes n data d : disk_ok d -> 0 <= n < sector_count d -> exists d', block_write_sector n data d = (true, d') /\ sector_count d' = sector_count d;
}.

(** ** The driver *)

Section Driver.
Context {D : Type} (device : Z -> Z -> list Z -> Z -> D -> (Z * Z * list Z) * D).

Record block := mk_block { initialized : bool; flush_supported : bool; sectors : Z; available : Z; b_device : D }.

(** A request is in the ring; the device has had its time.  [used[1] != index + 1]
    compares as [int]. *)
Definition submit (type sector : Z) (data : list Z) (b : block) : option (list Z) * block :=
  let index := available b in
  let '((used, status, data), d) := device type sector data (u16 (index + 1)) (b_device b) in
  let b := mk_block (initialized b) (flush_supported b) (sectors b) (u16 (index + 1)) d in
  if negb (used =? index + 1) then (None, b)
  else if negb (status =? 0) then (None, b)
  else (Some data, b).

(** The data area of a read is overwritten by the device. *)
Definition transfer (sector : Z) (buffer : option (list Z)) (write : bool) (b : block) : option (list Z) * block :=
  match buffer with
  | None => (None, b)
  | Some buffer =>
      if negb (initialized b) || (sectors b <=? sector) then (None, b)
      else submit (if write then VIRTIO_BLK_T_OUT else VIRTIO_BLK_T_IN) sector buffer b
  end.

Definition driver_ready (b : block) : bool := initialized b.
Definition block_sector_count (b : block) : Z := sectors b.
Definition driver_read (sector : Z) (b : block) : option (list Z) * block := transfer sector (Some (replicate 512 0)) false b.
Definition driver_write (sector : Z) (data : list Z) (b : block) : bool * block :=
  let '(r, b) := transfer sector (Some data) true b in (bool_decide (is_Some r), b).
Definition driver_flush (b : block) : bool * block :=
  if negb (initialized b) then (false, b)
  else if negb (flush_supported b) then (false, b)
  else let '(r, b) := submit VIRTIO_BLK_T_FLUSH 0 [] b in (bool_decide (is_Some r), b).

End Driver.

Arguments block : clear implicits.

(** ** A device that answers *)

(** What the virtio specification asks of the device: it serves the request it
    is shown, in place, and its used ring catches up with the available one. *)
Class VirtioBlk (D : Type) := {
  serve : Z -> Z -> list Z -> Z -> D -> (Z * Z * list Z) * D;
  stored : D -> Z -> list Z;
  stored_length d n : length (stored d n) = 512%nat;
  serve_in n data i d : let '((used, status, data'), d') := serve VIRTIO_BLK_T_IN n data i d in
    used = i /\ (status = 0 -> data' = stored d n) /\ forall m, stored d' m = stored d m;
  serve_out n data i d : length data = 512%nat -> let '((used, status, _), d') := serve VIRTIO_BLK_T_OUT n data i d in
    used = i /\ (forall m, m <> n -> stored d' m = stored d m) /\ (status = 0 -> stored d' n = data);
  serve_flush n data i d : let '((used, _, _), d') := serve VIRTIO_BLK_T_FLUSH n data i d in used = i /\ forall m, stored d' m = stored d m;
}.

Section Virtio.
Context {D : Type} `{VirtioBlk D}.

Lemma submit_read n data (b : block D) : let '(r, b') := submit serve VIRTIO_BLK_T_IN n data b in
  (forall m, stored (b_device b') m = stored (b_device b) m) /\ forall x, r = Some x -> x = stored (b_device b) n.
Proof.
  unfold submit. pose proof (serve_in n data (u16 (available b + 1)) (b_device b)) as Hs. destruct (serve _ _ _ _ _) as [[[used status] x] d].
  destruct Hs as (_ & Hx & Hm). destruct (used =? _); cbn [negb]; [|done]. destruct (Z.eqb_spec status 0) as [E|]; cbn [negb]; [|done].
  split; [done|]. intros y [= <-]. auto.
Qed.

Lemma submit_write n data (b : block D) : length data = 512%nat -> let '(r, b') := submit serve VIRTIO_BLK_T_OUT n data b in
  (forall m, m <> n -> stored (b_device b') m = stored (b_device b) m) /\ (is_Some r -> stored (b_device b') n = data).
Proof.
  intros Hl. unfold submit. pose proof (serve_out n data (u16 (available b + 1)) (b_device b) Hl) as Hs.
  destruct (serve _ _ _ _ _) as [[[used status] x] d].
  destruct Hs as (_ & Hm & Hx). destruct (used =? _); cbn [negb]; [|by split; [|intros []]].
  destruct (Z.eqb_spec status 0) as [E|]; cbn [negb]; [|by split; [|intros []]]. split; auto.
Qed.

(** The driver is a block device. *)
#[export] Instance block_device : BlockDevice (block D).
Proof.
  refine {| block_ready := driver_ready; block_read_sector := driver_read serve; block_write_sector := driver_write serve;
            block_flush := driver_flush serve; contents b := stored (b_device b); disk_ok _ := True |}.
  - intros b n _. apply stored_length.
  - intros n b _. unfold driver_read, transfer. destruct (_ || _); [done|]. pose proof (submit_read n (replicate 512 0) b) as Hs.
    destruct (submit _ _ _ _ _) as [r b']. split; [done|]. apply Hs.
  - intros n data b _ Hl. unfold driver_write, transfer. destruct (_ || _); [done|]. pose proof (submit_write n data b Hl) as Hs.
    destruct (submit _ _ _ _ _) as [r b']. split; [done|]. split; [apply Hs|]. intros Hr. apply bool_decide_eq_true in Hr. by apply Hs.
  - intros b _. unfold driver_flush. destruct (initialized b); [|done]. destruct (flush_supported b); [|done]. cbn [negb]. unfold submit.
    pose proof (serve_flush 0 [] (u16 (available b + 1)) (b_device b)) as Hs. destruct (serve _ _ _ _ _) as [[[used status] x] d].
    destruct Hs as (_ & Hm). destruct (used =? _); [|done]. by destruct (status =? 0).
Defined.


End Virtio.

(** ** Disks in memory *)

(** A disk of [count] sectors; a sector that was never written is zero. *)
Record ram_disk := mk_disk { disk_sectors : gmap Z (list Z); disk_count : Z }.
Definition disk_at (d : ram_disk) (n : Z) : list Z := default (replicate 512 0) (disk_sectors d !! n).

Definition full_sectors (d : ram_disk) : Prop := map_Forall (fun _ data => length data = 512%nat) (disk_sectors d).

#[export] Instance disk_device : BlockDevice ram_disk.
Proof.
  refine {| block_ready _ := true;
    block_read_sector n d := (if (0 <=? n) && (n <? disk_count d) then Some (disk_at d n) else None, d);
    block_write_sector n data d := if (0 <=? n) && (n <? disk_count d) then (true, mk_disk (<[n := data]> (disk_sectors d)) (disk_count d)) else (false, d);
    block_flush d := (true, d); contents := disk_at; disk_ok := full_sectors |}.
  - intros d n Hd. unfold disk_at. destruct (disk_sectors d !! n) eqn:E; [by apply Hd in E | apply length_replicate].
  - intros n d Hd. destruct (_ && _); split_and!; try done. by intros data [= <-].
  - intros n data d Hd Hl. destruct (_ && _); [|done]. split; [by apply map_Forall_insert_2|]. unfold disk_at. cbn. split.
    + intros m Hm. by rewrite lookup_insert_ne.
    + intros _. by rewrite lookup_insert_eq.
  - done.
Defined.

#[export] Instance disk_reliable : ReliableDevice ram_disk.
Proof.
  refine {| sector_count := disk_count |}.
  - intros n d _ Hn. cbn. destruct (Z.leb_spec 0 n), (Z.ltb_spec n (disk_count d)); try lia. by eexists _, _.
  - intros n data d _ Hn. cbn. destruct (Z.leb_spec 0 n), (Z.ltb_spec n (disk_count d)); try lia. by eexists.
Defined.

(** A virtio device over such a disk. *)
Definition whole (data : list Z) : list Z := if decide (length data = 512%nat) then data else replicate 512 0.

#[export] Instance disk_virtio : VirtioBlk ram_disk.
Proof.
  refine {| serve type n data i d :=
      if type =? VIRTIO_BLK_T_IN then ((i, 0, whole (disk_at d n)), d)
      else if type =? VIRTIO_BLK_T_OUT then ((i, 0, data), mk_disk (<[n := data]> (disk_sectors d)) (disk_count d))
      else ((i, 0, data), d);
    stored d n := whole (disk_at d n) |}.
  - intros d n. unfold whole. by case_decide; [|rewrite length_replicate].
  - done.
  - intros n data i d Hl. cbn. unfold disk_at, whole. cbn. split_and!; [done | |].
    + intros m Hm. by rewrite lookup_insert_ne.
    + intros _. rewrite lookup_insert_eq. cbn. by rewrite decide_True.
  - done.
Defined.

Definition sample_block (index : Z) : block ram_disk := mk_block true true 64 index (mk_disk {[3 := replicate 512 7]} 64).



End Block.
