(* ===== verification/FatNames.v ===== *)
(** * FatNames: names on a FAT volume

    The parts of src/fs/fat32.c that do not touch the disk: short names, the
    conversions between UTF-8 and UTF-16, and the long-name entries that carry
    the UTF-16 units of a name in front of its short entry. *)

From S2P Require Import Prelude CString.
Import CString.CString.
Local Open Scope Z_scope.

Module FatNames.

(** ** Bytes of a sector *)

Definition byte (data : list Z) (offset : Z) : Z := aget 0 data offset.
Definition read16 (data : list Z) (offset : Z) : Z := byte data offset |! Z.shiftl (byte data (offset + 1)) 8.
Definition read32 (data : list Z) (offset : Z) : Z :=
  byte data offset |! Z.shiftl (byte data (offset + 1)) 8 |! Z.shiftl (byte data (offset + 2)) 16 |! Z.shiftl (byte data (offset + 3)) 24.
Definition write16 (data : list Z) (offset value : Z) : list Z := aset (aset data offset (u8 value)) (offset + 1) (u8 (value >>! 8)).
Definition write32 (data : list Z) (offset value : Z) : list Z :=
  aset (aset (aset (aset data offset (u8 value)) (offset + 1) (u8 (value >>! 8))) (offset + 2) (u8 (value >>! 16))) (offset + 3) (u8 (value >>! 24)).

(** ** Short names *)

(** A byte read as a [char]. *)
Definition schar (c : Z) : Z := if c <? 128 then c else c - 256.
Definition lower_case (c : Z) : bool := (97 <=? schar c) && (schar c <=? 122).
Definition upper (c : Z) : Z := if lower_case c then c - 32 else c.

Definition BLANK : Z := 32.
Definition SHORT_NAME_SIZE : Z := 11.
Definition blank_name : list Z := replicate (Z.to_nat SHORT_NAME_SIZE) BLANK.

Fixpoint short_loop (name : cstr) (extension : bool) (target : Z) (result : list Z) : option (bool * Z * list Z) :=
  match name with
  | [] => Some (extension, target, result)
  | c :: name =>
      if c =? DOT then
        if extension || (target =? 0) then None else short_loop name true 8 result
      else if (extension && (11 <=? target)) || (negb extension && (8 <=? target)) then None
      else
        let c := upper c in
        if (schar c <? 33) || (126 <? schar c) || (c =? SLASH) || (c =? 92) then None
        else short_loop name extension (target + 1) (aset result target c)
  end.

Definition short_name (name : cstr) : option (list Z) :=
  if bool_decide (name = []) then None
  else match short_loop name false 0 blank_name with
       | None => None
       | Some (extension, target, result) => if extension && (target =? 8) then None else Some result
       end.

Fixpoint until_blank (l : list Z) : list Z :=
  match l with
  | [] => []
  | c :: l => if c =? BLANK then [] else c :: until_blank l
  end.

(** The text of a short entry; also the name [fat32_readdir] shows. *)
Definition display_name (entry : list Z) : cstr :=
  until_blank (take 8 entry) ++ (if byte entry 8 =? BLANK then [] else DOT :: until_blank (take 3 (drop 8 entry))).

Definition canonical_short_name (name : cstr) (entry : list Z) : bool := name_equal name (display_name entry).

Definition lfn_checksum (entry : list Z) : Z :=
  for_up (trips 0 SHORT_NAME_SIZE) 0 (fun i sum => u8 ((if has sum 1 then 0x80 else 0) + (sum >>! 1) + byte entry i)) 0.

(** ** UTF-8 and UTF-16 *)

Definition continuation (b : Z) : bool := (b &! 0xC0) =? 0x80.

(** The codepoint at the front and the bytes behind it. *)
Definition decode_utf8 (input : cstr) : option (Z * cstr) :=
  match input with
  | [] => None
  | first :: rest =>
      if first <? 0x80 then Some (first, rest)
      else if (0xC2 <=? first) && (first <=? 0xDF) then
        match rest with
        | b1 :: rest => if negb (continuation b1) then None else Some (Z.shiftl (first &! 0x1F) 6 |! (b1 &! 0x3F), rest)
        | _ => None
        end
      else if (0xE0 <=? first) && (first <=? 0xEF) then
        match rest with
        | b1 :: b2 :: rest =>
            if negb (continuation b1) || negb (continuation b2) || ((first =? 0xE0) && (b1 <? 0xA0)) || ((first =? 0xED) && (0xA0 <=? b1)) then None
            else Some (Z.shiftl (first &! 0x0F) 12 |! Z.shiftl (b1 &! 0x3F) 6 |! (b2 &! 0x3F), rest)
        | _ => None
        end
      else if (0xF0 <=? first) && (first <=? 0xF4) then
        match rest with
        | b1 :: b2 :: b3 :: rest =>
            if negb (continuation b1) || negb (continuation b2) || negb (continuation b3) || ((first =? 0xF0) && (b1 <? 0x90)) ||
               ((first =? 0xF4) && (0x90 <=? b1)) then None
            else Some (Z.shiftl (first &! 7) 18 |! Z.shiftl (b1 &! 0x3F) 12 |! Z.shiftl (b2 &! 0x3F) 6 |! (b3 &! 0x3F), rest)
        | _ => None
        end
      else None
  end.

(** Control characters, and the characters / \ : * ? <quote> < > | *)
Definition forbidden (codepoint : Z) : bool :=
  (codepoint <? 0x20) || (codepoint =? 0x7F) || existsb (Z.eqb codepoint) [47; 92; 58; 42; 63; 34; 60; 62; 124].

Fixpoint utf16_loop (fuel : nat) (input : cstr) (count : Z) : option (list Z) :=
  match fuel with
  | O => None
  | S fuel =>
      match input with
      | [] => Some []
      | _ =>
          match decode_utf8 input with
          | None => None
          | Some (codepoint, rest) =>
              if forbidden codepoint then None
              else if codepoint <=? 0xFFFF then
                if count =? 255 then None else cons codepoint <$> utf16_loop fuel rest (count + 1)
              else if 253 <? count then None
              else
                let codepoint := codepoint - 0x10000 in
                (fun units => (0xD800 |! (codepoint >>! 10)) :: (0xDC00 |! (codepoint &! 0x3FF)) :: units) <$> utf16_loop fuel rest (count + 2)
          end
      end
  end.

Definition utf8_to_utf16 (input : cstr) : option (list Z) :=
  let input_length := alen input in
  if (input_length =? 0) || (ch input 0 =? BLANK) || (ch input (input_length - 1) =? BLANK) || (ch input (input_length - 1) =? DOT) then None
  else match utf16_loop (S (length input)) input 0 with
       | None => None
       | Some output => if (alen output =? 0) || (255 <? alen output) then None else Some output
       end.

Definition encode_utf8 (codepoint : Z) : list Z :=
  if codepoint <? 0x80 then [codepoint]
  else if codepoint <? 0x800 then [0xC0 |! (codepoint >>! 6); 0x80 |! (codepoint &! 0x3F)]
  else if codepoint <? 0x10000 then [0xE0 |! (codepoint >>! 12); 0x80 |! ((codepoint >>! 6) &! 0x3F); 0x80 |! (codepoint &! 0x3F)]
  else [0xF0 |! (codepoint >>! 18); 0x80 |! ((codepoint >>! 12) &! 0x3F); 0x80 |! ((codepoint >>! 6) &! 0x3F); 0x80 |! (codepoint &! 0x3F)].

(** [input] holds the units up to the given count; [out] bytes are written. *)
Fixpoint utf16_to_utf8 (input : list Z) (out capacity : Z) : option cstr :=
  match input with
  | [] => Some []
  | unit :: rest =>
      if (unit =? 0) || (unit =? 0xFFFF) then Some []
      else if (0xD800 <=? unit) && (unit <=? 0xDBFF) then
        match rest with
        | low :: rest =>
            if (low <? 0xDC00) || (0xDFFF <? low) then None
            else
              let text := encode_utf8 (0x10000 + Z.shiftl (unit - 0xD800) 10 + (low - 0xDC00)) in
              if capacity <=? out + alen text then None else app text <$> utf16_to_utf8 rest (out + alen text) capacity
        | [] => None
        end
      else if (0xDC00 <=? unit) && (unit <=? 0xDFFF) then None
      else
        let text := encode_utf8 unit in
        if capacity <=? out + alen text then None else app text <$> utf16_to_utf8 rest (out + alen text) capacity
  end.

Definition fold_case (c : Z) : Z := if (65 <=? c) && (c <=? 90) then c + 32 else c.

Fixpoint path_name_equal (l r : cstr) : bool :=
  match l, r with
  | a :: l, b :: r => if negb (fold_case a =? fold_case b) then false else path_name_equal l r
  | [], [] => true
  | _, _ => false
  end.

(** ** Long-name entries *)

Record lfn_state := mk_lfn { units : list Z; checksum : Z; expected_ordinal : Z; total_ordinals : Z; active : bool }.

Definition lfn_reset (s : lfn_state) : lfn_state := mk_lfn (units s) (checksum s) 0 0 false.

Definition positions : list Z := [1; 3; 5; 7; 9; 14; 16; 18; 20; 22; 24; 28; 30].
Definition position (i : Z) : Z := aget 0 positions i.

Definition lfn_add_entry (s : lfn_state) (entry : list Z) : lfn_state :=
  let sequence := byte entry 0 in
  let ordinal := sequence &! 0x1F in
  if has sequence 0xA0 then lfn_reset s
  else
    let s := if has sequence 0x40 then mk_lfn (replicate 260 0xFFFF) (byte entry 13) ordinal ordinal ((0 <? ordinal) && (ordinal <=? 20)) else s in
    if negb (active s) || negb (ordinal =? expected_ordinal s) || negb (byte entry 13 =? checksum s) || negb (byte entry 12 =? 0) ||
       negb (read16 entry 26 =? 0) then lfn_reset s
    else
      let base := (ordinal - 1) * 13 in
      mk_lfn (for_up (trips 0 13) 0 (fun i units => aset units (base + i) (read16 entry (position i))) (units s)) (checksum s)
        (u8 (expected_ordinal s - 1)) (total_ordinals s) (active s).

Fixpoint until_zero (l : list Z) : list Z :=
  match l with
  | [] => []
  | u :: l => if u =? 0 then [] else u :: until_zero l
  end.

Definition lfn_decode (s : lfn_state) (short_entry : list Z) (capacity : Z) : option cstr :=
  if negb (active s) || negb (expected_ordinal s =? 0) || negb (lfn_checksum short_entry =? checksum s) then None
  else utf16_to_utf8 (until_zero (take (Z.to_nat (total_ordinals s * 13)) (units s))) 0 capacity.

(** The entry with the given ordinal, the highest one marked; the loop of
    [create_named_entry]. *)
Definition long_entry (name : list Z) (sum ordinal : Z) (highest : bool) : list Z :=
  let unit_count := alen name in
  let item := aset (aset (aset (replicate 32 0) 0 (u8 (ordinal |! (if highest then 0x40 else 0)))) 11 0x0F) 13 sum in
  for_up (trips 0 13) 0 (fun j item =>
    let unit := (ordinal - 1) * 13 + j in
    let value := if unit <? unit_count then aget 0 name unit else if unit =? unit_count then 0 else 0xFFFF in
    write16 item (position j) value) (write16 item 26 0).

Definition short_entry (alias : list Z) (attributes first_cluster : Z) : list Z :=
  let item := for_up (trips 0 SHORT_NAME_SIZE) 0 (fun j item => aset item j (byte alias j)) (replicate 32 0) in
  write32 (write16 (write16 (aset item 11 attributes) 20 (u16 (first_cluster >>! 16))) 26 (u16 first_cluster)) 28 0.

(** ** The UTF-8 round trip *)

Definition is_byte (b : Z) : Prop := 0 <= b < 256.

Lemma continuation_range b : is_byte b -> continuation b = (0x80 <=? b) && (b <? 0xC0).
Proof.
  assert (Hall : forallb (fun b => Bool.eqb (continuation b) ((0x80 <=? b) && (b <? 0xC0))) (seqZ 0 256) = true) by (vm_compute; reflexivity).
  intros Hb. rewrite forallb_forall in Hall. apply eqb_prop, Hall, list_elem_of_In, elem_of_seqZ. unfold is_byte in Hb. lia.
Qed.

Lemma low_bits x k m : m = 2 ^ k - 1 -> 0 <= k -> Z.land x m = x mod 2 ^ k.
Proof. intros -> Hk. by apply land_mask_low. Qed.

(** The encoding by division. *)
Lemma encode_arith cp : 0 <= cp < 0x110000 -> encode_utf8 cp =
  if cp <? 0x80 then [cp]
  else if cp <? 0x800 then [0xC0 + cp / 64; 0x80 + cp mod 64]
  else if cp <? 0x10000 then [0xE0 + cp / 4096; 0x80 + (cp / 64) mod 64; 0x80 + cp mod 64]
  else [0xF0 + cp / 262144; 0x80 + (cp / 4096) mod 64; 0x80 + (cp / 64) mod 64; 0x80 + cp mod 64].
Proof.
  intros Hcp. unfold encode_utf8. rewrite !(low_bits _ 6 0x3F) by done. rewrite !Z.shiftr_div_pow2 by done.
  change (2 ^ 6) with 64. change (2 ^ 12) with 4096. change (2 ^ 18) with 262144.
  assert (Hm : forall x, Z.lor 0x80 (x mod 64) = 0x80 + x mod 64) by (intros x; apply (lor_disjoint_add _ _ 6); [done | done | apply Z.mod_pos_bound; lia]).
  rewrite !Hm. destruct (Z.ltb_spec cp 0x80); [done|]. destruct (Z.ltb_spec cp 0x800).
  { by rewrite (lor_disjoint_add 0xC0 _ 5) by (done || (split; [apply Z.div_pos; lia | apply Z.div_lt_upper_bound; lia])). }
  destruct (Z.ltb_spec cp 0x10000).
  { by rewrite (lor_disjoint_add 0xE0 _ 4) by (done || (split; [apply Z.div_pos; lia | apply Z.div_lt_upper_bound; lia])). }
  by rewrite (lor_disjoint_add 0xF0 _ 3) by (done || (split; [apply Z.div_pos; lia | apply Z.div_lt_upper_bound; lia])).
Qed.

(** [a * 64 + b] taken apart. *)
Lemma split64 a b : 0 <= b < 64 -> (a * 64 + b) / 64 = a /\ (a * 64 + b) mod 64 = b.
Proof. intros Hb. split; [rewrite Z.div_add_l, (Z.div_small b) by lia; lia | rewrite Z.add_comm, Z_mod_plus_full; by apply Z.mod_small]. Qed.

Lemma pack2 x b : 0 <= b < 64 -> Z.lor (Z.shiftl x 6) b = x * 64 + b.
Proof. intros Hb. by rewrite lor_shiftl_add by (done || lia). Qed.

Lemma pack3 x b c : 0 <= b < 64 -> 0 <= c < 64 -> Z.lor (Z.lor (Z.shiftl x 12) (Z.shiftl b 6)) c = (x * 64 + b) * 64 + c.
Proof.
  intros Hb Hc. change 12 with (6 + 6). rewrite <- Z.shiftl_shiftl by done. rewrite <- Z.shiftl_lor, pack2 by done. by rewrite lor_shiftl_add by (done || lia).
Qed.

Lemma pack4 x b c d : 0 <= b < 64 -> 0 <= c < 64 -> 0 <= d < 64 ->
  Z.lor (Z.lor (Z.lor (Z.shiftl x 18) (Z.shiftl b 12)) (Z.shiftl c 6)) d = ((x * 64 + b) * 64 + c) * 64 + d.
Proof.
  intros Hb Hc Hd. change 18 with (12 + 6). change 12 with (6 + 6) at 2. rewrite <- !Z.shiftl_shiftl by done. rewrite <- !Z.shiftl_lor, pack3 by done.
  by rewrite lor_shiftl_add by (done || lia).
Qed.

Lemma cont_low b : 0x80 <= b < 0xC0 -> Z.land b 0x3F = b - 0x80.
Proof.
  intros Hb. rewrite (low_bits b 6) by done. change (2 ^ 6) with 64. symmetry. apply Z.mod_unique with 2; lia.
Qed.

Lemma decode2 first b1 : 0xC2 <= first <= 0xDF -> 0x80 <= b1 < 0xC0 ->
  let cp := Z.lor (Z.shiftl (Z.land first 0x1F) 6) (Z.land b1 0x3F) in encode_utf8 cp = [first; b1] /\ 0x80 <= cp < 0x800.
Proof.
  intros Hf H1 cp. assert (E : cp = (first - 0xC0) * 64 + (b1 - 0x80)).
  { unfold cp. rewrite cont_low, pack2 by lia. rewrite (low_bits first 5) by done. change (2 ^ 5) with 32.
    rewrite <- (Z.mod_unique first 32 6 (first - 0xC0)) by lia. done. }
  destruct (split64 (first - 0xC0) (b1 - 0x80)) as (E1 & E2); [lia|]. rewrite <- E in E1, E2. split; [|lia].
  rewrite encode_arith by lia. destruct (Z.ltb_spec cp 0x80), (Z.ltb_spec cp 0x800); try lia. rewrite E1, E2. repeat f_equal; lia.
Qed.

Lemma decode3 first b1 b2 : 0xE0 <= first <= 0xEF -> 0x80 <= b1 < 0xC0 -> 0x80 <= b2 < 0xC0 ->
  (first = 0xE0 -> 0xA0 <= b1) -> (first = 0xED -> b1 < 0xA0) ->
  let cp := Z.lor (Z.lor (Z.shiftl (Z.land first 0x0F) 12) (Z.shiftl (Z.land b1 0x3F) 6)) (Z.land b2 0x3F) in
  encode_utf8 cp = [first; b1; b2] /\ 0x800 <= cp < 0x10000 /\ ~ (0xD800 <= cp <= 0xDFFF).
Proof.
  intros Hf H1 H2 He0 Hed cp. assert (E : cp = ((first - 0xE0) * 64 + (b1 - 0x80)) * 64 + (b2 - 0x80)).
  { unfold cp. rewrite !cont_low, pack3 by lia. rewrite (low_bits first 4) by done. change (2 ^ 4) with 16.
    rewrite <- (Z.mod_unique first 16 14 (first - 0xE0)) by lia. done. }
  destruct (split64 ((first - 0xE0) * 64 + (b1 - 0x80)) (b2 - 0x80)) as (E1 & E2); [lia|]. rewrite <- E in E1, E2.
  destruct (split64 (first - 0xE0) (b1 - 0x80)) as (E3 & E4); [lia|]. split; [|lia].
  rewrite encode_arith by lia. destruct (Z.ltb_spec cp 0x80), (Z.ltb_spec cp 0x800), (Z.ltb_spec cp 0x10000); try lia.
  change 4096 with (64 * 64). rewrite <- Z.div_div by lia. rewrite E1, E2, E3, E4. repeat f_equal; lia.
Qed.

Lemma decode4 first b1 b2 b3 : 0xF0 <= first <= 0xF4 -> 0x80 <= b1 < 0xC0 -> 0x80 <= b2 < 0xC0 -> 0x80 <= b3 < 0xC0 ->
  (first = 0xF0 -> 0x90 <= b1) -> (first = 0xF4 -> b1 < 0x90) ->
  let cp := Z.lor (Z.lor (Z.lor (Z.shiftl (Z.land first 7) 18) (Z.shiftl (Z.land b1 0x3F) 12)) (Z.shiftl (Z.land b2 0x3F) 6)) (Z.land b3 0x3F) in
  encode_utf8 cp = [first; b1; b2; b3] /\ 0x10000 <= cp < 0x110000.
Proof.
  intros Hf H1 H2 H3 Hf0 Hf4 cp. assert (E : cp = (((first - 0xF0) * 64 + (b1 - 0x80)) * 64 + (b2 - 0x80)) * 64 + (b3 - 0x80)).
  { unfold cp. rewrite !cont_low, pack4 by lia. rewrite (low_bits first 3) by done. change (2 ^ 3) with 8.
    rewrite <- (Z.mod_unique first 8 30 (first - 0xF0)) by lia. done. }
  destruct (split64 (((first - 0xF0) * 64 + (b1 - 0x80)) * 64 + (b2 - 0x80)) (b3 - 0x80)) as (E1 & E2); [lia|]. rewrite <- E in E1, E2.
  destruct (split64 ((first - 0xF0) * 64 + (b1 - 0x80)) (b2 - 0x80)) as (E3 & E4); [lia|].
  destruct (split64 (first - 0xF0) (b1 - 0x80)) as (E5 & E6); [lia|]. split; [|lia].
  rewrite encode_arith by lia. destruct (Z.ltb_spec cp 0x80), (Z.ltb_spec cp 0x800), (Z.ltb_spec cp 0x10000); try lia.
  change 262144 with (64 * 64 * 64). change 4096 with (64 * 64). rewrite <- !Z.div_div by lia. rewrite E1, E2, E3, E4, E5, E6. repeat f_equal; lia.
Qed.

Lemma decode_encode input cp rest : Forall is_byte input -> decode_utf8 input = Some (cp, rest) ->
  input = encode_utf8 cp ++ rest /\ 0 <= cp < 0x110000 /\ ~ (0xD800 <= cp <= 0xDFFF).
Proof.
  intros Hb. unfold decode_utf8. destruct input as [|first input]; [done|]. inversion Hb as [|? ? Hf Hr]; subst. unfold is_byte in Hf.
  destruct (Z.ltb_spec first 0x80).
  { intros [= <- <-]. rewrite encode_arith by lia. destruct (Z.ltb_spec first 0x80); [|lia]. split; [done | lia]. }
  destruct ((0xC2 <=? first) && (first <=? 0xDF)) eqn:E2; [|destruct ((0xE0 <=? first) && (first <=? 0xEF)) eqn:E3;
    [|destruct ((0xF0 <=? first) && (first <=? 0xF4)) eqn:E4; [|done]]].
  - destruct input as [|b1 input]; [done|]. inversion Hr; subst. rewrite continuation_range by done. bool_prop.
    destruct (negb _) eqn:Ec; [done|]. intros [= <- <-]. bool_prop.
    destruct (decode2 first b1) as (E & Hcp); [lia | lia |]. split; [by rewrite E | lia].
  - destruct input as [|b1 [|b2 input]]; [done | done |]. inversion Hr as [|? ? ? Hr2]; subst. inversion Hr2; subst.
    rewrite !continuation_range by done. destruct (_ || _) eqn:Ec; [done|]. intros [= <- <-]. bool_prop.
    destruct (decode3 first b1 b2) as (E & Hcp & Hs); [lia..|]. split; [by rewrite E | lia].
  - destruct input as [|b1 [|b2 [|b3 input]]]; [done | done | done |]. inversion Hr as [|? ? ? Hr2]; subst. inversion Hr2 as [|? ? ? Hr3]; subst.
    inversion Hr3; subst. rewrite !continuation_range by done. destruct (_ || _) eqn:Ec; [done|]. intros [= <- <-]. bool_prop.
    destruct (decode4 first b1 b2 b3) as (E & Hcp); [lia..|]. split; [by rewrite E | lia].
Qed.

Lemma encode_length cp : 1 <= alen (encode_utf8 cp) <= 4.
Proof. unfold encode_utf8, alen. repeat case_match; simpl; lia. Qed.

(** A surrogate pair and the codepoint it stands for. *)
Lemma surrogates cp : 0x10000 <= cp < 0x110000 ->
  let hi := Z.lor 0xD800 (Z.shiftr (cp - 0x10000) 10) in
  let lo := Z.lor 0xDC00 (Z.land (cp - 0x10000) 0x3FF) in
  0xD800 <= hi <= 0xDBFF /\ 0xDC00 <= lo <= 0xDFFF /\ 0x10000 + Z.shiftl (hi - 0xD800) 10 + (lo - 0xDC00) = cp.
Proof.
  intros Hcp hi lo. set (x := cp - 0x10000) in *. assert (Hx : 0 <= x < 0x100000) by lia.
  assert (Hd : 0 <= x / 1024 < 1024) by (split; [apply Z.div_pos; lia | apply Z.div_lt_upper_bound; lia]).
  pose proof (Z.mod_pos_bound x 1024 ltac:(lia)) as Hm.
  assert (Eh : hi = 0xD800 + x / 1024).
  { unfold hi. rewrite Z.shiftr_div_pow2 by done. change (2 ^ 10) with 1024. apply (lor_disjoint_add _ _ 10); done. }
  assert (El : lo = 0xDC00 + x mod 1024).
  { unfold lo. rewrite (low_bits x 10) by done. change (2 ^ 10) with 1024. apply (lor_disjoint_add _ _ 10); done. }
  rewrite Z.shiftl_mul_pow2 by done. change (2 ^ 10) with 1024. pose proof (Z.div_mod x 1024 ltac:(lia)). lia.
Qed.

Lemma utf16_round fuel input count units out capacity : Forall is_byte input -> utf16_loop fuel input count = Some units -> 0xFFFF ∉ units ->
  out + alen input < capacity -> utf16_to_utf8 units out capacity = Some input /\ until_zero units = units.
Proof.
  revert input count units out. induction fuel as [|fuel IH]; intros input count units out Hb; [done|]. cbn [utf16_loop].
  destruct input as [|c0 input0]; [by intros [= <-]|]. set (input := c0 :: input0) in *. clearbody input.
  destruct (decode_utf8 input) as [[cp rest]|] eqn:Ed; [|done]. destruct (decode_encode _ _ _ Hb Ed) as (-> & Hcp & Hs).
  destruct (forbidden cp) eqn:Ef; [done|]. assert (0x20 <= cp) by (unfold forbidden in Ef; bool_prop; lia).
  apply Forall_app in Hb as (_ & Hb). pose proof (encode_length cp) as Hl.
  assert (Ha : alen (encode_utf8 cp ++ rest) = alen (encode_utf8 cp) + alen rest) by (unfold alen; rewrite length_app; lia). rewrite Ha.
  pose proof (alen_nonneg rest) as Hr. destruct (Z.leb_spec cp 0xFFFF) as [Hle|Hgt].
  - destruct (count =? 255); [done|]. destruct (utf16_loop fuel rest (count + 1)) as [us|] eqn:El; [|done]. intros [= <-] Hn Hcap.
    apply not_elem_of_cons in Hn as (Hn1 & Hn2). destruct (IH rest _ us (out + alen (encode_utf8 cp)) Hb El Hn2 ltac:(lia)) as (E1 & E2).
    cbn [utf16_to_utf8 until_zero]. rewrite E1, E2.
    destruct (Z.eqb_spec cp 0); [lia|]. destruct (Z.eqb_spec cp 0xFFFF); [done|]. cbn [orb].
    destruct ((0xD800 <=? cp) && (cp <=? 0xDBFF)) eqn:E3; [bool_prop; lia|]. destruct ((0xDC00 <=? cp) && (cp <=? 0xDFFF)) eqn:E4; [bool_prop; lia|].
    destruct (Z.leb_spec capacity (out + alen (encode_utf8 cp))); [lia|]. done.
  - destruct (253 <? count); [done|]. destruct (utf16_loop fuel rest (count + 2)) as [us|] eqn:El; [|done]. intros [= <-] Hn Hcap.
    destruct (surrogates cp ltac:(lia)) as (Hhi & Hlo & E). set (hi := Z.lor 0xD800 _) in *. set (lo := Z.lor 0xDC00 _) in *. clearbody hi lo.
    apply not_elem_of_cons in Hn as (_ & Hn). apply not_elem_of_cons in Hn as (_ & Hn).
    destruct (IH rest _ us (out + alen (encode_utf8 cp)) Hb El Hn ltac:(lia)) as (E1 & E2).
    cbn [utf16_to_utf8 until_zero]. rewrite E, E1, E2. destruct (Z.eqb_spec hi 0); [lia|]. destruct (Z.eqb_spec hi 0xFFFF); [lia|].
    destruct (Z.eqb_spec lo 0); [lia|]. cbn [orb]. destruct ((0xD800 <=? hi) && (hi <=? 0xDBFF)) eqn:E3; [|lia].
    destruct ((lo <? 0xDC00) || (0xDFFF <? lo)) eqn:E4; [lia|]. destruct (Z.leb_spec capacity (out + alen (encode_utf8 cp))); [lia|]. done.
Qed.

Lemma utf8_round input units capacity : Forall is_byte input -> utf8_to_utf16 input = Some units -> 0xFFFF ∉ units -> alen input < capacity ->
  utf16_to_utf8 units 0 capacity = Some input /\ until_zero units = units /\ 0 < alen units <= 255.
Proof.
  intros Hb. unfold utf8_to_utf16. destruct (_ || _); [done|]. destruct (utf16_loop _ _ _) as [us|] eqn:El; [|done].
  destruct (_ || _) eqn:E; [done|]. intros [= <-] Hn Hc. destruct (utf16_round _ _ _ _ 0 capacity Hb El Hn ltac:(lia)) as (E1 & E2).
  pose proof (alen_nonneg us). split_and!; [done | done | lia | lia].
Qed.

(** ** The long-name round trip *)

Definition unit_value (name : list Z) (k : Z) : Z := if k <? alen name then aget 0 name k else if k =? alen name then 0 else 0xFFFF.

Lemma read_write16 v : 0 <= v < 2 ^ 16 -> Z.lor (u8 v) (Z.shiftl (u8 (Z.shiftr v 8)) 8) = v.
Proof.
  intros Hv. rewrite Z.lor_comm, Z.shiftr_div_pow2 by done. unfold u8. rewrite lor_shiftl_add by (done || (apply Z.mod_pos_bound; lia)).
  rewrite (Z.mod_small (v / 2 ^ 8)) by (split; [apply Z.div_pos; lia | apply Z.div_lt_upper_bound; lia]).
  pose proof (Z.div_mod v (2 ^ 8) ltac:(lia)). lia.
Qed.

(** The 32 bytes of an entry. *)
Lemma long_entry_bytes name sum ordinal highest :
  let v j := unit_value name ((ordinal - 1) * 13 + j) in
  let lo j := u8 (v j) in
  let hi j := u8 (Z.shiftr (v j) 8) in
  long_entry name sum ordinal highest =
    [u8 (Z.lor ordinal (if highest then 0x40 else 0)); lo 0; hi 0; lo 1; hi 1; lo 2; hi 2; lo 3; hi 3; lo 4; hi 4; 0x0F; 0; sum;
     lo 5; hi 5; lo 6; hi 6; lo 7; hi 7; lo 8; hi 8; lo 9; hi 9; lo 10; hi 10; 0; 0; lo 11; hi 11; lo 12; hi 12].
Proof. reflexivity. Qed.

Lemma unit_value_range name k : Forall (fun u => 0 < u < 2 ^ 16) name -> 0 <= unit_value name k < 2 ^ 16.
Proof.
  intros Hn. unfold unit_value. destruct (k <? alen name); [|by destruct (k =? alen name)].
  apply (Forall_aget (fun u => 0 <= u < 2 ^ 16)); [|done]. eapply Forall_impl; [exact Hn|]. simpl. lia.
Qed.

Lemma long_entry_unit name sum ordinal highest j : Forall (fun u => 0 < u < 2 ^ 16) name -> 0 <= j < 13 ->
  read16 (long_entry name sum ordinal highest) (position j) = unit_value name ((ordinal - 1) * 13 + j).
Proof.
  intros Hn Hj. rewrite long_entry_bytes. pose proof (unit_value_range name ((ordinal - 1) * 13 + j) Hn) as Hv.
  assert (j = 0 \/ j = 1 \/ j = 2 \/ j = 3 \/ j = 4 \/ j = 5 \/ j = 6 \/ j = 7 \/ j = 8 \/ j = 9 \/ j = 10 \/ j = 11 \/ j = 12) as Hc by lia.
  repeat (destruct Hc as [->|Hc]; [exact (read_write16 _ Hv)|]). subst j. exact (read_write16 _ Hv).
Qed.

Lemma store_units (f : Z -> Z) base (l : list Z) : 0 <= base -> base + 13 <= alen l ->
  let l' := for_up (trips 0 13) 0 (fun i units => aset units (base + i) (f i)) l in
  alen l' = alen l /\ forall k, 0 <= k -> aget 0 l' k = if (base <=? k) && (k <? base + 13) then f (k - base) else aget 0 l k.
Proof.
  intros Hb Hl. apply (for_up_ind (fun n l' => 0 <= n <= 13 -> alen l' = alen l /\ forall k, 0 <= k ->
    aget 0 l' k = if (base <=? k) && (k <? base + n) then f (k - base) else aget 0 l k) _ (trips 0 13) 0 l); [| |done].
  - intros _. split; [done|]. intros k Hk. destruct (_ && _) eqn:E; [lia | done].
  - intros j t Hj IH Hj1. change (0 + Z.of_nat (trips 0 13)) with 13 in Hj. destruct (IH ltac:(lia)) as (E1 & E2). rewrite alen_aset. split; [done|].
    intros k Hk. rewrite aget_aset by lia. case_decide as Ek.
    + subst k. destruct (_ && _) eqn:E; [f_equal; lia | lia].
    + rewrite E2 by done. destruct ((base <=? k) && (k <? base + j)) eqn:E3, ((base <=? k) && (k <? base + (j + 1))) eqn:E4; lia || done.
Qed.

Lemma ordinal_bits o : 1 <= o <= 20 ->
  let plain := u8 (Z.lor o 0) in let top := u8 (Z.lor o 0x40) in
  has plain 0xA0 = false /\ has plain 0x40 = false /\ Z.land plain 0x1F = o /\ has top 0xA0 = false /\ has top 0x40 = true /\ Z.land top 0x1F = o.
Proof.
  intros Ho. assert (Hall : forallb (fun o => let plain := u8 (Z.lor o 0) in let top := u8 (Z.lor o 0x40) in
    negb (has plain 0xA0) && negb (has plain 0x40) && (Z.land plain 0x1F =? o) && negb (has top 0xA0) && has top 0x40 && (Z.land top 0x1F =? o))
    (seqZ 1 20) = true) by (vm_compute; reflexivity).
  rewrite forallb_forall in Hall. specialize (Hall o). cbv zeta. rewrite <- list_elem_of_In, elem_of_seqZ in Hall. specialize (Hall ltac:(lia)).
  cbv zeta in Hall. bool_prop. done.
Qed.

(** The state when the entries above [m] of the [n] of a name have been read. *)
Definition lfn_part (name : list Z) (sum n m : Z) (s : lfn_state) : Prop :=
  active s = true /\ checksum s = sum /\ expected_ordinal s = m /\ total_ordinals s = n /\ alen (units s) = 260 /\
  forall k, 13 * m <= k < 13 * n -> aget 0 (units s) k = unit_value name k.

Lemma lfn_add_step name sum n m (highest : bool) s : Forall (fun u => 0 < u < 2 ^ 16) name -> 1 <= m <= n -> n <= 20 ->
  (if highest then m = n else lfn_part name sum n m s) ->
  lfn_part name sum n (m - 1) (lfn_add_entry s (long_entry name sum m highest)).
Proof.
  intros Hname Hm Hn Hs. set (e := long_entry name sum m highest).
  assert (Hs0 : exists s0, lfn_part name sum n m s0 /\ lfn_add_entry s e =
    mk_lfn (for_up (trips 0 13) 0 (fun i units => aset units ((m - 1) * 13 + i) (read16 e (position i))) (units s0)) (checksum s0)
      (u8 (expected_ordinal s0 - 1)) (total_ordinals s0) (active s0)).
  { destruct (ordinal_bits m ltac:(lia)) as (H1 & H2 & H3 & H4 & H5 & H6). unfold lfn_add_entry.
    assert (E0 : byte e 0 = u8 (Z.lor m (if highest then 0x40 else 0))) by reflexivity. assert (E13 : byte e 13 = sum) by reflexivity.
    assert (E12 : byte e 12 = 0) by reflexivity. assert (E26 : read16 e 26 = 0) by reflexivity. rewrite E0, E13, E12, E26.
    destruct highest.
    - rewrite H4, H5, H6. exists (mk_lfn (replicate 260 0xFFFF) sum m m ((0 <? m) && (m <=? 20))). cbn [active expected_ordinal checksum].
      assert (Ea : (0 <? m) && (m <=? 20) = true) by lia. rewrite Ea, !Z.eqb_refl. cbn [negb orb]. split; [|done]. subst m.
      unfold lfn_part. cbn [active checksum expected_ordinal total_ordinals units]. split_and!; try done. intros k Hk. lia.
    - rewrite H1, H2, H3. destruct Hs as (Ea & Ec & Ee & Ht & Hl & Hu). exists s. rewrite Ea, Ee, Ec, !Z.eqb_refl. cbn [negb orb].
      split; [|done]. unfold lfn_part. rewrite Ea, Ec, Ee, Ht. done. }
  destruct Hs0 as (s0 & (Ea & Ec & Ee & Ht & Hl & Hu) & ->).
  destruct (store_units (fun i => read16 e (position i)) ((m - 1) * 13) (units s0)) as (Hl' & Hu'); [lia | lia |].
  unfold lfn_part. cbn [active checksum expected_ordinal total_ordinals units]. rewrite Ea, Ec, Ee, Ht, u8_small by lia.
  split_and!; try done; [lia|]. intros k Hk. rewrite Hu' by lia. destruct (_ && _) eqn:E.
  - unfold e. rewrite long_entry_unit by (done || lia). f_equal. lia.
  - apply Hu. lia.
Qed.


(** The entries of a name in the order they lie on the disk. *)
Definition long_entries (name : list Z) : Z := (alen name + 12) / 13.
Definition lfn_items (name : list Z) (sum : Z) : list (list Z) :=
  (fun i => let n := long_entries name in long_entry name sum (n - Z.of_nat i) (bool_decide (i = 0%nat))) <$> seq 0 (Z.to_nat (long_entries name)).

Lemma long_entries_range name : 0 < alen name <= 255 -> 1 <= long_entries name <= 20 /\ alen name <= 13 * long_entries name.
Proof. unfold long_entries. intros Hn. pose proof (Z.div_mod (alen name + 12) 13 ltac:(lia)). pose proof (Z.mod_pos_bound (alen name + 12) 13 ltac:(lia)). lia. Qed.

Lemma lfn_items_read name sum s : Forall (fun u => 0 < u < 2 ^ 16) name -> 0 < alen name <= 255 ->
  lfn_part name sum (long_entries name) 0 (foldl lfn_add_entry s (lfn_items name sum)).
Proof.
  intros Hname Hl. destruct (long_entries_range name Hl) as (Hn & _). unfold lfn_items. set (n := long_entries name) in *.
  assert (Hall : forall k, (1 <= k <= Z.to_nat n)%nat -> lfn_part name sum n (n - Z.of_nat k) (foldl lfn_add_entry s
    ((fun i => long_entry name sum (n - Z.of_nat i) (bool_decide (i = 0%nat))) <$> seq 0 k))).
  { induction k as [|k IH]; intros Hk; [lia|]. rewrite seq_S, fmap_app, foldl_app. cbn [fmap list_fmap foldl Nat.add].
    replace (n - Z.of_nat (S k)) with (n - Z.of_nat k - 1) by lia. apply lfn_add_step; [done | lia | lia |].
    destruct k as [|k]; [rewrite bool_decide_true by done; lia|]. rewrite bool_decide_false by done. apply IH. lia. }
  specialize (Hall (Z.to_nat n) ltac:(lia)). by replace (n - Z.of_nat (Z.to_nat n)) with 0 in Hall by lia.
Qed.

Lemma until_zero_app name rest : Forall (fun u => 0 < u < 2 ^ 16) name -> until_zero (name ++ rest) = name ++ until_zero rest.
Proof. induction 1 as [|u name Hu _ IH]; [done|]. cbn. destruct (Z.eqb_spec u 0); [lia|]. by rewrite IH. Qed.

Lemma units_name name n (l : list Z) : Forall (fun u => 0 < u < 2 ^ 16) name -> alen name <= n <= alen l ->
  (forall k, 0 <= k < n -> aget 0 l k = unit_value name k) -> until_zero (take (Z.to_nat n) l) = name.
Proof.
  intros Hname Hn Hl.
  assert (Ht : take (length name) l = name).
  { apply list_eq_same_length with (length name); [done | rewrite length_take; unfold alen in Hn; lia |].
    intros i x y Hi Hx Hy. rewrite lookup_take_lt in Hx by done. specialize (Hl (Z.of_nat i) ltac:(unfold alen in Hn; lia)).
    unfold unit_value, aget, alen in Hl. rewrite Nat2Z.id, Hx, Hy in Hl. destruct (Z.ltb_spec (Z.of_nat i) (Z.of_nat (length name))); [done | lia]. }
  rewrite <- (take_drop (length name) (take (Z.to_nat n) l)), take_take, Nat.min_l by (unfold alen in Hn; lia). rewrite Ht, until_zero_app by done.
  destruct (drop (length name) (take (Z.to_nat n) l)) as [|u rest] eqn:E; [apply app_nil_r|]. cbn [until_zero].
  assert (Eu : take (Z.to_nat n) l !! length name = Some u) by (pose proof (lookup_drop (take (Z.to_nat n) l) (length name) 0) as Hd; rewrite E, Nat.add_0_r in Hd; by symmetry).
  apply lookup_take_Some in Eu as (Eu & Hlt). specialize (Hl (alen name) ltac:(unfold alen; lia)). unfold unit_value, aget in Hl.
  replace (Z.to_nat (alen name)) with (length name) in Hl by (unfold alen; lia). rewrite Eu, Z.ltb_irrefl, Z.eqb_refl in Hl. cbn in Hl. subst u. apply app_nil_r.
Qed.

Lemma utf16_units fuel input count units : Forall is_byte input -> utf16_loop fuel input count = Some units -> Forall (fun u => 0 < u < 2 ^ 16) units.
Proof.
  revert input count units. induction fuel as [|fuel IH]; intros input count units Hb; [done|]. cbn [utf16_loop].
  destruct input as [|c0 input0]; [intros [= <-]; constructor|]. set (input := c0 :: input0) in *. clearbody input.
  destruct (decode_utf8 input) as [[cp rest]|] eqn:Ed; [|done]. destruct (decode_encode _ _ _ Hb Ed) as (-> & Hcp & Hs).
  destruct (forbidden cp) eqn:Ef; [done|]. assert (0x20 <= cp) by (unfold forbidden in Ef; bool_prop; lia).
  apply Forall_app in Hb as (_ & Hb). destruct (Z.leb_spec cp 0xFFFF).
  - destruct (count =? 255); [done|]. destruct (utf16_loop fuel rest (count + 1)) as [us|] eqn:El; [|done]. intros [= <-].
    constructor; [lia | by eapply IH].
  - destruct (253 <? count); [done|]. destruct (utf16_loop fuel rest (count + 2)) as [us|] eqn:El; [|done]. intros [= <-].
    destruct (surrogates cp ltac:(lia)) as (Hhi & Hlo & _). constructor; [lia|]. constructor; [lia | by eapply IH].
Qed.

Lemma utf8_units input units : Forall is_byte input -> utf8_to_utf16 input = Some units -> Forall (fun u => 0 < u < 2 ^ 16) units.
Proof.
  intros Hb. unfold utf8_to_utf16. destruct (_ || _); [done|]. destruct (utf16_loop _ _ _) as [us|] eqn:El; [|done].
  destruct (_ || _); [done|]. intros [= <-]. by eapply utf16_units.
Qed.

Lemma long_roundtrip name us short s capacity : Forall is_byte name -> utf8_to_utf16 name = Some us -> 0xFFFF ∉ us -> alen name < capacity ->
  lfn_decode (foldl lfn_add_entry s (lfn_items us (lfn_checksum short))) short capacity = Some name.
Proof.
  intros Hb Hu Hf Hc. destruct (utf8_round _ _ _ Hb Hu Hf Hc) as (E & Ez & Hl). pose proof (utf8_units _ _ Hb Hu) as Hus.
  destruct (lfn_items_read us (lfn_checksum short) s Hus Hl) as (Ea & Ec & Ee & Et & Hlen & Hval).
  destruct (long_entries_range us Hl) as (Hn & Hle). unfold lfn_decode. rewrite Ea, Ec, Ee, Et, !Z.eqb_refl. cbn [negb orb].
  rewrite (units_name us) by (done || lia || (intros k Hk; apply Hval; lia)). exact E.
Qed.



(** A name with U+FFFF is accepted, but its entries decode to the part of
    the name before it: 0xFFFF fills the units behind the end of a name. *)
Theorem long_name_cut : let name := str "a" ++ [0xEF; 0xBF; 0xBF] ++ str "b" in
  exists us, utf8_to_utf16 name = Some us /\
    lfn_decode (foldl lfn_add_entry (mk_lfn [] 0 0 0 false) (lfn_items us (lfn_checksum (str "AB~1       ")))) (str "AB~1       ") 768 = Some (str "a").
Proof. exists [97; 0xFFFF; 98]. split; vm_compute; reflexivity. Qed.

End FatNames.
