(* ===== verification/Fat.v ===== *)
(** * Fat: the FAT32 file system of src/fs/fat32.c

    Every function of the file over a block device.  A function that can fail
    is a computation of the monad [io]: it takes the device, and gives a result
    or nothing, and the device after it; [return 0] is [failed].  Paths and
    names are never NULL, the callers in src/fs/vfs.c pass arrays. *)

From S2P Require Import Prelude CString Block FatNames Path.
Import CString.CString Block.Block FatNames.FatNames.
Local Open Scope Z_scope.

Module Fat.

(** ** Computations on the device *)

Definition io (D A : Type) : Type := D -> option A * D.

#[export] Instance io_ret {D} : MRet (io D) := fun A a d => (Some a, d).
#[export] Instance io_bind {D} : MBind (io D) := fun A B f m d =>
  match m d with
  | (Some a, d) => f a d
  | (None, d) => (None, d)
  end.

Definition failed {D A} : io D A := fun d => (None, d).
Definition check {D} (b : bool) : io D unit := if b then mret tt else failed.
(** A failure the caller goes on from. *)
Definition attempt {D A} (m : io D A) : io D (option A) := fun d => let '(r, d) := m d in (Some r, d).

(** The C functions that return a truth value. *)
Definition truth {D A} (m : io D A) (d : D) : bool * D := let '(r, d) := m d in (bool_decide (is_Some r), d).

(** ** The volume *)

Record volume := mk_volume {
  mounted : bool; root_cluster : Z; sectors_per_cluster : Z; data_start_sector : Z; fat_start_sector : Z; fat_count : Z; fat_sectors : Z }.

Record fat32_entry := mk_entry { e_cluster : Z; e_size : Z; attributes : Z }.

Definition SECTOR : Z := 512.
Definition ENTRY : Z := 32.
Definition END_OF_CHAIN : Z := 0x0FFFFFFF.
Definition CHAIN_LIMIT : Z := 0x0FFFFFF8.
Definition MAX_CHAIN : Z := 65536.
Definition DIRECTORY : Z := 0x10.
Definition LONG_NAME : Z := 0x0F.
Definition VOLUME_LABEL : Z := 0x08.
Definition DELETED : Z := 0xE5.

Definition in_chain (cluster : Z) : bool := (2 <=? cluster) && (cluster <? CHAIN_LIMIT).
Definition zero_sector : list Z := replicate 512 0.

Section Volume.
Context {D : Type} `{BlockDevice D}.

Definition read (n : Z) : io D (list Z) := block_read_sector n.
Definition write (n : Z) (data : list Z) : io D unit := fun d =>
  let '(ok, d) := block_write_sector n data d in (if ok then Some tt else None, d).

(** A volume whose boot sector is not valid keeps the fields it read. *)
Definition fat32_mount (g : volume) (d : D) : bool * volume * D :=
  let g := mk_volume false (root_cluster g) (sectors_per_cluster g) (data_start_sector g) (fat_start_sector g) (fat_count g) (fat_sectors g) in
  if negb (block_ready d) then (false, g, d)
  else
    match block_read_sector 0 d with
    | (None, d) => (false, g, d)
    | (Some sector, d) =>
        let bytes_per_sector := read16 sector 11 in
        let reserved_sectors := read16 sector 14 in
        let g := mk_volume false (read32 sector 44) (byte sector 13) (data_start_sector g) (fat_start_sector g) (byte sector 16) (read32 sector 36) in
        if negb (bytes_per_sector =? 512) || (sectors_per_cluster g =? 0) || (reserved_sectors =? 0) || (fat_count g =? 0) || (fat_sectors g =? 0) ||
           (root_cluster g <? 2) || negb (byte sector 510 =? 0x55) || negb (byte sector 511 =? 0xAA)
        then (false, g, d)
        else
          (true, mk_volume true (root_cluster g) (sectors_per_cluster g) (u32 (reserved_sectors + u32 (fat_count g * fat_sectors g))) reserved_sectors
             (fat_count g) (fat_sectors g), d)
    end.

Context (g : volume).

(** ** The table *)

Definition fat_offset (cluster : Z) : Z := u32 (cluster * 4).
Definition fat_sector (copy cluster : Z) : Z := u32 (fat_start_sector g + u32 (copy * fat_sectors g) + fat_offset cluster / SECTOR).

Fixpoint update_copies (n : nat) (copy cluster value : Z) : io D unit :=
  match n with
  | O => mret tt
  | S n =>
      let target := fat_sector copy cluster in
      sector ← read target;
      _ ← write target (write32 sector (fat_offset cluster mod SECTOR) value);
      update_copies n (copy + 1) cluster value
  end.
Definition update_fat (cluster value : Z) : io D unit := update_copies (trips 0 (fat_count g)) 0 cluster value.

(** The value in the first copy. *)
Definition table_value (sector : list Z) (cluster : Z) : Z := read32 sector (fat_offset cluster mod SECTOR) &! 0x0FFFFFFF.
Definition table_sector (cluster : Z) : Z := u32 (fat_start_sector g + fat_offset cluster / SECTOR).

Fixpoint allocate_from (n : nat) (cluster : Z) : io D Z :=
  match n with
  | O => failed
  | S n =>
      sector ← read (table_sector cluster);
      if table_value sector cluster =? 0 then
        marked ← attempt (update_fat cluster END_OF_CHAIN);
        match marked with Some _ => mret cluster | None => allocate_from n (cluster + 1) end
      else allocate_from n (cluster + 1)
  end.
Definition allocate_cluster : io D Z := allocate_from (trips 2 (u32 (fat_sectors g * 128))) 2.

Definition next_cluster (cluster : Z) : io D Z :=
  sector ← attempt (read (table_sector cluster));
  mret (match sector with Some sector => table_value sector cluster | None => END_OF_CHAIN end).

Definition cluster_sector (cluster : Z) : Z := u32 (data_start_sector g + u32 (u32 (cluster - 2) * sectors_per_cluster g)).

(** ** Walking a directory *)

Section Scan.
Context {S R : Type} (step : S -> Z -> Z -> list Z -> S + R).

(** The entries of one sector, from an offset on. *)
Fixpoint scan_entries (n : nat) (number offset : Z) (sector : list Z) (s : S) : S + R :=
  match n with
  | O => inl s
  | Datatypes.S n =>
      match step s number offset (take 32 (drop (Z.to_nat offset) sector)) with
      | inl s => scan_entries n number (offset + ENTRY) sector s
      | inr r => inr r
      end
  end.

Fixpoint scan_sectors (n : nat) (number : Z) (s : S) : io D (S + R) :=
  match n with
  | O => mret (inl s)
  | Datatypes.S n =>
      sector ← read number;
      match scan_entries 16 number 0 sector s with
      | inl s => scan_sectors n (u32 (number + 1)) s
      | inr r => mret (inr r)
      end
  end.

(** The chain of clusters; the last one when the walk comes to its end. *)
Fixpoint scan_chain (n : nat) (cluster last : Z) (s : S) : io D (S * Z + R) :=
  match n with
  | O => mret (inl (s, last))
  | Datatypes.S n =>
      if negb (in_chain cluster) then mret (inl (s, last))
      else
        r ← scan_sectors (trips 0 (sectors_per_cluster g)) (cluster_sector cluster) s;
        match r with
        | inr r => mret (inr r)
        | inl s => next ← next_cluster cluster; scan_chain n next cluster s
        end
  end.

Definition scan (directory : Z) (s : S) : io D (S * Z + R) := scan_chain (Z.to_nat MAX_CHAIN) directory directory s.

End Scan.

Definition lfn_start : lfn_state := mk_lfn (replicate 260 0) 0 0 0 false.
Definition NAME_CAPACITY : Z := 768.

Definition entry_of (entry : list Z) : fat32_entry :=
  mk_entry (Z.shiftl (read16 entry 20) 16 |! read16 entry 26) (read32 entry 28) (byte entry 11).

(** [inr None] is the end of the directory. *)
Definition find_step (name : cstr) (wanted : option (list Z)) (lfn : lfn_state) (number offset : Z) (entry : list Z) :
    lfn_state + option (fat32_entry * Z * Z) :=
  let initial := byte entry 0 in
  if initial =? 0 then inr None
  else if initial =? DELETED then inl (lfn_reset lfn)
  else if byte entry 11 =? LONG_NAME then inl (lfn_add_entry lfn entry)
  else if has (byte entry 11) VOLUME_LABEL then inl (lfn_reset lfn)
  else
    let short_match := match wanted with Some wanted => bool_decide (take 11 entry = wanted) | None => false end in
    let long_match := match lfn_decode lfn entry NAME_CAPACITY with Some decoded => path_name_equal name decoded | None => false end in
    if negb short_match && negb long_match then inl (lfn_reset lfn) else inr (Some (entry_of entry, number, offset)).

Definition find_entry (directory : Z) (name : cstr) : io D (fat32_entry * Z * Z) :=
  r ← scan (find_step name (short_name name)) directory lfn_start;
  match r with inr (Some found) => mret found | _ => failed end.

(** ** New entries *)

Definition alias_step (alias : list Z) (_ : unit) (_ _ : Z) (entry : list Z) : unit + bool :=
  if byte entry 0 =? 0 then inr false
  else if (byte entry 0 =? DELETED) || (byte entry 11 =? LONG_NAME) then inl tt
  else if bool_decide (take 11 entry = alias) then inr true
  else inl tt.

Definition short_alias_exists (directory : Z) (alias : list Z) : io D bool :=
  r ← attempt (scan (alias_step alias) directory tt);
  mret (match r with None => true | Some (inr b) => b | Some (inl _) => false end).

Definition alphanumeric (c : Z) : bool := ((65 <=? c) && (c <=? 90)) || ((48 <=? c) && (c <=? 57)).
(** The letters and digits of a name, in upper case, the first [n] of them. *)
Definition plain (n : nat) (name : cstr) : list Z := take n (filter (fun c => alphanumeric c = true) (upper <$> name)).

Definition last_dot (name : cstr) : option nat :=
  match list_find (fun c => c = DOT) (reverse name) with Some (i, _) => Some (length name - 1 - i)%nat | None => None end.

Fixpoint digits (fuel : nat) (value : Z) : list Z :=
  match fuel with
  | O => []
  | S fuel => (if value / 10 =? 0 then [] else digits fuel (value / 10)) ++ [48 + value mod 10]
  end.

Definition pad (n : nat) (l : list Z) : list Z := l ++ replicate (n - length l) BLANK.

Definition TILDE : Z := 126.
Definition UNDERSCORE : Z := 95.

Definition alias_base (name : cstr) : list Z :=
  let base := plain 8 (match last_dot name with Some dot => take dot name | None => name end) in
  if bool_decide (base = []) then [UNDERSCORE] else base.
Definition alias_extension (name : cstr) : list Z :=
  match last_dot name with Some dot => plain 3 (drop (S dot) name) | None => [] end.
Definition numbered_alias (name : cstr) (number : Z) : list Z :=
  let number := digits 7 number in
  pad 8 (take (7 - length number) (alias_base name) ++ TILDE :: number) ++ pad 3 (alias_extension name).

Fixpoint free_alias (n : nat) (number directory : Z) (name : cstr) : io D (list Z) :=
  match n with
  | O => failed
  | S n =>
      let alias := numbered_alias name number in
      exists_ ← short_alias_exists directory alias;
      if negb exists_ then mret alias else free_alias n (number + 1) directory name
  end.

(** The alias, and whether the name needs long entries. *)
Definition make_short_alias (directory : Z) (name : cstr) : io D (list Z * bool) :=
  match short_name name with
  | Some alias => mret (alias, negb (canonical_short_name name alias))
  | None => alias ← free_alias (trips 1 1000000) 1 directory name; mret (alias, true)
  end.

(** Free entries in a row: those found since the last one in use. *)
Definition slot_step (required : Z) (s : list (Z * Z) * bool) (number offset : Z) (entry : list Z) : (list (Z * Z) * bool) + list (Z * Z) :=
  let '(slots, end_seen) := s in
  let end_seen := end_seen || (byte entry 0 =? 0) in
  if end_seen || (byte entry 0 =? DELETED) then
    let slots := if alen slots <? required then slots ++ [(number, offset)] else slots in
    if alen slots =? required then inr slots else inl (slots, end_seen)
  else inl ([], end_seen).

Definition sector_slots (number : Z) : list (Z * Z) := (fun i => (number, ENTRY * Z.of_nat i)) <$> seq 0 16.

(** The sectors of a new cluster; [inr] when there are slots enough. *)
Fixpoint clear_slots (n : nat) (number required : Z) (slots : list (Z * Z)) : io D (list (Z * Z) + list (Z * Z)) :=
  match n with
  | O => mret (inl slots)
  | S n =>
      _ ← write number zero_sector;
      let room := slots ++ sector_slots number in
      if required <? alen room then mret (inr (take (Z.to_nat required) room)) else clear_slots n (u32 (number + 1)) required room
  end.

Fixpoint extend_directory (fuel : nat) (last required : Z) (slots : list (Z * Z)) : io D (list (Z * Z)) :=
  match fuel with
  | O => failed
  | S fuel =>
      if negb (alen slots <? required) then mret slots
      else
        added ← allocate_cluster;
        _ ← update_fat last added;
        r ← clear_slots (trips 0 (sectors_per_cluster g)) (cluster_sector added) required slots;
        match r with inr slots => mret slots | inl slots => extend_directory fuel added required slots end
  end.

Definition find_free_slots (directory required : Z) : io D (list (Z * Z)) :=
  r ← scan (slot_step required) directory ([], false);
  match r with
  | inr slots => mret slots
  | inl ((slots, _), last) => extend_directory (S (Z.to_nat required)) last required slots
  end.

(** [for (j...) sector[offset + j] = item[j]] *)
Definition put_entry (sector : list Z) (offset : Z) (item : list Z) : list Z :=
  for_up (trips 0 ENTRY) 0 (fun j sector => aset sector (offset + j) (byte item j)) sector.

Definition store_entry (slot : Z * Z) (item : list Z) : io D unit :=
  sector ← read (fst slot);
  write (fst slot) (put_entry sector (snd slot) item).

Fixpoint store_entries (slots : list (Z * Z)) (items : list (list Z)) : io D unit :=
  match slots, items with
  | slot :: slots, item :: items => _ ← store_entry slot item; store_entries slots items
  | _, _ => mret tt
  end.

Definition create_named_entry (directory : Z) (name : cstr) (attributes first_cluster : Z) : io D unit :=
  existing ← attempt (find_entry directory name);
  match existing with
  | Some _ => failed
  | None =>
      match utf8_to_utf16 name with
      | None => failed
      | Some units =>
          a ← make_short_alias directory name;
          let '(alias, needs_long_name) := (a : list Z * bool) in
          let items := if needs_long_name then lfn_items units (lfn_checksum alias) else [] in
          let entry_count := alen items + 1 in
          _ ← check (entry_count <=? 21);
          slots ← find_free_slots directory entry_count;
          store_entries slots (items ++ [short_entry alias attributes first_cluster])
      end
  end.


(** ** Removing an entry *)

(** The entry with the long entries in front of it. *)
Definition delete_step (target_sector target_offset : Z) (s : lfn_state * list (Z * Z)) (number offset : Z) (entry : list Z) :
    (lfn_state * list (Z * Z)) + option (list (Z * Z)) :=
  let '(lfn, long_slots) := s in
  if byte entry 0 =? 0 then inr None
  else if byte entry 0 =? DELETED then inl (lfn_reset lfn, [])
  else if byte entry 11 =? LONG_NAME then
    let lfn := lfn_add_entry lfn entry in
    inl (lfn, if active lfn && (alen long_slots <? 20) then long_slots ++ [(number, offset)] else [])
  else if (number =? target_sector) && (offset =? target_offset) then
    inr (Some (if bool_decide (is_Some (lfn_decode lfn entry NAME_CAPACITY)) then long_slots else []))
  else inl (lfn_reset lfn, []).

Definition delete_slot (slot : Z * Z) : io D unit :=
  sector ← read (fst slot);
  write (fst slot) (aset sector (snd slot) DELETED).

Fixpoint delete_slots (slots : list (Z * Z)) : io D unit :=
  match slots with
  | [] => mret tt
  | slot :: slots => _ ← delete_slot slot; delete_slots slots
  end.

Definition mark_entry_deleted (directory target_sector target_offset : Z) : io D unit :=
  r ← scan (delete_step target_sector target_offset) directory (lfn_start, []);
  match r with
  | inr (Some long_slots) => _ ← delete_slots long_slots; delete_slot (target_sector, target_offset)
  | _ => failed
  end.

(** A chain is freed cluster by cluster; no more than there are cluster numbers. *)
Definition free_step (s : Z * D) : (Z * D) + (bool * D) :=
  let '(cluster, d) := s in
  if negb (in_chain cluster) then inr (true, d)
  else
    match next_cluster cluster d with
    | (None, d) => inr (false, d)
    | (Some next, d) =>
        match update_fat cluster 0 d with
        | (None, d) => inr (false, d)
        | (Some _, d) => inl (next, d)
        end
    end.
Definition free_chain (cluster : Z) : io D unit := fun d =>
  match run_until (Z.to_pos CHAIN_LIMIT) free_step (cluster, d) with
  | inr (true, d) => (Some tt, d)
  | inr (false, d) => (None, d)
  | inl (_, d) => (None, d)
  end.

(** ** Paths *)

Fixpoint resolve_from (fuel : nat) (path : cstr) (current : Z) : io D Z :=
  match fuel with
  | O => failed
  | S fuel =>
      match path with
      | [] => mret current
      | _ =>
          let '(part, rest) := Path.Path.span_component path in
          let rest := Path.Path.skip_slashes rest in
          if Path.Path.FS_PATH_MAX - 1 <? alen part then failed
          else if bool_decide (part = []) || bool_decide (part = [DOT]) then resolve_from fuel rest current
          else if bool_decide (part = [DOT; DOT]) then failed
          else
            found ← find_entry current part;
            let '(entry, _, _) := (found : fat32_entry * Z * Z) in
            if negb (has (attributes entry) DIRECTORY) || (e_cluster entry <? 2) then failed
            else resolve_from fuel rest (e_cluster entry)
      end
  end.

Definition resolve_directory (path : cstr) : io D Z :=
  if negb (mounted g) then failed
  else let path := Path.Path.skip_slashes path in resolve_from (S (length path)) path (root_cluster g).

(** The parent and the leaf. *)
Definition split_parent (path : cstr) : option (cstr * cstr) :=
  if bool_decide (path = []) || (Path.Path.FS_PATH_MAX <? alen path) then None
  else
    let path := rev (Path.Path.skip_slashes (rev path)) in
    if bool_decide (path = []) then None
    else
      let '(leaf, front) := Path.Path.span_component (rev path) in
      let leaf := rev leaf in
      let parent := rev (drop 1 front) in
      if bool_decide (leaf = []) || (Path.Path.FS_PATH_MAX <=? alen leaf) || (Path.Path.FS_PATH_MAX <=? alen parent) then None
      else Some (parent, leaf).

(** The cluster of the parent and the leaf. *)
Definition open_parent (path : cstr) : io D (Z * cstr) :=
  match split_parent path with
  | None => failed
  | Some (parent, leaf) => directory ← resolve_directory parent; mret (directory, leaf)
  end.

Definition locate_path_entry (path : cstr) : io D (Z * fat32_entry * Z * Z) :=
  p ← open_parent path;
  let '(parent, leaf) := (p : Z * cstr) in
  found ← find_entry parent leaf;
  let '(entry, sector, offset) := (found : fat32_entry * Z * Z) in
  mret (parent, entry, sector, offset).

(** ** Directories *)

Record dirent := mk_dirent { d_name : cstr; d_size : Z; d_type : Z }.
Definition FS_DIRENT_FILE : Z := 1.
Definition FS_DIRENT_DIRECTORY : Z := 2.

Definition readdir_step (index : Z) (s : lfn_state * Z) (number offset : Z) (entry : list Z) : (lfn_state * Z) + option dirent :=
  let '(lfn, visible) := s in
  if byte entry 0 =? 0 then inr None
  else if byte entry 0 =? DELETED then inl (lfn_reset lfn, visible)
  else if byte entry 11 =? LONG_NAME then inl (lfn_add_entry lfn entry, visible)
  else if has (byte entry 11) VOLUME_LABEL then inl (lfn_reset lfn, visible)
  else if negb (visible =? index) then inl (lfn_reset lfn, visible + 1)
  else
    inr (Some (mk_dirent (default (display_name entry) (lfn_decode lfn entry NAME_CAPACITY)) (read32 entry 28)
      (if has (byte entry 11) DIRECTORY then FS_DIRENT_DIRECTORY else FS_DIRENT_FILE))).

(** 1 with an entry, 0 at the end, -1 for an error. *)
Definition fat32_readdir (path : cstr) (index : Z) : D -> (Z * option dirent) * D := fun d =>
  let m := directory ← resolve_directory path; scan (readdir_step index) directory (lfn_start, 0) in
  match m d with
  | (None, d) => ((-1, None), d)
  | (Some (inr (Some entry)), d) => ((1, Some entry), d)
  | (Some _, d) => ((0, None), d)
  end.

Definition fat32_is_directory (path : cstr) : D -> bool * D := truth (resolve_directory path).

Fixpoint clear_sectors (n : nat) (number : Z) : io D unit :=
  match n with
  | O => mret tt
  | S n => _ ← write number zero_sector; clear_sectors n (u32 (number + 1))
  end.

(** The entries "." and ".." at the front of the sector. *)
Definition dot_entries (sector : list Z) (child parent : Z) : list Z :=
  let dot := for_up (trips 0 32) 0 (fun i dot => aset dot i 0) sector in
  let dot := for_up (trips 0 11) 0 (fun i dot => aset dot i (if i =? 0 then DOT else BLANK)) dot in
  let dot := write16 (write16 (aset dot 11 DIRECTORY) 20 (u16 (child >>! 16))) 26 (u16 child) in
  let dot := for_up (trips 0 11) 0 (fun i dot => aset dot (32 + i) (if i <? 2 then DOT else BLANK)) dot in
  write16 (write16 (aset dot 43 DIRECTORY) 52 (u16 (parent >>! 16))) 58 (u16 parent).

(** The cluster is given back when the work on it fails. *)
Definition or_release (child : Z) (m : io D unit) : io D unit :=
  done ← attempt m;
  match done with
  | Some _ => mret tt
  | None => _ ← attempt (update_fat child 0); failed
  end.

Definition fat32_make_directory (path : cstr) : D -> bool * D := truth (
  p ← open_parent path;
  let '(parent, leaf) := (p : Z * cstr) in
  child ← allocate_cluster;
  _ ← clear_sectors (trips 0 (sectors_per_cluster g)) (cluster_sector child);
  sector ← read (cluster_sector child);
  or_release child (_ ← write (cluster_sector child) (dot_entries sector child parent); create_named_entry parent leaf DIRECTORY child)).

(** Whether an entry other than "." and ".." is in use. *)
Definition empty_step (_ : unit) (_ _ : Z) (entry : list Z) : unit + bool :=
  if byte entry 0 =? 0 then inr true
  else if byte entry 0 =? DELETED then inl tt
  else if (byte entry 0 =? DOT) && ((byte entry 1 =? BLANK) || (byte entry 1 =? DOT)) then inl tt
  else inr false.

Definition fat32_remove_directory (path : cstr) : D -> bool * D := truth (
  l ← locate_path_entry path;
  let '(parent, entry, sector, offset) := (l : Z * fat32_entry * Z * Z) in
  _ ← check (has (attributes entry) DIRECTORY && (2 <=? e_cluster entry));
  r ← scan empty_step (e_cluster entry) tt;
  _ ← check (match r with inr empty => empty | inl _ => true end);
  _ ← mark_entry_deleted parent sector offset;
  free_chain (e_cluster entry)).

(** ** Files *)

Definition fat32_stat_file (path : cstr) : io D Z :=
  l ← locate_path_entry path;
  let '(_, entry, _, _) := (l : Z * fat32_entry * Z * Z) in
  if has (attributes entry) DIRECTORY then failed else mret (e_size entry).

(** The bytes copied from the sectors of a cluster and what remains. *)
Fixpoint read_sectors (n : nat) (number remaining : Z) (buffer : list Z) : io D (list Z * Z) :=
  match n with
  | O => mret (buffer, remaining)
  | S n =>
      if remaining =? 0 then mret (buffer, remaining)
      else
        sector ← read number;
        let amount := if remaining <? 512 then remaining else 512 in
        read_sectors n (u32 (number + 1)) (remaining - amount) (buffer ++ take (Z.to_nat amount) sector)
  end.

Fixpoint read_chain (fuel : nat) (cluster remaining : Z) (buffer : list Z) : io D (list Z * Z) :=
  match fuel with
  | O => mret (buffer, remaining)
  | S fuel =>
      if (remaining =? 0) || negb (in_chain cluster) then mret (buffer, remaining)
      else
        r ← read_sectors (trips 0 (sectors_per_cluster g)) (cluster_sector cluster) remaining buffer;
        next ← next_cluster cluster;
        read_chain fuel next (snd r) (fst r)
  end.

Definition read_located (entry : fat32_entry) (capacity : Z) : io D (list Z) :=
  _ ← check (negb (has (attributes entry) DIRECTORY));
  let remaining := if e_size entry <? capacity then e_size entry else capacity in
  r ← read_chain (S (Z.to_nat ((remaining + 511) / 512))) (e_cluster entry) remaining [];
  if negb (snd r =? 0) then failed else mret (fst r).

Definition fat32_read_file (path : cstr) (capacity : Z) : io D (list Z) :=
  l ← locate_path_entry path;
  let '(_, entry, _, _) := (l : Z * fat32_entry * Z * Z) in
  read_located entry capacity.

Definition fat32_create_file (path : cstr) : D -> bool * D := truth (
  p ← open_parent path;
  let '(parent, leaf) := (p : Z * cstr) in
  existing ← attempt (find_entry parent leaf);
  match existing with
  | Some (entry, _, _) => check (negb (has (attributes entry) DIRECTORY))
  | None => data_cluster ← allocate_cluster; or_release data_cluster (create_named_entry parent leaf 0x20 data_cluster)
  end).

(** The first clusters of a chain. *)
Fixpoint chain_clusters (n : nat) (cluster : Z) (clusters : list Z) : io D (list Z) :=
  match n with
  | O => mret clusters
  | S n => if negb (in_chain cluster) then mret clusters else next ← next_cluster cluster; chain_clusters n next (clusters ++ [cluster])
  end.

Fixpoint grow_chain (n : nat) (clusters : list Z) : io D (list Z) :=
  match n with
  | O => mret clusters
  | S n =>
      next ← allocate_cluster;
      _ ← update_fat (aget 0 clusters (alen clusters - 1)) next;
      grow_chain n (clusters ++ [next])
  end.

(** The chain ends behind the first [required] clusters. *)
Definition cut_chain (clusters : list Z) (required : Z) : io D unit :=
  if alen clusters <=? required then mret tt
  else
    let final := aget 0 clusters (required - 1) in
    next ← next_cluster final;
    _ ← update_fat final END_OF_CHAIN;
    free_chain next.

Fixpoint write_sectors (n : nat) (number : Z) (data : list Z) : io D (list Z) :=
  match n with
  | O => mret data
  | S n =>
      let amount := take 512 data in
      _ ← write number (amount ++ replicate (512 - length amount) 0);
      write_sectors n (u32 (number + 1)) (drop 512 data)
  end.

Fixpoint write_clusters (clusters : list Z) (data : list Z) : io D unit :=
  match clusters with
  | [] => mret tt
  | cluster :: clusters =>
      rest ← write_sectors (trips 0 (sectors_per_cluster g)) (cluster_sector cluster) data;
      write_clusters clusters rest
  end.

Definition MAX_CLUSTERS : Z := 32.

(** The clusters a file of that size takes. *)
Definition required_clusters (size : Z) : Z :=
  let cluster_bytes := sectors_per_cluster g * 512 in
  let required := (size + cluster_bytes - 1) / cluster_bytes in
  if required =? 0 then 1 else required.

(** The clusters of a file made fit for that many. *)
Definition fit_chain (c required : Z) : io D (list Z) :=
  clusters ← chain_clusters (Z.to_nat MAX_CLUSTERS) c [];
  _ ← check (negb (alen clusters =? 0) && (required <=? MAX_CLUSTERS));
  clusters ← grow_chain (Z.to_nat (required - alen clusters)) clusters;
  _ ← cut_chain clusters required;
  mret clusters.

Definition write_located (entry : fat32_entry) (sector offset : Z) (buffer : list Z) (size : Z) : io D unit :=
  _ ← check (negb (has (attributes entry) DIRECTORY) && (2 <=? e_cluster entry));
  let required := required_clusters size in
  clusters ← fit_chain (e_cluster entry) required;
  _ ← write_clusters (take (Z.to_nat required) clusters) (take (Z.to_nat size) buffer);
  data ← read sector;
  write sector (write32 data (offset + 28) size).

Definition fat32_write_file (path : cstr) (buffer : list Z) (size : Z) : D -> bool * D := truth (
  _ ← check (size <=? UINT32_MAX);
  l ← locate_path_entry path;
  let '(_, entry, sector, offset) := (l : Z * fat32_entry * Z * Z) in
  write_located entry sector offset buffer size).

Definition fat32_unlink_file (path : cstr) : D -> bool * D := truth (
  l ← locate_path_entry path;
  let '(parent, entry, sector, offset) := (l : Z * fat32_entry * Z * Z) in
  _ ← check (negb (has (attributes entry) DIRECTORY));
  _ ← mark_entry_deleted parent sector offset;
  free_chain (e_cluster entry)).

Definition fat32_sync (d : D) : bool * D := if mounted g then block_flush d else (false, d).


End Volume.

End Fat.
