(* ===== verification/FatTable.v ===== *)
(** * FatTable: the allocation table of a FAT volume

    On a device that serves every request for its sectors: the table as a
    function from clusters to their successors, what an update changes, chains,
    and what allocating and freeing do to them. *)

From S2P Require Import Prelude CString Block FatNames Fat.
Import CString.CString Block.Block FatNames.FatNames Fat.Fat.
Local Open Scope Z_scope.

Module FatTable.

(** ** Bytes of a 32-bit value *)

Lemma read_write32 v : 0 <= v < 2 ^ 32 ->
  Z.lor (Z.lor (Z.lor (u8 v) (Z.shiftl (u8 (Z.shiftr v 8)) 8)) (Z.shiftl (u8 (Z.shiftr v 16)) 16)) (Z.shiftl (u8 (Z.shiftr v 24)) 24) = v.
Proof.
  intros Hv. unfold u8. rewrite !Z.shiftr_div_pow2, !Z.shiftl_mul_pow2 by done.
  pose proof (Z.mod_pos_bound v 256 ltac:(lia)) as H0. pose proof (Z.mod_pos_bound (v / 2 ^ 8) 256 ltac:(lia)) as H1.
  pose proof (Z.mod_pos_bound (v / 2 ^ 16) 256 ltac:(lia)) as H2. pose proof (Z.mod_pos_bound (v / 2 ^ 24) 256 ltac:(lia)) as H3.
  change (2 ^ 8) with 256 in *. rewrite (Z.lor_comm (v mod 256)), (lor_disjoint_add _ (v mod 256) 8) by (done || apply Z_mod_mult).
  set (x := (v / 256) mod 256 * 256 + v mod 256). assert (Hx : 0 <= x < 2 ^ 16) by lia.
  set (y := (v / 2 ^ 16) mod 256) in *. rewrite (Z.lor_comm x), (lor_disjoint_add (y * 2 ^ 16) x 16) by (done || apply Z_mod_mult).
  set (z := (v / 2 ^ 24) mod 256) in *. rewrite (Z.lor_comm _ (z * 2 ^ 24)), (lor_disjoint_add (z * 2 ^ 24) _ 24) by (done || apply Z_mod_mult || lia).
  subst x y z.
  change (2 ^ 16) with (256 * 256) in *. change (2 ^ 24) with (256 * 256 * 256) in *. rewrite <- !Z.div_div in * by lia.
  pose proof (Z.div_mod v 256 ltac:(lia)). pose proof (Z.div_mod (v / 256) 256 ltac:(lia)). pose proof (Z.div_mod (v / 256 / 256) 256 ltac:(lia)).
  assert (v / 256 / 256 / 256 < 256) by (repeat apply Z.div_lt_upper_bound; lia).
  assert (0 <= v / 256 / 256 / 256) by (repeat apply Z.div_pos; lia). rewrite (Z.mod_small (v / 256 / 256 / 256)) in * by lia. lia.
Qed.

Lemma read32_write32 data offset v : 0 <= offset -> offset + 4 <= alen data -> 0 <= v < 2 ^ 32 -> read32 (write32 data offset v) offset = v.
Proof.
  intros Ho Hl Hv. unfold read32, write32, byte. rewrite !aget_aset by (rewrite ?alen_aset; lia).
  repeat (case_decide; try lia). by apply read_write32.
Qed.

Lemma byte_write32 data offset v i : 0 <= offset -> offset + 4 <= alen data -> 0 <= i -> i < offset \/ offset + 4 <= i ->
  byte (write32 data offset v) i = byte data i.
Proof.
  intros Ho Hl Hi Hd. unfold write32, byte. rewrite !aget_aset by (rewrite ?alen_aset; lia). repeat (case_decide; [lia|]). done.
Qed.

Lemma read32_other data offset v i : 0 <= offset -> offset + 4 <= alen data -> 0 <= i -> i + 4 <= offset \/ offset + 4 <= i ->
  read32 (write32 data offset v) i = read32 data i.
Proof. intros Ho Hl Hi Hd. unfold read32. by rewrite !byte_write32 by lia. Qed.

Lemma alen_write32 data offset v : alen (write32 data offset v) = alen data.
Proof. unfold write32. by rewrite !alen_aset. Qed.

(** ** Loops that end *)

Inductive ends {S R} (step : S -> S + R) : S -> R -> nat -> Prop :=
| ends_now s r : step s = inr r -> ends step s r 0
| ends_step s s' r n : step s = inl s' -> ends step s' r n -> ends step s r (Datatypes.S n).

Lemma ends_split {S R} (step : S -> S + R) s r n p : ends step s r n ->
  if Z.of_nat n <? Zpos p then run_until p step s = inr r
  else exists s', run_until p step s = inl s' /\ ends step s' r (n - Pos.to_nat p).
Proof.
  revert s n. induction p as [p IH|p IH|]; intros s n He; cbn [run_until].
  - inversion He as [? ? E|? s1 ? m E He1]; subst; rewrite E; [by destruct (Z.ltb_spec (Z.of_nat 0) (Zpos p~1)); [|lia]|].
    pose proof (IH s1 m He1) as H1. destruct (Z.ltb_spec (Z.of_nat m) (Zpos p)); [rewrite H1; destruct (Z.ltb_spec (Z.of_nat (Datatypes.S m)) (Zpos p~1)); [done | lia]|].
    destruct H1 as (s2 & -> & He2). pose proof (IH s2 _ He2) as H2.
    destruct (Z.ltb_spec (Z.of_nat (m - Pos.to_nat p)) (Zpos p)), (Z.ltb_spec (Z.of_nat (Datatypes.S m)) (Zpos p~1)); try lia; [done|].
    destruct H2 as (s3 & -> & He3). exists s3. split; [done|]. by replace (Datatypes.S m - Pos.to_nat p~1)%nat with (m - Pos.to_nat p - Pos.to_nat p)%nat by lia.
  - pose proof (IH s n He) as H1. destruct (Z.ltb_spec (Z.of_nat n) (Zpos p)); [rewrite H1; destruct (Z.ltb_spec (Z.of_nat n) (Zpos p~0)); [done | lia]|].
    destruct H1 as (s2 & -> & He2). pose proof (IH s2 _ He2) as H2.
    destruct (Z.ltb_spec (Z.of_nat (n - Pos.to_nat p)) (Zpos p)), (Z.ltb_spec (Z.of_nat n) (Zpos p~0)); try lia; [done|].
    destruct H2 as (s3 & -> & He3). exists s3. split; [done|]. by replace (n - Pos.to_nat p~0)%nat with (n - Pos.to_nat p - Pos.to_nat p)%nat by lia.
  - inversion He as [? ? E|? s1 ? m E He1]; subst; rewrite E; [done|]. destruct (Z.ltb_spec (Z.of_nat (Datatypes.S m)) 1); [lia|].
    exists s1. split; [done|]. by replace (Datatypes.S m - Pos.to_nat 1)%nat with m by lia.
Qed.

Lemma ends_run {S R} (step : S -> S + R) s r n p : ends step s r n -> Z.of_nat n < Zpos p -> run_until p step s = inr r.
Proof. intros He Hn. pose proof (ends_split step s r n p He) as Hs. by destruct (Z.ltb_spec (Z.of_nat n) (Zpos p)); [|lia]. Qed.

(** ** Computations on a reliable device *)

Section Table.
Context {D : Type} `{BlockDevice D} `{!ReliableDevice D} (g : volume).

(** The clusters the table has entries for. *)
Definition cluster_limit : Z := fat_sectors g * 128.
Definition cluster_ok (c : Z) : Prop := 2 <= c < cluster_limit.

(** The layout: tables behind the reserved sectors, then the clusters, all
    inside the range of a sector number. *)
Record volume_ok : Prop := {
  vo_mounted : mounted g = true;
  vo_cluster : 1 <= sectors_per_cluster g < 256;
  vo_copies : 1 <= fat_count g < 256;
  vo_start : 1 <= fat_start_sector g;
  vo_sectors : 1 <= fat_sectors g;
  vo_data : data_start_sector g = fat_start_sector g + fat_count g * fat_sectors g;
  vo_limit : cluster_limit <= CHAIN_LIMIT;
  vo_size : data_start_sector g + cluster_limit * sectors_per_cluster g <= 2 ^ 32;
  vo_root : cluster_ok (root_cluster g);
}.

Definition volume_end : Z := data_start_sector g + cluster_limit * sectors_per_cluster g.

(** The disk is in order and large enough. *)
Definition disk_fits (d : D) : Prop := disk_ok d /\ volume_end <= sector_count d.

(** What a computation does: its result and the disk after it. *)
Definition spec {A} (m : io D A) (d : D) (Q : option A -> D -> Prop) : Prop := let '(r, d') := m d in disk_fits d' /\ Q r d'.

Definition same_disk (d d' : D) : Prop := forall n, contents d' n = contents d n.

Lemma spec_result {A} (m : io D A) d (Q : option A -> D -> Prop) : spec m d Q -> disk_fits (snd (m d)) /\ Q (fst (m d)) (snd (m d)).
Proof. unfold spec. by destruct (m d). Qed.

Lemma spec_let {A} (m : io D A) d (Q P : option A -> D -> Prop) : spec m d Q -> (forall r d', disk_fits d' -> Q r d' -> P r d') -> let '(r, d') := m d in P r d'.
Proof. unfold spec. destruct (m d). intros (Hd & Hq) Hp. by apply Hp. Qed.

Lemma spec_weaken {A} (m : io D A) d (Q Q' : option A -> D -> Prop) : spec m d Q -> (forall r d', disk_fits d' -> Q r d' -> Q' r d') -> spec m d Q'.
Proof. unfold spec. destruct (m d). intros (H1 & H2) Hi. split; [done | by apply Hi]. Qed.

Lemma spec_ret {A} (a : A) d (Q : option A -> D -> Prop) : disk_fits d -> Q (Some a) d -> spec (mret a) d Q.
Proof. done. Qed.

Lemma spec_failed {A} d (Q : option A -> D -> Prop) : disk_fits d -> Q None d -> spec failed d Q.
Proof. done. Qed.

Lemma spec_bind {A B} (m : io D A) (f : A -> io D B) d (Q : option B -> D -> Prop) :
  spec m d (fun r d' => match r with Some a => spec (f a) d' Q | None => Q None d' end) -> spec (m ≫= f) d Q.
Proof. unfold spec, mbind, io_bind. destruct (m d) as [[a|] d']; [by intros (_ & Hf)|done]. Qed.

Lemma spec_attempt {A} (m : io D A) d (Q : option (option A) -> D -> Prop) : spec m d (fun r d' => Q (Some r) d') -> spec (attempt m) d Q.
Proof. unfold spec, attempt. by destruct (m d). Qed.

Lemma spec_read n d Q : disk_fits d -> 0 <= n < volume_end ->
  (forall d', disk_fits d' -> same_disk d d' -> Q (Some (contents d n)) d') -> spec (read n) d Q.
Proof.
  intros (Hd & Hs) Hn HQ. unfold spec, read. assert (Hn' : 0 <= n < sector_count d) by lia. destruct (reads n d Hd Hn') as (data & d' & E & Ec). pose proof (read_spec n d Hd) as Hr.
  rewrite E in *. destruct Hr as (Hd' & Hsame & Hdata). rewrite (Hdata data eq_refl).
  assert (disk_fits d') by (split; [done | lia]). split; [done|]. by apply HQ.
Qed.

Lemma spec_write n data d Q : disk_fits d -> 0 <= n < volume_end -> length data = 512%nat ->
  (forall d', disk_fits d' -> contents d' n = data -> (forall m, m <> n -> contents d' m = contents d m) -> Q (Some tt) d') -> spec (write n data) d Q.
Proof.
  intros (Hd & Hs) Hn Hl HQ. unfold spec, write. assert (Hr : 0 <= n < sector_count d) by lia. destruct (writes n data d Hd Hr) as (d' & E & Ec). pose proof (write_spec n data d Hd Hl) as Hw.
  rewrite E in *. destruct Hw as (Hd' & Hother & Hsame). assert (disk_fits d') by (split; [done | lia]). split; [done|]. apply HQ; auto.
Qed.

Lemma fits_length d n : disk_fits d -> alen (contents d n) = 512.
Proof. intros (Hd & _). unfold alen. by rewrite contents_length. Qed.

(** ** The table as a function *)

(** The successor of a cluster. *)
Definition fat (d : D) (c : Z) : Z := table_value (contents d (table_sector g c)) c.

(** The sectors outside the tables are as before. *)
Definition data_same (d d' : D) : Prop := forall n, n < fat_start_sector g \/ data_start_sector g <= n -> contents d' n = contents d n.

#[global] Instance data_same_trans : Transitive data_same.
Proof. intros a b c H1 H2 n Hn. by rewrite H2, H1. Qed.
#[global] Instance data_same_refl : Reflexive data_same.
Proof. done. Qed.

Lemma same_data d d' : same_disk d d' -> data_same d d'.
Proof. intros Hs n _. apply Hs. Qed.
Lemma same_fat d d' c : same_disk d d' -> fat d' c = fat d c.
Proof. intros Hs. unfold fat. by rewrite Hs. Qed.

Hypothesis Hg : volume_ok.

Lemma fat_offset_ok c : 0 <= c < CHAIN_LIMIT -> fat_offset c = 4 * c.
Proof. intros Hc. unfold fat_offset, CHAIN_LIMIT in *. rewrite u32_small by lia. lia. Qed.

Lemma offset_div c : 0 <= c -> 4 * c / SECTOR = c / 128.
Proof. intros Hc. change SECTOR with (4 * 128). rewrite <- Z.div_div by lia. by rewrite Z.mul_comm, Z.div_mul by lia. Qed.

Lemma offset_mod c : 0 <= c -> (4 * c) mod SECTOR = 4 * (c mod 128).
Proof. intros Hc. change SECTOR with (4 * 128). by rewrite Z.mul_mod_distr_l by lia. Qed.

Lemma cluster_div c : cluster_ok c -> 0 <= c / 128 < fat_sectors g /\ 0 <= c < CHAIN_LIMIT.
Proof.
  intros Hc. pose proof (vo_limit Hg). unfold cluster_ok, cluster_limit in *.
  split; [split; [apply Z.div_pos; lia | apply Z.div_lt_upper_bound; lia] | lia].
Qed.

Lemma fat_sector_ok copy c : cluster_ok c -> 0 <= copy < fat_count g -> fat_sector g copy c = fat_start_sector g + copy * fat_sectors g + c / 128 /\
  fat_start_sector g <= fat_sector g copy c < data_start_sector g.
Proof.
  intros Hc Hk. destruct (cluster_div c Hc) as (Hdiv & Hr). pose proof (vo_data Hg). pose proof (vo_size Hg). pose proof (vo_start Hg).
  pose proof (vo_cluster Hg). pose proof (vo_limit Hg). unfold cluster_ok, cluster_limit in *.
  assert (0 <= copy * fat_sectors g <= (fat_count g - 1) * fat_sectors g) by nia.
  assert (0 <= fat_sectors g * 128 * sectors_per_cluster g) by nia.
  assert (E : fat_sector g copy c = fat_start_sector g + copy * fat_sectors g + c / 128).
  { unfold fat_sector. rewrite fat_offset_ok, offset_div by lia. rewrite (u32_small (copy * fat_sectors g)) by lia. apply u32_small. lia. }
  rewrite E. split; [done|]. lia.
Qed.

Lemma table_sector_ok c : cluster_ok c -> table_sector g c = fat_sector g 0 c.
Proof.
  intros Hc. destruct (fat_sector_ok 0 c Hc) as (E & Hr); [pose proof (vo_copies Hg); lia|]. rewrite E. rewrite E in Hr. unfold table_sector.
  destruct (cluster_div c Hc) as (_ & Hcl). rewrite fat_offset_ok, offset_div by lia. rewrite u32_small; [lia|].
  pose proof (vo_size Hg). pose proof (vo_start Hg). pose proof (vo_cluster Hg). unfold cluster_ok, cluster_limit in *.
  assert (0 <= fat_sectors g * 128 * sectors_per_cluster g) by nia. lia.
Qed.

Lemma table_end : 0 < data_start_sector g <= volume_end.
Proof.
  pose proof (vo_data Hg). pose proof (vo_start Hg). pose proof (vo_copies Hg). pose proof (vo_sectors Hg). pose proof (vo_cluster Hg).
  unfold volume_end, cluster_limit. nia.
Qed.

Lemma table_sector_in c : cluster_ok c -> 0 <= table_sector g c < volume_end.
Proof.
  intros Hc. rewrite table_sector_ok by done. destruct (fat_sector_ok 0 c Hc) as (_ & Hr); [pose proof (vo_copies Hg); lia|].
  pose proof table_end. pose proof (vo_start Hg). lia.
Qed.

(** The copies from [copy] on are rewritten; the first one when it is among them. *)
Lemma update_copies_spec n copy c v d : cluster_ok c -> disk_fits d -> 0 <= copy -> copy + Z.of_nat n <= fat_count g ->
  spec (update_copies g n copy c v) d (fun r d' => r = Some tt /\
    (forall m, (forall k, copy <= k < copy + Z.of_nat n -> m <> fat_sector g k c) -> contents d' m = contents d m) /\
    (forall k, copy <= k < copy + Z.of_nat n -> contents d' (fat_sector g k c) = write32 (contents d (fat_sector g k c)) (fat_offset c mod SECTOR) v)).
Proof.
  intros Hc. revert copy d. induction n as [|n IH]; intros copy d Hd Hcopy Hn.
  { apply spec_ret; [done|]. split_and!; [done | done | lia]. }
  cbn [update_copies]. destruct (fat_sector_ok copy c Hc ltac:(lia)) as (E & Hr). pose proof table_end. pose proof (vo_start Hg).
  apply spec_bind, spec_read; [done | lia |]. intros d1 Hd1 Hs1. apply spec_bind, spec_write; [done | lia | |].
  { pose proof (alen_write32 (contents d (fat_sector g copy c)) (fat_offset c mod SECTOR) v) as Hl. rewrite fits_length in Hl by done. unfold alen in Hl. lia. }
  intros d2 Hd2 Hw Ho. eapply spec_weaken; [apply IH; [done | lia | lia]|]. intros r d3 _ (-> & Hout & Hin). split; [done|].
  assert (Hdist : forall k, 0 <= k < fat_count g -> k <> copy -> fat_sector g k c <> fat_sector g copy c).
  { intros k Hk Hne. destruct (fat_sector_ok k c Hc Hk) as (E' & _). rewrite E, E'. pose proof (vo_sectors Hg). nia. }
  split.
  - intros m Hm. rewrite Hout by (intros k Hk; apply Hm; lia). rewrite Ho by (apply Hm; lia). apply Hs1.
  - intros k Hk. destruct (decide (k = copy)) as [->|Hne].
    + rewrite Hout; [done|]. intros k Hk'. apply not_eq_sym, Hdist; lia.
    + rewrite Hin by lia. rewrite Ho by (apply Hdist; lia). by rewrite Hs1.
Qed.

Lemma update_fat_spec c v d : cluster_ok c -> disk_fits d -> 0 <= v < 2 ^ 32 ->
  spec (update_fat g c v) d (fun r d' => r = Some tt /\ data_same d d' /\
    forall c', cluster_ok c' -> fat d' c' = if decide (c' = c) then Z.land v 0x0FFFFFFF else fat d c').
Proof.
  intros Hc Hd Hv. pose proof (vo_copies Hg) as Hcopies. unfold update_fat. eapply spec_weaken.
  { apply update_copies_spec; [done | done | lia | unfold trips; lia]. }
  intros r d' _ (-> & Hout & Hin). split; [done|]. replace (0 + Z.of_nat (trips 0 (fat_count g))) with (fat_count g) in * by (unfold trips; lia). split.
  - intros m Hm. apply Hout. intros k Hk. destruct (fat_sector_ok k c Hc Hk) as (_ & Hr). lia.
  - intros c' Hc'. unfold fat. rewrite !table_sector_ok by done. destruct (cluster_div c Hc) as (_ & Hr), (cluster_div c' Hc') as (_ & Hr').
    pose proof (Z.div_mod c 128 ltac:(lia)). pose proof (Z.div_mod c' 128 ltac:(lia)).
    pose proof (Z.mod_pos_bound c 128 ltac:(lia)). pose proof (Z.mod_pos_bound c' 128 ltac:(lia)).
    destruct (fat_sector_ok 0 c Hc ltac:(lia)) as (E0 & _), (fat_sector_ok 0 c' Hc' ltac:(lia)) as (E0' & _).
    unfold table_value. rewrite !fat_offset_ok in * by lia. rewrite !offset_mod in * by lia. pose proof (fits_length d (fat_sector g 0 c) Hd) as Hl.
    destruct (decide (c' = c)) as [->|Hne]; [rewrite Hin by lia; by rewrite read32_write32 by lia|].
    destruct (decide (c' / 128 = c / 128)) as [Eq|Hq].
    + assert (Es : fat_sector g 0 c' = fat_sector g 0 c) by lia. rewrite Es, Hin by lia. rewrite read32_other by lia. done.
    + rewrite Hout; [done|]. intros k Hk. destruct (fat_sector_ok k c Hc Hk) as (Ek & _). rewrite E0', Ek.
      destruct (cluster_div c Hc) as (Hdv & _), (cluster_div c' Hc') as (Hdv' & _).
      destruct (decide (k = 0)) as [->|Hk0]; [lia|]. assert (fat_sectors g <= k * fat_sectors g) by nia. lia.
Qed.

Lemma next_cluster_spec c d : cluster_ok c -> disk_fits d -> spec (next_cluster g c) d (fun r d' => r = Some (fat d c) /\ same_disk d d').
Proof.
  intros Hc Hd. unfold next_cluster. apply spec_bind, spec_attempt, spec_read; [done | by apply table_sector_in |]. intros d1 Hd1 Hs1.
  by apply spec_ret.
Qed.

(** ** Allocation *)

Lemma limit_u32 : u32 (fat_sectors g * 128) = cluster_limit.
Proof. pose proof (vo_limit Hg). pose proof (vo_sectors Hg). unfold cluster_limit, CHAIN_LIMIT in *. apply u32_small. lia. Qed.

Lemma allocate_from_spec n c d : disk_fits d -> 2 <= c -> c + Z.of_nat n <= cluster_limit ->
  spec (allocate_from g n c) d (fun r d' => match r with
    | Some a => c <= a < c + Z.of_nat n /\ fat d a = 0 /\ (forall x, c <= x < a -> fat d x <> 0) /\ data_same d d' /\
        forall c', cluster_ok c' -> fat d' c' = if decide (c' = a) then END_OF_CHAIN else fat d c'
    | None => same_disk d d' /\ forall x, c <= x < c + Z.of_nat n -> fat d x <> 0
    end).
Proof.
  revert c d. induction n as [|n IH]; intros c d Hd Hc Hn; cbn [allocate_from].
  { apply spec_failed; [done|]. split; [done | lia]. }
  assert (Hok : cluster_ok c) by (split; lia). apply spec_bind, spec_read; [done | by apply table_sector_in |]. intros d1 Hd1 Hs1.
  fold (fat d c). destruct (Z.eqb_spec (fat d c) 0) as [E0|E0].
  - apply spec_bind, spec_attempt. eapply spec_weaken; [by apply update_fat_spec|]. intros r d2 Hd2 (-> & Hdata & Hf).
    apply spec_ret; [done|]. split; [lia|]. split; [done|]. split; [lia|]. split; [by etransitivity; [apply same_data, Hs1|]|].
    intros c' Hc'. rewrite Hf by done. case_decide; [done | by apply same_fat].
  - eapply spec_weaken; [apply IH; [done | lia | lia]|]. intros [a|] d2 _.
    + intros (Ha & Hz & Hfirst & Hdata & Hf). rewrite (same_fat d d1 a Hs1) in Hz. split; [lia|]. split; [done|]. split.
      { intros x Hx. destruct (decide (x = c)) as [->|]; [done|]. rewrite <- (same_fat d d1 x Hs1). apply Hfirst. lia. }
      split; [by etransitivity; [apply same_data, Hs1|]|]. intros c' Hc'. rewrite Hf by done. case_decide; [done | by apply same_fat].
    + intros (Hs2 & Hnone). split; [intros m; by rewrite Hs2, Hs1|].
      intros x Hx. destruct (decide (x = c)) as [->|]; [done|]. rewrite <- (same_fat d d1 x Hs1). apply Hnone. lia.
Qed.

Lemma allocate_spec d : disk_fits d ->
  spec (allocate_cluster g) d (fun r d' => match r with
    | Some a => cluster_ok a /\ fat d a = 0 /\ (forall x, 2 <= x < a -> fat d x <> 0) /\ data_same d d' /\
        forall c', cluster_ok c' -> fat d' c' = if decide (c' = a) then END_OF_CHAIN else fat d c'
    | None => same_disk d d' /\ forall x, cluster_ok x -> fat d x <> 0
    end).
Proof.
  intros Hd. pose proof (vo_root Hg) as Hroot. unfold cluster_ok in Hroot. unfold allocate_cluster. rewrite limit_u32.
  eapply spec_weaken; [apply allocate_from_spec; [done | lia | unfold trips; lia]|].
  replace (2 + Z.of_nat (trips 2 cluster_limit)) with cluster_limit by (unfold trips; lia). by intros [a|] d' _.
Qed.

(** ** Chains *)

Inductive chain (f : Z -> Z) : Z -> list Z -> Prop :=
| chain_end c : in_chain c = false -> chain f c []
| chain_next c l : cluster_ok c -> chain f (f c) l -> chain f c (c :: l).

Lemma cluster_in_chain c : cluster_ok c -> in_chain c = true.
Proof. intros Hc. pose proof (vo_limit Hg). unfold cluster_ok, in_chain in *. lia. Qed.

Lemma chain_det f c l l' : chain f c l -> chain f c l' -> l = l'.
Proof.
  intros Hl. revert l'. induction Hl as [c Hc|c l Hc Hl IH]; intros l' Hl'; inversion Hl'; subst; [done | | |].
  - pose proof (cluster_in_chain c ltac:(done)). congruence.
  - pose proof (cluster_in_chain c ltac:(done)). congruence.
  - f_equal. by apply IH.
Qed.

Lemma fat_chain_ext f f' c l : chain f c l -> (forall x, x ∈ l -> f' x = f x) -> chain f' c l.
Proof.
  induction 1 as [c Hc|c l Hc Hl IH]; intros Hext; constructor; [done | done |]. rewrite Hext by by left. apply IH. intros x Hx. apply Hext. by right.
Qed.

Lemma chain_ok f c l x : chain f c l -> x ∈ l -> cluster_ok x.
Proof. induction 1 as [|c l Hc Hl IH]; intros Hx; [by apply not_elem_of_nil in Hx|]. apply elem_of_cons in Hx as [->|]; auto. Qed.

(** A chain from one of its clusters is a part of it. *)
Lemma chain_suffix f c l x : chain f c l -> x ∈ l -> exists l1 l2, l = l1 ++ x :: l2 /\ chain f x (x :: l2).
Proof.
  induction 1 as [|c l Hc Hl IH]; intros Hx; [by apply not_elem_of_nil in Hx|]. destruct (decide (x = c)) as [->|Hne].
  - exists [], l. split; [done | by constructor].
  - apply elem_of_cons in Hx as [|Hx]; [done|]. destruct (IH Hx) as (l1 & l2 & -> & Hch). by exists (c :: l1), l2.
Qed.

Lemma chain_nodup f c l : chain f c l -> NoDup l.
Proof.
  induction 1 as [|c l Hc Hl IH]; constructor; [|done]. intros Hin. destruct (chain_suffix _ _ _ _ Hl Hin) as (l1 & l2 & -> & Hch).
  assert (Hall : chain f c (c :: l1 ++ c :: l2)) by by constructor. pose proof (chain_det _ _ _ _ Hch Hall) as E.
  apply (f_equal length) in E. simpl in E. rewrite length_app in E. simpl in E. lia.
Qed.

Lemma chain_length f c l : chain f c l -> alen l < CHAIN_LIMIT.
Proof.
  intros Hl. assert (Hsub : l ⊆+ seqZ 2 (cluster_limit - 2)).
  { apply NoDup_submseteq; [by eapply chain_nodup|]. intros x Hx. apply elem_of_seqZ. pose proof (chain_ok _ _ _ _ Hl Hx) as Hc. unfold cluster_ok in Hc. lia. }
  apply submseteq_length in Hsub. rewrite length_seqZ in Hsub. pose proof (vo_limit Hg). pose proof (vo_root Hg) as Hr. unfold cluster_ok in Hr.
  unfold alen. lia.
Qed.

(** ** Freeing a chain *)

Lemma free_ends l c d : disk_fits d -> chain (fat d) c l ->
  exists d', ends (free_step g) (c, d) (true, d') (length l) /\ disk_fits d' /\ data_same d d' /\
    forall x, cluster_ok x -> fat d' x = if decide (x ∈ l) then 0 else fat d x.
Proof.
  revert c d. induction l as [|c0 l IH]; intros c d Hd Hch.
  - inversion Hch as [? Hc|]; subst. exists d. split; [constructor; unfold free_step; by rewrite Hc|]. split; [done|]. split; [done|].
    intros x _. by rewrite decide_False by apply not_elem_of_nil.
  - pose proof (chain_nodup _ _ _ Hch) as Hnd. apply NoDup_cons in Hnd as (Hnot & _). inversion Hch as [|? ? Hc Hl]; subst.
    pose proof (next_cluster_spec c0 d Hc Hd) as Hn. unfold spec in Hn. destruct (next_cluster g c0 d) as [r1 d1] eqn:E1. destruct Hn as (Hd1 & -> & Hs1).
    pose proof (update_fat_spec c0 0 d1 Hc Hd1 ltac:(lia)) as Hu. unfold spec in Hu. destruct (update_fat g c0 0 d1) as [r2 d2] eqn:E2.
    destruct Hu as (Hd2 & -> & Hdata & Hf).
    assert (Hf2 : forall x, cluster_ok x -> fat d2 x = if decide (x = c0) then 0 else fat d x).
    { intros x Hx. rewrite Hf by done. case_decide; [done | by apply same_fat]. }
    destruct (IH (fat d c0) d2 Hd2) as (d3 & Hends & Hd3 & Hdata3 & Hf3).
    { eapply fat_chain_ext; [exact Hl|]. intros x Hx. rewrite Hf2 by (by eapply chain_ok). rewrite decide_False; [done|]. by intros ->. }
    exists d3. split; [|split; [done | split; [by etransitivity; [apply same_data, Hs1 | etransitivity]|]]].
    + apply ends_step with (fat d c0, d2); [|done]. unfold free_step. rewrite (cluster_in_chain c0 Hc). cbn [negb]. by rewrite E1, E2.
    + intros x Hx. rewrite Hf3, Hf2 by done. destruct (decide (x = c0)) as [->|Hne].
      * rewrite (decide_True (P := c0 ∈ c0 :: l)) by (by left). by case_decide.
      * destruct (decide (x ∈ l)); [by rewrite decide_True by (by right)|]. rewrite decide_False; [done|]. by intros [|]%elem_of_cons.
Qed.

Lemma free_chain_spec l c d : disk_fits d -> chain (fat d) c l ->
  spec (free_chain g c) d (fun r d' => r = Some tt /\ data_same d d' /\ forall x, cluster_ok x -> fat d' x = if decide (x ∈ l) then 0 else fat d x).
Proof.
  intros Hd Hch. destruct (free_ends l c d Hd Hch) as (d' & Hends & Hd' & Hrest). pose proof (chain_length _ _ _ Hch) as Hlen.
  unfold spec, free_chain. rewrite (ends_run _ _ _ _ (Z.to_pos CHAIN_LIMIT) Hends) by (unfold alen in Hlen; unfold CHAIN_LIMIT in *; lia). done.
Qed.

End Table.

End FatTable.
