(* ===== verification/FatData.v ===== *)
(** * FatData: the bytes of a file on a FAT volume

    The clusters as bytes, reading a chain, and what writing a file does to its
    chain, to its bytes and to everything else on the volume. *)

From S2P Require Import Prelude CString Block FatNames Fat FatTable.
Import CString.CString Block.Block FatNames.FatNames Fat.Fat FatTable.FatTable.
Local Open Scope Z_scope.

Module FatData.

(** ** Bytes cut to a length *)

(** [n] bytes: those of [data], then zeros. *)
Definition padded (n : nat) (data : list Z) : list Z := take n data ++ replicate (n - length data) 0.

Lemma padded_length n data : length (padded n data) = n.
Proof. unfold padded. rewrite length_app, length_take, length_replicate. lia. Qed.

Lemma padded_app a b data : padded (a + b) data = padded a data ++ padded b (drop a data).
Proof.
  unfold padded. rewrite length_drop. destruct (decide (a <= length data)%nat) as [Hle|Hgt].
  - replace (a - length data)%nat with 0%nat by lia. cbn [replicate]. rewrite app_nil_r, app_assoc, take_take_drop. f_equal. f_equal. lia.
  - rewrite (drop_ge data) by lia. rewrite take_nil, !take_ge by lia. cbn [app]. rewrite <- app_assoc, <- replicate_add. f_equal. f_equal. lia.
Qed.

Lemma padded_prefix n data : (length data <= n)%nat -> take (length data) (padded n data) = data.
Proof. intros Hl. unfold padded. rewrite (take_ge data) by lia. apply take_app_length. Qed.

Section Data.
Context {D : Type} `{BlockDevice D} `{!ReliableDevice D} (g : volume).
Hypothesis Hg : volume_ok g.

Notation cluster_ok := (cluster_ok g).
Notation disk_fits := (disk_fits g).
Notation spec := (spec g).
Notation fat := (fat g).

Definition sectors_nat : nat := Z.to_nat (sectors_per_cluster g).
Definition cluster_bytes : Z := 512 * sectors_per_cluster g.

(** The bytes of consecutive sectors, of a cluster, of a chain. *)
Fixpoint sectors_data (d : D) (n : nat) (number : Z) : list Z :=
  match n with
  | O => []
  | S n => contents d number ++ sectors_data d n (number + 1)
  end.
Definition cluster_data (d : D) (c : Z) : list Z := sectors_data d sectors_nat (cluster_sector g c).
Definition chain_data (d : D) (l : list Z) : list Z := concat (cluster_data d <$> l).

Lemma cluster_sector_ok c : cluster_ok c -> cluster_sector g c = data_start_sector g + (c - 2) * sectors_per_cluster g /\
  data_start_sector g <= cluster_sector g c /\ cluster_sector g c + sectors_per_cluster g <= volume_end g /\ volume_end g <= 2 ^ 32.
Proof.
  intros Hc. pose proof (vo_cluster _ Hg). pose proof (vo_size _ Hg). pose proof (vo_start _ Hg). pose proof (table_end g Hg).
  unfold FatTable.cluster_ok, volume_end in *. assert (0 <= (c - 2) * sectors_per_cluster g) by nia.
  assert ((c - 2) * sectors_per_cluster g + sectors_per_cluster g <= cluster_limit g * sectors_per_cluster g) by nia.
  assert (c - 2 <= (c - 2) * sectors_per_cluster g) by nia.
  assert (E : cluster_sector g c = data_start_sector g + (c - 2) * sectors_per_cluster g).
  { unfold cluster_sector. rewrite (u32_small (c - 2)) by lia. rewrite (u32_small ((c - 2) * _)) by lia. apply u32_small. lia. }
  rewrite E. split; [done|]. lia.
Qed.

Lemma clusters_disjoint c c' i j : cluster_ok c -> cluster_ok c' -> c <> c' -> 0 <= i < sectors_per_cluster g -> 0 <= j < sectors_per_cluster g ->
  cluster_sector g c + i <> cluster_sector g c' + j.
Proof.
  intros Hc Hc' Hne Hi Hj. destruct (cluster_sector_ok c Hc) as (-> & _), (cluster_sector_ok c' Hc') as (-> & _).
  destruct (Z.lt_total c c') as [Hlt|[|Hlt]]; [|done|].
  - assert ((c - 2) * sectors_per_cluster g + sectors_per_cluster g <= (c' - 2) * sectors_per_cluster g) by nia. lia.
  - assert ((c' - 2) * sectors_per_cluster g + sectors_per_cluster g <= (c - 2) * sectors_per_cluster g) by nia. lia.
Qed.

Lemma sectors_data_ext d d' n number : (forall i, 0 <= i < Z.of_nat n -> contents d' (number + i) = contents d (number + i)) ->
  sectors_data d' n number = sectors_data d n number.
Proof.
  revert number. induction n as [|n IH]; intros number Hext; [done|]. cbn [sectors_data]. f_equal.
  - specialize (Hext 0). rewrite Z.add_0_r in Hext. apply Hext. lia.
  - apply IH. intros i Hi. specialize (Hext (1 + i)). rewrite Z.add_assoc in Hext. apply Hext. lia.
Qed.

Lemma sectors_data_length d n number : disk_fits d -> length (sectors_data d n number) = (512 * n)%nat.
Proof.
  intros Hd. revert number. induction n as [|n IH]; intros number; [done|]. cbn [sectors_data]. rewrite length_app, IH, contents_length by apply Hd. lia.
Qed.

Lemma cluster_data_length d c : disk_fits d -> length (cluster_data d c) = (512 * sectors_nat)%nat.
Proof. apply sectors_data_length. Qed.

Lemma chain_data_length d l : disk_fits d -> length (chain_data d l) = (512 * sectors_nat * length l)%nat.
Proof.
  intros Hd. unfold chain_data. induction l as [|c l IH]; [cbn; lia|]. cbn [fmap list_fmap concat length]. rewrite length_app, IH, cluster_data_length by done. lia.
Qed.

Lemma cluster_data_ext d d' c : cluster_ok c -> (forall n, data_start_sector g <= n -> contents d' n = contents d n) -> cluster_data d' c = cluster_data d c.
Proof. intros Hc Hext. apply sectors_data_ext. intros i Hi. apply Hext. destruct (cluster_sector_ok c Hc). lia. Qed.

Lemma chain_data_same d d' f c l : chain g f c l -> data_same g d d' -> chain_data d' l = chain_data d l.
Proof.
  intros Hl Hs. unfold chain_data. f_equal. apply list_fmap_ext. intros i x Hx. apply cluster_data_ext.
  - eapply chain_ok; [exact Hl|]. by eapply list_elem_of_lookup_2.
  - intros n Hn. apply Hs. by right.
Qed.

(** ** Reading *)

(** The sectors of a run that lies inside the volume. *)
Definition run_ok (n : nat) (number : Z) : Prop := 0 <= number /\ number + Z.of_nat n <= volume_end g.

Lemma run_next n number : run_ok (S n) number -> n <> O -> u32 (number + 1) = number + 1 /\ run_ok n (number + 1).
Proof.
  intros (H1 & H2) Hn. pose proof (vo_size _ Hg). fold (volume_end g) in *. unfold run_ok. rewrite u32_small by (unfold volume_end in *; lia). lia.
Qed.

Lemma cluster_run c : cluster_ok c -> run_ok sectors_nat (cluster_sector g c).
Proof.
  intros Hc. destruct (cluster_sector_ok c Hc) as (_ & H1 & H2 & _). pose proof (table_end g Hg). pose proof (vo_cluster _ Hg). unfold run_ok, sectors_nat. lia.
Qed.

Lemma read_sectors_spec n number remaining buffer d : disk_fits d -> run_ok n number -> 0 <= remaining ->
  spec (read_sectors n number remaining buffer) d (fun r d' => same_disk d d' /\
    r = Some (buffer ++ take (Z.to_nat remaining) (sectors_data d n number), Z.max 0 (remaining - 512 * Z.of_nat n))).
Proof.
  revert number remaining buffer d. induction n as [|n IH]; intros number remaining buffer d Hd Hr Hrem; cbn [read_sectors sectors_data].
  { apply spec_ret; [done|]. split; [done|]. rewrite take_nil, app_nil_r. do 2 f_equal. lia. }
  destruct (Z.eqb_spec remaining 0) as [->|Hne].
  { apply spec_ret; [done|]. split; [done|]. rewrite app_nil_r. apply f_equal, f_equal2; [done | lia]. }
  apply spec_bind, spec_read; [done | unfold run_ok in Hr; lia |]. intros d1 Hd1 Hs1.
  set (amount := if remaining <? 512 then remaining else 512).
  assert (Ha : 0 <= amount <= 512 /\ amount <= remaining /\ (amount < 512 -> amount = remaining)) by (unfold amount; destruct (Z.ltb_spec remaining 512); lia).
  assert (Hcut : take (Z.to_nat remaining) (contents d number ++ sectors_data d n (number + 1)) =
    take (Z.to_nat amount) (contents d number) ++ take (Z.to_nat (remaining - amount)) (sectors_data d n (number + 1))).
  { rewrite take_app, contents_length by apply Hd. f_equal.
    - destruct (decide (amount < 512)) as [Hlt|]; [by rewrite (proj2 (proj2 Ha) Hlt)|]. by rewrite !take_ge by (rewrite contents_length by apply Hd; lia).
    - destruct (decide (amount < 512)) as [Hlt|]; [|f_equal; lia]. rewrite (proj2 (proj2 Ha) Hlt). f_equal. lia. }
  destruct (decide (n = O)) as [->|Hn].
  - cbn [read_sectors]. apply spec_ret; [done|]. split; [done|]. rewrite Hcut. cbn [sectors_data]. rewrite take_nil, app_nil_r. do 2 f_equal. lia.
  - destruct (run_next n number Hr Hn) as (-> & Hr'). eapply spec_weaken; [apply IH; [done | done | lia]|]. intros r d2 _ (Hs2 & ->).
    split; [intros m; by rewrite Hs2, Hs1|]. rewrite Hcut, <- app_assoc.
    rewrite (sectors_data_ext d d1 n (number + 1)) by (intros i _; apply Hs1). do 2 f_equal. lia.
Qed.

(** A file of [remaining] bytes is read off its chain. *)
Lemma read_chain_spec fuel l c remaining buffer d : disk_fits d -> chain g (fat d) c l -> 0 <= remaining <= cluster_bytes * alen l ->
  (remaining + 511) / 512 < Z.of_nat fuel ->
  spec (read_chain g fuel c remaining buffer) d (fun r d' => same_disk d d' /\ r = Some (buffer ++ take (Z.to_nat remaining) (chain_data d l), 0)).
Proof.
  revert l c remaining buffer d. induction fuel as [|fuel IH]; intros l c remaining buffer d Hd Hch Hrem Hf.
  { pose proof (Z.div_pos (remaining + 511) 512 ltac:(lia) ltac:(lia)). lia. }
  cbn [read_chain]. destruct (Z.eqb_spec remaining 0) as [->|Hne]; cbn [orb].
  { apply spec_ret; [done|]. split; [done|]. by rewrite app_nil_r. }
  inversion Hch as [? Hc E1|? l' Hc Hl E1]; subst; [unfold alen in Hrem; cbn in Hrem; lia|]. rewrite (cluster_in_chain g Hg c Hc). cbn [negb].
  pose proof (vo_cluster _ Hg) as Hspc. apply spec_bind. change (trips 0 (sectors_per_cluster g)) with (Z.to_nat (sectors_per_cluster g - 0)).
  rewrite Z.sub_0_r. fold sectors_nat. eapply spec_weaken; [apply read_sectors_spec; [done | by apply cluster_run | lia]|].
  intros r d1 Hd1 (Hs1 & ->). fold (cluster_data d c). apply spec_bind. eapply spec_weaken; [by apply next_cluster_spec|].
  intros r d2 Hd2 (-> & Hs2). cbn [fst snd].
  assert (Hs : same_disk d d2) by (intros m; by rewrite Hs2, Hs1). rewrite (same_fat g d d1 c Hs1).
  assert (Hch2 : chain g (fat d2) (fat d c) l') by (eapply fat_chain_ext; [exact Hl|]; intros x _; by apply same_fat).
  assert (Hsn : Z.of_nat sectors_nat = sectors_per_cluster g) by (unfold sectors_nat; lia). rewrite Hsn.
  assert (Hal : alen (c :: l') = 1 + alen l') by (unfold alen; simpl; lia). rewrite Hal in Hrem. unfold cluster_bytes in *.
  eapply spec_weaken; [apply (IH l'); [done | done | |]|].
  - pose proof (alen_nonneg l'). nia.
  - apply Z.div_lt_upper_bound; [lia|]. pose proof (Z.div_mod (remaining + 511) 512 ltac:(lia)). pose proof (Z.mod_pos_bound (remaining + 511) 512 ltac:(lia)). lia.
  - intros r d3 _ (Hs3 & ->). split; [intros m; by rewrite Hs3, Hs|]. rewrite <- app_assoc. do 2 f_equal. f_equal.
    unfold chain_data. cbn [fmap list_fmap concat]. rewrite take_app, cluster_data_length by done. f_equal.
    fold (chain_data d2 l') (chain_data d l'). rewrite (chain_data_same d d2 _ _ _ Hl (same_data g d d2 Hs)). f_equal. lia.
Qed.

(** ** Writing *)

(** A sector that belongs to none of the clusters. *)
Definition outside (l : list Z) (m : Z) : Prop := forall c, c ∈ l -> m < cluster_sector g c \/ cluster_sector g c + sectors_per_cluster g <= m.

Lemma write_sectors_spec n number data d : disk_fits d -> run_ok n number ->
  spec (write_sectors n number data) d (fun r d' => r = Some (drop (512 * n) data) /\ sectors_data d' n number = padded (512 * n) data /\
    forall m, m < number \/ number + Z.of_nat n <= m -> contents d' m = contents d m).
Proof.
  revert number data d. induction n as [|n IH]; intros number data d Hd Hr; cbn [write_sectors sectors_data].
  { apply spec_ret; [done|]. split_and!; [done | by unfold padded | done]. }
  assert (Hpad : take 512 data ++ replicate (512 - length (take 512 data)) 0 = padded 512 data).
  { unfold padded. rewrite length_take. do 2 f_equal. lia. }
  rewrite Hpad. apply spec_bind, spec_write; [done | unfold run_ok in Hr; lia | apply padded_length |]. intros d1 Hd1 Hw Ho.
  replace (512 * S n)%nat with (512 + 512 * n)%nat by lia. rewrite padded_app.
  destruct (decide (n = O)) as [->|Hn].
  { cbn [write_sectors]. apply spec_ret; [done|]. split_and!; [done | cbn [sectors_data]; by rewrite Hw | intros m Hm; apply Ho; lia]. }
  destruct (run_next n number Hr Hn) as (-> & Hr'). eapply spec_weaken; [by apply IH|]. intros r d2 _ (-> & Hdata & Hout).
  split; [f_equal; rewrite drop_drop; f_equal; lia|]. split; [rewrite Hdata, Hout by lia; by rewrite Hw|].
  intros m Hm. rewrite Hout by lia. apply Ho. lia.
Qed.

Lemma write_clusters_spec l data d : disk_fits d -> Forall cluster_ok l -> NoDup l ->
  spec (write_clusters g l data) d (fun r d' => r = Some tt /\ chain_data d' l = padded (512 * sectors_nat * length l) data /\
    forall m, outside l m -> contents d' m = contents d m).
Proof.
  intros Hd Hok. revert data d Hd. induction Hok as [|c l Hc Hok IH]; intros data d Hd Hnd; cbn [write_clusters].
  { apply spec_ret; [done|]. split_and!; [done | rewrite Nat.mul_0_r; by unfold padded | done]. }
  apply NoDup_cons in Hnd as (Hnot & Hnd). apply spec_bind. change (trips 0 (sectors_per_cluster g)) with (Z.to_nat (sectors_per_cluster g - 0)).
  rewrite Z.sub_0_r. fold sectors_nat. eapply spec_weaken; [apply write_sectors_spec; [done | by apply cluster_run]|].
  intros r d1 Hd1 (-> & Hdata & Hout). eapply spec_weaken; [by apply IH|]. intros r d2 _ (-> & Hrest & Hout2). split; [done|].
  assert (Hsn : Z.of_nat sectors_nat = sectors_per_cluster g) by (pose proof (vo_cluster _ Hg); unfold sectors_nat; lia). rewrite Hsn in Hout.
  assert (Hkeep : cluster_data d2 c = cluster_data d1 c).
  { apply sectors_data_ext. intros i Hi. apply Hout2. intros c' Hc'. rewrite Forall_forall in Hok. specialize (Hok c' Hc').
    assert (Hne : c <> c') by (by intros ->). destruct (Z.lt_ge_cases (cluster_sector g c + i) (cluster_sector g c')) as [|Hge]; [by left|]. right.
    destruct (Z.le_gt_cases (cluster_sector g c' + sectors_per_cluster g) (cluster_sector g c + i)) as [|Hlt]; [done|]. exfalso.
    apply (clusters_disjoint c c' i (cluster_sector g c + i - cluster_sector g c')); [done | done | done | lia | lia | lia]. }
  split.
  - unfold chain_data. cbn [fmap list_fmap concat length]. fold (chain_data d2 l). rewrite Hrest, Hkeep. unfold cluster_data. rewrite Hdata.
    rewrite <- padded_app. f_equal. lia.
  - intros m Hm. rewrite Hout2 by (intros c' Hc'; apply Hm; by right). apply Hout. apply Hm. by left.
Qed.

(** ** Growing and cutting a chain *)

Lemma chain_clusters_spec n c l acc d : disk_fits d -> chain g (fat d) c l ->
  spec (chain_clusters g n c acc) d (fun r d' => same_disk d d' /\ r = Some (acc ++ take n l)).
Proof.
  revert c l acc d. induction n as [|n IH]; intros c l acc d Hd Hch; cbn [chain_clusters].
  { apply spec_ret; [done|]. by rewrite app_nil_r. }
  inversion Hch as [? Hc E1|? l' Hc Hl E1]; subst.
  { rewrite Hc. apply spec_ret; [done|]. by rewrite take_nil, app_nil_r. }
  rewrite (cluster_in_chain g Hg c Hc). cbn [negb]. apply spec_bind. eapply spec_weaken; [by apply next_cluster_spec|].
  intros r d1 Hd1 (-> & Hs1). eapply spec_weaken; [apply (IH _ l'); [done|]; eapply fat_chain_ext; [exact Hl|]; intros x _; by apply same_fat|].
  intros r d2 _ (Hs2 & ->). split; [intros m; by rewrite Hs2, Hs1|]. cbn [take]. by rewrite <- app_assoc.
Qed.

Lemma chain_cons_inv f c x l : chain g f c (x :: l) -> c = x /\ cluster_ok x /\ chain g f (f x) l.
Proof. by inversion 1; subst. Qed.

(** The chain with one more cluster. *)
Lemma chain_snoc f f' c l x a : chain g f c (l ++ [x]) -> cluster_ok a -> in_chain (f' a) = false -> f' x = a ->
  (forall y, y ∈ l -> f' y = f y) -> chain g f' c ((l ++ [x]) ++ [a]).
Proof.
  intros Hch Ha Hend Hx. revert c Hch. induction l as [|y l IH]; intros c Hch Hext; apply chain_cons_inv in Hch as (-> & Hc & Hl).
  - constructor; [done|]. rewrite Hx. constructor; [done|]. by constructor.
  - cbn [app]. constructor; [done|]. rewrite Hext by (by left). apply IH; [done|]. intros z Hz. apply Hext. by right.
Qed.

Lemma chain_tail f c l x l2 : chain g f c (l ++ x :: l2) -> chain g f (f x) l2 /\ cluster_ok x.
Proof. revert c. induction l as [|y l IH]; intros c Hch; apply chain_cons_inv in Hch as (-> & Hc & Hl); [done|]. by apply IH in Hl. Qed.

(** The chain cut behind [x]. *)
Lemma chain_cut f f' c l x l2 : chain g f c (l ++ x :: l2) -> in_chain (f' x) = false -> (forall y, y ∈ l -> f' y = f y) -> chain g f' c (l ++ [x]).
Proof.
  intros Hch Hend. revert c Hch. induction l as [|y l IH]; intros c Hch Hext; apply chain_cons_inv in Hch as (-> & Hc & Hl).
  - constructor; [done|]. by constructor.
  - cbn [app]. constructor; [done|]. rewrite Hext by (by left). apply IH; [done|]. intros z Hz. apply Hext. by right.
Qed.

(** What an operation on one chain leaves alone: the clusters in use that are
    not of the chain keep their successor; [new] are clusters that were free. *)
Definition table_frame (l new : list Z) (d d' : D) : Prop := forall x, cluster_ok x -> x ∉ l -> x ∉ new -> fat d' x = fat d x.
Definition in_use (f : Z -> Z) (l : list Z) : Prop := forall x, x ∈ l -> f x <> 0.
Definition were_free (d : D) (new : list Z) : Prop := forall x, x ∈ new -> cluster_ok x /\ fat d x = 0.

(** A free cluster linked to the end of a chain. *)
Lemma link_spec {B} (k : Z -> io D B) c l x d (Q : option B -> D -> Prop) : disk_fits d -> chain g (fat d) c (l ++ [x]) -> in_use (fat d) (l ++ [x]) ->
  (forall a d', disk_fits d' -> cluster_ok a -> fat d a = 0 -> data_same g d d' ->
     (forall y, cluster_ok y -> fat d' y = if decide (y = x) then a else if decide (y = a) then END_OF_CHAIN else fat d y) ->
     chain g (fat d') c ((l ++ [x]) ++ [a]) -> in_use (fat d') ((l ++ [x]) ++ [a]) -> spec (k a) d' Q) ->
  (forall d', disk_fits d' -> same_disk d d' -> (forall y, cluster_ok y -> fat d y <> 0) -> Q None d') ->
  spec (a ← allocate_cluster g; _ ← update_fat g x a; k a) d Q.
Proof.
  intros Hd Hch Huse Hk Hnone. apply spec_bind. eapply spec_weaken; [by apply allocate_spec|]. intros [a|] d1 Hd1; [|intros (Hs & Hfull); by apply Hnone].
  intros (Ha & Hz & _ & Hdata1 & Hf1). assert (Hx : cluster_ok x) by (eapply chain_ok; [exact Hch|]; apply elem_of_app; right; by left).
  assert (Hnot : a ∉ l ++ [x]) by (intros Hin; by apply (Huse a Hin)).
  assert (Hne : a <> x) by (intros ->; apply Hnot, elem_of_app; right; by left).
  assert (Ha28 : 0 <= a < 2 ^ 28) by (destruct (cluster_div g Hg a Ha) as (_ & Hr); unfold CHAIN_LIMIT in Hr; lia).
  apply spec_bind. eapply spec_weaken; [apply update_fat_spec; [done | done | done | lia]|]. intros r d2 Hd2 (-> & Hdata2 & Hf2).
  assert (Emask : Z.land a 0x0FFFFFFF = a) by (rewrite (low_bits a 28) by done; by apply Z.mod_small). rewrite Emask in Hf2.
  assert (Hf : forall y, cluster_ok y -> fat d2 y = if decide (y = x) then a else if decide (y = a) then END_OF_CHAIN else fat d y).
  { intros y Hy. rewrite Hf2, Hf1 by done. done. }
  assert (Hok : forall y, y ∈ l ++ [x] -> cluster_ok y) by (intros y Hy; exact (chain_ok g _ _ _ y Hch Hy)).
  pose proof (chain_nodup g Hg _ _ _ Hch) as Hnd. apply NoDup_app in Hnd as (_ & Hdis & _).
  assert (Hch2 : chain g (fat d2) c ((l ++ [x]) ++ [a])).
  { eapply chain_snoc; [exact Hch | done | | |].
    - rewrite Hf by done. rewrite decide_False by done. by rewrite decide_True.
    - rewrite Hf by done. by rewrite decide_True.
    - intros y Hy. rewrite Hf by (apply Hok, elem_of_app; by left). rewrite decide_False by (intros ->; apply (Hdis x Hy); by left).
      rewrite decide_False; [done|]. intros ->. apply Hnot, elem_of_app. by left. }
  apply Hk; [done | done | done | by etransitivity | done | done |].
  intros y Hy. rewrite Hf by exact (chain_ok g _ _ _ y Hch2 Hy). case_decide; [unfold FatTable.cluster_ok in Ha; lia|]. case_decide; [done|].
  apply elem_of_app in Hy as [Hy|Hy%list_elem_of_singleton]; [by apply Huse | done].
Qed.

(** What was free and in order before the link, given what is after it. *)
Lemma link_frame l x a new d d1 d2 : cluster_ok a -> fat d a = 0 ->
  (forall y, cluster_ok y -> fat d1 y = if decide (y = x) then a else if decide (y = a) then END_OF_CHAIN else fat d y) ->
  were_free d1 new -> table_frame ((l ++ [x]) ++ [a]) new d1 d2 -> were_free d (a :: new) /\ table_frame (l ++ [x]) (a :: new) d d2.
Proof.
  intros Ha Hz Hf Hfree Hframe. split.
  - intros y Hy. apply elem_of_cons in Hy as [->|Hy]; [done|]. destruct (Hfree y Hy) as (Hy1 & Hy2). split; [done|].
    rewrite Hf in Hy2 by done. case_decide; [unfold FatTable.cluster_ok in Ha; lia|]. by case_decide.
  - intros y Hy Hy1 Hy2. apply not_elem_of_cons in Hy2 as (Hy2 & Hy3). rewrite Hframe, Hf; [|done| done | |done].
    + rewrite decide_False by (intros ->; apply Hy1, elem_of_app; right; by left). by rewrite decide_False.
    + intros [|Hin%list_elem_of_singleton]%elem_of_app; done.
Qed.

(** Nothing allocated. *)
Lemma frame_refl l d d' : same_disk d d' -> data_same g d d' /\ were_free d [] /\ table_frame l [] d d'.
Proof.
  intros Hs. split; [by apply same_data|]. split; [by intros y Hy%not_elem_of_nil|]. intros y _ _ _. by apply same_fat.
Qed.

Lemma chain_same c l d d' : same_disk d d' -> chain g (fat d) c l -> in_use (fat d) l -> chain g (fat d') c l /\ in_use (fat d') l.
Proof.
  intros Hs Hch Huse. split; [eapply fat_chain_ext; [exact Hch|]; intros y _; by apply same_fat|].
  intros y Hy. rewrite (same_fat g d d' y Hs). by apply Huse.
Qed.

Lemma grow_chain_spec n c l x d : disk_fits d -> chain g (fat d) c (l ++ [x]) -> in_use (fat d) (l ++ [x]) ->
  spec (grow_chain g n (l ++ [x])) d (fun r d' => exists new, data_same g d d' /\ were_free d new /\ table_frame (l ++ [x]) new d d' /\
    chain g (fat d') c ((l ++ [x]) ++ new) /\ in_use (fat d') ((l ++ [x]) ++ new) /\
    (length new <= n)%nat /\ match r with
    | Some clusters => clusters = (l ++ [x]) ++ new /\ length new = n
    | None => (length new < n)%nat /\ forall y, cluster_ok y -> fat d' y <> 0
    end).
Proof.
  revert l x d. induction n as [|n IH]; intros l x d Hd Hch Huse; cbn [grow_chain].
  { apply spec_ret; [done|]. exists []. rewrite app_nil_r. destruct (frame_refl (l ++ [x]) d d) as (H1 & H2 & H3); [done|]. done. }
  assert (Hlast : aget 0 (l ++ [x]) (alen (l ++ [x]) - 1) = x).
  { unfold aget, alen. rewrite length_app. cbn [length]. replace (Z.to_nat _) with (length l) by lia. by rewrite list_lookup_middle. }
  rewrite Hlast. apply (link_spec _ c l x d); [done | done | done | |].
  - intros a d1 Hd1 Ha Hz Hdata1 Hf Hch1 Huse1. eapply spec_weaken; [by apply (IH (l ++ [x]) a)|].
    intros r d2 _ (new & Hdata2 & Hfree & Hframe & Hch2 & Huse2 & Hlen & Hr). exists (a :: new).
    destruct (link_frame l x a new d d1 d2 Ha Hz Hf Hfree Hframe) as (Hfree' & Hframe').
    rewrite <- app_assoc in Hch2, Huse2, Hr. cbn [app] in Hch2, Huse2, Hr. split; [by etransitivity|]. split_and!; try done; [simpl; lia|].
    destruct r; simpl; [destruct Hr as (-> & <-) | destruct Hr]; split; done || lia.
  - intros d1 Hd1 Hs Hfull. exists []. rewrite app_nil_r. destruct (frame_refl (l ++ [x]) d d1 Hs) as (H1 & H2 & H3).
    destruct (chain_same c _ d d1 Hs Hch Huse) as (H4 & H5). split_and!; try done; [simpl; lia | simpl; lia |].
    intros y Hy. rewrite (same_fat g d d1 y Hs). by apply Hfull.
Qed.

Lemma cut_chain_spec clusters rest required c d : disk_fits d -> chain g (fat d) c (clusters ++ rest) -> in_use (fat d) (clusters ++ rest) -> 1 <= required ->
  spec (cut_chain g clusters required) d (fun r d' => r = Some tt /\ data_same g d d' /\
    (let l' := if alen clusters <=? required then clusters ++ rest else take (Z.to_nat required) clusters in
     chain g (fat d') c l' /\ in_use (fat d') l') /\ forall x, cluster_ok x -> x ∉ clusters ++ rest -> fat d' x = fat d x).
Proof.
  intros Hd Hch Huse Hreq. unfold cut_chain. destruct (Z.leb_spec (alen clusters) required) as [Hle|Hgt]; [by apply spec_ret|].
  destruct (lookup_lt_is_Some_2 clusters (Z.to_nat (required - 1))) as (x & Ex); [unfold alen in Hgt; lia|].
  assert (Ea : aget 0 clusters (required - 1) = x) by (unfold aget; by rewrite Ex). rewrite Ea.
  pose proof (take_drop_middle clusters _ x Ex) as Esplit. set (l1 := take (Z.to_nat (required - 1)) clusters) in *.
  set (l2 := drop (S (Z.to_nat (required - 1))) clusters) in *.
  assert (Etake : take (Z.to_nat required) clusters = l1 ++ [x]).
  { replace (Z.to_nat required) with (S (Z.to_nat (required - 1))) by lia. by apply take_S_r. }
  rewrite Etake. rewrite <- Esplit, <- app_assoc in Hch, Huse |- *. cbn [app] in *.
  destruct (chain_tail _ _ _ _ _ Hch) as (Htail & Hx). pose proof (chain_nodup g Hg _ _ _ Hch) as Hnd.
  apply NoDup_app in Hnd as (_ & Hdis & Hnd). apply NoDup_cons in Hnd as (Hxnot & _).
  apply spec_bind. eapply spec_weaken; [by apply next_cluster_spec|]. intros r d1 Hd1 (-> & Hs1).
  apply spec_bind. eapply spec_weaken; [apply update_fat_spec; [done | done | done | done]|]. intros r d2 Hd2 (-> & Hdata2 & Hf2).
  change (Z.land END_OF_CHAIN 0x0FFFFFFF) with END_OF_CHAIN in Hf2.
  assert (Hf : forall y, cluster_ok y -> fat d2 y = if decide (y = x) then END_OF_CHAIN else fat d y).
  { intros y Hy. rewrite Hf2 by done. case_decide; [done | by apply same_fat]. }
  assert (Hch2 : chain g (fat d2) (fat d x) (l2 ++ rest)).
  { eapply fat_chain_ext; [exact Htail|]. intros y Hy. rewrite Hf by (by eapply chain_ok). rewrite decide_False; [done|]. by intros ->. }
  eapply spec_weaken; [by apply free_chain_spec|]. intros r d3 _ (-> & Hdata3 & Hf3). split; [done|].
  split; [by etransitivity; [apply same_data, Hs1 | etransitivity]|].
  assert (Hok1 : forall y, y ∈ l1 -> cluster_ok y) by (intros y Hy; eapply chain_ok; [exact Hch|]; apply elem_of_app; by left).
  assert (Hf3l : forall y, y ∈ l1 -> fat d3 y = fat d y).
  { intros y Hy. rewrite Hf3, Hf by auto. rewrite decide_False, decide_False; [done | |].
    - intros ->. apply (Hdis x Hy). by left.
    - intros Hin. apply (Hdis y Hy). by right. }
  assert (Hf3x : fat d3 x = END_OF_CHAIN) by (rewrite Hf3, Hf by done; rewrite decide_False by done; by rewrite decide_True).
  split; [split|].
  - eapply chain_cut; [exact Hch | by rewrite Hf3x | done].
  - intros y [Hy|Hy%list_elem_of_singleton]%elem_of_app; [|by rewrite Hy, Hf3x]. rewrite Hf3l by done. apply Huse, elem_of_app. by left.
  - intros y Hy Hnot. rewrite not_elem_of_app, not_elem_of_cons in Hnot. destruct Hnot as (_ & Hyx & Hy2).
    rewrite Hf3, Hf by done. by rewrite decide_False, decide_False.
Qed.

(** ** A file *)

Definition file_size_ok (size : Z) : Prop := 0 <= size <= UINT32_MAX /\ required_clusters g size <= MAX_CLUSTERS.

Lemma required_ok size : 0 <= size -> 1 <= required_clusters g size /\ size <= cluster_bytes * required_clusters g size.
Proof.
  intros Hs. pose proof (vo_cluster _ Hg). unfold required_clusters, cluster_bytes. set (b := sectors_per_cluster g * 512) in *. assert (0 < b) by lia.
  pose proof (Z.div_mod (size + b - 1) b ltac:(lia)). pose proof (Z.mod_pos_bound (size + b - 1) b ltac:(lia)).
  pose proof (Z.div_pos (size + b - 1) b ltac:(lia) ltac:(lia)). destruct (Z.eqb_spec ((size + b - 1) / b) 0) as [E|E]; [rewrite E in *|]; nia.
Qed.

(** The entry of the file lies in a cluster in use that is not one of its own. *)
Definition entry_place (d : D) (l : list Z) (sector offset : Z) : Prop :=
  0 <= offset /\ offset + 32 <= 512 /\
  exists p i, cluster_ok p /\ fat d p <> 0 /\ (p ∉ l) /\ 0 <= i < sectors_per_cluster g /\ sector = cluster_sector g p + i.

(** What a write to the file of chain [l] leaves alone. *)
Definition others_kept (l : list Z) (sector : Z) (d d' : D) : Prop :=
  (forall x, cluster_ok x -> fat d x <> 0 -> x ∉ l -> fat d' x = fat d x) /\
  (forall x i, cluster_ok x -> fat d x <> 0 -> x ∉ l -> 0 <= i < sectors_per_cluster g -> cluster_sector g x + i <> sector ->
     contents d' (cluster_sector g x + i) = contents d (cluster_sector g x + i)).

Lemma place_outside d l new x i : cluster_ok x -> 0 <= i < sectors_per_cluster g -> (forall y, y ∈ l -> cluster_ok y) -> x ∉ l ->
  fat d x <> 0 -> were_free d new -> outside (l ++ new) (cluster_sector g x + i).
Proof.
  intros Hx Hi Hl Hxl Hused Hfree c Hc.
  assert (Hok : cluster_ok c /\ x <> c).
  { apply elem_of_app in Hc as [Hc|Hc]; [split; [by apply Hl | by intros ->]|]. destruct (Hfree c Hc) as (H1 & H2). split; [done | by intros ->]. }
  destruct Hok as (Hok & Hne). destruct (Z.lt_ge_cases (cluster_sector g x + i) (cluster_sector g c)) as [|Hge]; [by left|]. right.
  destruct (Z.le_gt_cases (cluster_sector g c + sectors_per_cluster g) (cluster_sector g x + i)) as [|Hlt]; [done|]. exfalso.
  apply (clusters_disjoint x c i (cluster_sector g x + i - cluster_sector g c)); [done | done | done | lia | lia | lia].
Qed.


(** The first clusters of the chain, more of them when the size needs it. *)
Lemma grown_spec c l required d : disk_fits d -> chain g (fat d) c l -> in_use (fat d) l -> l <> [] -> 1 <= required <= MAX_CLUSTERS ->
  let clusters := take (Z.to_nat MAX_CLUSTERS) l in
  spec (grow_chain g (Z.to_nat (required - alen clusters)) clusters) d (fun r d' => exists new, data_same g d d' /\ were_free d new /\ table_frame l new d d' /\
    chain g (fat d') c (l ++ new) /\ in_use (fat d') (l ++ new) /\ match r with
    | Some clusters' => clusters' = clusters ++ new /\ required <= alen clusters' /\ exists rest, l ++ new = clusters' ++ rest
    | None => forall y, cluster_ok y -> fat d' y <> 0
    end).
Proof.
  intros Hd Hch Huse Hne Hreq clusters. destruct (decide (required <= alen clusters)) as [Hle|Hgt].
  { replace (Z.to_nat (required - alen clusters)) with 0%nat by lia. cbn [grow_chain]. apply spec_ret; [done|]. exists []. rewrite !app_nil_r.
    split_and!; try done; [by intros y Hy%not_elem_of_nil|]. exists (drop (Z.to_nat MAX_CLUSTERS) l). symmetry. apply take_drop. }
  assert (E : clusters = l).
  { apply take_ge. unfold clusters, alen, MAX_CLUSTERS in *. rewrite length_take in Hgt. lia. }
  rewrite E in *. clear E clusters. destruct (exists_last Hne) as (l0 & x & ->).
  eapply spec_weaken; [by apply grow_chain_spec|]. intros r d' _ (new & Hdata & Hfree & Hframe & Hch' & Huse' & Hlen & Hr). exists new.
  split_and!; try done. destruct r as [clusters|]; [|apply Hr]. destruct Hr as (-> & Hn). split; [done|]. split; [|exists []; by rewrite app_nil_r].
  unfold alen in *. rewrite length_app. lia.
Qed.

Lemma fit_chain_spec c l required d : disk_fits d -> chain g (fat d) c l -> in_use (fat d) l -> l <> [] -> 1 <= required <= MAX_CLUSTERS ->
  spec (fit_chain g c required) d (fun r d' => exists new l', data_same g d d' /\ were_free d new /\ table_frame l new d d' /\ chain g (fat d') c l' /\
    in_use (fat d') l' /\ l' ⊆ l ++ new /\ match r with
    | Some clusters => required <= alen clusters /\ exists rest, l' = take (Z.to_nat required) clusters ++ rest
    | None => l' = l ++ new /\ forall y, cluster_ok y -> fat d' y <> 0
    end).
Proof.
  intros Hd Hch Huse Hne Hreq. unfold fit_chain. apply spec_bind. eapply spec_weaken; [by apply chain_clusters_spec|]. intros r d1 Hd1 (Hs1 & ->).
  cbn [app]. assert (Hpos : alen (take (Z.to_nat MAX_CLUSTERS) l) <> 0).
  { destruct l; [done|]. unfold alen. simpl. lia. }
  apply spec_bind. unfold check. rewrite (proj2 (Z.eqb_neq _ _) Hpos), (proj2 (Z.leb_le _ _) (proj2 Hreq)). cbn [negb andb].
  apply spec_ret; [done|]. assert (Hf1 : forall x, fat d1 x = fat d x) by (intros x; by apply same_fat).
  assert (Hch1 : chain g (fat d1) c l) by (eapply fat_chain_ext; [exact Hch | done]).
  assert (Huse1 : in_use (fat d1) l) by (intros x Hx; rewrite Hf1; by apply Huse).
  apply spec_bind. eapply spec_weaken; [by apply (grown_spec c l)|]. intros r d2 Hd2 (new & Hdata2 & Hfree & Hframe & Hch2 & Huse2 & Hr).
  assert (Hfree' : were_free d new) by (intros x Hx; destruct (Hfree x Hx); rewrite <- (Hf1 x); done).
  assert (Hframe' : table_frame l new d d2) by (intros x H1 H2 H3; rewrite Hframe by done; apply Hf1).
  assert (Hdata : data_same g d d2) by (by etransitivity; [apply same_data, Hs1|]).
  destruct r as [clusters|]; [|by exists new, (l ++ new)]. destruct Hr as (_ & Hle & rest & Erest).
  rewrite Erest in Hch2, Huse2. apply spec_bind. eapply spec_weaken; [by apply (cut_chain_spec clusters rest); [..|lia]|].
  intros r d3 Hd3 (-> & Hdata3 & Hl3 & Hf3). apply spec_ret; [done|]. cbv zeta in Hl3.
  exists new, (if alen clusters <=? required then clusters ++ rest else take (Z.to_nat required) clusters).
  split; [by etransitivity|]. split; [done|]. split.
  { intros x H1 H2 H3. rewrite Hf3; [by apply Hframe' | done |]. rewrite <- Erest. by rewrite not_elem_of_app. }
  split; [apply Hl3|]. split; [apply Hl3|]. split.
  - rewrite Erest. destruct (_ <=? _); [done|]. etransitivity; [apply subseteq_take|]. intros y Hy. apply elem_of_app. by left.
  - split; [done|]. destruct (Z.leb_spec (alen clusters) required); [|exists []; by rewrite app_nil_r].
    exists rest. f_equal. symmetry. apply take_ge. unfold alen in *. lia.
Qed.


Lemma place_sector d l sector offset : entry_place d l sector offset -> data_start_sector g <= sector < volume_end g.
Proof.
  intros (_ & _ & p & i & Hp & _ & _ & Hi & ->). destruct (cluster_sector_ok p Hp) as (_ & H1 & H2 & _). lia.
Qed.

Lemma fat_data d d' x : cluster_ok x -> (forall m, m < data_start_sector g -> contents d' m = contents d m) -> fat d' x = fat d x.
Proof.
  intros Hx Hs. unfold FatTable.fat. rewrite Hs; [done|]. rewrite (table_sector_ok g Hg x Hx).
  destruct (fat_sector_ok g Hg 0 x Hx) as (_ & Hr); [pose proof (vo_copies _ Hg); lia|]. lia.
Qed.

Lemma outside_table l m : (forall x, x ∈ l -> cluster_ok x) -> m < data_start_sector g -> outside l m.
Proof. intros Hl Hm c Hc. destruct (cluster_sector_ok c (Hl c Hc)) as (_ & H1 & _). lia. Qed.

(** The first clusters of a chain hold the buffer: so does the file. *)
Lemma written_prefix d w rest buffer size : 0 <= size <= alen buffer -> alen w = required_clusters g size ->
  chain_data d w = padded (512 * sectors_nat * length w) (take (Z.to_nat size) buffer) -> take (Z.to_nat size) (chain_data d (w ++ rest)) = take (Z.to_nat size) buffer.
Proof.
  intros Hsize Hw Hbytes. destruct (required_ok size ltac:(lia)) as (_ & Hr). unfold chain_data. rewrite fmap_app, concat_app. fold (chain_data d w). rewrite Hbytes.
  rewrite take_app_le by (rewrite padded_length; unfold cluster_bytes, sectors_nat, alen in *; nia).
  rewrite <- (padded_prefix (512 * sectors_nat * length w) (take (Z.to_nat size) buffer)) at 2.
  - f_equal. rewrite length_take. unfold alen in *. lia.
  - rewrite length_take. unfold cluster_bytes, sectors_nat, alen in *. nia.
Qed.

Lemma chain_data_outside d d' w sector : (forall m, m <> sector -> contents d' m = contents d m) -> outside w sector -> chain_data d' w = chain_data d w.
Proof.
  intros Hs Ho. unfold chain_data. f_equal. apply list_fmap_ext. intros k x Hx%list_elem_of_lookup_2. apply sectors_data_ext. intros j Hj. apply Hs.
  specialize (Ho x Hx). unfold sectors_nat in Hj. lia.
Qed.

(** The size in the directory entry. *)
Lemma store_size_spec sector offset size d : disk_fits d -> data_start_sector g <= sector < volume_end g ->
  spec (data ← read sector; write sector (write32 data (offset + 28) size)) d (fun r d' => r = Some tt /\
    contents d' sector = write32 (contents d sector) (offset + 28) size /\ (forall m, m <> sector -> contents d' m = contents d m) /\
    forall x, cluster_ok x -> fat d' x = fat d x).
Proof.
  intros Hd Hsec. pose proof (table_end g Hg) as Htab. apply spec_bind, spec_read; [done | lia |]. intros d1 Hd1 Hs1. apply spec_write; [done | lia | |].
  { pose proof (alen_write32 (contents d sector) (offset + 28) size) as Hl. rewrite (fits_length g) in Hl by done. unfold alen in Hl. lia. }
  intros d2 Hd2 Hw Ho. split; [done|]. split; [done|].
  assert (Ho' : forall m, m <> sector -> contents d2 m = contents d m) by (intros m Hm; rewrite Ho by done; apply Hs1).
  split; [done|]. intros x Hx. apply fat_data; [done|]. intros m Hm. apply Ho'. lia.
Qed.

Lemma write_located_spec entry sector offset buffer size l d : disk_fits d -> chain g (fat d) (e_cluster entry) l -> in_use (fat d) l -> l <> [] ->
  has (attributes entry) DIRECTORY = false -> file_size_ok size -> size <= alen buffer -> entry_place d l sector offset ->
  spec (write_located g entry sector offset buffer size) d (fun r d' => exists l', chain g (fat d') (e_cluster entry) l' /\ in_use (fat d') l' /\
    (forall x, x ∈ l' -> x ∈ l \/ fat d x = 0) /\ others_kept l sector d d' /\ match r with
    | Some _ => size <= cluster_bytes * alen l' /\ take (Z.to_nat size) (chain_data d' l') = take (Z.to_nat size) buffer /\
        contents d' sector = write32 (contents d sector) (offset + 28) size
    | None => data_same g d d' /\ (exists new, l' = l ++ new) /\ forall y, cluster_ok y -> fat d' y <> 0
    end).
Proof.
  intros Hd Hch Huse Hne Hdir (Hsize & Hreq) Hbuf Hplace. destruct (required_ok size ltac:(lia)) as (Hr1 & Hr2).
  assert (Hc : cluster_ok (e_cluster entry)) by (destruct l; [done|]; apply chain_cons_inv in Hch as (-> & Hc & _); done).
  unfold write_located, check. rewrite Hdir. destruct (Z.leb_spec 2 (e_cluster entry)); [|unfold FatTable.cluster_ok in Hc; lia]. cbn [negb andb].
  apply spec_bind, spec_ret; [done|]. apply spec_bind. eapply spec_weaken; [apply (fit_chain_spec _ l); [done | done | done | done | lia]|].
  intros r d1 Hd1 (new & l' & Hdata1 & Hfree & Hframe & Hch1 & Huse1 & Hsub & Hr).
  assert (Hnew : forall x, x ∈ l' -> x ∈ l \/ fat d x = 0).
  { intros x Hx. apply Hsub, elem_of_app in Hx as [|Hx]; [by left|]. right. by apply Hfree. }
  assert (Hkeep1 : forall x, cluster_ok x -> fat d x <> 0 -> x ∉ l -> fat d1 x = fat d x).
  { intros x H1 H2 H3. apply Hframe; [done | done |]. intros Hin. by apply H2, Hfree. }
  assert (Hdata : forall x i, cluster_ok x -> 0 <= i -> contents d1 (cluster_sector g x + i) = contents d (cluster_sector g x + i)).
  { intros x i Hx Hi. apply Hdata1. right. destruct (cluster_sector_ok x Hx). lia. }
  destruct r as [clusters|].
  2:{ destruct Hr as (-> & Hfull). exists (l ++ new). split_and!; try done; [|by eexists]. split; [done|]. intros x i H1 H2 H3 H4 _. apply Hdata; [done | lia]. }
  destruct Hr as (Hle & rest & El'). set (w := take (Z.to_nat (required_clusters g size)) clusters) in *.
  assert (Hwl : alen w = required_clusters g size) by (unfold w, alen in *; rewrite length_take; lia).
  assert (Hl'_ok : forall x, x ∈ l' -> cluster_ok x) by (intros x Hx; exact (chain_ok g _ _ _ x Hch1 Hx)).
  assert (Hw_in : forall x, x ∈ w -> x ∈ l') by (intros x Hx; rewrite El'; apply elem_of_app; by left).
  assert (Hw_nd : NoDup w) by (pose proof (chain_nodup g Hg _ _ _ Hch1) as Hnd; rewrite El' in Hnd; by apply NoDup_app in Hnd as (? & _)).
  apply spec_bind. eapply spec_weaken; [apply write_clusters_spec; [done | apply Forall_forall; intros x Hx; by apply Hl'_ok, Hw_in | done]|].
  intros r d2 Hd2 (-> & Hbytes & Hout2). pose proof (place_sector _ _ _ _ Hplace) as Hsec.
  assert (Hl_ok : forall y, y ∈ l -> cluster_ok y) by (intros y Hy; exact (chain_ok g _ _ _ y Hch Hy)).
  assert (Hout : forall x i, cluster_ok x -> fat d x <> 0 -> x ∉ l -> 0 <= i < sectors_per_cluster g -> outside w (cluster_sector g x + i)).
  { intros x i H1 H2 H3 H4 c Hcw. apply (place_outside d l new); [done.. |]. by apply Hsub, Hw_in. }
  assert (Hkeep2 : forall x i, cluster_ok x -> fat d x <> 0 -> x ∉ l -> 0 <= i < sectors_per_cluster g -> contents d2 (cluster_sector g x + i) = contents d (cluster_sector g x + i)).
  { intros x i H1 H2 H3 H4. rewrite Hout2 by by apply Hout. apply Hdata; [done | lia]. }
  destruct Hplace as (_ & _ & p & i & Hp & Hused & Hpl & Hi & Esec).
  eapply spec_weaken; [by apply store_size_spec|]. intros r d4 Hd4 (-> & Hw4 & Ho4 & Hf24).
  assert (Hf4 : forall x, cluster_ok x -> fat d4 x = fat d1 x).
  { intros x Hx. rewrite Hf24 by done. apply fat_data; [done|]. intros m Hm. apply Hout2, outside_table; [|done]. intros y Hy. by apply Hl'_ok, Hw_in. }
  exists l'. split; [eapply fat_chain_ext; [exact Hch1|]; intros x Hx; by apply Hf4, Hl'_ok|].
  split; [intros x Hx; rewrite Hf4 by (by apply Hl'_ok); by apply Huse1|]. split; [done|]. split.
  { split; [intros x H1 H2 H3; rewrite Hf4 by done; by apply Hkeep1|]. intros x j H1 H2 H3 H4 H5. rewrite Ho4 by done. by apply Hkeep2. }
  split; [|split].
  - rewrite El'. unfold alen in *. rewrite length_app. unfold cluster_bytes in *. nia.
  - rewrite El'. apply written_prefix; [lia | done |]. rewrite (chain_data_outside d2 d4 w sector Ho4); [exact Hbytes|]. rewrite Esec. by apply Hout.
  - rewrite Hw4, Esec. by rewrite Hkeep2.
Qed.

Lemma read_located_spec entry capacity l d : disk_fits d -> chain g (fat d) (e_cluster entry) l -> has (attributes entry) DIRECTORY = false ->
  0 <= e_size entry <= cluster_bytes * alen l -> 0 <= capacity ->
  spec (read_located g entry capacity) d (fun r d' => same_disk d d' /\ r = Some (take (Z.to_nat (Z.min (e_size entry) capacity)) (chain_data d l))).
Proof.
  intros Hd Hch Hdir Hsize Hcap. unfold read_located, check. rewrite Hdir. cbn [negb]. apply spec_bind, spec_ret; [done|]. apply spec_bind.
  assert (E : (if e_size entry <? capacity then e_size entry else capacity) = Z.min (e_size entry) capacity) by (destruct (Z.ltb_spec (e_size entry) capacity); lia).
  rewrite E. eapply spec_weaken; [apply (read_chain_spec _ l); [done | done | lia |]|].
  - pose proof (Z.div_pos (Z.min (e_size entry) capacity + 511) 512 ltac:(lia) ltac:(lia)). lia.
  - intros r d1 Hd1 (Hs & ->). cbn [fst snd Z.eqb negb]. by apply spec_ret.
Qed.

End Data.

End FatData.
