(* ===== verification/FatDir.v ===== *)
(** * FatDir: directories of a FAT volume

    A directory as the list of its 32-byte entries in the order of the chain,
    its listing, and what looking up, listing and creating a name do to it. *)

From S2P Require Import Prelude CString Block FatNames Fat FatTable FatData.
Import CString.CString Block.Block FatNames.FatNames Fat.Fat FatTable.FatTable FatData.FatData.
Local Open Scope Z_scope.

Module FatDir.

(** ** Entries *)

(** An entry with the sector and the offset it lies at. *)
Record slot := mk_slot { s_sector : Z; s_offset : Z; s_bytes : list Z }.

(** A walk that may stop. *)
Fixpoint walk {S R} (step : S -> Z -> Z -> list Z -> S + R) (s : S) (l : list slot) : S + R :=
  match l with
  | [] => inl s
  | e :: l => match step s (s_sector e) (s_offset e) (s_bytes e) with inl s => walk step s l | inr r => inr r end
  end.

Lemma walk_app {S R} (step : S -> Z -> Z -> list Z -> S + R) s l1 l2 :
  walk step s (l1 ++ l2) = match walk step s l1 with inl s => walk step s l2 | inr r => inr r end.
Proof. revert s. induction l1 as [|e l1 IH]; intros s; cbn [app walk]; [done|]. destruct (step _ _ _ _); [apply IH | done]. Qed.

(** What a reader of the directory sees of it: an entry and the name its long
    entries give it. *)
Record item := mk_item { i_slot : slot; i_long : option cstr }.

Definition hidden (e : list Z) : bool := has (byte e 11) VOLUME_LABEL.

Fixpoint listing_from (lfn : lfn_state) (l : list slot) : list item :=
  match l with
  | [] => []
  | e :: l =>
      let b := s_bytes e in
      if byte b 0 =? 0 then []
      else if byte b 0 =? DELETED then listing_from (lfn_reset lfn) l
      else if byte b 11 =? LONG_NAME then listing_from (lfn_add_entry lfn b) l
      else if hidden b then listing_from (lfn_reset lfn) l
      else mk_item e (lfn_decode lfn b NAME_CAPACITY) :: listing_from (lfn_reset lfn) l
  end.
Definition listing (l : list slot) : list item := listing_from lfn_start l.

(** Names are compared with the short name and, without case, with the long one. *)
Definition item_matches (name : cstr) (i : item) : bool :=
  match short_name name with Some wanted => bool_decide (take 11 (s_bytes (i_slot i)) = wanted) | None => false end ||
  match i_long i with Some long => path_name_equal name long | None => false end.

Definition item_entry (i : item) : fat32_entry * Z * Z := (entry_of (s_bytes (i_slot i)), s_sector (i_slot i), s_offset (i_slot i)).
Definition item_dirent (i : item) : dirent :=
  let b := s_bytes (i_slot i) in
  mk_dirent (default (display_name b) (i_long i)) (read32 b 28) (if has (byte b 11) DIRECTORY then FS_DIRENT_DIRECTORY else FS_DIRENT_FILE).

Definition found_in (name : cstr) (items : list item) : option item := snd <$> list_find (fun i => item_matches name i = true) items.

Lemma found_cons name i items : found_in name (i :: items) = if item_matches name i then Some i else found_in name items.
Proof.
  unfold found_in. cbn [list_find]. destruct (item_matches name i) eqn:E; [by rewrite decide_True|]. rewrite decide_False by congruence.
  by destruct (list_find _ items) as [[? ?]|].
Qed.

Lemma find_walk name lfn l : match walk (find_step name (short_name name)) lfn l with inr (Some f) => Some f | _ => None end =
  item_entry <$> found_in name (listing_from lfn l).
Proof.
  revert lfn. induction l as [|e l IH]; intros lfn; [done|]. cbn [walk listing_from]. unfold find_step at 1.
  destruct (byte (s_bytes e) 0 =? 0); [done|]. destruct (byte (s_bytes e) 0 =? DELETED); [apply IH|].
  destruct (byte (s_bytes e) 11 =? LONG_NAME); [apply IH|]. fold (hidden (s_bytes e)). destruct (hidden (s_bytes e)); [apply IH|].
  rewrite found_cons. unfold item_matches. cbn [i_slot i_long]. rewrite <- negb_orb. destruct (_ || _); cbn [negb]; [done | apply IH].
Qed.

Lemma readdir_walk index visible lfn l : visible <= index ->
  match walk (readdir_step index) (lfn, visible) l with inr (Some e) => Some e | _ => None end =
  item_dirent <$> listing_from lfn l !! Z.to_nat (index - visible).
Proof.
  revert visible lfn. induction l as [|e l IH]; intros visible lfn Hv; [done|]. cbn [walk listing_from]. unfold readdir_step at 1.
  destruct (byte (s_bytes e) 0 =? 0); [done|]. destruct (byte (s_bytes e) 0 =? DELETED); [by apply IH|].
  destruct (byte (s_bytes e) 11 =? LONG_NAME); [by apply IH|]. fold (hidden (s_bytes e)). destruct (hidden (s_bytes e)); [by apply IH|].
  destruct (Z.eqb_spec visible index) as [->|Hne]; cbn [negb].
  - by rewrite Z.sub_diag.
  - rewrite IH by lia. replace (Z.to_nat (index - visible)) with (S (Z.to_nat (index - (visible + 1)))) by lia. done.
Qed.

(** ** Inserting entries into a listing *)

Definition zero_entry (e : slot) : bool := byte (s_bytes e) 0 =? 0.
Definition deleted (e : slot) : bool := byte (s_bytes e) 0 =? DELETED.
Definition no_end (l : list slot) : Prop := Forall (fun e => zero_entry e = false) l.

(** Deleted entries, then the end of the directory. *)
Definition free_run (b : list slot) : Prop := exists b1 b2, b = b1 ++ b2 /\ Forall (fun e => deleted e = true) b1 /\
  match b2 with [] => True | e :: _ => zero_entry e = true end.

Lemma deleted_not_zero e : deleted e = true -> zero_entry e = false.
Proof. unfold deleted, zero_entry, DELETED. intros E. apply Z.eqb_eq in E. rewrite E. done. Qed.

(** The state of the long name behind some entries. *)
Definition lfn_step (lfn : lfn_state) (e : slot) : lfn_state :=
  let b := s_bytes e in
  if byte b 0 =? DELETED then lfn_reset lfn else if byte b 11 =? LONG_NAME then lfn_add_entry lfn b else lfn_reset lfn.
Definition lfn_after (lfn : lfn_state) (l : list slot) : lfn_state := foldl lfn_step lfn l.

Lemma listing_app lfn a r : no_end a -> listing_from lfn (a ++ r) = listing_from lfn a ++ listing_from (lfn_after lfn a) r.
Proof.
  intros Ha. revert lfn. induction Ha as [|e a He Ha IH]; intros lfn; [done|]. unfold zero_entry in He.
  cbn [app listing_from lfn_after foldl]. rewrite He. unfold lfn_step at 2. fold (lfn_after (lfn_step lfn e) a).
  destruct (byte (s_bytes e) 0 =? DELETED); [apply IH|]. destruct (byte (s_bytes e) 11 =? LONG_NAME); [apply IH|].
  destruct (hidden (s_bytes e)); [apply IH|]. cbn [app]. by rewrite IH.
Qed.

(** Two states without a name in progress read the same. *)
Lemma add_inactive s s' e : active s = false -> active s' = false ->
  lfn_add_entry s e = lfn_add_entry s' e \/ (active (lfn_add_entry s e) = false /\ active (lfn_add_entry s' e) = false).
Proof.
  intros Hs Hs'. unfold lfn_add_entry. destruct (has (byte e 0) 0xA0); [by right|]. destruct (has (byte e 0) 0x40); [by left|].
  rewrite Hs, Hs'. by right.
Qed.

Lemma listing_inactive s s' l : active s = false -> active s' = false -> listing_from s l = listing_from s' l.
Proof.
  revert s s'. induction l as [|e l IH]; intros s s' Hs Hs'; [done|]. cbn [listing_from].
  destruct (_ =? 0); [done|]. destruct (_ =? DELETED); [by apply IH|]. destruct (_ =? LONG_NAME).
  { destruct (add_inactive s s' (s_bytes e) Hs Hs') as [->|(H1 & H2)]; [done | by apply IH]. }
  destruct (hidden _); [by apply IH|]. f_equal; [|by apply IH]. unfold lfn_decode. by rewrite Hs, Hs'.
Qed.

Lemma listing_deleted s b r : Forall (fun e => deleted e = true) b -> listing_from s (b ++ r) = listing_from (lfn_after s b) r.
Proof.
  intros Hb. rewrite listing_app by (eapply Forall_impl; [exact Hb | apply deleted_not_zero]).
  assert (E : listing_from s b = []); [|by rewrite E]. clear r. revert s. induction Hb as [|e b He Hb IH]; intros s; [done|]. cbn [listing_from].
  unfold deleted in He. pose proof (deleted_not_zero e He) as Hz. unfold zero_entry in Hz. rewrite Hz, He. apply IH.
Qed.

Lemma after_deleted s b : Forall (fun e => deleted e = true) b -> b <> [] -> active (lfn_after s b) = false.
Proof.
  intros Hb Hne. destruct (exists_last Hne) as (b0 & e & ->). apply Forall_app in Hb as (_ & He). apply Forall_inv in He.
  unfold lfn_after. rewrite foldl_app. cbn [foldl]. unfold lfn_step at 1. unfold deleted in He. by rewrite He.
Qed.

Lemma listing_zero s e r : zero_entry e = true -> listing_from s (e :: r) = [].
Proof. unfold zero_entry. intros E. cbn [listing_from]. by rewrite E. Qed.

(** Behind the end of a directory there is nothing. *)
Definition clean (l : list slot) : Prop := forall a e b, l = a ++ e :: b -> zero_entry e = true -> Forall (fun x => zero_entry x = true) b.

(** A place for some entries: [E'] is [E], or longer by clear entries that
    are needed. *)
Definition room (E E' a b c : list slot) : Prop :=
  E' = a ++ b ++ c /\ no_end a /\ free_run b /\ b <> [] /\
  (E' = E \/ (exists b0, E = a ++ b0 /\ free_run b0) /\ match c with [] => True | e :: _ => zero_entry e = true end).

(** The listing behind a place once it is filled. *)
Lemma room_rest E E' a b c s : clean E -> room E E' a b c -> active s = false ->
  listing E = listing_from lfn_start a ++ listing_from s c.
Proof.
  intros Hclean (-> & Ha & (b1 & b2 & -> & H1 & H2) & Hne & Hcase) Hs. unfold listing. destruct Hcase as [<-|((b0 & -> & (b3 & b4 & -> & H3 & H4)) & Hc)].
  - rewrite listing_app by done. f_equal. rewrite <- app_assoc, listing_deleted by done. destruct b2 as [|e b2].
    + rewrite app_nil_r in Hne. cbn [app]. apply listing_inactive; [by apply after_deleted | done].
    + cbn [app]. rewrite listing_zero by done. destruct c as [|x c]; [done|].
      assert (Hx : Forall (fun x => zero_entry x = true) (b2 ++ x :: c)).
      { apply (Hclean (a ++ b1) e); [by rewrite <- !app_assoc | done]. }
      apply Forall_app in Hx as (_ & Hx). apply Forall_inv in Hx. by rewrite listing_zero.
  - rewrite listing_app by done. f_equal. rewrite listing_deleted by done.
    assert (E4 : listing_from (lfn_after (lfn_after lfn_start a) b3) b4 = []) by (destruct b4; [done | by apply listing_zero]). rewrite E4.
    destruct c; [done | by rewrite listing_zero].
Qed.

(** Items stored over some entries in a row. *)
Definition fill (b : list slot) (items : list (list Z)) : list slot := zip_with (fun e item => mk_slot (s_sector e) (s_offset e) item) b items.

Definition is_long (b : list Z) : Prop := byte b 0 <> 0 /\ byte b 0 <> DELETED /\ byte b 11 = LONG_NAME.
Definition is_short (b : list Z) : Prop := byte b 0 <> 0 /\ byte b 0 <> DELETED /\ byte b 11 <> LONG_NAME /\ hidden b = false.

Lemma listing_items s b its short c : length b = S (length its) -> Forall is_long its -> is_short short ->
  exists e, s_bytes e = short /\ (s_sector e, s_offset e) ∈ (fun e => (s_sector e, s_offset e)) <$> b /\
    listing_from s (fill b (its ++ [short]) ++ c) =
      mk_item e (lfn_decode (foldl lfn_add_entry s its) short NAME_CAPACITY) :: listing_from (lfn_reset (foldl lfn_add_entry s its)) c.
Proof.
  intros Hl Hits Hshort. revert s b Hl. induction Hits as [|i its (H1 & H2 & H3) Hits IH]; intros s b Hl.
  - destruct b as [|x [|]]; [done | | done]. exists (mk_slot (s_sector x) (s_offset x) short). split; [done|]. split; [by left|].
    cbn [fill app zip_with listing_from foldl s_bytes]. destruct Hshort as (H1 & H2 & H3 & H4).
    by rewrite (proj2 (Z.eqb_neq _ _) H1), (proj2 (Z.eqb_neq _ _) H2), (proj2 (Z.eqb_neq _ _) H3), H4.
  - destruct b as [|x b]; [done|]. destruct (IH (lfn_add_entry s i) b) as (e & E1 & E2 & E3); [simpl in Hl; lia|].
    exists e. split; [done|]. split; [by right|]. cbn [fill app zip_with listing_from foldl s_bytes].
    rewrite (proj2 (Z.eqb_neq _ _) H1), (proj2 (Z.eqb_neq _ _) H2), H3. exact E3.
Qed.

Lemma lfn_items_long us sum : 0 < alen us <= 255 -> Forall (fun b => is_long b /\ length b = 32%nat) (lfn_items us sum).
Proof.
  intros Hu. destruct (long_entries_range us Hu) as (Hn & _). unfold lfn_items. apply Forall_fmap, Forall_seq. intros i Hi. unfold compose. cbv zeta.
  set (o := long_entries us - Z.of_nat i). assert (Ho : 1 <= o <= 20) by lia. clearbody o. generalize (bool_decide (i = 0%nat)). intros h. split; [|done].
  assert (E0 : byte (long_entry us sum o h) 0 = u8 (Z.lor o (if h then 0x40 else 0))) by reflexivity.
  assert (E11 : byte (long_entry us sum o h) 11 = LONG_NAME) by reflexivity.
  destruct (ordinal_bits o Ho) as (P1 & _ & P3 & T1 & _ & T3). unfold is_long. rewrite E0, E11.
  destruct h; cbv iota; (split; [|split; [|done]]); intros E; [rewrite E in T3 | rewrite E in T1 | rewrite E in P3 | rewrite E in P1].
  - vm_compute in T3. lia.
  - done.
  - vm_compute in P3. lia.
  - done.
Qed.

(** ** Short entries *)

Definition alias_ok (alias : list Z) : Prop := length alias = 11%nat /\ 33 <= byte alias 0 <= 126.

Lemma short_entry_bytes a0 a1 a2 a3 a4 a5 a6 a7 a8 a9 a10 attr fc :
  short_entry [a0; a1; a2; a3; a4; a5; a6; a7; a8; a9; a10] attr fc =
    [a0; a1; a2; a3; a4; a5; a6; a7; a8; a9; a10; attr; 0; 0; 0; 0; 0; 0; 0; 0; u8 (u16 (Z.shiftr fc 16)); u8 (Z.shiftr (u16 (Z.shiftr fc 16)) 8);
     0; 0; 0; 0; u8 (u16 fc); u8 (Z.shiftr (u16 fc) 8); 0; 0; 0; 0].
Proof. reflexivity. Qed.

Lemma alias_cases (alias : list Z) : length alias = 11%nat -> exists a0 a1 a2 a3 a4 a5 a6 a7 a8 a9 a10, alias = [a0; a1; a2; a3; a4; a5; a6; a7; a8; a9; a10].
Proof.
  intros Hl. do 11 (destruct alias as [|? alias]; [done|]). destruct alias; [|done]. by repeat eexists.
Qed.

Lemma checksum_short e e' : take 11 e = take 11 e' -> lfn_checksum e = lfn_checksum e'.
Proof.
  intros E. assert (Hb : forall i, 0 <= i < 11 -> byte e i = byte e' i).
  { intros i Hi. unfold byte, aget. by rewrite <- (lookup_take_lt e 11), E, lookup_take_lt by lia. }
  unfold lfn_checksum. assert (Hall : forall n i s, 0 <= i -> i + Z.of_nat n <= 11 ->
    for_up n i (fun i sum => u8 ((if has sum 1 then 0x80 else 0) + Z.shiftr sum 1 + byte e i)) s =
    for_up n i (fun i sum => u8 ((if has sum 1 then 0x80 else 0) + Z.shiftr sum 1 + byte e' i)) s).
  { induction n as [|n IH]; intros i s Hi Hn; [done|]. cbn [for_up]. rewrite Hb by lia. apply IH; lia. }
  apply Hall; unfold trips, SHORT_NAME_SIZE; lia.
Qed.

Lemma short_entry_ok alias attr fc : alias_ok alias -> attr = DIRECTORY \/ attr = 0x20 -> 0 <= fc < 2 ^ 32 ->
  let e := short_entry alias attr fc in
  is_short e /\ length e = 32%nat /\ take 11 e = alias /\ entry_of e = mk_entry fc 0 attr /\ lfn_checksum e = lfn_checksum alias.
Proof.
  intros (Hl & H0) Hattr Hfc e. destruct (alias_cases alias Hl) as (a0 & a1 & a2 & a3 & a4 & a5 & a6 & a7 & a8 & a9 & a10 & ->).
  change (33 <= a0 <= 126) in H0. unfold e. rewrite short_entry_bytes. split; [|split; [reflexivity|]; split; [reflexivity|]; split; [|apply checksum_short; reflexivity]].
  - unfold is_short, hidden. change (byte _ 0) with a0. change (byte _ 11) with attr. unfold DELETED, LONG_NAME, DIRECTORY in *.
    split; [lia|]. split; [lia|]. destruct Hattr as [->| ->]; (split; [lia | done]).
  - unfold entry_of. change (byte _ 11) with attr. f_equal. change (Z.lor (Z.shiftl (read16 ?x 20) 16) _) with
      (Z.lor (Z.shiftl (Z.lor (u8 (u16 (Z.shiftr fc 16))) (Z.shiftl (u8 (Z.shiftr (u16 (Z.shiftr fc 16)) 8)) 8)) 16)
        (Z.lor (u8 (u16 fc)) (Z.shiftl (u8 (Z.shiftr (u16 fc) 8)) 8))).
    rewrite !read_write16 by (unfold u16; apply Z.mod_pos_bound; lia). unfold u16. rewrite lor_shiftl_add by (done || (apply Z.mod_pos_bound; lia)).
    rewrite Z.shiftr_div_pow2 by done. rewrite (Z.mod_small (fc / 2 ^ 16)) by (split; [apply Z.div_pos; lia | apply Z.div_lt_upper_bound; lia]).
    pose proof (Z.div_mod fc (2 ^ 16) ltac:(lia)). lia.
Qed.

(** ** Aliases *)

Lemma upper_byte c : is_byte c -> is_byte (upper c).
Proof. unfold is_byte, upper, lower_case, schar. intros Hc. destruct (Z.ltb_spec c 128); destruct (_ && _) eqn:E; lia. Qed.

Lemma short_loop_ok name ext target result : Forall is_byte name -> length result = 11%nat -> 0 <= target ->
  (0 < target -> 33 <= byte result 0 <= 126) ->
  match short_loop name ext target result with
  | Some (_, _, r) => length r = 11%nat /\ (name <> [] \/ 0 < target -> 33 <= byte r 0 <= 126)
  | None => True
  end.
Proof.
  intros Hn. revert ext target result. induction Hn as [|c name Hc Hn IH]; intros ext target result Hl Ht Hfirst; cbn [short_loop].
  { split; [done|]. intros [|]; [done | by apply Hfirst]. }
  destruct (c =? DOT).
  - destruct (Z.eqb_spec target 0) as [->|Hne]; [by rewrite orb_true_r|]. rewrite orb_false_r. destruct ext; [done|].
    specialize (IH true 8 result Hl ltac:(lia) ltac:(intros _; apply Hfirst; lia)). destruct (short_loop name true 8 result) as [[[e t] r]|]; [|done].
    split; [apply IH|]. intros _. apply IH. right. lia.
  - destruct ((ext && (11 <=? target)) || (negb ext && (8 <=? target))) eqn:E1; [done|].
    destruct (_ || (upper c =? 92)) eqn:E2; [done|]. pose proof (upper_byte c Hc) as Hu. unfold is_byte in Hu.
    assert (Hrange : 33 <= upper c <= 126) by (revert E2; unfold schar; destruct (Z.ltb_spec (upper c) 128); intros; lia).
    assert (Ht11 : target < 11) by (destruct ext; lia).
    specialize (IH ext (target + 1) (aset result target (upper c))). unfold aset at 1 in IH. rewrite length_insert in IH. specialize (IH Hl ltac:(lia)).
    assert (Hf : 33 <= byte (aset result target (upper c)) 0 <= 126).
    { unfold byte. rewrite aget_aset by (unfold alen; lia). case_decide; [done|]. apply Hfirst. lia. }
    specialize (IH (fun _ => Hf)). destruct (short_loop name ext (target + 1) _) as [[[e t] r]|]; [|done].
    split; [apply IH|]. intros _. apply IH. right. lia.
Qed.

Lemma short_name_ok name alias : Forall is_byte name -> short_name name = Some alias -> alias_ok alias.
Proof.
  intros Hn. unfold short_name. destruct (bool_decide_reflect (name = [])) as [|Hne]; [done|].
  pose proof (short_loop_ok name false 0 blank_name Hn eq_refl ltac:(lia) ltac:(lia)) as Hl.
  destruct (short_loop name false 0 blank_name) as [[[e t] r]|]; [|done]. destruct (_ && _); [done|]. intros [= <-].
  split; [apply Hl | apply Hl; by left].
Qed.

Lemma digits_length n v : (length (digits n v) <= n)%nat.
Proof.
  revert v. induction n as [|n IH]; intros v; [done|]. cbn [digits]. rewrite length_app. specialize (IH (v / 10)). cbn [length].
  destruct (v / 10 =? 0); cbn [length]; lia.
Qed.

Lemma plain_first n name : Forall (fun c => 33 <= c <= 126) (plain n name) /\ (length (plain n name) <= n)%nat.
Proof.
  unfold plain. split; [|rewrite length_take; lia]. apply Forall_take, Forall_forall. intros c Hc. apply list_elem_of_filter in Hc as (Hc & _).
  unfold alphanumeric in Hc. lia.
Qed.

Lemma pad_length n l : (length l <= n)%nat -> length (pad n l) = n.
Proof. intros Hl. unfold pad. rewrite length_app, length_replicate. lia. Qed.

Lemma numbered_alias_ok name number : alias_ok (numbered_alias name number).
Proof.
  unfold numbered_alias. pose proof (digits_length 7 number) as Hd. set (ds := digits 7 number) in *. clearbody ds.
  assert (Hb : Forall (fun c => 33 <= c <= 126) (alias_base name) /\ alias_base name <> []).
  { unfold alias_base. case_bool_decide; [split; [repeat constructor; done | done]|]. split; [apply plain_first | done]. }
  assert (He : (length (alias_extension name) <= 3)%nat) by (unfold alias_extension; destruct (last_dot name); [apply plain_first | simpl; lia]).
  assert (H8 : (length (take (7 - length ds) (alias_base name) ++ TILDE :: ds) <= 8)%nat) by (rewrite length_app, length_take; simpl; lia).
  split; [rewrite length_app, !pad_length by done; lia|]. destruct Hb as (Hb & Hne). unfold pad. rewrite <- !app_assoc.
  destruct (7 - length ds)%nat; [change (33 <= TILDE <= 126); unfold TILDE; lia|]. destruct (alias_base name) as [|c base]; [done|].
  apply Forall_inv in Hb. exact Hb.
Qed.

(** ** The entries of a chain *)

Section Dir.
Context {D : Type} `{BlockDevice D} `{!ReliableDevice D} (g : volume).
Hypothesis Hg : volume_ok g.

Notation cluster_ok := (cluster_ok g).
Notation disk_fits := (disk_fits g).
Notation spec := (spec g).
Notation fat := (fat g).
Notation sectors_nat := (sectors_nat g).

Definition slot_at (d : D) (number offset : Z) : slot := mk_slot number offset (take 32 (drop (Z.to_nat offset) (contents d number))).
Definition sector_entries (d : D) (number : Z) : list slot := (fun i => slot_at d number (32 * Z.of_nat i)) <$> seq 0 16.
Fixpoint run_entries (d : D) (n : nat) (number : Z) : list slot :=
  match n with
  | O => []
  | S n => sector_entries d number ++ run_entries d n (number + 1)
  end.
Definition cluster_entries (d : D) (c : Z) : list slot := run_entries d sectors_nat (cluster_sector g c).
Definition chain_entries (d : D) (l : list Z) : list slot := concat (cluster_entries d <$> l).

Section Walks.
Context {S R : Type} (step : S -> Z -> Z -> list Z -> S + R).

Lemma scan_entries_walk n k number d s : scan_entries step n number (32 * Z.of_nat k) (contents d number) s =
  walk step s ((fun i => slot_at d number (32 * Z.of_nat i)) <$> seq k n).
Proof.
  revert k s. induction n as [|n IH]; intros k s; [done|]. cbn [scan_entries seq fmap list_fmap walk slot_at s_sector s_offset s_bytes].
  destruct (step _ _ _ _); [|done]. rewrite <- IH. f_equal. unfold ENTRY. lia.
Qed.

Lemma run_entries_ext d d' n number : (forall i, 0 <= i < Z.of_nat n -> contents d' (number + i) = contents d (number + i)) ->
  run_entries d' n number = run_entries d n number.
Proof.
  revert number. induction n as [|n IH]; intros number Hext; [done|]. cbn [run_entries]. f_equal.
  - specialize (Hext 0). rewrite Z.add_0_r in Hext. unfold sector_entries, slot_at. by rewrite Hext by lia.
  - apply IH. intros i Hi. specialize (Hext (1 + i)). rewrite Z.add_assoc in Hext. apply Hext. lia.
Qed.

Lemma scan_sectors_spec n number s d : disk_fits d -> run_ok g n number ->
  spec (scan_sectors step n number s) d (fun r d' => same_disk d d' /\ r = Some (walk step s (run_entries d n number))).
Proof.
  revert number s d. induction n as [|n IH]; intros number s d Hd Hr; cbn [scan_sectors run_entries]; [by apply spec_ret|].
  apply spec_bind, spec_read; [done | unfold run_ok in Hr; lia |]. intros d1 Hd1 Hs1.
  pose proof (scan_entries_walk 16 0 number d s) as E. change (32 * Z.of_nat 0) with 0 in E. rewrite E. fold (sector_entries d number).
  rewrite walk_app. destruct (walk step s (sector_entries d number)) as [s1|r]; [|by apply spec_ret].
  destruct (decide (n = O)) as [->|Hn]; [by apply spec_ret|]. destruct (run_next g Hg n number Hr Hn) as (-> & Hr').
  eapply spec_weaken; [by apply IH|]. intros r d2 _ (Hs2 & ->). split; [intros m; by rewrite Hs2, Hs1|].
  rewrite (run_entries_ext d d1) by (intros i _; apply Hs1). done.
Qed.

Lemma chain_entries_ext d d' l : (forall x i, x ∈ l -> 0 <= i < sectors_per_cluster g -> contents d' (cluster_sector g x + i) = contents d (cluster_sector g x + i)) ->
  chain_entries d' l = chain_entries d l.
Proof.
  intros Hext. unfold chain_entries. f_equal. apply list_fmap_ext. intros k x Hx%list_elem_of_lookup_2. apply run_entries_ext. intros i Hi.
  apply Hext; [done|]. unfold FatData.sectors_nat in Hi. pose proof (vo_cluster _ Hg). lia.
Qed.

Lemma scan_chain_spec n c l last s d : disk_fits d -> chain g (fat d) c l -> (length l <= n)%nat ->
  spec (scan_chain g step n c last s) d (fun r d' => same_disk d d' /\
    r = Some (match walk step s (chain_entries d l) with inl s => inl (s, List.last l last) | inr r => inr r end)).
Proof.
  revert c l last s d. induction n as [|n IH]; intros c l last s d Hd Hch Hn; cbn [scan_chain].
  { destruct l; [|simpl in Hn; lia]. by apply spec_ret. }
  destruct l as [|x l]; [inversion Hch as [? Hc|]; subst; rewrite Hc; by apply spec_ret|].
  apply chain_cons_inv in Hch as (-> & Hc & Hl). rewrite (cluster_in_chain g Hg x Hc). cbn [negb]. apply spec_bind.
  change (trips 0 (sectors_per_cluster g)) with (Z.to_nat (sectors_per_cluster g - 0)). rewrite Z.sub_0_r. fold sectors_nat.
  eapply spec_weaken; [apply scan_sectors_spec; [done | by apply cluster_run]|]. intros r d1 Hd1 (Hs1 & ->).
  unfold chain_entries. cbn [fmap list_fmap concat]. rewrite walk_app. fold (cluster_entries d x) (chain_entries d l).
  destruct (walk step s (cluster_entries d x)) as [s1|r]; [|by apply spec_ret].
  apply spec_bind. eapply spec_weaken; [by apply next_cluster_spec|]. intros r d2 Hd2 (-> & Hs2).
  assert (Hs : same_disk d d2) by (intros m; by rewrite Hs2, Hs1). rewrite (same_fat g d d1 x Hs1).
  eapply spec_weaken; [apply (IH _ l); [done | | simpl in Hn; lia]; eapply fat_chain_ext; [exact Hl|]; intros y _; by apply same_fat|].
  intros r d3 _ (Hs3 & ->). split; [intros m; by rewrite Hs3, Hs|]. rewrite (chain_entries_ext d d2) by (intros; apply Hs).
  destruct (walk step s1 (chain_entries d l)); [|done]. do 3 f_equal. destruct l as [|y l]; [done|]. clear. revert x y. induction l as [|z l IH]; intros x y; [done|]. cbn. apply IH.
Qed.

Lemma scan_dir_spec c l s d : disk_fits d -> chain g (fat d) c l -> alen l <= MAX_CHAIN ->
  spec (scan g step c s) d (fun r d' => same_disk d d' /\
    r = Some (match walk step s (chain_entries d l) with inl s => inl (s, List.last l c) | inr r => inr r end)).
Proof. intros Hd Hch Hl. apply scan_chain_spec; [done | done |]. unfold alen in Hl. lia. Qed.

End Walks.

(** A directory: its chain, not longer than a walk. *)
Definition directory (d : D) (c : Z) (l : list Z) : Prop := chain g (fat d) c l /\ alen l <= MAX_CHAIN.

Lemma find_entry_spec c l name d : disk_fits d -> directory d c l ->
  spec (find_entry g c name) d (fun r d' => same_disk d d' /\ r = item_entry <$> found_in name (listing (chain_entries d l))).
Proof.
  intros Hd (Hch & Hl). unfold find_entry. apply spec_bind. eapply spec_weaken; [by apply scan_dir_spec|]. intros r d1 Hd1 (Hs & ->).
  pose proof (find_walk name lfn_start (chain_entries d l)) as E. fold (listing (chain_entries d l)) in E.
  destruct (walk _ _ _) as [s|[f|]]; [by apply spec_failed | by apply spec_ret | by apply spec_failed].
Qed.


(** ** Places *)

Definition place (e : slot) : Z * Z := (s_sector e, s_offset e).

Definition sector_places (number : Z) : list (Z * Z) := (fun i => (number, 32 * Z.of_nat i)) <$> seq 0 16.
Fixpoint run_places (n : nat) (number : Z) : list (Z * Z) :=
  match n with
  | O => []
  | S n => sector_places number ++ run_places n (number + 1)
  end.
Definition chain_places (l : list Z) : list (Z * Z) := concat ((fun c => run_places sectors_nat (cluster_sector g c)) <$> l).

Definition entry_at (d : D) (p : Z * Z) : slot := slot_at d (fst p) (snd p).

Lemma run_entries_places d n number : run_entries d n number = entry_at d <$> run_places n number.
Proof.
  revert number. induction n as [|n IH]; intros number; [done|]. cbn [run_entries run_places]. by rewrite fmap_app, IH.
Qed.

Lemma chain_entries_places d l : chain_entries d l = entry_at d <$> chain_places l.
Proof.
  unfold chain_entries, chain_places. induction l as [|c l IH]; [done|]. cbn [fmap list_fmap concat]. rewrite fmap_app.
  unfold cluster_entries at 1. rewrite run_entries_places. f_equal. apply IH.
Qed.

Lemma place_entries d l : place <$> chain_entries d l = chain_places l.
Proof. rewrite chain_entries_places, <- list_fmap_compose. rewrite <- (list_fmap_id (chain_places l)) at 2. apply list_fmap_ext. by intros i [n o] _. Qed.

Lemma elem_of_run n number p : p ∈ run_places n number -> exists i k, 0 <= i < Z.of_nat n /\ 0 <= k < 16 /\ p = (number + i, 32 * k).
Proof.
  revert number. induction n as [|n IH]; intros number Hp; [by apply not_elem_of_nil in Hp|]. cbn [run_places] in Hp. apply elem_of_app in Hp as [Hp|Hp].
  - unfold sector_places in Hp. apply list_elem_of_fmap in Hp as (k & -> & Hk). apply elem_of_seq in Hk. exists 0, (Z.of_nat k). split_and!; try lia. f_equal; lia.
  - destruct (IH _ Hp) as (i & k & Hi & Hk & ->). exists (1 + i), k. split_and!; try lia. f_equal; lia.
Qed.

Lemma elem_of_places l p : p ∈ chain_places l -> exists c i k, c ∈ l /\ 0 <= i < sectors_per_cluster g /\ 0 <= k < 16 /\ p = (cluster_sector g c + i, 32 * k).
Proof.
  induction l as [|c l IH]; intros Hp; [by apply not_elem_of_nil in Hp|].
  change (chain_places (c :: l)) with (run_places sectors_nat (cluster_sector g c) ++ chain_places l) in Hp. apply elem_of_app in Hp as [Hp|Hp].
  - destruct (elem_of_run _ _ _ Hp) as (i & k & Hi & Hk & ->). exists c, i, k. unfold FatData.sectors_nat in Hi. pose proof (vo_cluster _ Hg).
    split_and!; try lia; [by left | done].
  - destruct (IH Hp) as (c' & i & k & Hc & Hi & Hk & ->). exists c', i, k. split_and!; try lia; [by right | done].
Qed.

Lemma run_places_length n number : length (run_places n number) = (16 * n)%nat.
Proof. revert number. induction n as [|n IH]; intros number; [done|]. cbn [run_places]. rewrite length_app, IH. change (length (sector_places number)) with 16%nat. lia. Qed.

Lemma run_nodup n number : NoDup (run_places n number).
Proof.
  revert number. induction n as [|n IH]; intros number; [constructor|]. cbn [run_places]. apply NoDup_app. split_and!; [| |apply IH].
  - unfold sector_places. apply NoDup_fmap_2; [|apply NoDup_seq]. intros a b [= E]. lia.
  - intros p Hp Hq. unfold sector_places in Hp. apply list_elem_of_fmap in Hp as (k & -> & _).
    destruct (elem_of_run _ _ _ Hq) as (i & k' & Hi & _ & [= E _]). lia.
Qed.

Lemma places_nodup l : Forall cluster_ok l -> NoDup l -> NoDup (chain_places l).
Proof.
  intros Hok. induction Hok as [|c l Hc Hok IH]; intros Hnd; [constructor|]. apply NoDup_cons in Hnd as (Hnot & Hnd).
  change (chain_places (c :: l)) with (run_places sectors_nat (cluster_sector g c) ++ chain_places l). apply NoDup_app. split_and!; [apply run_nodup | | by apply IH].
  intros p Hp Hq. destruct (elem_of_run _ _ _ Hp) as (i & k & Hi & _ & ->). destruct (elem_of_places _ _ Hq) as (c' & i' & k' & Hc' & Hi' & _ & [= E _]).
  rewrite Forall_forall in Hok. unfold FatData.sectors_nat in Hi. pose proof (vo_cluster _ Hg).
  apply (clusters_disjoint g Hg c c' i i'); [done | by apply Hok | by intros -> | lia | done | done].
Qed.

Lemma chain_places_app l1 l2 : chain_places (l1 ++ l2) = chain_places l1 ++ chain_places l2.
Proof. unfold chain_places. by rewrite fmap_app, concat_app. Qed.

(** ** Storing an entry *)

Lemma put_entry_split sector offset item : 0 <= offset -> offset + 32 <= alen sector -> length item = 32%nat ->
  put_entry sector offset item = take (Z.to_nat offset) sector ++ item ++ drop (Z.to_nat (offset + 32)) sector.
Proof.
  intros Ho Hs Hi.
  assert (Hp : alen (put_entry sector offset item) = alen sector /\ forall k, 0 <= k ->
    aget 0 (put_entry sector offset item) k = if (offset <=? k) && (k <? offset + 32) then byte item (k - offset) else aget 0 sector k).
  { unfold put_entry. apply (for_up_ind (fun n l' => 0 <= n <= 32 -> alen l' = alen sector /\ forall k, 0 <= k ->
      aget 0 l' k = if (offset <=? k) && (k <? offset + n) then byte item (k - offset) else aget 0 sector k) _ (trips 0 ENTRY) 0 sector); [| |done].
    - intros _. split; [done|]. intros k Hk. destruct (_ && _) eqn:E; [lia | done].
    - intros j t Hj IH Hj1. change (0 + Z.of_nat (trips 0 ENTRY)) with 32 in Hj. destruct (IH ltac:(lia)) as (E1 & E2). rewrite alen_aset. split; [done|].
      intros k Hk. rewrite aget_aset by lia. case_decide as Ek; [subst k; destruct (_ && _) eqn:E; [f_equal; lia | lia]|].
      rewrite E2 by done. destruct ((offset <=? k) && (k <? offset + j)) eqn:E3, ((offset <=? k) && (k <? offset + (j + 1))) eqn:E4; lia || done. }
  destruct Hp as (Hlen & Hget). apply list_eq_same_length with (length sector); [rewrite !length_app, length_take, length_drop; unfold alen in *; lia | unfold alen in *; lia |].
  intros i x y Hlt Hx Hy. specialize (Hget (Z.of_nat i) ltac:(lia)). unfold aget, byte, aget in Hget. rewrite Nat2Z.id, Hx in Hget. cbn in Hget. subst x. unfold alen in *.
  destruct ((offset <=? Z.of_nat i) && (Z.of_nat i <? offset + 32)) eqn:E.
  - rewrite lookup_app_r in Hy by (rewrite length_take; lia). rewrite length_take, lookup_app_l in Hy by lia.
    replace (Z.to_nat (Z.of_nat i - offset)) with (i - Z.to_nat offset `min` length sector)%nat by lia. by rewrite Hy.
  - destruct (decide (Z.of_nat i < offset)).
    + rewrite lookup_app_l, lookup_take_lt in Hy by (rewrite ?length_take; lia). by rewrite Hy.
    + rewrite lookup_app_r, lookup_app_r, lookup_drop in Hy by (rewrite ?length_take; lia). rewrite length_take, Hi in Hy.
      replace (Z.to_nat (offset + 32) + _)%nat with i in Hy by lia. by rewrite Hy.
Qed.


(** The entries of a sector after one was stored. *)
Lemma put_entry_slice sector k k' item : length sector = 512%nat -> length item = 32%nat -> 0 <= k < 16 -> 0 <= k' < 16 ->
  take 32 (drop (Z.to_nat (32 * k')) (put_entry sector (32 * k) item)) = if decide (k' = k) then item else take 32 (drop (Z.to_nat (32 * k')) sector).
Proof.
  intros Hs Hi Hk Hk'. rewrite put_entry_split by (done || (unfold alen; lia)).
  destruct (decide (k' = k)) as [->|Hne].
  - rewrite drop_app_length' by (rewrite length_take; lia). apply take_app_length'. done.
  - destruct (decide (k' < k)).
    + rewrite drop_app_le by (rewrite length_take; lia). rewrite take_app_le by (rewrite length_drop, length_take; lia).
      rewrite take_drop_commute, take_take, take_drop_commute. do 2 f_equal. lia.
    + rewrite drop_app_ge by (rewrite length_take; lia). rewrite drop_app_ge by (rewrite length_take; lia). rewrite drop_drop, length_take.
      do 2 f_equal. lia.
Qed.

Lemma put_entry_length sector k item : length sector = 512%nat -> length item = 32%nat -> 0 <= k < 16 -> length (put_entry sector (32 * k) item) = 512%nat.
Proof.
  intros Hs Hi Hk. rewrite put_entry_split by (done || (unfold alen; lia)). rewrite !length_app, length_take, length_drop. lia.
Qed.

Definition aligned_place (p : Z * Z) : Prop := exists k, 0 <= k < 16 /\ snd p = 32 * k.

Lemma places_aligned l p : p ∈ chain_places l -> aligned_place p.
Proof. intros Hp. destruct (elem_of_places _ _ Hp) as (c & i & k & _ & _ & Hk & ->). by exists k. Qed.

Lemma places_in l p : Forall cluster_ok l -> p ∈ chain_places l -> data_start_sector g <= fst p < volume_end g.
Proof.
  intros Hok Hp. destruct (elem_of_places _ _ Hp) as (c & i & k & Hc & Hi & _ & ->). rewrite Forall_forall in Hok.
  destruct (cluster_sector_ok g Hg c (Hok c Hc)) as (_ & H1 & H2 & _). cbn. lia.
Qed.

Lemma store_entry_spec p item d : disk_fits d -> aligned_place p -> 0 <= fst p < volume_end g -> length item = 32%nat ->
  spec (store_entry p item) d (fun r d' => r = Some tt /\ (forall m, m <> fst p -> contents d' m = contents d m) /\
    forall q, aligned_place q -> entry_at d' q = if decide (q = p) then mk_slot (fst p) (snd p) item else entry_at d q).
Proof.
  intros Hd (k & Hk & Ek) Hp Hi. unfold store_entry. apply spec_bind, spec_read; [done | done |]. intros d1 Hd1 Hs1. rewrite Ek.
  assert (Hlen : length (contents d (fst p)) = 512%nat) by (apply contents_length, Hd).
  apply spec_write; [done | done | by apply put_entry_length |]. intros d2 Hd2 Hw Ho. split; [done|].
  split; [intros m Hm; rewrite Ho by done; apply Hs1|]. intros q (k' & Hk' & Ek'). unfold entry_at, slot_at. rewrite Ek'.
  destruct p as [n o], q as [n' o']. cbn [fst snd] in *. subst o o'. destruct (decide (n' = n)) as [->|Hne].
  - rewrite Hw, put_entry_slice by done. destruct (decide (k' = k)) as [->|Hkk]; [by rewrite decide_True|]. rewrite decide_False; [done|]. intros [= E]. lia.
  - rewrite Ho, Hs1 by done. rewrite decide_False; [done|]. congruence.
Qed.

Lemma store_entries_spec items b d : disk_fits d -> NoDup (place <$> b) -> length items = length b -> Forall (fun item => length item = 32%nat) items ->
  Forall (fun e => aligned_place (place e) /\ 0 <= s_sector e < volume_end g) b ->
  spec (store_entries (place <$> b) items) d (fun r d' => r = Some tt /\
    (forall m, m ∉ s_sector <$> b -> contents d' m = contents d m) /\
    (forall q, aligned_place q -> q ∉ place <$> b -> entry_at d' q = entry_at d q) /\ entry_at d' <$> (place <$> b) = fill b items).
Proof.
  revert b d. induction items as [|item items IH]; intros [|e b] d Hd Hnd Hlen Hitems Hb; try done; cbn [fmap list_fmap store_entries].
  apply NoDup_cons in Hnd as (Hnot & Hnd). apply Forall_cons in Hitems as (Hi & Hitems). apply Forall_cons in Hb as ((Ha & Hin) & Hb).
  apply spec_bind. eapply spec_weaken; [by apply store_entry_spec|]. intros r d1 Hd1 (-> & Ho1 & He1).
  eapply spec_weaken; [apply IH; [done | done | simpl in Hlen; lia | done | done]|]. intros r d2 _ (-> & Ho2 & He2 & Hfill). split; [done|]. split_and!.
  - intros m Hm. apply not_elem_of_cons in Hm as (Hm1 & Hm2). by rewrite Ho2, Ho1.
  - intros q Hq Hqb. apply not_elem_of_cons in Hqb as (Hq1 & Hq2). rewrite He2, He1 by done. by rewrite decide_False.
  - cbn [fill zip_with]. f_equal; [|exact Hfill]. rewrite He2, He1 by done. by rewrite decide_True.
Qed.

(** ** Free entries in a row *)

Record slots_inv (required : Z) (a b : list slot) (end_seen : bool) : Prop := {
  si_no_end : no_end a;
  si_free : free_run b;
  si_end : if end_seen then exists e, e ∈ b /\ zero_entry e = true else Forall (fun e => deleted e = true) b;
  si_short : alen b < required;
}.

Lemma free_run_snoc b e : free_run b -> (exists x, x ∈ b /\ zero_entry x = true) \/ zero_entry e = true \/ (Forall (fun e => deleted e = true) b /\ deleted e = true) ->
  free_run (b ++ [e]).
Proof.
  intros (b1 & b2 & -> & H1 & H2) Hc. destruct b2 as [|x b2].
  - rewrite app_nil_r in *. destruct Hc as [(x & Hx & Hz)|[Hz|(_ & Hdel)]].
    + rewrite Forall_forall in H1. specialize (H1 x Hx). apply deleted_not_zero in H1. congruence.
    + by exists b1, [e].
    + exists (b1 ++ [e]), []. rewrite app_nil_r. split; [done|]. split; [|done]. apply Forall_app. split; [done|]. by constructor.
  - exists b1, (x :: b2 ++ [e]). split; [by rewrite <- app_assoc|]. done.
Qed.

Lemma slot_walk required l a b es : 1 <= required -> slots_inv required a b es ->
  match walk (slot_step required) (place <$> b, es) l with
  | inr slots => exists a' b' c, a ++ b ++ l = a' ++ b' ++ c /\ slots = place <$> b' /\ alen b' = required /\ no_end a' /\ free_run b'
  | inl (slots, es') => exists a' b', a ++ b ++ l = a' ++ b' /\ slots = place <$> b' /\ slots_inv required a' b' es'
  end.
Proof.
  intros Hreq. revert a b es. induction l as [|e l IH]; intros a b es Hinv; cbn [walk].
  { exists a, b. by rewrite app_nil_r. }
  unfold slot_step at 1. fold (zero_entry e) (deleted e). destruct Hinv as [Hne Hfree Hend Hshort].
  assert (Hal : alen (place <$> b) = alen b) by (unfold alen; by rewrite length_fmap). rewrite Hal.
  destruct ((es || zero_entry e) || deleted e) eqn:E.
  - destruct (Z.ltb_spec (alen b) required); [|lia].
    assert (Hfree' : free_run (b ++ [e])).
    { apply free_run_snoc; [done|]. destruct es; [by left|]. destruct (zero_entry e); [by right; left|]. right. by right. }
    assert (Ep : (place <$> b) ++ [(s_sector e, s_offset e)] = place <$> (b ++ [e])) by (by rewrite fmap_app). rewrite Ep.
    assert (Hal' : alen (place <$> (b ++ [e])) = alen b + 1) by (unfold alen; rewrite length_fmap, length_app; simpl; lia). rewrite Hal'.
    destruct (Z.eqb_spec (alen b + 1) required) as [Er|Er].
    + exists a, (b ++ [e]), l. rewrite <- !app_assoc. split_and!; try done. unfold alen in *. rewrite length_app. simpl. lia.
    + specialize (IH a (b ++ [e]) (es || zero_entry e)). rewrite <- app_assoc in IH. apply IH. split; [done | done | |unfold alen in *; rewrite length_app; simpl; lia].
      destruct es; cbn [orb] in *.
      { destruct Hend as (x & Hx & Hz). exists x. split; [apply elem_of_app; by left | done]. }
      destruct (zero_entry e) eqn:Ez; [exists e; split; [apply elem_of_app; right; by left | done]|]. apply Forall_app. split; [done|]. by constructor.
  - apply orb_false_iff in E as (E & Edel). apply orb_false_iff in E as (-> & Ez). rewrite Ez. cbn [orb].
    specialize (IH (a ++ b ++ [e]) [] false). rewrite <- !app_assoc in IH. cbn [app] in IH. apply IH. split.
    + apply Forall_app. split; [done|]. apply Forall_app. split; [|by constructor]. eapply Forall_impl; [exact Hend|]. apply deleted_not_zero.
    + exists [], []. done.
    + constructor.
    + unfold alen. simpl. lia.
Qed.


(** ** More room *)

Definition zero_at (d : D) (p : Z * Z) : Prop := s_bytes (entry_at d p) = replicate 32 0.

Lemma sector_zero d number : contents d number = zero_sector -> Forall (zero_at d) (sector_places number).
Proof.
  intros E. unfold sector_places. apply Forall_fmap, Forall_seq. intros i Hi. unfold compose, zero_at, entry_at, slot_at. cbn [fst snd s_bytes].
  rewrite E. unfold zero_sector. rewrite drop_replicate, take_replicate. f_equal. lia.
Qed.

Lemma zero_at_same d d' p : contents d' (fst p) = contents d (fst p) -> zero_at d p -> zero_at d' p.
Proof. unfold zero_at, entry_at, slot_at. by intros ->. Qed.

Lemma sector_places_fst number : Forall (fun p => fst p = number) (sector_places number).
Proof. unfold sector_places. apply Forall_fmap, Forall_seq. done. Qed.

(** The slots found in cleared sectors; the entry behind them is clear when
    the sectors were not all needed. *)
Lemma clear_slots_spec n number required slots d : disk_fits d -> run_ok g n number -> alen slots <= required ->
  spec (clear_slots n number required slots) d (fun r d' => (forall m, m < number \/ number + Z.of_nat n <= m -> contents d' m = contents d m) /\
    match r with
    | Some (inl slots') => slots' = slots ++ run_places n number /\ alen slots' <= required /\ Forall (zero_at d') (run_places n number)
    | Some (inr slots') => exists f1 q f2, run_places n number = f1 ++ q :: f2 /\ slots' = slots ++ f1 /\ alen slots' = required /\
        Forall (zero_at d') f1 /\ zero_at d' q
    | None => False
    end).
Proof.
  revert number slots d. induction n as [|n IH]; intros number slots d Hd Hr Hs; cbn [clear_slots run_places].
  { apply spec_ret; [done|]. rewrite app_nil_r. split; [done|]. split; [done|]. by split. }
  apply spec_bind, spec_write; [done | unfold run_ok in Hr; lia | done |]. intros d1 Hd1 Hw Ho. change (sector_slots number) with (sector_places number).
  pose proof (sector_zero d1 number Hw) as Hz. assert (H16 : length (sector_places number) = 16%nat) by done.
  destruct (Z.ltb_spec required (alen (slots ++ sector_places number))) as [Hlt|Hge].
  - apply spec_ret; [done|]. split; [intros m Hm; apply Ho; lia|]. set (k := (Z.to_nat required - length slots)%nat).
    assert (Hk : (k < 16)%nat) by (unfold k, alen in *; rewrite length_app in Hlt; lia).
    destruct (lookup_lt_is_Some_2 (sector_places number) k) as (q & Eq); [lia|]. pose proof (take_drop_middle _ _ _ Eq) as Esp.
    exists (take k (sector_places number)), q, (drop (S k) (sector_places number) ++ run_places n (number + 1)).
    split; [by rewrite <- Esp, <- app_assoc at 1|]. split; [|split; [|split]].
    + rewrite take_app. f_equal. apply take_ge. unfold alen in *; lia.
    + unfold alen in *. rewrite length_take, length_app. lia.
    + by apply Forall_take.
    + rewrite Forall_lookup in Hz. by apply (Hz k).
  - destruct (decide (n = O)) as [->|Hn].
    { cbn [clear_slots run_places]. apply spec_ret; [done|]. rewrite app_nil_r. split; [intros m Hm; apply Ho; lia|]. done. }
    destruct (run_next g Hg n number Hr Hn) as (-> & Hr'). eapply spec_weaken; [by apply IH|]. intros r d2 _ (Ho2 & Hres).
    split; [intros m Hm; rewrite Ho2 by lia; apply Ho; lia|].
    assert (Hz2 : Forall (zero_at d2) (sector_places number)).
    { pose proof (sector_places_fst number) as Hfst. rewrite Forall_forall in Hz, Hfst |- *. intros p Hp. apply (zero_at_same d1); [|by apply Hz].
      rewrite (Hfst p Hp). apply Ho2. lia. }
    destruct r as [[slots'|slots']|]; [| |done].
    + destruct Hres as (-> & Hle & Hz3). rewrite app_assoc. split; [done|]. split; [done|]. by apply Forall_app.
    + destruct Hres as (f1 & q & f2 & Ef & -> & Hl & Hz3 & Hq). exists (sector_places number ++ f1), q, f2. rewrite Ef, <- !app_assoc in *.
      split; [done|]. split; [done|]. split; [done|]. split; [by apply Forall_app | done].
Qed.

(** What an operation on the directory with chain [l] leaves alone: the
    sectors of clusters that were in use, those of the directory apart. *)
Definition sectors_kept (new : list Z) (d d' : D) : Prop :=
  forall m, m < fat_start_sector g \/ data_start_sector g <= m -> outside g new m -> contents d' m = contents d m.

Lemma zeros_kept d d' a new : cluster_ok a -> fat d a <> 0 -> were_free g d new -> sectors_kept new d d' ->
  Forall (zero_at d) (run_places sectors_nat (cluster_sector g a)) -> Forall (zero_at d') (run_places sectors_nat (cluster_sector g a)).
Proof.
  intros Ha Huse Hfree Hkept Hz. rewrite Forall_forall in Hz |- *. intros p Hp. apply (zero_at_same d); [|by apply Hz].
  destruct (elem_of_run _ _ _ Hp) as (i & k & Hi & _ & ->). cbn [fst]. unfold FatData.sectors_nat in Hi. apply Hkept.
  - right. destruct (cluster_sector_ok g Hg a Ha) as (_ & H1 & _). lia.
  - apply (place_outside g Hg d [] new); [done | lia | by intros y Hy%not_elem_of_nil | apply not_elem_of_nil | done | done].
Qed.

(** New clusters at the end of a directory: the slots that were found and the
    first entries of the new clusters. *)
Lemma extend_spec fuel c l x required slots d : disk_fits d -> chain g (fat d) c (l ++ [x]) -> in_use (fat d) (l ++ [x]) -> alen slots <= required ->
  (Z.to_nat (required - alen slots) < fuel)%nat ->
  spec (extend_directory g fuel x required slots) d (fun r d' => exists new, were_free g d new /\ table_frame g (l ++ [x]) new d d' /\
    chain g (fat d') c ((l ++ [x]) ++ new) /\ in_use (fat d') ((l ++ [x]) ++ new) /\
    (forall m, (m < fat_start_sector g \/ data_start_sector g <= m) -> outside g new m -> contents d' m = contents d m) /\
    alen new <= Z.max 0 (required - alen slots) /\
    match r with
    | Some slots' => exists f1 f2, chain_places new = f1 ++ f2 /\ slots' = slots ++ f1 /\ alen slots' = required /\ Forall (zero_at d') f1 /\
        match f2 with [] => True | q :: _ => zero_at d' q end
    | None => Forall (zero_at d') (chain_places new) /\ forall y, cluster_ok y -> fat d' y <> 0
    end).
Proof.
  revert l x slots d. induction fuel as [|fuel IH]; intros l x slots d Hd Hch Huse Hs Hf; [lia|]. cbn [extend_directory].
  destruct (Z.ltb_spec (alen slots) required) as [Hlt|Hge]; cbn [negb].
  2:{ apply spec_ret; [done|]. exists []. rewrite app_nil_r. destruct (frame_refl g (l ++ [x]) d d) as (_ & H2 & H3); [done|].
      split_and!; try done; [unfold alen; simpl; lia|]. exists [], []. rewrite (app_nil_r slots). split_and!; try done; lia. }
  apply (link_spec g Hg _ c l x d); [done | done | done | |].
  2:{ intros d1 Hd1 Hsame Hfull. exists []. rewrite app_nil_r. destruct (frame_refl g (l ++ [x]) d d1 Hsame) as (_ & H2 & H3).
      destruct (chain_same g c _ d d1 Hsame Hch Huse) as (H4 & H5).
      split_and!; try done; [unfold alen; simpl; lia |]. intros y Hy. rewrite (same_fat g d d1 y Hsame). by apply Hfull. }
  intros a d1 Hd1 Ha Hz Hdata1 Hfa Hch1 Huse1. apply spec_bind.
  change (trips 0 (sectors_per_cluster g)) with (Z.to_nat (sectors_per_cluster g - 0)). rewrite Z.sub_0_r. fold sectors_nat.
  eapply spec_weaken; [apply clear_slots_spec; [done | by apply cluster_run | lia]|]. intros r d2 Hd2 (Ho & Hr).
  destruct (cluster_sector_ok g Hg a Ha) as (_ & Hcs & _). pose proof (vo_cluster _ Hg) as Hspc.
  assert (Hsn : Z.of_nat sectors_nat = sectors_per_cluster g) by (unfold FatData.sectors_nat; lia). rewrite Hsn in Ho.
  assert (Hf2 : forall y, cluster_ok y -> fat d2 y = fat d1 y) by (intros y Hy; apply fat_data; [done | done |]; intros m Hm; apply Ho; lia).
  assert (Hch2 : chain g (fat d2) c ((l ++ [x]) ++ [a])).
  { eapply fat_chain_ext; [exact Hch1|]. intros y Hy. apply Hf2. exact (chain_ok g _ _ _ y Hch1 Hy). }
  assert (Huse2 : in_use (fat d2) ((l ++ [x]) ++ [a])).
  { intros y Hy. rewrite Hf2 by exact (chain_ok g _ _ _ y Hch1 Hy). by apply Huse1. }
  assert (Hfa2 : forall y, cluster_ok y -> fat d2 y = if decide (y = x) then a else if decide (y = a) then END_OF_CHAIN else fat d y).
  { intros y Hy. by rewrite Hf2, Hfa. }
  assert (Hout : forall m, m < fat_start_sector g \/ data_start_sector g <= m -> outside g [a] m -> contents d2 m = contents d m).
  { intros m Hm Hoa. rewrite Ho; [by apply Hdata1|]. apply Hoa. by left. }
  destruct r as [[slots'|slots']|]; [| |done].
  - destruct Hr as (Eslots & Hle & Hzero). assert (Halen : alen slots' = alen slots + 16 * sectors_per_cluster g).
    { rewrite Eslots. unfold alen. rewrite length_app, run_places_length. lia. }
    eapply spec_weaken; [apply (IH (l ++ [x]) a); [done | done | done | lia | lia]|].
    intros r d3 _ (new & Hfree & Hframe & Hch3 & Huse3 & Hout3 & Hlen & Hr3). exists (a :: new).
    destruct (link_frame g l x a new d d2 d3 Ha Hz Hfa2 Hfree Hframe) as (Hfree' & Hframe').
    rewrite <- app_assoc in Hch3, Huse3. cbn [app] in Hch3, Huse3. split_and!; try done.
    + intros m Hm Hom. rewrite Hout3; [apply Hout; [done|]; intros y ->%list_elem_of_singleton; apply Hom; by left | done |].
      intros y Hy. apply Hom. by right.
    + unfold alen in *. simpl. lia.
    + assert (Hzero3 : Forall (zero_at d3) (run_places sectors_nat (cluster_sector g a))).
      { apply (zeros_kept d2 d3 a new); [done | apply Huse2, elem_of_app; right; by left | done | done | done]. }
      change (chain_places (a :: new)) with (run_places sectors_nat (cluster_sector g a) ++ chain_places new).
      destruct r as [slots''|]; [|destruct Hr3 as (Hz3 & Hfull); split; [by apply Forall_app | exact Hfull]].
      destruct Hr3 as (f1 & f2 & Ef & -> & Hl3 & Hz3 & Hq). exists (run_places sectors_nat (cluster_sector g a) ++ f1), f2.
      split; [by rewrite Ef, app_assoc|]. rewrite Eslots, <- app_assoc. rewrite Eslots, <- app_assoc in Hl3. split_and!; try done. by apply Forall_app.
  - destruct Hr as (f1 & q & f2 & Ef & -> & Hl & Hzero & Hq). apply spec_ret; [done|]. exists [a].
    destruct (link_frame g l x a [] d d2 d2 Ha Hz Hfa2) as (Hfree' & Hframe'); [by intros y Hy%not_elem_of_nil | done |].
    split_and!; try done; [unfold alen in *; simpl; lia|]. exists f1, (q :: f2).
    change (chain_places [a]) with (run_places sectors_nat (cluster_sector g a) ++ []). by rewrite app_nil_r.
Qed.


Lemma place_entry_at d (l : list (Z * Z)) : place <$> (entry_at d <$> l) = l.
Proof. rewrite <- list_fmap_compose. rewrite <- (list_fmap_id l) at 2. apply list_fmap_ext. by intros i [n o] _. Qed.

Lemma zero_at_entry d p : zero_at d p -> zero_entry (entry_at d p) = true.
Proof. unfold zero_at, zero_entry. by intros ->. Qed.

Lemma free_run_zeros b z : free_run b -> Forall (fun e => zero_entry e = true) z -> free_run (b ++ z).
Proof.
  intros (b1 & b2 & -> & H1 & H2) Hz. exists b1, (b2 ++ z). split; [by rewrite <- app_assoc|]. split; [done|].
  destruct b2; [|done]. destruct Hz; done.
Qed.

Lemma kept_entries l new d d' : Forall cluster_ok l -> in_use (fat d) l -> were_free g d new -> sectors_kept new d d' -> chain_entries d' l = chain_entries d l.
Proof.
  intros Hok Huse Hfree Hkept. apply chain_entries_ext. intros x i Hx Hi. rewrite Forall_forall in Hok. apply Hkept.
  - right. destruct (cluster_sector_ok g Hg x (Hok x Hx)) as (_ & H1 & _). lia.
  - apply (place_outside g Hg d [] new); [by apply Hok | done | by intros y Hy%not_elem_of_nil | apply not_elem_of_nil | by apply Huse | done].
Qed.

Lemma chain_layout c l d : chain g (fat d) c l -> NoDup (chain_places l) /\ Forall cluster_ok l.
Proof.
  intros Hch. assert (Hok : Forall cluster_ok l) by (apply Forall_forall; intros y Hy; exact (chain_ok g _ _ _ y Hch Hy)).
  split; [|done]. apply places_nodup; [done|]. by eapply chain_nodup.
Qed.

Lemma listing_zeros s l z : Forall (fun e => zero_entry e = true) z -> listing_from s (l ++ z) = listing_from s l.
Proof.
  intros Hz. revert s. induction l as [|e l IH]; intros s; [by destruct Hz; [|apply listing_zero]|]. cbn [app listing_from]. by rewrite !IH.
Qed.

Lemma find_free_slots_spec c l required d : disk_fits d -> directory d c l -> in_use (fat d) l -> l <> [] -> 1 <= required ->
  spec (find_free_slots g c required) d (fun r d' => exists new, were_free g d new /\ table_frame g l new d d' /\ chain g (fat d') c (l ++ new) /\
    in_use (fat d') (l ++ new) /\ sectors_kept new d d' /\ alen new <= required /\
    match r with
    | Some slots => exists a b cc, room (chain_entries d l) (chain_entries d' (l ++ new)) a b cc /\ slots = place <$> b /\ alen b = required
    | None => listing (chain_entries d' (l ++ new)) = listing (chain_entries d l) /\ forall y, cluster_ok y -> fat d' y <> 0
    end).
Proof.
  intros Hd (Hch & Hlen) Huse Hne Hreq. unfold find_free_slots. apply spec_bind. eapply spec_weaken; [by apply scan_dir_spec|]. intros r d1 Hd1 (Hs & ->).
  pose proof (slot_walk required (chain_entries d l) [] [] false Hreq) as Hw. cbn [app fmap list_fmap] in Hw.
  assert (Hinv : slots_inv required [] [] false) by (split; [constructor | by exists [], [] | constructor | unfold alen; simpl; lia]). specialize (Hw Hinv). clear Hinv.
  assert (Hb : forall (b : list slot), alen b = required -> b <> []) by (intros [|]; unfold alen; simpl; [lia | done]).
  destruct (chain_same g c l d d1 Hs Hch Huse) as (Hch1 & Huse1).
  destruct (walk _ _ _) as [[slots es]|slots].
  - destruct Hw as (a & b & E & -> & [Ha Hfree _ Hshort]). destruct (exists_last Hne) as (l0 & x & ->).
    assert (El : List.last (l0 ++ [x]) c = x) by apply last_last. rewrite El.
    assert (Hal : alen (place <$> b) = alen b) by (unfold alen; by rewrite length_fmap).
    eapply spec_weaken; [apply (extend_spec _ c l0 x); [done | done | done | lia | rewrite Hal; pose proof (alen_nonneg b); lia]|].
    intros r d2 _ (new & Hfr & Hframe & Hch2 & Huse2 & Hkept & Hnew & Hr). rewrite Hal in Hnew. exists new.
    assert (Hfr' : were_free g d new) by (intros y Hy; destruct (Hfr y Hy); rewrite <- (same_fat g d d1 y Hs); done).
    assert (Hkept' : sectors_kept new d d2) by (intros m Hm Ho; rewrite Hkept by done; apply Hs).
    split; [done|]. split; [intros y H1 H2 H3; rewrite Hframe by done; by apply same_fat|]. split_and!; try done; [pose proof (alen_nonneg b); lia|].
    assert (Ekept : chain_entries d2 (l0 ++ [x]) = chain_entries d (l0 ++ [x])) by (apply (kept_entries (l0 ++ [x]) new); try done; by eapply chain_layout).
    destruct r as [slots|].
    2:{ destruct Hr as (Hz & Hfull). split; [|done]. rewrite chain_entries_places, chain_places_app, fmap_app, <- chain_entries_places, Ekept.
        apply listing_zeros, Forall_fmap. eapply Forall_impl; [exact Hz|]. apply zero_at_entry. }
    destruct Hr as (f1 & f2 & Ef & -> & Hl2 & Hz & Hq).
    exists a, (b ++ (entry_at d2 <$> f1)), (entry_at d2 <$> f2). split; [|split].
    + assert (Ech : chain_entries d2 ((l0 ++ [x]) ++ new) = a ++ (b ++ (entry_at d2 <$> f1)) ++ (entry_at d2 <$> f2)).
      { rewrite chain_entries_places, chain_places_app, fmap_app, Ef, fmap_app, <- chain_entries_places.
        by rewrite Ekept, E, <- !app_assoc. }
      split; [done|]. split; [done|]. split; [|split; [|right; split]].
      * apply free_run_zeros; [done|]. apply Forall_fmap. eapply Forall_impl; [exact Hz|]. apply zero_at_entry.
      * apply Hb. unfold alen in *. rewrite length_app, !length_fmap in *. lia.
      * exists b. split; [exact E | done].
      * destruct f2; [done|]. by apply zero_at_entry.
    + by rewrite fmap_app, place_entry_at.
    + unfold alen in *. rewrite length_app, !length_fmap in *. lia.
  - destruct Hw as (a & b & cc & E & -> & Hl2 & Ha & Hfree). apply spec_ret; [done|]. exists []. rewrite app_nil_r.
    destruct (frame_refl g l d d1 Hs) as (Hdata & H2 & H3). split_and!; try done; [intros m Hm _; by apply Hdata | unfold alen; simpl; lia |].
    exists a, b, cc. split; [|done]. rewrite (chain_entries_ext d d1) by (intros; apply Hs). split; [done|]. split; [done|]. split; [done|]. split; [by apply Hb | by left].
Qed.

Lemma alias_exists_spec c l alias d : disk_fits d -> directory d c l ->
  spec (short_alias_exists g c alias) d (fun r d' => same_disk d d' /\ is_Some r).
Proof.
  intros Hd (Hch & Hl). unfold short_alias_exists. apply spec_bind, spec_attempt. eapply spec_weaken; [by apply scan_dir_spec|].
  intros r d1 Hd1 (Hs & ->). apply spec_ret; [done|]. split; [done | by eexists].
Qed.

Lemma free_alias_spec n number c l name d : disk_fits d -> directory d c l ->
  spec (free_alias g n number c name) d (fun r d' => same_disk d d' /\ forall alias, r = Some alias -> alias_ok alias).
Proof.
  revert number d. induction n as [|n IH]; intros number d Hd Hdir; cbn [free_alias]; [by apply spec_failed|].
  apply spec_bind. eapply spec_weaken; [by apply (alias_exists_spec c l)|]. intros r d1 Hd1 (Hs & (b & ->)). destruct b; cbn [negb].
  - eapply spec_weaken; [apply IH; [done|]|].
    + destruct Hdir as (Hch & Hl). split; [|done]. eapply fat_chain_ext; [exact Hch|]. intros y _. by apply same_fat.
    + intros r d2 _ (Hs2 & Hr). split; [intros m; by rewrite Hs2, Hs | done].
  - apply spec_ret; [done|]. split; [done|]. intros alias [= <-]. apply numbered_alias_ok.
Qed.

Lemma make_alias_spec c l name d : disk_fits d -> directory d c l -> Forall is_byte name ->
  spec (make_short_alias g c name) d (fun r d' => same_disk d d' /\ forall alias needs, r = Some (alias, needs) ->
    alias_ok alias /\ (needs = false -> short_name name = Some alias)).
Proof.
  intros Hd Hdir Hn. unfold make_short_alias. destruct (short_name name) as [alias|] eqn:E.
  - apply spec_ret; [done|]. split; [done|]. intros ? ? [= <- <-]. split; [by eapply short_name_ok | done].
  - apply spec_bind. eapply spec_weaken; [by apply (free_alias_spec _ _ c l)|]. intros [alias|] d1 Hd1 (Hs & Ha); [|done].
    apply spec_ret; [done|]. split; [done|]. intros ? ? [= <- <-]. split; [by apply Ha | done].
Qed.


(** ** Creating a name *)

Lemma found_app name a b : found_in name (a ++ b) = match found_in name a with Some i => Some i | None => found_in name b end.
Proof. induction a as [|i a IH]; [done|]. cbn [app]. rewrite !found_cons. by destruct (item_matches name i). Qed.

Lemma path_name_refl name : path_name_equal name name = true.
Proof. induction name as [|c name IH]; [done|]. cbn. by rewrite Z.eqb_refl. Qed.

(** Entries for a name stored in a place for them: the listing has one more item. *)
Lemma listing_insert E E' a b cc name alias needs us attr fc : clean E -> room E E' a b cc -> Forall is_byte name -> utf8_to_utf16 name = Some us ->
  0xFFFF ∉ us -> alen name < NAME_CAPACITY -> alias_ok alias -> (needs = false -> short_name name = Some alias) -> attr = DIRECTORY \/ attr = 0x20 -> 0 <= fc < 2 ^ 32 ->
  let its := if (needs : bool) then lfn_items us (lfn_checksum alias) else [] in
  length b = S (length its) ->
  exists B it, listing E = listing_from lfn_start a ++ B /\ listing (a ++ fill b (its ++ [short_entry alias attr fc]) ++ cc) = listing_from lfn_start a ++ it :: B /\
    item_matches name it = true /\ entry_of (s_bytes (i_slot it)) = mk_entry fc 0 attr /\ (needs = true -> i_long it = Some name).
Proof.
  intros Hclean Hroom Hbytes Hus Hffff Hcap Halias Hneeds Hattr Hfc its Hlen.
  destruct (short_entry_ok alias attr fc Halias Hattr Hfc) as (Hshort & _ & Htake & Hentry & Hsum).
  destruct (utf8_round name us NAME_CAPACITY Hbytes Hus Hffff Hcap) as (_ & _ & Hul).
  assert (Hits : Forall is_long its).
  { unfold its. destruct needs; [|constructor]. eapply Forall_impl; [by apply lfn_items_long|]. by intros x (? & _). }
  destruct (listing_items (lfn_after lfn_start a) b its (short_entry alias attr fc) cc Hlen Hits Hshort) as (e & Eb & _ & El).
  pose proof (room_rest E E' a b cc (lfn_reset (foldl lfn_add_entry (lfn_after lfn_start a) its)) Hclean Hroom eq_refl) as Erest.
  destruct Hroom as (_ & Ha & _). eexists _, _. split; [exact Erest|]. unfold listing. rewrite listing_app, El by done. split; [done|].
  cbn [i_slot i_long s_bytes]. rewrite Eb. split_and!; [|done|].
  - unfold item_matches. cbn [i_slot i_long]. rewrite Eb, Htake. destruct needs.
    + unfold its. rewrite <- Hsum, (long_roundtrip name us) by done. rewrite path_name_refl. apply orb_true_r.
    + rewrite (Hneeds eq_refl), bool_decide_true by done. done.
  - intros ->. unfold its. rewrite <- Hsum. by apply (long_roundtrip name us).
Qed.

(** What creating a name in the directory with chain [l] does to the rest. *)
Definition dir_frame (c : Z) (l new : list Z) (d d' : D) : Prop :=
  were_free g d new /\ table_frame g l new d d' /\ chain g (fat d') c (l ++ new) /\ in_use (fat d') (l ++ new) /\ sectors_kept (l ++ new) d d'.

Lemma entries_place d l e : e ∈ chain_entries d l -> entry_at d (place e) = e /\ place e ∈ chain_places l.
Proof.
  rewrite chain_entries_places. intros He. apply list_elem_of_fmap in He as ([n o] & -> & Hp). done.
Qed.

Lemma entry_at_kept d d' (a : list slot) l (ps : list (Z * Z)) : (forall q, aligned_place q -> q ∉ ps -> entry_at d' q = entry_at d q) -> a ⊆ chain_entries d l ->
  (forall e, e ∈ a -> place e ∉ ps) -> entry_at d' <$> (place <$> a) = a.
Proof.
  intros Hkeep Hsub Hnot. rewrite <- list_fmap_compose. rewrite <- (list_fmap_id a) at 2. apply list_fmap_ext. intros i e He%list_elem_of_lookup_2.
  unfold compose. destruct (entries_place d l e (Hsub e He)) as (E & Hp). rewrite Hkeep; [exact E | by eapply places_aligned | by apply Hnot].
Qed.

(** Items stored over some entries of a directory. *)
Lemma store_in_chain c l a b cc items d : disk_fits d -> chain g (fat d) c l -> chain_entries d l = a ++ b ++ cc -> length items = length b ->
  Forall (fun item => length item = 32%nat) items ->
  spec (store_entries (place <$> b) items) d (fun r d' => r = Some tt /\ chain_entries d' l = a ++ fill b items ++ cc /\
    (forall m, m < data_start_sector g \/ outside g l m -> contents d' m = contents d m) /\ forall y, cluster_ok y -> fat d' y = fat d y).
Proof.
  intros Hd Hch E Hlen Hitems. destruct (chain_layout c l d Hch) as (Hnd & Hok). rewrite <- (place_entries d l), E, !fmap_app in Hnd.
  apply NoDup_app in Hnd as (_ & Ha & Hnd). apply NoDup_app in Hnd as (Hndb & Hbc & _).
  assert (Hin : forall e, e ∈ a ++ b ++ cc -> e ∈ chain_entries d l) by (intros e He; by rewrite E).
  assert (Hsec : forall e, e ∈ b -> aligned_place (place e) /\ data_start_sector g <= s_sector e < volume_end g /\ ~ outside g l (s_sector e)).
  { intros e He. destruct (entries_place d l e) as (_ & Hp); [apply Hin; set_solver|]. split; [by eapply places_aligned|].
    split; [exact (places_in l (place e) Hok Hp)|]. destruct (elem_of_places _ _ Hp) as (x & i & k & Hx & Hi & _ & [= E1 _]).
    intros Ho. specialize (Ho x Hx). lia. }
  pose proof (table_end g Hg) as Htab.
  eapply spec_weaken; [apply store_entries_spec; [done | done | done | done |]|].
  { apply Forall_forall. intros e He. destruct (Hsec e He) as (H1 & H2 & _). split; [done | lia]. }
  intros r d' _ (-> & Ho & Hkeep & Hfill). split; [done|].
  assert (Hout : forall m, m < data_start_sector g \/ outside g l m -> contents d' m = contents d m).
  { intros m Hm. apply Ho. intros Hin2. apply list_elem_of_fmap in Hin2 as (e & -> & He). destruct (Hsec e He) as (_ & H2 & H3). destruct Hm; [lia | done]. }
  split; [|split; [done|]; intros y Hy; apply fat_data; [done | done | intros m Hm; apply Hout; by left]].
  rewrite chain_entries_places, <- (place_entries d l), E, !fmap_app. f_equal; [|f_equal; [exact Hfill|]].
  - apply (entry_at_kept d d' a l (place <$> b)); [done | intros e He; apply Hin, elem_of_app; by left |].
    intros e He Hb. apply (Ha (place e)); [by apply list_elem_of_fmap_2 | apply elem_of_app; by left].
  - apply (entry_at_kept d d' cc l (place <$> b)); [done | intros e He; apply Hin; rewrite !elem_of_app; by right; right |].
    intros e He Hb. apply (Hbc (place e) Hb). by apply list_elem_of_fmap_2.
Qed.

Lemma items_fit us sum : 0 < alen us <= 255 -> alen (lfn_items us sum) + 1 <= 21 /\ Forall (fun b => is_long b /\ length b = 32%nat) (lfn_items us sum).
Proof.
  intros Hu. split; [|by apply lfn_items_long]. destruct (long_entries_range us Hu) as (Hn & _). unfold lfn_items, alen. rewrite length_fmap, length_seq. lia.
Qed.

(** The listing of a directory with one more item for [name], which had none. *)
Definition gains (name : cstr) (attr fc : Z) (before after : list item) (it : item) : Prop :=
  found_in name before = None /\ item_matches name it = true /\ entry_of (s_bytes (i_slot it)) = mk_entry fc 0 attr /\
  exists A B, before = A ++ B /\ after = A ++ it :: B.

Lemma gains_found name attr fc before after it : gains name attr fc before after it -> found_in name after = Some it.
Proof.
  intros (Hn & Hm & _ & A & B & -> & ->). rewrite found_app in *. destruct (found_in name A); [done|]. by rewrite found_cons, Hm.
Qed.

Lemma gains_others name attr fc before after it other : gains name attr fc before after it -> item_matches other it = false -> found_in other after = found_in other before.
Proof. intros (_ & _ & _ & A & B & -> & ->) Hm. by rewrite !found_app, found_cons, Hm. Qed.

(** The name, its attributes and its first cluster as the callers pass them. *)
Definition entry_args (name : cstr) (attr fc : Z) : Prop :=
  Forall is_byte name /\ alen name < NAME_CAPACITY /\ (forall us, utf8_to_utf16 name = Some us -> 0xFFFF ∉ us) /\
  (attr = DIRECTORY \/ attr = 0x20) /\ 0 <= fc < 2 ^ 32.

Lemma frame_nothing c l d d' : same_disk d d' -> chain g (fat d) c l -> in_use (fat d) l -> dir_frame c l [] d d' /\ listing (chain_entries d' (l ++ [])) = listing (chain_entries d l).
Proof.
  intros Hs Hch Huse. destruct (frame_refl g l d d' Hs) as (_ & H2 & H3). destruct (chain_same g c l d d' Hs Hch Huse). rewrite app_nil_r.
  split; [|by rewrite (chain_entries_ext d d') by (intros; apply Hs)]. split; [done|]. split; [done|]. rewrite !app_nil_r. split; [done|]. split; [done|]. intros m _ _. apply Hs.
Qed.

Lemma frame_stores c l new d d1 d2 d3 : same_disk d d1 -> were_free g d1 new -> table_frame g l new d1 d2 -> sectors_kept new d1 d2 ->
  chain g (fat d2) c (l ++ new) -> in_use (fat d2) (l ++ new) ->
  (forall m, m < data_start_sector g \/ outside g (l ++ new) m -> contents d3 m = contents d2 m) -> (forall y, cluster_ok y -> fat d3 y = fat d2 y) -> dir_frame c l new d d3.
Proof.
  intros Hs Hfree Hframe Hkept Hch Huse Hout Hfat. pose proof (fun y Hy => chain_ok g _ _ _ y Hch Hy) as Hok. split; [|split; [|split; [|split]]].
  - intros y Hy. destruct (Hfree y Hy). by rewrite <- (same_fat g d d1 y Hs).
  - intros y H1 H2 H3. rewrite Hfat, Hframe by done. by apply same_fat.
  - eapply fat_chain_ext; [exact Hch|]. intros y Hy. by apply Hfat, Hok.
  - intros y Hy. rewrite Hfat by by apply Hok. by apply Huse.
  - intros m Hm Ho. rewrite Hout by (by right). rewrite Hkept; [apply Hs | done |]. intros y Hy. apply Ho, elem_of_app. by right.
Qed.

(** Creating a name: the listing of the directory gains the item, or the
    operation fails and the listing is as it was. *)
Lemma create_entry_spec c l name attr fc d : disk_fits d -> directory d c l -> in_use (fat d) l -> l <> [] -> clean (chain_entries d l) -> entry_args name attr fc ->
  spec (create_named_entry g c name attr fc) d (fun r d' => exists new, dir_frame c l new d d' /\ alen new <= 21 /\
    match r with
    | Some _ => exists it, gains name attr fc (listing (chain_entries d l)) (listing (chain_entries d' (l ++ new))) it
    | None => listing (chain_entries d' (l ++ new)) = listing (chain_entries d l)
    end).
Proof.
  intros Hd Hdir Huse Hne Hclean (Hbytes & Hcap & Hffff & Hattr & Hfc). pose proof Hdir as (Hch & Hlen). unfold create_named_entry.
  assert (Hstop : forall d', same_disk d d' -> exists new, dir_frame c l new d d' /\ alen new <= 21 /\ listing (chain_entries d' (l ++ new)) = listing (chain_entries d l)).
  { intros d' Hs. exists []. destruct (frame_nothing c l d d' Hs Hch Huse). split; [done|]. split; [unfold alen; simpl; lia | done]. }
  apply spec_bind, spec_attempt. eapply spec_weaken; [by apply (find_entry_spec c l)|]. intros r d1 Hd1 (Hs & ->).
  destruct (found_in name (listing (chain_entries d l))) as [i|] eqn:Hfound; cbn [fmap option_fmap option_map]; [apply spec_failed; [done|]; by apply Hstop|].
  destruct (utf8_to_utf16 name) as [us|] eqn:Eus; [|apply spec_failed; [done|]; by apply Hstop]. specialize (Hffff us eq_refl).
  apply spec_bind. destruct (chain_same g c l d d1 Hs Hch Huse) as (Hch1 & Huse1). eapply spec_weaken; [apply (make_alias_spec c l); [done | by split | done]|].
  intros [[alias needs]|] d2 Hd2 (Hs2 & Ha); [|apply Hstop; intros m; by rewrite Hs2, Hs]. destruct (Ha alias needs eq_refl) as (Halias & Hneeds).
  assert (Hs02 : same_disk d d2) by (intros m; by rewrite Hs2, Hs). destruct (chain_same g c l d d2 Hs02 Hch Huse) as (Hch2 & Huse2).
  set (its := if needs then lfn_items us (lfn_checksum alias) else []).
  destruct (utf8_round name us NAME_CAPACITY Hbytes Eus Hffff Hcap) as (_ & _ & Hul).
  assert (Hits : alen its + 1 <= 21 /\ Forall (fun b => length b = 32%nat) its).
  { unfold its. destruct needs; [|by split; [unfold alen; simpl; lia | constructor]]. destruct (items_fit us (lfn_checksum alias) Hul) as (H1 & H2). split; [done|].
    eapply Forall_impl; [exact H2|]. by intros x (_ & ?). }
  destruct Hits as (Hcount & Hits). destruct (Z.leb_spec (alen its + 1) 21) as [_|]; [|lia]. apply spec_bind, spec_ret; [done|]. cbn beta iota.
  apply spec_bind. eapply spec_weaken; [apply (find_free_slots_spec c l); [done | by split | done | done | pose proof (alen_nonneg its); lia]|].
  intros r d3 Hd3 (new & Hfree & Hframe & Hch3 & Huse3 & Hkept & Hnew & Hr).
  assert (Ent : chain_entries d2 l = chain_entries d l) by (apply chain_entries_ext; intros; apply Hs02). rewrite Ent in Hr.
  destruct r as [slots|].
  2:{ exists new. split; [by eapply frame_stores|]. split; [lia|]. by destruct Hr. }
  destruct Hr as (a & b & cc & Hroom & -> & Hb). pose proof Hroom as (Eroom & _).
  destruct (short_entry_ok alias attr fc Halias Hattr Hfc) as (_ & Hse & _).
  assert (Hlenb : length b = S (length its)) by (unfold alen in Hb; lia).
  eapply spec_weaken; [apply (store_in_chain c (l ++ new) a b cc); [done | done | done | rewrite length_app; simpl; lia |]|].
  { apply Forall_app. split; [done|]. by constructor. }
  intros r d4 _ (-> & Ent4 & Hout & Hfat). exists new. split; [by eapply frame_stores|]. split; [lia|].
  destruct (listing_insert _ _ a b cc name alias needs us attr fc Hclean Hroom Hbytes Eus Hffff Hcap Halias Hneeds Hattr Hfc Hlenb) as (B & it & E1 & E2 & Hm & He & _).
  exists it. split; [done|]. split; [done|]. split; [done|]. exists (listing_from lfn_start a), B. split; [done|]. rewrite Ent4. exact E2.
Qed.


End Dir.

End FatDir.
