(* ===== verification/FatTree.v ===== *)
(** * FatTree: the files of a FAT volume by path

    The directories of a volume as listings, paths resolved in them, and what
    reading and writing a file by its path do to it and to the other files. *)

From S2P Require Import Prelude CString Path Block FatNames Fat FatTable FatData FatDir.
Import CString.CString Block.Block FatNames.FatNames Fat.Fat FatTable.FatTable FatData.FatData FatDir.FatDir.
Local Open Scope Z_scope.

Module FatTree.

(** ** Paths in listings *)

Definition item_file (it : item) : fat32_entry := entry_of (s_bytes (i_slot it)).
Definition item_place (it : item) : Z * Z := place (i_slot it).

Section Paths.
(** The listing of a directory by its first cluster. *)
Context (L : Z -> list item).

Fixpoint resolve_in (fuel : nat) (path : cstr) (current : Z) : option Z :=
  match fuel with
  | O => None
  | S fuel =>
      match path with
      | [] => Some current
      | _ =>
          let '(part, rest) := Path.Path.span_component path in
          let rest := Path.Path.skip_slashes rest in
          if Path.Path.FS_PATH_MAX - 1 <? alen part then None
          else if bool_decide (part = []) || bool_decide (part = [DOT]) then resolve_in fuel rest current
          else if bool_decide (part = [DOT; DOT]) then None
          else
            it ← found_in part (L current);
            if negb (has (attributes (item_file it)) DIRECTORY) || (e_cluster (item_file it) <? 2) then None
            else resolve_in fuel rest (e_cluster (item_file it))
      end
  end.

Definition directory_in (root : Z) (path : cstr) : option Z :=
  let path := Path.Path.skip_slashes path in resolve_in (S (length path)) path root.

Definition locate_in (root : Z) (path : cstr) : option (Z * item) :=
  '(parent, leaf) ← split_parent path;
  p ← directory_in root parent;
  it ← found_in leaf (L p);
  Some (p, it).

End Paths.

(** ** A new size in an entry *)

Definition resized (t : Z * Z) (size : Z) (e : slot) : slot :=
  if decide (place e = t) then mk_slot (s_sector e) (s_offset e) (write32 (s_bytes e) 28 size) else e.
Definition resized_item (t : Z * Z) (size : Z) (it : item) : item := mk_item (resized t size (i_slot it)) (i_long it).

Definition full_slot (e : slot) : Prop := length (s_bytes e) = 32%nat.
Definition full_item (it : item) : Prop := full_slot (i_slot it).

Section Resized.
Context (t : Z * Z) (size : Z) (Hsize : 0 <= size < 2 ^ 32).

Lemma resized_byte e i : full_slot e -> 0 <= i < 28 -> byte (s_bytes (resized t size e)) i = byte (s_bytes e) i.
Proof. unfold full_slot, resized. intros Hf Hi. case_decide; [|done]. cbn [s_bytes]. apply byte_write32; unfold alen; lia. Qed.

Lemma resized_take e : full_slot e -> take 11 (s_bytes (resized t size e)) = take 11 (s_bytes e).
Proof.
  unfold full_slot, resized. intros Hf. case_decide; [|done]. cbn [s_bytes]. unfold write32, aset. rewrite !take_insert_ge by lia. done.
Qed.

Lemma resized_place e : place (resized t size e) = place e.
Proof. unfold resized. by case_decide. Qed.

Lemma resized_entry e : full_slot e ->
  entry_of (s_bytes (resized t size e)) = if decide (place e = t) then mk_entry (e_cluster (entry_of (s_bytes e))) size (attributes (entry_of (s_bytes e))) else entry_of (s_bytes e).
Proof.
  intros Hf. unfold entry_of, read16. rewrite !resized_byte by (done || lia). cbn [e_cluster attributes]. unfold resized. case_decide; [|done]. cbn [s_bytes].
  rewrite read32_write32; [done | done | unfold full_slot, alen in *; lia | done].
Qed.

Lemma listing_resized s l : Forall full_slot l -> (forall e, e ∈ l -> place e = t -> byte (s_bytes e) 11 <> LONG_NAME) ->
  listing_from s (resized t size <$> l) = resized_item t size <$> listing_from s l.
Proof.
  intros Hl. revert s. induction Hl as [|e l He Hl IH]; intros s Hno; [done|]. cbn [fmap list_fmap listing_from]. unfold hidden.
  rewrite !resized_byte by (done || lia). specialize (fun s => IH s (fun x Hx => Hno x (list_elem_of_further _ _ _ Hx))).
  destruct (byte (s_bytes e) 0 =? 0); [done|]. destruct (byte (s_bytes e) 0 =? DELETED); [apply IH|].
  destruct (Z.eqb_spec (byte (s_bytes e) 11) LONG_NAME) as [Elong|_].
  { unfold resized at 1. rewrite decide_False; [apply IH|]. intros Ht. by apply (Hno e); [left|..]. }
  destruct (has _ _); [apply IH|]. cbn [fmap list_fmap]. rewrite IH. f_equal. unfold resized_item. cbn [i_slot i_long]. f_equal.
  unfold lfn_decode. by rewrite (checksum_short (s_bytes (resized t size e)) (s_bytes e)) by by apply resized_take.
Qed.

Lemma matches_resized name it : full_item it -> item_matches name (resized_item t size it) = item_matches name it.
Proof. intros Hf. unfold item_matches, resized_item. cbn [i_slot i_long]. by rewrite resized_take. Qed.

Lemma found_resized name items : Forall full_item items -> found_in name (resized_item t size <$> items) = resized_item t size <$> found_in name items.
Proof.
  induction 1 as [|it items Hit Hall IH]; [done|]. cbn [fmap list_fmap]. rewrite !found_cons, matches_resized by done. by destruct (item_matches name it).
Qed.

Lemma found_elem name items it : found_in name items = Some it -> it ∈ items.
Proof.
  induction items as [|i items IH]; [done|]. rewrite found_cons. destruct (item_matches name i); [intros [= ->]; by left|]. intros Hf. right. by apply IH.
Qed.

Section Relabel.
Context (L : Z -> list item) (Hfull : forall c, Forall full_item (L c)).
Notation L' := (fun c => resized_item t size <$> L c).

Lemma resolve_resized fuel path c : resolve_in L' fuel path c = resolve_in L fuel path c.
Proof.
  revert path c. induction fuel as [|fuel IH]; intros path c; [done|]. cbn [resolve_in]. destruct path as [|b path]; [done|].
  destruct (Path.Path.span_component _) as [part rest]. destruct (_ <? _); [done|]. destruct (_ || _); [apply IH|]. destruct (bool_decide _); [done|].
  rewrite found_resized by done. destruct (found_in part (L c)) as [it|] eqn:E; [|done]. cbn [fmap option_fmap option_map mbind option_bind].
  assert (Hit : full_item it) by (specialize (Hfull c); rewrite Forall_forall in Hfull; by eapply Hfull, found_elem).
  assert (Ef : attributes (item_file (resized_item t size it)) = attributes (item_file it) /\ e_cluster (item_file (resized_item t size it)) = e_cluster (item_file it)).
  { unfold item_file, resized_item. cbn [i_slot]. rewrite resized_entry by done. by case_decide. }
  destruct Ef as (-> & ->). destruct (_ || _); [done | apply IH].
Qed.

Lemma locate_resized root path : locate_in L' root path = (fun '(p, it) => (p, resized_item t size it)) <$> locate_in L root path.
Proof.
  unfold locate_in, directory_in. destruct (split_parent path) as [[parent leaf]|]; [|done]. cbn [fmap option_fmap option_map mbind option_bind]. rewrite resolve_resized.
  destruct (resolve_in _ _ _ _) as [p|]; [|done]. cbn [fmap option_fmap option_map mbind option_bind]. rewrite found_resized by done. by destruct (found_in leaf (L p)).
Qed.
End Relabel.

End Resized.

(** The four bytes of the size in a sector. *)
Lemma insert_slice {A} (s : list A) a j v : take 32 (drop a (<[j := v]> s)) = if decide (a <= j < a + 32)%nat then <[(j - a)%nat := v]> (take 32 (drop a s)) else take 32 (drop a s).
Proof.
  case_decide as Hj.
  - rewrite drop_insert_ge by lia. rewrite take_insert_lt by lia. done.
  - destruct (decide (j < a)%nat); [by rewrite drop_insert_lt by lia|]. rewrite drop_insert_ge by lia. by rewrite take_insert_ge by lia.
Qed.

Lemma write32_slice sec k k' v : 0 <= k < 16 -> 0 <= k' < 16 ->
  take 32 (drop (Z.to_nat (32 * k')) (write32 sec (32 * k + 28) v)) =
  if decide (k' = k) then write32 (take 32 (drop (Z.to_nat (32 * k')) sec)) 28 v else take 32 (drop (Z.to_nat (32 * k')) sec).
Proof.
  intros Hk Hk'. unfold write32, aset. rewrite !insert_slice. destruct (decide (k' = k)) as [->|Hne].
  - rewrite !decide_True by lia. repeat (f_equal; try lia).
  - by rewrite !decide_False by lia.
Qed.

Lemma listing_elem s l it : it ∈ listing_from s l -> i_slot it ∈ l /\ byte (s_bytes (i_slot it)) 11 <> LONG_NAME.
Proof.
  revert s. induction l as [|e l IH]; intros s; cbn [listing_from]; [intros Hit; by apply not_elem_of_nil in Hit|].
  assert (Hin : forall s, it ∈ listing_from s l -> i_slot it ∈ e :: l /\ byte (s_bytes (i_slot it)) 11 <> LONG_NAME).
  { intros s' Hs'. destruct (IH s' Hs'). split; [by right | done]. }
  destruct (_ =? 0); [intros Hit; by apply not_elem_of_nil in Hit|]. destruct (_ =? DELETED); [apply Hin|].
  destruct (Z.eqb_spec (byte (s_bytes e) 11) LONG_NAME); [apply Hin|]. destruct (hidden _); [apply Hin|].
  intros [->|Hit]%elem_of_cons; [split; [by left | done]|]. by eapply Hin.
Qed.

(** ** The directories and files of a volume *)

Section Tree.
Context {D : Type} `{BlockDevice D} `{!ReliableDevice D} (g : volume).
Hypothesis Hg : volume_ok g.

Notation cluster_ok := (cluster_ok g).
Notation disk_fits := (disk_fits g).
Notation spec := (spec g).
Notation fat := (fat g).

Definition dir_items (d : D) (dirs : gmap Z (list Z)) (c : Z) : list item :=
  match dirs !! c with Some l => listing (chain_entries g d l) | None => [] end.

Definition is_file (it : item) : Prop := has (attributes (item_file it)) DIRECTORY = false.

(** The clusters of a file; a file without a cluster is empty. *)
Definition file_chain (files : gmap Z (list Z)) (it : item) : list Z :=
  if e_cluster (item_file it) <? 2 then [] else default [] (files !! e_cluster (item_file it)).

(** The directories and the files by their first clusters: every chain is in
    order, files share no clusters with each other or with directories, and
    every entry of a directory is one of them, a file of one entry only. *)
Record tree_ok (d : D) (dirs files : gmap Z (list Z)) : Prop := {
  tr_fits : disk_fits d;
  tr_root : is_Some (dirs !! root_cluster g);
  tr_dirs : forall c l, dirs !! c = Some l -> directory g d c l /\ in_use (fat d) l;
  tr_files : forall c l, files !! c = Some l -> chain g (fat d) c l /\ in_use (fat d) l /\ l <> [];
  tr_apart : forall c1 l1 c2 l2 x, files !! c1 = Some l1 -> files !! c2 = Some l2 -> x ∈ l1 -> x ∈ l2 -> c1 = c2;
  tr_apart_dirs : forall c1 l1 c2 l2 x, files !! c1 = Some l1 -> dirs !! c2 = Some l2 -> x ∈ l1 -> x ∉ l2;
  tr_subdirs : forall c it, it ∈ dir_items d dirs c -> has (attributes (item_file it)) DIRECTORY = true -> 2 <= e_cluster (item_file it) ->
    is_Some (dirs !! e_cluster (item_file it));
  tr_entries : forall c it, it ∈ dir_items d dirs c -> is_file it -> 2 <= e_cluster (item_file it) -> is_Some (files !! e_cluster (item_file it));
  tr_sizes : forall c it, it ∈ dir_items d dirs c -> is_file it -> 0 <= e_size (item_file it) <= cluster_bytes g * alen (file_chain files it);
  tr_single : forall c1 c2 it1 it2, it1 ∈ dir_items d dirs c1 -> it2 ∈ dir_items d dirs c2 -> is_file it1 -> is_file it2 ->
    e_cluster (item_file it1) = e_cluster (item_file it2) -> 2 <= e_cluster (item_file it1) -> item_place it1 = item_place it2;
}.

Lemma dir_items_same d d' dirs c : same_disk d d' -> dir_items d' dirs c = dir_items d dirs c.
Proof. intros Hs. unfold dir_items. destruct (dirs !! c); [|done]. by rewrite (chain_entries_ext g Hg d d') by (intros; apply Hs). Qed.

Lemma tree_same d d' dirs files : tree_ok d dirs files -> same_disk d d' -> disk_fits d' -> tree_ok d' dirs files.
Proof.
  intros [] Hs Hd'. split; try done.
  - intros c l Hc. destruct (tr_dirs0 c l Hc) as ((Hch & Hl) & Huse). destruct (chain_same g c l d d' Hs Hch Huse). done.
  - intros c l Hc. destruct (tr_files0 c l Hc) as (Hch & Huse & Hne). destruct (chain_same g c l d d' Hs Hch Huse). done.
  - intros c it. rewrite (dir_items_same d _ _ _ Hs). apply tr_subdirs0.
  - intros c it. rewrite (dir_items_same d _ _ _ Hs). apply tr_entries0.
  - intros c it. rewrite (dir_items_same d _ _ _ Hs). apply tr_sizes0.
  - intros c1 c2 it1 it2. rewrite !(dir_items_same d _ _ _ Hs). apply tr_single0.
Qed.

(** ** Resolving paths *)

Lemma find_in_spec c name d dirs files : tree_ok d dirs files -> is_Some (dirs !! c) ->
  spec (find_entry g c name) d (fun r d' => same_disk d d' /\ tree_ok d' dirs files /\ r = item_entry <$> found_in name (dir_items d dirs c)).
Proof.
  intros Ht (l & Hl). destruct (tr_dirs _ _ _ Ht c l Hl) as (Hdir & _). unfold dir_items. rewrite Hl.
  eapply spec_weaken; [apply (find_entry_spec g Hg c l); [apply Ht | done]|]. intros r d' Hd' (Hs & ->). split; [done|]. split; [by eapply tree_same | done].
Qed.

Lemma resolve_spec fuel path c L d dirs files : tree_ok d dirs files -> is_Some (dirs !! c) -> (forall c, dir_items d dirs c = L c) ->
  spec (resolve_from g fuel path c) d (fun r d' => same_disk d d' /\ tree_ok d' dirs files /\ r = resolve_in L fuel path c /\ forall c', r = Some c' -> is_Some (dirs !! c')).
Proof.
  revert path c d. induction fuel as [|fuel IH]; intros path c d Ht Hc HL; cbn [resolve_from resolve_in]; [apply spec_failed; [apply Ht | done]|].
  destruct path as [|b path]; [apply spec_ret; [apply Ht|]; split_and!; try done; by intros c' [= <-]|].
  destruct (Path.Path.span_component _) as [part rest]. destruct (_ <? _); [apply spec_failed; [apply Ht | done]|]. destruct (_ || _); [by apply IH|].
  destruct (bool_decide _); [apply spec_failed; [apply Ht | done]|]. apply spec_bind. eapply spec_weaken; [by apply (find_in_spec c part)|].
  intros r d1 Hd1 (Hs & Ht1 & ->). rewrite HL. destruct (found_in part (L c)) as [it|] eqn:E; cbn [fmap option_fmap option_map mbind option_bind]; [|done].
  unfold item_entry. fold (item_file it). destruct (_ || _) eqn:Ed; [by apply spec_failed|]. apply orb_false_iff in Ed as (Ed & Ec%Z.ltb_ge).
  eapply spec_weaken; [apply IH; [exact Ht1 | | intros c0; by rewrite (dir_items_same d _ _ _ Hs)]|].
  - apply (tr_subdirs _ _ _ Ht c it); [rewrite HL; by eapply found_elem | by apply negb_false_iff | done].
  - intros r d2 _ (Hs2 & Ht2 & Hr). split; [intros n; by rewrite Hs2, Hs | done].
Qed.

Lemma directory_spec path L d dirs files : tree_ok d dirs files -> (forall c, dir_items d dirs c = L c) ->
  spec (resolve_directory g path) d (fun r d' => same_disk d d' /\ tree_ok d' dirs files /\ r = directory_in L (root_cluster g) path /\ forall c', r = Some c' -> is_Some (dirs !! c')).
Proof. intros Ht HL. unfold resolve_directory. rewrite (vo_mounted _ Hg). cbn [negb]. apply resolve_spec; [done | apply Ht | done]. Qed.

Lemma locate_spec path L d dirs files : tree_ok d dirs files -> (forall c, dir_items d dirs c = L c) ->
  spec (locate_path_entry g path) d (fun r d' => same_disk d d' /\ tree_ok d' dirs files /\
    r = (fun '(p, it) => (p, item_file it, fst (item_place it), snd (item_place it))) <$> locate_in L (root_cluster g) path).
Proof.
  intros Ht HL. unfold locate_path_entry, open_parent, locate_in. destruct (split_parent path) as [[parent leaf]|]; cbn [mbind option_bind].
  2:{ apply spec_bind, spec_failed; [apply Ht | done]. }
  apply spec_bind, spec_bind. eapply spec_weaken; [by apply (directory_spec parent L)|]. intros r d1 Hd1 (Hs & Ht1 & -> & Hc).
  destruct (directory_in L (root_cluster g) parent) as [p|]; cbn [mbind option_bind]; [|done]. apply spec_ret; [done|].
  apply spec_bind. eapply spec_weaken; [apply (find_in_spec p leaf); [exact Ht1 | by apply Hc]|].
  intros r d2 Hd2 (Hs2 & Ht2 & ->). rewrite (dir_items_same d d1) by done. rewrite HL.
  assert (Hs' : same_disk d d2) by (intros n; by rewrite Hs2, Hs). destruct (found_in leaf (L p)) as [it|]; [|done]. by apply spec_ret.
Qed.

Lemma locate_elem d dirs path p it : locate_in (dir_items d dirs) (root_cluster g) path = Some (p, it) -> it ∈ dir_items d dirs p.
Proof.
  unfold locate_in. destruct (split_parent path) as [[parent leaf]|]; [|done]. cbn [mbind option_bind]. destruct (directory_in _ _ _) as [c|]; [|done]. cbn [mbind option_bind].
  destruct (found_in leaf _) as [i|] eqn:E; [|done]. intros [= <- <-]. by eapply found_elem.
Qed.

(** ** Reading a file *)

Definition file_bytes (d : D) (files : gmap Z (list Z)) (it : item) (capacity : Z) : option (list Z) :=
  let e := item_file it in
  if has (attributes e) DIRECTORY then None else Some (take (Z.to_nat (Z.min (e_size e) capacity)) (chain_data g d (file_chain files it))).

Lemma file_chain_ok d dirs files c it : tree_ok d dirs files -> it ∈ dir_items d dirs c -> is_file it -> chain g (fat d) (e_cluster (item_file it)) (file_chain files it).
Proof.
  intros Ht Hit Hf. unfold file_chain. destruct (Z.ltb_spec (e_cluster (item_file it)) 2).
  - constructor. unfold in_chain. lia.
  - destruct (tr_entries _ _ _ Ht c it Hit Hf) as (l & E); [done|]. rewrite E. by destruct (tr_files _ _ _ Ht _ _ E).
Qed.

Lemma read_file_spec path capacity L d dirs files : tree_ok d dirs files -> (forall c, dir_items d dirs c = L c) -> 0 <= capacity ->
  spec (fat32_read_file g path capacity) d (fun r d' => same_disk d d' /\
    r = locate_in L (root_cluster g) path ≫= fun '(_, it) => file_bytes d files it capacity).
Proof.
  intros Ht HL Hcap. unfold fat32_read_file. apply spec_bind. eapply spec_weaken; [by apply (locate_spec path L)|]. intros r d1 Hd1 (Hs & Ht1 & ->).
  destruct (locate_in L (root_cluster g) path) as [[p it]|] eqn:E; cbn [fmap option_fmap option_map mbind option_bind]; [|done].
  assert (Hit : it ∈ dir_items d1 dirs p).
  { rewrite (dir_items_same _ _ _ _ Hs), HL. unfold locate_in in E. destruct (split_parent path) as [[? ?]|]; [|done]. cbn [mbind option_bind] in E.
    destruct (directory_in _ _ _); [|done]. cbn [mbind option_bind] in E. destruct (found_in _ _) eqn:Ef; [|done]. injection E as <- <-. by eapply found_elem. }
  unfold file_bytes. destruct (has (attributes (item_file it)) DIRECTORY) eqn:Ed.
  { unfold read_located, check. rewrite Ed. cbn [negb]. by apply spec_bind, spec_failed. }
  eapply spec_weaken; [apply (read_located_spec g Hg _ _ (file_chain files it)); [done | by eapply file_chain_ok | done | by eapply (tr_sizes _ _ _ Ht1) | done]|].
  intros r d2 _ (Hs2 & ->). split; [intros n; by rewrite Hs2, Hs|]. do 2 f_equal. eapply (chain_data_same g Hg); [by eapply file_chain_ok | by apply same_data].
Qed.

(** ** Entries on the disk *)

Lemma entries_full d l : disk_fits d -> Forall full_slot (chain_entries g d l).
Proof.
  intros Hd. rewrite chain_entries_places. apply Forall_fmap, Forall_forall. intros p Hp. destruct (places_aligned g Hg l p Hp) as (k & Hk & Ek).
  unfold compose, full_slot, entry_at, slot_at. cbn [s_bytes]. rewrite Ek, length_take, length_drop. pose proof (fits_length g d (fst p) Hd) as Hl. unfold alen in Hl. lia.
Qed.

Lemma items_full d dirs c : disk_fits d -> Forall full_item (dir_items d dirs c).
Proof.
  intros Hd. apply Forall_forall. unfold dir_items. destruct (dirs !! c) as [l|]; [|by intros it Hit%not_elem_of_nil]. intros it Hit. apply listing_elem in Hit as (Hin & _).
  pose proof (entries_full d l Hd) as Hf. rewrite Forall_forall in Hf. by apply Hf.
Qed.

Lemma item_at d dirs c it : it ∈ dir_items d dirs c -> exists l, dirs !! c = Some l /\ item_place it ∈ chain_places g l /\ entry_at d (item_place it) = i_slot it /\
  byte (s_bytes (i_slot it)) 11 <> LONG_NAME.
Proof.
  unfold dir_items. destruct (dirs !! c) as [l|]; [|by intros Hit%not_elem_of_nil]. intros Hit. apply listing_elem in Hit as (Hin & Hb).
  exists l. destruct (entries_place g d l _ Hin). done.
Qed.

Lemma item_same_place d dirs c1 c2 it1 it2 : it1 ∈ dir_items d dirs c1 -> it2 ∈ dir_items d dirs c2 -> item_place it1 = item_place it2 -> i_slot it1 = i_slot it2.
Proof. intros (_ & _ & _ & <- & _)%item_at (_ & _ & _ & <- & _)%item_at ->. done. Qed.

(** The entries of a directory after a size in one of them was written. *)
Lemma entries_resized d d' l fl k sector size : disk_fits d -> (forall x, x ∈ l -> cluster_ok x /\ fat d x <> 0 /\ (x ∉ fl)) -> others_kept g fl sector d d' ->
  0 <= k < 16 -> contents d' sector = write32 (contents d sector) (32 * k + 28) size ->
  chain_entries g d' l = resized (sector, 32 * k) size <$> chain_entries g d l.
Proof.
  intros Hd Hl (_ & Hkept) Hk Hw. rewrite !chain_entries_places, <- list_fmap_compose. apply list_fmap_ext. intros j p Hp%list_elem_of_lookup_2.
  destruct (elem_of_places g Hg _ _ Hp) as (x & i & k' & Hx & Hi & Hk' & ->). unfold compose, entry_at, slot_at, resized, place. cbn [fst snd s_sector s_offset s_bytes].
  destruct (Hl x Hx) as (H1 & H2 & H3). destruct (decide (cluster_sector g x + i = sector)) as [->|Hne].
  - rewrite Hw, write32_slice by done. destruct (decide (k' = k)) as [->|Hkk]; [by rewrite decide_True|]. rewrite decide_False; [done|]. intros [= E]. lia.
  - rewrite Hkept by done. rewrite decide_False; [done|]. intros [= E]. lia.
Qed.


(** ** Writing a file *)

(** The file of an item before and after its chain and its entry change. *)
Section Written.
Context (d d' : D) (dirs files : gmap Z (list Z)) (p : Z) (it : item) (fl l' : list Z) (f : item -> item).
Notation cl := (e_cluster (item_file it)).
Notation t := (item_place it).
Hypothesis Ht : tree_ok d dirs files.
Hypothesis Hit : it ∈ dir_items d dirs p.
Hypothesis Hfile : is_file it.
Hypothesis Hcl : 2 <= cl.
Hypothesis Hfl : files !! cl = Some fl.
Hypothesis Hd' : disk_fits d'.
Hypothesis Hch : chain g (fat d') cl l'.
Hypothesis Huse : in_use (fat d') l'.
Hypothesis Hne : l' <> [].
Hypothesis Hnew : forall x, x ∈ l' -> x ∈ fl \/ fat d x = 0.
Hypothesis Hkept : others_kept g fl (fst t) d d'.
Hypothesis Hitems : forall c, dir_items d' dirs c = f <$> dir_items d dirs c.
Hypothesis Hother : forall i, item_place i <> t -> f i = i.
Hypothesis Hsame : forall c i, i ∈ dir_items d dirs c ->
  item_place (f i) = item_place i /\ e_cluster (item_file (f i)) = e_cluster (item_file i) /\ attributes (item_file (f i)) = attributes (item_file i).
Hypothesis Hsize : 0 <= e_size (item_file (f it)) <= cluster_bytes g * alen l'.

Notation files' := (<[cl := l']> files).

Lemma not_written c l x : files !! c = Some l -> c <> cl -> x ∈ l -> (x ∉ fl) /\ cluster_ok x /\ fat d x <> 0.
Proof using Ht Hfl.
  intros Hl Hc Hx. destruct (tr_files _ _ _ Ht c l Hl) as (Hch0 & Huse0 & _). split; [|split; [exact (chain_ok g _ _ _ x Hch0 Hx) | by apply Huse0]].
  intros Hx'. apply Hc. by eapply (tr_apart _ _ _ Ht).
Qed.

Lemma dir_not_written c l x : dirs !! c = Some l -> x ∈ l -> (x ∉ fl) /\ cluster_ok x /\ fat d x <> 0.
Proof using Ht Hfl.
  intros Hl Hx. destruct (tr_dirs _ _ _ Ht c l Hl) as ((Hch0 & _) & Huse0). split; [|split; [exact (chain_ok g _ _ _ x Hch0 Hx) | by apply Huse0]].
  intros Hx'. by eapply (tr_apart_dirs _ _ _ Ht).
Qed.

Lemma kept_chain c l : (forall x, x ∈ l -> (x ∉ fl) /\ cluster_ok x /\ fat d x <> 0) -> chain g (fat d) c l -> in_use (fat d) l -> chain g (fat d') c l /\ in_use (fat d') l.
Proof using Hkept.
  intros Hl Hch0 Huse0. destruct Hkept as (Hf & _). assert (E : forall x, x ∈ l -> fat d' x = fat d x) by (intros x Hx; destruct (Hl x Hx) as (? & ? & ?); by apply Hf).
  split; [by eapply fat_chain_ext|]. intros x Hx. rewrite E by done. by apply Huse0.
Qed.

Lemma written_files c l : files' !! c = Some l -> (c = cl /\ l = l') \/ (c <> cl /\ files !! c = Some l).
Proof using Type. intros [(<- & <-)|(? & ?)]%lookup_insert_Some; [by left | by right]. Qed.

Lemma written_item c i : i ∈ dir_items d' dirs c -> exists i0, i = f i0 /\ i0 ∈ dir_items d dirs c /\ item_place i = item_place i0 /\
  e_cluster (item_file i) = e_cluster (item_file i0) /\ (is_file i <-> is_file i0) /\ attributes (item_file i) = attributes (item_file i0).
Proof using Hitems Hsame.
  rewrite Hitems. intros (i0 & -> & Hi0)%list_elem_of_fmap. exists i0. destruct (Hsame c i0 Hi0) as (H1 & H2 & H3). unfold is_file. by rewrite H1, H2, H3.
Qed.

Lemma written_chain i0 c : i0 ∈ dir_items d dirs c -> is_file i0 -> item_place i0 <> t -> file_chain files' i0 = file_chain files i0.
Proof using Ht Hit Hfile Hcl.
  intros Hi0 Hf0 Hp. unfold file_chain. destruct (Z.ltb_spec (e_cluster (item_file i0)) 2); [done|]. rewrite lookup_insert_ne; [done|].
  intros E. apply Hp. symmetry. by eapply (tr_single _ _ _ Ht p c it i0).
Qed.

Lemma tree_written : tree_ok d' dirs files'.
Proof using Type*.
  split.
  - done.
  - apply Ht.
  - intros c l Hl. destruct (tr_dirs _ _ _ Ht c l Hl) as ((Hch0 & Hlen) & Huse0).
    destruct (kept_chain c l) as (H1 & H2); [intros x Hx; by eapply dir_not_written | done | done |]. done.
  - intros c l [(-> & ->)|(Hc & Hl)]%written_files; [done|]. destruct (tr_files _ _ _ Ht c l Hl) as (Hch0 & Huse0 & Hne0).
    destruct (kept_chain c l) as (H1 & H2); [intros x Hx; by eapply not_written | done | done |]. done.
  - intros c1 l1 c2 l2 x [(-> & ->)|(Hc1 & Hl1)]%written_files [(-> & ->)|(Hc2 & Hl2)]%written_files Hx1 Hx2; [done | | |by eapply (tr_apart _ _ _ Ht)].
    + destruct (not_written c2 l2 x Hl2 Hc2 Hx2) as (H1 & _ & H2). by destruct (Hnew x Hx1).
    + destruct (not_written c1 l1 x Hl1 Hc1 Hx1) as (H1 & _ & H2). by destruct (Hnew x Hx2).
  - intros c1 l1 c2 l2 x [(-> & ->)|(Hc1 & Hl1)]%written_files Hl2 Hx1 Hx2; [|by eapply (tr_apart_dirs _ _ _ Ht)].
    destruct (dir_not_written c2 l2 x Hl2 Hx2) as (H1 & _ & H2). by destruct (Hnew x Hx1).
  - intros c i (i0 & _ & Hi0 & _ & E1 & _ & E2)%written_item. rewrite E1, E2. by apply (tr_subdirs _ _ _ Ht c).
  - intros c i (i0 & _ & Hi0 & _ & E1 & E2 & _)%written_item Hf0 Hc. rewrite E1 in *. apply lookup_insert_is_Some. destruct (decide (cl = e_cluster (item_file i0))); [by left|].
    right. split; [done|]. apply (tr_entries _ _ _ Ht c); [done | by apply E2 | done].
  - intros c i Hi Hf0. destruct (written_item c i Hi) as (i0 & -> & Hi0 & E0 & E1 & E2 & E3). destruct (decide (item_place i0 = t)) as [Et|Hp].
    + pose proof (item_same_place d dirs c p i0 it Hi0 Hit Et) as Es. assert (Ec : e_cluster (item_file (f i0)) = cl) by (rewrite E1; unfold item_file; by rewrite Es).
      unfold file_chain. rewrite Ec. destruct (Z.ltb_spec cl 2); [lia|]. rewrite lookup_insert_eq. cbn [default].
      assert (Hf_it : f it ∈ dir_items d' dirs p) by (rewrite Hitems; by apply list_elem_of_fmap_2).
      destruct (Hsame p it Hit) as (Ep & _).
      assert (Es' : i_slot (f i0) = i_slot (f it)) by (eapply (item_same_place d' dirs c p); [done | done |]; by rewrite E0, Ep).
      unfold item_file at 1 2. rewrite Es'. exact Hsize.
    + rewrite (Hother i0 Hp) in *. rewrite (written_chain i0 c) by (done || by apply E2). by apply (tr_sizes _ _ _ Ht c).
  - intros c1 c2 i1 i2 (j1 & _ & Hj1 & P1 & E1 & F1 & _)%written_item (j2 & _ & Hj2 & P2 & E2 & F2 & _)%written_item Hf1 Hf2. rewrite E1, E2, P1, P2.
    apply (tr_single _ _ _ Ht c1 c2); [done | done | by apply F1 | by apply F2].
Qed.

Lemma written_others i c capacity : i ∈ dir_items d dirs c -> item_place i <> t -> file_bytes d' files' (f i) capacity = file_bytes d files i capacity.
Proof using Type*.
  intros Hi Hp. rewrite (Hother i Hp). unfold file_bytes. destruct (has _ _) eqn:Ed; [done|]. rewrite (written_chain i c) by done. do 2 f_equal.
  unfold chain_data. f_equal. apply list_fmap_ext. intros k x Hx%list_elem_of_lookup_2.
  assert (Hxs : (x ∉ fl) /\ cluster_ok x /\ fat d x <> 0 /\ forall l, dirs !! p = Some l -> x ∉ l).
  { unfold file_chain in Hx. destruct (Z.ltb_spec (e_cluster (item_file i)) 2) as [|Hc]; [by apply not_elem_of_nil in Hx|].
    destruct (tr_entries _ _ _ Ht c i Hi Ed Hc) as (l & El). rewrite El in Hx. cbn [default] in Hx.
    destruct (not_written _ l x El) as (H1 & H2 & H3); [|done|]; [intros E; apply Hp; symmetry; by eapply (tr_single _ _ _ Ht p c it i)|].
    split_and!; try done. intros l2 Hl2. by eapply (tr_apart_dirs _ _ _ Ht). }
  destruct Hxs as (H1 & H2 & H3 & H4). destruct (item_at d dirs p it Hit) as (l & Hl & Hpl & _). destruct (elem_of_places g Hg _ _ Hpl) as (y & i0 & k' & Hy & Hi0 & _ & Et).
  destruct (dir_not_written p l y Hl Hy) as (_ & Hyok & _). destruct Hkept as (_ & Hk). apply sectors_data_ext. intros j Hj. unfold sectors_nat in Hj.
  apply Hk; [done | done | done | lia |]. rewrite Et. cbn [fst]. apply clusters_disjoint; [done | done | done | | lia | done]. intros ->. by eapply H4.
Qed.

End Written.


Lemma item_entry_place d dirs files p it fl : tree_ok d dirs files -> it ∈ dir_items d dirs p -> files !! e_cluster (item_file it) = Some fl ->
  entry_place g d fl (fst (item_place it)) (snd (item_place it)) /\ exists k, 0 <= k < 16 /\ snd (item_place it) = 32 * k.
Proof.
  intros Ht Hit Hfl. destruct (item_at d dirs p it Hit) as (l & Hl & Hpl & _). destruct (elem_of_places g Hg _ _ Hpl) as (x & i & k & Hx & Hi & Hk & ->). cbn [fst snd].
  destruct (tr_dirs _ _ _ Ht p l Hl) as ((Hch & _) & Huse). split; [|by exists k]. split; [lia|]. split; [lia|]. exists x, i. split; [exact (chain_ok g _ _ _ x Hch Hx)|].
  split; [by apply Huse|]. split; [|done]. intros Hin. by eapply (tr_apart_dirs _ _ _ Ht).
Qed.

Lemma items_resized d d' dirs files p it fl size : tree_ok d dirs files -> it ∈ dir_items d dirs p -> files !! e_cluster (item_file it) = Some fl -> others_kept g fl (fst (item_place it)) d d' ->
  contents d' (fst (item_place it)) = write32 (contents d (fst (item_place it))) (snd (item_place it) + 28) size -> 0 <= size < 2 ^ 32 ->
  forall c, dir_items d' dirs c = resized_item (item_place it) size <$> dir_items d dirs c.
Proof.
  intros Ht Hit Hfl Hkept Hw Hsize c. destruct (item_entry_place d dirs files p it fl Ht Hit Hfl) as (_ & k & Hk & Ek). rewrite Ek in Hw.
  destruct (item_at d dirs p it Hit) as (_ & _ & _ & Eat & Hlong). assert (Epl : item_place it = (fst (item_place it), 32 * k)) by (rewrite <- Ek; apply surjective_pairing).
  unfold dir_items at 1 2. destruct (dirs !! c) as [l|] eqn:El; [|done]. unfold listing. rewrite (entries_resized d d' l fl k (fst (item_place it)) size), <- Epl.
  - apply listing_resized; [apply entries_full, Ht |]. intros e He Hpe. destruct (entries_place g d l e He) as (E & _). rewrite Hpe, Eat in E. by rewrite <- E.
  - apply Ht.
  - intros x Hx. destruct (dir_not_written d dirs files it fl Ht Hfl c l x El Hx) as (? & ? & ?). done.
  - done.
  - done.
  - done.
Qed.

Lemma items_data_same d d' dirs files : tree_ok d dirs files -> data_same g d d' -> forall c, dir_items d' dirs c = id <$> dir_items d dirs c.
Proof.
  intros Ht Hdata c. rewrite list_fmap_id. unfold dir_items. destruct (dirs !! c) as [l|] eqn:El; [|done]. destruct (tr_dirs _ _ _ Ht c l El) as ((Hch & _) & _).
  f_equal. apply (chain_entries_ext g Hg). intros x i Hx Hi. apply Hdata. right. destruct (cluster_sector_ok g Hg x (chain_ok g _ _ _ x Hch Hx)). lia.
Qed.

Lemma resized_other t size i : item_place i <> t -> resized_item t size i = i.
Proof. intros Hp. unfold resized_item, resized. rewrite decide_False by done. by destruct i. Qed.


Lemma read_file_found path capacity d dirs files p it : tree_ok d dirs files -> 0 <= capacity -> locate_in (dir_items d dirs) (root_cluster g) path = Some (p, it) ->
  fst (fat32_read_file g path capacity d) = file_bytes d files it capacity.
Proof.
  intros Ht Hcap Hloc. pose proof (read_file_spec path capacity (dir_items d dirs) d dirs files Ht (fun c => eq_refl) Hcap) as Hr. unfold FatTable.spec in Hr.
  destruct (fat32_read_file g path capacity d) as [r d']. destruct Hr as (_ & _ & ->). by rewrite Hloc.
Qed.

(** What a write to the file of [it] does to the tree: the file reads as
    [own], the others as before. *)
Definition rewritten (d d' : D) (dirs files files' : gmap Z (list Z)) (it : item) (own : Z -> option (list Z)) : Prop :=
  tree_ok d' dirs files' /\
  exists L' f, (forall c, dir_items d' dirs c = L' c) /\
    (forall path, locate_in L' (root_cluster g) path = prod_map id f <$> locate_in (dir_items d dirs) (root_cluster g) path) /\
    (forall i c capacity, i ∈ dir_items d dirs c -> item_place i <> item_place it -> file_bytes d' files' (f i) capacity = file_bytes d files i capacity) /\
    (forall capacity, 0 <= capacity -> file_bytes d' files' (f it) capacity = own capacity).

Lemma rewritten_read d d' dirs files files' it own path capacity : tree_ok d dirs files -> rewritten d d' dirs files files' it own -> 0 <= capacity ->
  ((forall q i, locate_in (dir_items d dirs) (root_cluster g) path = Some (q, i) -> item_place i <> item_place it) ->
   fst (fat32_read_file g path capacity d') = fst (fat32_read_file g path capacity d)) /\
  (forall q, locate_in (dir_items d dirs) (root_cluster g) path = Some (q, it) -> fst (fat32_read_file g path capacity d') = own capacity).
Proof.
  intros Ht (Ht' & L' & f & HL' & Hloc & Hother & Hown) Hcap. pose proof (read_file_spec path capacity L' d' dirs files' Ht' HL' Hcap) as H1.
  pose proof (read_file_spec path capacity (dir_items d dirs) d dirs files Ht (fun c => eq_refl) Hcap) as H2. unfold FatTable.spec in H1, H2.
  destruct (fat32_read_file g path capacity d') as [r1 d1]. destruct (fat32_read_file g path capacity d) as [r2 d2]. destruct H1 as (_ & _ & ->), H2 as (_ & _ & ->).
  cbn [fst]. rewrite Hloc. split.
  - intros Hp. destruct (locate_in (dir_items d dirs) (root_cluster g) path) as [[q i]|] eqn:E; [|done]. apply (Hother i q); [by eapply locate_elem | by eapply Hp].
  - intros q ->. by apply Hown.
Qed.

Section Writing.
Context (d d' : D) (dirs files : gmap Z (list Z)) (p : Z) (it : item) (fl l' : list Z).
Hypothesis Ht : tree_ok d dirs files.
Hypothesis Hit : it ∈ dir_items d dirs p.
Hypothesis Hfile : is_file it.
Hypothesis Hcl : 2 <= e_cluster (item_file it).
Hypothesis Hfl : files !! e_cluster (item_file it) = Some fl.
Hypothesis Hd' : disk_fits d'.
Hypothesis Hch : chain g (fat d') (e_cluster (item_file it)) l'.
Hypothesis Huse : in_use (fat d') l'.
Hypothesis Hnew : forall x, x ∈ l' -> x ∈ fl \/ fat d x = 0.
Hypothesis Hkept : others_kept g fl (fst (item_place it)) d d'.
Notation files' := (<[e_cluster (item_file it) := l']> files).

Lemma written_nonempty : l' <> [].
Proof using Type*.
  intros ->. destruct (tr_files _ _ _ Ht _ _ Hfl) as (Hch0 & _ & Hne). inversion Hch as [c Hc|]; subst. destruct fl as [|x l0]; [done|].
  apply chain_cons_inv in Hch0 as (E & Hx & _). pose proof (cluster_in_chain g Hg x Hx) as Hx'. congruence.
Qed.

Lemma write_stored buffer size : 0 <= size < 2 ^ 32 -> size <= cluster_bytes g * alen l' -> take (Z.to_nat size) (chain_data g d' l') = take (Z.to_nat size) buffer ->
  contents d' (fst (item_place it)) = write32 (contents d (fst (item_place it))) (snd (item_place it) + 28) size ->
  rewritten d d' dirs files files' it (fun capacity => Some (take (Z.to_nat (Z.min size capacity)) buffer)).
Proof using Type*.
  intros Hsize Hfit Hbytes Hw. set (f := resized_item (item_place it) size).
  assert (Hitems : forall c, dir_items d' dirs c = f <$> dir_items d dirs c) by by eapply items_resized.
  assert (Hfull : forall c, Forall full_item (dir_items d dirs c)) by (intros c; apply items_full, Ht).
  assert (Hentry : forall c i, i ∈ dir_items d dirs c -> item_file (f i) = if decide (item_place i = item_place it) then mk_entry (e_cluster (item_file i)) size (attributes (item_file i)) else item_file i).
  { intros c i Hi. unfold f, item_file, resized_item. cbn [i_slot]. apply resized_entry; [done|]. specialize (Hfull c). rewrite Forall_forall in Hfull. by apply Hfull. }
  assert (Hown : item_file (f it) = mk_entry (e_cluster (item_file it)) size (attributes (item_file it))) by (rewrite (Hentry p it Hit); by rewrite decide_True).
  assert (Hother : forall i, item_place i <> item_place it -> f i = i) by (intros i; apply resized_other).
  assert (Hsame : forall c i, i ∈ dir_items d dirs c -> item_place (f i) = item_place i /\ e_cluster (item_file (f i)) = e_cluster (item_file i) /\ attributes (item_file (f i)) = attributes (item_file i)).
  { intros c i Hi. rewrite (Hentry c i Hi). split; [apply resized_place | by case_decide]. }
  assert (Hfits : 0 <= e_size (item_file (f it)) <= cluster_bytes g * alen l') by (rewrite Hown; cbn [e_size]; lia). pose proof written_nonempty as Hne.
  split; [by eapply (tree_written d d' dirs files p it fl l' f)|]. exists (fun c => f <$> dir_items d dirs c), f. split; [done|]. split; [|split].
  - intros path. unfold f. rewrite (locate_resized (item_place it) size Hsize) by done. by destruct (locate_in _ _ path) as [[? ?]|].
  - intros i c capacity Hi Hp. by eapply (written_others d d' dirs files p it fl l' f).
  - intros capacity Hcap. unfold file_bytes, file_chain. rewrite Hown. cbn [attributes e_size e_cluster]. unfold is_file in Hfile. rewrite Hfile.
    destruct (Z.ltb_spec (e_cluster (item_file it)) 2); [lia|]. rewrite lookup_insert_eq. cbn [default]. f_equal.
    replace (Z.to_nat (Z.min size capacity)) with (Nat.min (Z.to_nat capacity) (Z.to_nat size)) by lia. by rewrite <- (take_take (chain_data g d' l')), <- (take_take buffer), Hbytes.
Qed.

Lemma write_refused new : data_same g d d' -> l' = fl ++ new -> rewritten d d' dirs files files' it (file_bytes d files it).
Proof using Type*.
  intros Hdata El'. pose proof (items_data_same d d' dirs files Ht Hdata) as Hitems. pose proof written_nonempty as Hne.
  assert (Hchain : file_chain files it = fl) by (unfold file_chain; destruct (Z.ltb_spec (e_cluster (item_file it)) 2); [lia | by rewrite Hfl]).
  pose proof (tr_sizes _ _ _ Ht p it Hit Hfile) as Hsz. rewrite Hchain in Hsz. pose proof (vo_cluster _ Hg) as Hspc.
  assert (Hfits : 0 <= e_size (item_file (id it)) <= cluster_bytes g * alen l').
  { unfold id. rewrite El'. unfold alen in *. rewrite length_app. unfold cluster_bytes in *. nia. }
  split; [by eapply (tree_written d d' dirs files p it fl l' id)|]. exists (dir_items d dirs), id. split; [intros c; rewrite Hitems; apply list_fmap_id|]. split; [|split].
  - intros path. by destruct (locate_in _ _ path) as [[? ?]|].
  - intros i c capacity Hi Hp. by eapply (written_others d d' dirs files p it fl l' id).
  - intros capacity Hcap. unfold file_bytes, id. unfold is_file in Hfile. rewrite Hfile, Hchain. unfold file_chain at 1.
    destruct (Z.ltb_spec (e_cluster (item_file it)) 2); [lia|]. rewrite lookup_insert_eq. cbn [default]. f_equal. rewrite El'.
    destruct (tr_files _ _ _ Ht _ _ Hfl) as (Hchd & _). unfold chain_data. change (id (fl ++ new)) with (fl ++ new).
    rewrite fmap_app, concat_app. fold (chain_data g d' fl).
    rewrite (chain_data_same g Hg d d' _ _ _ Hchd Hdata). rewrite take_app_le; [done|].
    rewrite (chain_data_length g d fl) by apply Ht. unfold cluster_bytes, sectors_nat, alen in *. nia.
Qed.

End Writing.

Lemma others_same l sector d d1 d' : same_disk d d1 -> others_kept g l sector d1 d' -> others_kept g l sector d d'.
Proof.
  intros Hs (H1 & H2). pose proof (fun x => same_fat g d d1 x Hs) as Hf. split.
  - intros x Hx Hu Hn. rewrite <- Hf in *. by apply H1.
  - intros x i Hx Hu Hn Hi Hne. rewrite <- Hs. rewrite <- Hf in Hu. by apply H2.
Qed.

Lemma write_located_tree buffer size d d1 dirs files p it : tree_ok d dirs files -> it ∈ dir_items d dirs p -> is_file it -> 2 <= e_cluster (item_file it) ->
  file_size_ok g size -> size <= alen buffer -> same_disk d d1 -> tree_ok d1 dirs files ->
  spec (write_located g (item_file it) (fst (item_place it)) (snd (item_place it)) buffer size) d1 (fun r d' => exists files',
    rewritten d d' dirs files files' it (match r with Some _ => fun capacity => Some (take (Z.to_nat (Z.min size capacity)) buffer) | None => file_bytes d files it end) /\
    (r = None -> forall y, cluster_ok y -> fat d' y <> 0)).
Proof.
  intros Ht Hit Hfile Hcl Hsize Hbuf Hs Ht1. destruct (tr_entries _ _ _ Ht p it Hit Hfile Hcl) as (fl & Hfl). destruct (tr_files _ _ _ Ht1 _ _ Hfl) as (Hch & Huse & Hne).
  pose proof (proj1 Hsize) as Hrange. unfold UINT32_MAX in Hrange.
  assert (Hplace : entry_place g d1 fl (fst (item_place it)) (snd (item_place it))).
  { eapply item_entry_place; [done | by rewrite (dir_items_same d d1 _ p Hs) | done]. }
  eapply spec_weaken; [apply (write_located_spec g Hg (item_file it) _ _ buffer size fl d1); [apply Ht1 | done ..]|]. intros r d' Hd' (l' & Hch' & Huse' & Hnew & Hkept & Hr).
  apply (others_same _ _ d) in Hkept; [|done].
  assert (Hnew' : forall x, x ∈ l' -> x ∈ fl \/ fat d x = 0) by (intros x Hx; rewrite <- (same_fat g d d1 x Hs); by apply Hnew).
  exists (<[e_cluster (item_file it) := l']> files). destruct r as [u|].
  - destruct Hr as (Hfit & Hbytes & Hw). split; [|done]. rewrite Hs in Hw. eapply (write_stored d d' dirs files p it fl l'); (done || lia).
  - destruct Hr as (Hdata & (new & El) & Hfull). split; [|by intros _]. eapply (write_refused d d' dirs files p it fl l'); try done.
    etransitivity; [by apply same_data | done].
Qed.

Lemma write_file_spec path buffer size d dirs files p it : tree_ok d dirs files -> locate_in (dir_items d dirs) (root_cluster g) path = Some (p, it) ->
  is_file it -> 2 <= e_cluster (item_file it) -> file_size_ok g size -> size <= alen buffer ->
  let '(ok, d') := fat32_write_file g path buffer size d in
  exists files', rewritten d d' dirs files files' it (if ok then fun capacity => Some (take (Z.to_nat (Z.min size capacity)) buffer) else file_bytes d files it) /\
    (ok = false -> forall y, cluster_ok y -> fat d' y <> 0).
Proof.
  intros Ht Hloc Hfile Hcl Hsize Hbuf. pose proof (locate_elem _ _ _ _ _ Hloc) as Hit. unfold fat32_write_file, truth, check.
  rewrite (proj2 (Z.leb_le size UINT32_MAX)) by (destruct Hsize; lia).
  match goal with |- context [?m d] => assert (Hspec : spec m d (fun r d' => exists files', rewritten d d' dirs files files' it
    (match r with Some _ => fun capacity => Some (take (Z.to_nat (Z.min size capacity)) buffer) | None => file_bytes d files it end) /\
    (r = None -> forall y, cluster_ok y -> fat d' y <> 0))) end.
  { apply spec_bind, spec_ret; [apply Ht|]. apply spec_bind. eapply spec_weaken; [by apply (locate_spec path (dir_items d dirs))|]. intros r d1 Hd1 (Hs1 & Ht1 & ->).
    rewrite Hloc. cbn [fmap option_fmap option_map]. by eapply write_located_tree. }
  unfold FatTable.spec in Hspec. revert Hspec. match goal with |- context [?m d] => destruct (m d) as [r d'] end. intros (_ & files' & Hrw & Hfull). exists files'. destruct r as [u|].
  - rewrite bool_decide_true by done. done.
  - rewrite bool_decide_false by (by intros (? & ?)). split; [done|]. intros _. by apply Hfull.
Qed.



Lemma find_result c l name d : disk_fits d -> directory g d c l -> fst (find_entry g c name d) = item_entry <$> found_in name (listing (chain_entries g d l)).
Proof. intros Hd Hdir. apply (find_entry_spec g Hg c l name), spec_result in Hdir as (_ & _ & E); [exact E | exact Hd]. Qed.



End Tree.


(** ** A small volume *)

(** One table of 128 clusters of one sector, the root directory in cluster 2
    and the files A and B in clusters 3 and 4. *)
Definition sample_volume : volume := mk_volume true 2 1 2 1 1 1.
Definition sample_file (name : cstr) (cluster size : Z) : list Z := write32 (short_entry (default [] (short_name name)) 0x20 cluster) 28 size.
Definition filled (data : list Z) : list Z := data ++ replicate (512 - length data) 0.
Definition sample_disk : ram_disk := mk_disk (list_to_map [
    (1, write32 (write32 (write32 zero_sector 8 END_OF_CHAIN) 12 END_OF_CHAIN) 16 END_OF_CHAIN);
    (2, filled (sample_file (str "A") 3 5 ++ sample_file (str "B") 4 3));
    (3, filled (str "hello")); (4, filled (str "old"))]) 200.
Definition sample_dirs : gmap Z (list Z) := {[2 := [2]]}.
Definition sample_files : gmap Z (list Z) := {[3 := [3]; 4 := [4]]}.
Definition sample_item (name : cstr) (offset cluster size : Z) : item := mk_item (mk_slot 2 offset (sample_file name cluster size)) None.

Lemma sample_volume_ok : volume_ok sample_volume.
Proof. split; vm_compute; (done || split; done). Qed.

Lemma sample_fits : disk_fits sample_volume sample_disk.
Proof.
  split; [|vm_compute; done]. cbn [disk_ok disk_device]. unfold full_sectors. apply (bool_decide_unpack _). vm_compute. exact I.
Qed.

Lemma sample_items : listing (chain_entries sample_volume sample_disk [2]) = [sample_item (str "A") 0 3 5; sample_item (str "B") 32 4 3].
Proof. vm_compute. reflexivity. Qed.

Lemma sample_chain c : c ∈ [2; 3; 4] -> chain sample_volume (fat sample_volume sample_disk) c [c] /\ in_use (fat sample_volume sample_disk) [c].
Proof.
  intros Hc. assert (Hf : fat sample_volume sample_disk c = END_OF_CHAIN).
  { apply elem_of_cons in Hc as [->|Hc]; [vm_compute; reflexivity|]. apply elem_of_cons in Hc as [->|Hc]; [vm_compute; reflexivity|].
    apply list_elem_of_singleton in Hc as ->. vm_compute. reflexivity. }
  split.
  - constructor; [unfold cluster_ok, cluster_limit; cbn; set_unfold; lia|]. rewrite Hf. constructor. reflexivity.
  - intros x ->%list_elem_of_singleton. rewrite Hf. discriminate.
Qed.


Lemma sample_dir_items c it : it ∈ dir_items sample_volume sample_disk sample_dirs c -> it = sample_item (str "A") 0 3 5 \/ it = sample_item (str "B") 32 4 3.
Proof.
  unfold dir_items, sample_dirs. destruct (decide (c = 2)) as [->|Hc]; [|rewrite lookup_singleton_ne by done; by intros Hit%not_elem_of_nil].
  rewrite lookup_singleton_eq, sample_items. intros [->|Hit]%elem_of_cons; [by left|]. apply list_elem_of_singleton in Hit. by right.
Qed.

Lemma sample_files_inv c l : sample_files !! c = Some l -> (c = 3 \/ c = 4) /\ l = [c].
Proof.
  unfold sample_files. intros [(<- & <-)|(_ & Hl)]%lookup_insert_Some; [by split; [left|]|]. apply lookup_singleton_Some in Hl as (<- & <-). by split; [right|].
Qed.

Lemma sample_dirs_inv c l : sample_dirs !! c = Some l -> c = 2 /\ l = [2].
Proof. unfold sample_dirs. by intros (<- & <-)%lookup_singleton_Some. Qed.

Lemma sample_tree : tree_ok sample_volume sample_disk sample_dirs sample_files.
Proof.
  split.
  - apply sample_fits.
  - exists [2]. vm_compute. reflexivity.
  - intros c l (-> & ->)%sample_dirs_inv. destruct (sample_chain 2) as (H1 & H2); [by left|]. split; [split; [exact H1 | vm_compute; discriminate] | exact H2].
  - intros c l (Hc & ->)%sample_files_inv. destruct (sample_chain c) as (H1 & H2); [set_unfold; lia|]. split; [exact H1|]. split; [exact H2 | discriminate].
  - intros c1 l1 c2 l2 x (_ & ->)%sample_files_inv (_ & ->)%sample_files_inv H1%list_elem_of_singleton H2%list_elem_of_singleton. congruence.
  - intros c1 l1 c2 l2 x (Hc & ->)%sample_files_inv (-> & ->)%sample_dirs_inv H1%list_elem_of_singleton H2%list_elem_of_singleton. lia.
  - intros c it [->| ->]%sample_dir_items; vm_compute; discriminate.
  - intros c it [->| ->]%sample_dir_items _ _; eexists; vm_compute; reflexivity.
  - intros c it [->| ->]%sample_dir_items _; vm_compute; split; discriminate.
  - intros c1 c2 i1 i2 [->| ->]%sample_dir_items [->| ->]%sample_dir_items _ _; vm_compute; congruence.
Qed.

Lemma sample_located : locate_in (dir_items sample_volume sample_disk sample_dirs) (root_cluster sample_volume) (str "/A") = Some (2, sample_item (str "A") 0 3 5) /\
  locate_in (dir_items sample_volume sample_disk sample_dirs) (root_cluster sample_volume) (str "/B") = Some (2, sample_item (str "B") 32 4 3).
Proof. split; vm_compute; reflexivity. Qed.




Lemma clean_app a z : no_end a -> Forall (fun e => zero_entry e = true) z -> clean (a ++ z).
Proof.
  intros Ha Hz a' e b E He. assert (Hle : (length a <= length a')%nat).
  { destruct (decide (length a <= length a')%nat) as [|Hlt]; [done|]. exfalso.
    assert (Hl : a !! length a' = Some e) by (rewrite <- (lookup_app_l a z), E, list_lookup_middle by (done || lia); done).
    eapply Forall_lookup_1 in Hl; [|exact Ha]. cbn in Hl. congruence. }
  replace b with (drop (S (length a')) (a ++ z)) by (rewrite E, cons_middle, app_assoc, drop_app_length'; [done | rewrite length_app; simpl; lia]).
  rewrite drop_app_ge by lia. by apply Forall_drop.
Qed.

Lemma sample_clean : clean (chain_entries sample_volume sample_disk [2]).
Proof.
  rewrite <- (take_drop 2 (chain_entries sample_volume sample_disk [2])). apply clean_app.
  - unfold no_end. repeat constructor; vm_compute; reflexivity.
  - apply (bool_decide_unpack _). vm_compute. exact I.
Qed.


(** ** Sectors that are not cleared *)

(** A root directory of one cluster of two sectors, full; the second sector of
    the free cluster 3 holds an entry from before. *)
Definition stale_volume : volume := mk_volume true 2 2 2 1 1 1.
Definition stale_disk : ram_disk := mk_disk (list_to_map [
    (1, write32 zero_sector 8 END_OF_CHAIN);
    (2, concat ((fun i => sample_file [65; 65 + Z.of_nat i] 0 0) <$> seq 0 16)); (3, concat ((fun i => sample_file [66; 65 + Z.of_nat i] 0 0) <$> seq 0 16));
    (5, filled (sample_file (str "GHOST") 9 100))]) 400.



End FatTree.
