(* ===== verification/Vfs.v ===== *)
(** * Vfs: descriptors and file-system dispatch of src/fs/vfs.c

    The descriptor table, the open files with their shared offsets, the pipes
    and the mount table.  A file system is a record of operations on its state
    [S], as [struct vfs_fs_ops] is a record of function pointers; a pointer
    that [devfs_ops] leaves NULL is None.  [task_current_id()] is the argument
    [owner] and the working directory the argument [cwd].  Each call of
    [task_wake_blocked] is counted in [wakes].  A call that blocks is the
    outcome [IoWait]; the passes of a pipe call are those of [Pipe]. *)

From S2P Require Import Prelude CString Ramfs Pipe Path Ps2 Devfs.
Import CString.CString Ramfs.Ramfs Pipe.Pipe Path.Path Ps2.Ps2 Devfs.Devfs.
Local Open Scope Z_scope.

Module Vfs.

Definition VFS_MAX_FDS : Z := 32.
Definition VFS_DESCRIPTOR_SLOTS : Z := 512.
Definition VFS_MAX_PIPES : Z := 16.

Inductive backend := RamfsOps | Fat32Ops | DevfsOps.

Record vfs_open_file := mk_open_file { o_used : bool; o_references : Z; o_offset : Z }.
Definition no_open_file : vfs_open_file := mk_open_file false 0 0.

Record vfs_fd := mk_fd {
  d_used : bool;
  d_owner : Z;
  d_number : Z;
  d_name : cstr;
  d_file : option Z;
  d_device : devfs_device;
  d_pipe : option Z;
  d_mode : vfs_pipe_mode;
}.
Definition no_fd : vfs_fd := mk_fd false 0 0 [] None DEVFS_DEVICE_NONE None VFS_PIPE_NONE.
Definition no_pipe : vfs_pipe := mk_pipe false 0 0 0 0 0 [].

Definition with_owner d owner number := mk_fd true owner number (d_name d) (d_file d) (d_device d) (d_pipe d) (d_mode d).
Definition closed d := mk_fd false (d_owner d) (d_number d) (d_name d) None (d_device d) None VFS_PIPE_NONE.

Section Vfs.
Context {S : Type}.

Record vfs_fs_ops := mk_ops {
  op_read : option (cstr -> Z -> S -> option (list Z) * S);
  op_write : option (cstr -> list Z -> Z -> S -> bool * S);
  op_stat : cstr -> S -> option Z * S;
  op_create : cstr -> S -> bool * S;
  op_readdir : cstr -> Z -> S -> (Z * option fs_dirent) * S;
  op_mkdir : cstr -> S -> bool * S;
  op_unlink : cstr -> S -> bool * S;
  op_rmdir : cstr -> S -> bool * S;
  op_is_directory : cstr -> S -> bool * S;
  op_sync : S -> bool * S;
  op_device : option (cstr -> devfs_device);
}.

Context (ops : backend -> vfs_fs_ops).

Record vfs := mk_vfs {
  descriptors : list vfs_fd;
  open_files : list vfs_open_file;
  mounts : list (vfs_mount backend);
  pipes : list vfs_pipe;
  fs : S;
  terminal : tty;
  wakes : Z;
}.

Definition fd_at (st : vfs) (i : Z) : vfs_fd := aget no_fd (descriptors st) i.
Definition file_at (st : vfs) (i : Z) : vfs_open_file := aget no_open_file (open_files st) i.
Definition pipe_at (st : vfs) (i : Z) : vfs_pipe := aget no_pipe (pipes st) i.
Definition set_fd st i d :=
  mk_vfs (aset (descriptors st) i d) (open_files st) (mounts st) (pipes st) (fs st) (terminal st) (wakes st).
Definition set_open st i f :=
  mk_vfs (descriptors st) (aset (open_files st) i f) (mounts st) (pipes st) (fs st) (terminal st) (wakes st).
Definition set_pipe st i p :=
  mk_vfs (descriptors st) (open_files st) (mounts st) (aset (pipes st) i p) (fs st) (terminal st) (wakes st).
Definition with_mounts st m :=
  mk_vfs (descriptors st) (open_files st) m (pipes st) (fs st) (terminal st) (wakes st).
Definition with_fs st s :=
  mk_vfs (descriptors st) (open_files st) (mounts st) (pipes st) s (terminal st) (wakes st).
Definition with_terminal st t :=
  mk_vfs (descriptors st) (open_files st) (mounts st) (pipes st) (fs st) t (wakes st).
Definition task_wake_blocked st :=
  mk_vfs (descriptors st) (open_files st) (mounts st) (pipes st) (fs st) (terminal st) (wakes st + 1).

(** ** References *)

Definition drop_pipe (pipe : option Z) (mode : vfs_pipe_mode) (st : vfs) : vfs :=
  match pipe with
  | None => st
  | Some i => set_pipe st i (pipe_drop_reference_locked mode (pipe_at st i))
  end.

(** [if (mode == READ) pipe->readers++; if (mode == WRITE) pipe->writers++;] *)
Definition add_pipe (pipe : option Z) (mode : vfs_pipe_mode) (st : vfs) : vfs :=
  match pipe with
  | None => st
  | Some i => set_pipe st i (pipe_add_reference mode (pipe_at st i))
  end.

Definition retain_pipe (pipe : option Z) (mode : vfs_pipe_mode) (st : vfs) : vfs :=
  match pipe with
  | None => st
  | Some i => if bool_decide (mode = VFS_PIPE_NONE) then st
              else set_pipe st i (Pipe.pipe_retain_reference mode (pipe_at st i))
  end.

Definition allocate_open_file_locked (st : vfs) : option Z * vfs :=
  match find_up (trips 0 VFS_DESCRIPTOR_SLOTS) 0 (fun i => negb (o_used (file_at st i))) with
  | None => (None, st)
  | Some i => (Some i, set_open st i (mk_open_file true 1 0))
  end.

Definition open_file_retain_locked (file : option Z) (st : vfs) : vfs :=
  match file with
  | None => st
  | Some i => let f := file_at st i in set_open st i (mk_open_file (o_used f) (o_references f +! 1) (o_offset f))
  end.

Definition open_file_release_locked (file : option Z) (st : vfs) : vfs :=
  match file with
  | None => st
  | Some i =>
      let f := file_at st i in
      if o_references f =? 0 then st
      else
        let references := o_references f -! 1 in
        set_open st i (if references =? 0 then mk_open_file false references 0
                       else mk_open_file (o_used f) references (o_offset f))
  end.

(** ** Descriptors *)

Definition lookup (owner number : Z) (st : vfs) : option Z :=
  find_up (trips 0 VFS_DESCRIPTOR_SLOTS) 0 (fun i =>
    d_used (fd_at st i) && (d_owner (fd_at st i) =? owner) && (d_number (fd_at st i) =? number)).

Definition allocate_slot (st : vfs) : option Z :=
  find_up (trips 0 VFS_DESCRIPTOR_SLOTS) 0 (fun i => negb (d_used (fd_at st i))).

(** The loop over [number], which returns when no slot is left. *)
Fixpoint standard_streams (streams : list (Z * cstr)) (owner : Z) (st : vfs) : vfs :=
  match streams with
  | [] => st
  | (number, name) :: streams =>
      match lookup owner number st with
      | Some _ => standard_streams streams owner st
      | None =>
          match allocate_slot st with
          | None => st
          | Some i => standard_streams streams owner
                        (set_fd st i (mk_fd true owner number name None DEVFS_DEVICE_CONSOLE None VFS_PIPE_NONE))
          end
      end
  end.

Definition ensure_standard_streams (owner : Z) (st : vfs) : vfs :=
  standard_streams [(0, str "stdin"); (1, str "stdout"); (2, str "stderr")] owner st.

(** The file system of a path and the path inside it. *)
Definition path_ops (path : cstr) (st : vfs) : option vfs_fs_ops * cstr :=
  match find_mount path (mounts st) with
  | Some (m, relative) => (option_map ops (m_ops m), relative)
  | None => (Some (ops RamfsOps), path)
  end.

Definition vfs_init (st : vfs) : vfs :=
  let unused_fd d := mk_fd false (d_owner d) (d_number d) (d_name d) (d_file d) (d_device d) (d_pipe d) (d_mode d) in
  let unused_file f := mk_open_file false (o_references f) (o_offset f) in
  let unused_mount (m : vfs_mount backend) := mk_mount false (m_removable m) (m_path m) (m_type m) (m_ops m) in
  let unused_pipe p := mk_pipe false (p_readers p) (p_writers p) (p_head p) (p_tail p) (p_count p) (p_data p) in
  let st := mk_vfs (unused_fd <$> descriptors st) (unused_file <$> open_files st) (unused_mount <$> mounts st)
              (unused_pipe <$> pipes st) (fs st) (terminal st) (wakes st) in
  let st := with_mounts st (snd (install_mount (str "/dev") (str "devfs") DevfsOps false (mounts st))) in
  ensure_standard_streams 0 st.

(** The first free number from [lo] on. *)
Definition free_number (lo owner : Z) (st : vfs) : option Z :=
  find_up (trips lo VFS_MAX_FDS) lo (fun number => match lookup owner number st with None => true | Some _ => false end).

(** [ops->stat] succeeds, or [create] is set and [ops->create] does. *)
Definition open_path (o : vfs_fs_ops) (path : cstr) (create : bool) (st : vfs) : bool * vfs :=
  let '(size, s) := op_stat o path (fs st) in
  let st := with_fs st s in
  match size with
  | Some _ => (true, st)
  | None => if negb create then (false, st)
            else let '(ok, s) := op_create o path (fs st) in (ok, with_fs st s)
  end.

Definition vfs_open (name : option cstr) (create : bool) (owner : Z) (cwd : option cstr) (st : vfs) : Z * vfs :=
  match name with
  | None => (-1, st)
  | Some name =>
      if (ch name 0 =? NUL) || (RAMFS_NAME_SIZE <=? alen name) then (-1, st)
      else
        match resolve_path cwd (Some name) true RAMFS_NAME_SIZE with
        | None => (-1, st)
        | Some name =>
            match path_ops name st with
            | (None, _) => (-1, st)
            | (Some o, path) =>
                let '(ok, st) := open_path o path create st in
                if negb ok then (-1, st)
                else
                  let st := ensure_standard_streams owner st in
                  match free_number 3 owner st with
                  | None => (-1, st)
                  | Some number =>
                      let fd := allocate_slot st in
                      let '(file, st) := allocate_open_file_locked st in
                      match file, fd with
                      | Some file, Some i =>
                          let device := match op_device o with Some device => device path | None => DEVFS_DEVICE_NONE end in
                          (number, set_fd st i (mk_fd true owner number name (Some file) device None VFS_PIPE_NONE))
                      | _, _ => (-1, open_file_release_locked file st)
                      end
                  end
            end
        end
  end.

(** The first two unused slots. *)
Definition two_slots (st : vfs) : option (Z * Z) :=
  let free i := negb (d_used (fd_at st i)) in
  match find_up (trips 0 VFS_DESCRIPTOR_SLOTS) 0 free with
  | None => None
  | Some i => match find_up (trips (i + 1) VFS_DESCRIPTOR_SLOTS) (i + 1) free with
              | None => None
              | Some j => Some (i, j)
              end
  end.

Definition two_numbers (owner : Z) (st : vfs) : option (Z * Z) :=
  match free_number 3 owner st with
  | None => None
  | Some n => match free_number (n + 1) owner st with
              | None => None
              | Some m => Some (n, m)
              end
  end.

(** The result and the two numbers. *)
Definition vfs_pipe_call (pipe_descriptors : bool) (owner : Z) (st : vfs) : Z * option (Z * Z) * vfs :=
  if negb pipe_descriptors then (-1, None, st)
  else
    let st := ensure_standard_streams owner st in
    let pipe := find_up (trips 0 VFS_MAX_PIPES) 0 (fun i => negb (p_used (pipe_at st i))) in
    match pipe, two_numbers owner st, two_slots st with
    | Some pipe, Some (n0, n1), Some (s0, s1) =>
        let st := set_pipe st pipe (pipe_open (pipe_at st pipe)) in
        let fd number mode := mk_fd true owner number (str "[pipe]") None DEVFS_DEVICE_NONE (Some pipe) mode in
        let st := set_fd st s0 (fd n0 VFS_PIPE_READ) in
        let st := set_fd st s1 (fd n1 VFS_PIPE_WRITE) in
        (0, Some (n0, n1), st)
    | _, _, _ => (-1, None, st)
    end.

Definition vfs_dup (number owner : Z) (st : vfs) : Z * vfs :=
  let st := ensure_standard_streams owner st in
  match lookup owner number st with
  | None => (-1, st)
  | Some source =>
      match free_number 0 owner st, allocate_slot st with
      | Some destination, Some target =>
          let d := with_owner (fd_at st source) owner destination in
          let st := set_fd st target d in
          let st := open_file_retain_locked (d_file d) st in
          (destination, add_pipe (d_pipe d) (d_mode d) st)
      | _, _ => (-1, st)
      end
  end.

Definition vfs_dup2 (source_number destination_number owner : Z) (st : vfs) : Z * vfs :=
  if (destination_number <? 0) || (VFS_MAX_FDS <=? destination_number) then (-1, st)
  else
    let st := ensure_standard_streams owner st in
    match lookup owner source_number st with
    | None => (-1, st)
    | Some source =>
        if source_number =? destination_number then (destination_number, st)
        else
          let saved := fd_at st source in
          let target := match lookup owner destination_number st with
                        | Some target => Some target
                        | None => allocate_slot st
                        end in
          match target with
          | None => (-1, st)
          | Some target =>
              let st := if d_used (fd_at st target) then
                          let t := fd_at st target in
                          open_file_release_locked (d_file t) (drop_pipe (d_pipe t) (d_mode t) st)
                        else st in
              let d := with_owner saved owner destination_number in
              let st := set_fd st target d in
              let st := open_file_retain_locked (d_file d) st in
              let st := add_pipe (d_pipe d) (d_mode d) st in
              (destination_number, task_wake_blocked st)
          end
    end.

(** Release of the descriptor in slot [i]. *)
Definition close_slot (i : Z) (st : vfs) : vfs :=
  let d := fd_at st i in
  let st := drop_pipe (d_pipe d) (d_mode d) st in
  let st := open_file_release_locked (d_file d) st in
  set_fd st i (closed d).

Definition vfs_close (number owner : Z) (st : vfs) : Z * vfs :=
  match lookup owner number st with
  | None => (-1, st)
  | Some i =>
      if number <? 3 then (-1, st)
      else
        let pipe_endpoint := negb (bool_decide (d_mode (fd_at st i) = VFS_PIPE_NONE)) in
        let st := close_slot i st in
        (0, if pipe_endpoint then task_wake_blocked st else st)
  end.

Definition vfs_close_all (owner : Z) (st : vfs) : vfs :=
  let '(closed_pipe, st) :=
    for_up (trips 0 VFS_DESCRIPTOR_SLOTS) 0 (fun i '(closed_pipe, st) =>
      if d_used (fd_at st i) && (d_owner (fd_at st i) =? owner) then
        (closed_pipe || negb (bool_decide (d_mode (fd_at st i) = VFS_PIPE_NONE)), close_slot i st)
      else (closed_pipe, st)) (false, st) in
  if closed_pipe then task_wake_blocked st else st.

Fixpoint inherit_numbers (numbers : list Z) (parent child : Z) (st : vfs) : bool * vfs :=
  match numbers with
  | [] => (true, st)
  | number :: numbers =>
      match lookup parent number st, allocate_slot st with
      | Some source, Some target =>
          let s := fd_at st source in
          let d := mk_fd (d_used s) child (d_number s) (d_name s) (d_file s) (d_device s) (d_pipe s) (d_mode s) in
          let st := set_fd st target d in
          let st := open_file_retain_locked (d_file d) st in
          inherit_numbers numbers parent child (retain_pipe (d_pipe d) (d_mode d) st)
      | _, _ => (false, vfs_close_all child st)
      end
  end.

Definition vfs_inherit_standard (parent child : Z) (st : vfs) : bool * vfs :=
  inherit_numbers [0; 1; 2] parent child (vfs_close_all child (ensure_standard_streams parent st)).

(** One descriptor of the parent in [vfs_fork]; None when no slot is left. *)
Definition fork_slot (parent child i : Z) (st : vfs) : option (bool * vfs) :=
  let source := fd_at st i in
  if negb (d_used source) || negb (d_owner source =? parent) then Some (false, st)
  else match allocate_slot st with
       | None => None
       | Some target =>
           let d := with_owner source child (d_number source) in
           let st := set_fd st target d in
           let st := open_file_retain_locked (d_file d) st in
           let used := match d_pipe d with Some p => p_used (pipe_at st p) | None => false end in
           if negb (bool_decide (d_mode d = VFS_PIPE_NONE)) && used
           then Some (true, add_pipe (d_pipe d) (d_mode d) st) else Some (false, st)
       end.

Fixpoint fork_slots (n : nat) (i parent child : Z) (inherited_pipe : bool) (st : vfs) : bool * bool * vfs :=
  match n with
  | O => (true, inherited_pipe, st)
  | Datatypes.S n =>
      match fork_slot parent child i st with
      | None => (false, inherited_pipe, vfs_close_all child st)
      | Some (pipe, st) => fork_slots n (i + 1) parent child (inherited_pipe || pipe) st
      end
  end.

Definition vfs_fork (parent child : Z) (st : vfs) : bool * vfs :=
  let st := vfs_close_all child (ensure_standard_streams parent st) in
  let needed := count_up (trips 0 VFS_DESCRIPTOR_SLOTS) 0 (fun i => d_used (fd_at st i) && (d_owner (fd_at st i) =? parent)) in
  let available := count_up (trips 0 VFS_DESCRIPTOR_SLOTS) 0 (fun i => negb (d_used (fd_at st i))) in
  if available <? needed then (false, st)
  else
    let '(ok, inherited_pipe, st) := fork_slots (trips 0 VFS_DESCRIPTOR_SLOTS) 0 parent child false st in
    if negb ok then (false, st) else (true, if inherited_pipe then task_wake_blocked st else st).

(** ** Input and output *)

(** [IoReturn code bytes]: the result and what the buffer got; [IoFault]: a
    call through a NULL operation. *)
Inductive io_result := IoReturn (code : Z) (bytes : list Z) | IoWait | IoFault.

Definition vfs_read (number : Z) (buffer : bool) (length owner : Z) (st : vfs) : io_result * vfs :=
  let st := ensure_standard_streams owner st in
  match lookup owner number st with
  | None => (IoReturn (-1) [], st)
  | Some i =>
      let fd := fd_at st i in
      if negb buffer then (IoReturn (-1) [], st)
      else if negb (bool_decide (d_mode fd = VFS_PIPE_NONE)) then
        match d_pipe fd with
        | None => (IoReturn (-1) [], st)
        | Some p =>
            let '(out, pipe) := pipe_read (d_mode fd) length (pipe_at st p) in
            let st := set_pipe st p pipe in
            match out with
            | ReadWait => (IoWait, st)
            | ReadReturn code bytes => (IoReturn code bytes, if alen bytes =? 0 then st else task_wake_blocked st)
            end
        end
      else if (number =? 1) || (number =? 2) then (IoReturn (-1) [], st)
      else if negb (bool_decide (d_device fd = DEVFS_DEVICE_NONE)) then
        let '(out, t) := devfs_read (d_device fd) true length (terminal st) in
        let st := with_terminal st t in
        match out with
        | DevWait => (IoWait, st)
        | DevReturn ok bytes => (IoReturn (if ok then 0 else -1) bytes, st)
        end
      else if number <? 3 then (IoReturn (-1) [], st)
      else
        let '(o, path) := path_ops (d_name fd) st in
        match d_file fd with
        | None => (IoReturn (-1) [], st)
        | Some f =>
            match o with
            | None => (IoFault, st)
            | Some o =>
                match op_read o with
                | None => (IoFault, st)
                | Some read =>
                    let '(data, s) := read path RAMFS_DATA_SIZE (fs st) in
                    let st := with_fs st s in
                    match data with
                    | None => (IoReturn (-1) [], st)
                    | Some data =>
                        let size := alen data in
                        let offset := o_offset (file_at st f) in
                        if size <=? offset then (IoReturn 0 [], st)
                        else
                          let n := size -! offset in
                          let n := if length <? n then length else n in
                          let bytes := take (Z.to_nat n) (drop (Z.to_nat offset) data) in
                          let file := file_at st f in
                          (IoReturn 0 bytes, set_open st f (mk_open_file (o_used file) (o_references file) (offset +! n)))
                    end
                end
            end
        end
  end.

(** [OutReturn code written]; [OutMore] and [OutWait] leave the rest of the
    call to further passes of [pipe_write]. *)
Inductive out_result := OutReturn (code written : Z) | OutMore (total : Z) | OutWait (total : Z) | OutFault.

Definition vfs_write (number : Z) (buffer : option (list Z)) (length owner : Z) (st : vfs) : out_result * vfs :=
  let st := ensure_standard_streams owner st in
  match lookup owner number st, buffer with
  | Some i, Some bytes =>
      let fd := fd_at st i in
      if RAMFS_DATA_SIZE <? length then (OutReturn (-1) 0, st)
      else if negb (bool_decide (d_mode fd = VFS_PIPE_NONE)) then
        match d_pipe fd with
        | None => (OutReturn (-1) 0, st)
        | Some p =>
            let '(out, pipe) := pipe_write (d_mode fd) (take (Z.to_nat length) bytes) 0 (pipe_at st p) in
            let st := set_pipe st p pipe in
            match out with
            | WriteReturn code written => (OutReturn code written, st)
            | WriteMore total => (OutMore total, task_wake_blocked st)
            | WriteWait total => (OutWait total, st)
            end
        end
      else if number =? 0 then (OutReturn (-1) 0, st)
      else if negb (bool_decide (d_device fd = DEVFS_DEVICE_NONE)) then
        let '(ok, written, t) := devfs_write (d_device fd) (Some bytes) length (terminal st) in
        (OutReturn (if ok then 0 else -1) written, with_terminal st t)
      else
        let '(o, path) := path_ops (d_name fd) st in
        match d_file fd with
        | None => (OutReturn (-1) 0, st)
        | Some f =>
            match o with
            | None => (OutFault, st)
            | Some o =>
                match op_write o with
                | None => (OutFault, st)
                | Some write =>
                    let '(ok, s) := write path bytes length (fs st) in
                    let st := with_fs st s in
                    if negb ok then (OutReturn (-1) 0, st)
                    else
                      let file := file_at st f in
                      (OutReturn 0 length, set_open st f (mk_open_file (o_used file) (o_references file) length))
                end
            end
        end
  | _, _ => (OutReturn (-1) 0, st)
  end.

Definition vfs_seek (number offset whence owner : Z) (st : vfs) : Z * vfs :=
  match lookup owner number st with
  | None => (-1, st)
  | Some i =>
      let fd := fd_at st i in
      if (number <? 3) || negb (bool_decide (d_device fd = DEVFS_DEVICE_NONE)) ||
         negb (bool_decide (d_mode fd = VFS_PIPE_NONE)) then (-1, st)
      else
        match d_file fd, path_ops (d_name fd) st with
        | Some f, (Some o, path) =>
            let '(size, s) := op_stat o path (fs st) in
            let st := with_fs st s in
            match size with
            | None => (-1, st)
            | Some size =>
                let file := file_at st f in
                let base := if whence =? 0 then 0
                            else if whence =? 1 then i64 (o_offset file)
                            else if whence =? 2 then i64 size else -1 in
                if (base <? 0) || (offset <? - base) || (base + offset <? 0) || (size <? u64 (base + offset)) then (-1, st)
                else
                  let target := u64 (base + offset) in
                  (i64 target, set_open st f (mk_open_file (o_used file) (o_references file) target))
            end
        | _, _ => (-1, st)
        end
  end.

(** ** Paths *)

(** The operation of the file system that a path belongs to. *)
Definition on_path {R} (fail : R) (op : vfs_fs_ops -> cstr -> S -> R * S) (path : option cstr) (cwd : option cstr)
    (st : vfs) : R * vfs :=
  match resolve_path cwd path true RAMFS_NAME_SIZE with
  | None => (fail, st)
  | Some absolute =>
      match path_ops absolute st with
      | (None, _) => (fail, st)
      | (Some o, relative) => let '(r, s) := op o relative (fs st) in (r, with_fs st s)
      end
  end.

Definition vfs_stat (name : option cstr) (cwd : option cstr) (st : vfs) : option Z * vfs :=
  on_path None op_stat name cwd st.
Definition vfs_readdir (path : option cstr) (index : Z) (entry : bool) (cwd : option cstr) (st : vfs) :
    (Z * option fs_dirent) * vfs :=
  if negb entry then ((-1, None), st)
  else on_path (-1, None) (fun o relative => op_readdir o relative index) path cwd st.
Definition vfs_mkdir (path : option cstr) (cwd : option cstr) (st : vfs) : bool * vfs := on_path false op_mkdir path cwd st.
Definition vfs_unlink (path : option cstr) (cwd : option cstr) (st : vfs) : bool * vfs := on_path false op_unlink path cwd st.
Definition vfs_rmdir (path : option cstr) (cwd : option cstr) (st : vfs) : bool * vfs := on_path false op_rmdir path cwd st.

Definition vfs_is_directory (path : option cstr) (cwd : option cstr) (st : vfs) : bool * vfs :=
  match resolve_path cwd path true RAMFS_NAME_SIZE with
  | None => (false, st)
  | Some absolute =>
      if name_equal absolute (str "/") then (true, st)
      else
        let at_mount := match find_mount absolute (mounts st) with
                        | Some (m, _) => name_equal absolute (m_path m)
                        | None => false
                        end in
        if at_mount then (true, st)
        else match path_ops absolute st with
             | (None, _) => (false, st)
             | (Some o, relative) => let '(r, s) := op_is_directory o relative (fs st) in (r, with_fs st s)
             end
  end.

(** The loop of [vfs_sync] from mount [i] on. *)
Fixpoint sync_mounts (n : nat) (i : Z) (st : vfs) : bool * vfs :=
  match n with
  | O => (true, st)
  | Datatypes.S n =>
      let m := mount_at (mounts st) i in
      match m_used m, m_ops m with
      | true, Some b =>
          let '(ok, s) := op_sync (ops b) (fs st) in
          if negb ok then (false, with_fs st s) else sync_mounts n (i + 1) (with_fs st s)
      | _, _ => sync_mounts n (i + 1) st
      end
  end.

Definition vfs_sync (st : vfs) : bool * vfs := sync_mounts (trips 0 VFS_MAX_MOUNTS) 0 st.

(** [mounted] is [fat32_mounted()]. *)
Definition vfs_mount_call (type target : option cstr) (mounted : bool) (cwd : option cstr) (st : vfs) : bool * vfs :=
  match type, target with
  | Some type, Some _ =>
      if negb (name_equal type (str "fat32")) || negb mounted then (false, st)
      else
        match resolve_path cwd target true FS_PATH_MAX with
        | None => (false, st)
        | Some absolute =>
            if name_equal absolute (str "/") then (false, st)
            else
              let '(directory, st) := vfs_is_directory (Some absolute) cwd st in
              if negb directory then (false, st)
              else
                let '(ok, m) := install_mount absolute (str "fat32") Fat32Ops true (mounts st) in
                (ok, with_mounts st m)
        end
  | _, _ => (false, st)
  end.

(** The used mounts from [i] on, counted down with [index]. *)
Fixpoint mount_info_from (n : nat) (i index : Z) (st : vfs) : option (cstr * cstr) :=
  match n with
  | O => None
  | Datatypes.S n =>
      let m := mount_at (mounts st) i in
      if negb (m_used m) then mount_info_from n (i + 1) index st
      else if negb (index =? 0) then mount_info_from n (i + 1) (index -! 1) st
      else Some (m_type m, m_path m)
  end.

(** The type and the path. *)
Definition vfs_mount_info (index : Z) (info : bool) (st : vfs) : option (cstr * cstr) :=
  if negb info then None
  else if index =? 0 then Some (str "ramfs", str "/")
  else mount_info_from (trips 0 VFS_MAX_MOUNTS) 0 (index -! 1) st.

(** [cwd_in_mount] is [process_cwd_in_mount]. *)
Definition vfs_unmount (target : option cstr) (cwd_in_mount : cstr -> bool) (cwd : option cstr) (st : vfs) : bool * vfs :=
  match target, resolve_path cwd target true FS_PATH_MAX with
  | Some _, Some absolute =>
      if name_equal absolute (str "/") then (false, st)
      else
        match find_up (trips 0 VFS_MAX_MOUNTS) 0 (fun i =>
                m_used (mount_at (mounts st) i) && name_equal (m_path (mount_at (mounts st) i)) absolute) with
        | None => (false, st)
        | Some k =>
            if negb (m_removable (mount_at (mounts st) k)) || cwd_in_mount absolute then (false, st)
            else
              match find_up (trips 0 VFS_MAX_MOUNTS) 0 (fun i =>
                      negb (i =? k) && m_used (mount_at (mounts st) i) && path_has_prefix (m_path (mount_at (mounts st) i)) absolute),
                    find_up (trips 0 VFS_DESCRIPTOR_SLOTS) 0 (fun i =>
                      d_used (fd_at st i) && (3 <=? d_number (fd_at st i)) && path_has_prefix (d_name (fd_at st i)) absolute) with
              | None, None =>
                  match m_ops (mount_at (mounts st) k) with
                  | None => (false, st)
                  | Some b =>
                      let '(ok, s) := op_sync (ops b) (fs st) in
                      let st := with_fs st s in
                      if negb ok then (false, st)
                      else (true, with_mounts st (aset (mounts st) k no_mount))
                  end
              | _, _ => (false, st)
              end
        end
  | _, _ => (false, st)
  end.

End Vfs.
Arguments vfs_fs_ops : clear implicits.
Arguments vfs : clear implicits.
Arguments mk_vfs {S}.

End Vfs.
