(* ===== verification/VfsRefs.v ===== *)
(** * VfsRefs: reference counts of the descriptor table

    The invariant of src/fs/vfs.c: an open file or a pipe is in use exactly as
    long as a descriptor refers to it, and its counts are the numbers of those
    descriptors.  Every operation that touches the table preserves it. *)

From S2P Require Import Prelude CString Ramfs Pipe Path Ps2 Devfs Vfs.
Import CString.CString Ramfs.Ramfs Pipe.Pipe Path.Path Ps2.Ps2 Devfs.Devfs Vfs.Vfs.
Local Open Scope Z_scope.

Module VfsRefs.

(** ** Counting descriptors *)

Definition b2z (b : bool) : Z := if b then 1 else 0.
Definition count {A} (P : A -> bool) (l : list A) : Z := foldr (fun x n => b2z (P x) + n) 0 l.

Definition on_file (k : Z) (d : vfs_fd) : bool := d_used d && bool_decide (d_file d = Some k).
Definition on_pipe (mode : vfs_pipe_mode) (k : Z) (d : vfs_fd) : bool :=
  d_used d && bool_decide (d_mode d = mode) && bool_decide (d_pipe d = Some k).

Lemma count_range {A} (P : A -> bool) l : 0 <= count P l <= alen l.
Proof. unfold alen. induction l as [|x l IH]; simpl; [done|]. destruct (P x); simpl; lia. Qed.

Lemma count_aset {A} (P : A -> bool) (z : A) l i x : 0 <= i < alen l ->
  count P (aset l i x) = count P l - b2z (P (aget z l i)) + b2z (P x).
Proof.
  unfold alen, aset, aget. intros Hi. assert (Hn : (Z.to_nat i < length l)%nat) by lia. revert Hn. generalize (Z.to_nat i). clear i Hi.
  induction l as [|y l IH]; intros n Hn; simpl in *; [lia|]. destruct n as [|n]; simpl; [lia|]. rewrite IH by lia. lia.
Qed.

Lemma count_pos {A} (P : A -> bool) (z : A) l i : 0 <= i < alen l -> P (aget z l i) = true -> 0 < count P l.
Proof.
  unfold alen, aget. intros Hi. assert (Hn : (Z.to_nat i < length l)%nat) by lia. revert Hn. generalize (Z.to_nat i). clear i Hi.
  induction l as [|x l IH]; intros n Hn HP; simpl in *; [lia|]. pose proof (count_range P l).
  destruct n as [|n]; simpl in HP; [rewrite HP; simpl; lia|]. pose proof (IH n ltac:(lia) HP). destruct (P x); simpl; lia.
Qed.

Lemma count_zero {A} (P : A -> bool) l : Forall (fun x => P x = false) l -> count P l = 0.
Proof. induction 1 as [|x l Hx _ IH]; simpl; [done|]. rewrite Hx, IH. done. Qed.

Section Refs.
Context {S : Type}.
Implicit Type st : vfs S.

Definition slot i : Prop := 0 <= i < VFS_DESCRIPTOR_SLOTS.
Definition pipe_slot i : Prop := 0 <= i < VFS_MAX_PIPES.
Definition file_refs st k : Z := count (on_file k) (descriptors st).
Definition pipe_refs st mode k : Z := count (on_pipe mode k) (descriptors st).

(** A descriptor in use names an open file or none, and a pipe exactly with a
    mode. *)
Definition fd_ok (d : vfs_fd) : Prop :=
  0 <= d_number d < VFS_MAX_FDS /\ (forall f, d_file d = Some f -> slot f) /\ (forall p, d_pipe d = Some p -> pipe_slot p) /\
  (d_mode d = VFS_PIPE_NONE <-> d_pipe d = None).

Definition file_ok st k : Prop :=
  o_used (file_at st k) = (0 <? file_refs st k) /\
  (o_used (file_at st k) = true -> o_references (file_at st k) = file_refs st k).

Definition pipe_refs_ok st k : Prop :=
  p_used (pipe_at st k) = (0 <? pipe_refs st VFS_PIPE_READ k + pipe_refs st VFS_PIPE_WRITE k) /\
  (p_used (pipe_at st k) = true -> p_readers (pipe_at st k) = pipe_refs st VFS_PIPE_READ k /\
     p_writers (pipe_at st k) = pipe_refs st VFS_PIPE_WRITE k).

Record vfs_inv st : Prop := {
  vi_fds : alen (descriptors st) = VFS_DESCRIPTOR_SLOTS;
  vi_files : alen (open_files st) = VFS_DESCRIPTOR_SLOTS;
  vi_pipes : alen (pipes st) = VFS_MAX_PIPES;
  vi_fd : forall i, slot i -> d_used (fd_at st i) = true -> fd_ok (fd_at st i);
  vi_unique : forall i j, slot i -> slot j -> d_used (fd_at st i) = true -> d_used (fd_at st j) = true ->
    d_owner (fd_at st i) = d_owner (fd_at st j) -> d_number (fd_at st i) = d_number (fd_at st j) -> i = j;
  vi_file : forall k, slot k -> file_ok st k;
  vi_pipe : forall k, pipe_slot k -> pipe_refs_ok st k;
}.

Lemma fd_at_set st i j d : alen (descriptors st) = VFS_DESCRIPTOR_SLOTS -> slot i -> slot j ->
  fd_at (set_fd st i d) j = if decide (i = j) then d else fd_at st j.
Proof. intros Hl Hi Hj. unfold fd_at, set_fd. cbn [descriptors]. unfold slot in *. apply aget_aset; lia. Qed.

Lemma file_at_set st i j f : alen (open_files st) = VFS_DESCRIPTOR_SLOTS -> slot i -> slot j ->
  file_at (set_open st i f) j = if decide (i = j) then f else file_at st j.
Proof. intros Hl Hi Hj. unfold file_at, set_open. cbn [open_files]. unfold slot in *. apply aget_aset; lia. Qed.

Lemma pipe_at_set st i j p : alen (pipes st) = VFS_MAX_PIPES -> pipe_slot i -> pipe_slot j ->
  pipe_at (set_pipe st i p) j = if decide (i = j) then p else pipe_at st j.
Proof. intros Hl Hi Hj. unfold pipe_at, set_pipe. cbn [pipes]. unfold pipe_slot in *. apply aget_aset; lia. Qed.

Lemma refs_bound st : alen (descriptors st) = VFS_DESCRIPTOR_SLOTS ->
  forall P, 0 <= count P (descriptors st) <= 512.
Proof. intros Hl P. pose proof (count_range P (descriptors st)). unfold VFS_DESCRIPTOR_SLOTS in Hl. lia. Qed.

(** The counts after a change of the descriptor in slot [i]. *)
Lemma refs_set st i d P : alen (descriptors st) = VFS_DESCRIPTOR_SLOTS -> slot i ->
  count P (descriptors (set_fd st i d)) = count P (descriptors st) - b2z (P (fd_at st i)) + b2z (P d).
Proof. intros Hl Hi. unfold set_fd, fd_at. cbn [descriptors]. apply count_aset. rewrite Hl. done. Qed.

(** Nothing but the descriptors, files and pipes matters. *)
Lemma inv_ext st st' : descriptors st' = descriptors st -> open_files st' = open_files st -> pipes st' = pipes st ->
  vfs_inv st -> vfs_inv st'.
Proof.
  intros E1 E2 E3 [? ? ? Hfd Hu Hf Hp]. split; rewrite ?E1, ?E2, ?E3; try done.
  - intros i Hi. unfold fd_at. rewrite E1. by apply Hfd.
  - unfold fd_at. rewrite E1. exact Hu.
  - intros k Hk. destruct (Hf k Hk). unfold file_ok, file_at, file_refs. rewrite E1, E2. done.
  - intros k Hk. destruct (Hp k Hk). unfold pipe_refs_ok, pipe_at, pipe_refs. rewrite E1, E3. done.
Qed.

Lemma file_used st i f : vfs_inv st -> slot i -> d_used (fd_at st i) = true -> d_file (fd_at st i) = Some f ->
  slot f /\ o_used (file_at st f) = true /\ o_references (file_at st f) = file_refs st f /\ 0 < file_refs st f.
Proof.
  intros Hinv Hi Hu Hf. destruct (vi_fd _ Hinv i Hi Hu) as (_ & H1 & _). pose proof (H1 f Hf) as Hsf.
  destruct (vi_file _ Hinv f Hsf) as (E1 & E2).
  assert (0 < file_refs st f) as Hpos.
  { apply (count_pos _ no_fd _ i); [rewrite (vi_fds _ Hinv); done|]. fold (fd_at st i). unfold on_file. rewrite Hu.
    by rewrite bool_decide_true. }
  assert (Hut : o_used (file_at st f) = true) by (rewrite E1; apply Z.ltb_lt; done). auto.
Qed.

Lemma pipe_used st i p : vfs_inv st -> slot i -> d_used (fd_at st i) = true -> d_pipe (fd_at st i) = Some p ->
  pipe_slot p /\ p_used (pipe_at st p) = true /\ p_readers (pipe_at st p) = pipe_refs st VFS_PIPE_READ p /\
  p_writers (pipe_at st p) = pipe_refs st VFS_PIPE_WRITE p /\ d_mode (fd_at st i) <> VFS_PIPE_NONE /\
  0 < pipe_refs st (d_mode (fd_at st i)) p.
Proof.
  intros Hinv Hi Hu Hp. destruct (vi_fd _ Hinv i Hi Hu) as (_ & _ & H1 & H2). pose proof (H1 p Hp) as Hsp.
  assert (Hm : d_mode (fd_at st i) <> VFS_PIPE_NONE) by (intros E; apply H2 in E; congruence).
  destruct (vi_pipe _ Hinv p Hsp) as (E1 & E2).
  assert (0 < pipe_refs st (d_mode (fd_at st i)) p) as Hpos.
  { apply (count_pos _ no_fd _ i); [rewrite (vi_fds _ Hinv); done|]. fold (fd_at st i). unfold on_pipe. rewrite Hu.
    by rewrite !bool_decide_true. }
  assert (Hut : p_used (pipe_at st p) = true).
  { rewrite E1. apply Z.ltb_lt. pose proof (refs_bound st (vi_fds _ Hinv) (on_pipe VFS_PIPE_READ p)).
    pose proof (refs_bound st (vi_fds _ Hinv) (on_pipe VFS_PIPE_WRITE p)). unfold pipe_refs in *.
    destruct (d_mode (fd_at st i)); [done | lia | lia]. }
  destruct (E2 Hut) as (-> & ->). auto 10.
Qed.

(** ** Adding and removing a descriptor *)

Lemma on_file_unused k d : d_used d = false -> on_file k d = false.
Proof. unfold on_file. by intros ->. Qed.
Lemma on_pipe_unused m k d : d_used d = false -> on_pipe m k d = false.
Proof. unfold on_pipe. by intros ->. Qed.
Lemma on_file_none k d : d_file d = None -> on_file k d = false.
Proof. unfold on_file. intros ->. by rewrite bool_decide_false, andb_false_r. Qed.
Lemma on_pipe_none m k d : d_pipe d = None -> on_pipe m k d = false.
Proof. unfold on_pipe. intros ->. by rewrite (bool_decide_false (None = _)), andb_false_r. Qed.
Lemma on_file_used k f d : d_used d = true -> d_file d = Some f -> on_file k d = bool_decide (f = k).
Proof. unfold on_file. intros -> ->. simpl. apply bool_decide_ext. split; congruence. Qed.
Lemma on_pipe_used m k p d : d_used d = true -> d_pipe d = Some p ->
  on_pipe m k d = bool_decide (d_mode d = m) && bool_decide (p = k).
Proof. unfold on_pipe. intros -> ->. simpl. f_equal. apply bool_decide_ext. split; congruence. Qed.

(** No descriptor of [owner] has the number. *)
Definition free_name st owner number : Prop :=
  forall j, slot j -> d_used (fd_at st j) = true -> d_owner (fd_at st j) = owner -> d_number (fd_at st j) = number -> False.

(** The part of the invariant about descriptors, when slot [i] becomes [d]. *)
Lemma inv_set st st' i d : vfs_inv st -> slot i ->
  descriptors st' = aset (descriptors st) i d ->
  alen (open_files st') = VFS_DESCRIPTOR_SLOTS -> alen (pipes st') = VFS_MAX_PIPES ->
  (d_used d = true -> fd_ok d /\ (forall j, slot j -> j <> i -> d_used (fd_at st j) = true ->
     d_owner (fd_at st j) = d_owner d -> d_number (fd_at st j) = d_number d -> False)) ->
  (forall k, slot k -> file_ok st' k) -> (forall k, pipe_slot k -> pipe_refs_ok st' k) -> vfs_inv st'.
Proof.
  intros Hinv Hi Ed Hf Hp Hd Hfile Hpipe.
  assert (Hat : forall j, slot j -> fd_at st' j = if decide (i = j) then d else fd_at st j).
  { intros j Hj. rewrite <- fd_at_set by (try apply Hinv; done). unfold fd_at, set_fd. by rewrite Ed. }
  split; try done.
  - rewrite Ed, alen_aset. apply Hinv.
  - intros j Hj. rewrite Hat by done. destruct (decide (i = j)) as [<-|]; [|by apply Hinv]. intros Hu. by apply Hd.
  - intros j k Hj Hk. rewrite !Hat by done. destruct (decide (i = j)) as [<-|], (decide (i = k)) as [<-|]; try done.
    + intros Hu Hu' E1 E2. exfalso. apply (proj2 (Hd Hu) k Hk); congruence.
    + intros Hu' Hu E1 E2. exfalso. apply (proj2 (Hd Hu) j Hj); congruence.
    + by apply Hinv.
Qed.

Definition install (i : Z) (d : vfs_fd) st : vfs S :=
  add_pipe (d_pipe d) (d_mode d) (open_file_retain_locked (d_file d) (set_fd st i d)).

Lemma install_descriptors i d st : descriptors (install i d st) = aset (descriptors st) i d.
Proof. unfold install, add_pipe, open_file_retain_locked. destruct (d_pipe d), (d_file d); done. Qed.

(** A descriptor installed in a free slot takes its references. *)
Lemma install_inv st i d : vfs_inv st -> slot i -> d_used (fd_at st i) = false -> d_used d = true -> fd_ok d ->
  free_name st (d_owner d) (d_number d) ->
  (forall f, d_file d = Some f -> o_used (file_at st f) = true) ->
  (forall p, d_pipe d = Some p -> p_used (pipe_at st p) = true) ->
  vfs_inv (install i d st).
Proof.
  intros Hinv Hi Hold Hd Hok Hfree Hf Hp.
  pose proof Hok as (_ & Hrf & Hrp & Hmode).
  pose proof (refs_bound st (vi_fds _ Hinv)) as Hb.
  assert (Hrefs : forall P, P (fd_at st i) = false -> count P (descriptors (install i d st)) = count P (descriptors st) + b2z (P d)).
  { intros P HP. rewrite install_descriptors. pose proof (refs_set st i d P (vi_fds _ Hinv) Hi) as E.
    unfold set_fd in E. cbn [descriptors] in E. rewrite E, HP. simpl. lia. }
  apply (inv_set st _ i d); try done.
  - apply install_descriptors.
  - unfold install, add_pipe, open_file_retain_locked. destruct (d_pipe d), (d_file d); simpl; autorewrite with arrays; apply Hinv.
  - unfold install, add_pipe, open_file_retain_locked. destruct (d_pipe d), (d_file d); simpl; autorewrite with arrays; apply Hinv.
  - intros _. split; [done|]. intros j Hj _. by apply Hfree.
  - intros k Hk. unfold file_ok, file_refs. rewrite Hrefs by (by apply on_file_unused).
    destruct (vi_file _ Hinv k Hk) as (E1 & E2). unfold file_refs in *.
    assert (Eat : file_at (install i d st) k = file_at (open_file_retain_locked (d_file d) st) k).
    { unfold install, add_pipe, open_file_retain_locked. destruct (d_pipe d), (d_file d); done. }
    rewrite Eat. destruct (d_file d) as [f|] eqn:Ef.
    + rewrite (on_file_used k f) by done. unfold open_file_retain_locked.
      rewrite file_at_set by (try apply Hinv; try done; by apply Hrf). pose proof (Hf f eq_refl) as Hu.
      destruct (decide (f = k)) as [->|Hne]; [rewrite bool_decide_true by done | rewrite bool_decide_false by done]; simpl.
      * rewrite Hu in *. specialize (E2 eq_refl). pose proof (Hb (on_file k)). split; [symmetry; apply Z.ltb_lt; lia|].
        intros _. rewrite E2. rewrite u64_small; [done | unfold is_u64; lia].
      * rewrite Z.add_0_r. done.
    + rewrite on_file_none by done. simpl. rewrite Z.add_0_r. done.
  - intros k Hk. unfold pipe_refs_ok, pipe_refs. rewrite !Hrefs by (by apply on_pipe_unused).
    destruct (vi_pipe _ Hinv k Hk) as (E1 & E2). unfold pipe_refs in *.
    assert (Eat : pipe_at (install i d st) k = pipe_at (add_pipe (d_pipe d) (d_mode d) st) k).
    { unfold install, add_pipe, open_file_retain_locked. destruct (d_pipe d), (d_file d); done. }
    rewrite Eat. destruct (d_pipe d) as [p|] eqn:Ep.
    + rewrite !(on_pipe_used _ k p) by done. unfold add_pipe.
      rewrite pipe_at_set by (try apply Hinv; try done; by apply Hrp). pose proof (Hp p eq_refl) as Hu.
      pose proof (Hb (on_pipe VFS_PIPE_READ k)). pose proof (Hb (on_pipe VFS_PIPE_WRITE k)).
      destruct (decide (p = k)) as [->|Hne];
        [rewrite (bool_decide_true (k = k)) by done | rewrite (bool_decide_false (p = k)) by done; rewrite !andb_false_r; simpl; by rewrite !Z.add_0_r].
      rewrite Hu in *. destruct (E2 eq_refl) as (R1 & R2).
      destruct (d_mode d); [destruct Hmode as (Hm & _); by discriminate Hm| |]; simpl; rewrite Hu, R1, R2;
        (split; [symmetry; apply Z.ltb_lt; lia|]); intros _; rewrite u64_small by (unfold is_u64; lia); lia.
    + rewrite !on_pipe_none by done. simpl. rewrite !Z.add_0_r. done.
Qed.

Lemma close_descriptors i st : descriptors (close_slot i st) = aset (descriptors st) i (closed (fd_at st i)).
Proof.
  unfold close_slot, drop_pipe, open_file_release_locked.
  destruct (d_pipe (fd_at st i)), (d_file (fd_at st i)); try done; case_match; done.
Qed.

Lemma close_open_files i st : open_files (close_slot i st) = open_files (open_file_release_locked (d_file (fd_at st i)) st).
Proof.
  unfold close_slot, drop_pipe, open_file_release_locked.
  destruct (d_pipe (fd_at st i)), (d_file (fd_at st i)); try done; unfold file_at; simpl; case_match; done.
Qed.

Lemma close_pipes i st : pipes (close_slot i st) = pipes (drop_pipe (d_pipe (fd_at st i)) (d_mode (fd_at st i)) st).
Proof.
  unfold close_slot, drop_pipe, open_file_release_locked.
  destruct (d_pipe (fd_at st i)), (d_file (fd_at st i)); try done; case_match; done.
Qed.

Lemma release_length file st : alen (open_files (open_file_release_locked file st)) = alen (open_files st).
Proof. unfold open_file_release_locked. repeat case_match; simpl; autorewrite with arrays; done. Qed.
Lemma drop_length pipe mode st : alen (pipes (drop_pipe pipe mode st)) = alen (pipes st).
Proof. unfold drop_pipe. destruct pipe; simpl; autorewrite with arrays; done. Qed.

(** The counts after a close. *)
Lemma close_refs st i P : vfs_inv st -> slot i -> P (closed (fd_at st i)) = false ->
  count P (descriptors (close_slot i st)) = count P (descriptors st) - b2z (P (fd_at st i)).
Proof.
  intros Hinv Hi HP. rewrite close_descriptors. pose proof (refs_set st i (closed (fd_at st i)) P (vi_fds _ Hinv) Hi) as E.
  unfold set_fd in E. cbn [descriptors] in E. rewrite E, HP. simpl. lia.
Qed.

Lemma close_file_ok st i k : vfs_inv st -> slot i -> d_used (fd_at st i) = true -> slot k -> file_ok (close_slot i st) k.
Proof.
  intros Hinv Hi Hu Hk. unfold file_ok, file_refs. rewrite close_refs by done.
  destruct (vi_file _ Hinv k Hk) as (E1 & E2). unfold file_refs in *.
  unfold file_at. rewrite close_open_files. fold (file_at (open_file_release_locked (d_file (fd_at st i)) st) k).
  destruct (d_file (fd_at st i)) as [f|] eqn:Ef.
  - destruct (file_used st i f Hinv Hi Hu Ef) as (Hf & Huf & Hrf & Hpos). rewrite (on_file_used k f) by done.
    unfold open_file_release_locked. pose proof (refs_bound st (vi_fds _ Hinv) (on_file f)). unfold file_refs in *.
    rewrite Hrf. destruct (_ =? 0) eqn:E0; [lia|]. rewrite u64_small by (unfold is_u64; lia).
    rewrite file_at_set by (try apply Hinv; done). destruct (decide (f = k)) as [->|Hne].
    + rewrite bool_decide_true by done. simpl. destruct (_ - 1 =? 0) eqn:E3; simpl; bool_prop.
      * split; [symmetry; apply Z.ltb_ge; lia | done].
      * split; [rewrite Huf; symmetry; apply Z.ltb_lt; lia | done].
    + rewrite bool_decide_false by done. simpl. rewrite Z.sub_0_r. done.
  - rewrite on_file_none by done. simpl. rewrite Z.sub_0_r. done.
Qed.

Lemma drop_counts mode p : p_used p = true -> 0 <= p_readers p <= 512 -> 0 <= p_writers p <= 512 ->
  match mode with VFS_PIPE_NONE => False | VFS_PIPE_READ => 0 < p_readers p | VFS_PIPE_WRITE => 0 < p_writers p end ->
  let readers := p_readers p - b2z (bool_decide (mode = VFS_PIPE_READ)) in
  let writers := p_writers p - b2z (bool_decide (mode = VFS_PIPE_WRITE)) in
  let q := pipe_drop_reference_locked mode p in
  p_used q = (0 <? readers + writers) /\ p_readers q = readers /\ p_writers q = writers.
Proof.
  intros Hu Hr Hw Hm. unfold pipe_drop_reference_locked. rewrite Hu.
  destruct mode; [done | rewrite (proj2 (Z.eqb_neq (p_readers p) 0)) by lia | rewrite (proj2 (Z.eqb_neq (p_writers p) 0)) by lia]; simpl;
    rewrite u64_small by (unfold is_u64; lia); rewrite Z.sub_0_r;
    match goal with |- context [(?a =? 0) && (?b =? 0)] => destruct (Z.eqb_spec a 0), (Z.eqb_spec b 0) end; simpl;
    (split; [symmetry; first [apply Z.ltb_lt | apply Z.ltb_ge]; lia | done]).
Qed.

Lemma close_pipe_ok st i k : vfs_inv st -> slot i -> d_used (fd_at st i) = true -> pipe_slot k -> pipe_refs_ok (close_slot i st) k.
Proof.
  intros Hinv Hi Hu Hk. unfold pipe_refs_ok, pipe_refs. rewrite !close_refs by done.
  destruct (vi_pipe _ Hinv k Hk) as (E1 & E2). unfold pipe_refs in *.
  unfold pipe_at. rewrite close_pipes. fold (pipe_at (drop_pipe (d_pipe (fd_at st i)) (d_mode (fd_at st i)) st) k).
  destruct (d_pipe (fd_at st i)) as [p|] eqn:Ep.
  - destruct (pipe_used st i p Hinv Hi Hu Ep) as (Hp & Hup & Hr & Hw & Hm & Hpos). rewrite !(on_pipe_used _ k p) by done.
    unfold drop_pipe. rewrite pipe_at_set by (try apply Hinv; done). destruct (decide (p = k)) as [->|Hne].
    + rewrite (bool_decide_true (k = k)) by done.
      pose proof (refs_bound st (vi_fds _ Hinv) (on_pipe VFS_PIPE_READ k)).
      pose proof (refs_bound st (vi_fds _ Hinv) (on_pipe VFS_PIPE_WRITE k)).
      unfold pipe_refs in *. destruct (drop_counts (d_mode (fd_at st i)) (pipe_at st k)) as (D1 & D2 & D3);
        [done | lia | lia | rewrite ?Hr, ?Hw; by destruct (d_mode (fd_at st i)) |].
      rewrite D1, D2, D3, Hr, Hw, !andb_true_r. done.
    + rewrite (bool_decide_false (p = k)) by done. rewrite !andb_false_r. simpl. rewrite !Z.sub_0_r. done.
  - rewrite !on_pipe_none by done. simpl. rewrite !Z.sub_0_r. done.
Qed.

(** A closed descriptor gives its references back. *)
Lemma close_inv st i : vfs_inv st -> slot i -> d_used (fd_at st i) = true -> vfs_inv (close_slot i st).
Proof.
  intros Hinv Hi Hu. apply (inv_set st _ i (closed (fd_at st i))); try done.
  - apply close_descriptors.
  - rewrite close_open_files, release_length. apply Hinv.
  - rewrite close_pipes, drop_length. apply Hinv.
  - intros. by apply close_file_ok.
  - intros. by apply close_pipe_ok.
Qed.

(** ** The table as a map *)

(** What the descriptor [number] of [owner] refers to. *)
Record target := mk_target { t_name : cstr; t_file : option Z; t_device : devfs_device; t_pipe : option Z; t_mode : vfs_pipe_mode }.
Definition target_of (d : vfs_fd) : target := mk_target (d_name d) (d_file d) (d_device d) (d_pipe d) (d_mode d).
Definition view st (owner number : Z) : option target := target_of ∘ fd_at st <$> lookup owner number st.

Lemma lookup_Some st owner number i : vfs_inv st ->
  lookup owner number st = Some i <->
  slot i /\ d_used (fd_at st i) = true /\ d_owner (fd_at st i) = owner /\ d_number (fd_at st i) = number.
Proof.
  intros Hinv. unfold lookup, trips, slot. split.
  - intros H. apply find_up_Some in H as (Hr & H & _). bool_prop. split; [lia | done].
  - intros (Hi & Hu & Ho & Hn). destruct (find_up _ _ _) as [j|] eqn:E.
    + apply find_up_Some in E as (Hr & H & _). bool_prop. f_equal. apply (vi_unique _ Hinv); unfold slot; first [done | lia | congruence].
    + rewrite find_up_None in E. specialize (E i ltac:(lia)). rewrite Hu in E. simpl in E. bool_prop. lia.
Qed.

Lemma lookup_None st owner number : lookup owner number st = None <-> free_name st owner number.
Proof.
  unfold lookup, trips, free_name, slot. rewrite find_up_None. split.
  - intros H j Hj Hu Ho Hn. specialize (H j ltac:(lia)). rewrite Hu in H. simpl in H. bool_prop. lia.
  - intros H j Hj. destruct (d_used (fd_at st j)) eqn:Hu; [|done]. simpl.
    destruct (Z.eqb_spec (d_owner (fd_at st j)) owner); [|done]. destruct (Z.eqb_spec (d_number (fd_at st j)) number); [|done].
    exfalso. apply (H j); [lia | done..].
Qed.

Lemma allocate_slot_Some st i : allocate_slot st = Some i -> slot i /\ d_used (fd_at st i) = false.
Proof. unfold allocate_slot, trips, slot. intros H. apply find_up_Some in H as (Hr & H & _). bool_prop. split; [lia | done]. Qed.

Lemma view_Some st owner number x : vfs_inv st ->
  view st owner number = Some x <->
  exists i, slot i /\ d_used (fd_at st i) = true /\ d_owner (fd_at st i) = owner /\ d_number (fd_at st i) = number /\ target_of (fd_at st i) = x.
Proof.
  intros Hinv. unfold view. split.
  - intros H. apply fmap_Some in H as (i & H & ->). apply (lookup_Some st owner number i Hinv) in H as (? & ? & ? & ?). exists i. done.
  - intros (i & H1 & H2 & H3 & H4 & <-). rewrite (proj2 (lookup_Some st owner number i Hinv)) by done. done.
Qed.

Lemma view_None st owner number : view st owner number = None <-> free_name st owner number.
Proof. rewrite <- lookup_None. unfold view. apply fmap_None. Qed.

(** Two tables with the same descriptors show the same. *)
Lemma view_ext st st' : descriptors st' = descriptors st -> view st' = view st.
Proof. intros E. unfold view, lookup, fd_at. rewrite E. done. Qed.

Lemma view_install st st' i d : vfs_inv st -> vfs_inv st' -> slot i -> descriptors st' = aset (descriptors st) i d ->
  d_used (fd_at st i) = false -> d_used d = true ->
  forall owner number, view st' owner number =
    if decide (owner = d_owner d /\ number = d_number d) then Some (target_of d) else view st owner number.
Proof.
  intros Hinv Hinv' Hi Ed Hold Hd owner number.
  assert (Hat : forall j, slot j -> fd_at st' j = if decide (i = j) then d else fd_at st j).
  { intros j Hj. rewrite <- fd_at_set by (try apply Hinv; done). unfold fd_at, set_fd. by rewrite Ed. }
  destruct (decide _) as [(-> & ->)|Hne].
  - apply view_Some; [done|]. exists i. rewrite Hat by done. rewrite decide_True by done. done.
  - apply option_eq. intros x. rewrite !view_Some by done. split; intros (j & Hj & H); exists j; rewrite Hat in * by done.
    + destruct (decide (i = j)) as [<-|]; [|done]. destruct H as (_ & ? & ? & _). exfalso. by apply Hne.
    + destruct (decide (i = j)) as [<-|]; [|done]. destruct H as (? & _). congruence.
Qed.

Lemma view_close st i : vfs_inv st -> slot i -> d_used (fd_at st i) = true ->
  forall owner number, view (close_slot i st) owner number =
    if decide (owner = d_owner (fd_at st i) /\ number = d_number (fd_at st i)) then None else view st owner number.
Proof.
  intros Hinv Hi Hu owner number. pose proof (close_inv st i Hinv Hi Hu) as Hinv'.
  assert (Hat : forall j, slot j -> fd_at (close_slot i st) j = if decide (i = j) then closed (fd_at st i) else fd_at st j).
  { intros j Hj. rewrite <- fd_at_set by (try apply Hinv; done). unfold fd_at at 1. by rewrite close_descriptors. }
  destruct (decide _) as [(-> & ->)|Hne].
  - apply view_None. intros j Hj. rewrite Hat by done. destruct (decide (i = j)); [done|]. intros Huj Ho Hn.
    apply n. apply (vi_unique _ Hinv); done.
  - apply option_eq. intros x. rewrite !view_Some by done. split; intros (j & Hj & H); exists j; rewrite Hat in * by done.
    + destruct (decide (i = j)) as [<-|]; [by destruct H | done].
    + destruct (decide (i = j)) as [<-|]; [|done]. destruct H as (_ & ? & ? & _). exfalso. by apply Hne.
Qed.

(** ** Operations *)

Lemma inv_set_open st f o : vfs_inv st -> slot f -> o_used o = o_used (file_at st f) ->
  (o_used o = true -> o_references o = o_references (file_at st f)) -> vfs_inv (set_open st f o).
Proof.
  intros Hinv Hf Hu Hr. destruct Hinv as [H1 H2 H3 H4 H5 E H7]. split; try done; [simpl; by rewrite alen_aset|].
  intros k Hk. unfold file_ok. rewrite file_at_set by done. change (file_refs (set_open st f o) k) with (file_refs st k).
  destruct (E k Hk) as (E1 & E2). destruct (decide (f = k)) as [<-|]; [|done].
  rewrite Hu. split; [done|]. intros Ht. rewrite Hr by congruence. by apply E2.
Qed.

Lemma inv_set_pipe st p q : vfs_inv st -> pipe_slot p -> p_used q = p_used (pipe_at st p) ->
  p_readers q = p_readers (pipe_at st p) -> p_writers q = p_writers (pipe_at st p) -> vfs_inv (set_pipe st p q).
Proof.
  intros Hinv Hp Hu Hr Hw. destruct Hinv as [H1 H2 H3 H4 H5 H6 E]. split; try done; [simpl; by rewrite alen_aset|].
  intros k Hk. unfold pipe_refs_ok. rewrite pipe_at_set by done.
  change (pipe_refs (set_pipe st p q)) with (pipe_refs st).
  destruct (E k Hk) as (E1 & E2). destruct (decide (p = k)) as [<-|]; [|done]. rewrite Hu, Hr, Hw. done.
Qed.

(** The standard streams of a task that are not open yet become the console,
    as far as there are slots. *)
Definition console (name : cstr) : target := mk_target name None DEVFS_DEVICE_CONSOLE None VFS_PIPE_NONE.

Definition streams_added (owner : Z) st st' : Prop :=
  open_files st' = open_files st /\ pipes st' = pipes st /\ mounts st' = mounts st /\ fs st' = fs st /\
  terminal st' = terminal st /\ wakes st' = wakes st /\
  forall o n, view st' o n = view st o n \/
    (o = owner /\ 0 <= n < 3 /\ view st o n = None /\ exists name, view st' o n = Some (console name)).

Lemma streams_added_refl owner st : streams_added owner st st.
Proof. repeat (split; [done|]). intros. by left. Qed.

Lemma streams_added_trans owner st1 st2 st3 : streams_added owner st1 st2 -> streams_added owner st2 st3 -> streams_added owner st1 st3.
Proof.
  intros (? & ? & ? & ? & ? & ? & H12) (? & ? & ? & ? & ? & ? & H23). repeat (split; [congruence|]). intros o n.
  destruct (H12 o n) as [<-|(? & ? & E1 & name & E2)]; [by destruct (H23 o n); [left|right]|].
  right. repeat split; try done; try lia. destruct (H23 o n) as [->|(_ & _ & E & _)]; [eauto | congruence].
Qed.

Lemma standard_streams_spec streams owner st : vfs_inv st -> Forall (fun '(n, _) => 0 <= n < 3) streams ->
  vfs_inv (standard_streams streams owner st) /\ streams_added owner st (standard_streams streams owner st).
Proof.
  revert st. induction streams as [|(n, name) streams IH]; intros st Hinv Hall; simpl; [split; [done | apply streams_added_refl]|].
  apply Forall_cons in Hall as (Hn & Hall). destruct (lookup owner n st) eqn:El; [by apply IH|].
  destruct (allocate_slot st) as [i|] eqn:Ea; [|split; [done | apply streams_added_refl]].
  apply allocate_slot_Some in Ea as (Hi & Hu).
  set (d := mk_fd true owner n name None DEVFS_DEVICE_CONSOLE None VFS_PIPE_NONE).
  assert (Hinv' : vfs_inv (set_fd st i d)).
  { apply (install_inv st i d); try done. - repeat split; simpl; try done; unfold VFS_MAX_FDS; lia. - by apply lookup_None. }
  destruct (IH _ Hinv' Hall) as (H1 & H2). split; [done|]. eapply streams_added_trans; [|exact H2].
  repeat (split; [done|]). intros o m. rewrite (view_install st _ i d Hinv Hinv' Hi eq_refl Hu eq_refl).
  destruct (decide _) as [(-> & ->)|]; [|by left]. right. simpl. repeat split; try lia; [|by exists name].
  apply view_None, lookup_None. done.
Qed.

(** The streams added depend on the descriptors alone. *)
Lemma standard_streams_ext streams owner st st' : descriptors st' = descriptors st ->
  descriptors (standard_streams streams owner st') = descriptors (standard_streams streams owner st).
Proof.
  revert st st'. induction streams as [|(n, name) streams IH]; intros st st' E; simpl; [done|].
  unfold lookup, allocate_slot, fd_at. rewrite E. repeat case_match; try done; apply IH; simpl; by rewrite ?E.
Qed.

Lemma ensure_ext owner st st' : descriptors st' = descriptors st ->
  descriptors (ensure_standard_streams owner st') = descriptors (ensure_standard_streams owner st).
Proof. apply standard_streams_ext. Qed.

Lemma ensure_spec owner st : vfs_inv st ->
  vfs_inv (ensure_standard_streams owner st) /\ streams_added owner st (ensure_standard_streams owner st).
Proof. intros Hinv. apply standard_streams_spec; [done|]. repeat (apply Forall_cons; split; [lia|]). done. Qed.

(** The descriptor in slot [source], given another name and a free slot. *)
Lemma install_copy_inv st source target owner number : vfs_inv st -> slot source -> d_used (fd_at st source) = true ->
  slot target -> d_used (fd_at st target) = false -> 0 <= number < VFS_MAX_FDS -> free_name st owner number ->
  vfs_inv (install target (with_owner (fd_at st source) owner number) st).
Proof.
  intros Hinv Hs Hus Ht Hut Hn Hfree. apply install_inv; try done.
  - destruct (vi_fd _ Hinv source Hs Hus) as (_ & H). split; done.
  - intros f Hf. by apply (file_used st source f).
  - intros p Hp. by apply (pipe_used st source p).
Qed.

Lemma free_number_Some lo owner st n : free_number lo owner st = Some n -> 0 <= lo ->
  lo <= n < VFS_MAX_FDS /\ free_name st owner n /\ (forall m, lo <= m < n -> ~ free_name st owner m).
Proof.
  unfold free_number, trips. intros H Hlo. apply find_up_Some in H as (Hr & Hn & Hbefore). split; [lia|]. split.
  - apply lookup_None. by destruct (lookup owner n st).
  - intros m Hm Hfree. apply lookup_None in Hfree. specialize (Hbefore m Hm). by rewrite Hfree in Hbefore.
Qed.

(** [vfs_dup] gives the lowest free number to the same target. *)
Lemma dup_spec number owner st : vfs_inv st -> let '(r, st') := vfs_dup number owner st in
  let st1 := ensure_standard_streams owner st in
  vfs_inv st' /\
  (r = -1 /\ st' = st1 /\ (lookup owner number st1 = None \/ free_number 0 owner st1 = None \/ allocate_slot st1 = None) \/
   0 <= r < VFS_MAX_FDS /\ view st1 owner r = None /\ (forall m, 0 <= m < r -> view st1 owner m <> None) /\
   is_Some (view st1 owner number) /\
   forall o n, view st' o n = if decide (o = owner /\ n = r) then view st1 owner number else view st1 o n).
Proof.
  intros Hinv. unfold vfs_dup. destruct (ensure_spec owner st Hinv) as (Hinv1 & _).
  generalize dependent (ensure_standard_streams owner st). clear Hinv. intros st1 Hinv1.
  destruct (lookup owner number st1) as [source|] eqn:El; [|split; [done|]; left; auto].
  destruct (free_number 0 owner st1) as [r|] eqn:Er; [|split; [done|]; left; auto].
  destruct (allocate_slot st1) as [target|] eqn:Ea; [|split; [done|]; left; auto].
  pose proof El as El'. apply (lookup_Some st1 owner number source Hinv1) in El as (Hs & Hus & Ho & Hnum).
  apply free_number_Some in Er as (Hr & Hfree & Hleast); [|done]. apply allocate_slot_Some in Ea as (Ht & Hut).
  fold (install target (with_owner (fd_at st1 source) owner r) st1).
  assert (Hinv' := install_copy_inv st1 source target owner r Hinv1 Hs Hus Ht Hut Hr Hfree). split; [done|]. right.
  split; [done|]. split; [by apply view_None|]. split; [intros m Hm E; apply (Hleast m Hm); by apply view_None|].
  assert (Ev : view st1 owner number = Some (target_of (fd_at st1 source))) by (unfold view; by rewrite El').
  split; [by rewrite Ev|]. intros o n.
  rewrite (view_install st1 _ target _ Hinv1 Hinv' Ht (install_descriptors _ _ _) Hut eq_refl). simpl.
  destruct (decide _); [|done]. by rewrite Ev.
Qed.

Lemma inv_wake st : vfs_inv st -> vfs_inv (task_wake_blocked st).
Proof. by apply inv_ext. Qed.

Lemma aset_aset {A} (l : list A) i x y : aset (aset l i x) i y = aset l i y.
Proof. unfold aset. apply list_insert_insert_eq. Qed.

(** Installing over a descriptor that was released in place. *)
Lemma install_over i d st :
  install i d (open_file_release_locked (d_file (fd_at st i)) (drop_pipe (d_pipe (fd_at st i)) (d_mode (fd_at st i)) st)) =
  install i d (close_slot i st).
Proof.
  unfold close_slot. generalize (open_file_release_locked (d_file (fd_at st i)) (drop_pipe (d_pipe (fd_at st i)) (d_mode (fd_at st i)) st)).
  intros st'. unfold install. f_equal. f_equal. unfold set_fd. simpl. by rewrite aset_aset.
Qed.

Lemma close_fd_at st i j : vfs_inv st -> slot i -> slot j ->
  fd_at (close_slot i st) j = if decide (i = j) then closed (fd_at st i) else fd_at st j.
Proof. intros Hinv Hi Hj. rewrite <- fd_at_set by (try apply Hinv; done). unfold fd_at at 1. by rewrite close_descriptors. Qed.

(** A table in which the name [owner, number] refers to [x]. *)
Definition view_set st (owner number : Z) (x : option target) (o n : Z) : option target :=
  if decide (o = owner /\ n = number) then x else view st o n.

Lemma install_copy_view st source target owner number : vfs_inv st -> slot target -> d_used (fd_at st target) = false ->
  let st' := install target (with_owner (fd_at st source) owner number) st in
  vfs_inv st' -> forall o n, view st' o n = view_set st owner number (Some (target_of (fd_at st source))) o n.
Proof. intros Hinv Ht Hut st' Hinv' o n. apply (view_install st st' target _ Hinv Hinv' Ht (install_descriptors _ _ _) Hut eq_refl). Qed.

(** [vfs_dup2] replaces what the number referred to. *)
Lemma dup2_spec source_number number owner st : vfs_inv st -> let '(r, st') := vfs_dup2 source_number number owner st in
  let st1 := ensure_standard_streams owner st in
  vfs_inv st' /\
  (r = -1 /\ (st' = st \/ st' = st1) /\
     (~ 0 <= number < VFS_MAX_FDS \/ view st1 owner source_number = None \/ view st1 owner number = None /\ allocate_slot st1 = None) \/
   r = number /\ 0 <= number < VFS_MAX_FDS /\ is_Some (view st1 owner source_number) /\
   forall o n, view st' o n = view_set st1 owner number (view st1 owner source_number) o n).
Proof.
  intros Hinv. unfold vfs_dup2. destruct (_ || _) eqn:Eb; [split; [done|]; left; repeat split; auto; left; bool_prop; lia|].
  destruct (ensure_spec owner st Hinv) as (Hinv1 & _). generalize dependent (ensure_standard_streams owner st). intros st1 Hinv1.
  destruct (lookup owner source_number st1) as [source|] eqn:El.
  2:{ split; [done|]. left. repeat split; auto. right. left. by apply view_None, lookup_None. }
  assert (Ev : view st1 owner source_number = Some (target_of (fd_at st1 source))) by (unfold view; by rewrite El).
  apply (lookup_Some st1 owner source_number source Hinv1) in El as (Hs & Hus & Ho & Hnum). rewrite Ev.
  assert (Hr : 0 <= number < VFS_MAX_FDS) by (bool_prop; lia).
  destruct (Z.eqb_spec source_number number) as [<-|Hne].
  { split; [done|]. right. repeat (split; [done|]). intros o n. unfold view_set. destruct (decide _) as [(-> & ->)|]; done. }
  destruct (lookup owner number st1) as [target|] eqn:Et.
  - apply (lookup_Some st1 owner number target Hinv1) in Et as (Ht & Hut & Hot & Hnt). rewrite Hut.
    fold (install target (with_owner (fd_at st1 source) owner number)
      (open_file_release_locked (d_file (fd_at st1 target)) (drop_pipe (d_pipe (fd_at st1 target)) (d_mode (fd_at st1 target)) st1))).
    rewrite install_over. pose proof (close_inv st1 target Hinv1 Ht Hut) as Hinv2.
    assert (Esrc : fd_at (close_slot target st1) source = fd_at st1 source).
    { rewrite close_fd_at by done. apply decide_False. congruence. }
    assert (Hfree : free_name (close_slot target st1) owner number).
    { apply view_None. rewrite view_close by done. rewrite decide_True by done. done. }
    assert (Eut : d_used (fd_at (close_slot target st1) target) = false) by (rewrite close_fd_at by done; by rewrite decide_True).
    pose proof (install_copy_inv (close_slot target st1) source target owner number Hinv2 Hs ltac:(by rewrite Esrc) Ht Eut Hr Hfree) as Hinv3.
    pose proof (install_copy_view _ source target owner number Hinv2 Ht Eut Hinv3) as Hview. rewrite Esrc in Hinv3, Hview.
    split; [by apply inv_wake|]. right. repeat (split; [done|]). intros o n.
    etransitivity; [apply Hview|]. unfold view_set. destruct (decide (o = owner /\ n = number)) as [|Hn]; [done|].
    rewrite view_close by done. rewrite Hot, Hnt. by rewrite decide_False.
  - destruct (allocate_slot st1) as [target|] eqn:Ea.
    2:{ split; [done|]. left. repeat split; auto. right. right. split; [|done]. by apply view_None, lookup_None. }
    apply allocate_slot_Some in Ea as (Ht & Hut). apply lookup_None in Et. rewrite Hut.
    fold (install target (with_owner (fd_at st1 source) owner number) st1).
    pose proof (install_copy_inv st1 source target owner number Hinv1 Hs Hus Ht Hut Hr Et) as Hinv3.
    split; [by apply inv_wake|]. right. repeat (split; [done|]). intros o n.
    etransitivity; [apply (install_copy_view st1 source target owner number Hinv1 Ht Hut Hinv3)|]. done.
Qed.

(** [vfs_close] closes any descriptor but the standard streams. *)
Lemma close_spec number owner st : vfs_inv st -> let '(r, st') := vfs_close number owner st in
  vfs_inv st' /\
  (r = -1 /\ st' = st /\ (view st owner number = None \/ number < 3) \/
   r = 0 /\ 3 <= number /\ is_Some (view st owner number) /\ forall o n, view st' o n = view_set st owner number None o n).
Proof.
  intros Hinv. unfold vfs_close. destruct (lookup owner number st) as [i|] eqn:El.
  2:{ split; [done|]. left. repeat split; auto. left. by apply view_None, lookup_None. }
  destruct (Z.ltb_spec number 3) as [|Hn]; [split; [done|]; left; auto|].
  assert (Ev : is_Some (view st owner number)) by (unfold view; by rewrite El).
  apply (lookup_Some st owner number i Hinv) in El as (Hi & Hu & Ho & Hnum).
  pose proof (close_inv st i Hinv Hi Hu) as Hinv'.
  assert (Hview : forall o n, view (close_slot i st) o n = view_set st owner number None o n).
  { intros o n. rewrite view_close by done. rewrite Ho, Hnum. done. }
  destruct (negb _); (split; [by try apply inv_wake|]); right; auto.
Qed.

(** [vfs_close_all] leaves the owner nothing and the others everything. *)
Lemma close_all_spec owner st : vfs_inv st -> let st' := vfs_close_all owner st in
  vfs_inv st' /\ forall o n, view st' o n = if decide (o = owner) then None else view st o n.
Proof.
  intros Hinv. unfold vfs_close_all.
  set (body := fun i '(closed_pipe, st) => _).
  assert (H : (fun j (s : bool * vfs S) => vfs_inv (snd s) /\ (forall k, slot k -> k < j -> d_used (fd_at (snd s) k) = true -> d_owner (fd_at (snd s) k) = owner -> False) /\
      (forall o n, o <> owner -> view (snd s) o n = view st o n)) (0 + Z.of_nat (trips 0 VFS_DESCRIPTOR_SLOTS)) (for_up (trips 0 VFS_DESCRIPTOR_SLOTS) 0 body (false, st))).
  { apply for_up_ind.
    - split; [done|]. split; [unfold slot; lia | done].
    - intros j (c, s) Hj (Hinv1 & Hdone & Hview). cbn [snd] in *. assert (Hsj : slot j) by (unfold slot; unfold trips in Hj; lia).
      unfold body. destruct (_ && _) eqn:E; simpl.
      + bool_prop. split; [by apply close_inv|]. split.
        * intros k Hk Hlt. rewrite close_fd_at by done. destruct (decide (j = k)); [done|]. apply Hdone; [done | lia].
        * intros o n Ho. rewrite view_close by done. rewrite decide_False by (intros (-> & _); auto). by apply Hview.
      + split; [done|]. split; [|done]. intros k Hk Hlt Hu Ho. destruct (decide (j = k)) as [<-|]; [|apply (Hdone k Hk); [lia | done..]].
        rewrite Hu, Ho, Z.eqb_refl in E. done. }
  destruct (for_up _ _ _ _) as (c, s). cbv beta in H. cbn [snd] in H. destruct H as (Hinv1 & Hdone & Hview).
  assert (Hall : forall o n, view s o n = if decide (o = owner) then None else view st o n).
  { intros o n. destruct (decide _) as [->|Ho]; [|by apply Hview]. apply view_None. intros k Hk Hu Ho _. apply (Hdone k Hk); [|done..].
    unfold slot, trips in *. lia. }
  destruct c; (split; [by try apply inv_wake|]); exact Hall.
Qed.

(** A new open file with its only descriptor. *)
Lemma new_file_inv st i f d : vfs_inv st -> slot i -> d_used (fd_at st i) = false -> slot f -> o_used (file_at st f) = false ->
  d_used d = true -> d_file d = Some f -> d_pipe d = None -> fd_ok d -> free_name st (d_owner d) (d_number d) ->
  vfs_inv (set_fd (set_open st f (mk_open_file true 1 0)) i d).
Proof.
  intros Hinv Hi Hold Hf Huf Hd Ef Ep Hok Hfree.
  apply (inv_set st _ i d); try done; simpl; [rewrite alen_aset; apply Hinv | apply Hinv | | |].
  - intros _. split; [done|]. intros j Hj _. by apply Hfree.
  - intros k Hk. unfold file_ok, file_refs. rewrite refs_set by (try apply Hinv; done).
    change (descriptors (set_open st f _)) with (descriptors st). change (fd_at (set_open st f _) i) with (fd_at st i).
    rewrite on_file_unused by done. rewrite (on_file_used k f) by done. change (file_at (set_fd ?a _ _) k) with (file_at a k).
    rewrite file_at_set by (try apply Hinv; done). destruct (vi_file _ Hinv k Hk) as (E1 & E2). unfold file_refs in *.
    destruct (decide (f = k)) as [<-|]; [rewrite bool_decide_true by done | rewrite bool_decide_false by done]; simpl.
    + rewrite Huf in E1. symmetry in E1. apply Z.ltb_ge in E1. pose proof (refs_bound st (vi_fds _ Hinv) (on_file f)).
      replace (count _ _) with 0 by lia. done.
    + rewrite Z.sub_0_r, Z.add_0_r. done.
  - intros k Hk. unfold pipe_refs_ok, pipe_refs. rewrite !refs_set by (try apply Hinv; done).
    change (descriptors (set_open st f _)) with (descriptors st). change (fd_at (set_open st f _) i) with (fd_at st i).
    rewrite (on_pipe_unused VFS_PIPE_READ), (on_pipe_unused VFS_PIPE_WRITE), (on_pipe_none VFS_PIPE_READ), (on_pipe_none VFS_PIPE_WRITE) by done.
    simpl. rewrite !Z.sub_0_r, !Z.add_0_r. exact (vi_pipe _ Hinv k Hk).
Qed.

(** A new pipe with a first descriptor, its reader. *)
Lemma new_pipe_inv st i p d data : vfs_inv st -> slot i -> d_used (fd_at st i) = false -> pipe_slot p -> p_used (pipe_at st p) = false ->
  d_used d = true -> d_file d = None -> d_pipe d = Some p -> d_mode d = VFS_PIPE_READ -> fd_ok d ->
  free_name st (d_owner d) (d_number d) ->
  vfs_inv (set_fd (set_pipe st p (mk_pipe true 1 0 0 0 0 data)) i d).
Proof.
  intros Hinv Hi Hold Hp Hup Hd Ef Ep Em Hok Hfree.
  apply (inv_set st _ i d); try done; simpl; [apply Hinv | rewrite alen_aset; apply Hinv | | |].
  - intros _. split; [done|]. intros j Hj _. by apply Hfree.
  - intros k Hk. unfold file_ok, file_refs. rewrite !refs_set by (try apply Hinv; done).
    change (descriptors (set_pipe st p _)) with (descriptors st). change (fd_at (set_pipe st p _) i) with (fd_at st i).
    rewrite !on_file_unused, !on_file_none by done. simpl. rewrite !Z.sub_0_r, !Z.add_0_r. exact (vi_file _ Hinv k Hk).
  - intros k Hk. unfold pipe_refs_ok, pipe_refs. rewrite !refs_set by (try apply Hinv; done).
    change (descriptors (set_pipe st p _)) with (descriptors st). change (fd_at (set_pipe st p _) i) with (fd_at st i).
    rewrite (on_pipe_unused VFS_PIPE_READ), (on_pipe_unused VFS_PIPE_WRITE) by done. rewrite !(on_pipe_used _ k p) by done. rewrite Em.
    change (pipe_at (set_fd ?a _ _) k) with (pipe_at a k).
    rewrite pipe_at_set by (try apply Hinv; done). destruct (vi_pipe _ Hinv k Hk) as (E1 & E2). unfold pipe_refs in *.
    destruct (decide (p = k)) as [<-|]; [rewrite (bool_decide_true (p = p)) by done | rewrite (bool_decide_false (p = k)) by done]; simpl.
    + rewrite Hup in E1. symmetry in E1. apply Z.ltb_ge in E1. pose proof (refs_bound st (vi_fds _ Hinv) (on_pipe VFS_PIPE_READ p)).
      pose proof (refs_bound st (vi_fds _ Hinv) (on_pipe VFS_PIPE_WRITE p)).
      replace (count (on_pipe VFS_PIPE_READ p) _) with 0 by lia. replace (count (on_pipe VFS_PIPE_WRITE p) _) with 0 by lia. done.
    + rewrite !Z.sub_0_r, !Z.add_0_r. done.
Qed.

Lemma allocate_open_file_spec st : vfs_inv st -> let '(file, st') := allocate_open_file_locked st in
  match file with
  | None => st' = st
  | Some f => slot f /\ o_used (file_at st f) = false /\ st' = set_open st f (mk_open_file true 1 0)
  end.
Proof.
  intros Hinv. unfold allocate_open_file_locked, slot, trips. destruct (find_up _ _ _) as [f|] eqn:E; [|done].
  apply find_up_Some in E as (Hr & H & _). bool_prop. split; [lia | done].
Qed.

(** An open file allocated and released again. *)
Lemma release_new st f : vfs_inv st -> slot f -> o_used (file_at st f) = false ->
  vfs_inv (open_file_release_locked (Some f) (set_open st f (mk_open_file true 1 0))).
Proof.
  intros Hinv Hf Hu. unfold open_file_release_locked. rewrite file_at_set by (try apply Hinv; done). rewrite decide_True by done. simpl.
  change (1 -! 1) with 0. simpl.
  apply (inv_ext (set_open st f (mk_open_file false 0 0))); try done; [unfold set_open; simpl; by rewrite aset_aset|].
  by apply inv_set_open.
Qed.

(** A new, empty pipe with its two descriptors. *)
Definition endpoint (p : Z) (mode : vfs_pipe_mode) : target := mk_target (str "[pipe]") None DEVFS_DEVICE_NONE (Some p) mode.

Lemma connect_pipe owner st p s0 s1 n0 n1 : vfs_inv st -> pipe_slot p -> p_used (pipe_at st p) = false ->
  slot s0 -> slot s1 -> s0 < s1 -> d_used (fd_at st s0) = false -> d_used (fd_at st s1) = false ->
  0 <= n0 < n1 -> n1 < VFS_MAX_FDS -> free_name st owner n0 -> free_name st owner n1 ->
  let fd number mode := mk_fd true owner number (str "[pipe]") None DEVFS_DEVICE_NONE (Some p) mode in
  let st' := set_fd (set_fd (set_pipe st p (pipe_open (pipe_at st p))) s0 (fd n0 VFS_PIPE_READ)) s1 (fd n1 VFS_PIPE_WRITE) in
  vfs_inv st' /\ pipe_at st' p = pipe_open (pipe_at st p) /\
  forall o n, view st' o n =
    if decide (o = owner /\ n = n0) then Some (endpoint p VFS_PIPE_READ)
    else if decide (o = owner /\ n = n1) then Some (endpoint p VFS_PIPE_WRITE) else view st o n.
Proof.
  intros Hinv Hp Hup Hs0 Hs1 Hlt Hu0 Hu1 Hn Hn1 Hfree0 Hfree1 fd st'.
  set (first := set_fd (set_pipe st p (mk_pipe true 1 0 0 0 0 (p_data (pipe_at st p)))) s0 (fd n0 VFS_PIPE_READ)).
  assert (Hok : forall n mode, mode <> VFS_PIPE_NONE -> 0 <= n < VFS_MAX_FDS -> fd_ok (fd n mode)).
  { intros n mode Hm Hr. split; [done|]. split; [done|]. split; [by intros ? [= <-] | done]. }
  assert (Hinv2 : vfs_inv first) by (apply new_pipe_inv; try done; apply Hok; [done | lia]).
  pose proof (view_install st first s0 (fd n0 VFS_PIPE_READ) Hinv Hinv2 Hs0 eq_refl Hu0 eq_refl) as Hview2.
  assert (Hat : fd_at first s1 = fd_at st s1) by (apply aget_aset_ne; unfold slot in *; lia).
  assert (Hpat : forall x, pipe_at (set_pipe st p x) p = x) by (intros; rewrite pipe_at_set by (try apply Hinv; done); by rewrite decide_True).
  assert (Hinv3 : vfs_inv (install s1 (fd n1 VFS_PIPE_WRITE) first)).
  { apply install_inv; try done; [by rewrite Hat | apply Hok; [done | lia] | |].
    - apply view_None. rewrite Hview2. rewrite decide_False by (simpl; lia). by apply view_None.
    - intros ? [= <-]. transitivity (p_used (pipe_at (set_pipe st p (mk_pipe true 1 0 0 0 0 (p_data (pipe_at st p)))) p)); [done|].
      by rewrite Hpat. }
  assert (Est : install s1 (fd n1 VFS_PIPE_WRITE) first = st').
  { unfold install, add_pipe. simpl. change (pipe_at (set_fd first s1 _) p) with (pipe_at (set_pipe st p (mk_pipe true 1 0 0 0 0 (p_data (pipe_at st p)))) p).
    rewrite Hpat. unfold set_pipe, set_fd, first. simpl. rewrite aset_aset. done. }
  rewrite Est in Hinv3. split; [done|]. split; [apply Hpat|]. intros o n.
  rewrite (view_install first st' s1 (fd n1 VFS_PIPE_WRITE) Hinv2 Hinv3 Hs1 eq_refl ltac:(by rewrite Hat) eq_refl), Hview2. simpl.
  destruct (decide (o = owner /\ n = n1)) as [(-> & ->)|]; [rewrite decide_False by lia|]; done.
Qed.

Lemma two_numbers_Some owner st n0 n1 : two_numbers owner st = Some (n0, n1) ->
  3 <= n0 < n1 /\ n1 < VFS_MAX_FDS /\ free_name st owner n0 /\ free_name st owner n1.
Proof.
  unfold two_numbers. intros E. destruct (free_number 3 owner st) as [m0|] eqn:E0; [|done].
  apply free_number_Some in E0 as (Hn0 & Hfree0 & _); [|lia]. destruct (free_number (m0 + 1) owner st) as [m1|] eqn:E1; [|done].
  apply free_number_Some in E1 as (Hn1 & Hfree1 & _); [|lia]. simplify_eq. repeat split; try done; lia.
Qed.

Lemma two_slots_Some st s0 s1 : two_slots st = Some (s0, s1) ->
  slot s0 /\ slot s1 /\ s0 < s1 /\ d_used (fd_at st s0) = false /\ d_used (fd_at st s1) = false.
Proof.
  unfold two_slots. intros E. destruct (find_up (trips 0 VFS_DESCRIPTOR_SLOTS) 0 _) as [i|] eqn:E0; [|done].
  apply find_up_Some in E0 as (Hi & Hu0 & _). destruct (find_up (trips (i + 1) _) _ _) as [j|] eqn:E1; [|done].
  apply find_up_Some in E1 as (Hj & Hu1 & _). simplify_eq. bool_prop. unfold slot, trips in *. repeat split; try done; lia.
Qed.

(** [vfs_pipe] connects two new descriptors through a new, empty pipe. *)
Lemma pipe_call_spec pipe_descriptors owner st : vfs_inv st ->
  let '(r, numbers, st') := vfs_pipe_call pipe_descriptors owner st in
  let st1 := ensure_standard_streams owner st in
  vfs_inv st' /\
  (r = -1 /\ numbers = None /\ (st' = st \/ st' = st1) \/
   exists n0 n1 p, r = 0 /\ numbers = Some (n0, n1) /\ 3 <= n0 < n1 /\ n1 < VFS_MAX_FDS /\
     view st1 owner n0 = None /\ view st1 owner n1 = None /\ p_used (pipe_at st1 p) = false /\
     pipe_at st' p = pipe_open (pipe_at st1 p) /\
     forall o n, view st' o n =
       if decide (o = owner /\ n = n0) then Some (endpoint p VFS_PIPE_READ)
       else if decide (o = owner /\ n = n1) then Some (endpoint p VFS_PIPE_WRITE) else view st1 o n).
Proof.
  intros Hinv. unfold vfs_pipe_call. destruct (negb _); [by auto 10|].
  destruct (ensure_spec owner st Hinv) as (Hinv1 & _). generalize dependent (ensure_standard_streams owner st). intros st1 Hinv1.
  destruct (find_up (trips 0 VFS_MAX_PIPES) 0 _) as [p|] eqn:Ep; [|by auto 10].
  apply find_up_Some in Ep as (Hp & Hup & _). assert (Hsp : pipe_slot p) by (unfold pipe_slot, trips in *; lia). bool_prop.
  destruct (two_numbers owner st1) as [(n0, n1)|] eqn:En; [|by auto 10]. apply two_numbers_Some in En as (? & ? & ? & ?).
  destruct (two_slots st1) as [(s0, s1)|] eqn:Es; [|by auto 10]. apply two_slots_Some in Es as (? & ? & ? & ? & ?).
  destruct (connect_pipe owner st1 p s0 s1 n0 n1) as (G1 & G2 & G3); try done; [lia|].
  split; [done|]. right. exists n0, n1, p. repeat (split; [first [done | lia | by apply view_None]|]). exact G3.
Qed.

(** ** Inheritance *)

(** One descriptor of the parent under the child's name. *)
Lemma inherit_one st source target child : vfs_inv st -> slot source -> d_used (fd_at st source) = true ->
  slot target -> d_used (fd_at st target) = false -> free_name st child (d_number (fd_at st source)) ->
  let d := with_owner (fd_at st source) child (d_number (fd_at st source)) in
  vfs_inv (install target d st) /\
  (forall o n, view (install target d st) o n = view_set st child (d_number (fd_at st source)) (Some (target_of (fd_at st source))) o n) /\
  retain_pipe (d_pipe d) (d_mode d) (open_file_retain_locked (d_file d) (set_fd st target d)) = install target d st.
Proof.
  intros Hinv Hs Hus Ht Hut Hfree d. destruct (vi_fd _ Hinv source Hs Hus) as (Hn & _ & _ & Hm).
  pose proof (install_copy_inv st source target child _ Hinv Hs Hus Ht Hut Hn Hfree) as Hinv'. split; [done|].
  split; [by apply install_copy_view|].
  unfold install, retain_pipe, add_pipe, Pipe.pipe_retain_reference. subst d. simpl in *.
  destruct (d_pipe (fd_at st source)) as [k|] eqn:Ek; [|done].
  rewrite bool_decide_false by (intros E; by apply Hm in E).
  assert (Ep : forall f x, pipe_at (open_file_retain_locked f (set_fd st target x)) k = pipe_at st k) by (intros [|] ?; done).
  rewrite Ep. destruct (pipe_used st source k Hinv Hs Hus Ek) as (_ & -> & _). done.
Qed.

(** Descriptors installed one after another. *)
Inductive installs : vfs S -> vfs S -> Prop :=
| installs_nil st : installs st st
| installs_cons st i d st' : vfs_inv st -> fd_ok d -> installs (install i d st) st' -> installs st st'.

Lemma installs_trans st1 st2 st3 : installs st1 st2 -> installs st2 st3 -> installs st1 st3.
Proof. induction 1 as [|st i d st' Hinv Hd _ IH]; [done|]. intros H. apply (installs_cons st i d); auto. Qed.

(** [inherit_numbers] copies the numbers one by one, or undoes what it did. *)
Lemma inherit_numbers_spec numbers parent child st : vfs_inv st -> parent <> child -> NoDup numbers ->
  (forall n, n ∈ numbers -> view st child n = None) ->
  let '(ok, st') := inherit_numbers numbers parent child st in
  vfs_inv st' /\ (exists st1, vfs_inv st1 /\ installs st st1 /\ st' = if ok then st1 else vfs_close_all child st1) /\
  if ok then forall o n, view st' o n = if decide (o = child /\ n ∈ numbers) then view st parent n else view st o n
  else forall o n, view st' o n = if decide (o = child) then None else view st o n.
Proof.
  revert st. induction numbers as [|number numbers IH]; intros st Hinv Hne Hdup Hfree; cbn [inherit_numbers].
  { split; [done|]. split; [exists st; split; [done|]; split; [constructor | done]|].
    intros o n. rewrite decide_False; [done|]. intros (_ & H). by apply elem_of_nil in H. }
  assert (Hstop : vfs_inv (vfs_close_all child st) /\ (exists st1, vfs_inv st1 /\ installs st st1 /\ vfs_close_all child st = vfs_close_all child st1) /\
    forall o n, view (vfs_close_all child st) o n = if decide (o = child) then None else view st o n).
  { destruct (close_all_spec child st Hinv) as (H1 & H2). split; [done|]. split; [|done]. exists st. split; [done|]. split; [constructor | done]. }
  apply NoDup_cons in Hdup as (Hnot & Hdup).
  destruct (lookup parent number st) as [source|] eqn:El; [|exact Hstop].
  destruct (allocate_slot st) as [target|] eqn:Ea; [|exact Hstop]. clear Hstop.
  assert (Ev : view st parent number = Some (target_of (fd_at st source))) by (unfold view; by rewrite El).
  apply (lookup_Some st parent number source Hinv) in El as (Hs & Hus & Ho & Hnum). apply allocate_slot_Some in Ea as (Ht & Hut).
  rewrite Hus. change (mk_fd true child _ _ _ _ _ _) with (with_owner (fd_at st source) child (d_number (fd_at st source))).
  destruct (inherit_one st source target child Hinv Hs Hus Ht Hut) as (Hinv1 & Hview1 & Eq).
  { rewrite Hnum. apply view_None, Hfree. by left. }
  rewrite Eq. clear Eq. set (st1 := install _ _ st) in *. rewrite Hnum in Hview1.
  specialize (IH st1 Hinv1 Hne Hdup). destruct (inherit_numbers numbers parent child st1) as (ok, st').
  destruct IH as (Hinv' & (st2 & Hinv2 & Hins & Est) & Hview').
  { intros n Hn. rewrite Hview1. unfold view_set. rewrite decide_False by (intros (_ & ->); done). apply Hfree. by right. }
  split; [done|]. split; [exists st2; split; [done|]; split; [exact (installs_cons st target (with_owner (fd_at st source) child (d_number (fd_at st source))) st2 Hinv (vi_fd _ Hinv source Hs Hus) Hins) | done]|].
  unfold view_set in Hview1. destruct ok; intros o n; rewrite Hview', ?Hview1.
  - destruct (decide (o = child /\ n ∈ numbers)) as [(-> & Hn)|H1].
    + rewrite (decide_False (P := parent = child /\ _)) by (intros (? & _); done). rewrite decide_True by (split; [done | by right]). done.
    + destruct (decide (o = child /\ n = number)) as [(-> & ->)|H2]; [rewrite decide_True by (split; [done | by left]); by rewrite Ev|].
      rewrite decide_False; [done|]. intros (-> & Hn). apply elem_of_cons in Hn as [->|]; [by apply H2 | by apply H1].
  - destruct (decide (o = child)); [done|]. rewrite decide_False by (intros (? & _); done). done.
Qed.

(** [vfs_inherit_standard] starts the child with the parent's streams. *)
Lemma inherit_spec parent child st : vfs_inv st ->
  let '(ok, st') := vfs_inherit_standard parent child st in
  let st1 := ensure_standard_streams parent st in
  vfs_inv st' /\
  forall o n, view st' o n = if decide (o = child) then (if ok && bool_decide (0 <= n < 3) then view st1 parent n else None) else view st1 o n.
Proof.
  intros Hinv. unfold vfs_inherit_standard. destruct (ensure_spec parent st Hinv) as (Hinv1 & _).
  generalize dependent (ensure_standard_streams parent st). intros st1 Hinv1.
  destruct (close_all_spec child st1 Hinv1) as (Hinv2 & Hview2). generalize dependent (vfs_close_all child st1). intros st2 Hinv2 Hview2.
  destruct (decide (parent = child)) as [->|Hne].
  - assert (El : lookup child 0 st2 = None).
    { apply lookup_None, view_None. rewrite Hview2. by rewrite decide_True. }
    simpl. rewrite El. destruct (close_all_spec child st2 Hinv2) as (Hinv3 & Hview3). split; [done|].
    intros o n. rewrite Hview3, Hview2. destruct (decide (o = child)); done.
  - pose proof (inherit_numbers_spec [0; 1; 2] parent child st2 Hinv2 Hne) as H.
    destruct (inherit_numbers [0; 1; 2] parent child st2) as (ok, st'). destruct H as (Hinv3 & _ & Hview3).
    { apply (bool_decide_unpack _). vm_compute. exact I. }
    { intros n _. rewrite Hview2. by rewrite decide_True. }
    split; [done|]. intros o n. destruct ok; rewrite Hview3; destruct (decide (o = child)) as [->|Ho]; simpl.
    + assert (Hiff : n ∈ [0; 1; 2] <-> 0 <= n < 3) by (rewrite !elem_of_cons, elem_of_nil; lia).
      destruct (decide (0 <= n < 3)) as [Hn|Hn].
      * rewrite bool_decide_true, decide_True by tauto. rewrite Hview2. by rewrite decide_False.
      * rewrite bool_decide_false, decide_False by tauto. rewrite Hview2. by rewrite decide_True.
    + rewrite decide_False by tauto. rewrite Hview2. by rewrite decide_False.
    + done.
    + rewrite Hview2. by rewrite decide_False.
Qed.

(** Slots left, and descriptors of [owner] from slot [i] on. *)
Definition available st : Z := count_up (trips 0 VFS_DESCRIPTOR_SLOTS) 0 (fun i => negb (d_used (fd_at st i))).
Definition owned st (owner i : Z) : Z :=
  count_up (trips i VFS_DESCRIPTOR_SLOTS) i (fun k => d_used (fd_at st k) && (d_owner (fd_at st k) =? owner)).

Lemma install_fd_at st i d j : vfs_inv st -> slot i -> slot j ->
  fd_at (install i d st) j = if decide (i = j) then d else fd_at st j.
Proof. intros Hinv Hi Hj. rewrite <- fd_at_set by (try apply Hinv; done). unfold fd_at. by rewrite install_descriptors. Qed.

Lemma available_install st i d : vfs_inv st -> slot i -> d_used (fd_at st i) = false -> d_used d = true ->
  available (install i d st) = available st - 1.
Proof.
  intros Hinv Hi Hu Hd. unfold available.
  rewrite (count_up_flip _ 0 (fun k => negb (d_used (fd_at st k))) (fun k => negb (d_used (fd_at (install i d st) k))) i); [lia | | | |].
  - unfold slot, trips in *. lia.
  - by rewrite Hu.
  - rewrite install_fd_at by done. rewrite decide_True by done. by rewrite Hd.
  - intros j Hj Hne. rewrite install_fd_at by (try done; unfold slot, trips in *; lia). by rewrite decide_False.
Qed.

Lemma owned_install st i d owner k : vfs_inv st -> slot i -> 0 <= k -> d_used (fd_at st i) = false -> d_owner d <> owner ->
  owned (install i d st) owner k = owned st owner k.
Proof.
  intros Hinv Hi Hk Hu Ho. unfold owned. apply count_up_ext. intros j Hj.
  rewrite install_fd_at by (try done; unfold slot, trips in *; lia).
  destruct (decide (i = j)) as [<-|]; [|done]. rewrite Hu. simpl. apply andb_false_iff. right. by apply Z.eqb_neq.
Qed.

Lemma owned_step st owner i : slot i ->
  owned st owner i = b2z (d_used (fd_at st i) && (d_owner (fd_at st i) =? owner)) + owned st owner (i + 1).
Proof.
  intros Hi. unfold owned. replace (trips i VFS_DESCRIPTOR_SLOTS) with (Datatypes.S (trips (i + 1) VFS_DESCRIPTOR_SLOTS)) by (unfold slot, trips in *; lia).
  done.
Qed.

(** The parent's descriptor in slot [k]. *)
Definition owns st (owner k : Z) : Prop := slot k /\ d_used (fd_at st k) = true /\ d_owner (fd_at st k) = owner.

Lemma fork_slot_spec parent child i st : vfs_inv st -> parent <> child -> slot i ->
  owned st parent i <= available st -> (forall k, owns st parent k -> i <= k -> view st child (d_number (fd_at st k)) = None) ->
  exists pipe st', fork_slot parent child i st = Some (pipe, st') /\ vfs_inv st' /\ installs st st' /\
    (forall k, owns st' parent k <-> owns st parent k) /\ (forall k, owns st parent k -> fd_at st' k = fd_at st k) /\
    owned st' parent (i + 1) <= available st' /\
    (owns st parent i -> forall o n, view st' o n = view_set st child (d_number (fd_at st i)) (Some (target_of (fd_at st i))) o n) /\
    (~ owns st parent i -> st' = st).
Proof.
  intros Hinv Hne Hi Hroom Hfree. unfold fork_slot. rewrite owned_step in Hroom by done.
  destruct (negb _ || negb _) eqn:E.
  { exists false, st. split; [done|]. split; [done|]. split; [constructor|]. repeat (split; [done|]).
    assert (Hno : ~ owns st parent i).
    { intros (_ & Hu & Ho). rewrite Hu, Ho, Z.eqb_refl in E. done. }
    split; [destruct (_ && _); simpl in Hroom; lia | done]. }
  bool_prop. assert (Howns : owns st parent i) by done.
  destruct (d_used (fd_at st i)) eqn:Hu; [|done]. assert (Ho : d_owner (fd_at st i) = parent) by lia.
  rewrite Ho, Z.eqb_refl in Hroom. simpl in Hroom.
  destruct (allocate_slot st) as [target|] eqn:Ea.
  2:{ exfalso. pose proof (count_up_range (trips (i + 1) VFS_DESCRIPTOR_SLOTS) (i + 1) (fun k => d_used (fd_at st k) && (d_owner (fd_at st k) =? parent))).
      unfold owned, available in Hroom. destruct (count_up_pos (trips 0 VFS_DESCRIPTOR_SLOTS) 0 (fun i => negb (d_used (fd_at st i)))) as (k & Hk & HP); [lia|].
      unfold allocate_slot in Ea. rewrite find_up_None in Ea. rewrite Ea in HP by done. done. }
  apply allocate_slot_Some in Ea as (Ht & Hut).
  destruct (inherit_one st i target child Hinv Hi Hu Ht Hut) as (Hinv1 & Hview1 & Eq).
  { apply view_None, Hfree; [done | lia]. }
  exists (negb (bool_decide (d_mode (fd_at st i) = VFS_PIPE_NONE))), (install target (with_owner (fd_at st i) child (d_number (fd_at st i))) st).
  split.
  - destruct (vi_fd _ Hinv i Hi Hu) as (_ & _ & _ & Hm).
    set (d := with_owner (fd_at st i) child (d_number (fd_at st i))) in *.
    change (d_pipe (fd_at st i)) with (d_pipe d) in *. change (d_mode (fd_at st i)) with (d_mode d) in *. unfold install.
    destruct (d_pipe d) as [p|] eqn:Ep.
    + assert (p_used (pipe_at (open_file_retain_locked (d_file d) (set_fd st target d)) p) = true) as ->.
      { transitivity (p_used (pipe_at st p)); [by destruct (d_file d)|]. by apply (pipe_used st i p). }
      rewrite bool_decide_false by (intros Em; by apply Hm in Em). done.
    + rewrite bool_decide_true by (by apply Hm). done.
  - assert (Hat : forall k, slot k -> k <> target -> fd_at (install target (with_owner (fd_at st i) child (d_number (fd_at st i))) st) k = fd_at st k).
    { intros k Hk Hkt. rewrite install_fd_at by done. by apply decide_False. }
    split; [done|]. split; [exact (installs_cons st target (with_owner (fd_at st i) child (d_number (fd_at st i))) _ Hinv (vi_fd _ Hinv i Hi Hu) (installs_nil _))|]. split; [|split; [|split; [|done]]].
    + intros k. unfold owns. destruct (decide (k = target)) as [->|Hkt]; [|split; intros (H1 & H2); rewrite Hat in * by done; done].
      rewrite install_fd_at, decide_True by done. simpl. split; intros (_ & H2 & H3); congruence.
    + intros k (Hk & Huk & _). apply Hat; [done|]. intros ->. congruence.
    + rewrite available_install, owned_install by (try done; unfold slot in *; lia). lia.
Qed.

(** With enough slots the loop of [vfs_fork] copies every descriptor left. *)
Lemma fork_slots_spec n i parent child inherited st : vfs_inv st -> parent <> child -> 0 <= i -> i + Z.of_nat n = VFS_DESCRIPTOR_SLOTS ->
  owned st parent i <= available st -> (forall k, owns st parent k -> i <= k -> view st child (d_number (fd_at st k)) = None) ->
  exists inherited' st', fork_slots n i parent child inherited st = (true, inherited', st') /\ vfs_inv st' /\ installs st st' /\
    (forall o m, o <> child -> view st' o m = view st o m) /\
    (forall k, owns st parent k -> i <= k -> view st' child (d_number (fd_at st k)) = Some (target_of (fd_at st k))) /\
    (forall m, (forall k, owns st parent k -> i <= k -> d_number (fd_at st k) <> m) -> view st' child m = view st child m).
Proof.
  revert i inherited st. induction n as [|n IH]; intros i inherited st Hinv Hne Hi Hn Hroom Hfree; simpl.
  { exists inherited, st. split; [done|]. split; [done|]. split; [constructor|]. split; [done|]. split; [|done]. intros k ((_ & Hk) & _) Hik. lia. }
  assert (Hsi : slot i) by (unfold slot; lia).
  destruct (fork_slot_spec parent child i st Hinv Hne Hsi Hroom Hfree) as (pipe & st1 & -> & Hinv1 & Hins & Howns & Hsame & Hroom1 & Hyes & Hno).
  assert (Hview1 : forall k, owns st parent k -> i + 1 <= k -> view st1 child (d_number (fd_at st k)) = view st child (d_number (fd_at st k))).
  { intros k Hk Hik. destruct (decide (d_used (fd_at st i) = true /\ d_owner (fd_at st i) = parent)) as [Hu|Hu].
    - rewrite Hyes by done. unfold view_set. apply decide_False. intros (_ & E). assert (k = i); [|lia].
      destruct Hk as (? & ? & ?), Hu as (? & ?). apply (vi_unique _ Hinv); try done. congruence.
    - rewrite Hno; [done|]. intros (_ & H). done. }
  destruct (IH (i + 1) (inherited || pipe) st1) as (inherited' & st' & -> & Hinv' & Hins' & H1 & H2 & H3); try done; try lia.
  { intros k Hk Hik. apply Howns in Hk. rewrite Hsame, Hview1 by done. apply Hfree; [done | lia]. }
  exists inherited', st'. split; [done|]. split; [done|]. split; [by eapply installs_trans|]. split; [|split].
  - intros o m Ho. rewrite H1 by done. destruct (decide (d_used (fd_at st i) = true /\ d_owner (fd_at st i) = parent)) as [Hu|Hu].
    + rewrite Hyes by done. unfold view_set. apply decide_False. tauto.
    + rewrite Hno; [done|]. intros (_ & H). done.
  - intros k Hk Hik. destruct (decide (k = i)) as [->|].
    + rewrite H3; [rewrite Hyes by done; unfold view_set; by rewrite decide_True|].
      intros k' Hk' Hik'. apply Howns in Hk'. rewrite Hsame by done. intros E. assert (k' = i); [|lia].
      destruct Hk as (? & ? & ?), Hk' as (? & ? & ?). apply (vi_unique _ Hinv); try done. congruence.
    + rewrite <- (Hsame k Hk). apply H2; [by apply Howns | lia].
  - intros m Hm. rewrite H3.
    + destruct (decide (d_used (fd_at st i) = true /\ d_owner (fd_at st i) = parent)) as [Hu|Hu].
      * rewrite Hyes by done. unfold view_set. apply decide_False. intros (_ & ->). apply (Hm i); [done | lia | done].
      * rewrite Hno; [done|]. intros (_ & H). done.
    + intros k Hk Hik. apply Howns in Hk. rewrite Hsame by done. apply Hm; [done | lia].
Qed.

Lemma fork_spec parent child st : vfs_inv st -> parent <> child ->
  let '(ok, st') := vfs_fork parent child st in
  let st1 := vfs_close_all child (ensure_standard_streams parent st) in
  vfs_inv st' /\ ok = (owned st1 parent 0 <=? available st1) /\
  (forall o n, o <> child -> view st' o n = view (ensure_standard_streams parent st) o n) /\
  (forall n, view st' child n = if ok then view (ensure_standard_streams parent st) parent n else None).
Proof.
  intros Hinv Hne. unfold vfs_fork. destruct (ensure_spec parent st Hinv) as (Hinv1 & _).
  generalize dependent (ensure_standard_streams parent st). intros st1 Hinv1.
  destruct (close_all_spec child st1 Hinv1) as (Hinv2 & Hview2). generalize dependent (vfs_close_all child st1). intros st2 Hinv2 Hview2.
  fold (available st2) (owned st2 parent 0). cbv zeta.
  assert (Hchild : forall n, view st2 child n = None) by (intros n; rewrite Hview2; by rewrite decide_True).
  assert (Hother : forall o n, o <> child -> view st2 o n = view st1 o n) by (intros; rewrite Hview2; by rewrite decide_False).
  rewrite Z.ltb_antisym. destruct (Z.leb_spec (owned st2 parent 0) (available st2)) as [Eroom|Eroom]; cbn [negb]; [|auto].
  destruct (fork_slots_spec (trips 0 VFS_DESCRIPTOR_SLOTS) 0 parent child false st2 Hinv2 Hne (Z.le_refl 0) eq_refl Eroom (fun k _ _ => Hchild _))
    as (b & st' & -> & Hinv' & _ & H1 & H2 & H3).
  assert (Hc : forall n, view st' child n = view st1 parent n).
  { intros n. rewrite <- Hother by done. destruct (view st2 parent n) as [x|] eqn:Ex.
    - apply (view_Some st2 parent n x Hinv2) in Ex as (k & Hk & Hu & Ho & <- & <-). apply H2; [done | unfold slot in Hk; lia].
    - rewrite H3; [apply Hchild|]. intros k (Hk & Hu & Ho) _ Hn. apply view_None in Ex. by apply (Ex k Hk). }
  destruct b; simpl; (split; [by try apply inv_wake|]); (split; [done|]); split; try exact Hc; intros; rewrite <- Hother by done; by apply H1.
Qed.

(** ** Input and output keep the counts *)

Lemma inv_with_fs st s : vfs_inv st -> vfs_inv (with_fs st s).
Proof. by apply inv_ext. Qed.
Lemma inv_with_terminal st t : vfs_inv st -> vfs_inv (with_terminal st t).
Proof. by apply inv_ext. Qed.

Lemma pipe_read_refs mode length p : let '(_, q) := pipe_read mode length p in
  p_used q = p_used p /\ p_readers q = p_readers p /\ p_writers q = p_writers p.
Proof. unfold pipe_read. repeat case_match; simplify_eq; done. Qed.

Lemma pipe_write_refs mode buffer total p : let '(_, q) := pipe_write mode buffer total p in
  p_used q = p_used p /\ p_readers q = p_readers p /\ p_writers q = p_writers p.
Proof. unfold pipe_write. repeat case_match; simplify_eq; done. Qed.

Section Files.
Variable ops : backend -> vfs_fs_ops S.

Lemma read_inv number buffer length owner st : vfs_inv st -> vfs_inv (snd (vfs_read ops number buffer length owner st)).
Proof.
  intros Hinv. unfold vfs_read. destruct (ensure_spec owner st Hinv) as (Hinv1 & _).
  generalize dependent (ensure_standard_streams owner st). intros st1 Hinv1.
  destruct (lookup owner number st1) as [i|] eqn:El; [|done]. apply (lookup_Some st1 owner number i Hinv1) in El as (Hi & Hu & _).
  destruct (negb buffer); [done|]. destruct (negb _).
  - destruct (d_pipe (fd_at st1 i)) as [p|] eqn:Ep; [|done]. destruct (pipe_used st1 i p Hinv1 Hi Hu Ep) as (Hp & _).
    pose proof (pipe_read_refs (d_mode (fd_at st1 i)) length (pipe_at st1 p)) as H.
    destruct (pipe_read _ _ _) as (out, q). destruct H as (? & ? & ?). assert (vfs_inv (set_pipe st1 p q)) by (by apply inv_set_pipe).
    destruct out as [code bytes|]; simpl; [|done]. destruct (_ =? 0); [done | by apply inv_wake].
  - destruct (_ || _); [done|]. destruct (negb _).
    { destruct (devfs_read _ _ _ _) as (out, t). destruct out; simpl; by apply inv_with_terminal. }
    destruct (_ <? 3); [done|]. destruct (path_ops ops (d_name (fd_at st1 i)) st1) as (o, path).
    destruct (d_file (fd_at st1 i)) as [f|] eqn:Ef; [|done]. destruct (file_used st1 i f Hinv1 Hi Hu Ef) as (Hf & _).
    destruct o as [o|]; [|done]. destruct (op_read o) as [read|]; [|done]. destruct (read path RAMFS_DATA_SIZE (fs st1)) as ([data|], s); simpl;
      [|by apply inv_with_fs]. destruct (_ <=? _); simpl; [by apply inv_with_fs|].
    apply inv_set_open; [by apply inv_with_fs | done..].
Qed.

Lemma write_inv number buffer length owner st : vfs_inv st -> vfs_inv (snd (vfs_write ops number buffer length owner st)).
Proof.
  intros Hinv. unfold vfs_write. destruct (ensure_spec owner st Hinv) as (Hinv1 & _).
  generalize dependent (ensure_standard_streams owner st). intros st1 Hinv1.
  destruct (lookup owner number st1) as [i|] eqn:El; [|done]. apply (lookup_Some st1 owner number i Hinv1) in El as (Hi & Hu & _).
  destruct buffer as [bytes|]; [|done]. destruct (_ <? length); [done|]. destruct (negb _).
  - destruct (d_pipe (fd_at st1 i)) as [p|] eqn:Ep; [|done]. destruct (pipe_used st1 i p Hinv1 Hi Hu Ep) as (Hp & _).
    pose proof (pipe_write_refs (d_mode (fd_at st1 i)) (take (Z.to_nat length) bytes) 0 (pipe_at st1 p)) as H.
    destruct (pipe_write _ _ _ _) as (out, q). destruct H as (? & ? & ?). assert (vfs_inv (set_pipe st1 p q)) by (by apply inv_set_pipe).
    destruct out; simpl; try done. by apply inv_wake.
  - destruct (_ =? 0); [done|]. destruct (negb _).
    { destruct (devfs_write _ _ _ _) as ((ok, written), t). simpl. by apply inv_with_terminal. }
    destruct (path_ops ops (d_name (fd_at st1 i)) st1) as (o, path).
    destruct (d_file (fd_at st1 i)) as [f|] eqn:Ef; [|done]. destruct (file_used st1 i f Hinv1 Hi Hu Ef) as (Hf & _).
    destruct o as [o|]; [|done]. destruct (op_write o) as [write|]; [|done]. destruct (write path bytes length (fs st1)) as (ok, s).
    destruct (negb ok); simpl; [by apply inv_with_fs|]. apply inv_set_open; [by apply inv_with_fs | done..].
Qed.

Lemma seek_inv number offset whence owner st : vfs_inv st -> vfs_inv (snd (vfs_seek ops number offset whence owner st)).
Proof.
  intros Hinv. unfold vfs_seek. destruct (lookup owner number st) as [i|] eqn:El; [|done].
  apply (lookup_Some st owner number i Hinv) in El as (Hi & Hu & _). destruct (_ || _ || _); [done|].
  destruct (d_file (fd_at st i)) as [f|] eqn:Ef; [|done]. destruct (file_used st i f Hinv Hi Hu Ef) as (Hf & _).
  destruct (path_ops ops (d_name (fd_at st i)) st) as ([o|], path); [|done].
  destruct (op_stat o path (fs st)) as ([size|], s); simpl; [|by apply inv_with_fs].
  destruct (_ || _ || _ || _); simpl; [by apply inv_with_fs|]. apply inv_set_open; [by apply inv_with_fs | done..].
Qed.

Lemma open_path_spec o path create st : let '(ok, st') := open_path o path create st in
  descriptors st' = descriptors st /\ open_files st' = open_files st /\ pipes st' = pipes st.
Proof. unfold open_path. repeat case_match; simplify_eq; done. Qed.

(** [vfs_open] gives the lowest free number from 3 on to a new open file at
    offset 0, or nothing beyond the standard streams. *)
Lemma open_spec name create owner cwd st : vfs_inv st -> let '(r, st') := vfs_open ops name create owner cwd st in
  vfs_inv st' /\
  (r = -1 /\ (view st' = view st \/ view st' = view (ensure_standard_streams owner st)) \/
   3 <= r < VFS_MAX_FDS /\
   let st1 := ensure_standard_streams owner st in
   view st1 owner r = None /\ (forall m, 3 <= m < r -> view st1 owner m <> None) /\
   exists absolute f device, resolve_path cwd name true RAMFS_NAME_SIZE = Some absolute /\
     file_at st' f = mk_open_file true 1 0 /\ file_refs st1 f = 0 /\
     forall o n, view st' o n = view_set st1 owner r (Some (mk_target absolute (Some f) device None VFS_PIPE_NONE)) o n).
Proof.
  intros Hinv. unfold vfs_open. destruct name as [name|]; [|by auto]. destruct (_ || _); [by auto|].
  destruct (resolve_path cwd (Some name) true RAMFS_NAME_SIZE) as [absolute|] eqn:Er; [|by auto].
  destruct (path_ops ops absolute st) as ([o|], path); [|by auto].
  pose proof (open_path_spec o path create st) as H. destruct (open_path o path create st) as (ok, st0).
  destruct H as (Ed & Eo & Ep). pose proof (inv_ext st st0 Ed Eo Ep Hinv) as Hinv0. pose proof (view_ext _ _ Ed) as Ev0.
  destruct (negb ok); [by auto|].
  destruct (ensure_spec owner st0 Hinv0) as (Hinv1 & _).
  assert (Eens : descriptors (ensure_standard_streams owner st0) = descriptors (ensure_standard_streams owner st)).
  { apply ensure_ext. done. }
  assert (Ev1 : view (ensure_standard_streams owner st) = view (ensure_standard_streams owner st0)) by (symmetry; by apply view_ext).
  assert (Ef1 : file_refs (ensure_standard_streams owner st) = file_refs (ensure_standard_streams owner st0)).
  { unfold file_refs. by rewrite Eens. }
  cbv zeta. unfold view_set. rewrite Ev1, Ef1. clear Ev1 Ef1 Eens.
  generalize dependent (ensure_standard_streams owner st0). intros st1 Hinv1.
  destruct (free_number 3 owner st1) as [r|] eqn:En; [|by auto].
  apply free_number_Some in En as (Hr & Hfree & Hleast); [|lia].
  pose proof (allocate_open_file_spec st1 Hinv1) as H. destruct (allocate_open_file_locked st1) as (file, st2).
  destruct file as [f|]; [|subst; by auto]. destruct H as (Hf & Huf & ->).
  destruct (allocate_slot st1) as [i|] eqn:Ea.
  2:{ split; [by apply release_new|]. left. split; [done|]. right. apply view_ext. unfold open_file_release_locked. case_match; done. }
  apply allocate_slot_Some in Ea as (Hi & Hui).
  set (device := match op_device o with Some device => _ | None => _ end).
  set (d := mk_fd true owner r absolute (Some f) device None VFS_PIPE_NONE).
  assert (Hinv2 : vfs_inv (set_fd (set_open st1 f (mk_open_file true 1 0)) i d)).
  { apply new_file_inv; try done. split; [simpl; lia|]. split; [by intros ? [= <-] | done]. }
  split; [done|]. right. split; [done|]. split; [by apply view_None|]. split; [intros m Hm E; apply (Hleast m Hm); by apply view_None|].
  exists absolute, f, device. split; [done|]. split; [|split].
  - change (file_at (set_fd ?a _ _) f) with (file_at a f). rewrite file_at_set by (try apply Hinv1; done). by rewrite decide_True.
  - destruct (vi_file _ Hinv1 f Hf) as (E & _). rewrite Huf in E. symmetry in E. apply Z.ltb_ge in E.
    pose proof (refs_bound st1 (vi_fds _ Hinv1) (on_file f)). unfold file_refs in *. lia.
  - intros o' n. apply (view_install st1 _ i d Hinv1 Hinv2 Hi eq_refl Hui eq_refl).
Qed.

End Files.

End Refs.
End VfsRefs.
