(* ===== verification/VfsCorrect.v ===== *)
(** * VfsCorrect: what the descriptor calls of src/fs/vfs.c promise

    The operation tables of the file systems, sequences of calls, and the
    theorems about them: reference counts, names, wake-ups and files. *)

From S2P Require Import Prelude Memory Vmm KernelPages Kmalloc CString Ramfs Pipe Path Ps2 Devfs Vfs VfsRefs.
Import Vmm.Vmm KernelPages.KernelPages Kmalloc.Kmalloc CString.CString Ramfs.Ramfs Pipe.Pipe Path.Path Ps2.Ps2 Devfs.Devfs Vfs.Vfs VfsRefs.VfsRefs.
Local Open Scope Z_scope.

Module VfsCorrect.

(** ** Operation tables *)

Section Tables.
Context {A F : Type} `{Allocator A}.
Variable fat32_ops : vfs_fs_ops F.

Definition ramfs_create (path : cstr) (r : ramfs A) : bool * ramfs A := ramfs_write (Some path) (Some []) 0 r.
Definition ramfs_sync : bool := true.

Definition ramfs_ops : vfs_fs_ops (ramfs A * F) :=
  let query {R} (f : ramfs A -> R) (s : ramfs A * F) := (f (fst s), s) in
  let update {R} (f : ramfs A -> R * ramfs A) (s : ramfs A * F) := let '(r, ram) := f (fst s) in (r, (ram, snd s)) in
  mk_ops (Some (fun path capacity => query (ramfs_read path true true capacity)))
    (Some (fun path data size => update (ramfs_write (Some path) (Some data) size)))
    (fun path => query (ramfs_stat path true))
    (fun path => update (ramfs_create path))
    (fun path index => query (ramfs_readdir path index true))
    (fun path => update (ramfs_mkdir (Some path)))
    (fun path => update (ramfs_unlink path))
    (fun path => update (ramfs_rmdir (Some path)))
    (fun path => query (ramfs_is_directory (Some path)))
    (query (fun _ => ramfs_sync)) None.

Definition devfs_ops : vfs_fs_ops (ramfs A * F) :=
  let pure {R} (r : R) (s : ramfs A * F) := (r, s) in
  mk_ops None None (fun path => pure (devfs_stat (Some path) true)) (fun path => pure (devfs_reject path))
    (fun path index => pure (devfs_readdir (Some path) index true)) (fun path => pure (devfs_reject path))
    (fun path => pure (devfs_reject path)) (fun path => pure (devfs_reject path))
    (fun path => pure (devfs_is_directory (Some path))) (pure devfs_sync)
    (Some (fun path => devfs_device_for_path (Some path))).

(** The FAT operations on the second component. *)
Definition on_disk : vfs_fs_ops (ramfs A * F) :=
  let lift {R} (f : F -> R * F) (s : ramfs A * F) := let '(r, disk) := f (snd s) in (r, (fst s, disk)) in
  let o := fat32_ops in
  mk_ops (option_map (fun f path capacity => lift (f path capacity)) (op_read o))
    (option_map (fun f path data size => lift (f path data size)) (op_write o))
    (fun path => lift (op_stat o path)) (fun path => lift (op_create o path))
    (fun path index => lift (op_readdir o path index)) (fun path => lift (op_mkdir o path))
    (fun path => lift (op_unlink o path)) (fun path => lift (op_rmdir o path))
    (fun path => lift (op_is_directory o path)) (lift (op_sync o)) (op_device o).

Definition kernel_ops (b : backend) : vfs_fs_ops (ramfs A * F) :=
  match b with RamfsOps => ramfs_ops | Fat32Ops => on_disk | DevfsOps => devfs_ops end.

End Tables.

(** ** Sequences of calls *)

Inductive vfs_op :=
| Open (name : option cstr) (create : bool) (owner : Z) (cwd : option cstr)
| MakePipe (pipe_descriptors : bool) (owner : Z)
| Dup (number owner : Z)
| Dup2 (source destination owner : Z)
| Close (number owner : Z)
| CloseAll (owner : Z)
| InheritStandard (parent child : Z)
| Fork (parent child : Z)
| Read (number : Z) (buffer : bool) (length owner : Z)
| Write (number : Z) (buffer : option (list Z)) (length owner : Z)
| Seek (number offset whence owner : Z).

Section Calls.
Context {S : Type}.
Variable ops : backend -> vfs_fs_ops S.
Implicit Type st : vfs S.

Definition run_op (op : vfs_op) st : vfs S :=
  match op with
  | Open name create owner cwd => snd (vfs_open ops name create owner cwd st)
  | MakePipe pipe_descriptors owner => snd (vfs_pipe_call pipe_descriptors owner st)
  | Dup number owner => snd (vfs_dup number owner st)
  | Dup2 source destination owner => snd (vfs_dup2 source destination owner st)
  | Close number owner => snd (vfs_close number owner st)
  | CloseAll owner => vfs_close_all owner st
  | InheritStandard parent child => snd (vfs_inherit_standard parent child st)
  | Fork parent child => snd (vfs_fork parent child st)
  | Read number buffer length owner => snd (vfs_read ops number buffer length owner st)
  | Write number buffer length owner => snd (vfs_write ops number buffer length owner st)
  | Seek number offset whence owner => snd (vfs_seek ops number offset whence owner st)
  end.

Definition run_vfs (l : list vfs_op) st : vfs S := foldl (fun st op => run_op op st) st l.

(** A fork onto its own descriptors closes them. *)
Lemma fork_self parent st : vfs_inv st ->
  snd (vfs_fork parent parent st) = vfs_close_all parent (ensure_standard_streams parent st).
Proof.
  intros Hinv. unfold vfs_fork. destruct (ensure_spec parent st Hinv) as (Hinv1 & _).
  destruct (close_all_spec parent _ Hinv1) as (Hinv2 & Hview). generalize dependent (vfs_close_all parent (ensure_standard_streams parent st)).
  intros st2 Hinv2 Hview. destruct (_ <? _); [done|].
  assert (Hnone : forall i, slot i -> d_used (fd_at st2 i) = true -> d_owner (fd_at st2 i) <> parent).
  { intros i Hi Hu Ho. assert (view st2 parent (d_number (fd_at st2 i)) = None) as E; [rewrite Hview; by rewrite decide_True|].
    apply view_None in E. by apply (E i). }
  assert (Hloop : forall n i b, 0 <= i -> i + Z.of_nat n = VFS_DESCRIPTOR_SLOTS -> fork_slots n i parent parent b st2 = (true, b, st2)).
  { induction n as [|n IH]; intros i b Hi Hn; simpl; [done|]. unfold fork_slot.
    destruct (d_used (fd_at st2 i)) eqn:Hu; simpl.
    - rewrite (proj2 (Z.eqb_neq _ _)) by (apply Hnone; [unfold slot; lia | done]). simpl. rewrite orb_false_r. apply IH; lia.
    - rewrite orb_false_r. apply IH; lia. }
  rewrite Hloop by done. done.
Qed.

Lemma run_op_inv op st : vfs_inv st -> vfs_inv (run_op op st).
Proof.
  intros Hinv. destruct op as [name create owner cwd|b owner|number owner|s d owner|number owner|owner|parent child|parent child|number b l owner|number b l owner|number o w owner]; cbn [run_op].
  - pose proof (open_spec ops name create owner cwd st Hinv) as H. destruct (vfs_open _ _ _ _ _ _). apply H.
  - pose proof (pipe_call_spec b owner st Hinv) as H. destruct (vfs_pipe_call _ _ _) as ((? & ?) & ?). apply H.
  - pose proof (dup_spec number owner st Hinv) as H. destruct (vfs_dup _ _ _). apply H.
  - pose proof (dup2_spec s d owner st Hinv) as H. destruct (vfs_dup2 _ _ _ _). apply H.
  - pose proof (close_spec number owner st Hinv) as H. destruct (vfs_close _ _ _). apply H.
  - by apply close_all_spec.
  - pose proof (inherit_spec parent child st Hinv) as H. destruct (vfs_inherit_standard _ _ _). apply H.
  - destruct (decide (parent = child)) as [<-|Hne]; [rewrite fork_self by done; by apply close_all_spec, ensure_spec|].
    pose proof (fork_spec parent child st Hinv Hne) as H. destruct (vfs_fork _ _ _). apply H.
  - by apply read_inv.
  - by apply write_inv.
  - by apply seek_inv.
Qed.

(** The tables before [vfs_init] have their static sizes. *)
Definition boot_tables st : Prop :=
  alen (descriptors st) = VFS_DESCRIPTOR_SLOTS /\ alen (open_files st) = VFS_DESCRIPTOR_SLOTS /\ alen (pipes st) = VFS_MAX_PIPES.

Lemma init_inv st : boot_tables st -> vfs_inv (vfs_init st).
Proof.
  intros (H1 & H2 & H3). unfold vfs_init. apply ensure_spec.
  set (st0 := with_mounts _ _).
  assert (Hd : forall i, slot i -> d_used (fd_at st0 i) = false).
  { intros i Hi. unfold fd_at, st0, aget. simpl. rewrite list_lookup_fmap. by destruct (descriptors st !! Z.to_nat i). }
  assert (Hfalse : forall P : vfs_fd -> bool, (forall d, d_used d = false -> P d = false) -> count P (descriptors st0) = 0).
  { intros P HP. apply count_zero, Forall_fmap, Forall_true. intros d. apply HP. done. }
  split.
  - unfold st0, alen in *. simpl. by rewrite length_fmap.
  - unfold st0, alen in *. simpl. by rewrite length_fmap.
  - unfold st0, alen in *. simpl. by rewrite length_fmap.
  - intros i Hi Hu. by rewrite Hd in Hu.
  - intros i j Hi Hj Hu. by rewrite Hd in Hu.
  - intros k Hk. assert (o_used (file_at st0 k) = false) as E.
    { unfold file_at, st0, aget. simpl. rewrite list_lookup_fmap. by destruct (open_files st !! Z.to_nat k). }
    unfold file_ok, file_refs. rewrite E, Hfalse by (intros; by apply on_file_unused). done.
  - intros k Hk. assert (p_used (pipe_at st0 k) = false) as E.
    { unfold pipe_at, st0, aget. simpl. rewrite list_lookup_fmap. by destruct (pipes st !! Z.to_nat k). }
    unfold pipe_refs_ok, pipe_refs. rewrite E, !Hfalse by (intros; by apply on_pipe_unused). done.
Qed.

(** C25 After [vfs_init] and any sequence of descriptor calls by any tasks, an
    open file is in use exactly while a descriptor refers to it and its count
    is the number of those descriptors; a pipe is in use exactly while one of
    its ends is open and its counts are the numbers of open ends; no task has
    two descriptors with one number, and all numbers are below 32. *)
Theorem descriptor_refs l st : boot_tables st ->
  let st' := run_vfs l (vfs_init st) in
  (forall k, slot k -> o_used (file_at st' k) = (0 <? file_refs st' k) /\
     (o_used (file_at st' k) = true -> o_references (file_at st' k) = file_refs st' k)) /\
  (forall k, pipe_slot k -> p_used (pipe_at st' k) = (0 <? pipe_refs st' VFS_PIPE_READ k + pipe_refs st' VFS_PIPE_WRITE k) /\
     (p_used (pipe_at st' k) = true -> p_readers (pipe_at st' k) = pipe_refs st' VFS_PIPE_READ k /\
        p_writers (pipe_at st' k) = pipe_refs st' VFS_PIPE_WRITE k)) /\
  (forall i j, slot i -> slot j -> d_used (fd_at st' i) = true -> d_used (fd_at st' j) = true ->
     d_owner (fd_at st' i) = d_owner (fd_at st' j) -> d_number (fd_at st' i) = d_number (fd_at st' j) -> i = j) /\
  (forall i, slot i -> d_used (fd_at st' i) = true -> 0 <= d_number (fd_at st' i) < VFS_MAX_FDS).
Proof.
  intros Hboot. cbv zeta. apply init_inv in Hboot.
  assert (Hinv : vfs_inv (run_vfs l (vfs_init st))).
  { revert Hboot. generalize (vfs_init st). clear st. induction l as [|op l IH]; intros st Hinv; simpl; [done|]. apply IH. by apply run_op_inv. }
  split; [apply Hinv|]. split; [apply Hinv|]. split; [apply Hinv|]. intros i Hi Hu. by apply (vi_fd _ Hinv i Hi Hu).
Qed.

(** Descriptors behave as a map from numbers to what they refer to.
    [vfs_dup] gives the lowest free number to what the source refers to and
    changes no other descriptor of any task; [vfs_dup2] gives it the number
    asked for, replacing what it referred to; [vfs_close] takes away exactly
    one number that is not a standard stream.  Otherwise they fail and nothing
    but the standard streams of the caller is added. *)
Theorem vfs_dup_correct number destination owner st : vfs_inv st ->
  let st1 := ensure_standard_streams owner st in
  (let '(r, st') := vfs_dup number owner st in
   (r = -1 /\ st' = st1) \/
   (0 <= r < VFS_MAX_FDS /\ view st1 owner r = None /\ (forall m, 0 <= m < r -> view st1 owner m <> None) /\
    is_Some (view st1 owner number) /\ forall o n, view st' o n = view_set st1 owner r (view st1 owner number) o n)) /\
  (let '(r, st') := vfs_dup2 number destination owner st in
   (r = -1 /\ (st' = st \/ st' = st1) /\ (0 <= destination < VFS_MAX_FDS -> is_Some (view st1 owner number) ->
      view st1 owner destination = None /\ allocate_slot st1 = None)) \/
   (r = destination /\ 0 <= destination < VFS_MAX_FDS /\ is_Some (view st1 owner number) /\
    forall o n, view st' o n = view_set st1 owner destination (view st1 owner number) o n)) /\
  (let '(r, st') := vfs_close number owner st in
   (r = -1 /\ st' = st /\ (view st owner number = None \/ number < 3)) \/
   (r = 0 /\ 3 <= number /\ is_Some (view st owner number) /\ forall o n, view st' o n = view_set st owner number None o n)).
Proof.
  intros Hinv. cbv zeta. split; [|split].
  - pose proof (dup_spec number owner st Hinv) as H. destruct (vfs_dup _ _ _) as (r, st').
    destruct H as (_ & [(-> & -> & _)|H]); [by left | right; exact H].
  - pose proof (dup2_spec number destination owner st Hinv) as H. destruct (vfs_dup2 _ _ _ _) as (r, st').
    destruct H as (_ & [(-> & H1 & H2)|H]); [left | right; exact H]. split; [done|]. split; [done|].
    intros Hd (x & Hx). destruct H2 as [|[|]]; [done | congruence | done].
  - pose proof (close_spec number owner st Hinv) as H. destruct (vfs_close _ _ _) as (r, st'). apply H.
Qed.

(** C27 [vfs_fork] succeeds exactly when there are as many free slots as the
    parent has descriptors.  Then the child's numbers refer to what the
    parent's do, so that they share offsets and pipes, and no other task's
    descriptors change; otherwise the child has none. *)
Theorem vfs_fork_correct parent child st : vfs_inv st -> parent <> child ->
  let '(ok, st') := vfs_fork parent child st in
  let st1 := ensure_standard_streams parent st in
  let st2 := vfs_close_all child st1 in
  ok = (owned st2 parent 0 <=? available st2) /\
  (forall o n, o <> child -> view st' o n = view st1 o n) /\
  (forall n, view st' child n = if ok then view st1 parent n else None).
Proof. intros Hinv Hne. pose proof (fork_spec parent child st Hinv Hne) as H. destruct (vfs_fork parent child st). apply H. Qed.

End Calls.

(** ** Files *)

Section Files.
Context {A F : Type} `{Allocator A}.
Variable fat32_ops : vfs_fs_ops F.
Implicit Type st : vfs (ramfs A * F).

(** The descriptor is open on the ramfs file [path]. *)
Definition open_on st (owner number f : Z) (path : cstr) : Prop :=
  3 <= number /\ exists name, view st owner number = Some (mk_target name (Some f) DEVFS_DEVICE_NONE None VFS_PIPE_NONE) /\
  path_ops (kernel_ops fat32_ops) name st = (Some ramfs_ops, path).

Lemma open_on_ext st st' owner number f path : descriptors st' = descriptors st -> mounts st' = mounts st ->
  open_on st owner number f path -> open_on st' owner number f path.
Proof.
  intros Ed Em (Hn & name & Hv & Hp). split; [done|]. exists name. rewrite (view_ext st st' Ed). split; [done|].
  unfold path_ops in *. by rewrite Em.
Qed.

Lemma open_on_ensure st owner number f path : vfs_inv st -> open_on st owner number f path ->
  open_on (ensure_standard_streams owner st) owner number f path.
Proof.
  intros Hinv (Hn & name & Hv & Hp). destruct (ensure_spec owner st Hinv) as (_ & _ & _ & Em & _ & _ & _ & Hview).
  split; [done|]. exists name. split.
  - destruct (Hview owner number) as [->|(_ & ? & _)]; [done | lia].
  - unfold path_ops in *. by rewrite Em.
Qed.

Lemma open_on_slot st owner number f path : vfs_inv st -> open_on st owner number f path ->
  exists i name, lookup owner number st = Some i /\ d_mode (fd_at st i) = VFS_PIPE_NONE /\ d_device (fd_at st i) = DEVFS_DEVICE_NONE /\
    d_file (fd_at st i) = Some f /\ d_name (fd_at st i) = name /\ path_ops (kernel_ops fat32_ops) name st = (Some ramfs_ops, path).
Proof.
  intros Hinv (Hn & name & Hv & Hp). unfold view in Hv. apply fmap_Some in Hv as (i & El & E). exists i, name.
  unfold target_of in E. simpl in E. injection E. intros. done.
Qed.

Lemma write_file st owner number f path bytes length : vfs_inv st -> open_on st owner number f path ->
  length <= RAMFS_DATA_SIZE -> let st1 := ensure_standard_streams owner st in
  vfs_write (kernel_ops fat32_ops) number (Some bytes) length owner st =
    let '(ok, ram) := ramfs_write (Some path) (Some bytes) length (fst (fs st1)) in
    let st2 := with_fs st1 (ram, snd (fs st1)) in
    if ok then (OutReturn 0 length, set_open st2 f (mk_open_file (o_used (file_at st1 f)) (o_references (file_at st1 f)) length))
    else (OutReturn (-1) 0, st2).
Proof.
  intros Hinv Hopen Hl st1. pose proof (open_on_ensure _ _ _ _ _ Hinv Hopen) as Hopen1. destruct (ensure_spec owner st Hinv) as (Hinv1 & _).
  destruct (open_on_slot _ _ _ _ _ Hinv1 Hopen1) as (i & name & El & Em & Edev & Ef & En & Ep). fold st1 in El, Em, Edev, Ef, En, Ep.
  unfold vfs_write. fold st1. rewrite El. destruct (Z.ltb_spec RAMFS_DATA_SIZE length); [lia|]. rewrite Em, Edev, En, Ep, Ef.
  rewrite !bool_decide_true by done. cbn [negb]. destruct Hopen as (Hn & _). rewrite (proj2 (Z.eqb_neq number 0)) by lia.
  unfold ramfs_ops. cbn [op_write]. destruct (ramfs_write _ _ _ _) as (ok, ram). by destruct ok.
Qed.

Lemma read_file st owner number f path length : vfs_inv st -> open_on st owner number f path ->
  let st1 := ensure_standard_streams owner st in
  vfs_read (kernel_ops fat32_ops) number true length owner st =
    match ramfs_read path true true RAMFS_DATA_SIZE (fst (fs st1)) with
    | None => (IoReturn (-1) [], st1)
    | Some data =>
        let offset := o_offset (file_at st1 f) in
        if alen data <=? offset then (IoReturn 0 [], st1)
        else let n := if length <? alen data -! offset then length else alen data -! offset in
             (IoReturn 0 (take (Z.to_nat n) (drop (Z.to_nat offset) data)),
              set_open st1 f (mk_open_file (o_used (file_at st1 f)) (o_references (file_at st1 f)) (offset +! n)))
    end.
Proof.
  intros Hinv Hopen st1. pose proof (open_on_ensure _ _ _ _ _ Hinv Hopen) as Hopen1. destruct (ensure_spec owner st Hinv) as (Hinv1 & _).
  destruct (open_on_slot _ _ _ _ _ Hinv1 Hopen1) as (i & name & El & Em & Edev & Ef & En & Ep). fold st1 in El, Em, Edev, Ef, En, Ep.
  unfold vfs_read. fold st1. rewrite El, Em, Edev, En, Ep, Ef.
  rewrite !bool_decide_true by done. cbn [negb]. destruct Hopen as (Hn & _).
  rewrite (proj2 (Z.eqb_neq number 1)), (proj2 (Z.eqb_neq number 2)), (proj2 (Z.ltb_ge number 3)) by lia.
  assert (Efs : forall s', with_fs st1 (fs st1) = s' -> s' = st1) by (intros ? <-; by destruct st1).
  unfold ramfs_ops. cbn [op_read orb]. rewrite (Efs _ eq_refl). destruct (ramfs_read _ _ _ _ _); done.
Qed.

Lemma seek_start st owner number f path size : vfs_inv st -> open_on st owner number f path ->
  ramfs_stat path true (fst (fs st)) = Some size -> 0 <= size ->
  vfs_seek (kernel_ops fat32_ops) number 0 0 owner st = (0, set_open st f (mk_open_file (o_used (file_at st f)) (o_references (file_at st f)) 0)).
Proof.
  intros Hinv Hopen Hstat Hsize. destruct (open_on_slot _ _ _ _ _ Hinv Hopen) as (i & name & El & Em & Edev & Ef & En & Ep).
  unfold vfs_seek. rewrite El, Em, Edev, En, Ep, Ef. rewrite !bool_decide_true by done. destruct Hopen as (Hn & _).
  rewrite (proj2 (Z.ltb_ge number 3)) by lia. cbn [negb orb]. unfold ramfs_ops. cbn [op_stat]. rewrite Hstat. cbn [Z.eqb].
  rewrite (proj2 (Z.ltb_ge size (u64 (0 + 0)))) by (change (u64 (0 + 0)) with 0; lia). destruct st. done.
Qed.

(** C28 What is written to a ramfs file is read back: after a successful
    [vfs_write] of [bytes] the file of the descriptor has exactly these bytes
    and no other file has changed, [vfs_seek] to the start succeeds, and
    [vfs_read] then returns the first [length] of them and moves the offset
    behind them. *)
Theorem vfs_file_roundtrip st owner number f path bytes length rest M :
  vfs_inv st -> open_on st owner number f path -> slot f -> ramfs_rep rest (fst (fs st)) M ->
  alen path < RAMFS_NAME_SIZE -> Forall (fun b => 0 <= b < 2 ^ 8) bytes -> 0 <= length ->
  let '(r, st1) := vfs_write (kernel_ops fat32_ops) number (Some bytes) (alen bytes) owner st in
  r = OutReturn 0 (alen bytes) ->
  let '(p, st2) := vfs_seek (kernel_ops fat32_ops) number 0 0 owner st1 in
  let '(result, st3) := vfs_read (kernel_ops fat32_ops) number true length owner st2 in
  ramfs_rep rest (fst (fs st1)) (<[path := bytes]> M) /\ p = 0 /\
  result = IoReturn 0 (take (Z.to_nat length) bytes) /\ o_offset (file_at st3 f) = Z.min length (alen bytes).
Proof.
  intros Hinv Hopen Hf Hrep Hpath Hbytes Hlen. pose proof (write_inv (kernel_ops fat32_ops) number (Some bytes) (alen bytes) owner st Hinv) as Hinv1.
  destruct (Z.leb_spec (alen bytes) RAMFS_DATA_SIZE) as [Hfit|Hbig].
  2:{ unfold vfs_write. destruct (lookup _ _ _); [|done]. rewrite (proj2 (Z.ltb_lt _ _)) by lia. done. }
  pose proof (open_on_ensure _ _ _ _ _ Hinv Hopen) as Hopen'. destruct (ensure_spec owner st Hinv) as (Hinv' & Hst).
  rewrite (write_file st owner number f path) in * by done. cbv zeta in *.
  generalize dependent (ensure_standard_streams owner st). intros st' Hinv1 Hopen' Hinv' (_ & _ & _ & Efs & _).
  rewrite Efs in *. pose proof (write_rep rest _ M path bytes Hrep (conj Hpath Hbytes)) as Hw.
  destruct (ramfs_write _ _ _ _) as ([], ram); [|done]. intros _. cbn [snd] in Hinv1. destruct Hw as (M' & Hrep1 & Hspec).
  assert (M' = <[path := bytes]> M) as -> by (by inversion Hspec).
  set (st1 := set_open _ f _) in *. assert (Hopen1 : open_on st1 owner number f path) by (by apply (open_on_ext st')).
  assert (Hstat : ramfs_stat path true (fst (fs st1)) = Some (alen bytes)).
  { unfold st1. simpl. rewrite (stat_rep rest ram _ path Hrep1), lookup_insert_eq. done. }
  pose proof (seek_inv (kernel_ops fat32_ops) number 0 0 owner st1 Hinv1) as Hinv2.
  rewrite (seek_start st1 owner number f path (alen bytes)) in * by (done || apply alen_nonneg). cbn [snd] in Hinv2.
  set (st2 := set_open st1 f _) in *. assert (Hopen2 : open_on st2 owner number f path) by (by apply (open_on_ext st1)).
  destruct (ensure_spec owner st2 Hinv2) as (Hinv3 & Eo & _ & _ & Efs2 & _).
  rewrite (read_file st2 owner number f path) by done. cbv zeta.
  rewrite Efs2. change (fst (fs st2)) with ram. rewrite (read_rep rest ram _ path RAMFS_DATA_SIZE Hrep1), lookup_insert_eq by done.
  cbn [fmap option_fmap option_map]. rewrite take_ge by (unfold alen in Hfit; lia).
  assert (Eat : file_at (ensure_standard_streams owner st2) f = mk_open_file (o_used (file_at st1 f)) (o_references (file_at st1 f)) 0).
  { unfold file_at. rewrite Eo. fold (file_at st2 f). unfold st2. rewrite file_at_set by (try apply Hinv1; done). by rewrite decide_True. }
  rewrite Eat. cbn [o_offset o_used o_references]. pose proof (alen_nonneg bytes). unfold RAMFS_DATA_SIZE in *.
  destruct (Z.leb_spec (alen bytes) 0) as [Hz|Hpos].
  { assert (bytes = []) as -> by (destruct bytes; [done | unfold alen in Hz; simpl in Hz; lia]). rewrite take_nil, Eat.
    split_and!; try done. unfold alen. simpl. lia. }
  rewrite u64_small by (unfold is_u64; lia). rewrite Z.sub_0_r, drop_0.
  rewrite file_at_set by (try apply Hinv3; done). rewrite decide_True by done. cbn [o_offset].
  destruct (Z.ltb_spec length (alen bytes)).
  - rewrite u64_small by (unfold is_u64; lia). split_and!; try done. lia.
  - rewrite u64_small by (unfold is_u64; lia). split_and!; try done; [|lia]. f_equal. rewrite !take_ge; [done | | ]; unfold alen in *; lia.
Qed.

End Files.

(** ** A run on the kernel's tables *)

Definition no_disk : vfs_fs_ops unit :=
  mk_ops None None (fun _ s => (None, s)) (fun _ s => (false, s)) (fun _ _ s => ((0, None), s)) (fun _ s => (false, s))
    (fun _ s => (false, s)) (fun _ s => (false, s)) (fun _ s => (false, s)) (fun s => (true, s)) None.

Definition boot_vfs : vfs (ramfs (heap vmm_state) * unit) :=
  mk_vfs (replicate 512 no_fd) (replicate 512 no_open_file) (replicate 8 no_mount)
    (replicate 16 (mk_pipe false 0 0 0 0 0 (replicate 4096 0))) (sample_fs, tt) (mk_tty idle_keyboard []) 0.

Lemma boot_vfs_tables : boot_tables boot_vfs.
Proof. by vm_compute. Qed.

(** Task 7 opens a file, duplicates it, makes a pipe and forks. *)
Definition sample_calls : list vfs_op :=
  [Open (Some (str "/notes")) true 7 (Some (str "/")); Dup 3 7; MakePipe true 7; Fork 7 8; Close 3 7].
Definition sample_vfs : vfs (ramfs (heap vmm_state) * unit) := run_vfs (kernel_ops no_disk) sample_calls (vfs_init boot_vfs).

Lemma sample_vfs_inv : vfs_inv sample_vfs.
Proof.
  unfold sample_vfs. assert (H := init_inv boot_vfs boot_vfs_tables). revert H. generalize (vfs_init boot_vfs). 
  generalize sample_calls. intros l. induction l as [|op l IH]; intros st Hinv; [done|]. apply (IH (run_op (kernel_ops no_disk) op st)). by apply run_op_inv.
Qed.

Lemma descriptor_refs_witness :
  o_references (file_at sample_vfs 0) = 3 /\ o_references (file_at sample_vfs 0) = file_refs sample_vfs 0 /\
  p_readers (pipe_at sample_vfs 0) = pipe_refs sample_vfs VFS_PIPE_READ 0.
Proof.
  destruct (descriptor_refs (kernel_ops no_disk) sample_calls boot_vfs boot_vfs_tables) as (H1 & H2 & _).
  split; [vm_compute; reflexivity|]. split.
  - refine (proj2 (H1 0 _) _); [split; [lia | done] | vm_compute; reflexivity].
  - refine (proj1 (proj2 (H2 0 _) _)); [split; [lia | done] | vm_compute; reflexivity].
Defined.

Lemma vfs_dup_correct_witness :
  fst (vfs_dup 4 7 sample_vfs) = 3 /\
  view (snd (vfs_dup2 4 20 7 sample_vfs)) 7 20 = view (ensure_standard_streams 7 sample_vfs) 7 4.
Proof.
  split; [vm_compute; reflexivity|].
  destruct (vfs_dup_correct 4 20 7 sample_vfs sample_vfs_inv) as (_ & H & _).
  assert (E : fst (vfs_dup2 4 20 7 sample_vfs) = 20) by (vm_compute; reflexivity).
  destruct (vfs_dup2 4 20 7 sample_vfs) as (r, st'). cbn [fst snd] in *. subst r.
  destruct H as [(H & _)|(_ & _ & _ & H)]; [discriminate|]. rewrite H. unfold view_set. by rewrite decide_True.
Defined.

Lemma vfs_fork_correct_witness :
  view (snd (vfs_fork 7 9 sample_vfs)) 9 5 = view (ensure_standard_streams 7 sample_vfs) 7 5 /\
  is_Some (view sample_vfs 7 5).
Proof.
  split; [|eexists; vm_compute; reflexivity].
  pose proof (vfs_fork_correct 7 9 sample_vfs sample_vfs_inv) as H.
  assert (E : fst (vfs_fork 7 9 sample_vfs) = true) by (vm_compute; reflexivity).
  destruct (vfs_fork 7 9 sample_vfs) as (ok, st'). cbn [fst snd] in *. subst ok. apply H. discriminate.
Defined.

(** The same descriptors over a file system that has no such file yet. *)
Definition sample_files : vfs (ramfs (heap vmm_state) * unit) := with_fs sample_vfs (sample_fs, tt).

Lemma sample_open : open_on no_disk sample_files 7 4 0 (str "/notes").
Proof.
  split; [lia|]. exists (str "/notes"). split; [vm_compute; reflexivity|].
  assert (E : find_mount (str "/notes") (mounts sample_files) = None) by (vm_compute; reflexivity).
  unfold path_ops. rewrite E. reflexivity.
Qed.

Lemma vfs_file_roundtrip_witness :
  fst (vfs_write (kernel_ops no_disk) 4 (Some [5; 6; 7]) 3 7 sample_files) = OutReturn 0 3 /\
  let st1 := snd (vfs_write (kernel_ops no_disk) 4 (Some [5; 6; 7]) 3 7 sample_files) in
  let st2 := snd (vfs_seek (kernel_ops no_disk) 4 0 0 7 st1) in
  fst (vfs_read (kernel_ops no_disk) 4 true 2 7 st2) = IoReturn 0 [5; 6].
Proof.
  assert (Ew : fst (vfs_write (kernel_ops no_disk) 4 (Some [5; 6; 7]) 3 7 sample_files) = OutReturn 0 3) by (vm_compute; reflexivity).
  split; [exact Ew|].
  destruct (ramfs_init_rep [] (boot_ramfs ∅ sample_heap) sample_heap_alloc) as (ok & M & Hr & _); [reflexivity|].
  pose proof (vfs_file_roundtrip no_disk sample_files 7 4 0 (str "/notes") [5; 6; 7] 2 [] M (inv_with_fs _ _ sample_vfs_inv) sample_open) as H.
  change (alen [5; 6; 7]) with 3 in H.
  destruct (vfs_write (kernel_ops no_disk) 4 (Some [5; 6; 7]) 3 7 sample_files) as (r & st1). cbn [fst snd] in *.
  specialize (H (conj (Z.le_refl 0) eq_refl) Hr eq_refl). cbv zeta.
  destruct (vfs_seek (kernel_ops no_disk) 4 0 0 7 st1) as (p & st2). cbn [fst snd].
  destruct (vfs_read (kernel_ops no_disk) 4 true 2 7 st2) as (result & st3). cbn [fst snd].
  apply H; [|lia|exact Ew]. repeat (apply Forall_cons; split; [lia|]). apply Forall_nil_2.
Defined.

End VfsCorrect.
