(* ===== verification/VfsWake.v ===== *)
(** * VfsWake: no wake-up of a pipe is lost

    A task that waits on a pipe sleeps until [task_wake_blocked] is called and
    then tests its condition again.  Here: a descriptor call that ends a
    waiting condition of any pipe calls [task_wake_blocked]. *)

From S2P Require Import Prelude Memory Vmm KernelPages Kmalloc CString Ramfs Pipe Path Ps2 Devfs Vfs VfsRefs VfsCorrect.
Import Vmm.Vmm KernelPages.KernelPages Kmalloc.Kmalloc CString.CString Ramfs.Ramfs Pipe.Pipe Path.Path Ps2.Ps2 Devfs.Devfs Vfs.Vfs VfsRefs.VfsRefs VfsCorrect.VfsCorrect.
Local Open Scope Z_scope.

Module VfsWake.

Section Wake.
Context {S : Type}.
Variable ops : backend -> vfs_fs_ops S.
Implicit Type st : vfs S.

Definition pipes_ok st : Prop := forall k, pipe_slot k -> pipe_ok (pipe_at st k).

(** Whoever has to wait in [p] still has to in [q]. *)
Definition still_waits (p q : vfs_pipe) : Prop :=
  (pipe_reader_should_wait p = true -> pipe_reader_should_wait q = true) /\
  (pipe_writer_should_wait p = true -> pipe_writer_should_wait q = true).

(** Without a wake-up every waiting condition stands. *)
Record calm st st' : Prop := {
  ca_ok : pipes_ok st -> pipes_ok st';
  ca_wakes : wakes st <= wakes st';
  ca_waits : pipes_ok st -> wakes st' = wakes st -> forall k, pipe_slot k -> still_waits (pipe_at st k) (pipe_at st' k);
}.

Lemma calm_same st st' : pipes st' = pipes st -> wakes st' = wakes st -> calm st st'.
Proof. intros Ep Ew. unfold pipe_slot. split; [|lia|]; unfold pipes_ok, pipe_at; rewrite Ep; [done|]. intros. by split. Qed.

Lemma calm_trans st1 st2 st3 : calm st1 st2 -> calm st2 st3 -> calm st1 st3.
Proof.
  intros [O1 W1 P1] [O2 W2 P2]. split; [auto | lia|]. intros Hok E k Hk.
  destruct (P1 Hok ltac:(lia) k Hk), (P2 (O1 Hok) ltac:(lia) k Hk). split; auto.
Qed.

(** A wake-up after changes that keep the pipes well formed. *)
Lemma calm_wake st st' : (pipes_ok st -> pipes_ok st') -> wakes st' = wakes st -> calm st (task_wake_blocked st').
Proof. intros Hok E. split; [done | simpl; lia|]. intros _ E'. simpl in E'. lia. Qed.

Lemma pipes_ok_set st p q : alen (pipes st) = VFS_MAX_PIPES -> pipe_slot p -> pipe_ok q -> pipes_ok st -> pipes_ok (set_pipe st p q).
Proof. intros Hl Hp Hq Hok k Hk. rewrite pipe_at_set by done. destruct (decide (p = k)); [done | by apply Hok]. Qed.

Lemma calm_set st p q : alen (pipes st) = VFS_MAX_PIPES -> pipe_slot p ->
  (pipe_ok (pipe_at st p) -> pipe_ok q /\ still_waits (pipe_at st p) q) -> calm st (set_pipe st p q).
Proof.
  intros Hl Hp Hq. split; [|done|].
  - intros Hok. apply pipes_ok_set; try done. by apply Hq, Hok.
  - intros Hok _ k Hk. rewrite pipe_at_set by done. destruct (decide (p = k)) as [<-|]; [by apply Hq, Hok | by split].
Qed.

Lemma add_waits mode p : (p_used p = true -> 0 <= p_readers p <= 512 /\ 0 <= p_writers p <= 512) -> pipe_ok p ->
  pipe_ok (pipe_add_reference mode p) /\ still_waits p (pipe_add_reference mode p).
Proof.
  intros Hb Hok. split.
  - unfold pipe_add_reference. destruct (po_refs _ Hok). destruct mode; [done | |]; apply pipe_ok_refs; auto with coneos.
  - unfold still_waits, pipe_reader_should_wait, pipe_writer_should_wait, pipe_add_reference.
    destruct mode; [done | |]; cbn [p_used p_count p_readers p_writers]; (destruct (p_used p) eqn:Hu; [|done]); destruct (Hb eq_refl);
      (split; intros E; [try done | try done]); bool_prop; rewrite u64_small by (unfold is_u64; lia);
      (apply andb_true_intro; split; [apply Z.eqb_eq; lia|]; apply negb_true_iff, Z.eqb_neq; lia).
Qed.

Lemma calm_install i d st : vfs_inv st -> fd_ok d -> calm st (install i d st).
Proof.
  intros Hinv (_ & _ & Hp & _). unfold install.
  apply (calm_trans _ (open_file_retain_locked (d_file d) (set_fd st i d))); [by apply calm_same; destruct (d_file d)|].
  set (st1 := open_file_retain_locked _ _). assert (Ep : pipes st1 = pipes st) by (unfold st1; by destruct (d_file d)).
  unfold add_pipe. destruct (d_pipe d) as [k|] eqn:Ek; [|by apply calm_same]. pose proof (Hp k eq_refl) as Hk.
  apply calm_set; [rewrite Ep; apply Hinv | done|]. unfold pipe_at. rewrite Ep. fold (pipe_at st k). apply add_waits. intros Hu.
  destruct (vi_pipe _ Hinv k Hk) as (_ & E). destruct (E Hu) as (-> & ->).
  split; apply (refs_bound st (vi_fds _ Hinv)).
Qed.

Lemma calm_ensure owner st : vfs_inv st -> calm st (ensure_standard_streams owner st).
Proof. intros Hinv. destruct (ensure_spec owner st Hinv) as (_ & _ & E1 & _ & _ & _ & E2 & _). by apply calm_same. Qed.

(** Closing a descriptor keeps the pipes well formed; one that is no end of a
    pipe touches none. *)
Lemma close_pipes_ok i st : vfs_inv st -> slot i -> d_used (fd_at st i) = true -> pipes_ok st -> pipes_ok (close_slot i st).
Proof.
  intros Hinv Hi Hu Hok k Hk. unfold pipe_at. rewrite close_pipes. unfold drop_pipe.
  destruct (d_pipe (fd_at st i)) as [p|] eqn:Ep; [|by apply Hok]. destruct (pipe_used st i p Hinv Hi Hu Ep) as (Hp & _).
  fold (pipe_at (set_pipe st p (pipe_drop_reference_locked (d_mode (fd_at st i)) (pipe_at st p))) k).
  apply pipes_ok_set; try done; [apply Hinv|]. by apply drop_ok, Hok.
Qed.

Lemma close_no_pipe i st : vfs_inv st -> slot i -> d_used (fd_at st i) = true -> d_mode (fd_at st i) = VFS_PIPE_NONE ->
  pipes (close_slot i st) = pipes st.
Proof.
  intros Hinv Hi Hu Hm. rewrite close_pipes. destruct (vi_fd _ Hinv i Hi Hu) as (_ & _ & _ & H). apply H in Hm. by rewrite Hm.
Qed.

Lemma close_wakes i st : wakes (close_slot i st) = wakes st.
Proof. unfold close_slot, drop_pipe, open_file_release_locked. destruct (d_pipe (fd_at st i)), (d_file (fd_at st i)); try done; case_match; done. Qed.

Lemma calm_close number owner st : vfs_inv st -> calm st (snd (vfs_close number owner st)).
Proof.
  intros Hinv. unfold vfs_close. destruct (lookup owner number st) as [i|] eqn:El; [|by apply calm_same].
  apply (lookup_Some st owner number i Hinv) in El as (Hi & Hu & _). destruct (_ <? 3); [by apply calm_same|]. cbn [snd].
  destruct (negb _) eqn:E.
  - apply calm_wake; [by apply close_pipes_ok | apply close_wakes].
  - apply negb_false_iff, bool_decide_eq_true in E. apply calm_same; [by apply close_no_pipe | apply close_wakes].
Qed.

Lemma calm_close_all owner st : vfs_inv st -> calm st (vfs_close_all owner st).
Proof.
  intros Hinv. unfold vfs_close_all. set (body := fun i '(closed_pipe, st) => _).
  set (I := fun (j : Z) (s : bool * vfs S) => vfs_inv (snd s) /\ wakes (snd s) = wakes st /\ (pipes_ok st -> pipes_ok (snd s)) /\
    (fst s = false -> pipes (snd s) = pipes st)).
  assert (H : I (0 + Z.of_nat (trips 0 VFS_DESCRIPTOR_SLOTS)) (for_up (trips 0 VFS_DESCRIPTOR_SLOTS) 0 body (false, st))).
  { apply (for_up_ind I); [done|]. intros j (c, s) Hj (Hinv1 & Hw & Hok & Hp). unfold I. cbn [fst snd] in *.
    assert (Hsj : slot j) by (unfold slot; unfold trips in Hj; lia).
    unfold body. destruct (_ && _) eqn:E; [|done]. cbn [fst snd]. bool_prop. split; [by apply close_inv|]. rewrite close_wakes.
    split; [done|]. split; [intros; apply close_pipes_ok; auto|]. intros Ec.
    apply orb_false_iff in Ec as (Ec & Em). apply negb_false_iff, bool_decide_eq_true in Em. rewrite close_no_pipe by done. by apply Hp. }
  destruct (for_up _ _ _ _) as (c, s). unfold I in H. cbn [fst snd] in H. destruct H as (_ & Hw & Hok & Hp).
  destruct c; [by apply calm_wake | apply calm_same; auto].
Qed.

Lemma calm_installs st st' : installs st st' -> calm st st'.
Proof. induction 1 as [|st i d st' Hinv Hd _ IH]; [by apply calm_same|]. eapply calm_trans; [|exact IH]. by apply calm_install. Qed.

Lemma calm_dup number owner st : vfs_inv st -> calm st (snd (vfs_dup number owner st)).
Proof.
  intros Hinv. unfold vfs_dup. eapply calm_trans; [by apply (calm_ensure owner)|]. destruct (ensure_spec owner st Hinv) as (Hinv1 & _).
  generalize dependent (ensure_standard_streams owner st). intros st1 Hinv1.
  destruct (lookup owner number st1) as [source|] eqn:El; [|by apply calm_same].
  apply (lookup_Some st1 owner number source Hinv1) in El as (Hs & Hus & _).
  destruct (free_number 0 owner st1) as [r|] eqn:Er; [|by apply calm_same]. apply free_number_Some in Er as (Hr & _); [|done].
  destruct (allocate_slot st1) as [target|]; [|by apply calm_same]. cbn [snd].
  apply (calm_install target (with_owner (fd_at st1 source) owner r) st1 Hinv1).
  destruct (vi_fd _ Hinv1 source Hs Hus) as (_ & H). split; done.
Qed.

Lemma calm_dup2 source_number number owner st : vfs_inv st -> calm st (snd (vfs_dup2 source_number number owner st)).
Proof.
  intros Hinv. unfold vfs_dup2. destruct (_ || _) eqn:Eb; [by apply calm_same|].
  eapply calm_trans; [by apply (calm_ensure owner)|]. destruct (ensure_spec owner st Hinv) as (Hinv1 & _).
  generalize dependent (ensure_standard_streams owner st). intros st1 Hinv1.
  destruct (lookup owner source_number st1) as [source|] eqn:El; [|by apply calm_same].
  apply (lookup_Some st1 owner source_number source Hinv1) in El as (Hs & Hus & _ & Hnum).
  destruct (Z.eqb_spec source_number number) as [<-|Hne]; [by apply calm_same|].
  assert (Hd : fd_ok (with_owner (fd_at st1 source) owner number)).
  { destruct (vi_fd _ Hinv1 source Hs Hus) as (_ & H). split; [simpl; bool_prop; lia | done]. }
  destruct (lookup owner number st1) as [target|] eqn:Et; [|destruct (allocate_slot st1) as [target|] eqn:Ea; [|by apply calm_same]]; cbn [snd].
  - apply (lookup_Some st1 owner number target Hinv1) in Et as (Ht & Hut & _). rewrite Hut.
    fold (install target (with_owner (fd_at st1 source) owner number)
      (open_file_release_locked (d_file (fd_at st1 target)) (drop_pipe (d_pipe (fd_at st1 target)) (d_mode (fd_at st1 target)) st1))).
    rewrite install_over. pose proof (close_inv st1 target Hinv1 Ht Hut) as Hinv2.
    pose proof (calm_install target _ _ Hinv2 Hd) as [O W _]. apply calm_wake; [intros; by apply O, close_pipes_ok|].
    rewrite <- (close_wakes target st1). unfold install, add_pipe, open_file_retain_locked. destruct (d_pipe _), (d_file _); done.
  - apply allocate_slot_Some in Ea as (Ht & ->).
    fold (install target (with_owner (fd_at st1 source) owner number) st1).
    pose proof (calm_install target _ _ Hinv1 Hd) as [O W _]. apply calm_wake; [done|].
    unfold install, add_pipe, open_file_retain_locked. destruct (d_pipe _), (d_file _); done.
Qed.

Lemma open_kept name create owner cwd st : vfs_inv st ->
  pipes (snd (vfs_open ops name create owner cwd st)) = pipes st /\ wakes (snd (vfs_open ops name create owner cwd st)) = wakes st.
Proof.
  intros Hinv. unfold vfs_open. destruct name as [name|]; [|done]. destruct (_ || _); [done|].
  destruct (resolve_path cwd (Some name) true RAMFS_NAME_SIZE) as [absolute|]; [|done].
  destruct (path_ops ops absolute st) as ([o|], path); [|done].
  assert (Hop : let '(ok, st') := open_path o path create st in
    descriptors st' = descriptors st /\ open_files st' = open_files st /\ pipes st' = pipes st /\ wakes st' = wakes st).
  { unfold open_path. repeat case_match; simplify_eq; done. }
  destruct (open_path o path create st) as (ok, st0). destruct Hop as (E1 & E2 & E3 & E4).
  destruct (negb ok); [done|]. pose proof (inv_ext st st0 E1 E2 E3 Hinv) as Hinv0. rewrite <- E3, <- E4.
  destruct (ensure_spec owner st0 Hinv0) as (Hinv1 & _ & <- & _ & _ & _ & <- & _).
  generalize dependent (ensure_standard_streams owner st0). intros st1 Hinv1.
  destruct (free_number 3 owner st1); [|done]. pose proof (allocate_open_file_spec st1 Hinv1) as Ha.
  destruct (allocate_open_file_locked st1) as ([f|], st2); [destruct Ha as (_ & _ & ->) | by subst st2].
  destruct (allocate_slot st1); [done|]. unfold open_file_release_locked. by case_match.
Qed.

Lemma calm_pipe_call b owner st : vfs_inv st -> calm st (snd (vfs_pipe_call b owner st)).
Proof.
  intros Hinv. unfold vfs_pipe_call. destruct (negb b); [by apply calm_same|].
  eapply calm_trans; [by apply (calm_ensure owner)|]. destruct (ensure_spec owner st Hinv) as (Hinv1 & _).
  generalize dependent (ensure_standard_streams owner st). intros st1 Hinv1.
  destruct (find_up (trips 0 VFS_MAX_PIPES) 0 _) as [p|] eqn:Ep; [|by apply calm_same].
  apply find_up_Some in Ep as (Hp & Hup & _). assert (Hsp : pipe_slot p) by (unfold pipe_slot, trips in *; lia). bool_prop.
  destruct (two_numbers owner st1) as [(n0, n1)|]; [|by apply calm_same]. destruct (two_slots st1) as [(s0, s1)|]; [|by apply calm_same]. cbn [snd].
  apply (calm_trans _ (set_pipe st1 p (pipe_open (pipe_at st1 p)))); [|by apply calm_same].
  apply calm_set; [apply Hinv1 | done|]. intros Hok. split; [by apply open_ok, Hok|].
  unfold still_waits, pipe_reader_should_wait, pipe_writer_should_wait. rewrite Hup. done.
Qed.

Lemma calm_inherit parent child st : vfs_inv st -> calm st (snd (vfs_inherit_standard parent child st)).
Proof.
  intros Hinv. unfold vfs_inherit_standard. eapply calm_trans; [by apply (calm_ensure parent)|].
  destruct (ensure_spec parent st Hinv) as (Hinv1 & _). eapply calm_trans; [by apply (calm_close_all child)|].
  destruct (close_all_spec child _ Hinv1) as (Hinv2 & Hview2). generalize dependent (vfs_close_all child (ensure_standard_streams parent st)).
  intros st2 Hinv2 Hview2. destruct (decide (parent = child)) as [->|Hne].
  - assert (El : lookup child 0 st2 = None) by (apply lookup_None, view_None; rewrite Hview2; by rewrite decide_True).
    cbn [inherit_numbers]. rewrite El. by apply calm_close_all.
  - pose proof (inherit_numbers_spec [0; 1; 2] parent child st2 Hinv2 Hne) as H.
    destruct (inherit_numbers [0; 1; 2] parent child st2) as (ok, st'). destruct H as (_ & (st3 & Hinv3 & Hins & ->) & _).
    { apply (bool_decide_unpack _). vm_compute. exact I. }
    { intros n _. rewrite Hview2. by rewrite decide_True. }
    eapply calm_trans; [by apply calm_installs|]. destruct ok; [by apply calm_same | by apply calm_close_all].
Qed.

Lemma calm_fork parent child st : vfs_inv st -> calm st (snd (vfs_fork parent child st)).
Proof.
  intros Hinv. assert (Hpre : calm st (vfs_close_all child (ensure_standard_streams parent st))).
  { eapply calm_trans; [by apply (calm_ensure parent)|]. by apply calm_close_all, ensure_spec. }
  destruct (decide (parent = child)) as [<-|Hne]; [by rewrite fork_self|].
  eapply calm_trans; [exact Hpre|]. clear Hpre. unfold vfs_fork. destruct (ensure_spec parent st Hinv) as (Hinv1 & _).
  destruct (close_all_spec child _ Hinv1) as (Hinv2 & Hview2). generalize dependent (vfs_close_all child (ensure_standard_streams parent st)).
  intros st2 Hinv2 Hview2. fold (available st2) (owned st2 parent 0). cbv zeta.
  destruct (Z.ltb_spec (available st2) (owned st2 parent 0)) as [|Hroom]; [by apply calm_same|].
  assert (Hchild : forall n, view st2 child n = None) by (intros n; rewrite Hview2; by rewrite decide_True).
  destruct (fork_slots_spec (trips 0 VFS_DESCRIPTOR_SLOTS) 0 parent child false st2 Hinv2 Hne (Z.le_refl 0) eq_refl Hroom (fun k _ _ => Hchild _))
    as (b & st' & -> & _ & Hins & _). cbn [negb snd].
  eapply calm_trans; [by apply calm_installs|]. destruct b; [by apply calm_wake | by apply calm_same].
Qed.

Definition length_ok (op : vfs_op) : Prop :=
  match op with
  | Read _ _ length _ => 0 <= length
  | Write _ (Some buffer) length _ => 0 <= length < 2 ^ 64 /\ length <= alen buffer
  | _ => True
  end.

Lemma calm_pipe_read mode length k st : vfs_inv st -> pipe_slot k -> 0 <= length ->
  let '(out, q) := pipe_read mode length (pipe_at st k) in
  match out with
  | ReadWait => calm st (set_pipe st k q)
  | ReadReturn _ bytes => calm st (if alen bytes =? 0 then set_pipe st k q else task_wake_blocked (set_pipe st k q))
  end.
Proof.
  intros Hinv Hk Hl. destruct (decide (mode = VFS_PIPE_READ)) as [->|Hm].
  2:{ unfold pipe_read. rewrite bool_decide_false by done. simpl. apply calm_set; [apply Hinv | done|]. by split. }
  pose proof (pipe_read_spec length (pipe_at st k)) as H. destruct (pipe_read _ _ _) as ([code bytes|], q).
  - destruct (Z.eqb_spec (alen bytes) 0) as [E|E].
    + apply calm_set; [apply Hinv | done|]. intros Hok. destruct (H Hok Hl) as (Hq & Hu & Hr & Hw & _ & Eb & Ec & Hnil). split; [done|].
      assert (bytes = []) as -> by (destruct bytes; [done | unfold alen in E; simpl in E; lia]).
      assert (contents q = contents (pipe_at st k)) as Es.
      { rewrite Ec. destruct (Hnil eq_refl) as [->|(-> & _)]; [done | by rewrite drop_nil]. }
      apply (f_equal alen) in Es. rewrite !contents_length in Es by done.
      unfold still_waits, pipe_reader_should_wait, pipe_writer_should_wait. by rewrite Hu, Hr, Hw, Es.
    + apply calm_wake; [|done]. intros Hok. apply pipes_ok_set; try done; [apply Hinv|]. by apply (H (Hok k Hk)).
  - apply calm_set; [apply Hinv | done|]. intros Hok. destruct (H Hok Hl) as (_ & _ & _ & _ & -> & _). by split.
Qed.

Lemma calm_pipe_write mode buffer k st : vfs_inv st -> pipe_slot k -> alen buffer < 2 ^ 64 ->
  let '(out, q) := pipe_write mode buffer 0 (pipe_at st k) in
  match out with
  | WriteMore _ => calm st (task_wake_blocked (set_pipe st k q))
  | _ => calm st (set_pipe st k q)
  end.
Proof.
  intros Hinv Hk Hl. destruct (decide (mode = VFS_PIPE_WRITE)) as [->|Hm].
  2:{ unfold pipe_write. rewrite bool_decide_false by done. simpl. apply calm_set; [apply Hinv | done|]. by split. }
  pose proof (pipe_write_spec buffer 0 (pipe_at st k)) as H. destruct (pipe_write _ _ _ _) as ([code n|n|n], q).
  - apply calm_set; [apply Hinv | done|]. intros Hok. destruct (H Hok ltac:(lia) Hl) as (_ & _ & _ & _ & -> & _). by split.
  - apply calm_wake; [|done]. intros Hok. apply pipes_ok_set; try done; [apply Hinv|]. by apply (H (Hok k Hk)).
  - apply calm_set; [apply Hinv | done|]. intros Hok. destruct (H Hok ltac:(lia) Hl) as (Hq & Hu & Hr & Hw & _ & _ & _ & _ & Es). split; [done|].
    apply (f_equal alen) in Es. rewrite !contents_length in Es by done.
    unfold still_waits, pipe_reader_should_wait, pipe_writer_should_wait. by rewrite Hu, Hr, Hw, Es.
Qed.

Lemma calm_read number buffer length owner st : vfs_inv st -> 0 <= length -> calm st (snd (vfs_read ops number buffer length owner st)).
Proof.
  intros Hinv Hl. unfold vfs_read. eapply calm_trans; [by apply (calm_ensure owner)|]. destruct (ensure_spec owner st Hinv) as (Hinv1 & _).
  generalize dependent (ensure_standard_streams owner st). intros st1 Hinv1.
  destruct (lookup owner number st1) as [i|] eqn:El; [|by apply calm_same]. apply (lookup_Some st1 owner number i Hinv1) in El as (Hi & Hu & _).
  destruct (negb buffer); [by apply calm_same|]. destruct (negb _).
  - destruct (d_pipe (fd_at st1 i)) as [k|] eqn:Ep; [|by apply calm_same]. destruct (pipe_used st1 i k Hinv1 Hi Hu Ep) as (Hk & _).
    pose proof (calm_pipe_read (d_mode (fd_at st1 i)) length k st1 Hinv1 Hk Hl) as H.
    destruct (pipe_read _ _ _) as ([code bytes|], q); exact H.
  - apply calm_same; repeat case_match; simplify_eq; done.
Qed.

Lemma calm_write number buffer length owner st : vfs_inv st -> length_ok (Write number buffer length owner) ->
  calm st (snd (vfs_write ops number buffer length owner st)).
Proof.
  intros Hinv Hl. unfold vfs_write. eapply calm_trans; [by apply (calm_ensure owner)|]. destruct (ensure_spec owner st Hinv) as (Hinv1 & _).
  generalize dependent (ensure_standard_streams owner st). intros st1 Hinv1.
  destruct (lookup owner number st1) as [i|] eqn:El; [|by apply calm_same]. apply (lookup_Some st1 owner number i Hinv1) in El as (Hi & Hu & _).
  destruct buffer as [bytes|]; [|by apply calm_same]. destruct (_ <? length); [by apply calm_same|]. destruct (negb _).
  - destruct (d_pipe (fd_at st1 i)) as [k|] eqn:Ep; [|by apply calm_same]. destruct (pipe_used st1 i k Hinv1 Hi Hu Ep) as (Hk & _).
    pose proof (calm_pipe_write (d_mode (fd_at st1 i)) (take (Z.to_nat length) bytes) k st1 Hinv1 Hk) as H.
    destruct (pipe_write _ _ _ _) as ([code n|n|n], q); apply H; unfold length_ok, alen in *; rewrite length_take; lia.
  - apply calm_same; repeat case_match; simplify_eq; done.
Qed.

Lemma calm_op op st : vfs_inv st -> length_ok op -> calm st (run_op ops op st).
Proof.
  intros Hinv Hl. destruct op as [name create owner cwd|b owner|number owner|s d owner|number owner|owner|parent child|parent child|number b l owner|number b l owner|number o w owner]; cbn [run_op].
  - destruct (open_kept name create owner cwd st Hinv). by apply calm_same.
  - by apply calm_pipe_call.
  - by apply calm_dup.
  - by apply calm_dup2.
  - by apply calm_close.
  - by apply calm_close_all.
  - by apply calm_inherit.
  - by apply calm_fork.
  - by apply calm_read.
  - by apply calm_write.
  - unfold vfs_seek. apply calm_same; repeat case_match; simplify_eq; done.
Qed.

Lemma init_pipes_ok st : pipes_ok st -> pipes_ok (vfs_init st).
Proof.
  intros Hok k Hk. unfold vfs_init.
  assert (Hens : forall owner st', pipe_at (ensure_standard_streams owner st') k = pipe_at st' k).
  { intros owner st'. unfold ensure_standard_streams. generalize [(0, str "stdin"); (1, str "stdout"); (2, str "stderr")].
    intros streams. revert st'. induction streams as [|(n, name) streams IH]; intros st'; cbn [standard_streams]; [done|].
    destruct (lookup owner n st'); [apply IH|]. destruct (allocate_slot st'); [|done]. rewrite IH. done. }
  rewrite Hens. specialize (Hok k Hk). unfold pipe_at, aget in *. cbn [pipes with_mounts]. rewrite list_lookup_fmap.
  destruct (pipes st !! Z.to_nat k) as [p|]; simpl in *; [|done]. destruct Hok as [? ? ? ? ?]. by split.
Qed.

(** C26 No wake-up of a pipe is lost: after [vfs_init] and any sequence of
    descriptor calls, a further call after which a reader or a writer of some
    pipe that had to wait no longer has to calls [task_wake_blocked]. *)
Theorem no_lost_wakeup l op st : boot_tables st -> pipes_ok st -> Forall length_ok l -> length_ok op ->
  let st1 := run_vfs ops l (vfs_init st) in
  let st2 := run_op ops op st1 in
  forall k, pipe_slot k ->
    (pipe_reader_should_wait (pipe_at st1 k) = true /\ pipe_reader_should_wait (pipe_at st2 k) = false) \/
    (pipe_writer_should_wait (pipe_at st1 k) = true /\ pipe_writer_should_wait (pipe_at st2 k) = false) ->
    wakes st1 < wakes st2.
Proof.
  intros Hboot Hok Hl Hop. cbv zeta. assert (Hok0 : pipes_ok (vfs_init st)) by (by apply init_pipes_ok).
  assert (Hrun : vfs_inv (run_vfs ops l (vfs_init st)) /\ pipes_ok (run_vfs ops l (vfs_init st))).
  { apply init_inv in Hboot. revert Hboot Hok0. generalize (vfs_init st). clear st Hok.
    induction Hl as [|o l Ho _ IH]; intros st Hinv Hok; [done|]. apply (IH (run_op ops o st)); [by apply run_op_inv|].
    by apply (ca_ok _ _ (calm_op o st Hinv Ho)). }
  destruct Hrun as (Hinv1 & Hok1). generalize dependent (run_vfs ops l (vfs_init st)). intros st1 Hinv1 Hok1 k Hk Hwait.
  destruct (calm_op op st1 Hinv1 Hop) as [_ Hle Hsame]. destruct (decide (wakes (run_op ops op st1) = wakes st1)) as [E|]; [|lia].
  destruct (Hsame Hok1 E k Hk). destruct Hwait as [(H1 & H2)|(H1 & H2)]; exfalso; intuition congruence.
Qed.

End Wake.
(** The last write end of a pipe is closed. *)
Lemma no_lost_wakeup_witness :
  let st1 := run_vfs (kernel_ops no_disk) [MakePipe true 7] (vfs_init boot_vfs) in
  wakes st1 < wakes (run_op (kernel_ops no_disk) (Close 4 7) st1).
Proof.
  refine (no_lost_wakeup (kernel_ops no_disk) [MakePipe true 7] (Close 4 7) boot_vfs boot_vfs_tables _ _ _ 0 _ _).
  - intros k Hk. unfold pipe_at, aget. cbn [pipes boot_vfs].
    rewrite lookup_replicate_2 by (unfold pipe_slot, VFS_MAX_PIPES in Hk; lia). by split.
  - by apply Forall_singleton.
  - done.
  - split; [lia | done].
  - left. split; vm_compute; reflexivity.
Defined.

End VfsWake.
