(* ===== verification/Task.v ===== *)
(** * Task: the scheduler of src/kernel/task.c

    The task list in its order, each task with the address of its [struct
    task]; a task pointer is that address.  Memory for tasks, their stacks and
    their address spaces comes from the interface [TaskResources], which states
    what kmalloc.c, stack.c and vmm.c promise here.  Code that runs with
    interrupts off is atomic; [pit_uptime_ms()] is the argument [now]. *)

From S2P Require Import Prelude Memory Stack.
Import Memory.Memory Stack.Stack.
Local Open Scope Z_scope.

Module Task.

Definition TASK_STACK_SIZE : Z := 64 * 1024.
Definition TASK_FAULT_STACK_PAGES : Z := 4.
Definition TASK_STACK_PAGES : Z := TASK_STACK_SIZE / 4096.

Inductive task_state := TASK_READY | TASK_RUNNING | TASK_BLOCKED | TASK_SLEEPING | TASK_ZOMBIE.
#[export] Instance task_state_eq : EqDecision task_state.
Proof. solve_decision. Defined.

(** [&main_task], [vmm_kernel_space()] and the code address [task_bootstrap]. *)
Definition MAIN_TASK : Z := 1.
Definition KERNEL_SPACE : Z := 2.
Definition TASK_BOOTSTRAP : Z := 3.

Record task := mk_task {
  t_address : Z;
  t_stack_pointer : Z;
  t_id : Z;
  t_name : Z;
  t_state : task_state;
  t_entry : Z;
  t_argument : Z;
  t_stack : kernel_stack;
  t_fault_stack : kernel_stack;
  t_space : Z;
  t_owns_space : bool;
  t_wake_at_ms : Z;
}.

Definition with_state s t := mk_task (t_address t) (t_stack_pointer t) (t_id t) (t_name t) s (t_entry t) (t_argument t)
  (t_stack t) (t_fault_stack t) (t_space t) (t_owns_space t) (t_wake_at_ms t).
Definition with_space s t := mk_task (t_address t) (t_stack_pointer t) (t_id t) (t_name t) (t_state t) (t_entry t) (t_argument t)
  (t_stack t) (t_fault_stack t) s true (t_wake_at_ms t).
Definition with_wake w t := mk_task (t_address t) (t_stack_pointer t) (t_id t) (t_name t) TASK_SLEEPING (t_entry t) (t_argument t)
  (t_stack t) (t_fault_stack t) (t_space t) (t_owns_space t) w.
Definition with_stack_pointer p t := mk_task (t_address t) p (t_id t) (t_name t) (t_state t) (t_entry t) (t_argument t)
  (t_stack t) (t_fault_stack t) (t_space t) (t_owns_space t) (t_wake_at_ms t).
Definition no_stack : kernel_stack := mk_stack 0 0 0 0.
Definition no_task : task := mk_task 0 0 0 0 TASK_ZOMBIE 0 0 no_stack no_stack 0 false 0.

(** What a task owns. *)
Inductive resource := TaskBlock (address : Z) | StackPages (stack : kernel_stack) | Space (space : Z).

Class TaskResources (W : Type) := {
  task_alloc : W -> option Z * W;
  task_free : Z -> W -> W;
  stack_alloc : Z -> W -> option kernel_stack * W;
  stack_free : kernel_stack -> W -> W;
  space_destroy : Z -> W -> W;
  held : W -> list resource -> Prop;
  held_perm w l l' : l ≡ₚ l' -> held w l -> held w l';
  task_alloc_spec w l : held w l ->
    let '(a, w') := task_alloc w in
    match a with
    | None => held w' l
    | Some a => a <> 0 /\ a <> MAIN_TASK /\ (TaskBlock a ∉ l) /\ held w' (TaskBlock a :: l)
    end;
  task_free_spec w a l : held w (TaskBlock a :: l) -> held (task_free a w) l;
  stack_alloc_spec w n l : held w l ->
    let '(s, w') := stack_alloc n w in
    match s with
    | None => held w' l
    | Some s => top s mod 4096 = 0 /\ held w' (StackPages s :: l)
    end;
  stack_free_spec w s l : held w (StackPages s :: l) -> held (stack_free s w) l;
  space_destroy_spec w s l : held w (Space s :: l) -> held (space_destroy s w) l;
}.

Section Scheduler.
Context {W : Type} `{TaskResources W}.

Record scheduler := mk_scheduler {
  task_list : list task;
  current_task : Z;
  next_task_id : Z;
  preemption_enabled : bool;
  kernel_stack_top : Z;
  fault_stack_top : Z;
  active_space : Z;
  memory : mem;
  world : W;
}.

Definition with_tasks st l := mk_scheduler l (current_task st) (next_task_id st) (preemption_enabled st)
  (kernel_stack_top st) (fault_stack_top st) (active_space st) (memory st) (world st).
Definition with_world st w := mk_scheduler (task_list st) (current_task st) (next_task_id st) (preemption_enabled st)
  (kernel_stack_top st) (fault_stack_top st) (active_space st) (memory st) w.

(** Write through a task pointer, read through one. *)
Definition update (a : Z) (f : task -> task) (l : list task) : list task :=
  (fun t => if t_address t =? a then f t else t) <$> l.
Definition set_state (a : Z) (s : task_state) (st : scheduler) : scheduler := with_tasks st (update a (with_state s) (task_list st)).
Definition task_at (a : Z) (l : list task) : task := default no_task (list_find (fun t => t_address t = a) l ≫= fun '(_, t) => Some t).
Definition current (st : scheduler) : task := task_at (current_task st) (task_list st).

(** The loop of [remove_zombies] behind the first task. *)
Fixpoint sweep (current : Z) (l : list task) (w : W) : list task * W :=
  match l with
  | [] => ([], w)
  | task :: l =>
      if negb (t_address task =? current) && bool_decide (t_state task = TASK_ZOMBIE) then
        let w := stack_free (t_stack task) w in
        let w := stack_free (t_fault_stack task) w in
        let w := if t_owns_space task then space_destroy (t_space task) w else w in
        sweep current l (task_free (t_address task) w)
      else
        let '(l, w) := sweep current l w in (task :: l, w)
  end.

Definition remove_zombies (st : scheduler) : scheduler :=
  match task_list st with
  | [] => st
  | first :: l => let '(l, w) := sweep (current_task st) l (world st) in with_world (with_tasks st (first :: l)) w
  end.

(** Sleepers whose time has come. *)
Definition wake_sleepers (now : Z) (l : list task) : list task :=
  (fun t => if bool_decide (t_state t = TASK_SLEEPING) && (t_wake_at_ms t <=? now) then with_state TASK_READY t else t) <$> l.

(** [while (task != current_task)] from position [i] on, round the list. *)
Fixpoint ready_from (fuel : nat) (l : list task) (current i : Z) : option Z :=
  match fuel with
  | O => None
  | S fuel =>
      let task := aget no_task l i in
      if t_address task =? current then if bool_decide (t_state task = TASK_READY) then Some current else None
      else if bool_decide (t_state task = TASK_READY) then Some (t_address task)
      else ready_from fuel l current (if i + 1 <? alen l then i + 1 else 0)
  end.

Definition position (a : Z) (l : list task) : Z :=
  match list_find (fun t => t_address t = a) l with Some (i, _) => Z.of_nat i | None => alen l end.

Definition next_ready_task (now : Z) (st : scheduler) : option Z * scheduler :=
  let l := wake_sleepers now (task_list st) in
  let i := position (current_task st) l in
  (ready_from (S (length l)) l (current_task st) (if i + 1 <? alen l then i + 1 else 0), with_tasks st l).

(** [task_context_switch(&previous->stack_pointer, next->stack_pointer)] leaves
    [sp], the stack pointer of the code that called it, in [previous]. *)
Definition switch_to (next sp : Z) (st : scheduler) : scheduler :=
  let previous := current_task st in
  let st := set_state next TASK_RUNNING st in
  let t := task_at next (task_list st) in
  mk_scheduler (update previous (with_stack_pointer sp) (task_list st)) next (next_task_id st) (preemption_enabled st)
    (top (t_stack t)) (if next =? MAIN_TASK then 0 else top (t_fault_stack t)) (t_space t) (memory st) (world st).

(** The result says whether another task runs now. *)
Definition schedule (clean_zombies : bool) (now sp : Z) (st : scheduler) : bool * scheduler :=
  let st := if clean_zombies then remove_zombies st else st in
  let previous := current_task st in
  let st := if bool_decide (t_state (current st) = TASK_RUNNING) then set_state previous TASK_READY st else st in
  let '(next, st) := next_ready_task now st in
  match next with
  | None => (false, set_state previous TASK_RUNNING st)
  | Some next =>
      if next =? previous then (false, set_state previous TASK_RUNNING st)
      else (true, switch_to next sp st)
  end.

Definition task_yield (now sp : Z) (st : scheduler) : bool * scheduler := schedule true now sp st.
Definition task_preempt (now sp : Z) (st : scheduler) : bool * scheduler :=
  if preemption_enabled st then schedule false now sp st else (false, st).

(** The first result is false when the call reaches [__builtin_unreachable]. *)
Definition task_exit_current (now sp : Z) (st : scheduler) : bool * scheduler :=
  task_yield now sp (set_state (current_task st) TASK_ZOMBIE st).

Definition task_init (sp : Z) (st : scheduler) : scheduler :=
  let main := mk_task MAIN_TASK 0 0 1 TASK_RUNNING 0 0 (mk_stack 0 0 sp 0) no_stack KERNEL_SPACE false 0 in
  mk_scheduler [main] MAIN_TASK (next_task_id st) false (kernel_stack_top st) (fault_stack_top st) (active_space st) (memory st) (world st).

Definition task_enable_preemption (st : scheduler) : scheduler :=
  mk_scheduler (task_list st) (current_task st) (next_task_id st) true (kernel_stack_top st) (fault_stack_top st)
    (active_space st) (memory st) (world st).

(** The words pushed on a new stack: a return address 0, [task_bootstrap] and
    six saved registers. *)
Fixpoint push_words (words : list Z) (sp : Z) (m : mem) : Z * mem :=
  match words with
  | [] => (sp, m)
  | w :: words => push_words words (sp -! 8) (write64 m (sp -! 8) w)
  end.

(** [name], [entry], [argument] and [space] are pointers. *)
Definition task_create_in_space (name entry argument space : Z) (st : scheduler) : Z * scheduler :=
  if (name =? 0) || (entry =? 0) || (space =? 0) then (UINT64_MAX, st)
  else
    let '(a, w) := task_alloc (world st) in
    match a with
    | None => (UINT64_MAX, with_world st w)
    | Some a =>
        let '(stack, w) := stack_alloc TASK_STACK_PAGES w in
        match stack with
        | None => (UINT64_MAX, with_world st (task_free a w))
        | Some stack =>
            let '(fault_stack, w) := stack_alloc TASK_FAULT_STACK_PAGES w in
            match fault_stack with
            | None => (UINT64_MAX, with_world st (task_free a (stack_free stack w)))
            | Some fault_stack =>
                let '(sp, m) := push_words [0; TASK_BOOTSTRAP; 0; 0; 0; 0; 0; 0] (top stack) (memory st) in
                let task := mk_task a sp (next_task_id st) name TASK_READY entry argument stack fault_stack
                  space (negb (space =? KERNEL_SPACE)) 0 in
                (next_task_id st,
                 mk_scheduler (task_list st ++ [task]) (current_task st) (next_task_id st +! 1) (preemption_enabled st)
                   (kernel_stack_top st) (fault_stack_top st) (active_space st) m w)
            end
        end
    end.

Definition task_create (name entry argument : Z) (st : scheduler) : Z * scheduler :=
  task_create_in_space name entry argument KERNEL_SPACE st.

(** The first task with the id decides. *)
Definition task_cancel_ready (id : Z) (st : scheduler) : bool * scheduler :=
  match list_find (fun t => t_id t = id) (task_list st) with
  | None => (false, st)
  | Some (_, t) =>
      if (t_address t =? current_task st) || negb (bool_decide (t_state t = TASK_READY)) then (false, st)
      else (true, set_state (t_address t) TASK_ZOMBIE st)
  end.

(** The space that was replaced, 0 for NULL. *)
Definition task_replace_address_space (space : Z) (st : scheduler) : Z * scheduler :=
  if (space =? 0) || (space =? KERNEL_SPACE) then (0, st)
  else
    let t := current st in
    if negb (t_owns_space t) || (t_space t =? space) then (0, st)
    else
      (t_space t,
       mk_scheduler (update (current_task st) (with_space space) (task_list st)) (current_task st) (next_task_id st)
         (preemption_enabled st) (kernel_stack_top st) (fault_stack_top st) space (memory st) (world st)).

Definition task_count (st : scheduler) : Z * scheduler :=
  let st := remove_zombies st in (alen (task_list st), st).

(** The id, the name and the state. *)
Definition task_get_info (index : Z) (info : bool) (st : scheduler) : option (Z * Z * task_state) * scheduler :=
  if negb info then (None, st)
  else
    let st := remove_zombies st in
    ((fun t => (t_id t, t_name t, t_state t)) <$> task_list st !! Z.to_nat index, st).

Definition task_current_stack_guard (st : scheduler) : Z := guard_base (t_stack (current st)).
Definition task_current_stack_guard_contains (address : Z) (st : scheduler) : bool :=
  kernel_stack_contains_guard (Some (t_stack (current st))) address.
Definition task_current_id (st : scheduler) : Z := t_id (current st).

(** [should_block] is what the callback answers; None for NULL. *)
Definition task_block_current_if (should_block : option bool) (now sp : Z) (st : scheduler) : bool * scheduler :=
  match should_block with
  | Some false => (false, st)
  | _ => (true, snd (task_yield now sp (set_state (current_task st) TASK_BLOCKED st)))
  end.
Definition task_block_current (now sp : Z) (st : scheduler) : scheduler := snd (task_block_current_if None now sp st).

Definition task_wake_blocked (st : scheduler) : scheduler :=
  with_tasks st ((fun t => if bool_decide (t_state t = TASK_BLOCKED) then with_state TASK_READY t else t) <$> task_list st).

(** [later] is the time when [task_yield] runs. *)
Definition task_sleep_ms (milliseconds now later sp : Z) (st : scheduler) : scheduler :=
  if milliseconds =? 0 then snd (task_yield later sp st)
  else
    let wake := if UINT64_MAX -! now <? milliseconds then UINT64_MAX else now +! milliseconds in
    snd (task_yield later sp (with_tasks st (update (current_task st) (with_wake wake) (task_list st)))).

(** ** Lists of tasks *)

Definition addresses (l : list task) : list Z := t_address <$> l.
Definition keeps_address (f : task -> task) : Prop := forall t, t_address (f t) = t_address t.
Definition ready (t : task) : bool := bool_decide (t_state t = TASK_READY).

Lemma addresses_map f l : keeps_address f -> addresses (f <$> l) = addresses l.
Proof. intros Hf. unfold addresses. rewrite <- list_fmap_compose. apply list_fmap_ext. intros i t _. apply Hf. Qed.

Lemma addresses_update a f l : keeps_address f -> addresses (update a f l) = addresses l.
Proof. intros Hf. apply addresses_map. intros t. destruct (_ =? _); [apply Hf | done]. Qed.

Lemma addresses_wake now l : addresses (wake_sleepers now l) = addresses l.
Proof. apply addresses_map. intros t. by destruct (_ && _). Qed.

Lemma task_at_elem l t : NoDup (addresses l) -> t ∈ l -> task_at (t_address t) l = t.
Proof.
  intros Hnd Ht. unfold task_at. induction l as [|x l IH]; [by apply elem_of_nil in Ht|]. simpl.
  apply NoDup_cons in Hnd as (Hx & Hnd). destruct (decide (t_address x = t_address t)) as [E|Hne].
  - apply elem_of_cons in Ht as [->|Ht]; [done|]. exfalso. apply Hx. rewrite E. by apply list_elem_of_fmap_2.
  - apply elem_of_cons in Ht as [->|Ht]; [done|]. specialize (IH Hnd Ht).
    destruct (list_find (fun t0 => t_address t0 = t_address t) l) as [(i, y)|]; done.
Qed.

Lemma task_at_in l a : a ∈ addresses l -> task_at a l ∈ l /\ t_address (task_at a l) = a.
Proof.
  unfold task_at. induction l as [|x l IH]; intros Ha; [by apply elem_of_nil in Ha|]. simpl.
  destruct (decide (t_address x = a)) as [E|Hne]; [simpl; split; [by left | done]|].
  apply elem_of_cons in Ha as [->|Ha]; [done|]. destruct (IH Ha) as (H1 & H2).
  destruct (list_find (fun t0 => t_address t0 = a) l) as [(i, y)|]; simpl in *; [split; [by right | done]|].
  split; [by right | done].
Qed.

Lemma task_at_map f l a : keeps_address f -> a ∈ addresses l -> task_at a (f <$> l) = f (task_at a l).
Proof.
  intros Hf. unfold task_at. induction l as [|x l IH]; intros Ha; [by apply elem_of_nil in Ha|]. rewrite fmap_cons. cbn [list_find]. rewrite Hf.
  destruct (decide (t_address x = a)) as [E|Hne]; [done|]. apply elem_of_cons in Ha as [->|Ha]; [done|]. specialize (IH Ha).
  destruct (list_find (fun t0 => t_address t0 = a) l) as [(i, y)|], (list_find (fun t0 => t_address t0 = a) (f <$> l)) as [(j, z)|]; simpl in *; exact IH.
Qed.

Lemma task_at_update b f l a : keeps_address f -> a ∈ addresses l ->
  task_at a (update b f l) = if decide (a = b) then f (task_at a l) else task_at a l.
Proof.
  intros Hf Ha. unfold update. rewrite task_at_map; [|intros t; destruct (_ =? _); [apply Hf | done]|done].
  destruct (task_at_in l a Ha) as (_ & ->). destruct (Z.eqb_spec a b), (decide (a = b)); done.
Qed.

(** ** Round robin *)

Fixpoint first_ready (l : list task) : option Z :=
  match l with
  | [] => None
  | t :: l => if ready t then Some (t_address t) else first_ready l
  end.

Lemma aget_middle (l1 : list task) t l2 : aget no_task (l1 ++ t :: l2) (alen l1) = t.
Proof. unfold aget, alen. rewrite Nat2Z.id, list_lookup_middle; done. Qed.

(** Up to the current task. *)
Lemma ready_from_to l1 l2 cur l3 fuel : (forall t, t ∈ l2 -> t_address t <> t_address cur) -> (length l2 < fuel)%nat ->
  ready_from fuel (l1 ++ l2 ++ cur :: l3) (t_address cur) (alen l1) = first_ready (l2 ++ [cur]).
Proof.
  revert l1 fuel. induction l2 as [|t l2 IH]; intros l1 fuel Hne Hfuel; (destruct fuel as [|fuel]; [simpl in Hfuel; lia|]); simpl.
  - rewrite aget_middle, Z.eqb_refl. done.
  - rewrite aget_middle. rewrite (proj2 (Z.eqb_neq _ _)) by (apply Hne; by left). fold (ready t). destruct (ready t); [done|].
    replace (alen l1 + 1) with (alen (l1 ++ [t])) by (unfold alen; rewrite length_app; simpl; lia).
    rewrite (proj2 (Z.ltb_lt _ _)) by (unfold alen; rewrite !length_app; simpl; rewrite length_app; simpl; lia).
    change (t :: l2 ++ cur :: l3) with ([t] ++ (l2 ++ cur :: l3)). rewrite (assoc (++) l1 [t]). apply (IH (l1 ++ [t])); [intros x Hx; apply Hne; by right | simpl in Hfuel; lia].
Qed.

(** Behind the current task to the end, then from the start. *)
Lemma ready_from_wrap l1 l2 cur fuel l : l = l1 ++ l2 -> l2 <> [] -> (forall t, t ∈ l2 -> t_address t <> cur) ->
  ready_from (length l2 + fuel) l cur (alen l1) =
    match first_ready l2 with Some a => Some a | None => ready_from fuel l cur 0 end.
Proof.
  revert l1. induction l2 as [|t l2 IH]; intros l1 E Hnil Hne; [done|]. cbn [length Nat.add ready_from].
  rewrite E, aget_middle. rewrite (proj2 (Z.eqb_neq _ _)) by (apply Hne; by left). fold (ready t). simpl. destruct (ready t); [done|].
  rewrite <- E. replace (alen l1 + 1) with (alen (l1 ++ [t])) by (unfold alen; rewrite length_app; simpl; lia).
  destruct l2 as [|t2 l2].
  - rewrite (proj2 (Z.ltb_ge _ _)) by (rewrite E; unfold alen; rewrite !length_app; simpl; lia). done.
  - rewrite (proj2 (Z.ltb_lt _ _)) by (rewrite E; unfold alen; rewrite !length_app; simpl; lia).
    apply (IH (l1 ++ [t])); [by rewrite <- (assoc (++)) | done | intros x Hx; apply Hne; by right].
Qed.

Lemma position_middle pre cur post : (forall t, t ∈ pre -> t_address t <> t_address cur) ->
  position (t_address cur) (pre ++ cur :: post) = alen pre.
Proof.
  intros Hne. unfold position. induction pre as [|t pre IH]; simpl.
  - by rewrite decide_True.
  - rewrite decide_False by (apply Hne; by left). specialize (IH (fun x Hx => Hne x (list_elem_of_further _ _ _ Hx))).
    destruct (list_find _ (pre ++ cur :: post)) as [(i, x)|]; simpl in *; unfold alen in *; simpl; [lia|].
    rewrite !length_app in *. simpl in *. lia.
Qed.

(** [next_ready_task] finds the first ready task behind the current one, round
    the list, and the current one last. *)
Lemma next_ready_spec now st pre cur post : wake_sleepers now (task_list st) = pre ++ cur :: post ->
  t_address cur = current_task st -> NoDup (addresses (task_list st)) ->
  next_ready_task now st = (first_ready (post ++ pre ++ [cur]), with_tasks st (pre ++ cur :: post)).
Proof.
  intros El Ec Hnd. unfold next_ready_task. rewrite El. f_equal.
  rewrite <- (addresses_wake now), El in Hnd. unfold addresses in Hnd. rewrite fmap_app, fmap_cons in Hnd.
  apply NoDup_app in Hnd as (_ & Hpre & Hcons). apply NoDup_cons in Hcons as (Hpost & _).
  assert (Hp1 : forall t, t ∈ pre -> t_address t <> t_address cur).
  { intros t Ht E. apply (Hpre (t_address t)); [by apply list_elem_of_fmap_2|]. rewrite E. by left. }
  assert (Hp2 : forall t, t ∈ post -> t_address t <> t_address cur).
  { intros t Ht E. apply Hpost. rewrite <- E. by apply list_elem_of_fmap_2. }
  rewrite <- Ec, position_middle by done.
  assert (Hall : forall fuel, (length pre < fuel)%nat -> ready_from fuel (pre ++ cur :: post) (t_address cur) 0 = first_ready (pre ++ [cur])).
  { intros fuel Hf. by apply (ready_from_to [] pre cur post). }
  destruct post as [|p post].
  - rewrite (proj2 (Z.ltb_ge _ _)) by (unfold alen; rewrite length_app; simpl; lia). rewrite Hall; [done|].
    rewrite length_app. simpl. lia.
  - rewrite (proj2 (Z.ltb_lt _ _)) by (unfold alen; rewrite length_app; simpl; lia).
    replace (alen pre + 1) with (alen (pre ++ [cur])) by (unfold alen; rewrite length_app; simpl; lia).
    replace (S (length (pre ++ cur :: p :: post))) with (length (p :: post) + S (S (length pre)))%nat by (rewrite length_app; simpl; lia).
    rewrite (ready_from_wrap (pre ++ [cur]) (p :: post)); [|by rewrite <- (assoc (++))|done|done]. rewrite Hall by lia.
    clear. revert pre cur. generalize (p :: post). intros l pre cur. induction l as [|t l IH]; simpl; [done|]. by destruct (ready t).
Qed.

(** ** The invariant *)

Definition owned (t : task) : list resource :=
  TaskBlock (t_address t) :: StackPages (t_stack t) :: StackPages (t_fault_stack t) :: (if t_owns_space t then [Space (t_space t)] else []).
Definition owned_by (l : list task) : list resource := concat (owned <$> l).

(** Between two operations the current task is the one that runs; inside one
    it may have another state already.  [rest] is what others hold. *)
Record sched_pre (rest : list resource) (st : scheduler) : Prop := {
  so_main : exists m l, task_list st = m :: l /\ t_address m = MAIN_TASK /\ t_owns_space m = false;
  so_nodup : NoDup (addresses (task_list st));
  so_current : current_task st ∈ addresses (task_list st);
  so_running : forall t, t ∈ task_list st -> t_state t = TASK_RUNNING -> t_address t = current_task st;
  so_ids : NoDup (t_id <$> task_list st) /\ Forall (fun t => 0 <= t_id t < next_task_id st) (task_list st);
  so_spaces : Forall (fun t => t_space t <> 0) (task_list st);
  so_held : held (world st) (owned_by (tail (task_list st)) ++ rest);
}.

Definition sched_ok (rest : list resource) (st : scheduler) : Prop :=
  sched_pre rest st /\ t_state (current st) = TASK_RUNNING.

(** A change of tasks that keeps who they are and what they own. *)
Definition keeps_owned (f : task -> task) : Prop := forall t, t_address (f t) = t_address t /\ t_id (f t) = t_id t /\ t_owns_space (f t) = t_owns_space t /\ t_space (f t) = t_space t /\ owned (f t) = owned t.

Lemma owned_by_map f l : keeps_owned f -> owned_by (f <$> l) = owned_by l.
Proof. intros Hf. unfold owned_by. rewrite <- list_fmap_compose. f_equal. apply list_fmap_ext. intros i t _. apply Hf. Qed.

Lemma pre_map rest st f : sched_pre rest st -> keeps_owned f ->
  (forall t, t ∈ task_list st -> t_state (f t) = TASK_RUNNING -> t_address t = current_task st) ->
  sched_pre rest (with_tasks st (f <$> task_list st)).
Proof.
  intros [(m & l & El & Em & Eo) Hnd Hc Hrun (Hid & Hlt) Hsp Hheld] Hf Hr. assert (Ha : keeps_address f) by (intros t; apply Hf).
  split; simpl; rewrite ?addresses_map by done; try done.
  - exists (f m), (f <$> l). rewrite El. split; [done|]. rewrite Ha. destruct (Hf m) as (_ & _ & -> & _). done.
  - intros t Ht Hs. apply list_elem_of_fmap in Ht as (x & -> & Hx). rewrite Ha. by apply Hr.
  - split.
    + rewrite <- list_fmap_compose. erewrite list_fmap_ext; [exact Hid|]. intros i t _. apply Hf.
    + apply Forall_fmap. eapply Forall_impl; [exact Hlt|]. intros t Ht. simpl. destruct (Hf t) as (_ & -> & _). done.
  - apply Forall_fmap. eapply Forall_impl; [exact Hsp|]. intros t Ht. simpl. destruct (Hf t) as (_ & _ & _ & -> & _). done.
  - rewrite El in *. simpl in *. by rewrite owned_by_map.
Qed.

Lemma pre_update rest st a f : sched_pre rest st -> keeps_owned f ->
  (forall t, t ∈ task_list st -> t_address t = a -> t_state (f t) = TASK_RUNNING -> a = current_task st) ->
  sched_pre rest (with_tasks st (update a f (task_list st))).
Proof.
  intros Hpre Hf Hr. apply pre_map; try done.
  - intros t. destruct (_ =? _); [apply Hf | done].
  - intros t Ht. destruct (Z.eqb_spec (t_address t) a) as [E|]; [|by apply (so_running _ _ Hpre)].
    intros Hs. rewrite E. by apply (Hr t).
Qed.

Lemma keeps_state s : keeps_owned (with_state s).
Proof. done. Qed.

(** ** Zombies *)

Definition kept (current : Z) (t : task) : bool := negb (negb (t_address t =? current) && bool_decide (t_state t = TASK_ZOMBIE)).

Lemma sweep_spec cur l w : let '(l', w') := sweep cur l w in
  l' = List.filter (kept cur) l /\ forall rest, held w (owned_by l ++ rest) -> held w' (owned_by l' ++ rest).
Proof.
  revert w. induction l as [|t l IH]; intros w; cbn [sweep List.filter]; [done|]. unfold kept at 1.
  destruct (negb (t_address t =? cur) && bool_decide (t_state t = TASK_ZOMBIE)) eqn:E; cbn [negb].
  - match goal with |- context [sweep cur l ?w'] => specialize (IH w') end. destruct (sweep cur l _) as (l', w'). destruct IH as (-> & IH).
    split; [done|]. intros rest Hh. apply IH. unfold owned_by in Hh. cbn [fmap list_fmap concat] in Hh. unfold owned at 1 in Hh.
    apply task_free_spec.
    set (w2 := stack_free (t_fault_stack t) (stack_free (t_stack t) w)).
    assert (Hh2 : held w2 (TaskBlock (t_address t) :: (if t_owns_space t then [Space (t_space t)] else []) ++ owned_by l ++ rest)).
    { apply stack_free_spec, stack_free_spec. eapply held_perm; [|exact Hh]. unfold owned_by. simpl.
      rewrite <- (assoc (++)). etransitivity; [apply perm_swap|]. constructor. apply perm_swap. }
    destruct (t_owns_space t); [|exact Hh2]. apply space_destroy_spec. eapply held_perm; [|exact Hh2]. simpl. apply perm_swap.
  - specialize (IH w). destruct (sweep cur l w) as (l', w'). destruct IH as (-> & IH). split; [done|]. intros rest Hh.
    unfold owned_by in *. cbn [fmap list_fmap concat] in *. rewrite <- (assoc (++)) in *.
    apply (held_perm w' (concat (owned <$> List.filter (kept cur) l) ++ (owned t ++ rest))); [solve_Permutation|].
    apply IH. eapply held_perm; [|exact Hh]. solve_Permutation.
Qed.

(** What [remove_zombies] leaves of the list. *)
Definition survivors (st : scheduler) : list task :=
  match task_list st with [] => [] | m :: l => m :: List.filter (kept (current_task st)) l end.

Lemma filter_sublist (P : task -> bool) l : List.filter P l `sublist_of` l.
Proof. induction l as [|t l IH]; simpl; [constructor|]. destruct (P t); [by constructor | by apply sublist_cons]. Qed.

Lemma remove_zombies_spec rest st : sched_pre rest st ->
  sched_pre rest (remove_zombies st) /\ task_list (remove_zombies st) = survivors st /\
  current_task (remove_zombies st) = current_task st.
Proof.
  intros [(m & l & El & Em & Eo) Hnd Hc Hrun (Hid & Hlt) Hsp Hheld]. unfold remove_zombies, survivors. rewrite El in *.
  pose proof (sweep_spec (current_task st) l (world st)) as Hs. destruct (sweep _ _ _) as (l', w'). destruct Hs as (-> & Hs).
  split; [|done]. pose proof (filter_sublist (kept (current_task st)) l) as Hsub.
  assert (Hsub' : m :: List.filter (kept (current_task st)) l `sublist_of` m :: l) by (by constructor).
  split; cbn [task_list world with_world with_tasks current_task next_task_id].
  - by exists m, (List.filter (kept (current_task st)) l).
  - eapply sublist_NoDup; [exact Hnd|]. by apply fmap_sublist.
  - unfold addresses in *. rewrite fmap_cons in *. apply elem_of_cons in Hc as [Hc|Hc]; [rewrite Hc; by left|]. right.
    apply list_elem_of_fmap in Hc as (t & Et & Ht). rewrite Et. apply list_elem_of_fmap_2.
    apply list_elem_of_In, filter_In. split; [by apply list_elem_of_In|]. unfold kept. by rewrite <- Et, Z.eqb_refl.
  - intros t Ht. apply Hrun. by eapply elem_of_sublist.
  - split; [eapply sublist_NoDup; [exact Hid | by apply fmap_sublist]|]. apply Forall_forall. intros t Ht.
    rewrite Forall_forall in Hlt. apply Hlt. by eapply elem_of_sublist.
  - apply Forall_forall. intros t Ht. rewrite Forall_forall in Hsp. apply Hsp. by eapply elem_of_sublist.
  - apply Hs. done.
Qed.

(** ** One scheduling decision *)

Definition tired (t : task) : task := if bool_decide (t_state t = TASK_RUNNING) then with_state TASK_READY t else t.
Definition woken (now : Z) (t : task) : task :=
  if bool_decide (t_state t = TASK_SLEEPING) && (t_wake_at_ms t <=? now) then with_state TASK_READY t else t.

Lemma keeps_tired : keeps_owned tired.
Proof. intros t. unfold tired. by destruct (bool_decide _). Qed.
Lemma keeps_woken now : keeps_owned (woken now).
Proof. intros t. unfold woken. by destruct (_ && _). Qed.
Lemma wake_sleepers_woken now l : wake_sleepers now l = woken now <$> l.
Proof. done. Qed.
Lemma woken_running now t : t_state (woken now t) = TASK_RUNNING -> t_state t = TASK_RUNNING.
Proof. unfold woken. by destruct (_ && _). Qed.

Lemma update_middle a f pre cur post : NoDup (addresses (pre ++ cur :: post)) -> t_address cur = a ->
  update a f (pre ++ cur :: post) = pre ++ f cur :: post.
Proof.
  intros Hnd <-. unfold update. rewrite fmap_app, fmap_cons, Z.eqb_refl.
  unfold addresses in Hnd. rewrite fmap_app, fmap_cons in Hnd.
  apply NoDup_app in Hnd as (_ & Hpre & Hcons). apply NoDup_cons in Hcons as (Hpost & _).
  assert (Hid : forall l : list task, (forall t, t ∈ l -> t_address t <> t_address cur) -> (fun t => if t_address t =? t_address cur then f t else t) <$> l = l).
  { intros l Hl. rewrite <- (list_fmap_id l) at 2. apply list_fmap_ext. intros i t Ht. apply list_elem_of_lookup_2, Hl in Ht.
    by rewrite (proj2 (Z.eqb_neq _ _)). }
  rewrite !Hid; [done | |].
  - intros t Ht E. apply Hpost. rewrite <- E. by apply list_elem_of_fmap_2.
  - intros t Ht E. apply (Hpre (t_address t)); [by apply list_elem_of_fmap_2|]. rewrite E. by left.
Qed.

Lemma first_ready_app l1 l2 : first_ready (l1 ++ l2) = match first_ready l1 with Some a => Some a | None => first_ready l2 end.
Proof. induction l1 as [|t l1 IH]; simpl; [done|]. by destruct (ready t). Qed.

Lemma first_ready_Some l a : first_ready l = Some a -> exists t, t ∈ l /\ t_address t = a /\ t_state t = TASK_READY.
Proof.
  induction l as [|t l IH]; simpl; [done|]. unfold ready. case_bool_decide; [intros [= <-]; exists t; repeat split; try done; by left|].
  intros E. destruct (IH E) as (x & Hx & ?). exists x. split; [by right | done].
Qed.

(** The list while the decision is made. *)
Definition considered (now : Z) (pre : list task) (cur : task) (post : list task) : list task :=
  (woken now <$> pre) ++ woken now (tired cur) :: (woken now <$> post).

Lemma split_current rest st : sched_pre rest st -> exists pre cur post, task_list st = pre ++ cur :: post /\ t_address cur = current_task st.
Proof.
  intros Hpre. pose proof (so_current _ _ Hpre) as Hc. apply list_elem_of_fmap in Hc as (cur & E & Hin).
  apply list_elem_of_split in Hin as (pre & post & El). by exists pre, cur, post.
Qed.

Lemma current_middle rest st pre cur post : sched_pre rest st -> task_list st = pre ++ cur :: post -> t_address cur = current_task st ->
  current st = cur.
Proof.
  intros Hpre El Ec. unfold current. rewrite <- Ec. apply task_at_elem; [apply Hpre|]. rewrite El.
  apply elem_of_app. right. by left.
Qed.

(** What is decided, before any state of [next] changes. *)
Lemma decision rest st now pre cur post : sched_pre rest st -> task_list st = pre ++ cur :: post -> t_address cur = current_task st ->
  let st1 := if bool_decide (t_state (current st) = TASK_RUNNING) then set_state (current_task st) TASK_READY st else st in
  next_ready_task now st1 =
    (match first_ready (wake_sleepers now (post ++ pre)) with
     | Some n => Some n
     | None => if ready (woken now (tired cur)) then Some (current_task st) else None
     end, with_tasks st (considered now pre cur post)).
Proof.
  intros Hpre El Ec. cbv zeta. rewrite (current_middle rest st pre cur post) by done.
  pose proof (so_nodup _ _ Hpre) as Hnd. rewrite El in Hnd.
  assert (E1 : (if bool_decide (t_state cur = TASK_RUNNING) then set_state (current_task st) TASK_READY st else st) =
    with_tasks st (pre ++ tired cur :: post)).
  { unfold tired. destruct (bool_decide _); [unfold set_state; rewrite El, update_middle; done|]. rewrite <- El. by destruct st. }
  rewrite E1, (next_ready_spec now _ (woken now <$> pre) (woken now (tired cur)) (woken now <$> post)).
  - unfold considered. cbn [with_tasks]. f_equal. rewrite (assoc (++)), first_ready_app, <- fmap_app. rewrite <- wake_sleepers_woken.
    destruct (first_ready (wake_sleepers now (post ++ pre))); [done|]. simpl.
    destruct (keeps_woken now (tired cur)) as (-> & _). destruct (keeps_tired cur) as (-> & _). by rewrite Ec.
  - cbn [with_tasks task_list]. rewrite wake_sleepers_woken, fmap_app, fmap_cons. done.
  - cbn [with_tasks current_task]. destruct (keeps_woken now (tired cur)) as (-> & _). by destruct (keeps_tired cur) as (-> & _).
  - cbn [with_tasks task_list]. unfold addresses in *. rewrite fmap_app, fmap_cons in *. destruct (keeps_tired cur) as (-> & _). done.
Qed.

Lemma considered_pre rest st now pre cur post : sched_pre rest st -> task_list st = pre ++ cur :: post -> t_address cur = current_task st ->
  sched_pre rest (with_tasks st (considered now pre cur post)) /\
  (forall t, t ∈ considered now pre cur post -> t_state t <> TASK_RUNNING).
Proof.
  intros Hpre El Ec. pose proof (so_nodup _ _ Hpre) as Hnd. rewrite El in Hnd.
  assert (E : considered now pre cur post = woken now <$> update (current_task st) tired (task_list st)).
  { rewrite El, update_middle by done. unfold considered. by rewrite fmap_app, fmap_cons. }
  assert (Hno : forall t, t ∈ update (current_task st) tired (task_list st) -> t_state t <> TASK_RUNNING).
  { intros t Ht. apply list_elem_of_fmap in Ht as (x & -> & Hx). destruct (Z.eqb_spec (t_address x) (current_task st)) as [|Hne].
    - unfold tired. by case_bool_decide.
    - intros Hr. apply Hne. by apply (so_running _ _ Hpre). }
  split; [|rewrite E; intros t Ht Hr; apply list_elem_of_fmap in Ht as (x & -> & Hx); apply woken_running in Hr; by apply (Hno x)].
  rewrite E. set (st1 := with_tasks st (update (current_task st) tired (task_list st))).
  change (with_tasks st (woken now <$> update (current_task st) tired (task_list st))) with (with_tasks st1 (woken now <$> task_list st1)).
  apply pre_map; [apply pre_update; [done | apply keeps_tired | done] | apply keeps_woken|].
  intros t Ht Hr. apply woken_running in Hr. by destruct (Hno t Ht).
Qed.

Lemma resume_ok rest st a : sched_pre rest st -> a = current_task st -> sched_ok rest (set_state a TASK_RUNNING st).
Proof.
  intros Hpre ->. split; [by apply pre_update|]. unfold current, set_state. cbn [with_tasks current_task task_list].
  rewrite task_at_update; [by rewrite decide_True | done | apply Hpre].
Qed.

Lemma switch_ok rest st n sp : sched_pre rest st -> (forall t, t ∈ task_list st -> t_state t <> TASK_RUNNING) ->
  n ∈ addresses (task_list st) -> sched_ok rest (switch_to n sp st).
Proof.
  intros Hpre Hno Hn.
  set (st2 := mk_scheduler (task_list st) n (next_task_id st) (preemption_enabled st) (kernel_stack_top st) (fault_stack_top st)
    (active_space st) (memory st) (world st)).
  assert (Hpre2 : sched_pre rest st2).
  { destruct Hpre as [? ? ? ? ? ? ?]. split; try done. intros t Ht Hr. by destruct (Hno t Ht). }
  assert (Hpre3 : sched_pre rest (set_state n TASK_RUNNING st2)) by (by apply pre_update).
  assert (Hpre4 : sched_pre rest (with_tasks (set_state n TASK_RUNNING st2)
      (update (current_task st) (with_stack_pointer sp) (task_list (set_state n TASK_RUNNING st2))))).
  { apply pre_update; [done | done|]. intros t Ht E Hr. rewrite <- E. by apply (so_running _ _ Hpre3). }
  split.
  - destruct Hpre4 as [? ? ? ? ? ? ?]. by split.
  - unfold current, switch_to, set_state. cbn [with_tasks current_task task_list].
    rewrite task_at_update; [|done | by rewrite addresses_update]. rewrite task_at_update by done. rewrite (decide_True (P := n = n)) by done.
    by destruct (decide (n = current_task st)).
Qed.

(** The state of another task. *)
Lemma considered_state rest st now pre cur post t : sched_pre rest st -> task_list st = pre ++ cur :: post -> t_address cur = current_task st ->
  t ∈ task_list st -> t_address t <> current_task st ->
  task_at (t_address t) (considered now pre cur post) = woken now t.
Proof.
  intros Hpre El Ec Ht Hne. destruct (considered_pre rest st now pre cur post Hpre El Ec) as (Hpre' & _).
  destruct (keeps_woken now t) as (<- & _). apply task_at_elem; [apply Hpre'|].
  rewrite El in Ht. unfold considered. apply elem_of_app in Ht as [Ht|Ht]; [apply elem_of_app; left; by apply list_elem_of_fmap_2|].
  apply elem_of_cons in Ht as [->|Ht]; [done|]. apply elem_of_app. right. right. by apply list_elem_of_fmap_2.
Qed.

(** The tasks behind and before one of them in the list, in the order of a
    round. *)
Lemma round_nodup pre cur post : NoDup (addresses (pre ++ cur :: post)) -> NoDup (addresses (post ++ pre)) /\ t_address cur ∉ addresses (post ++ pre).
Proof.
  unfold addresses. rewrite !fmap_app, fmap_cons. intros (N1 & N2 & N3)%NoDup_app. apply NoDup_cons in N3 as (Hc & N3). split.
  - apply NoDup_app. split; [done|]. split; [|done]. intros b Hb Hb'. apply (N2 b Hb'). by right.
  - intros [Hp|Hp]%elem_of_app; [done|]. apply (N2 _ Hp). by left.
Qed.

Lemma round_elem (x : task) pre cur post : x ∈ post ++ pre -> x ∈ pre ++ cur :: post.
Proof. intros [Hx|Hx]%elem_of_app; apply elem_of_app; [right; by right | by left]. Qed.

Lemma schedule_spec rest clean now sp st : sched_pre rest st ->
  let st0 := if clean : bool then remove_zombies st else st in
  sched_pre rest st0 /\ current_task st0 = current_task st /\
  forall pre cur post, task_list st0 = pre ++ cur :: post -> t_address cur = current_task st ->
  let '(switched, st') := schedule clean now sp st in
  sched_ok rest st' /\ addresses (task_list st') = addresses (task_list st0) /\
  match first_ready (wake_sleepers now (post ++ pre)) with
  | Some n => switched = true /\ current_task st' = n /\ n <> current_task st /\
      let t := task_at n (task_list st0) in
      active_space st' = t_space t /\ kernel_stack_top st' = top (t_stack t) /\
      fault_stack_top st' = (if n =? MAIN_TASK then 0 else top (t_fault_stack t)) /\
      t_state (task_at (current_task st) (task_list st')) = t_state (woken now (tired cur))
  | None => switched = false /\ current_task st' = current_task st
  end /\
  (forall t, t ∈ task_list st0 -> t_address t <> current_task st -> t_address t <> current_task st' ->
     t_state (task_at (t_address t) (task_list st')) = t_state (woken now t)).
Proof.
  intros Hpre. cbv zeta. unfold schedule.
  assert (Hclean : sched_pre rest (if clean then remove_zombies st else st) /\ current_task (if clean then remove_zombies st else st) = current_task st).
  { destruct clean; [|done]. destruct (remove_zombies_spec rest st Hpre) as (? & _ & ?). done. }
  destruct Hclean as (Hpre0 & E0). split; [done|]. split; [done|]. intros pre cur post El Ec. rewrite <- E0 in *. clear E0.
  generalize dependent (if clean then remove_zombies st else st). clear st Hpre. intros st Hpre El Ec.
  rewrite (decision rest st now pre cur post) by done. destruct (considered_pre rest st now pre cur post Hpre El Ec) as (Hpre1 & Hno).
  pose proof (considered_state rest st now pre cur post) as Hst. set (st1 := with_tasks st _) in *.
  assert (Eadd : addresses (task_list st1) = addresses (task_list st)).
  { unfold st1, considered, addresses. cbn [with_tasks task_list]. rewrite El, !fmap_app, !fmap_cons, <- !list_fmap_compose.
    f_equal; [apply list_fmap_ext; intros; apply keeps_woken|]. f_equal; [|apply list_fmap_ext; intros; apply keeps_woken].
    destruct (keeps_woken now (tired cur)) as (-> & _). apply keeps_tired. }
  assert (Hstay : forall b : bool, (b = false) -> let st' := set_state (current_task st) TASK_RUNNING st1 in
    sched_ok rest st' /\ addresses (task_list st') = addresses (task_list st) /\ (b = false /\ current_task st' = current_task st) /\
    (forall t, t ∈ task_list st -> t_address t <> current_task st -> t_address t <> current_task st' ->
      t_state (task_at (t_address t) (task_list st')) = t_state (woken now t))).
  { intros b Hb st'. split; [by apply resume_ok|]. split; [unfold st', set_state; cbn [with_tasks task_list]; by rewrite addresses_update|].
    split; [done|]. intros t Ht Hne _. unfold st', set_state. cbn [with_tasks task_list].
    rewrite task_at_update; [|done | rewrite Eadd; by apply list_elem_of_fmap_2]. rewrite decide_False by done. rewrite <- (Hst t) by done. done. }
  destruct (first_ready (wake_sleepers now (post ++ pre))) as [n|] eqn:En.
  2:{ destruct (ready _); [rewrite Z.eqb_refl|]; by apply Hstay. }
  apply first_ready_Some in En as (t & Hin & Et & _). rewrite wake_sleepers_woken in Hin. apply list_elem_of_fmap in Hin as (x & -> & Hx).
  destruct (keeps_woken now x) as (Ea & _). rewrite Ea in Et.
  assert (Hxin : x ∈ task_list st) by (rewrite El; by apply round_elem).
  assert (Hnc : n <> current_task st).
  { pose proof (so_nodup _ _ Hpre) as Hnd. rewrite El in Hnd. apply round_nodup in Hnd as (_ & Hc). intros E. apply Hc. rewrite Ec, <- E, <- Et.
    by apply list_elem_of_fmap_2. }
  assert (Hn : n ∈ addresses (task_list st1)) by (rewrite Eadd, <- Et; by apply list_elem_of_fmap_2).
  rewrite (proj2 (Z.eqb_neq _ _)) by done. split; [by apply switch_ok|].
  assert (Etn : task_at n (task_list (set_state n TASK_RUNNING st1)) = with_state TASK_RUNNING (woken now x)).
  { unfold set_state. cbn [with_tasks task_list]. rewrite task_at_update, decide_True by done. f_equal. rewrite <- Et.
    apply Hst; try done. by rewrite Et. }
  assert (Ex : task_at n (task_list st) = x) by (rewrite <- Et; apply task_at_elem; [apply Hpre | done]).
  assert (Hwx : t_space (woken now x) = t_space x /\ t_stack (woken now x) = t_stack x /\ t_fault_stack (woken now x) = t_fault_stack x).
  { unfold woken. by destruct (_ && _). }
  destruct Hwx as (W1 & W2 & W3). split.
  { unfold switch_to, set_state. cbn [with_tasks task_list]. by rewrite !addresses_update. }
  assert (Hother : forall a, a ∈ addresses (task_list st) -> a <> n ->
    t_state (task_at a (task_list (switch_to n sp st1))) = t_state (task_at a (task_list st1))).
  { intros a Ha Hne. unfold switch_to, set_state. cbn [with_tasks task_list].
    rewrite task_at_update; [|done | by rewrite addresses_update, Eadd]. rewrite task_at_update by (done || by rewrite Eadd).
    rewrite (decide_False (P := a = n)) by done. by destruct (decide (a = current_task st1)). }
  split.
  - split; [done|]. split; [done|]. split; [done|]. unfold switch_to. cbn [active_space kernel_stack_top fault_stack_top].
    rewrite Etn, Ex. cbn [with_state t_space t_stack t_fault_stack]. rewrite W1, W2, W3. split; [done|]. split; [done|]. split; [done|].
    fold (switch_to n sp st1). rewrite Hother; [|apply Hpre | by intros <-].
    rewrite <- Ec. destruct (keeps_tired cur) as (E1 & _). rewrite <- E1. destruct (keeps_woken now (tired cur)) as (E2 & _). rewrite <- E2.
    f_equal. apply task_at_elem; [apply Hpre1|]. unfold st1, considered. cbn [with_tasks task_list]. apply elem_of_app. right. by left.
  - intros y Hy Hy1 Hy2. rewrite Hother by (try done; by apply list_elem_of_fmap_2). f_equal. by apply Hst.
Qed.

(** ** Fairness *)

(** What a running task or an interrupt does to the scheduler. *)
Inductive event :=
| Yield (now sp : Z)
| Preempt (now sp : Z)
| Block (now sp : Z)
| Sleep (milliseconds now later sp : Z)
| Exit (now sp : Z)
| WakeBlocked.

Definition run_event (e : event) (st : scheduler) : scheduler :=
  match e with
  | Yield now sp => snd (task_yield now sp st)
  | Preempt now sp => snd (task_preempt now sp st)
  | Block now sp => task_block_current now sp st
  | Sleep milliseconds now later sp => task_sleep_ms milliseconds now later sp st
  | Exit now sp => snd (task_exit_current now sp st)
  | WakeBlocked => task_wake_blocked st
  end.
Definition run_events (es : list event) (st : scheduler) : scheduler := foldl (fun st e => run_event e st) st es.
Definition decides (e : event) : bool := match e with WakeBlocked => false | _ => true end.

(** Every other event is a decision after a change of the current task. *)
Lemma run_event_shape e st : decides e = true -> (forall now sp, e = Preempt now sp -> preemption_enabled st = true) ->
  exists f clean now sp, keeps_owned f /\ (forall t, t_state (f t) = TASK_RUNNING -> t_state t = TASK_RUNNING) /\
    run_event e st = snd (schedule clean now sp (with_tasks st (update (current_task st) f (task_list st)))).
Proof.
  intros He Hp. assert (Hid : with_tasks st (update (current_task st) id (task_list st)) = st).
  { unfold update. assert (E : (fun t : task => if t_address t =? current_task st then id t else t) <$> task_list st = task_list st).
    { rewrite <- (list_fmap_id (task_list st)) at 2. apply list_fmap_ext. intros. by case_match. }
    rewrite E. by destruct st. }
  destruct e as [now sp|now sp|now sp|ms now later sp|now sp|]; [| | | | |done]; cbn [run_event].
  - exists id, true, now, sp. by rewrite Hid.
  - exists id, false, now, sp. rewrite Hid. unfold task_preempt. by rewrite (Hp now sp).
  - by exists (with_state TASK_BLOCKED), true, now, sp.
  - unfold task_sleep_ms. destruct (ms =? 0).
    + exists id, true, later, sp. by rewrite Hid.
    + eexists (with_wake _), true, later, sp. done.
  - by exists (with_state TASK_ZOMBIE), true, now, sp.
Qed.

(** [k] tasks come before [a] in the round behind the current task. *)
Definition ahead (a : Z) (st : scheduler) (k : nat) : Prop :=
  exists pre post r1 r2, addresses (task_list st) = pre ++ current_task st :: post /\ post ++ pre = r1 ++ a :: r2 /\ length r1 = k.

(** The next round, once [n] is current. *)
Lemma round_next (c n : Z) pre post r1 r2 : post ++ pre = r1 ++ n :: r2 ->
  exists pre' post', pre ++ c :: post = pre' ++ n :: post' /\ post' ++ pre' = r2 ++ c :: r1.
Proof.
  intros E. apply app_eq_inv in E as [(k & E1 & E2)|(k & E1 & E2)].
  - destruct k as [|x k].
    + rewrite app_nil_r in E1. subst post. simpl in E2. exists [], (r2 ++ c :: r1). rewrite <- E2. by rewrite app_nil_r.
    + injection E2 as <- ->. subst post. exists (pre ++ c :: r1), k. rewrite <- !(assoc (++)). simpl. done.
  - subst r1. exists k, (r2 ++ c :: post). rewrite E2. rewrite <- !(assoc (++)). simpl. done.
Qed.

Lemma ahead_addresses a st st' k : addresses (task_list st') = addresses (task_list st) -> current_task st' = current_task st ->
  ahead a st k -> ahead a st' k.
Proof. unfold ahead. by intros -> ->. Qed.

Lemma survivors_filter rest st : sched_pre rest st ->
  survivors st = List.filter (fun t => (t_address t =? MAIN_TASK) || kept (current_task st) t) (task_list st).
Proof.
  intros Hpre. destruct (so_main _ _ Hpre) as (m & l & El & Em & Eo). pose proof (so_nodup _ _ Hpre) as Hnd. unfold survivors. rewrite El in *.
  apply NoDup_cons in Hnd as (Hm & _). cbn [List.filter]. rewrite Em, Z.eqb_refl. cbn [orb]. f_equal. apply filter_ext_in.
  intros t Ht. rewrite (proj2 (Z.eqb_neq _ _)); [done|]. intros E. apply Hm. rewrite Em, <- E. apply list_elem_of_fmap_2. by apply list_elem_of_In.
Qed.

Lemma ahead_survivors rest a st k : sched_pre rest st -> a <> current_task st -> a ∈ addresses (task_list st) ->
  t_state (task_at a (task_list st)) = TASK_READY -> ahead a st k ->
  exists k', (k' <= k)%nat /\ ahead a (remove_zombies st) k' /\ a ∈ addresses (task_list (remove_zombies st)) /\
    t_state (task_at a (task_list (remove_zombies st))) = TASK_READY.
Proof.
  intros Hpre Ha Hin Hready (pre & post & r1 & r2 & E1 & E2 & <-).
  destruct (remove_zombies_spec rest st Hpre) as (Hpre' & El & Ec). rewrite (survivors_filter rest) in El by done.
  destruct (task_at_in _ _ Hin) as (Ht & Et).
  set (P := fun t => (t_address t =? MAIN_TASK) || kept (current_task st) t) in *.
  set (Q := fun b => bool_decide (b ∈ addresses (List.filter P (task_list st)))).
  assert (EQ : addresses (List.filter P (task_list st)) = List.filter Q (addresses (task_list st))).
  { pose proof (so_nodup _ _ Hpre) as Hnd. unfold Q. clear -Hnd. induction (task_list st) as [|t l IH]; [done|].
    unfold addresses in *. rewrite fmap_cons in *. apply NoDup_cons in Hnd as (Hn & Hnd). specialize (IH Hnd). cbn [List.filter].
    assert (Hnot : t_address t ∉ t_address <$> List.filter P l).
    { intros H1. apply Hn. eapply elem_of_sublist; [exact H1|]. apply fmap_sublist, filter_sublist. }
    destruct (P t); rewrite ?fmap_cons.
    - rewrite bool_decide_true by (by left). f_equal. rewrite IH at 1. apply filter_ext_in. intros b Hb. apply bool_decide_ext.
      rewrite elem_of_cons. split; [by right|]. intros [->|]; [|done]. exfalso. apply Hn. by apply list_elem_of_In.
    - rewrite bool_decide_false by done. rewrite IH at 1. apply filter_ext_in. done. }
  assert (Hkeep : task_at a (task_list st) ∈ List.filter P (task_list st)).
  { apply list_elem_of_In, filter_In. split; [by apply list_elem_of_In|]. unfold P, kept. rewrite Hready.
    rewrite bool_decide_false by done. rewrite andb_false_r. apply orb_true_r. }
  assert (Ha' : a ∈ addresses (task_list (remove_zombies st))).
  { rewrite El, <- Et. by apply list_elem_of_fmap_2. }
  exists (length (List.filter Q r1)). split; [apply List.filter_length_le|]. split; [|split; [done|]].
  - exists (List.filter Q pre), (List.filter Q post), (List.filter Q r1), (List.filter Q r2). rewrite El, Ec, EQ, E1.
    split; [|split; [|done]].
    + rewrite List.filter_app. cbn [List.filter]. unfold Q at 2. rewrite bool_decide_true; [done|].
      rewrite <- El, <- Ec. apply Hpre'.
    + rewrite <- List.filter_app, E2, List.filter_app. cbn [List.filter]. unfold Q at 2. rewrite bool_decide_true; [done|]. by rewrite <- El.
  - rewrite <- Hready. f_equal. rewrite <- Et at 1. apply task_at_elem; [apply Hpre'|]. by rewrite El.
Qed.

Lemma first_ready_split l t : t ∈ l -> t_state t = TASK_READY ->
  exists l1 x l2, l = l1 ++ x :: l2 /\ first_ready l = Some (t_address x) /\ (t = x \/ t ∈ l2).
Proof.
  induction l as [|y l IH]; intros Ht Hs; [by apply elem_of_nil in Ht|]. cbn [first_ready].
  destruct (ready y) eqn:Ey; [exists [], y, l; repeat split; by apply elem_of_cons in Ht|].
  apply elem_of_cons in Ht as [->|Ht]; [unfold ready in Ey; by rewrite Hs in Ey|].
  destruct (IH Ht Hs) as (l1 & x & l2 & -> & E & H2). exists (y :: l1), x, l2. done.
Qed.

Lemma split_before (q1 : list Z) a q2 l1 x l2 : q1 ++ a :: q2 = l1 ++ x :: l2 -> a <> x -> a ∈ l2 -> NoDup (q1 ++ a :: q2) ->
  exists y, q1 = l1 ++ x :: y /\ l2 = y ++ a :: q2.
Proof.
  revert l1. induction q1 as [|b q1 IH]; intros l1 E Hne Hin Hnd.
  - exfalso. simpl in *. apply NoDup_cons in Hnd as (Hn & _). destruct l1 as [|c l1]; injection E as -> ->; [done|].
    apply Hn. apply elem_of_app. right. by right.
  - destruct l1 as [|c l1]; injection E as -> E; [by exists q1|]. simpl in Hnd. apply NoDup_cons in Hnd as (_ & Hnd).
    destruct (IH l1 E Hne Hin Hnd) as (y & -> & ->). by exists y.
Qed.

(** A ready task runs next or comes closer. *)
Lemma schedule_ahead rest clean now sp st a k : sched_pre rest st -> a <> current_task st -> a ∈ addresses (task_list st) ->
  t_state (task_at a (task_list st)) = TASK_READY -> ahead a st k ->
  let st' := snd (schedule clean now sp st) in
  sched_ok rest st' /\ a ∈ addresses (task_list st') /\
  (current_task st' = a \/
   a <> current_task st' /\ t_state (task_at a (task_list st')) = TASK_READY /\ exists k', (k' < k)%nat /\ ahead a st' k').
Proof.
  intros Hpre Ha Hin Hready Hahead.
  destruct (schedule_spec rest clean now sp st Hpre) as (Hpre0 & Ec0 & Hspec).
  assert (H0 : let st0 := if clean then remove_zombies st else st in exists k0, (k0 <= k)%nat /\ ahead a st0 k0 /\
    a ∈ addresses (task_list st0) /\ t_state (task_at a (task_list st0)) = TASK_READY).
  { destruct clean; [by apply (ahead_survivors rest) | by exists k]. }
  cbv zeta in *. generalize dependent (if clean then remove_zombies st else st). intros st0 Hpre0 Ec0 Hspec (k0 & Hk & Hah & Hin0 & Hr0).
  destruct Hah as (apre & apost & r1 & r2 & E1 & E2 & <-).
  unfold addresses in E1. apply fmap_app_inv in E1 as (pre & l' & -> & El' & El). symmetry in El'.
  destruct l' as [|cur post]; [done|]. rewrite fmap_cons in El'. injection El' as Ecur <-.
  specialize (Hspec pre cur post El ltac:(congruence)). destruct (schedule clean now sp st) as (sw, st'). cbn [snd].
  destruct Hspec as (Hok & Eadd & Hdec & Hothers). split; [done|]. split; [by rewrite Eadd|].
  rewrite <- fmap_app in E2. apply fmap_app_inv in E2 as (q1 & q' & -> & Eq' & Eq). symmetry in Eq'.
  destruct q' as [|t q2]; [done|]. rewrite fmap_cons in Eq'. injection Eq' as Et <-.
  assert (Htin : t ∈ task_list st0) by (rewrite El; apply round_elem; rewrite Eq; apply elem_of_app; right; by left).
  assert (Hnd : NoDup (addresses (post ++ pre))) by (pose proof (so_nodup _ _ Hpre0) as Hnd; rewrite El in Hnd; by apply round_nodup in Hnd as (? & _)).
  assert (Htr : t_state t = TASK_READY) by (rewrite <- Hr0, <- Et; f_equal; symmetry; apply task_at_elem; [apply Hpre0 | done]).
  assert (Hwr : woken now t = t) by (unfold woken; by rewrite Htr).
  destruct (first_ready_split (wake_sleepers now (post ++ pre)) (woken now t)) as (l1 & x & l2 & Elx & En & Hpos).
  { rewrite wake_sleepers_woken. apply list_elem_of_fmap_2. rewrite Eq. apply elem_of_app. right. by left. }
  { by rewrite Hwr. }
  rewrite En in Hdec. destruct Hdec as (_ & Ecur' & Hnc & _). rewrite Hwr in Hpos. destruct Hpos as [<-|Hl2]; [left; congruence|].
  assert (Hnt : a <> t_address x).
  { rewrite <- (addresses_wake now), Elx in Hnd. unfold addresses in Hnd. rewrite fmap_app, fmap_cons in Hnd.
    apply NoDup_app in Hnd as (_ & _ & Hc). apply NoDup_cons in Hc as (Hc & _).
    intros E. apply Hc. rewrite <- E, <- Et. by apply list_elem_of_fmap_2. }
  right. rewrite Ecur'. split; [done|]. split.
  { rewrite <- Et, Hothers; [by rewrite Hwr | done | congruence | congruence]. }
  apply (f_equal addresses) in Elx. rewrite addresses_wake, Eq in Elx. unfold addresses in Elx. rewrite !fmap_app, !fmap_cons in Elx.
  assert (Hsplit : exists y, t_address <$> q1 = (t_address <$> l1) ++ t_address x :: y /\ t_address <$> l2 = y ++ a :: (t_address <$> q2)).
  { apply (split_before (t_address <$> q1) a); [by rewrite <- Et | done | |].
    - rewrite <- Et. by apply list_elem_of_fmap_2.
    - rewrite <- Et, <- fmap_cons, <- fmap_app, <- Eq. exact Hnd. }
  destruct Hsplit as (y & Y1 & Y2). exists (length y). split.
  { assert (E : length (t_address <$> q1) = length ((t_address <$> l1) ++ t_address x :: y)) by (by rewrite Y1).
    rewrite length_app in E. simpl in E. lia. }
  destruct (round_next (current_task st) (t_address x) (t_address <$> pre) (t_address <$> post) (t_address <$> l1) (t_address <$> l2)) as (pre' & post' & R1 & R2).
  { rewrite <- fmap_app, Eq, fmap_app, fmap_cons, Y1, Y2, Et. rewrite <- (assoc (++)). done. }
  exists pre', post', y, ((t_address <$> q2) ++ current_task st :: (t_address <$> l1)). rewrite Eadd, Ecur', <- R1, El, R2, Y2.
  unfold addresses. rewrite fmap_app, fmap_cons. split; [congruence|]. split; [|done]. by rewrite <- (assoc (++)).
Qed.

Lemma remove_zombies_preemption st : preemption_enabled (remove_zombies st) = preemption_enabled st.
Proof. unfold remove_zombies. destruct (task_list st); [done|]. by destruct (sweep _ _ _). Qed.

Lemma schedule_preemption clean now sp st : preemption_enabled (snd (schedule clean now sp st)) = preemption_enabled st.
Proof.
  unfold schedule. assert (E : preemption_enabled (if clean then remove_zombies st else st) = preemption_enabled st).
  { destruct clean; [apply remove_zombies_preemption | done]. }
  rewrite <- E. generalize (if clean then remove_zombies st else st). intros st0. unfold next_ready_task.
  destruct (bool_decide _); (destruct (ready_from _ _ _ _); [|done]); by destruct (_ =? _).
Qed.

Lemma wake_blocked_ok rest st : sched_ok rest st -> sched_ok rest (task_wake_blocked st).
Proof.
  intros (Hpre & Hcur). assert (Hk : keeps_owned (fun t => if bool_decide (t_state t = TASK_BLOCKED) then with_state TASK_READY t else t)).
  { intros t. by destruct (bool_decide _). }
  split.
  - apply pre_map; [done | done|]. intros t Ht. destruct (bool_decide _); [done|]. by apply (so_running _ _ Hpre).
  - unfold current, task_wake_blocked in *. cbn [with_tasks current_task task_list]. rewrite task_at_map; [|intros t; apply Hk|apply Hpre].
    by rewrite Hcur.
Qed.

(** An event leaves a ready task ready and no further away, and a decision
    brings it closer, unless it runs. *)
Lemma event_ahead rest e st a k : sched_ok rest st -> preemption_enabled st = true ->
  a ∈ addresses (task_list st) -> t_state (task_at a (task_list st)) = TASK_READY -> ahead a st k ->
  let st' := run_event e st in
  sched_ok rest st' /\ preemption_enabled st' = true /\
  (current_task st' = a \/
   a ∈ addresses (task_list st') /\ t_state (task_at a (task_list st')) = TASK_READY /\
   exists k', (k' + (if decides e then 1 else 0) <= k)%nat /\ ahead a st' k').
Proof.
  intros Hok Hp Hin Hr Hah. cbv zeta. pose proof Hok as (Hpre & Hcur).
  assert (Ha : a <> current_task st) by (intros ->; unfold current in Hcur; congruence).
  destruct (decides e) eqn:He.
  - destruct (run_event_shape e st He (fun _ _ _ => Hp)) as (f & clean & now & sp & Hf & Hrun & ->).
    assert (Hf' : keeps_address f) by (intros t; apply Hf).
    set (st1 := with_tasks st (update (current_task st) f (task_list st))).
    assert (Hpre1 : sched_pre rest st1) by (by apply pre_update).
    assert (Eadd : addresses (task_list st1) = addresses (task_list st)) by (by apply addresses_update).
    assert (Est : task_at a (task_list st1) = task_at a (task_list st)).
    { unfold st1. cbn [with_tasks task_list]. rewrite task_at_update by done. by rewrite decide_False. }
    destruct (schedule_ahead rest clean now sp st1 a k Hpre1 Ha) as (Hok' & Hin' & Hd); [by rewrite Eadd | by rewrite Est | by apply (ahead_addresses a st)|].
    split; [done|]. split; [by rewrite schedule_preemption|]. destruct Hd as [|(_ & Hr' & k' & Hk & Hah')]; [by left|]. right.
    split; [done|]. split; [done|]. exists k'. split; [lia | done].
  - destruct e; try done. cbn [run_event]. split; [by apply wake_blocked_ok|]. split; [done|]. right.
    assert (Hk : keeps_address (fun t => if bool_decide (t_state t = TASK_BLOCKED) then with_state TASK_READY t else t)).
    { intros t. by destruct (bool_decide _). }
    unfold task_wake_blocked. cbn [with_tasks task_list]. rewrite addresses_map, task_at_map by done. split; [done|]. split; [by rewrite Hr|].
    exists k. split; [lia|]. apply (ahead_addresses a st); [|done | done]. by apply addresses_map.
Qed.

(** Some number of tasks smaller than that of all tasks comes before a ready
    one. *)
Lemma ready_ahead rest st a : sched_ok rest st -> a ∈ addresses (task_list st) -> t_state (task_at a (task_list st)) = TASK_READY ->
  exists k, (k < length (task_list st))%nat /\ ahead a st k.
Proof.
  intros Hok Hin Hr. destruct (split_current rest st (proj1 Hok)) as (pre & cur & post & El & Ec).
  assert (Ha : a ∈ t_address <$> post ++ pre).
  { rewrite El in Hin. unfold addresses in Hin. rewrite fmap_app, fmap_cons in Hin. rewrite fmap_app.
    apply elem_of_app in Hin as [?|Hin]; [apply elem_of_app; by right|]. apply elem_of_cons in Hin as [->|?]; [|apply elem_of_app; by left].
    rewrite Ec in Hr. destruct Hok as (_ & Hc). unfold current in Hc. congruence. }
  apply list_elem_of_split in Ha as (r1 & r2 & E). exists (length r1). split.
  - apply (f_equal length) in E. rewrite length_fmap, !length_app in E. rewrite El, length_app. simpl in *. lia.
  - exists (t_address <$> pre), (t_address <$> post), r1, r2. unfold addresses. rewrite El, fmap_app, fmap_cons, Ec, <- fmap_app. done.
Qed.


(** ** Creation *)

Lemma pre_world rest rest' st w : sched_pre rest st -> held w (owned_by (tail (task_list st)) ++ rest') -> sched_pre rest' (with_world st w).
Proof. intros [? ? ? ? ? ? ?] Hh. by split. Qed.

Lemma owned_by_app l1 l2 : owned_by (l1 ++ l2) = owned_by l1 ++ owned_by l2.
Proof. unfold owned_by. by rewrite fmap_app, concat_app. Qed.

(** [spaces space] is what the new task takes over from its creator. *)
Definition spaces (space : Z) : list resource := if space =? KERNEL_SPACE then [] else [Space space].

Lemma task_address_fresh rest st a l : sched_pre rest st -> (TaskBlock a ∉ owned_by (tail (task_list st)) ++ l) -> a <> MAIN_TASK ->
  a ∉ addresses (task_list st).
Proof.
  intros Hpre Hnot Hm Hin. destruct (so_main _ _ Hpre) as (m & tl & El & Em & Eo). rewrite El in *. simpl in Hnot.
  unfold addresses in Hin. rewrite fmap_cons in Hin. apply elem_of_cons in Hin as [E|Hin]; [congruence|].
  apply list_elem_of_fmap in Hin as (t & -> & Ht). apply Hnot. apply elem_of_app. left. unfold owned_by.
  apply list_elem_of_In, in_concat. exists (owned t). split; [|by left]. apply list_elem_of_In, list_elem_of_fmap_2. done.
Qed.

(** A new task is the last of the list, ready, with a fresh id and what was
    allocated for it; a failed creation gives everything back. *)
Lemma create_spec rest name entry argument space st : sched_ok (spaces space ++ rest) st -> next_task_id st < UINT64_MAX ->
  let '(id, st') := task_create_in_space name entry argument space st in
  (id = UINT64_MAX /\ sched_ok (spaces space ++ rest) st' /\ task_list st' = task_list st) \/
  (id = next_task_id st /\ sched_ok rest st' /\ exists t, task_list st' = task_list st ++ [t] /\ t_id t = id /\
     t_state t = TASK_READY /\ t_entry t = entry /\ t_argument t = argument /\ t_space t = space /\ next_task_id st' = id + 1).
Proof.
  intros (Hpre & Hcur) Hid. unfold task_create_in_space. destruct (_ || _ || _) eqn:Eargs; [by left|].
  assert (Hspace : space <> 0) by (apply orb_false_iff in Eargs as (_ & Eargs); by apply Z.eqb_neq).
  pose proof (task_alloc_spec (world st) _ (so_held _ _ Hpre)) as Ha. destruct (task_alloc (world st)) as ([a|], w1).
  2:{ left. split; [done|]. split; [|done]. split; [by apply (pre_world (spaces space ++ rest)) | done]. }
  destruct Ha as (Ha0 & Ham & Hfresh & Hh1).
  pose proof (stack_alloc_spec w1 TASK_STACK_PAGES _ Hh1) as Hs. destruct (stack_alloc TASK_STACK_PAGES w1) as ([stack|], w2).
  2:{ left. split; [done|]. split; [|done]. split; [|done]. apply (pre_world (spaces space ++ rest)); [done|]. by apply task_free_spec. }
  destruct Hs as (Htop & Hh2).
  pose proof (stack_alloc_spec w2 TASK_FAULT_STACK_PAGES _ Hh2) as Hs. destruct (stack_alloc TASK_FAULT_STACK_PAGES w2) as ([fault|], w3).
  2:{ left. split; [done|]. split; [|done]. split; [|done]. apply (pre_world (spaces space ++ rest)); [done|].
      apply task_free_spec, stack_free_spec. done. }
  destruct Hs as (_ & Hh3). destruct (push_words _ _ _) as (sp, m). right. split; [done|].
  set (t := mk_task a sp (next_task_id st) name TASK_READY entry argument stack fault space (negb (space =? KERNEL_SPACE)) 0).
  pose proof (task_address_fresh _ st a _ Hpre Hfresh Ham) as Hnew.
  pose proof Hpre as [(m0 & tl & El & Em & Eo) Hnd Hc Hrun (Hids & Hlt) Hsp Hheld].
  assert (Hu : is_u64 (next_task_id st + 1)).
  { rewrite El in Hlt. apply Forall_cons in Hlt as (Hlt & _). unfold is_u64, UINT64_MAX in *. lia. }
  split; [|exists t; simpl; rewrite u64_small by done; done].
  split.
  - split; cbn [task_list current_task next_task_id world].
    + exists m0, (tl ++ [t]). by rewrite El.
    + unfold addresses. rewrite fmap_app. apply NoDup_app. split; [done|]. split; [|apply NoDup_singleton].
      intros x Hx Hx'. apply list_elem_of_singleton in Hx'. simpl in Hx'. by subst x.
    + unfold addresses. rewrite fmap_app. apply elem_of_app. by left.
    + intros x Hx Hs. apply elem_of_app in Hx as [Hx|Hx]; [by apply Hrun|]. apply list_elem_of_singleton in Hx. by subst x.
    + rewrite u64_small by done. split.
      * rewrite fmap_app. apply NoDup_app. split; [done|]. split; [|apply NoDup_singleton]. intros i Hi Hi'.
        apply list_elem_of_singleton in Hi'. simpl in Hi'. subst i. apply list_elem_of_fmap in Hi as (x & Ex & Hx).
        rewrite Forall_forall in Hlt. specialize (Hlt x Hx). simpl in Hlt. lia.
      * apply Forall_app. split; [eapply Forall_impl; [exact Hlt|]; simpl; lia|]. apply Forall_singleton. simpl.
        rewrite El in Hlt. apply Forall_cons in Hlt as (Hlt & _). lia.
    + apply Forall_app. split; [done|]. by apply Forall_singleton.
    + rewrite El in *. simpl in *. eapply held_perm; [|exact Hh3]. rewrite owned_by_app. change (owned_by [t]) with (owned t ++ []). unfold owned, t. cbn [t_address t_stack t_fault_stack t_owns_space t_space].
      unfold spaces. destruct (space =? KERNEL_SPACE); simpl; solve_Permutation.
  - unfold current in *. cbn [task_list current_task]. destruct (task_at_in _ _ Hc) as (Hin & E).
    rewrite <- E at 1. rewrite task_at_elem; [by rewrite Hcur| |apply elem_of_app; by left].
    unfold addresses. rewrite fmap_app. apply NoDup_app. split; [done|]. split; [|apply NoDup_singleton].
    intros x Hx Hx'. apply list_elem_of_singleton in Hx'. simpl in Hx'. by subst x.
Qed.

(** ** Sequences of operations *)

(** [rest] and [rest'] are what others hold before and after: an address space
    passes from its creator to a new task or is exchanged. *)
Inductive sched_step : list resource -> scheduler -> list resource -> scheduler -> Prop :=
| step_event rest st e : sched_step rest st rest (run_event e st)
| step_create rest st name entry argument : next_task_id st < UINT64_MAX ->
    sched_step rest st rest (snd (task_create name entry argument st))
| step_create_in_space rest st name entry argument space id st' :
    next_task_id st < UINT64_MAX -> space <> KERNEL_SPACE ->
    task_create_in_space name entry argument space st = (id, st') ->
    sched_step (Space space :: rest) st (if id =? UINT64_MAX then Space space :: rest else rest) st'
| step_cancel rest st id : sched_step rest st rest (snd (task_cancel_ready id st))
| step_replace rest st space previous st' : space <> KERNEL_SPACE -> task_replace_address_space space st = (previous, st') ->
    sched_step (Space space :: rest) st (if previous =? 0 then Space space :: rest else Space previous :: rest) st'
| step_count rest st : sched_step rest st rest (snd (task_count st))
| step_info rest st index info : sched_step rest st rest (snd (task_get_info index info st))
| step_preemption rest st : sched_step rest st rest (task_enable_preemption st).

Inductive sched_run : list resource -> scheduler -> list resource -> scheduler -> Prop :=
| run_nil rest st : sched_run rest st rest st
| run_cons rest st rest1 st1 rest2 st2 : sched_step rest st rest1 st1 -> sched_run rest1 st1 rest2 st2 -> sched_run rest st rest2 st2.

Lemma event_ok rest e st : sched_ok rest st -> sched_ok rest (run_event e st).
Proof.
  intros Hok. destruct (decides e) eqn:He; [|destruct e; try done; by apply wake_blocked_ok].
  assert (Hcase : run_event e st = st \/ forall now sp, e = Preempt now sp -> preemption_enabled st = true).
  { destruct e as [now sp|now sp|now sp|ms now later sp|now sp|]; try (by right). destruct (preemption_enabled st) eqn:Ep; [by right|].
    left. cbn [run_event]. unfold task_preempt. by rewrite Ep. }
  destruct Hcase as [->|Hp]; [done|]. destruct (run_event_shape e st He Hp) as (f & clean & now & sp & Hf & Hrun & ->).
  assert (Hpre1 : sched_pre rest (with_tasks st (update (current_task st) f (task_list st)))) by (apply pre_update; [apply Hok | done | done]).
  destruct (schedule_spec rest clean now sp _ Hpre1) as (Hpre0 & Ec & Hs). destruct (split_current rest _ Hpre0) as (pre & cur & post & El & E).
  specialize (Hs pre cur post El (eq_trans E Ec)). destruct (schedule _ _ _ _) as (sw, st'). apply Hs.
Qed.

Lemma cancel_ok rest id st : sched_ok rest st -> sched_ok rest (snd (task_cancel_ready id st)).
Proof.
  intros (Hpre & Hcur). unfold task_cancel_ready. destruct (list_find _ _) as [(i, t)|]; [|done].
  destruct (_ || _) eqn:E; [done|]. apply orb_false_iff in E as (E & _). apply Z.eqb_neq in E. split; [by apply pre_update|].
  unfold current in *. cbn [snd set_state with_tasks current_task task_list]. rewrite task_at_update; [|done|apply Hpre].
  by rewrite decide_False.
Qed.

Lemma zombies_ok rest st : sched_ok rest st -> sched_ok rest (remove_zombies st).
Proof.
  intros (Hpre & Hcur). destruct (remove_zombies_spec rest st Hpre) as (Hpre' & El & Ec). split; [done|].
  unfold current in *. destruct (task_at_in _ _ (so_current _ _ Hpre')) as (Hin & E). rewrite <- Hcur. f_equal.
  rewrite <- (task_at_elem (task_list st) (task_at (current_task (remove_zombies st)) (task_list (remove_zombies st)))); [by rewrite E, Ec | apply Hpre|].
  rewrite El in Hin at 2. unfold survivors in Hin. destruct (task_list st) as [|m l]; [by apply elem_of_nil in Hin|].
  apply elem_of_cons in Hin as [Hin|Hin]; [rewrite Hin at 1; by left|]. right. eapply elem_of_sublist; [exact Hin | apply filter_sublist].
Qed.

Lemma replace_ok rest space st previous st' : sched_ok (Space space :: rest) st -> space <> KERNEL_SPACE ->
  task_replace_address_space space st = (previous, st') ->
  if previous =? 0 then st' = st else sched_ok (Space previous :: rest) st'.
Proof.
  intros (Hpre & Hcur) Hk. unfold task_replace_address_space. destruct (_ || _) eqn:Es; [by intros [= <- <-]|].
  assert (Hspace : space <> 0) by (apply orb_false_iff in Es as (Es & _); by apply Z.eqb_neq). clear Es.
  destruct (_ || _) eqn:E; [by intros [= <- <-]|]. apply orb_false_iff in E as (Ho & E). apply negb_false_iff in Ho. apply Z.eqb_neq in E.
  pose proof Hpre as [(m & l & El & Em & Eo) Hnd Hc Hrun (Hid & Hlt) Hsp Hheld].
  destruct (task_at_in _ _ Hc) as (Hin & Ea). fold (current st) in Hin, Ea. set (t := current st) in *.
  assert (Hl : t ∈ l) by (rewrite El in Hin; apply elem_of_cons in Hin as [Hin|]; [congruence | done]).
  apply list_elem_of_split in Hl as (l1 & l2 & ->). assert (Hsplit : task_list st = (m :: l1) ++ t :: l2) by done.
  assert (Hlist : update (current_task st) (with_space space) (task_list st) = (m :: l1) ++ with_space space t :: l2).
  { rewrite Hsplit in *. by apply update_middle. }
  intros [= <- <-]. rewrite (proj2 (Z.eqb_neq (t_space t) 0)) by (rewrite Forall_forall in Hsp; by apply Hsp).
  rewrite Hlist. rewrite Hsplit in *.
  split.
  - split; cbn [task_list current_task next_task_id world].
    + by exists m, (l1 ++ with_space space t :: l2).
    + unfold addresses in *. rewrite fmap_app, fmap_cons in *. done.
    + unfold addresses in *. rewrite fmap_app, fmap_cons in *. done.
    + intros x Hx Hs. apply elem_of_app in Hx as [Hx|Hx]; [apply Hrun; [apply elem_of_app; by left | done]|].
      apply elem_of_cons in Hx as [->|Hx]; [done|]. apply Hrun; [apply elem_of_app; right; by right | done].
    + rewrite fmap_app, fmap_cons in *. split; [done|]. apply Forall_app in Hlt as (? & Hlt). apply Forall_cons in Hlt as (? & ?).
      apply Forall_app. split; [done|]. by apply Forall_cons.
    + apply Forall_app in Hsp as (? & Hsp). apply Forall_cons in Hsp as (? & ?). apply Forall_app. split; [done|]. by apply Forall_cons.
    + simpl in *. eapply held_perm; [|exact Hheld]. rewrite !owned_by_app. change (owned_by (?x :: l2)) with (owned x ++ owned_by l2).
      unfold owned. rewrite Ho. cbn [with_space t_address t_stack t_fault_stack t_owns_space t_space]. solve_Permutation.
  - unfold current. cbn [task_list current_task]. rewrite <- Ea. change (t_address t) with (t_address (with_space space t)).
    rewrite task_at_elem; [done | | apply elem_of_app; right; by left]. unfold addresses in *. rewrite fmap_app, fmap_cons in *. done.
Qed.

Lemma step_ok rest st rest' st' : sched_step rest st rest' st' -> sched_ok rest st -> sched_ok rest' st'.
Proof.
  destruct 1 as [rest st e|rest st name entry argument Hid|rest st name entry argument space id st' Hid Hk E|rest st id|
                 rest st space previous st' Hk E|rest st|rest st index info|rest st]; intros Hok.
  - by apply event_ok.
  - pose proof (create_spec rest name entry argument KERNEL_SPACE st Hok Hid) as H1. unfold task_create.
    destruct (task_create_in_space _ _ _ _ _) as (id, st'). by destruct H1 as [(_ & ? & _)|(_ & ? & _)].
  - pose proof (create_spec rest name entry argument space st) as H1. unfold spaces in H1. rewrite (proj2 (Z.eqb_neq space KERNEL_SPACE)) in H1 by done.
    specialize (H1 Hok Hid). rewrite E in H1. destruct H1 as [(-> & ? & _)|(-> & ? & _)]; [by rewrite Z.eqb_refl|].
    rewrite (proj2 (Z.eqb_neq _ _)) by lia. done.
  - by apply cancel_ok.
  - pose proof (replace_ok rest space st previous st' Hok Hk E) as H1. destruct (previous =? 0); [by subst | done].
  - by apply zombies_ok.
  - unfold task_get_info. destruct (negb info); [done | by apply zombies_ok].
  - destruct Hok as ([? ? ? ? ? ? ?] & ?). split; [by split | done].
Qed.

Lemma run_ok rest st rest' st' : sched_run rest st rest' st' -> sched_ok rest st -> sched_ok rest' st'.
Proof. induction 1 as [|rest st rest1 st1 rest2 st2 Hs _ IH]; [done|]. intros Hok. apply IH. by apply (step_ok rest st). Qed.

Lemma run_event_snoc rest st rest' st' e : sched_run rest st rest' st' -> sched_run rest st rest' (run_event e st').
Proof.
  induction 1 as [rest st|rest st rest1 st1 rest2 st2 Hs _ IH]; [eapply run_cons; [apply step_event | constructor]|].
  by eapply run_cons.
Qed.

Lemma init_ok rest sp st : held (world st) rest -> 0 < next_task_id st -> sched_ok rest (task_init sp st).
Proof.
  intros Hh Hid. split; [|done]. split; cbn [task_init task_list current_task next_task_id world].
  - by eexists _, [].
  - apply NoDup_singleton.
  - by left.
  - intros t Ht _. apply list_elem_of_singleton in Ht. by subst t.
  - split; [apply NoDup_singleton|]. apply Forall_singleton. simpl. lia.
  - by apply Forall_singleton.
  - done.
Qed.

(** C22 From [task_init] on, after any sequence of creations, cancellations,
    switches, sleeps, wake-ups, exits and exchanges of address spaces, the
    tasks of the list have distinct addresses and ids, the current task is one
    of them and it is running, no other one is, the kernel task is the head of
    the list, and what is held of task blocks, stacks and address spaces is
    exactly what the other tasks of the list own and the rest that belongs to
    others: nothing leaks and nothing is freed twice. *)
Theorem scheduler_trace rest sp st0 rest' st : held (world st0) rest -> 0 < next_task_id st0 ->
  sched_run rest (task_init sp st0) rest' st ->
  NoDup (t_id <$> task_list st) /\ NoDup (addresses (task_list st)) /\
  (exists t, t ∈ task_list st /\ t_address t = current_task st /\ t_state t = TASK_RUNNING) /\
  (forall t, t ∈ task_list st -> t_state t = TASK_RUNNING <-> t_address t = current_task st) /\
  (exists main l, task_list st = main :: l /\ t_address main = MAIN_TASK /\ held (world st) (owned_by l ++ rest')).
Proof.
  intros Hh Hid Hrun. destruct (run_ok _ _ _ _ Hrun (init_ok rest sp st0 Hh Hid)) as (Hpre & Hcur).
  split; [apply Hpre|]. split; [apply Hpre|]. split; [|split].
  - destruct (task_at_in _ _ (so_current _ _ Hpre)) as (Hin & E). by exists (current st).
  - intros t Ht. split; [by apply Hpre|]. intros E. unfold current in Hcur. rewrite <- E in Hcur.
    by rewrite (task_at_elem _ t (so_nodup _ _ Hpre) Ht) in Hcur.
  - destruct (so_main _ _ Hpre) as (m & l & El & Em & _). exists m, l. pose proof (so_held _ _ Hpre) as Hl. by rewrite El in Hl.
Qed.

End Scheduler.
Arguments scheduler : clear implicits.
Arguments mk_scheduler {W}.

(** ** A pool of resources *)

(** Addresses are handed out in ascending order up to a bound. *)
Record pool := mk_pool { pool_held : list resource; pool_next : Z }.

#[export] Instance kernel_stack_eq : EqDecision kernel_stack.
Proof. solve_decision. Defined.
#[export] Instance resource_eq : EqDecision resource.
Proof. solve_decision. Defined.

Fixpoint remove_one (r : resource) (l : list resource) : list resource :=
  match l with
  | [] => []
  | x :: l => if decide (x = r) then l else x :: remove_one r l
  end.

Definition pool_free (r : resource) (w : pool) : pool := mk_pool (remove_one r (pool_held w)) (pool_next w).

Definition pool_ok (w : pool) (l : list resource) : Prop :=
  pool_held w ≡ₚ l /\ 4096 <= pool_next w /\ forall a, TaskBlock a ∈ l -> a < pool_next w.

Lemma remove_one_perm r l l' : l ≡ₚ r :: l' -> remove_one r l ≡ₚ l'.
Proof.
  intros Hp. assert (Hin : r ∈ l) by (rewrite Hp; by left).
  assert (E : l ≡ₚ r :: remove_one r l).
  { clear Hp. induction l as [|x l IH]; [by apply elem_of_nil in Hin|]. simpl. destruct (decide (x = r)) as [->|Hne]; [done|].
    apply elem_of_cons in Hin as [->|Hin]; [done|]. rewrite (IH Hin) at 1. apply perm_swap. }
  apply (Permutation_cons_inv (a := r)). by rewrite <- E, Hp.
Qed.

Lemma pool_free_ok r w l : pool_ok w (r :: l) -> pool_ok (pool_free r w) l.
Proof. intros (Hp & Hn & Hlt). split; [by apply remove_one_perm|]. split; [done|]. intros a Ha. apply Hlt. by right. Qed.

Program Instance pool_resources : TaskResources pool := {
  task_alloc w := if pool_next w <? 2 ^ 30 then (Some (pool_next w), mk_pool (TaskBlock (pool_next w) :: pool_held w) (pool_next w + 4096))
                  else (None, w);
  task_free a w := pool_free (TaskBlock a) w;
  stack_alloc n w := if pool_next w <? 2 ^ 30 then
      let s := mk_stack 0 0 (4096 * pool_next w) n in (Some s, mk_pool (StackPages s :: pool_held w) (pool_next w + 4096))
    else (None, w);
  stack_free s w := pool_free (StackPages s) w;
  space_destroy s w := pool_free (Space s) w;
  held := pool_ok;
}.
Next Obligation. intros w l l' Hp (H1 & H2 & H3). split; [by rewrite H1|]. split; [done|]. intros a Ha. apply H3. by rewrite Hp. Qed.
Next Obligation.
  intros w l (H1 & H2 & H3). destruct (_ <? _); [|done]. split; [lia|]. split; [unfold MAIN_TASK; lia|].
  assert (Hn : TaskBlock (pool_next w) ∉ l) by (intros Hin; apply H3 in Hin; lia). split; [done|]. split; [simpl; by rewrite H1|].
  simpl. split; [lia|]. intros a Ha. apply elem_of_cons in Ha as [[= ->]|Ha]; [lia|]. apply H3 in Ha. lia.
Qed.
Next Obligation. intros. by apply pool_free_ok. Qed.
Next Obligation.
  intros w n l (H1 & H2 & H3). destruct (_ <? _); [|done]. cbv zeta. split; [simpl; rewrite Z.mul_comm; by apply Z.mod_mul|].
  split; [simpl; by rewrite H1|]. simpl. split; [lia|]. intros a Ha. apply elem_of_cons in Ha as [|Ha]; [done|]. apply H3 in Ha. lia.
Qed.
Next Obligation. intros. by apply pool_free_ok. Qed.
Next Obligation. intros. by apply pool_free_ok. Qed.

Definition boot_sched : scheduler pool := mk_scheduler [] 0 1 false 0 0 0 ∅ (mk_pool [Space 77] 4096).
Definition two_tasks : scheduler pool :=
  task_enable_preemption (snd (task_create_in_space 5 6 0 77 (snd (task_create 5 6 0 (task_init 9000 boot_sched))))).

Lemma boot_sched_held : held (world boot_sched) [Space 77].
Proof. split; [done|]. split; [done|]. intros a Ha. by apply list_elem_of_singleton in Ha. Qed.

Lemma two_tasks_run : sched_run [Space 77] (task_init 9000 boot_sched) [] two_tasks.
Proof.
  eapply run_cons; [by apply (step_create [Space 77] _ 5 6 0)|].
  eapply run_cons; [by eapply (step_create_in_space [] _ 5 6 0 77); [done | done | vm_compute; reflexivity]|].
  eapply run_cons; [apply step_preemption|]. match goal with |- sched_run ?r ?s _ _ => replace r with (@nil resource) by done; replace s with two_tasks by done end.
  constructor.
Qed.

(** The first new task sleeps, so the second and then the kernel run. *)
Definition sample_events : list event := [Yield 10 100; Sleep 50 10 10 200; WakeBlocked; Preempt 20 300; Block 30 400].


Lemma scheduler_trace_witness : NoDup (t_id <$> task_list (run_events sample_events two_tasks)) /\ length (task_list two_tasks) = 3%nat.
Proof.
  split; [|vm_compute; reflexivity].
  refine (proj1 (scheduler_trace [Space 77] 9000 boot_sched [] (run_events sample_events two_tasks) boot_sched_held eq_refl _)).
  assert (Happ : forall es st, sched_run [Space 77] (task_init 9000 boot_sched) [] st -> sched_run [Space 77] (task_init 9000 boot_sched) [] (run_events es st)).
  { intros es. induction es as [|e es IH]; intros st Hrun; [exact Hrun|]. by apply (IH (run_event e st)), run_event_snoc. }
  apply Happ, two_tasks_run.
Defined.

End Task.
