(* ===== verification/TaskSwitch.v ===== *)
(** * TaskSwitch: the context switch and the scheduler's promises

    [task_context_switch] of src/kernel/task.c, instruction by instruction on
    the callee-saved registers, the stack pointer and memory, the first switch
    to a new task, and the theorems about a scheduling decision. *)

From S2P Require Import Prelude Memory Stack Task.
Import Memory.Memory Stack.Stack Task.Task.
Local Open Scope Z_scope.

Module TaskSwitch.

Record cpu := mk_cpu { rbx : Z; rbp : Z; r12 : Z; r13 : Z; r14 : Z; r15 : Z; rsp : Z; rip : Z }.

Definition callee_saved (c : cpu) : list Z := [rbx c; rbp c; r12 c; r13 c; r14 c; r15 c].

(** [popq]: the word and the new stack pointer. *)
Definition pop (sp : Z) (m : mem) : Z * Z := (read64 m sp, sp +! 8).

(** The callee: [%rsp] points to the return address that the call pushed.
    [old_slot] is [&previous->stack_pointer]. *)
Definition task_context_switch (old_slot new_stack_pointer : Z) (c : cpu) (m : mem) : cpu * mem :=
  let '(sp, m) := push_words (callee_saved c) (rsp c) m in
  let m := write64 m old_slot sp in
  let '(v15, sp) := pop new_stack_pointer m in
  let '(v14, sp) := pop sp m in
  let '(v13, sp) := pop sp m in
  let '(v12, sp) := pop sp m in
  let '(vbp, sp) := pop sp m in
  let '(vbx, sp) := pop sp m in
  let '(vip, sp) := pop sp m in
  (mk_cpu vbx vbp v12 v13 v14 v15 sp vip, m).

(** ** The stack *)

Definition words_ok (ws : list Z) : Prop := Forall is_u64 ws.

Lemma push_words_spec ws sp m : 8 * alen ws <= sp < 2 ^ 64 -> words_ok ws ->
  let '(sp', m') := push_words ws sp m in
  sp' = sp - 8 * alen ws /\
  (forall i w, ws !! i = Some w -> read64 m' (sp - 8 * (Z.of_nat i + 1)) = w) /\
  (forall x, ~ (sp' <= x < sp) -> rd m' x = rd m x).
Proof.
  revert sp m. induction ws as [|w ws IH]; intros sp m Hsp Hok; cbn [push_words].
  { unfold alen. simpl. split; [lia | done]. }
  apply Forall_cons in Hok as (Hw & Hok). assert (Hlen : alen (w :: ws) = alen ws + 1) by (unfold alen; simpl; lia).
  pose proof (alen_nonneg ws). assert (Esp : sp -! 8 = sp - 8) by (apply u64_small; unfold is_u64; lia). rewrite Esp.
  specialize (IH (sp - 8) (write64 m (sp - 8) w) ltac:(lia) Hok). destruct (push_words ws (sp - 8) _) as (sp', m').
  destruct IH as (-> & Hread & Hout). split; [lia|]. split.
  - intros [|i] v Hv; simpl in Hv.
    + simplify_eq. replace (sp - 8 * (Z.of_nat 0 + 1)) with (sp - 8) by lia.
      rewrite <- (read64_write64_eq m (sp - 8) v Hw). apply read64_ext. intros x Hx. apply Hout. lia.
    + rewrite <- (Hread i v Hv). f_equal. lia.
  - intros x Hx. rewrite Hout by lia. apply rd_write64_out. lia.
Qed.

(** Seven words from [sp] on. *)
Definition frame (m : mem) (sp : Z) (c : cpu) : Prop :=
  read64 m sp = r15 c /\ read64 m (sp + 8) = r14 c /\ read64 m (sp + 16) = r13 c /\ read64 m (sp + 24) = r12 c /\
  read64 m (sp + 32) = rbp c /\ read64 m (sp + 40) = rbx c /\ read64 m (sp + 48) = rip c /\ rsp c = sp + 56.

Definition cpu_ok (c : cpu) : Prop := words_ok (callee_saved c) /\ 48 <= rsp c /\ rsp c + 8 < 2 ^ 64.
Definition apart (a n b k : Z) : Prop := a + n <= b \/ b + k <= a.

(** The saved context of a task that called the switch: its own registers,
    with the return address and the stack pointer behind the call. *)
Definition resumed (c : cpu) (m : mem) : cpu :=
  mk_cpu (rbx c) (rbp c) (r12 c) (r13 c) (r14 c) (r15 c) (rsp c + 8) (read64 m (rsp c)).

Lemma frame_ext m m' sp c : (forall x, sp <= x < sp + 56 -> rd m' x = rd m x) -> frame m sp c -> frame m' sp c.
Proof.
  intros Hx (E0 & E1 & E2 & E3 & E4 & E5 & E6 & E7). unfold frame.
  rewrite !(read64_ext m' m) by (intros; apply Hx; lia). done.
Qed.

Lemma switch_enters old_slot c m sp d : cpu_ok c -> 0 <= sp -> sp + 56 < 2 ^ 64 -> apart old_slot 8 sp 56 ->
  apart (rsp c - 48) 48 sp 56 -> frame m sp d -> fst (task_context_switch old_slot sp c m) = d.
Proof.
  intros (Hw & Hlo & Hhi) H0 H1 Hslot Hstack Hframe. unfold task_context_switch.
  pose proof (push_words_spec (callee_saved c) (rsp c) m) as Hp. change (alen (callee_saved c)) with 6 in Hp.
  specialize (Hp ltac:(lia) Hw). destruct (push_words (callee_saved c) (rsp c) m) as (sp1, m1). destruct Hp as (-> & _ & Hout).
  set (m2 := write64 m1 old_slot (rsp c - 8 * 6)).
  assert (Hf : frame m2 sp d).
  { apply (frame_ext m); [|done]. intros x Hx. unfold m2, apart in *. rewrite rd_write64_out by lia. apply Hout. lia. }
  destruct Hf as (E0 & E1 & E2 & E3 & E4 & E5 & E6 & E7). unfold pop. cbn [fst].
  assert (Hadd : forall k, 0 <= k <= 48 -> (sp + k) +! 8 = sp + (k + 8)) by (intros; rewrite u64_small by (unfold is_u64; lia); lia).
  rewrite (u64_small (sp + 8)) by (unfold is_u64; lia). rewrite !Hadd by lia.
  change (8 + 8) with 16. change (16 + 8) with 24. change (24 + 8) with 32. change (32 + 8) with 40. change (40 + 8) with 48. change (48 + 8) with 56.
  rewrite E0, E1, E2, E3, E4, E5, E6. destruct d. simpl in *. by subst.
Qed.

(** What a switch leaves behind for the task that called it. *)
Lemma switch_saves old_slot sp c m : cpu_ok c -> apart old_slot 8 (rsp c - 48) 56 ->
  let m' := snd (task_context_switch old_slot sp c m) in
  read64 m' old_slot = rsp c - 48 /\ frame m' (rsp c - 48) (resumed c m).
Proof.
  intros (Hw & Hlo & Hhi) Hslot. unfold task_context_switch.
  pose proof (push_words_spec (callee_saved c) (rsp c) m) as Hp. change (alen (callee_saved c)) with 6 in Hp.
  specialize (Hp ltac:(lia) Hw). destruct (push_words (callee_saved c) (rsp c) m) as (sp1, m1). destruct Hp as (-> & Hread & Hout).
  cbn [snd]. change (8 * 6) with 48. split; [apply read64_write64_eq; unfold is_u64; lia|].
  apply (frame_ext m1); [intros x Hx; apply rd_write64_out; unfold apart in Hslot; lia|].
  assert (Hat : forall i w, callee_saved c !! i = Some w -> read64 m1 (rsp c - 48 + (40 - 8 * Z.of_nat i)) = w).
  { intros i w Hi. rewrite <- (Hread i w Hi). f_equal. lia. }
  unfold frame, resumed. cbn [rbx rbp r12 r13 r14 r15 rip rsp].
  rewrite <- (Hat 5%nat (r15 c)), <- (Hat 4%nat (r14 c)), <- (Hat 3%nat (r13 c)), <- (Hat 2%nat (r12 c)), <- (Hat 1%nat (rbp c)), <- (Hat 0%nat (rbx c)) by done.
  simpl Z.of_nat. split_and!; try (f_equal; lia); [|lia].
  replace (rsp c - 48 + 48) with (rsp c) by lia. apply read64_ext. intros x Hx. apply Hout. lia.
Qed.

(** C24 A task that is switched away resumes as if the call had returned: when
    another task switches back to the stack pointer saved for it, and nobody
    has written to its saved frame, all callee-saved registers have their old
    values, the stack pointer is behind the return address and execution
    continues there.  The frame of a new task enters [task_bootstrap] with the
    stack pointer that the calling convention asks for. *)
Theorem context_switch_resumes old_slot sp c m m2 old_slot2 c2 stack_top :
  let m1 := snd (task_context_switch old_slot sp c m) in
  let saved := rsp c - 48 in
  cpu_ok c -> cpu_ok c2 -> apart old_slot 8 saved 56 ->
  (forall x, saved <= x < saved + 56 -> rd m2 x = rd m1 x) ->
  read64 m2 old_slot = read64 m1 old_slot ->
  apart old_slot2 8 saved 56 -> apart (rsp c2 - 48) 48 saved 56 ->
  fst (task_context_switch old_slot2 (read64 m2 old_slot) c2 m2) = resumed c m /\
  (stack_top mod 16 = 0 -> 64 <= stack_top < 2 ^ 64 ->
   let '(new_sp, m3) := push_words [0; TASK_BOOTSTRAP; 0; 0; 0; 0; 0; 0] stack_top m2 in
   apart old_slot2 8 new_sp 64 -> apart (rsp c2 - 48) 48 new_sp 64 ->
   let d := fst (task_context_switch old_slot2 new_sp c2 m3) in
   d = mk_cpu 0 0 0 0 0 0 (stack_top - 8) TASK_BOOTSTRAP /\ rsp d mod 16 = 8).
Proof.
  intros m1 saved Hc Hc2 Hslot Hsame Hptr Hslot2 Hstack2. destruct (switch_saves old_slot sp c m Hc Hslot) as (E & Hframe).
  fold m1 saved in E, Hframe. rewrite Hptr, E. pose proof Hc as (_ & Hlo & Hhi). split.
  - apply switch_enters; try done; try (unfold saved; lia). by apply (frame_ext m1).
  - intros Hmod Htop. pose proof (push_words_spec [0; TASK_BOOTSTRAP; 0; 0; 0; 0; 0; 0] stack_top m2) as Hp.
    change (alen [0; TASK_BOOTSTRAP; 0; 0; 0; 0; 0; 0]) with 8 in Hp. specialize (Hp ltac:(lia)).
    destruct (push_words _ stack_top m2) as (new_sp, m3). destruct Hp as (-> & Hread & _).
    { unfold words_ok, is_u64, TASK_BOOTSTRAP. repeat (apply Forall_cons; split; [lia|]). done. }
    intros Hs2 Hst2. assert (Hat : forall i w, [0; TASK_BOOTSTRAP; 0; 0; 0; 0; 0; 0] !! i = Some w ->
      read64 m3 (stack_top - 8 * 8 + (56 - 8 * Z.of_nat i)) = w) by (intros i w Hi; rewrite <- (Hread i w Hi); f_equal; lia).
    assert (Ed : fst (task_context_switch old_slot2 (stack_top - 8 * 8) c2 m3) = mk_cpu 0 0 0 0 0 0 (stack_top - 8) TASK_BOOTSTRAP).
    { apply switch_enters; try done; try lia; try (unfold apart in *; lia). unfold frame. cbn [rbx rbp r12 r13 r14 r15 rip rsp].
      pose proof (Hat 7%nat 0 eq_refl) as H7. pose proof (Hat 6%nat 0 eq_refl) as H6. pose proof (Hat 5%nat 0 eq_refl) as H5.
      pose proof (Hat 4%nat 0 eq_refl) as H4. pose proof (Hat 3%nat 0 eq_refl) as H3. pose proof (Hat 2%nat 0 eq_refl) as H2.
      pose proof (Hat 1%nat TASK_BOOTSTRAP eq_refl) as H1. simpl Z.of_nat in *.
      split_and!; try lia; [rewrite <- H7|rewrite <- H6|rewrite <- H5|rewrite <- H4|rewrite <- H3|rewrite <- H2|rewrite <- H1]; f_equal; lia. }
    rewrite Ed. split; [done|]. cbn [rsp]. rewrite Zminus_mod, Hmod. done.
Qed.

(** ** A scheduling decision *)

Section Decisions.
Context {W : Type} `{TaskResources W}.
Implicit Type st : scheduler W.

(** A task that a decision at [now] can choose. *)
Definition runnable (now : Z) (t : task) : Prop :=
  t_state t = TASK_READY \/ (t_state t = TASK_SLEEPING /\ t_wake_at_ms t <= now).

Lemma runnable_woken now t : runnable now t <-> t_state (woken now t) = TASK_READY.
Proof.
  unfold runnable, woken. destruct (decide (t_state t = TASK_SLEEPING)) as [E|E].
  - rewrite bool_decide_true by done. cbn [andb]. destruct (Z.leb_spec (t_wake_at_ms t) now); cbn [with_state t_state].
    + split; [done|]. intros _. by right.
    + split; [intros [?|(_ & ?)]; [done | lia] | congruence].
  - rewrite bool_decide_false by done. cbn [andb]. split; [by intros [?|(? & _)] | by left].
Qed.

(** An exiting task finds another one to run exactly when there is one. *)
Lemma exit_leaves rest now sp st : sched_pre rest st ->
  fst (task_exit_current now sp st) = true <-> exists t, t ∈ task_list st /\ t_address t <> current_task st /\ runnable now t.
Proof.
  intros Hpre. unfold task_exit_current, task_yield. set (st1 := set_state (current_task st) TASK_ZOMBIE st).
  assert (Hpre1 : sched_pre rest st1) by (by apply pre_update).
  destruct (schedule_spec rest true now sp st1 Hpre1) as (Hpre2 & Ec2 & Hs2). cbv zeta in *.
  destruct (split_current rest _ Hpre2) as (pre2 & cur2 & post2 & El2 & E2). specialize (Hs2 pre2 cur2 post2 El2 (eq_trans E2 Ec2)).
  destruct (schedule true now sp st1) as (sw, st'). cbn [fst]. destruct Hs2 as (_ & _ & Hd & _).
  destruct (remove_zombies_spec rest st1 Hpre1) as (_ & Es & _). rewrite (survivors_filter rest st1 Hpre1) in Es.
  pose proof (so_nodup _ _ Hpre2) as Hnd. rewrite El2 in Hnd. apply round_nodup in Hnd as (_ & Hnc).
  assert (Hin : forall t, t ∈ post2 ++ pre2 <-> t ∈ task_list st1 /\ t_address t <> current_task st /\ ((t_address t =? MAIN_TASK) || kept (current_task st1) t) = true).
  { intros t. split.
    - intros Ht. assert (Hm : t ∈ task_list (remove_zombies st1)) by (rewrite El2; by apply round_elem).
      rewrite Es in Hm. apply list_elem_of_In, filter_In in Hm as (Hm & Hk). split_and!; [by apply list_elem_of_In | | done].
      intros E. apply Hnc. rewrite E2, Ec2. change (current_task st1) with (current_task st). rewrite <- E. by apply list_elem_of_fmap_2.
    - intros (Ht & Hne & Hk). assert (Hm : t ∈ pre2 ++ cur2 :: post2).
      { rewrite <- El2, Es. apply list_elem_of_In, filter_In. split; [by apply list_elem_of_In | done]. }
      apply elem_of_app in Hm as [?|Hm]; [apply elem_of_app; by right|]. apply elem_of_cons in Hm as [->|?]; [|apply elem_of_app; by left].
      destruct Hne. by rewrite E2, Ec2. }
  assert (Hsame : forall t, t_address t <> current_task st -> t ∈ task_list st1 <-> t ∈ task_list st).
  { intros t Hne. unfold st1, set_state, update. cbn [with_tasks task_list]. rewrite list_elem_of_fmap. split.
    - intros (x & -> & Hx). destruct (Z.eqb_spec (t_address x) (current_task st)); [by destruct Hne | done].
    - intros Ht. exists t. split; [|done]. by rewrite (proj2 (Z.eqb_neq _ _)). }
  destruct (first_ready (wake_sleepers now (post2 ++ pre2))) as [n|] eqn:En.
  - destruct Hd as (-> & _). split; [intros _ | done]. apply first_ready_Some in En as (y & Hy & _ & Hry).
    rewrite wake_sleepers_woken in Hy. apply list_elem_of_fmap in Hy as (x & -> & Hx). apply Hin in Hx as (Hx & Hne & _).
    exists x. split_and!; [by apply Hsame | done | by apply runnable_woken].
  - destruct Hd as (-> & _). split; [done|]. intros (t & Ht & Hne & Hr). exfalso.
    destruct (first_ready_split (wake_sleepers now (post2 ++ pre2)) (woken now t)) as (l1 & x & l2 & _ & Ef & _); [| |congruence].
    + rewrite wake_sleepers_woken. apply list_elem_of_fmap_2, Hin. split_and!; [by apply Hsame | done|]. unfold kept.
      rewrite bool_decide_false; [by rewrite andb_false_r, orb_true_r|]. destruct Hr as [->|(-> & _)]; done.
    + by apply runnable_woken.
Qed.

(** C23 A scheduling decision is round robin, whatever state the current task
    is in when [schedule] is called.  The tasks are searched in list order
    behind the current one and round to it; the first that is ready, or a
    sleeper whose time has come, runs next with its own stacks and address
    space, and the task that ran goes back to ready if it was running or is a
    sleeper whose time has come, and otherwise stays blocked, asleep or a
    zombie.  When there is no such task the current one stays current and is
    running afterwards.  No other task changes its state, except that sleepers
    are woken at their time and not before.  A task that exits does not return
    from the call exactly when some other task is ready or due. *)
Theorem schedule_correct rest clean now sp st pre cur post : sched_pre rest st ->
  task_list (if clean : bool then remove_zombies st else st) = pre ++ cur :: post -> t_address cur = current_task st ->
  let tasks := pre ++ cur :: post in
  (let '(switched, st') := schedule clean now sp st in
   sched_ok rest st' /\ addresses (task_list st') = addresses tasks /\
   match first_ready (wake_sleepers now (post ++ pre)) with
   | Some n => switched = true /\ current_task st' = n /\ n <> current_task st /\ active_space st' = t_space (task_at n tasks) /\
       kernel_stack_top st' = top (t_stack (task_at n tasks)) /\
       fault_stack_top st' = (if n =? MAIN_TASK then 0 else top (t_fault_stack (task_at n tasks))) /\
       t_state (task_at (current_task st) (task_list st')) =
         (if bool_decide (t_state cur = TASK_RUNNING) || bool_decide (t_state cur = TASK_SLEEPING) && (t_wake_at_ms cur <=? now)
          then TASK_READY else t_state cur)
   | None => switched = false /\ current_task st' = current_task st /\ t_state (task_at (current_task st) (task_list st')) = TASK_RUNNING
   end /\
   (forall t, t ∈ tasks -> t_address t <> current_task st -> t_address t <> current_task st' ->
      t_state (task_at (t_address t) (task_list st')) =
        if bool_decide (t_state t = TASK_SLEEPING) && (t_wake_at_ms t <=? now) then TASK_READY else t_state t)) /\
  (fst (task_exit_current now sp st) = true <-> exists t, t ∈ task_list st /\ t_address t <> current_task st /\ runnable now t).
Proof.
  intros Hpre El Ec. cbv zeta. split; [|by apply (exit_leaves rest)].
  destruct (schedule_spec rest clean now sp st Hpre) as (Hpre0 & Ec0 & Hs). specialize (Hs pre cur post El Ec). rewrite El in Hs.
  destruct (schedule clean now sp st) as (sw, st'). destruct Hs as (Hok & Ea & Hd & Ho). split; [done|]. split; [done|]. split.
  - destruct (first_ready _).
    + destruct Hd as (? & ? & ? & ? & ? & ? & Hst). repeat (split; [done|]). rewrite Hst. unfold woken, tired.
      destruct (bool_decide (t_state cur = TASK_RUNNING)); cbn [orb with_state t_state]; [by case_match|]. by destruct (_ && _).
    + destruct Hd as (? & E). split; [done|]. split; [done|]. rewrite <- E. apply Hok.
  - intros t Ht H1 H2. rewrite (Ho t Ht H1 H2). unfold woken. by destruct (_ && _).
Qed.

End Decisions.

(** ** Witnesses *)

Lemma two_tasks_ok : sched_ok [] two_tasks.
Proof. exact (run_ok _ _ _ _ two_tasks_run (init_ok _ _ _ boot_sched_held eq_refl)). Qed.

Lemma schedule_correct_witness :
  let st := run_events [Yield 10 100] two_tasks in
  current_task (snd (schedule true 10 100 two_tasks)) = 4096 /\ fst (task_exit_current 20 200 st) = true.
Proof.
  set (st := run_events [Yield 10 100] two_tasks). cbv zeta.
  assert (Hok : sched_ok [] st) by exact (event_ok [] (Yield 10 100) two_tasks two_tasks_ok).
  split.
  - pose proof (schedule_correct [] true 10 100 two_tasks [] (task_at MAIN_TASK (task_list two_tasks)) (tail (task_list two_tasks)) (proj1 two_tasks_ok)) as H.
    destruct H as (H & _); [vm_compute; reflexivity | vm_compute; reflexivity|].
    destruct (schedule true 10 100 two_tasks) as (sw, st'). destruct H as (_ & _ & H & _).
    assert (E : first_ready (wake_sleepers 10 (tail (task_list two_tasks) ++ [])) = Some 4096) by (vm_compute; reflexivity).
    rewrite E in H. exact (proj1 (proj2 H)).
  - destruct (schedule_correct [] true 20 200 st [task_at MAIN_TASK (task_list st)] (task_at 4096 (task_list st)) [task_at 16384 (task_list st)] (proj1 Hok)) as (_ & H).
    + vm_compute. reflexivity.
    + vm_compute. reflexivity.
    + apply H. exists (task_at MAIN_TASK (task_list st)). split; [vm_compute; left|]. split; [vm_compute; discriminate|]. left. vm_compute. reflexivity.
Defined.

Definition sample_cpu (sp : Z) : cpu := mk_cpu 11 12 13 14 15 16 sp 0.

Lemma context_switch_resumes_witness :
  let c := sample_cpu 1000 in
  let m := write64 ∅ 1000 77 in
  let m1 := snd (task_context_switch 5000 3000 c m) in
  fst (task_context_switch 5100 (read64 m1 5000) (sample_cpu 4000) m1) = mk_cpu 11 12 13 14 15 16 1008 77.
Proof.
  cbv zeta. transitivity (resumed (sample_cpu 1000) (write64 ∅ 1000 77)); [|vm_compute; reflexivity].
  assert (Hok : forall sp, 48 <= sp < 10000 -> cpu_ok (sample_cpu sp)).
  { intros sp Hsp. split; [|simpl; lia]. unfold words_ok, callee_saved, sample_cpu, is_u64. cbn. repeat (apply Forall_cons; split; [lia|]). apply Forall_nil_2. }
  refine (proj1 (context_switch_resumes 5000 3000 (sample_cpu 1000) (write64 ∅ 1000 77) _ 5100 (sample_cpu 4000) 8192 _ _ _ _ _ _ _)).
  - apply Hok. lia.
  - apply Hok. lia.
  - right. simpl. lia.
  - reflexivity.
  - reflexivity.
  - right. simpl. lia.
  - right. simpl. lia.
Defined.

End TaskSwitch.
