(* ===== verification/ProcessMem.v ===== *)
(** * ProcessMem: the memory of a process

    The part of src/kernel/process.c that manages the address space of a
    running process: the program break, anonymous mappings and demand paging.
    The state is the process table beside the page tables; [task_current_id()]
    is the argument [current_id] of the calls. *)

From S2P Require Import Prelude Memory Pmm PageTable Vmm VmmSafety VmmFork UserMem Usercopy Elf CString.
Import Memory.Memory Pmm.Pmm PageTable.PageTable Vmm.Vmm VmmSafety.VmmSafety VmmFork.VmmFork UserMem.UserMem CString.CString.
Local Open Scope Z_scope.

Module ProcessMem.

Definition USER_STACK_ADDRESS : Z := 0x0000000000800000.
Definition MAX_PROCESSES : Z := 16.
Definition MAX_MMAP_REGIONS : Z := 32.
Definition PROCESS_MEMORY_LIMIT_PAGES : Z := 16 * 1024 * 1024 / PMM_PAGE_SIZE.
Definition MMAP_ADDRESS_START : Z := 0x0000000100000000.
Definition MMAP_ADDRESS_LIMIT : Z := 0x00007F0000000000.

Definition CONEOS_PROT_READ : Z := 1.
Definition CONEOS_PROT_WRITE : Z := 2.
Definition CONEOS_PROT_EXEC : Z := 4.
Definition CONEOS_MAP_PRIVATE : Z := 1.
Definition CONEOS_MAP_ANONYMOUS : Z := 2.

Definition SYSCALL_ENOMEM : Z := -12.
Definition SYSCALL_EINVAL : Z := -22.

Record mmap_region := mk_region { r_start : Z; r_end : Z; protection : Z; r_used : bool }.

Inductive process_state := PROCESS_UNUSED | PROCESS_RUNNING | PROCESS_ZOMBIE.

#[global] Instance process_state_eq_dec : EqDecision process_state.
Proof. solve_decision. Defined.

Record process_record := mk_process {
  pid : Z; ppid : Z; p_state : process_state; exit_status : Z; p_space : option space;
  heap_base : Z; program_break : Z; committed_pages : Z; cwd : cstr; mappings : list mmap_region }.

Definition with_break (p : process_record) (b c : Z) : process_record :=
  mk_process (pid p) (ppid p) (p_state p) (exit_status p) (p_space p) (heap_base p) b c (cwd p) (mappings p).
Definition with_mappings (p : process_record) (c : Z) (m : list mmap_region) : process_record :=
  mk_process (pid p) (ppid p) (p_state p) (exit_status p) (p_space p) (heap_base p) (program_break p) c (cwd p) m.

Definition no_region : mmap_region := mk_region 0 0 0 false.
Definition no_process : process_record := mk_process 0 0 PROCESS_UNUSED 0 None 0 0 0 [] [].

Definition process_at (processes : list process_record) (i : Z) : process_record := aget no_process processes i.
Definition region_at (regions : list mmap_region) (i : Z) : mmap_region := aget no_region regions i.

Definition align_up_page (address : Z) : Z := (address +! PMM_PAGE_SIZE -! 1) &! not64 (PMM_PAGE_SIZE - 1).

Definition find_process (processes : list process_record) (id : Z) : option Z :=
  find_up (trips 0 MAX_PROCESSES) 0 (fun i =>
    negb (bool_decide (p_state (process_at processes i) = PROCESS_UNUSED)) && (pid (process_at processes i) =? id)).

Definition free_process_record (processes : list process_record) : option Z :=
  find_up (trips 0 MAX_PROCESSES) 0 (fun i => bool_decide (p_state (process_at processes i) = PROCESS_UNUSED)).

(** The running process with its space, or nothing. *)
Definition running (processes : list process_record) (current_id : Z) : option (Z * process_record * space) :=
  match find_process processes current_id with
  | None => None
  | Some i =>
      let process := process_at processes i in
      match p_space process with
      | Some sp => if bool_decide (p_state process = PROCESS_RUNNING) then Some (i, process, sp) else None
      | None => None
      end
  end.

(** ** process_brk *)

(** The bytes between two breaks that are mapped, cleared page by page. *)
Fixpoint clear_range (fuel : nat) (address requested : Z) (sp : space) (s : vmm_state) : vmm_state :=
  match fuel with
  | O => s
  | S fuel =>
      if negb (address <? requested) then s
      else
        let physical := vmm_space_translate (Some sp) address s in
        let amount := PMM_PAGE_SIZE -! (address &! (PMM_PAGE_SIZE - 1)) in
        let amount := if requested -! address <? amount then requested -! address else amount in
        let s := if physical =? PMM_INVALID_ADDRESS then s
                 else with_memory s (memset (memory s) physical 0 (Z.to_nat amount)) in
        clear_range fuel (address +! amount) requested sp s
  end.

(** [vmm_space_unmap_page] and the release of the frame. *)
Definition release_page (sp : space) (address : Z) (s : vmm_state) : vmm_state :=
  let '(physical, s) := vmm_space_unmap_page (Some sp) address s in
  if physical =? PMM_INVALID_ADDRESS then s else with_pmm s (snd (pmm_free_page physical (pmm s))).

(** [for (address = lo; address < hi; address += PMM_PAGE_SIZE)] *)
Definition page_trips (lo hi : Z) : nat := if lo <? hi then Z.to_nat ((hi - lo + PMM_PAGE_SIZE - 1) / PMM_PAGE_SIZE) else O.

Definition release_pages (sp : space) (lo hi : Z) (s : vmm_state) : vmm_state :=
  for_up (page_trips lo hi) 0 (fun i s => release_page sp (lo + i * PMM_PAGE_SIZE) s) s.

Definition heap_pages (process : process_record) (break : Z) : Z :=
  (align_up_page break -! heap_base process) / PMM_PAGE_SIZE.

Definition brk (process : process_record) (sp : space) (requested : Z) (s : vmm_state) : Z * process_record * vmm_state :=
  if requested =? 0 then (program_break process, process, s)
  else if (requested <? heap_base process) || (USER_STACK_ADDRESS -! PMM_PAGE_SIZE <? requested) then (SYSCALL_EINVAL, process, s)
  else
    let old_break := program_break process in
    let old_page := align_up_page old_break in
    let new_page := align_up_page requested in
    let old_heap_pages := heap_pages process old_break in
    let new_heap_pages := heap_pages process requested in
    if (old_heap_pages <? new_heap_pages) &&
       ((PROCESS_MEMORY_LIMIT_PAGES <? committed_pages process) ||
        (PROCESS_MEMORY_LIMIT_PAGES -! committed_pages process <? new_heap_pages -! old_heap_pages))
    then (SYSCALL_ENOMEM, process, s)
    else
      let s := if old_break <? requested then clear_range (Usercopy.Usercopy.page_fuel (requested - old_break)) old_break requested sp s
               else release_pages sp new_page old_page s in
      let committed := if old_heap_pages <=? new_heap_pages then committed_pages process +! (new_heap_pages -! old_heap_pages)
                       else committed_pages process -! (old_heap_pages -! new_heap_pages) in
      (requested, with_break process requested committed, s).

Definition process_brk (current_id requested : Z) (processes : list process_record) (s : vmm_state) :
    Z * list process_record * vmm_state :=
  match running processes current_id with
  | None => (SYSCALL_EINVAL, processes, s)
  | Some (i, process, sp) =>
      let '(r, process, s) := brk process sp requested s in (r, aset processes i process, s)
  end.

(** ** Anonymous mappings *)

Definition rounded_mapping_length (length : Z) : option Z :=
  if (length =? 0) || (UINT64_MAX -! (PMM_PAGE_SIZE - 1) <? length) then None
  else Some ((length +! PMM_PAGE_SIZE -! 1) &! not64 (PMM_PAGE_SIZE - 1)).

Definition find_free_mapping_slot (regions : list mmap_region) : option Z :=
  find_up (trips 0 MAX_MMAP_REGIONS) 0 (fun i => negb (r_used (region_at regions i))).

Definition mapping_covering (regions : list mmap_region) (address : Z) : option Z :=
  find_up (trips 0 MAX_MMAP_REGIONS) 0 (fun i =>
    let region := region_at regions i in r_used region && (r_start region <=? address) && (address <? r_end region)).

(** The highest end of the regions that overlap [candidate, candidate + length). *)
Definition next_region (regions : list mmap_region) (candidate length : Z) : Z :=
  for_up (trips 0 MAX_MMAP_REGIONS) 0 (fun i next =>
    let region := region_at regions i in
    if negb (r_used region) || (candidate +! length <=? r_start region) || (r_end region <=? candidate) then next
    else if next <? r_end region then r_end region else next) 0.

(** The first page of the range that is mapped. *)
Definition occupied_page (sp : space) (candidate length : Z) (s : vmm_state) : option Z :=
  find_up (page_trips candidate (candidate +! length)) 0 (fun i =>
    negb (vmm_space_translate (Some sp) (candidate + i * PMM_PAGE_SIZE) s =? PMM_INVALID_ADDRESS)).

(** One pass of the search from a candidate: the next candidate or the end. *)
Definition mapping_step (regions : list mmap_region) (sp : space) (length : Z) (s : vmm_state) (candidate : Z) : Z + option Z :=
  if negb (candidate <=? MMAP_ADDRESS_LIMIT -! length) then inr None
  else
    let next := next_region regions candidate length in
    if negb (next =? 0) then inl (align_up_page next)
    else
      match occupied_page sp candidate length s with
      | Some _ => inl (candidate +! PMM_PAGE_SIZE)
      | None => inr (Some candidate)
      end.

(** At most one pass per address below the limit. *)
Definition search_fuel : positive := Z.to_pos MMAP_ADDRESS_LIMIT.

Definition search_from (regions : list mmap_region) (sp : space) (length : Z) (s : vmm_state) (candidate : Z) : option Z :=
  match run_until search_fuel (mapping_step regions sp length s) candidate with
  | inr found => found
  | inl _ => None
  end.

Definition select_mapping_address (regions : list mmap_region) (sp : space) (hint length : Z) (s : vmm_state) : option Z :=
  let first := if hint =? 0 then MMAP_ADDRESS_START else hint in
  let second := negb (hint =? 0) && negb (hint =? MMAP_ADDRESS_START) in
  if MMAP_ADDRESS_LIMIT -! MMAP_ADDRESS_START <? length then None
  else
    match search_from regions sp length s first with
    | Some address => Some address
    | None => if second then search_from regions sp length s MMAP_ADDRESS_START else None
    end.

Definition valid_protection : Z := CONEOS_PROT_READ |! CONEOS_PROT_WRITE |! CONEOS_PROT_EXEC.
Definition WRITE_EXEC : Z := CONEOS_PROT_WRITE |! CONEOS_PROT_EXEC.

(** The arguments [process_mmap] refuses. *)
Definition mmap_refused (hint protection flags : Z) : bool :=
  negb ((protection &! not64 valid_protection) =? 0) || negb (has protection CONEOS_PROT_READ) ||
  ((protection &! WRITE_EXEC) =? WRITE_EXEC) || negb (flags =? (CONEOS_MAP_PRIVATE |! CONEOS_MAP_ANONYMOUS)) ||
  (negb (hint =? 0) &&
   (negb (hint mod PMM_PAGE_SIZE =? 0) || (hint <? MMAP_ADDRESS_START) || (MMAP_ADDRESS_LIMIT <=? hint))).

Definition mmap (process : process_record) (sp : space) (hint length protection flags : Z) (s : vmm_state) : Z * process_record :=
  match rounded_mapping_length length with
  | None => (SYSCALL_EINVAL, process)
  | Some rounded_length =>
      if mmap_refused hint protection flags then (SYSCALL_EINVAL, process)
      else
        match find_free_mapping_slot (mappings process) with
        | None => (SYSCALL_ENOMEM, process)
        | Some slot =>
            let mapping_pages := rounded_length / PMM_PAGE_SIZE in
            if (PROCESS_MEMORY_LIMIT_PAGES <? committed_pages process) ||
               (PROCESS_MEMORY_LIMIT_PAGES -! committed_pages process <? mapping_pages)
            then (SYSCALL_ENOMEM, process)
            else
              match select_mapping_address (mappings process) sp hint rounded_length s with
              | None => (SYSCALL_ENOMEM, process)
              | Some address =>
                  (address, with_mappings process (committed_pages process +! mapping_pages)
                     (aset (mappings process) slot (mk_region address (address +! rounded_length) protection true)))
              end
        end
  end.

Definition process_mmap (current_id hint length protection flags : Z) (processes : list process_record) (s : vmm_state) :
    Z * list process_record :=
  match running processes current_id with
  | None => (SYSCALL_EINVAL, processes)
  | Some (i, process, sp) =>
      let '(r, process) := mmap process sp hint length protection flags s in (r, aset processes i process)
  end.

(** [while (cursor < end)]: is the range covered by regions? *)
Definition cover_step (regions : list mmap_region) (end_ cursor : Z) : Z + bool :=
  if negb (cursor <? end_) then inr true
  else
    match mapping_covering regions cursor with
    | None => inr false
    | Some index =>
        let segment_end := r_end (region_at regions index) in
        inl (if end_ <? segment_end then end_ else segment_end)
    end.

Definition covered (regions : list mmap_region) (address end_ : Z) : bool :=
  match run_until search_fuel (cover_step regions end_) address with inr b => b | inl _ => false end.

Definition overlaps (region : mmap_region) (address end_ : Z) : bool :=
  r_used region && negb (r_end region <=? address) && negb (end_ <=? r_start region).

(** A region cut in its middle needs a second slot. *)
Definition split_region (regions : list mmap_region) (address end_ : Z) : option Z :=
  find_up (trips 0 MAX_MMAP_REGIONS) 0 (fun i =>
    let region := region_at regions i in
    overlaps region address end_ && (r_start region <? address) && (end_ <? r_end region)).

Definition cut_region (split_slot address end_ i : Z) (regions : list mmap_region) : list mmap_region :=
  let region := region_at regions i in
  if negb (overlaps region address end_) then regions
  else
    let cut_start := if r_start region <? address then address else r_start region in
    let cut_end := if end_ <? r_end region then end_ else r_end region in
    if (cut_start =? r_start region) && (cut_end =? r_end region) then
      aset regions i (mk_region (r_start region) (r_end region) (protection region) false)
    else if cut_start =? r_start region then aset regions i (mk_region cut_end (r_end region) (protection region) (r_used region))
    else if cut_end =? r_end region then aset regions i (mk_region (r_start region) cut_start (protection region) (r_used region))
    else
      aset (aset regions split_slot (mk_region cut_end (r_end region) (protection region) (r_used region))) i
        (mk_region (r_start region) cut_start (protection region) (r_used region)).

Definition munmap (process : process_record) (sp : space) (address length : Z) (s : vmm_state) : Z * process_record * vmm_state :=
  if negb (address mod PMM_PAGE_SIZE =? 0) then (SYSCALL_EINVAL, process, s)
  else
    match rounded_mapping_length length with
    | None => (SYSCALL_EINVAL, process, s)
    | Some rounded_length =>
        if (address <? MMAP_ADDRESS_START) || (MMAP_ADDRESS_LIMIT <=? address) || (MMAP_ADDRESS_LIMIT -! address <? rounded_length)
        then (SYSCALL_EINVAL, process, s)
        else
          let end_ := address +! rounded_length in
          if negb (covered (mappings process) address end_) then (SYSCALL_EINVAL, process, s)
          else
            let split := split_region (mappings process) address end_ in
            let slot := find_free_mapping_slot (mappings process) in
            if bool_decide (is_Some split) && bool_decide (slot = None) then (SYSCALL_ENOMEM, process, s)
            else
              let split_slot := if bool_decide (is_Some split) then default MAX_MMAP_REGIONS slot else MAX_MMAP_REGIONS in
              let s := release_pages sp address end_ s in
              let regions := for_up (trips 0 MAX_MMAP_REGIONS) 0 (cut_region split_slot address end_) (mappings process) in
              (0, with_mappings process (committed_pages process -! rounded_length / PMM_PAGE_SIZE) regions, s)
    end.

Definition process_munmap (current_id address length : Z) (processes : list process_record) (s : vmm_state) :
    Z * list process_record * vmm_state :=
  match running processes current_id with
  | None => (SYSCALL_EINVAL, processes, s)
  | Some (i, process, sp) =>
      let '(r, process, s) := munmap process sp address length s in (r, aset processes i process, s)
  end.

(** ** Demand paging *)

Definition FAULT_PRESENT : Z := 1.
Definition FAULT_WRITE : Z := 2.
Definition FAULT_USER : Z := 4.
Definition FAULT_RESERVED : Z := 8.
Definition FAULT_FETCH : Z := 16.

(** The protection of an address: that of the heap or of its region. *)
Definition address_protection (process : process_record) (address : Z) : Z :=
  if (heap_base process <=? address) && (address <? program_break process) then CONEOS_PROT_READ |! CONEOS_PROT_WRITE
  else
    match mapping_covering (mappings process) address with
    | Some index => protection (region_at (mappings process) index)
    | None => 0
    end.

Definition page_flags (protection : Z) : Z :=
  let flags := VMM_USER in
  let flags := if has protection CONEOS_PROT_WRITE then flags |! VMM_WRITABLE else flags in
  if negb (has protection CONEOS_PROT_EXEC) then flags |! VMM_NO_EXECUTE else flags.

(** A fresh cleared page for an address. *)
Definition demand_page (sp : space) (page_address flags : Z) (s : vmm_state) : Z * vmm_state :=
  let '(physical, p) := pmm_alloc_user_page (pmm s) in
  let s := with_pmm s p in
  if physical =? PMM_INVALID_ADDRESS then (-1, s)
  else
    let s := with_memory s (zero_page (memory s) physical) in
    let '(ok, s) := vmm_space_map_page (Some sp) page_address physical flags s in
    if negb ok then (-1, with_pmm s (snd (pmm_free_page physical (pmm s)))) else (1, s).

Definition page_fault (process : process_record) (sp : space) (address error_code : Z) (s : vmm_state) : Z * vmm_state :=
  if has error_code FAULT_PRESENT then
    if negb (has error_code FAULT_WRITE) then (0, s) else vmm_space_resolve_cow (Some sp) address s
  else
    let protection := address_protection process address in
    if negb (has protection CONEOS_PROT_READ) ||
       (has error_code FAULT_WRITE && negb (has protection CONEOS_PROT_WRITE)) ||
       (has error_code FAULT_FETCH && negb (has protection CONEOS_PROT_EXEC))
    then (0, s)
    else
      let page_address := address &! not64 (PMM_PAGE_SIZE - 1) in
      if negb (vmm_space_translate (Some sp) page_address s =? PMM_INVALID_ADDRESS) then (0, s)
      else demand_page sp page_address (page_flags protection) s.

Definition process_handle_page_fault (current_id address error_code : Z) (processes : list process_record) (s : vmm_state) :
    Z * vmm_state :=
  if negb (has error_code FAULT_USER) || has error_code FAULT_RESERVED then (0, s)
  else
    match running processes current_id with
    | None => (0, s)
    | Some (_, process, sp) => page_fault process sp address error_code s
    end.


End ProcessMem.
