(* ===== verification/ProcessSpace.v ===== *)
(** * ProcessSpace: what the memory calls of a process do

    The calls of [ProcessMem] against an abstract address space: which
    addresses a process has, and the byte it finds at each of them, a page not
    yet touched reading as zeros. *)

From S2P Require Import Prelude Memory Pmm PageTable Vmm VmmSafety VmmFork UserMem Usercopy CString ProcessMem.
Import Memory.Memory Pmm.Pmm PageTable.PageTable Vmm.Vmm VmmSafety.VmmSafety VmmFork.VmmFork UserMem.UserMem CString.CString ProcessMem.ProcessMem.
Local Open Scope Z_scope.

Module ProcessSpace.

(** ** Pages of the lower half *)

Lemma aligned_page hi b : 0 <= hi < 2 ^ 47 -> hi mod 4096 = 0 -> 0 <= b < 2 ^ 47 -> indices b = indices hi <-> hi <= b < hi + 4096.
Proof.
  intros Hhi Hal Hb. rewrite indices_low by lia. pose proof (Z.div_mod b 4096). pose proof (Z.div_mod hi 4096). pose proof (Z.mod_pos_bound b 4096).
  split; [lia|]. intros Hin. symmetry. apply (Z.div_unique b 4096 (hi / 4096) (b - hi)); lia.
Qed.

Lemma memset_page m p n x : rd (memset m p 0 (Z.to_nat n)) x = if bool_decide (p <= x < p + Z.of_nat (Z.to_nat n)) then 0 else rd m x.
Proof. by rewrite memset_rd. Qed.

Section Root.
Context (root : Z).

(** A user space without kernel pages below the middle. *)
Definition proc_space (s : vmm_state) : Prop := user_wf s root /\ low_clean s root.

(** ** Releasing pages *)

(** [s'] is [s] without the pages [lo, hi). *)
Record released (s s' : vmm_state) (lo hi : Z) : Prop := {
  re_step : user_step s s' root;
  re_clean : low_clean s' root;
  re_entry : forall b, 0 <= b < 2 ^ 47 -> user_entry s' root (indices b) = if bool_decide (lo <= b < hi) then None else user_entry s root (indices b);
  re_byte : forall b, 0 <= b < 2 ^ 47 -> user_byte s' root b = if bool_decide (lo <= b < hi) then None else user_byte s root b;
}.

Lemma released_none s lo : proc_space s -> released s s lo lo.
Proof. intros (Hwf & Hc). split; [by apply user_step_refl | done | |]; intros b Hb; by rewrite bool_decide_false by lia. Qed.

Lemma released_trans s1 s2 s3 lo mid hi : lo <= mid <= hi -> released s1 s2 lo mid -> released s2 s3 mid hi -> released s1 s3 lo hi.
Proof.
  intros Hm [S1 C1 E1 B1] [S2 C2 E2 B2]. split; [by apply (user_step_trans s1 s2) | done | |]; intros b Hb.
  - rewrite E2, E1 by done. repeat case_bool_decide; (done || lia).
  - rewrite B2, B1 by done. repeat case_bool_decide; (done || lia).
Qed.

Lemma release_page_spec s va : proc_space s -> 0 <= va < 2 ^ 47 -> va mod 4096 = 0 ->
  released s (release_page (Space root) va s) va (va + 4096).
Proof.
  intros (Hwf & Hc) Hva Hal. unfold release_page. pose proof (unmap_page_cases (Space root) va s (uw_space _ _ Hwf)) as H.
  destruct (vmm_space_unmap_page (Some (Space root)) va s) as [pa s1]. cbn [pml4_physical] in H.
  pose proof (fun b Hb => aligned_page va b Hva Hal Hb) as Hpage. destruct (low_address va Hva) as (Hu & Hcan).
  destruct H as (W & [(-> & -> & Hno)|(_ & U)]).
  - rewrite Z.eqb_refl. assert (He : user_entry s root (indices va) = None).
    { destruct Hno as [Href|Hno].
      - unfold unmap_refused, PMM_PAGE_SIZE in Href. rewrite Hcan, Hal in Href. cbn in Href. rewrite andb_true_r in Href. apply Z.leb_le in Href. lia.
      - destruct (user_entry s root (indices va)) as [e|] eqn:He; [|done]. apply user_entry_leaf in He as (He & _); [|done | apply indices_path].
        by destruct (Hno e). }
    split; [by apply user_step_refl | done | |]; intros b Hb; case_bool_decide as Hin; try done; apply Hpage in Hin; try done.
    + by rewrite Hin.
    + unfold user_byte. by rewrite Hin, He.
  - assert (Hcl : forall l e, leaf (memory s) root (indices va) = Some (l, e) -> has e VMM_USER = true).
    { intros l e Hl. by apply (Hc _ l e (indices_path va) (low_half va Hva)). }
    destruct (un_old s s1 root va pa Hwf U Hcl) as (e & He & Hpa & Hp).
    rewrite (proj2 (Z.eqb_neq pa PMM_INVALID_ADDRESS)) by (unfold PMM_INVALID_ADDRESS, UINT64_MAX; destruct Hp; lia).
    split.
    + by apply (un_step s s1 root va pa).
    + apply (clean_update s _ root (indices va) None); [by apply (un_leaf s s1 root va pa) | done | done].
    + intros b Hb. rewrite (un_user_entry s s1 root va pa U) by apply indices_path.
      destruct (decide (indices b = indices va)) as [E|E]; rewrite Hpage in E by done; [by rewrite bool_decide_true | by rewrite bool_decide_false].
    + intros b Hb. rewrite (un_byte s s1 root va pa Hwf U).
      destruct (decide (indices b = indices va)) as [E|E]; rewrite Hpage in E by done; [by rewrite bool_decide_true | by rewrite bool_decide_false].
Qed.

Lemma released_space s s' lo hi : released s s' lo hi -> proc_space s'.
Proof. intros [S C _ _]. split; [apply S | done]. Qed.

Lemma page_trips_eq lo hi : lo <= hi -> lo mod 4096 = 0 -> hi mod 4096 = 0 -> lo + Z.of_nat (page_trips lo hi) * 4096 = hi.
Proof.
  intros Hle Hlo Hhi. unfold page_trips, PMM_PAGE_SIZE. pose proof (Z.div_mod lo 4096). pose proof (Z.div_mod hi 4096).
  destruct (Z.ltb_spec lo hi); [|lia].
  assert (E : (hi - lo + 4096 - 1) / 4096 = hi / 4096 - lo / 4096).
  { symmetry. apply (Z.div_unique _ 4096 _ 4095); lia. }
  rewrite E, Z2Nat.id; lia.
Qed.

Lemma release_pages_spec s lo hi : proc_space s -> 0 <= lo <= hi -> hi <= 2 ^ 47 -> lo mod 4096 = 0 -> hi mod 4096 = 0 ->
  released s (release_pages (Space root) lo hi s) lo hi.
Proof.
  intros Hs Hlo Hhi Hal Hah. unfold release_pages. pose proof (page_trips_eq lo hi ltac:(lia) Hal Hah) as Hn.
  pose proof (for_up_ind (fun k s' => released s s' lo (lo + k * 4096)) (fun i s => release_page (Space root) (lo + i * PMM_PAGE_SIZE) s)
    (page_trips lo hi) 0 s) as H. cbv beta in H. rewrite Z.add_0_l, Hn in H. apply H.
  - rewrite Z.mul_0_l, Z.add_0_r. by apply released_none.
  - intros j t Hj Hr. change PMM_PAGE_SIZE with 4096. apply (released_trans s t _ lo (lo + j * 4096)); [lia | done |].
    replace (lo + (j + 1) * 4096) with (lo + j * 4096 + 4096) by lia. apply release_page_spec; [by apply (released_space s t lo (lo + j * 4096)) | lia |].
    rewrite Z.add_mod, Hal, Z_mod_mult by done. done.
Qed.

(** ** Clearing the bytes between two breaks *)

Definition zeroed (b : option Z) : option Z := match b with Some _ => Some 0 | None => None end.

Definition owned_pages (s : vmm_state) (lo hi : Z) : Prop :=
  forall b e, lo <= b < hi -> user_entry s root (indices b) = Some e -> owns s e.

(** [s'] is [s] with zeros in the mapped bytes of [lo, hi).  Only when the
    pages there are the process's own does no other memory change. *)
Record cleared (s s' : vmm_state) (lo hi : Z) : Prop := {
  cl_space : proc_space s';
  cl_pmm : pmm s' = pmm s;
  cl_entry : forall idx, page_path idx -> user_entry s' root idx = user_entry s root idx;
  cl_byte : forall b, 0 <= b < 2 ^ 47 -> user_byte s' root b = if bool_decide (lo <= b < hi) then zeroed (user_byte s root b) else user_byte s root b;
  cl_step : owned_pages s lo hi -> user_step s s' root;
}.

Lemma cleared_none s lo : proc_space s -> cleared s s lo lo.
Proof.
  intros Hs. split; [done | done | done | |].
  - intros b Hb. by rewrite bool_decide_false by lia.
  - intros _. by apply user_step_refl, Hs.
Qed.

Lemma cleared_trans s1 s2 s3 lo mid hi : lo <= mid <= hi -> cleared s1 s2 lo mid -> cleared s2 s3 mid hi -> cleared s1 s3 lo hi.
Proof.
  intros Hm [C1 P1 E1 B1 S1] [C2 P2 E2 B2 S2]. split; [done | congruence | | |].
  - intros idx Hidx. by rewrite E2, E1.
  - intros b Hb. rewrite B2, B1 by done. repeat case_bool_decide; (done || lia).
  - intros Ho. apply (user_step_trans s1 s2); [apply S1 | apply S2]; intros b e Hb He.
    + apply (Ho b); [lia | done].
    + rewrite E1 in He by apply indices_path. unfold owns. rewrite P1. apply (Ho b); [lia | done].
Qed.

(** One page, or nothing where there is none. *)
Lemma clear_chunk s a c : proc_space s -> 0 <= a -> a + c <= 2 ^ 47 -> 0 < c -> a mod 4096 + c <= 4096 ->
  let physical := vmm_space_translate (Some (Space root)) a s in
  cleared s (if physical =? PMM_INVALID_ADDRESS then s else with_memory s (memset (memory s) physical 0 (Z.to_nat c))) a (a + c).
Proof.
  intros (Hwf & Hc) Ha Hend Hpos Hlen. cbv zeta. rewrite translate_clean by (done || lia).
  assert (Hpage : forall b, a <= b < a + c -> indices b = indices a).
  { intros b Hb. apply indices_page. pose proof (Z.div_mod a 4096). pose proof (Z.mod_pos_bound a 4096).
    symmetry. apply (Z.div_unique b 4096 (a / 4096) (b - a + a mod 4096)); lia. }
  destruct (user_entry s root (indices a)) as [e|] eqn:He.
  - rewrite (translate_valid s root a e) by done. set (m := memset _ _ _ _).
    assert (Hm : mem_ok m) by apply memset_ok, Hwf.
    assert (Hw : writes_page s a e c (fun _ => 0) m).
    { intros x p. unfold m. rewrite memset_page, Z2Nat.id by lia. done. }
    pose proof (fun x => writes_page_out s a e c _ m x Hlen Hw) as Hout.
    pose proof (poke_pages s root (indices a) e m Hwf (indices_path a) He Hm Hout) as Hs.
    pose proof (sp_entry s (with_memory s m) root Hs) as HE. split.
    + split; [by apply (sp_wf s) | by apply (clean_same s), Hc; apply (sp_leaf _ _ _ Hs)].
    + done.
    + exact HE.
    + intros b Hb. rewrite (write_bytes s root a e c (fun _ => 0) m b) by (done || lia). case_bool_decide as Hin; [|done].
      unfold user_byte. by rewrite (Hpage b Hin), He.
    + intros Ho. apply (poke_step s root (indices a) e); try done; [apply indices_path|]. apply (Ho a); [lia | done].
  - rewrite Z.eqb_refl. split; [done | done | done | |intros _; by apply user_step_refl].
    intros b Hb. case_bool_decide as Hin; [|done]. unfold user_byte. by rewrite (Hpage b Hin), He.
Qed.

Lemma clear_range_spec fuel a hi s : proc_space s -> 0 <= a <= hi -> hi <= 2 ^ 47 ->
  Usercopy.Usercopy.pages_left a (hi - a) < Z.of_nat fuel -> cleared s (clear_range fuel a hi (Space root) s) a hi.
Proof.
  revert a s. induction fuel as [|fuel IH]; intros a s Hs Ha Hhi Hfuel.
  { unfold Usercopy.Usercopy.pages_left in Hfuel. destruct (Z.leb_spec (hi - a) 0); [lia|]. pose proof (Z.mod_pos_bound a 4096).
    pose proof (Z.div_pos (a mod 4096 + (hi - a) + 4095) 4096). lia. }
  cbn [clear_range]. destruct (Z.ltb_spec a hi) as [Hlt|Hge]; cbn [negb].
  2: { replace hi with a by lia. by apply cleared_none. }
  rewrite (u64_small (hi - a)) by (unfold is_u64; lia). rewrite Usercopy.Usercopy.chunk_eq by lia.
  pose proof (Usercopy.Usercopy.pages_left_step a (hi - a) ltac:(lia)) as Hstep.
  set (c := Usercopy.Usercopy.chunk_size a (hi - a)) in *. pose proof (Z.mod_pos_bound a 4096).
  assert (Hcr : 0 < c <= hi - a /\ a mod 4096 + c <= 4096) by (unfold c, Usercopy.Usercopy.chunk_size; lia).
  rewrite (u64_small (a + c)) by (unfold is_u64; lia).
  pose proof (clear_chunk s a c Hs ltac:(lia) ltac:(lia) ltac:(lia) ltac:(lia)) as Hc. cbv zeta in Hc.
  set (s1 := if _ =? _ then _ else _) in *. apply (cleared_trans s s1 _ a (a + c)); [lia | done |].
  apply IH; [apply (cl_space _ _ _ _ Hc) | lia | done |]. replace (hi - (a + c)) with (hi - a - c) by lia. lia.
Qed.


End Root.

(** ** Rounding *)

Lemma round_up a : 0 <= a <= UINT64_MAX - 4095 ->
  let r := (a +! PMM_PAGE_SIZE -! 1) &! not64 (PMM_PAGE_SIZE - 1) in r mod 4096 = 0 /\ a <= r < a + 4096.
Proof.
  intros Ha. cbv zeta. unfold PMM_PAGE_SIZE, UINT64_MAX in *. unfold u64 at 1. unfold u64. rewrite Zminus_mod_idemp_l.
  replace (a + 4096 - 1) with (a + 4095) by lia. rewrite (Z.mod_small (a + 4095)) by lia. change (4096 - 1) with (2 ^ 12 - 1).
  rewrite land_mask_down by (unfold is_u64; lia). change (2 ^ 12) with 4096. pose proof (Z.div_mod (a + 4095) 4096). pose proof (Z.mod_pos_bound (a + 4095) 4096).
  split; [|lia]. replace (a + 4095 - (a + 4095) mod 4096) with ((a + 4095) / 4096 * 4096) by lia. apply Z_mod_mult.
Qed.

Lemma align_up_page_spec a : 0 <= a < 2 ^ 48 -> align_up_page a mod 4096 = 0 /\ a <= align_up_page a < a + 4096.
Proof. intros Ha. unfold align_up_page. apply round_up. unfold UINT64_MAX. lia. Qed.

Lemma align_up_page_aligned a : 0 <= a < 2 ^ 48 -> a mod 4096 = 0 -> align_up_page a = a.
Proof. intros Ha Hal. destruct (align_up_page_spec a Ha) as (H & Hr). pose proof (Z.div_mod a 4096). pose proof (Z.div_mod (align_up_page a) 4096). lia. Qed.

Lemma align_up_mono a b : 0 <= a <= b -> b < 2 ^ 48 -> align_up_page a <= align_up_page b.
Proof.
  intros Ha Hb. destruct (align_up_page_spec a ltac:(lia)) as (H & Hr), (align_up_page_spec b ltac:(lia)) as (H' & Hr').
  pose proof (Z.div_mod (align_up_page b) 4096). pose proof (Z.div_mod (align_up_page a) 4096). lia.
Qed.

Lemma rounded_spec length r : is_u64 length -> rounded_mapping_length length = Some r -> r mod 4096 = 0 /\ 0 < length <= r /\ r < length + 4096 /\ is_u64 r.
Proof.
  intros Hl. unfold rounded_mapping_length. change (UINT64_MAX -! (PMM_PAGE_SIZE - 1)) with (2 ^ 64 - 4096).
  destruct (Z.eqb_spec length 0) as [|Hn]; [done|]. cbn [orb]. destruct (Z.ltb_spec (2 ^ 64 - 4096) length) as [|Hle]; [done|].
  intros [= <-]. unfold is_u64 in *. destruct (round_up length ltac:(unfold UINT64_MAX; lia)) as (Hm & Hr).
  set (r := _ &! _) in *. assert (r <= 2 ^ 64 - 4096); [|split_and!; lia].
  pose proof (Z.div_mod r 4096). change (2 ^ 64) with (4503599627370496 * 4096) in *. lia.
Qed.

(** ** The region table *)

Definition prot_ok (pr : Z) : Prop :=
  has pr CONEOS_PROT_READ = true /\ ~ (has pr CONEOS_PROT_WRITE = true /\ has pr CONEOS_PROT_EXEC = true).

Definition region_ok (r : mmap_region) : Prop :=
  r_start r mod 4096 = 0 /\ r_end r mod 4096 = 0 /\ MMAP_ADDRESS_START <= r_start r /\ r_start r < r_end r /\
  r_end r <= MMAP_ADDRESS_LIMIT /\ prot_ok (protection r).

Definition slot_ok (i : Z) : Prop := 0 <= i < MAX_MMAP_REGIONS.

Definition apart (r r' : mmap_region) : Prop := r_end r <= r_start r' \/ r_end r' <= r_start r.

Record regions_ok (rs : list mmap_region) : Prop := {
  rg_len : alen rs = MAX_MMAP_REGIONS;
  rg_ok : forall i, slot_ok i -> r_used (region_at rs i) = true -> region_ok (region_at rs i);
  rg_apart : forall i j, slot_ok i -> slot_ok j -> i <> j -> r_used (region_at rs i) = true -> r_used (region_at rs j) = true ->
    apart (region_at rs i) (region_at rs j);
}.

Definition covers (r : mmap_region) (x : Z) : Prop := r_used r = true /\ r_start r <= x < r_end r.

(** The protection of the region at an address. *)
Definition prot_at (rs : list mmap_region) (x : Z) : option Z :=
  match mapping_covering rs x with Some i => Some (protection (region_at rs i)) | None => None end.

Lemma covering_Some rs x i : mapping_covering rs x = Some i -> slot_ok i /\ covers (region_at rs i) x.
Proof.
  intros H. apply find_up_Some in H as (Hi & Hc & _). change (Z.of_nat (trips 0 MAX_MMAP_REGIONS)) with 32 in Hi. cbv beta zeta in Hc. bool_prop.
  unfold slot_ok, MAX_MMAP_REGIONS, covers. split_and!; (done || lia).
Qed.

Lemma covering_None rs x i : mapping_covering rs x = None -> slot_ok i -> ~ covers (region_at rs i) x.
Proof.
  intros H Hi (Hu & Hx). apply find_up_None with (k := i) in H; [|by change (Z.of_nat (trips 0 MAX_MMAP_REGIONS)) with 32].
  cbv beta zeta in H. rewrite Hu in H. cbn [andb] in H. apply andb_false_iff in H as [H|H]; bool_prop; lia.
Qed.

Lemma covers_unique rs i j x : regions_ok rs -> slot_ok i -> slot_ok j -> covers (region_at rs i) x -> covers (region_at rs j) x -> i = j.
Proof.
  intros Hok Hi Hj (Hu & Hx) (Hu' & Hx'). destruct (decide (i = j)) as [|Hne]; [done|].
  destruct (rg_apart _ Hok i j Hi Hj Hne Hu Hu'); lia.
Qed.

Lemma prot_at_iff rs x pr : regions_ok rs ->
  prot_at rs x = Some pr <-> exists i, slot_ok i /\ covers (region_at rs i) x /\ protection (region_at rs i) = pr.
Proof.
  intros Hok. unfold prot_at. destruct (mapping_covering rs x) as [i|] eqn:E.
  - apply covering_Some in E as (Hi & Hc). split; [intros [= <-]; by exists i|]. intros (j & Hj & Hcj & <-).
    by rewrite (covers_unique rs i j x).
  - split; [done|]. intros (j & Hj & Hcj & _). by apply (covering_None rs x j) in Hcj.
Qed.

Lemma prot_at_None rs x : prot_at rs x = None <-> forall i, slot_ok i -> ~ covers (region_at rs i) x.
Proof.
  unfold prot_at. destruct (mapping_covering rs x) as [i|] eqn:E; split; try done.
  - apply covering_Some in E as (Hi & Hc). intros H. by destruct (H i Hi).
  - intros _ i Hi. by apply covering_None.
Qed.

Lemma prot_at_ok rs x pr : regions_ok rs -> prot_at rs x = Some pr -> prot_ok pr /\ MMAP_ADDRESS_START <= x < MMAP_ADDRESS_LIMIT.
Proof.
  intros Hok Hp. apply prot_at_iff in Hp as (i & Hi & (Hu & Hx) & <-); [|done].
  destruct (rg_ok _ Hok i Hi Hu) as (_ & _ & H1 & H2 & H3 & H4). split; [done | lia].
Qed.

(** The regions stay the same on an aligned page. *)
Lemma prot_at_page rs x y : regions_ok rs -> x / 4096 = y / 4096 -> prot_at rs x = prot_at rs y.
Proof.
  intros Hok E. assert (H : forall i, slot_ok i -> covers (region_at rs i) x <-> covers (region_at rs i) y).
  { intros i Hi. unfold covers. destruct (r_used (region_at rs i)) eqn:Hu; [|by split; intros (? & _)].
    destruct (rg_ok _ Hok i Hi Hu) as (Ha & Hb & _). pose proof (Z.div_mod x 4096). pose proof (Z.div_mod y 4096).
    pose proof (Z.mod_pos_bound x 4096). pose proof (Z.mod_pos_bound y 4096).
    pose proof (Z.div_mod (r_start (region_at rs i)) 4096). pose proof (Z.div_mod (r_end (region_at rs i)) 4096). split; intros (_ & ?); (split; [done | lia]). }
  apply option_eq. intros pr. rewrite !prot_at_iff by done. split; intros (i & Hi & Hc & Hpr); exists i; split_and!; try done; by apply H.
Qed.

(** ** Pages of the regions *)

Definition pages_of (r : mmap_region) : Z := if r_used r then (r_end r - r_start r) / 4096 else 0.

Definition region_pages (rs : list mmap_region) : Z := sum_up (trips 0 MAX_MMAP_REGIONS) 0 (fun i => pages_of (region_at rs i)).

Lemma region_at_aset rs i j r : 0 <= i < alen rs -> 0 <= j -> region_at (aset rs i r) j = if decide (i = j) then r else region_at rs j.
Proof. intros Hi Hj. by apply aget_aset. Qed.

(** ** Adding a region *)

Lemma free_slot_Some rs i : find_free_mapping_slot rs = Some i -> slot_ok i /\ r_used (region_at rs i) = false.
Proof. intros H. apply find_up_Some in H as (Hi & Hc & _). change (Z.of_nat (trips 0 MAX_MMAP_REGIONS)) with 32 in Hi. bool_prop. done. Qed.

Lemma free_slot_None rs i : find_free_mapping_slot rs = None -> slot_ok i -> r_used (region_at rs i) = true.
Proof.
  intros H Hi. apply find_up_None with (k := i) in H; [|by change (Z.of_nat (trips 0 MAX_MMAP_REGIONS)) with 32]. by bool_prop.
Qed.

Section AddRegion.
Context (rs : list mmap_region) (slot : Z) (r : mmap_region).
Context (Hok : regions_ok rs) (Hslot : slot_ok slot) (Hfree : r_used (region_at rs slot) = false) (Hr : region_ok r) (Hu : r_used r = true).
Context (Hapart : forall i, slot_ok i -> r_used (region_at rs i) = true -> apart r (region_at rs i)).

Lemma add_at j : slot_ok j -> region_at (aset rs slot r) j = if decide (slot = j) then r else region_at rs j.
Proof. intros Hj. apply region_at_aset; [rewrite (rg_len _ Hok); apply Hslot | apply Hj]. Qed.

Lemma add_ok : regions_ok (aset rs slot r).
Proof.
  split.
  - rewrite alen_aset. apply Hok.
  - intros i Hi. rewrite add_at by done. case_decide; [done|]. by apply (rg_ok _ Hok).
  - intros i j Hi Hj Hne. rewrite !add_at by done. repeat case_decide; intros Ui Uj; subst.
    + done.
    + by apply Hapart.
    + destruct (Hapart i Hi Ui); [by right | by left].
    + by apply (rg_apart _ Hok).
Qed.

Lemma add_prot x : prot_at (aset rs slot r) x = if bool_decide (r_start r <= x < r_end r) then Some (protection r) else prot_at rs x.
Proof.
  apply option_eq. intros pr. rewrite prot_at_iff by apply add_ok. case_bool_decide as Hx.
  - split.
    + intros (i & Hi & (Ui & Hc) & Hp). rewrite add_at in * by done. case_decide; [congruence|]. destruct (Hapart i Hi Ui); lia.
    + intros [= <-]. exists slot. rewrite add_at, decide_True by done. done.
  - rewrite prot_at_iff by done. split; intros (i & Hi & Hc & Hp).
    + rewrite add_at in * by done. case_decide; [by destruct Hc|]. by exists i.
    + exists i. rewrite add_at by done. rewrite decide_False; [done|]. intros <-. destruct Hc. congruence.
Qed.

Lemma add_pages : region_pages (aset rs slot r) = region_pages rs + (r_end r - r_start r) / 4096.
Proof.
  unfold region_pages. rewrite (sum_up_change _ _ (fun i => pages_of (region_at rs i)) _ slot).
  - rewrite add_at, decide_True by done. unfold pages_of. rewrite Hfree, Hu. lia.
  - apply Hslot.
  - intros j Hj Hne. rewrite add_at by done. by rewrite decide_False.
Qed.

End AddRegion.

(** ** The search for an address *)

Section Search.
Context (root : Z) (rs : list mmap_region) (s : vmm_state) (len : Z).
Context (Hok : regions_ok rs) (Hs : proc_space root s) (Hlen : 0 < len <= MMAP_ADDRESS_LIMIT) (Hal : len mod 4096 = 0).

(** No region and no page in the way. *)
Definition gap (c : Z) : Prop :=
  (forall i, slot_ok i -> r_used (region_at rs i) = true -> c + len <= r_start (region_at rs i) \/ r_end (region_at rs i) <= c) /\
  (forall x, c <= x < c + len -> user_entry s root (indices x) = None).

Lemma next_region_spec c : 0 <= c <= MMAP_ADDRESS_LIMIT - len -> let n := next_region rs c len in
  (n = 0 /\ forall i, slot_ok i -> r_used (region_at rs i) = true -> c + len <= r_start (region_at rs i) \/ r_end (region_at rs i) <= c) \/
  (n <> 0 /\ exists i, slot_ok i /\ r_used (region_at rs i) = true /\ n = r_end (region_at rs i) /\ r_start (region_at rs i) < c + len /\ c < n).
Proof.
  intros Hc. cbv zeta. unfold next_region.
  set (I := fun (k n : Z) => (n = 0 /\ forall i, 0 <= i < k -> r_used (region_at rs i) = true -> c + len <= r_start (region_at rs i) \/ r_end (region_at rs i) <= c) \/
    (n <> 0 /\ exists i, slot_ok i /\ r_used (region_at rs i) = true /\ n = r_end (region_at rs i) /\ r_start (region_at rs i) < c + len /\ c < n)).
  change (I 32 (for_up (trips 0 MAX_MMAP_REGIONS) 0 (fun i next => let region := region_at rs i in
    if negb (r_used region) || (c +! len <=? r_start region) || (r_end region <=? c) then next
    else if next <? r_end region then r_end region else next) 0)).
  change 32 with (0 + Z.of_nat (trips 0 MAX_MMAP_REGIONS)). apply for_up_ind.
  - left. split; [done | lia].
  - change (Z.of_nat (trips 0 MAX_MMAP_REGIONS)) with 32. intros j n Hj HI. cbv zeta.
    assert (Hjs : slot_ok j) by (unfold slot_ok, MAX_MMAP_REGIONS; lia). unfold MMAP_ADDRESS_LIMIT in *.
    rewrite (u64_small (c + len)) by (unfold is_u64; lia).
    destruct (negb (r_used (region_at rs j)) || (c + len <=? r_start (region_at rs j)) || (r_end (region_at rs j) <=? c)) eqn:E.
    + destruct HI as [(-> & H)|?]; [|by right]. left. split; [done|]. intros i Hi Ui. destruct (decide (i = j)) as [->|]; [|apply H; [lia | done]].
      rewrite Ui in E. cbn [negb orb] in E. apply orb_true_iff in E as [E|E]; bool_prop; lia.
    + bool_prop. right. destruct (Z.ltb_spec n (r_end (region_at rs j))); [|destruct HI as [(-> & _)|?]; [lia | done]].
      split; [lia|]. exists j. split_and!; (done || lia || apply Hjs).
Qed.

Lemma occupied_spec c : 0 <= c <= MMAP_ADDRESS_LIMIT - len -> c mod 4096 = 0 ->
  match occupied_page (Space root) c len s with
  | Some i => exists x, c <= x < c + len /\ user_entry s root (indices x) <> None
  | None => forall x, c <= x < c + len -> user_entry s root (indices x) = None
  end.
Proof.
  intros Hc Hca. destruct Hs as (Hwf & Hcl). unfold occupied_page, MMAP_ADDRESS_LIMIT in *. rewrite (u64_small (c + len)) by (unfold is_u64; lia).
  pose proof (page_trips_eq c (c + len) ltac:(lia) Hca) as Hn. rewrite Z.add_mod, Hca, Hal in Hn by done. specialize (Hn eq_refl).
  destruct (find_up _ 0 _) as [i|] eqn:E.
  - apply find_up_Some in E as (Hi & Ht & _). cbv beta in Ht. change PMM_PAGE_SIZE with 4096 in Ht. exists (c + i * 4096). split; [lia|].
    rewrite translate_clean in Ht by (done || lia). destruct (user_entry _ _ _); [done|]. by rewrite Z.eqb_refl in Ht.
  - intros x Hx. pose proof (Z.div_mod (x - c) 4096). pose proof (Z.mod_pos_bound (x - c) 4096). pose proof (Z.div_pos (x - c) 4096).
    assert (Hd : x / 4096 = (c + (x - c) / 4096 * 4096) / 4096).
    { rewrite Z.div_add by done. pose proof (Z.div_mod c 4096). symmetry.
      replace x with (x - c + c / 4096 * 4096) at 2 by lia. rewrite Z.div_add by done. lia. }
    rewrite (indices_page _ _ Hd). apply find_up_None with (k := (x - c) / 4096) in E; [|lia]. cbv beta in E. change PMM_PAGE_SIZE with 4096 in E.
    rewrite translate_clean in E by (done || lia). destruct (user_entry s root (indices (c + (x - c) / 4096 * 4096))) as [e|] eqn:He; [|done].
    by rewrite (translate_valid s root _ e) in E.
Qed.

(** What a search finds: the lowest page with a gap, or that there is none. *)
Definition search_found (first : Z) (r : option Z) : Prop :=
  match r with
  | Some a => first <= a /\ a + len <= MMAP_ADDRESS_LIMIT /\ a mod 4096 = 0 /\ gap a
  | None => forall c, first <= c -> c + len <= MMAP_ADDRESS_LIMIT -> c mod 4096 = 0 -> ~ gap c
  end.

Lemma mapping_step_spec first c :
  0 <= first <= c -> c <= MMAP_ADDRESS_LIMIT -> c mod 4096 = 0 -> (forall x, first <= x < c -> x mod 4096 = 0 -> ~ gap x) ->
  match mapping_step rs (Space root) len s c with
  | inl c' => c < c' <= MMAP_ADDRESS_LIMIT /\ c' mod 4096 = 0 /\ forall x, first <= x < c' -> x mod 4096 = 0 -> ~ gap x
  | inr r => search_found first r
  end.
Proof.
  intros Hf Hc Hca Hno. unfold mapping_step. unfold MMAP_ADDRESS_LIMIT in *. rewrite u64_small by (unfold is_u64; lia).
  destruct (Z.leb_spec c (0x00007F0000000000 - len)) as [Hle|Hgt]; cbn [negb].
  2: { intros x Hx Hxl Hxa. unfold MMAP_ADDRESS_LIMIT in *. apply Hno; [lia | done]. }
  pose proof (next_region_spec c ltac:(unfold MMAP_ADDRESS_LIMIT; lia)) as Hnext. cbv zeta in Hnext. set (n := next_region rs c len) in *.
  assert (Hsucc : forall y, y mod 4096 = 0 -> c < y -> c + 4096 <= y).
  { intros y Hy Hlt. pose proof (Z.div_mod y 4096). pose proof (Z.div_mod c 4096). lia. }
  destruct Hnext as [(-> & Hreg)|(Hn0 & i & Hi & Ui & Hn & Hstart & Hlt)].
  - cbn [Z.eqb negb]. pose proof (occupied_spec c ltac:(unfold MMAP_ADDRESS_LIMIT; lia) Hca) as Hocc.
    destruct (occupied_page _ c len s) as [k|].
    + rewrite u64_small by (unfold is_u64, PMM_PAGE_SIZE; lia). unfold PMM_PAGE_SIZE.
      assert (Hca' : (c + 4096) mod 4096 = 0) by (by rewrite Z.add_mod, Hca). split_and!; [lia | | done |].
      * pose proof (Z.div_mod len 4096). lia.
      * intros x Hx Hxa. destruct (decide (x = c)) as [->|Hne]; [|apply Hno; [|done]; split; [lia|]; destruct (Z.lt_ge_cases x c); [done|]; specialize (Hsucc x Hxa); lia].
        intros (_ & Hg). destruct Hocc as (y & Hy & Hye). by apply Hye, Hg.
    + split_and!; [lia | unfold MMAP_ADDRESS_LIMIT; lia | done | by split].
  - rewrite (proj2 (Z.eqb_neq n 0)) by done. cbn [negb]. destruct (rg_ok _ Hok i Hi Ui) as (_ & Hea & _ & _ & Hel & _). unfold MMAP_ADDRESS_LIMIT in Hel.
    rewrite align_up_page_aligned by (rewrite Hn; (done || lia)). split_and!; [lia | lia | by rewrite Hn |].
    intros x Hx Hxa Hgap. destruct (Z.lt_ge_cases x c); [by apply (Hno x); [lia|..]|]. destruct (proj1 Hgap i Hi Ui); lia.
Qed.

Lemma search_spec first : MMAP_ADDRESS_START <= first <= MMAP_ADDRESS_LIMIT -> first mod 4096 = 0 ->
  search_found first (search_from rs (Space root) len s first).
Proof.
  intros Hf Hfa. unfold search_from.
  destruct (run_until_ends (fun c => first <= c <= MMAP_ADDRESS_LIMIT /\ c mod 4096 = 0 /\ forall x, first <= x < c -> x mod 4096 = 0 -> ~ gap x)
    (search_found first) (fun c => MMAP_ADDRESS_LIMIT - c + 1) (mapping_step rs (Space root) len s) search_fuel first) as (r & -> & Hr); [| | |done].
  - intros c (Hc & Hca & Hno). split; [lia|]. pose proof (mapping_step_spec first c ltac:(unfold MMAP_ADDRESS_START in Hf; lia) ltac:(lia) Hca Hno) as H.
    destruct (mapping_step _ _ _ _ c) as [c'|r]; [|done]. destruct H as (H1 & H2 & H3). split_and!; (done || lia).
  - split_and!; [lia | lia | done |]. intros x Hx. lia.
  - unfold search_fuel. rewrite Z2Pos.id by done. unfold MMAP_ADDRESS_START in Hf. lia.
Qed.

(** The call finds a gap above the hint, else the lowest one, and fails only
    when there is none. *)
Lemma select_spec hint : (hint = 0 \/ (MMAP_ADDRESS_START <= hint < MMAP_ADDRESS_LIMIT /\ hint mod 4096 = 0)) ->
  search_found MMAP_ADDRESS_START (select_mapping_address rs (Space root) hint len s).
Proof.
  intros Hh. unfold select_mapping_address. change (MMAP_ADDRESS_LIMIT -! MMAP_ADDRESS_START) with (MMAP_ADDRESS_LIMIT - MMAP_ADDRESS_START).
  destruct (Z.ltb_spec (MMAP_ADDRESS_LIMIT - MMAP_ADDRESS_START) len) as [Hbig|Hfit].
  { intros c Hc Hcl. lia. }
  pose proof (search_spec MMAP_ADDRESS_START ltac:(done) eq_refl) as Hstart.
  destruct (Z.eqb_spec hint 0) as [->|Hn].
  { cbn [negb andb]. by destruct (search_from rs (Space root) len s MMAP_ADDRESS_START). }
  destruct Hh as [?|(Hr & Ha)]; [done|]. cbn [negb andb]. pose proof (search_spec hint ltac:(lia) Ha) as Hhint.
  destruct (search_from rs (Space root) len s hint) as [a|] eqn:E.
  - destruct Hhint as (H1 & H2). split; [lia | done].
  - destruct (Z.eqb_spec hint MMAP_ADDRESS_START) as [->|Hne]; cbn [negb]; done.
Qed.

End Search.

(** ** Taking a range out of the regions *)

Lemma covered_spec rs a e : regions_ok rs -> 0 < a <= e -> e <= MMAP_ADDRESS_LIMIT ->
  covered rs a e = true <-> forall x, a <= x < e -> prot_at rs x <> None.
Proof.
  intros Hok Ha He. unfold covered.
  destruct (run_until_ends (fun c => a <= c <= e /\ forall x, a <= x < c -> prot_at rs x <> None)
    (fun b : bool => b = true <-> forall x, a <= x < e -> prot_at rs x <> None) (fun c => e - c + 1) (cover_step rs e) search_fuel a) as (r & -> & Hr);
    [| | |done].
  - intros c (Hc & Hcov). split; [lia|]. unfold cover_step. destruct (Z.ltb_spec c e) as [Hlt|Hge]; cbn [negb].
    2: { split; [|done]. intros _ x Hx. apply Hcov. lia. }
    destruct (mapping_covering rs c) as [i|] eqn:E.
    + pose proof (covering_Some rs c i E) as (Hi & Hu & Hin).
      assert (Hnext : forall y, c <= y < r_end (region_at rs i) -> prot_at rs y <> None).
      { intros y Hy Hn. rewrite prot_at_None in Hn. apply (Hn i Hi). split; [done | lia]. }
      destruct (Z.ltb_spec e (r_end (region_at rs i))); (split; [split; [lia|] | lia]); intros x Hx;
        (destruct (Z.lt_ge_cases x c); [apply Hcov; lia | apply Hnext; lia]).
    + split; [done|]. intros H. destruct (H c ltac:(lia)). unfold prot_at. by rewrite E.
  - split; [lia|]. intros x Hx. lia.
  - unfold search_fuel. rewrite Z2Pos.id by done. lia.
Qed.

Section Cut.
Context (rs : list mmap_region) (a e : Z).
Context (Hok : regions_ok rs) (Ha : 0 < a < e) (Hal : a mod 4096 = 0) (Hel : e mod 4096 = 0).
Context (Hcov : forall x, a <= x < e -> prot_at rs x <> None).

(** What is left of a region in its own slot. *)
Definition cut_one (r : mmap_region) : mmap_region :=
  if negb (overlaps r a e) then r
  else if (a <=? r_start r) && (r_end r <=? e) then mk_region (r_start r) (r_end r) (protection r) false
  else if a <=? r_start r then mk_region e (r_end r) (protection r) (r_used r)
  else mk_region (r_start r) a (protection r) (r_used r).

Definition inside (r : mmap_region) : bool := overlaps r a e && (r_start r <? a) && (e <? r_end r).

Lemma cut_region_at slot i rs' : alen rs' = MAX_MMAP_REGIONS -> slot_ok i -> inside (region_at rs' i) = false ->
  cut_region slot a e i rs' = aset rs' i (cut_one (region_at rs' i)).
Proof.
  intros Hl Hi Hin. unfold cut_region, cut_one, inside in *. set (r := region_at rs' i) in *.
  destruct (overlaps r a e) eqn:Ho; cbn [negb andb] in *.
  2: { symmetry. apply list_insert_id. unfold r, region_at. apply aget_lookup. rewrite Hl. apply Hi. }
  unfold overlaps in Ho. destruct r as [st en pr us]. cbn [r_start r_end protection r_used] in *. bool_prop.
  destruct (Z.ltb_spec st a), (Z.ltb_spec e en), (Z.leb_spec a st), (Z.leb_spec en e); cbn [andb] in *; try lia; try done;
    rewrite ?Z.eqb_refl, ?(proj2 (Z.eqb_neq _ _)) by lia; cbn [andb]; try done.
Qed.

(** Every slot is cut in place when no region needs splitting. *)
Lemma cut_all slot : (forall i, slot_ok i -> inside (region_at rs i) = false) ->
  let rs' := for_up (trips 0 MAX_MMAP_REGIONS) 0 (cut_region slot a e) rs in
  alen rs' = MAX_MMAP_REGIONS /\ forall j, slot_ok j -> region_at rs' j = cut_one (region_at rs j).
Proof.
  intros Hin. cbv zeta.
  pose proof (for_up_ind (fun k rs' => alen rs' = MAX_MMAP_REGIONS /\
    forall j, slot_ok j -> region_at rs' j = if decide (j < k) then cut_one (region_at rs j) else region_at rs j)
    (cut_region slot a e) (trips 0 MAX_MMAP_REGIONS) 0 rs) as H.
  change (0 + Z.of_nat (trips 0 MAX_MMAP_REGIONS)) with 32 in H. destruct H as (Hl & H).
  - split; [apply Hok|]. intros j Hj. rewrite decide_False by (destruct Hj; lia). done.
  - intros k t Hk (Hl & Ht). assert (Hks : slot_ok k) by (unfold slot_ok, MAX_MMAP_REGIONS; lia).
    pose proof (Ht k Hks) as Hkk. rewrite decide_False in Hkk by lia.
    rewrite cut_region_at; [|done | done | by rewrite Hkk; apply Hin]. rewrite alen_aset. split; [done|].
    intros j Hj. rewrite region_at_aset by (rewrite ?Hl; apply Hks || apply Hj). rewrite Hkk.
    destruct (decide (k = j)) as [<-|Hne]; [by rewrite decide_True by lia|]. rewrite Ht by done.
    destruct (decide (j < k)), (decide (j < k + 1)); (done || lia).
  - split; [done|]. intros j Hj. rewrite H by done. rewrite decide_True; [done|]. destruct Hj. unfold MAX_MMAP_REGIONS in *. lia.
Qed.

Lemma cut_skip slot i rs' : overlaps (region_at rs' i) a e = false -> cut_region slot a e i rs' = rs'.
Proof. intros Ho. unfold cut_region. by rewrite Ho. Qed.

(** A region around the range: no other one is touched. *)
Lemma inside_others i j : slot_ok i -> slot_ok j -> inside (region_at rs i) = true -> j <> i -> overlaps (region_at rs j) a e = false.
Proof.
  intros Hi Hj Hin Hne. unfold inside in Hin. destruct (overlaps (region_at rs j) a e) eqn:Ho; [|done].
  unfold overlaps in *. bool_prop. destruct (rg_apart _ Hok i j); try done; lia.
Qed.

Lemma cut_split slot i : slot_ok i -> inside (region_at rs i) = true -> slot_ok slot -> r_used (region_at rs slot) = false ->
  let r := region_at rs i in
  for_up (trips 0 MAX_MMAP_REGIONS) 0 (cut_region slot a e) rs =
    aset (aset rs slot (mk_region e (r_end r) (protection r) true)) i (mk_region (r_start r) a (protection r) true).
Proof.
  intros Hi Hin Hslot Hfree r. set (final := aset _ i _).
  assert (Hsi : slot <> i) by (intros ->; unfold inside, overlaps in Hin; rewrite Hfree in Hin; done).
  pose proof (for_up_ind (fun k rs' => rs' = if decide (i < k) then final else rs)
    (cut_region slot a e) (trips 0 MAX_MMAP_REGIONS) 0 rs) as H. change (0 + Z.of_nat (trips 0 MAX_MMAP_REGIONS)) with 32 in H.
  pose proof (rg_len _ Hok) as Hlen. rewrite H; [rewrite decide_True; [done|] | |].
  - destruct Hi. unfold MAX_MMAP_REGIONS in *. lia.
  - rewrite decide_False; [done|]. destruct Hi. lia.
  - intros k t Hk ->. assert (Hks : slot_ok k) by (unfold slot_ok, MAX_MMAP_REGIONS; lia).
    destruct (decide (i < k)) as [Hik|Hik].
    + rewrite decide_True by lia. apply cut_skip. unfold final.
      rewrite !region_at_aset by (rewrite ?alen_aset, ?Hlen; apply Hi || apply Hks || apply Hslot). rewrite decide_False by lia.
      destruct (decide (slot = k)); [unfold overlaps; cbn; rewrite (proj2 (Z.leb_le e e)) by lia; by rewrite andb_false_r | by apply (inside_others i k); (done || lia)].
    + destruct (decide (k = i)) as [->|Hne].
      * rewrite decide_True by lia. pose proof Hin as Hin'. unfold inside, overlaps in Hin. fold r in Hin. bool_prop.
        unfold cut_region. fold r. unfold inside in Hin'. apply andb_true_iff in Hin' as (Hin' & _). apply andb_true_iff in Hin' as (Ho & _). fold r in Ho.
        rewrite Ho. cbn [negb]. rewrite (proj2 (Z.ltb_lt (r_start r) a)), (proj2 (Z.ltb_lt e (r_end r))) by done.
        rewrite (proj2 (Z.eqb_neq a (r_start r))), (proj2 (Z.eqb_neq e (r_end r))) by lia. cbn [andb]. unfold final. by replace (r_used r) with true.
      * rewrite decide_False by lia. apply cut_skip. by apply (inside_others i k).
Qed.

(** The regions without the range. *)
Record cut_result (rs' : list mmap_region) : Prop := {
  ct_ok : regions_ok rs';
  ct_prot : forall x, prot_at rs' x = if bool_decide (a <= x < e) then None else prot_at rs x;
  ct_pages : region_pages rs' = region_pages rs - (e - a) / 4096;
}.

(** Bytes of a region in [a, x). *)
Definition overlap_size (r : mmap_region) (x : Z) : Z := if r_used r then Z.max 0 (Z.min (r_end r) x - Z.max (r_start r) a) else 0.

Lemma cut_one_spec r : (r_used r = true -> region_ok r) -> inside r = false -> let c := cut_one r in
  (forall x, covers c x <-> covers r x /\ ~ (a <= x < e)) /\ protection c = protection r /\
  (r_used c = true -> region_ok c /\ r_used r = true /\ r_start r <= r_start c /\ r_end c <= r_end r) /\
  4096 * pages_of c = 4096 * pages_of r - overlap_size r e.
Proof.
  intros Hr Hin. cbv zeta. unfold cut_one, inside, overlaps, covers, pages_of, overlap_size in *. destruct r as [st en pr us].
  cbn [r_start r_end protection r_used] in *. destruct us; cbn [negb andb] in *.
  2: { cbn. split_and!; try done. intros x. split; [by intros (? & _) | by intros ((? & _) & _)]. }
  specialize (Hr eq_refl). unfold region_ok in *. cbn [r_start r_end protection r_used] in *. destruct Hr as (Hs & He & H1 & H2 & H3 & H4).
  assert (Hd : forall u v, u mod 4096 = 0 -> v mod 4096 = 0 -> 4096 * ((v - u) / 4096) = v - u).
  { intros u v Hu Hv. symmetry. apply Z_div_exact_full_2; [done|]. rewrite Zminus_mod, Hu, Hv. done. }
  destruct (Z.leb_spec en a), (Z.leb_spec e st); cbn [negb andb] in *; [lia | | |];
    cbn [r_start r_end protection r_used];
    try (split_and!; [intros x; split; [intros (? & ?); split_and!; (done || lia) | by intros (? & _)] | done | by intros _; split_and!; (done || lia) | rewrite !Hd by done; lia]).
  destruct (Z.ltb_spec st a), (Z.ltb_spec e en), (Z.leb_spec a st), (Z.leb_spec en e); cbn [andb] in *; try lia; try done; cbn [r_start r_end protection r_used].
  - split_and!; [intros x; split; [intros (? & ?); split_and!; (done || lia) | intros ((_ & ?) & ?); split_and!; (done || lia)] | done | intros _; split_and!; (done || lia) | rewrite !Hd by done; lia].
  - split_and!; [intros x; split; [intros (? & ?); split_and!; (done || lia) | intros ((_ & ?) & ?); split_and!; (done || lia)] | done | intros _; split_and!; (done || lia) | rewrite !Hd by done; lia].
  - split_and!; [intros x; split; [by intros (? & _) | intros ((_ & ?) & ?); lia] | done | done | rewrite !Hd by done; lia].
Qed.

(** Every byte of the range is in exactly one region. *)
Lemma overlap_sum x : a <= x <= e -> sum_up (trips 0 MAX_MMAP_REGIONS) 0 (fun i => overlap_size (region_at rs i) x) = x - a.
Proof.
  intros Hx. replace x with (a + (x - a)) by lia. assert (Hn : 0 <= x - a) by lia. revert Hn.
  assert (Hmax : x - a <= e - a) by lia. revert Hmax. generalize (x - a). clear x Hx. intros d Hmax Hd. revert Hmax. revert d Hd. apply (natlike_ind (fun d => d <= e - a -> _)).
  - intros _. rewrite (sum_up_ext _ _ _ (fun _ => 0 * 0)); [rewrite sum_up_scale; lia|]. intros k Hk. unfold overlap_size. case_match; lia.
  - intros d Hd IH Hmax. unfold Z.succ in *. specialize (IH ltac:(lia)).
    destruct (prot_at rs (a + d)) as [pr|] eqn:Hp; [|by destruct (Hcov (a + d) ltac:(lia))]. apply prot_at_iff in Hp as (i & Hi & Hc & _); [|done].
    rewrite (sum_up_change _ _ (fun i => overlap_size (region_at rs i) (a + d)) _ i).
    + rewrite IH. destruct Hc as (Hu & Hin). unfold overlap_size. rewrite Hu. lia.
    + apply Hi.
    + intros j Hj Hne. unfold overlap_size. destruct (r_used (region_at rs j)) eqn:Hu; [|done].
      assert (~ covers (region_at rs j) (a + d)) as Hno by (intros Hcj; by apply Hne, (covers_unique rs j i (a + d))).
      assert (~ (r_start (region_at rs j) <= a + d < r_end (region_at rs j))) by (intros ?; by apply Hno). lia.
Qed.

Lemma cut_all_result slot : (forall i, slot_ok i -> inside (region_at rs i) = false) ->
  cut_result (for_up (trips 0 MAX_MMAP_REGIONS) 0 (cut_region slot a e) rs).
Proof.
  intros Hin. pose proof (cut_all slot Hin) as (Hl & Hat). set (rs' := for_up _ _ _ _) in *. clearbody rs'.
  assert (Hspec : forall i, slot_ok i -> _) by (intros i Hi; exact (cut_one_spec (region_at rs i) (rg_ok _ Hok i Hi) (Hin i Hi))). cbv zeta in Hspec.
  assert (Hok' : regions_ok rs').
  { split; [done | |].
    - intros i Hi. rewrite Hat by done. intros Hu. by apply (Hspec i).
    - intros i j Hi Hj Hne. rewrite !Hat by done. intros Ui Uj.
      destruct (Hspec i Hi) as (_ & _ & Hsi & _), (Hspec j Hj) as (_ & _ & Hsj & _).
      destruct (Hsi Ui) as (_ & Ui' & ? & ?), (Hsj Uj) as (_ & Uj' & ? & ?). destruct (rg_apart _ Hok i j); try done; [left | right]; lia. }
  split; [done | |].
  - intros x. apply option_eq. intros pr. rewrite prot_at_iff by done. case_bool_decide as Hx.
    + split; [|done]. intros (i & Hi & Hc & _). rewrite Hat in Hc by done. destruct (Hspec i Hi) as (H & _). apply H in Hc as (_ & ?). lia.
    + rewrite prot_at_iff by done. split; intros (i & Hi & Hc & Hp); exists i; rewrite Hat in * by done; destruct (Hspec i Hi) as (H & Hpr & _).
      * apply H in Hc as (? & _). split_and!; congruence.
      * split_and!; [done | by apply H | congruence].
  - assert (Hsum : 4096 * region_pages rs' = 4096 * region_pages rs - (e - a)).
    { unfold region_pages. rewrite <- !sum_up_scale, <- (overlap_sum e) by lia.
      rewrite (sum_up_ext _ _ (fun k => 4096 * pages_of (region_at rs' k)) (fun k => 4096 * pages_of (region_at rs k) + (-1) * overlap_size (region_at rs k) e)).
      - rewrite sum_up_add, (sum_up_scale _ _ (-1)). lia.
      - intros k Hk. rewrite Hat by apply Hk. destruct (Hspec k Hk) as (_ & _ & _ & H). lia. }
    pose proof (Z.div_mod (e - a) 4096). assert ((e - a) mod 4096 = 0) by (rewrite Zminus_mod, Hal, Hel; done). lia.
Qed.

Lemma cut_split_result slot i : slot_ok i -> inside (region_at rs i) = true -> slot_ok slot -> r_used (region_at rs slot) = false ->
  cut_result (for_up (trips 0 MAX_MMAP_REGIONS) 0 (cut_region slot a e) rs).
Proof.
  intros Hi Hin Hslot Hfree. rewrite (cut_split slot i) by done. cbv zeta. set (r := region_at rs i) in *.
  assert (Hr : r_used r = true /\ r_start r < a /\ e < r_end r) by (unfold inside, overlaps in Hin; bool_prop; done).
  destruct Hr as (Hu & Hst & Hen). destruct (rg_ok _ Hok i Hi Hu) as (R1 & R2 & R3 & R4 & R5 & R6). fold r in R1, R2, R3, R4, R5, R6.
  assert (Hsi : slot <> i) by (intros ->; fold r in Hfree; congruence).
  set (L := mk_region (r_start r) a (protection r) true). set (R := mk_region e (r_end r) (protection r) true).
  pose proof (rg_len _ Hok) as Hlen. set (rs' := aset (aset rs slot R) i L).
  assert (Hat : forall j, slot_ok j -> region_at rs' j = if decide (j = i) then L else if decide (j = slot) then R else region_at rs j).
  { intros j Hj. unfold rs'. rewrite !region_at_aset by (rewrite ?alen_aset, ?Hlen; apply Hi || apply Hj || apply Hslot).
    repeat case_decide; congruence. }
  assert (Hother : forall j, slot_ok j -> j <> i -> r_used (region_at rs j) = true -> apart L (region_at rs j) /\ apart R (region_at rs j)).
  { intros j Hj Hne Uj. destruct (rg_apart _ Hok i j Hi Hj ltac:(done) Hu Uj) as [H|H]; fold r in H; split; unfold apart, L, R; cbn; lia. }
  assert (Hok' : regions_ok rs').
  { split.
    - unfold rs'. by rewrite !alen_aset.
    - intros j Hj. rewrite Hat by done. repeat case_decide; [| |by apply (rg_ok _ Hok)]; intros _; unfold region_ok, L, R; cbn; split_and!; (done || lia).
    - intros j k Hj Hk Hne. rewrite !Hat by done. assert (apart L R) by (left; cbn; lia).
      repeat case_decide; subst; try done; intros Uj Uk; try (by apply (rg_apart _ Hok)); try (by apply Hother);
        try (by apply or_comm); try (destruct (Hother j Hj ltac:(done) Uj) as (HL & HR); by apply or_comm). }
  split; [done | |].
  - intros x. apply option_eq. intros pr. rewrite prot_at_iff by done. case_bool_decide as Hx.
    + split; [|done]. intros (j & Hj & Hc & Hp). rewrite Hat in Hc by done. unfold covers in Hc. repeat case_decide; cbn in Hc; try lia.
      assert (j = i) as ->; [|done]. apply (covers_unique rs j i x); try done. split; [done | fold r; lia].
    + rewrite prot_at_iff by done. split.
      * intros (j & Hj & Hc & Hp). rewrite Hat in * by done. unfold covers in Hc. repeat case_decide; cbn in Hc, Hp;
          [exists i | exists i | by exists j]; (split_and!; [done | split; [done | fold r; lia] | done]).
      * intros (j & Hj & Hc & Hp). destruct (decide (j = i)) as [->|Hne].
        -- fold r in Hc, Hp. destruct Hc as (_ & Hc). destruct (Z.lt_ge_cases x a).
           ++ exists i. rewrite Hat, decide_True by done. split_and!; [done | split; [done | cbn; lia] | done].
           ++ exists slot. rewrite Hat, decide_False, decide_True by done. split_and!; [done | split; [done | cbn; lia] | done].
        -- exists j. rewrite Hat by done. rewrite !decide_False; [done | | done]. intros ->. destruct Hc. congruence.
  - unfold region_pages. rewrite (sum_up_change _ _ (fun k => pages_of (region_at (aset rs slot R) k)) _ i); [|apply Hi|].
    2: { intros k Hk Hne. unfold rs'. rewrite region_at_aset by (rewrite ?alen_aset, ?Hlen; apply Hi || apply Hk). by rewrite decide_False. }
    rewrite (sum_up_change _ _ (fun k => pages_of (region_at rs k)) (fun k => pages_of (region_at (aset rs slot R) k)) slot); [|apply Hslot|].
    2: { intros k Hk Hne. rewrite region_at_aset by (rewrite ?Hlen; apply Hslot || apply Hk). by rewrite decide_False. }
    rewrite Hat, decide_True by done. rewrite (region_at_aset rs slot slot), (region_at_aset rs slot i) by (rewrite ?Hlen; apply Hi || apply Hslot).
    rewrite decide_True, decide_False by done.
    fold r. unfold pages_of. rewrite Hfree, Hu. cbn [r_used r_start r_end L R].
    pose proof (Z.div_mod a 4096). pose proof (Z.div_mod e 4096). pose proof (Z.div_mod (r_start r) 4096). pose proof (Z.div_mod (r_end r) 4096).
    assert (Hd : forall u v, u mod 4096 = 0 -> v mod 4096 = 0 -> 4096 * ((v - u) / 4096) = v - u).
    { intros u v Hu' Hv. symmetry. apply Z_div_exact_full_2; [done|]. rewrite Zminus_mod, Hu', Hv. done. }
    pose proof (Hd a e Hal Hel). pose proof (Hd (r_start r) a R1 Hal). pose proof (Hd e (r_end r) Hel R2). pose proof (Hd (r_start r) (r_end r) R1 R2). lia.
Qed.

End Cut.

End ProcessSpace.
