(* ===== verification/ProcessCorrect.v ===== *)
(** * ProcessCorrect: the address space a process is promised

    The invariant of a process's memory and the effect of every memory call on
    what the process finds at its addresses. *)

From S2P Require Import Prelude Memory Pmm PageTable Vmm VmmSafety VmmProgress VmmFork UserMem Usercopy CString ProcessMem ProcessSpace.
Import Memory.Memory Pmm.Pmm PageTable.PageTable Vmm.Vmm VmmSafety.VmmSafety VmmProgress.VmmProgress VmmFork.VmmFork UserMem.UserMem CString.CString.
Import ProcessMem.ProcessMem ProcessSpace.ProcessSpace.
Local Open Scope Z_scope.

Module ProcessCorrect.

Definition HEAP_LIMIT : Z := USER_STACK_ADDRESS - PMM_PAGE_SIZE.

(** What the rights of a page may be under a protection. *)
Definition rights (e pr : Z) : Prop :=
  (has e VMM_WRITABLE = true \/ has e VMM_COPY_ON_WRITE = true -> has pr CONEOS_PROT_WRITE = true) /\
  (has e VMM_NO_EXECUTE = false -> has pr CONEOS_PROT_EXEC = true).

Definition HEAP_PROTECTION : Z := CONEOS_PROT_READ |! CONEOS_PROT_WRITE.

(** Pages of the heap lie below the break, pages of the mapping area in a
    region, with the rights given there. *)
Definition page_allowed (p : process_record) (a e : Z) : Prop :=
  (heap_base p <= a < HEAP_LIMIT -> a < align_up_page (program_break p) /\ rights e HEAP_PROTECTION) /\
  (MMAP_ADDRESS_START <= a < MMAP_ADDRESS_LIMIT -> exists pr, prot_at (mappings p) a = Some pr /\ rights e pr).

Section Root.
Context (root : Z).

Record heap_ok (p : process_record) : Prop := {
  hp_aligned : heap_base p mod 4096 = 0;
  hp_base : 0 < heap_base p <= program_break p;
  hp_limit : program_break p <= HEAP_LIMIT;
}.

Definition heap_size (p : process_record) : Z := (align_up_page (program_break p) - heap_base p) / 4096.

(** [base] pages of the image and the stack, and the heap and the regions, are
    within the limit. *)
Record proc_wf (base : Z) (p : process_record) (s : vmm_state) : Prop := {
  pw_space : proc_space root s;
  pw_heap : heap_ok p;
  pw_regions : regions_ok (mappings p);
  pw_count : 0 <= base /\ committed_pages p = base + heap_size p + region_pages (mappings p) /\ committed_pages p <= PROCESS_MEMORY_LIMIT_PAGES;
  pw_pages : forall a e, 0 <= a < 2 ^ 47 -> user_entry s root (indices a) = Some e -> page_allowed p a e;
}.

(** What the process finds at an address. *)
Definition view (p : process_record) (s : vmm_state) (a : Z) : option Z :=
  if bool_decide (heap_base p <= a < HEAP_LIMIT) then
    if bool_decide (a < program_break p) then Some (default 0 (user_byte s root a)) else None
  else if bool_decide (MMAP_ADDRESS_START <= a < MMAP_ADDRESS_LIMIT) then
    match prot_at (mappings p) a with Some _ => Some (default 0 (user_byte s root a)) | None => None end
  else user_byte s root a.

Lemma heap_pages_eq p b : heap_ok p -> heap_base p <= b <= HEAP_LIMIT ->
  heap_pages p b = (align_up_page b - heap_base p) / 4096 /\ 4096 * heap_pages p b = align_up_page b - heap_base p /\ 0 <= heap_pages p b < 2 ^ 20.
Proof.
  intros [Ha Hb Hl] Hr. unfold HEAP_LIMIT, USER_STACK_ADDRESS, PMM_PAGE_SIZE in *. destruct (align_up_page_spec b ltac:(lia)) as (Hm & Hu).
  unfold heap_pages. rewrite u64_small by (unfold is_u64; lia). unfold PMM_PAGE_SIZE.
  assert (E : 4096 * ((align_up_page b - heap_base p) / 4096) = align_up_page b - heap_base p).
  { symmetry. apply Z_div_exact_full_2; [done|]. by rewrite Zminus_mod, Hm, Ha. }
  split_and!; [done | done | lia | lia].
Qed.

Lemma region_pages_nonneg rs : regions_ok rs -> 0 <= region_pages rs.
Proof.
  intros Hok. apply sum_up_nonneg. intros i Hi. unfold pages_of. destruct (r_used (region_at rs i)) eqn:Hu; [|lia].
  destruct (rg_ok _ Hok i Hi Hu) as (_ & _ & _ & H & _). apply Z.div_pos; lia.
Qed.

Lemma limit_test c n : 0 <= c <= PROCESS_MEMORY_LIMIT_PAGES ->
  (PROCESS_MEMORY_LIMIT_PAGES <? c) || (PROCESS_MEMORY_LIMIT_PAGES -! c <? n) = (PROCESS_MEMORY_LIMIT_PAGES <? c + n).
Proof.
  change PROCESS_MEMORY_LIMIT_PAGES with 4096. intros Hc. rewrite u64_small by (unfold is_u64; lia). apply eq_true_iff_eq. rewrite orb_true_iff, !Z.ltb_lt. lia.
Qed.

(** ** The program break *)

Definition brk_effect (p : process_record) (s : vmm_state) (requested r : Z) (p' : process_record) (s' : vmm_state) : Prop :=
  (requested = 0 /\ r = program_break p /\ p' = p /\ s' = s) \/
  (r = SYSCALL_EINVAL /\ p' = p /\ s' = s /\ requested <> 0 /\ ~ (heap_base p <= requested <= HEAP_LIMIT)) \/
  (r = SYSCALL_ENOMEM /\ p' = p /\ s' = s /\
     PROCESS_MEMORY_LIMIT_PAGES < committed_pages p + (align_up_page requested - align_up_page (program_break p)) / 4096) \/
  (r = requested /\ program_break p' = requested /\ heap_base p' = heap_base p /\ mappings p' = mappings p /\
   forall a, 0 <= a < 2 ^ 47 -> view p' s' a =
     if bool_decide (heap_base p <= a < HEAP_LIMIT) then
       if bool_decide (a < requested) then (if bool_decide (a < program_break p) then view p s a else Some 0) else None
     else view p s a).

(** The new count of committed pages. *)
Definition new_committed (p : process_record) (requested : Z) : Z :=
  let old_heap_pages := heap_pages p (program_break p) in
  let new_heap_pages := heap_pages p requested in
  if old_heap_pages <=? new_heap_pages then committed_pages p +! (new_heap_pages -! old_heap_pages)
  else committed_pages p -! (old_heap_pages -! new_heap_pages).

Lemma heap_limit_aligned b : 0 <= b <= HEAP_LIMIT -> align_up_page b <= HEAP_LIMIT.
Proof.
  intros Hb. unfold HEAP_LIMIT, USER_STACK_ADDRESS, PMM_PAGE_SIZE in *. rewrite <- (align_up_page_aligned (0x800000 - 4096)) by done.
  apply align_up_mono; lia.
Qed.

Section Brk.
Context (base requested : Z) (p : process_record) (s : vmm_state).
Context (Hw : proc_wf base p s) (Hrange : heap_base p <= requested <= HEAP_LIMIT).
Let p' := with_break p requested (new_committed p requested).

Lemma bk_heap : heap_ok p /\ heap_ok p'.
Proof. destruct Hw as [_ [H1 H2 H3] _ _ _]. split; split; cbn; (done || lia). Qed.

Lemma bk_sizes : heap_size p = heap_pages p (program_break p) /\ heap_size p' = heap_pages p requested /\
  0 <= heap_size p < 2 ^ 20 /\ 0 <= heap_size p' < 2 ^ 20.
Proof.
  destruct bk_heap as (H & _). destruct (heap_pages_eq p (program_break p) H) as (E & _ & R); [destruct H; lia|].
  destruct (heap_pages_eq p requested H Hrange) as (E' & _ & R'). unfold heap_size. cbn [with_break program_break heap_base p'].
  rewrite <- E, <- E'. done.
Qed.

Lemma bk_committed : heap_pages p requested <= heap_pages p (program_break p) \/
    committed_pages p + (heap_pages p requested - heap_pages p (program_break p)) <= PROCESS_MEMORY_LIMIT_PAGES ->
  0 <= base /\ committed_pages p' = base + heap_size p' + region_pages (mappings p') /\ committed_pages p' <= PROCESS_MEMORY_LIMIT_PAGES.
Proof.
  intros Hfit. destruct bk_sizes as (E & E' & R & R'). destruct Hw as [_ _ Hrg (H0 & Hc & Hl) _].
  pose proof (region_pages_nonneg _ Hrg). cbn [committed_pages mappings with_break p']. rewrite E'. rewrite E in *. rewrite E' in R'.
  unfold new_committed. unfold PROCESS_MEMORY_LIMIT_PAGES, PMM_PAGE_SIZE in *. change (16 * 1024 * 1024 / 4096) with 4096 in *.
  destruct (Z.leb_spec (heap_pages p (program_break p)) (heap_pages p requested)).
  - rewrite (u64_small (heap_pages p requested - _)), u64_small by (rewrite ?u64_small; unfold is_u64; lia). lia.
  - rewrite (u64_small (heap_pages p (program_break p) - _)), u64_small by (rewrite ?u64_small; unfold is_u64; lia). lia.
Qed.

Lemma bk_fits : 4096 * (heap_pages p requested - heap_pages p (program_break p)) = align_up_page requested - align_up_page (program_break p).
Proof.
  destruct bk_heap as (H & _). destruct (heap_pages_eq p (program_break p) H) as (_ & E & _); [destruct H; lia|].
  destruct (heap_pages_eq p requested H Hrange) as (_ & E' & _). lia.
Qed.

Lemma bk_view s' a : 0 <= a < 2 ^ 47 ->
  (heap_base p <= a < HEAP_LIMIT -> a < requested -> default 0 (user_byte s' root a) = if bool_decide (a < program_break p) then default 0 (user_byte s root a) else 0) ->
  (~ (heap_base p <= a < HEAP_LIMIT) -> user_byte s' root a = user_byte s root a) ->
  view p' s' a = if bool_decide (heap_base p <= a < HEAP_LIMIT) then
    if bool_decide (a < requested) then (if bool_decide (a < program_break p) then view p s a else Some 0) else None
    else view p s a.
Proof.
  intros Ha Hin Hout. unfold view. cbn [heap_base program_break mappings with_break p'].
  destruct (bool_decide_reflect (heap_base p <= a < HEAP_LIMIT)) as [Hh|Hh].
  - destruct (bool_decide_reflect (a < requested)) as [Hr|Hr]; [|done]. rewrite Hin by done. by destruct (bool_decide (a < program_break p)).
  - by rewrite Hout.
Qed.

Lemma bk_grow s' : program_break p < requested -> cleared root s s' (program_break p) requested ->
  heap_pages p requested <= heap_pages p (program_break p) \/
    committed_pages p + (heap_pages p requested - heap_pages p (program_break p)) <= PROCESS_MEMORY_LIMIT_PAGES ->
  proc_wf base p' s' /\ brk_effect p s requested requested p' s'.
Proof.
  intros Hlt [C P E B S] Hfit. destruct bk_heap as ([H1 H2 H3] & Hh). split.
  - split; [done | done | apply Hw | by apply bk_committed |]. intros a e Ha He. rewrite E in He by apply indices_path.
    destruct (pw_pages _ _ _ Hw a e Ha He) as (A1 & A2). split; [|done]. cbn. intros Hin. destruct (A1 Hin) as (Hlt' & Hr). split; [|done].
    pose proof (align_up_mono (program_break p) requested). unfold HEAP_LIMIT, USER_STACK_ADDRESS, PMM_PAGE_SIZE in *. lia.
  - right; right; right. split_and!; try done. intros a Ha. apply bk_view; [done | |].
    + intros Hin Hreq. rewrite B by done. destruct (user_byte s root a); repeat case_bool_decide; (done || lia).
    + intros Hout. rewrite B by done. by rewrite bool_decide_false by lia.
Qed.

Lemma bk_shrink s' : requested <= program_break p -> released root s s' (align_up_page requested) (align_up_page (program_break p)) ->
  proc_wf base p' s' /\ brk_effect p s requested requested p' s'.
Proof.
  intros Hle [S C E B]. destruct bk_heap as ([H1 H2 H3] & Hh). pose proof (heap_limit_aligned (program_break p) ltac:(lia)) as Hlim.
  pose proof (proj2 (align_up_page_spec requested ltac:(unfold HEAP_LIMIT, USER_STACK_ADDRESS, PMM_PAGE_SIZE in *; lia))) as Hup. split.
  - split; [split; [apply S | done] | done | apply Hw | apply bk_committed; left |].
    + pose proof bk_fits. pose proof (align_up_mono requested (program_break p)). unfold HEAP_LIMIT, USER_STACK_ADDRESS, PMM_PAGE_SIZE in *. lia.
    + intros a e Ha He. rewrite E in He by done. case_bool_decide as Hin; [done|].
      destruct (pw_pages _ _ _ Hw a e Ha He) as (A1 & A2). split; [|done]. cbn. intros Hin'. destruct (A1 Hin') as (Hlt' & Hr). split; [lia | done].
  - right; right; right. split_and!; try done. intros a Ha. apply bk_view; [done | |].
    + intros Hin Hreq. rewrite B by done. rewrite bool_decide_false by lia. by rewrite bool_decide_true by lia.
    + intros Hout. rewrite B by done. by rewrite bool_decide_false by lia.
Qed.

End Brk.

Lemma brk_spec base p s requested : proc_wf base p s -> is_u64 requested ->
  let '(r, p', s') := brk p (Space root) requested s in
  proc_wf base p' s' /\ brk_effect p s requested r p' s' /\ p_space p' = p_space p /\ pid p' = pid p /\ p_state p' = p_state p /\
  (owned_pages root s (program_break p) requested -> user_step s s' root).
Proof.
  intros Hw Hr. pose proof Hw as [Hs Hh Hrg (Hb0 & Hcom & Hlim) Hpg]. unfold brk.
  pose proof (user_step_refl s root (proj1 Hs)) as Hrefl.
  destruct (Z.eqb_spec requested 0) as [->|Hr0]; [split_and!; try done; by left|].
  change (USER_STACK_ADDRESS -! PMM_PAGE_SIZE) with HEAP_LIMIT. unfold is_u64 in Hr.
  destruct ((requested <? heap_base p) || (HEAP_LIMIT <? requested)) eqn:Hbad.
  { split_and!; try done. right; left. split_and!; try done. apply orb_true_iff in Hbad as [H|H]; bool_prop; lia. }
  bool_prop. assert (Hrange : heap_base p <= requested <= HEAP_LIMIT) by lia. destruct (bk_sizes base requested p s Hw Hrange) as (E & E' & R & R').
  pose proof (bk_fits base requested p s Hw Hrange) as Hfits. rewrite E in *. rewrite E' in R'. pose proof (region_pages_nonneg _ Hrg).
  fold (new_committed p requested). rewrite limit_test by lia. destruct (_ && _) eqn:Hfull.
  - apply andb_true_iff in Hfull as (Hgrow & Hfull). bool_prop. rewrite u64_small in Hfull by (unfold is_u64; lia).
    split_and!; try done. right; right; left. split_and!; try done. rewrite <- Hfits, Z.mul_comm, Z.div_mul by done. lia.
  - destruct Hh as [Hp1 Hp2 Hp3]. unfold HEAP_LIMIT, USER_STACK_ADDRESS, PMM_PAGE_SIZE in *. destruct (Z.ltb_spec (program_break p) requested) as [Hlt|Hge].
    + pose proof (clear_range_spec root (Usercopy.Usercopy.page_fuel (requested - program_break p)) (program_break p) requested s Hs ltac:(lia) ltac:(lia)
        (Usercopy.Usercopy.left_fuel (program_break p) (requested - program_break p) ltac:(lia))) as Hcl.
      destruct (bk_grow base requested p s Hw Hrange _ Hlt Hcl) as (W & Ef).
      * destruct (Z.leb_spec (heap_pages p requested) (heap_pages p (program_break p))) as [|Hgrow]; [by left|]. right.
        rewrite (proj2 (Z.ltb_lt _ _) Hgrow) in Hfull. bool_prop. rewrite u64_small in Hfull by (unfold is_u64; lia). lia.
      * split_and!; try done. apply (cl_step _ _ _ _ _ Hcl).
    + destruct (align_up_page_spec requested ltac:(lia)) as (A1 & A2), (align_up_page_spec (program_break p) ltac:(lia)) as (A3 & A4).
      pose proof (align_up_mono requested (program_break p) ltac:(lia) ltac:(lia)).
      pose proof (release_pages_spec root s (align_up_page requested) (align_up_page (program_break p)) Hs ltac:(lia) ltac:(lia) A1 A3) as Hre.
      destruct (bk_shrink base requested p s Hw Hrange _ Hge Hre) as (W & Ef). split_and!; try done. intros _. apply (re_step _ _ _ _ _ Hre).
Qed.

(** ** Anonymous mappings *)

Lemma refused_spec hint pr flags : mmap_refused hint pr flags = false ->
  prot_ok pr /\ (hint = 0 \/ (MMAP_ADDRESS_START <= hint < MMAP_ADDRESS_LIMIT /\ hint mod 4096 = 0)).
Proof.
  unfold mmap_refused. intros H. rewrite !orb_false_iff in H. destruct H as ((((_ & Hr) & Hwx) & _) & Hh). apply negb_false_iff in Hr. split.
  - split; [done|]. intros (HW & HX). apply Z.eqb_neq in Hwx. apply Hwx. unfold CONEOS_PROT_WRITE, CONEOS_PROT_EXEC in *.
    change 2 with (2 ^ 1) in HW. change 4 with (2 ^ 2) in HX. rewrite has_pow2 in HW, HX by done. change WRITE_EXEC with (Z.lor (2 ^ 1) (2 ^ 2)).
    apply Z.bits_inj'. intros n Hn. rewrite Z.land_spec, Z.lor_spec, !Z.pow2_bits_eqb by done.
    destruct (Z.eqb_spec 1 n) as [<-|]; [by rewrite HW|]. destruct (Z.eqb_spec 2 n) as [<-|]; [by rewrite HX|]. by rewrite andb_false_r.
  - destruct (Z.eqb_spec hint 0) as [->|]; [by left|]. right. cbn [negb andb] in Hh. rewrite !orb_false_iff in Hh. destruct Hh as ((H1 & H2) & H3).
    bool_prop. unfold PMM_PAGE_SIZE in *. lia.
Qed.

(** Room for [len] bytes in the mapping area. *)
Definition room (p : process_record) (s : vmm_state) (len c : Z) : Prop :=
  MMAP_ADDRESS_START <= c /\ c + len <= MMAP_ADDRESS_LIMIT /\ c mod 4096 = 0 /\ gap root (mappings p) s len c.

Definition mmap_effect (p : process_record) (s : vmm_state) (hint length pr flags r : Z) (p' : process_record) : Prop :=
  (r = SYSCALL_EINVAL /\ p' = p /\ (rounded_mapping_length length = None \/ mmap_refused hint pr flags = true)) \/
  exists len, rounded_mapping_length length = Some len /\
    ((r = SYSCALL_ENOMEM /\ p' = p /\
       ((forall i, slot_ok i -> r_used (region_at (mappings p) i) = true) \/
        PROCESS_MEMORY_LIMIT_PAGES < committed_pages p + len / 4096 \/
        (forall c, ~ room p s len c))) \/
     (room p s len r /\ prot_ok pr /\ program_break p' = program_break p /\ heap_base p' = heap_base p /\
      (forall x, prot_at (mappings p') x = if bool_decide (r <= x < r + len) then Some pr else prot_at (mappings p) x) /\
      (forall x, r <= x < r + len -> view p s x = None) /\
      forall x, 0 <= x < 2 ^ 47 -> view p' s x = if bool_decide (r <= x < r + len) then Some 0 else view p s x)).

Section Mmap.
Context (base len r pr slot : Z) (p : process_record) (s : vmm_state).
Context (Hw : proc_wf base p s) (Hlen : 0 < len) (Hal : len mod 4096 = 0) (Hroom : room p s len r) (Hpr : prot_ok pr).
Context (Hslot : find_free_mapping_slot (mappings p) = Some slot) (Hfit : committed_pages p + len / 4096 <= PROCESS_MEMORY_LIMIT_PAGES).
Let region := mk_region r (r + len) pr true.
Let p' := with_mappings p (committed_pages p + len / 4096) (aset (mappings p) slot region).

Lemma mm_region : region_ok region.
Proof.
  destruct Hroom as (H1 & H2 & H3 & _). unfold region_ok, region. cbn [r_start r_end protection]. split_and!; try done; try lia.
  by rewrite Z.add_mod, H3, Hal by done.
Qed.

Lemma mm_apart i : slot_ok i -> r_used (region_at (mappings p) i) = true -> apart region (region_at (mappings p) i).
Proof. destruct Hroom as (_ & _ & _ & G & _). intros Hi Hu. by apply G. Qed.

Lemma mm_prot x : prot_at (mappings p') x = if bool_decide (r <= x < r + len) then Some pr else prot_at (mappings p) x.
Proof.
  destruct (free_slot_Some _ _ Hslot) as (Hs & Hf).
  apply (add_prot (mappings p) slot region (pw_regions _ _ _ Hw) Hs Hf mm_region eq_refl mm_apart).
Qed.

Lemma mm_out x : r <= x < r + len -> prot_at (mappings p) x = None /\ user_byte s root x = None /\ MMAP_ADDRESS_START <= x < MMAP_ADDRESS_LIMIT.
Proof.
  destruct Hroom as (H1 & H2 & _ & G1 & G2). intros Hx. split_and!; [| |lia|lia].
  - apply prot_at_None. intros i Hi (Hu & Hc). destruct (G1 i Hi Hu); lia.
  - unfold user_byte. by rewrite G2.
Qed.

Lemma mm_view x : view p' s x = if bool_decide (r <= x < r + len) then Some 0 else view p s x.
Proof.
  unfold view. rewrite mm_prot. cbn [heap_base program_break p' with_mappings]. destruct (bool_decide_reflect (r <= x < r + len)) as [Hx|Hx]; [|done].
  destruct (mm_out x Hx) as (_ & -> & Hr). rewrite bool_decide_false, bool_decide_true; [done | done |].
  unfold HEAP_LIMIT, USER_STACK_ADDRESS, PMM_PAGE_SIZE, MMAP_ADDRESS_START in *. lia.
Qed.

Lemma mm_wf : proc_wf base p' s.
Proof.
  destruct (free_slot_Some _ _ Hslot) as (Hs & Hf). pose proof Hw as [W1 [W21 W22 W23] W3 (W4 & W5 & W6) W7].
  split; [done | split; done | by apply add_ok; (done || apply mm_region || apply mm_apart) | |].
  - cbn [committed_pages mappings p' with_mappings]. rewrite (add_pages (mappings p) slot region W3 Hs Hf eq_refl). cbn [r_start r_end region].
    replace (r + len - r) with len by lia. unfold heap_size in *. cbn [p' program_break heap_base with_mappings]. lia.
  - intros a e Ha He. destruct (W7 a e Ha He) as (A1 & A2). split; [done|]. intros Hin. destruct (A2 Hin) as (q & Hq & Hrt). exists q. split; [|done].
    rewrite mm_prot, bool_decide_false; [done|]. intros Hx. destruct (mm_out a Hx). congruence.
Qed.

End Mmap.

Lemma mmap_spec base p s hint length pr flags : proc_wf base p s -> is_u64 length ->
  let '(r, p') := mmap p (Space root) hint length pr flags s in
  proc_wf base p' s /\ mmap_effect p s hint length pr flags r p' /\ p_space p' = p_space p /\ pid p' = pid p /\ p_state p' = p_state p.
Proof.
  intros Hw Hl. pose proof Hw as [Hs _ Hrg (Hb0 & Hcom & Hlim) _]. unfold mmap. destruct (rounded_mapping_length length) as [len|] eqn:Hlen.
  2: { split_and!; try done. left. split_and!; try done. by left. }
  destruct (mmap_refused hint pr flags) eqn:Href. { split_and!; try done. left. split_and!; try done. by right. }
  destruct (refused_spec _ _ _ Href) as (Hpr & Hhint). destruct (rounded_spec _ _ Hl Hlen) as (Hal & Hr1 & Hr2 & Hr3).
  destruct (find_free_mapping_slot (mappings p)) as [slot|] eqn:Hslot.
  2: { split_and!; try done. right. exists len. split; [done|]. left. split_and!; try done. left. intros i. by apply free_slot_None. }
  assert (Hc0 : 0 <= committed_pages p <= PROCESS_MEMORY_LIMIT_PAGES).
  { pose proof (region_pages_nonneg _ Hrg). destruct (heap_pages_eq p (program_break p) (pw_heap _ _ _ Hw)) as (E & _ & ?); [destruct (pw_heap _ _ _ Hw); lia|].
    unfold heap_size in *. lia. }
  rewrite limit_test by done. change (len / PMM_PAGE_SIZE) with (len / 4096). destruct (Z.ltb_spec PROCESS_MEMORY_LIMIT_PAGES (committed_pages p + len / 4096)) as [Hf|Hf].
  { split_and!; try done. right. exists len. split; [done|]. left. split_and!; try done. right; by left. }
  assert (Hlm : len <= MMAP_ADDRESS_LIMIT).
  { unfold MMAP_ADDRESS_LIMIT. change PROCESS_MEMORY_LIMIT_PAGES with 4096 in *. pose proof (Z.div_mod len 4096). lia. }
  pose proof (select_spec root (mappings p) s len Hrg Hs ltac:(lia) Hal hint Hhint) as Hsel.
  destruct (select_mapping_address _ _ _ _ _) as [a|].
  - destruct Hsel as (S1 & S2 & S3 & S4). assert (Hroom : room p s len a) by done.
    change PROCESS_MEMORY_LIMIT_PAGES with 4096 in *. pose proof (Z.div_pos len 4096).
    rewrite (u64_small (committed_pages p + len / 4096)) by (unfold is_u64; lia).
    rewrite u64_small by (unfold is_u64, MMAP_ADDRESS_START, MMAP_ADDRESS_LIMIT in *; lia).
    split_and!; try done.
    + apply (mm_wf base len a pr slot p s); (done || lia).
    + right. exists len. split; [done|]. right. split_and!; try done; try apply S4; try apply Hpr.
      * apply (mm_prot base len a pr slot p s); (done || lia).
      * intros x Hx. destruct (mm_out len a p s Hroom x Hx) as (E & _ & Hin). unfold view. rewrite E, bool_decide_false, bool_decide_true; [done | done |].
        unfold HEAP_LIMIT, USER_STACK_ADDRESS, PMM_PAGE_SIZE, MMAP_ADDRESS_START in *. lia.
      * intros x _. apply (mm_view base len a pr slot p s); (done || lia).
  - split_and!; try done. right. exists len. split; [done|]. left. split_and!; try done. right; right. intros c (C1 & C2 & C3 & C4). by apply (Hsel c).
Qed.


(** ** Unmapping *)

Definition mapped_range (p : process_record) (a len : Z) : Prop :=
  MMAP_ADDRESS_START <= a /\ a + len <= MMAP_ADDRESS_LIMIT /\ forall x, a <= x < a + len -> prot_at (mappings p) x <> None.

Definition munmap_effect (p : process_record) (s : vmm_state) (a length r : Z) (p' : process_record) (s' : vmm_state) : Prop :=
  (r = SYSCALL_EINVAL /\ p' = p /\ s' = s /\
    forall len, a mod 4096 = 0 -> rounded_mapping_length length = Some len -> ~ mapped_range p a len) \/
  exists len, a mod 4096 = 0 /\ rounded_mapping_length length = Some len /\ mapped_range p a len /\
    ((r = SYSCALL_ENOMEM /\ p' = p /\ s' = s /\ (forall i, slot_ok i -> r_used (region_at (mappings p) i) = true) /\
        exists i, slot_ok i /\ r_start (region_at (mappings p) i) < a /\ a + len < r_end (region_at (mappings p) i)) \/
     (r = 0 /\ program_break p' = program_break p /\ heap_base p' = heap_base p /\
      (forall x, prot_at (mappings p') x = if bool_decide (a <= x < a + len) then None else prot_at (mappings p) x) /\
      forall x, 0 <= x < 2 ^ 47 -> view p' s' x = if bool_decide (a <= x < a + len) then None else view p s x)).

Section Munmap.
Context (base a len : Z) (p : process_record) (s : vmm_state).
Context (Hw : proc_wf base p s) (Hal : a mod 4096 = 0) (Hlen : 0 < len) (Hll : len mod 4096 = 0) (Hm : mapped_range p a len).

Lemma mu_range : 0 < a < a + len /\ (a + len) mod 4096 = 0 /\ a + len <= 2 ^ 47.
Proof.
  destruct Hm as (H1 & H2 & _). unfold MMAP_ADDRESS_START, MMAP_ADDRESS_LIMIT in *. split_and!; try lia. by rewrite Z.add_mod, Hal, Hll by done.
Qed.

Lemma split_Some i : split_region (mappings p) a (a + len) = Some i -> slot_ok i /\ inside a (a + len) (region_at (mappings p) i) = true.
Proof. intros H. apply find_up_Some in H as (H1 & H2 & _). unfold slot_ok, MAX_MMAP_REGIONS, trips in *. split; [lia | done]. Qed.

Lemma split_None i : split_region (mappings p) a (a + len) = None -> slot_ok i -> inside a (a + len) (region_at (mappings p) i) = false.
Proof. intros H Hi. unfold slot_ok, MAX_MMAP_REGIONS in *. apply (proj1 (find_up_None _ _ _) H i). unfold trips, MAX_MMAP_REGIONS. lia. Qed.

(** The regions after the cut, with or without a second slot. *)
Lemma mu_cut slot : let split := split_region (mappings p) a (a + len) in
  (is_Some split -> find_free_mapping_slot (mappings p) = Some slot) ->
  cut_result (mappings p) a (a + len) (for_up (trips 0 MAX_MMAP_REGIONS) 0 (cut_region slot a (a + len)) (mappings p)).
Proof.
  intros split Hslot. destruct mu_range as (Hr & He & _). destruct Hm as (_ & _ & Hc). destruct split as [i|] eqn:Hsp; unfold split in Hsp.
  - destruct (split_Some i Hsp) as (Hi & Hin), (free_slot_Some _ _ (Hslot ltac:(done))) as (Hs & Hf).
    by apply (cut_split_result _ _ _ (pw_regions _ _ _ Hw) Hr Hal He slot i).
  - apply (cut_all_result _ _ _ (pw_regions _ _ _ Hw) Hr Hal He Hc). intros i. by apply split_None.
Qed.

Context (rs : list mmap_region) (s' : vmm_state).
Context (Hcut : cut_result (mappings p) a (a + len) rs) (Hrel : released root s s' a (a + len)).
Let p' := with_mappings p (committed_pages p - len / 4096) rs.

Lemma mu_wf : proc_wf base p' s'.
Proof.
  destruct Hcut as [C1 C2 C3], Hrel as [R1 R2 R3 R4], Hw as [W1 [W21 W22 W23] W3 (W4 & W5 & W6) W7]. replace (a + len - a) with len in C3 by lia.
  split; [split; [apply R1 | done] | done | done | |].
  - cbn [p' committed_pages mappings with_mappings]. unfold heap_size in *. cbn [p' program_break heap_base with_mappings].
    pose proof (Z.div_pos len 4096 ltac:(lia)). rewrite C3. lia.
  - intros x e Hx He. rewrite R3 in He by done. case_bool_decide as Hin; [done|]. destruct (W7 x e Hx He) as (A1 & A2). split; [done|].
    intros Hmm. destruct (A2 Hmm) as (q & Hq & Hrt). exists q. cbn [p' mappings with_mappings]. by rewrite C2, bool_decide_false.
Qed.

Lemma mu_view x : 0 <= x < 2 ^ 47 -> view p' s' x = if bool_decide (a <= x < a + len) then None else view p s x.
Proof.
  intros Hx. destruct Hcut as [_ C2 _], Hrel as [_ _ _ R4], Hm as (H1 & H2 & _). unfold view. cbn [p' heap_base program_break mappings with_mappings].
  rewrite C2, R4 by done. destruct (bool_decide_reflect (a <= x < a + len)) as [Hin|Hout]; [|done].
  rewrite bool_decide_false, bool_decide_true; [done | lia |].
  unfold HEAP_LIMIT, USER_STACK_ADDRESS, PMM_PAGE_SIZE, MMAP_ADDRESS_START in *. lia.
Qed.

End Munmap.

Lemma munmap_spec base p s a length : proc_wf base p s -> is_u64 a -> is_u64 length ->
  let '(r, p', s') := munmap p (Space root) a length s in
  proc_wf base p' s' /\ munmap_effect p s a length r p' s' /\ p_space p' = p_space p /\ pid p' = pid p /\ p_state p' = p_state p /\ user_step s s' root.
Proof.
  intros Hw Ha Hl. pose proof Hw as [Hs Hhp Hrg (Hb0 & Hcom & Hlim) _]. unfold munmap, PMM_PAGE_SIZE. pose proof (user_step_refl s root (proj1 Hs)) as Hrefl.
  destruct (Z.eqb_spec (a mod 4096) 0) as [Hal|Hal]; cbn [negb]; [|split_and!; try done; left; by split_and!].
  destruct (rounded_mapping_length length) as [len|] eqn:Hlen; [|split_and!; try done; left; split_and!; congruence].
  destruct (rounded_spec _ _ Hl Hlen) as (Hll & Hr1 & Hr2 & Hr3). unfold is_u64 in Ha.
  destruct (_ || _) eqn:Hbad.
  { split_and!; try done. left. split_and!; try done. intros len' _ E (M1 & M2 & _). assert (len' = len) as -> by congruence. unfold MMAP_ADDRESS_START, MMAP_ADDRESS_LIMIT in *.
    rewrite !orb_true_iff in Hbad. destruct Hbad as [[H|H]|H]; bool_prop; try lia. rewrite u64_small in H by (unfold is_u64; lia). lia. }
  rewrite !orb_false_iff in Hbad. destruct Hbad as ((Hb1 & Hb2) & Hb3). bool_prop. unfold MMAP_ADDRESS_START, MMAP_ADDRESS_LIMIT in Hb1, Hb2, Hb3.
  rewrite u64_small in Hb3 by (unfold is_u64; lia). rewrite (u64_small (a + len)) by (unfold is_u64; lia).
  pose proof (covered_spec (mappings p) a (a + len) Hrg ltac:(lia) ltac:(unfold MMAP_ADDRESS_LIMIT; lia)) as Hcv.
  destruct (covered _ _ _) eqn:Hc; cbn [negb].
  2: { split_and!; try done. left. split_and!; try done. intros len' _ E (_ & _ & M). assert (len' = len) as -> by congruence. by apply Hcv in M. }
  assert (Hm : mapped_range p a len) by (unfold mapped_range, MMAP_ADDRESS_START, MMAP_ADDRESS_LIMIT; split_and!; [lia | lia | by apply Hcv]).
  destruct (bool_decide _ && bool_decide _) eqn:Hfull.
  { apply andb_true_iff in Hfull as (Hsp%bool_decide_eq_true & Hf%bool_decide_eq_true). destruct Hsp as (i & Hsp). destruct (split_Some a len p i Hsp) as (Hi & Hin).
    split_and!; try done. right. exists len. split_and!; try done; try apply Hm. left. split_and!; try done.
    - intros j. by apply free_slot_None.
    - exists i. unfold inside in Hin. rewrite !andb_true_iff in Hin. destruct Hin as ((_ & H1) & H2). bool_prop. by split_and!. }
  set (slot := if bool_decide _ then _ else _). destruct (mu_range a len p Hal ltac:(lia) Hll Hm) as (Hr & He & Htop).
  assert (Hcut : cut_result (mappings p) a (a + len) (for_up (trips 0 MAX_MMAP_REGIONS) 0 (cut_region slot a (a + len)) (mappings p))).
  { apply (mu_cut base a len p s Hw Hal ltac:(lia) Hll Hm). intros Hsp. unfold slot. rewrite bool_decide_true in Hfull |- * by done.
    cbn [andb] in Hfull. apply bool_decide_eq_false in Hfull. by destruct (find_free_mapping_slot (mappings p)). }
  pose proof (release_pages_spec root s a (a + len) Hs ltac:(lia) Htop Hal He) as Hrel.
  set (rs := for_up _ _ _ _) in *. rewrite u64_small.
  2: { pose proof (region_pages_nonneg _ (ct_ok _ _ _ _ Hcut)). pose proof (ct_pages _ _ _ _ Hcut). replace (a + len - a) with len in * by lia.
       destruct (heap_pages_eq p (program_break p) Hhp) as (E & _ & ?); [destruct Hhp; lia|]. pose proof (Z.div_pos len 4096).
       change PROCESS_MEMORY_LIMIT_PAGES with 4096 in *. unfold is_u64, heap_size in *. lia. }
  split_and!; try done.
  - by apply (mu_wf base a len p s); (done || lia).
  - right. exists len. split_and!; try done; try apply Hm. right. split_and!; try done; [apply (ct_prot _ _ _ _ Hcut) |].
    intros x. by apply (mu_view a len p s).
  - apply Hrel.
Qed.


(** ** Demand paging *)

Lemma page_flags_spec pr : let fl := page_flags pr in
  has fl VMM_USER = true /\ has fl VMM_COPY_ON_WRITE = false /\
  has fl VMM_WRITABLE = has pr CONEOS_PROT_WRITE /\ has fl VMM_NO_EXECUTE = negb (has pr CONEOS_PROT_EXEC).
Proof. unfold page_flags. by destruct (has pr CONEOS_PROT_WRITE), (has pr CONEOS_PROT_EXEC). Qed.

(** Mapping a fresh page at an address that has none. *)
Lemma fresh_mapped s s1 f a flags : proc_space root s -> fresh_page s s1 root f -> 3 <= free_pages (pmm s1) ->
  0 <= a < 2 ^ 47 -> a mod 4096 = 0 -> user_entry s root (indices a) = None -> has flags VMM_USER = true -> has flags VMM_COPY_ON_WRITE = false ->
  (has flags VMM_WRITABLE = true -> has flags VMM_NO_EXECUTE = true) ->
  exists s2, vmm_space_map_page (Some (Space root)) a f flags s1 = (true, s2) /\ user_step s s2 root /\
    (forall idx, page_path idx -> user_entry s2 root idx = if decide (idx = indices a) then Some (leaf_entry f flags) else user_entry s root idx) /\
    forall b, user_byte s2 root b = if decide (indices b = indices a) then Some (rd (memory s1) (f + b mod 4096)) else user_byte s root b.
Proof.
  intros (Hwf & Hcl) Hf Hfree Ha Hal He HU HC Hwx. destruct (low_address a Ha) as (Hva & Hcan).
  assert (Hl : leaf (memory s) root (indices a) = None).
  { destruct (leaf (memory s) root (indices a)) as [[l e]|] eqn:El; [|done]. unfold user_entry in He. rewrite El in He.
    by rewrite (Hcl _ l e (indices_path a) (low_half a Ha) El) in He. }
  assert (Href : map_refused (Space root) a f flags = false).
  { unfold map_refused, PMM_PAGE_SIZE. destruct (fp_page _ _ _ _ Hf) as (Hfa & _). change (2 ^ 12) with 4096 in Hfa.
    rewrite Hcan, Hal, Hfa, (fp_valid _ _ _ _ Hf), HU. cbn [negb orb andb Z.eqb is_kernel].
    rewrite (proj2 (Z.leb_gt 0x0000800000000000 a)), (proj2 (Z.leb_gt 0xFFFF800000000000 a)) by lia.
    destruct (has flags VMM_WRITABLE); [by rewrite Hwx | done]. }
  pose proof (map_page_progress (Space root) a f flags s1 (sp_space _ _ _ (fp_same _ _ _ _ Hf)) Href) as Hok. cbn [pml4_physical] in Hok.
  rewrite (sp_leaf _ _ _ (fp_same _ _ _ _ Hf)) in Hok by apply indices_path. specialize (Hok Hl Hfree).
  destruct (vmm_space_map_page (Some (Space root)) a f flags s1) as [ok s2] eqn:Em. cbn [fst] in Hok. rewrite Hok in Em |- *.
  exists s2. split_and!; [done | by apply (mf_step s s1 s2 root f a flags) | by apply (mf_entry s s1 s2 root f a flags) | by apply (mf_byte s s1 s2 root f a flags)].
Qed.

(** A page of the allocator is left for three tables. *)
Lemma alloc_leaves s f p : user_wf s root -> pmm_alloc_user_page (pmm s) = (f, p) -> f <> PMM_INVALID_ADDRESS ->
  PMM_KERNEL_RESERVE_PAGES < free_pages (pmm s) /\ 3 <= free_pages p.
Proof.
  intros Hwf Ea Hne. destruct (alloc_count PMM_KERNEL_RESERVE_PAGES _ f p (sw_pmm _ _ (uw_space _ _ Hwf)) ltac:(done) Ea) as [(_ & ? & _)|(Hlt & _ & Hc)]; [done|].
  change PMM_KERNEL_RESERVE_PAGES with 1024 in *. lia.
Qed.

(** A cleared page at [a]. *)
Record demanded (s s' : vmm_state) (a flags f : Z) : Prop := {
  dm_step : user_step s s' root;
  dm_page : is_page f;
  dm_entry : forall idx, page_path idx -> user_entry s' root idx = if decide (idx = indices a) then Some (leaf_entry f flags) else user_entry s root idx;
  dm_byte : forall b, user_byte s' root b = if decide (indices b = indices a) then Some 0 else user_byte s root b;
}.

Lemma demand_spec a pr s : let flags := page_flags pr in
  proc_space root s -> 0 <= a < 2 ^ 47 -> a mod 4096 = 0 -> user_entry s root (indices a) = None -> prot_ok pr ->
  let '(r, s') := demand_page (Space root) a flags s in
  (r = -1 /\ s' = s /\ free_pages (pmm s) <= PMM_KERNEL_RESERVE_PAGES) \/
  (r = 1 /\ PMM_KERNEL_RESERVE_PAGES < free_pages (pmm s) /\ exists f, demanded s s' a flags f).
Proof.
  intros flags Hs Ha Hal He (_ & Hwx). pose proof Hs as (Hwf & _). unfold demand_page.
  destruct (page_flags_spec pr) as (HU & HC & HW & HX). fold flags in HU, HC, HW, HX.
  destruct (pmm_alloc_user_page (pmm s)) as [f p] eqn:Ea. destruct (user_alloc s root f p Hwf Ea) as [(-> & -> & Hle)|Hf].
  { rewrite Z.eqb_refl. left. split_and!; [done | by destruct s | done]. }
  assert (Hz : forall x, in_page f x -> rd (zero_page (memory s) f) x = 0) by (intros x Hx; by rewrite zero_page_rd, bool_decide_true).
  rewrite (fp_valid _ _ _ _ Hf). destruct (alloc_leaves s f p Hwf Ea (proj1 (Z.eqb_neq _ _) (fp_valid _ _ _ _ Hf))) as (Hlt & H3).
  cbn [memory with_pmm]. set (s1 := with_memory _ _) in *. change p with (pmm s1) in H3. change (zero_page (memory s) f) with (memory s1) in Hz. clearbody s1.
  destruct (fresh_mapped s s1 f a flags Hs Hf H3 Ha Hal He HU HC) as (s2 & -> & S & E & B).
  { rewrite HW, HX. intros H. destruct (has pr CONEOS_PROT_EXEC) eqn:HE; [|done]. by destruct Hwx. }
  cbn [negb]. right. split_and!; [done | done |]. exists f. split; [done | apply Hf | done |].
  intros b. rewrite B. by rewrite Hz by apply in_page_offset.
Qed.

(** The protection at an address of the heap or of a region. *)
Definition allowed (p : process_record) (a : Z) : option Z :=
  if bool_decide (heap_base p <= a < program_break p) then Some HEAP_PROTECTION else prot_at (mappings p) a.

Definition permits (pr code : Z) : Prop :=
  has pr CONEOS_PROT_READ = true /\ (has code FAULT_WRITE = true -> has pr CONEOS_PROT_WRITE = true) /\
  (has code FAULT_FETCH = true -> has pr CONEOS_PROT_EXEC = true).

(** The faults the kernel handles: a write to a copy-on-write page, or a
    permitted access to a page of the heap or of a region that has no frame yet. *)
Definition handled (p : process_record) (s : vmm_state) (a code : Z) : Prop :=
  0 <= a < 2 ^ 47 /\
  if has code FAULT_PRESENT then
    has code FAULT_WRITE = true /\ exists e, user_entry s root (indices a) = Some e /\ has e VMM_COPY_ON_WRITE = true
  else user_entry s root (indices a) = None /\ exists pr, allowed p a = Some pr /\ permits pr code.

Definition fault_effect (p : process_record) (s : vmm_state) (a code r : Z) (s' : vmm_state) : Prop :=
  (r = 0 /\ s' = s /\ ~ handled p s a code) \/
  (handled p s a code /\
    ((r = -1 /\ s' = s /\ free_pages (pmm s) <= PMM_KERNEL_RESERVE_PAGES) \/
     (r = 1 /\ exists e, user_entry s' root (indices a) = Some e /\ (has code FAULT_WRITE = true -> has e VMM_WRITABLE = true) /\
        (has code FAULT_PRESENT = false -> has code FAULT_FETCH = true -> has e VMM_NO_EXECUTE = false)))).

Lemma prot_of_address p a : regions_ok (mappings p) ->
  address_protection p a = match allowed p a with Some pr => pr | None => 0 end /\
  forall pr, allowed p a = Some pr -> prot_ok pr.
Proof.
  intros Hrg. unfold address_protection, allowed. destruct (bool_decide_reflect (heap_base p <= a < program_break p)) as [Hin|Hout].
  - rewrite (proj2 (Z.leb_le _ _)), (proj2 (Z.ltb_lt _ _)) by lia. split; [done|]. intros pr [= <-]. split; [done|]. by intros (_ & ?).
  - split; [|intros pr Hpr; by apply (prot_at_ok _ _ _ Hrg Hpr)]. unfold prot_at.
    destruct (Z.leb_spec (heap_base p) a), (Z.ltb_spec a (program_break p)); cbn [andb]; try lia; by destruct (mapping_covering _ _).
Qed.

(** The areas are made of whole pages. *)
Lemma area_page x y : x / 4096 = y / 4096 ->
  (forall b, b mod 4096 = 0 -> b <= x <-> b <= y) /\ (forall b, b mod 4096 = 0 -> x < b <-> y < b).
Proof.
  intros E. pose proof (Z.div_mod x 4096). pose proof (Z.div_mod y 4096). pose proof (Z.mod_pos_bound x 4096). pose proof (Z.mod_pos_bound y 4096).
  split; intros b Hb; pose proof (Z.div_mod b 4096); split; intros; lia.
Qed.

Lemma heap_area p x y : heap_ok p -> x / 4096 = y / 4096 -> heap_base p <= x < HEAP_LIMIT <-> heap_base p <= y < HEAP_LIMIT.
Proof.
  intros [Ha _ _] E. destruct (area_page x y E) as (H1 & H2). pose proof (H1 _ Ha). pose proof (H2 HEAP_LIMIT eq_refl). lia.
Qed.

Lemma mmap_area x y : x / 4096 = y / 4096 -> MMAP_ADDRESS_START <= x < MMAP_ADDRESS_LIMIT <-> MMAP_ADDRESS_START <= y < MMAP_ADDRESS_LIMIT.
Proof.
  intros E. destruct (area_page x y E) as (H1 & H2). pose proof (H1 MMAP_ADDRESS_START eq_refl). pose proof (H2 MMAP_ADDRESS_LIMIT eq_refl). lia.
Qed.


Section Fault.
Context (base a code : Z) (p : process_record) (s : vmm_state) (Hw : proc_wf base p s).

Lemma ft_wf s' : proc_space root s' -> (forall x e, 0 <= x < 2 ^ 47 -> user_entry s' root (indices x) = Some e -> page_allowed p x e) -> proc_wf base p s'.
Proof. intros Hs' Hp. by destruct Hw. Qed.

(** What is allowed at an address holds for its page. *)
Lemma allowed_on_page pr x e : allowed p a = Some pr -> x / 4096 = a / 4096 -> 0 <= x -> rights e pr -> page_allowed p x e.
Proof.
  intros Hal E Hx Hr. pose proof (pw_heap _ _ _ Hw) as Hh. pose proof Hh as [H1 H2 H3]. unfold allowed in Hal.
  assert (Hup : program_break p <= align_up_page (program_break p) /\ align_up_page (program_break p) mod 4096 = 0).
  { destruct (align_up_page_spec (program_break p)) as (? & ?); [unfold HEAP_LIMIT, USER_STACK_ADDRESS, PMM_PAGE_SIZE in *; lia|]. split; [lia | done]. }
  destruct (area_page x a E) as (_ & Hlt). specialize (Hlt _ (proj2 Hup)).
  destruct (bool_decide_reflect (heap_base p <= a < program_break p)) as [Hin|Hout].
  - injection Hal as <-. split; [intros _; split; [lia | done]|]. intros Hm. unfold HEAP_LIMIT, USER_STACK_ADDRESS, PMM_PAGE_SIZE, MMAP_ADDRESS_START in *.
    apply (mmap_area x a E) in Hm. unfold MMAP_ADDRESS_START in Hm. lia.
  - destruct (prot_at_ok _ _ _ (pw_regions _ _ _ Hw) Hal) as (_ & Hm). split.
    + intros Hhx. apply (heap_area p x a Hh E) in Hhx. unfold HEAP_LIMIT, USER_STACK_ADDRESS, PMM_PAGE_SIZE, MMAP_ADDRESS_START in *. lia.
    + intros _. exists pr. split; [|done]. by rewrite (prot_at_page _ _ a (pw_regions _ _ _ Hw)).
Qed.

(** A cleared page where there was none changes nothing for the process. *)
Lemma view_zero s' pr x : allowed p a = Some pr -> user_byte s root x = None -> user_byte s' root x = Some 0 -> x / 4096 = a / 4096 -> view p s' x = view p s x.
Proof.
  intros Hal E1 E2 E. unfold view. rewrite E1, E2. pose proof (heap_area p x a (pw_heap _ _ _ Hw) E) as Hha. pose proof (mmap_area x a E) as Hma.
  destruct (bool_decide_reflect (heap_base p <= x < HEAP_LIMIT)) as [|Hn]; [done|].
  destruct (bool_decide_reflect (MMAP_ADDRESS_START <= x < MMAP_ADDRESS_LIMIT)) as [|Hn']; [done|]. exfalso. unfold allowed in Hal.
  destruct (bool_decide_reflect (heap_base p <= a < program_break p)) as [Hin|Hout].
  - apply Hn, Hha. destruct (pw_heap _ _ _ Hw). lia.
  - apply Hn', Hma. by apply (prot_at_ok _ _ _ (pw_regions _ _ _ Hw) Hal).
Qed.

Lemma view_bytes s' x : user_byte s' root x = user_byte s root x -> view p s' x = view p s x.
Proof. intros E. unfold view. by rewrite E. Qed.

Lemma flags_rights f pr : is_page f -> rights (leaf_entry f (page_flags pr)) pr.
Proof.
  intros Hf. destruct (page_flags_spec pr) as (_ & HC & HW & HX). unfold rights.
  rewrite has_WRITABLE, has_COW, has_NX, !leaf_entry_bit by auto. rewrite has_WRITABLE in HW. rewrite has_COW in HC. rewrite has_NX in HX.
  rewrite HW, HC, HX. split; [by intros [?|?]|]. by intros H%negb_false_iff.
Qed.

(** A page on demand. *)
Lemma ft_demand s' pr f : 0 <= a < 2 ^ 47 -> user_entry s root (indices a) = None -> allowed p a = Some pr ->
  demanded s s' (a - a mod 4096) (page_flags pr) f ->
  proc_wf base p s' /\ user_step s s' root /\ (forall x, 0 <= x < 2 ^ 47 -> view p s' x = view p s x) /\
  user_entry s' root (indices a) = Some (leaf_entry f (page_flags pr)).
Proof.
  intros Ha He Hal [S P E B]. destruct (page_start a Ha) as (_ & _ & Hi & _). cbv zeta in Hi. split_and!.
  - apply ft_wf; [split; [apply S | apply (us_clean _ _ _ S), Hw]|]. intros x e Hx Hxe. rewrite E in Hxe by apply indices_path. rewrite Hi in Hxe. case_decide as Hd.
    + injection Hxe as <-. apply (allowed_on_page pr); [done | by apply indices_low | lia | by apply flags_rights].
    + by apply (pw_pages _ _ _ Hw).
  - done.
  - intros x Hx. specialize (B x). rewrite Hi in B. case_decide as Hd; [|by apply view_bytes].
    apply (view_zero s' pr); [done | by unfold user_byte; rewrite Hd, He | done | by apply indices_low].
  - rewrite (E _ (indices_path a)), Hi. by rewrite decide_True.
Qed.

(** A copy-on-write page of its own. *)
Lemma ft_resolve s' old new : space_wf s' root -> resolved s s' (Space root) a old new ->
  proc_wf base p s' /\ user_step s s' root /\ (forall x, view p s' x = view p s x) /\
  user_entry s' root (indices a) = Some new /\ has new VMM_WRITABLE = true.
Proof.
  intros W R. destruct (pw_space _ _ _ Hw) as (Hwf & Hcl). destruct (rv_new s s' root a old new Hwf W R) as (_ & HW & HC & HU & HX).
  pose proof (rv_entry s s' root a old new Hwf W R) as E. destruct (rv_old s s' root a old new Hwf R) as (Ho & (_ & _ & HCo & _) & _).
  split_and!; [| by apply (rv_step s s' root a old new) | | rewrite (E _ (indices_path a)); by rewrite decide_True | done].
  - apply ft_wf.
    + split; [by apply (rv_wf s s' root a old new)|]. apply (clean_update s s' root (indices a) (Some (0, new))); [apply R | by intros l e [= _ <-] | done].
    + intros x e Hx Hxe. rewrite E in Hxe by apply indices_path. case_decide as Hd; [|by apply (pw_pages _ _ _ Hw)]. injection Hxe as <-.
      rewrite <- Hd in Ho. destruct (pw_pages _ _ _ Hw x old Hx Ho) as (A1 & A2).
      assert (Hrt : forall pr, rights old pr -> rights new pr) by (intros pr (R1 & R2); split; [intros _; apply R1; by right | by rewrite HX]).
      split; [intros H; destruct (A1 H); auto|]. intros H. destruct (A2 H) as (pr & ? & ?). exists pr. auto.
  - intros x. apply view_bytes. by apply (rv_byte s s' root a old new).
Qed.

End Fault.


Lemma cow_fault_handled base p s a : proc_wf base p s -> is_u64 a ->
  (exists n, cow_fault s (Space root) a n) <->
  0 <= a < 2 ^ 47 /\ exists e, user_entry s root (indices a) = Some e /\ has e VMM_COPY_ON_WRITE = true.
Proof.
  intros Hw Hu. destruct (pw_space _ _ _ Hw) as (Hwf & _). split.
  - intros (n & Hc & e & Hl & (_ & HU & HC & _) & _). cbn [pml4_physical] in Hl.
    destruct (uw_safe _ _ Hwf _ _ _ (indices_path a) Hl HU) as (_ & Hh & _). apply user_half_address in Hh; [|done..]. unfold is_u64 in Hu.
    split; [lia|]. exists e. unfold user_entry. by rewrite Hl, HU.
  - intros (Ha & e & He & HC). destruct (uw_used _ _ Hwf _ e (indices_path a) He) as (n & Hn). exists n. split; [by apply low_address|]. exists e.
    pose proof (user_entry_u64 _ _ _ _ Hwf (indices_path a) He) as (_ & HP & _). pose proof (uw_cow _ _ Hwf _ e (indices_path a) He HC) as HW.
    apply user_entry_leaf in He as (He & HU); [|done | apply indices_path]. by split_and!.
Qed.

Lemma page_fault_cow base p s a : proc_wf base p s -> is_u64 a -> let cow := 0 <= a < 2 ^ 47 /\ exists e, user_entry s root (indices a) = Some e /\ has e VMM_COPY_ON_WRITE = true in
  let '(r, s') := vmm_space_resolve_cow (Some (Space root)) a s in
  proc_wf base p s' /\ user_step s s' root /\ (forall x, 0 <= x < 2 ^ 47 -> view p s' x = view p s x) /\
  ((r = 0 /\ s' = s /\ ~ cow) \/
   (cow /\ ((r = -1 /\ s' = s /\ free_pages (pmm s) <= PMM_KERNEL_RESERVE_PAGES) \/
      (r = 1 /\ exists e, user_entry s' root (indices a) = Some e /\ has e VMM_WRITABLE = true)))).
Proof.
  intros Hw Hu cow. destruct (pw_space _ _ _ Hw) as (Hwf & _). pose proof (resolve_cow_cases (Space root) a s (uw_space _ _ Hwf)) as H. cbn [pml4_physical] in H.
  pose proof (cow_fault_handled base p s a Hw Hu) as Hc. fold cow in Hc. pose proof (user_step_refl s root Hwf) as Hrefl.
  destruct (vmm_space_resolve_cow _ a s) as [r s']. destruct H as (W & [(-> & -> & Hno)|[(-> & -> & Hfree & n & Hn & _)|(-> & Hn & old & new & R)]]).
  - split_and!; try done. left. split_and!; try done. intros (n & Hn)%Hc. by apply (Hno n).
  - split_and!; try done. right. split; [apply Hc; by exists n|]. by left.
  - destruct (ft_resolve base a p s Hw s' old new W R) as (F1 & F2 & F3 & F4 & F5). split_and!; try done. right. split; [by apply Hc|]. right. split; [done|]. by exists new.
Qed.

Lemma permits_test pr code : permits pr code <->
  negb (has pr CONEOS_PROT_READ) || (has code FAULT_WRITE && negb (has pr CONEOS_PROT_WRITE)) || (has code FAULT_FETCH && negb (has pr CONEOS_PROT_EXEC)) = false.
Proof.
  unfold permits. rewrite !orb_false_iff, !andb_false_iff, !negb_false_iff.
  destruct (has pr CONEOS_PROT_READ), (has code FAULT_WRITE), (has pr CONEOS_PROT_WRITE), (has code FAULT_FETCH), (has pr CONEOS_PROT_EXEC); cbn; intuition congruence.
Qed.

Lemma page_fault_spec base p s a code : proc_wf base p s -> is_u64 a ->
  let '(r, s') := page_fault p (Space root) a code s in
  proc_wf base p s' /\ user_step s s' root /\ (forall x, 0 <= x < 2 ^ 47 -> view p s' x = view p s x) /\ fault_effect p s a code r s'.
Proof.
  intros Hw Hu. destruct (pw_space _ _ _ Hw) as (Hwf & Hcl). pose proof (user_step_refl s root Hwf) as Hrefl. unfold page_fault, fault_effect, handled.
  destruct (has code FAULT_PRESENT) eqn:HP.
  { destruct (has code FAULT_WRITE) eqn:HWr; cbn [negb]; [|split_and!; try done; left; split_and!; try done; by intros (_ & ? & _)].
    pose proof (page_fault_cow base p s a Hw Hu) as H. cbv zeta in H. destruct (vmm_space_resolve_cow _ a s) as [r s'].
    destruct H as (F1 & F2 & F3 & F4). split_and!; try done. destruct F4 as [(-> & -> & Hno)|((Hlow & Hc) & F4)]; [left | right]; split_and!; try done.
    - intros (? & _ & ?). by apply Hno.
    - lia.
    - lia.
    - destruct F4 as [?|(-> & e & He & HWe)]; [by left|]. right. split; [done|]. by exists e. }
  destruct (prot_of_address p a (pw_regions _ _ _ Hw)) as (-> & Hpo). destruct (allowed p a) as [pr|] eqn:Hal.
  2: { cbn. split_and!; try done. left. split_and!; try done. by intros (_ & _ & pr & ? & _). }
  destruct (_ || _) eqn:Hbad.
  { split_and!; try done. left. split_and!; try done. intros (_ & _ & pr' & [= <-] & Hpm%permits_test). congruence. }
  apply permits_test in Hbad as Hpm. specialize (Hpo pr eq_refl).
  assert (Ha : 0 <= a < 2 ^ 47).
  { unfold allowed in Hal. destruct (bool_decide_reflect (heap_base p <= a < program_break p)) as [Hin|_].
    - destruct (pw_heap _ _ _ Hw). unfold HEAP_LIMIT, USER_STACK_ADDRESS, PMM_PAGE_SIZE in *. lia.
    - apply prot_at_ok in Hal as (_ & Hm); [|apply Hw]. unfold MMAP_ADDRESS_START, MMAP_ADDRESS_LIMIT in Hm. lia. }
  destruct (page_start a Ha) as (Hpa & Hal4 & Hi & _). cbv zeta in Hi.
  assert (Epa : a &! not64 (PMM_PAGE_SIZE - 1) = a - a mod 4096) by (change (PMM_PAGE_SIZE - 1) with (2 ^ 12 - 1); by rewrite land_mask_down).
  rewrite Epa, translate_clean by done. rewrite Hi. destruct (user_entry s root (indices a)) as [e0|] eqn:He.
  { rewrite <- Hi in He. rewrite (translate_valid s root (a - a mod 4096) e0 Hwf He). cbn [negb]. split_and!; try done. left. split_and!; try done. by intros (_ & ? & _). }
  rewrite Z.eqb_refl. cbn [negb]. pose proof (demand_spec (a - a mod 4096) pr s (conj Hwf Hcl) Hpa Hal4) as H. cbv zeta in H. rewrite Hi in H. specialize (H He Hpo).
  destruct (demand_page _ _ _ s) as [r s']. destruct H as [(-> & -> & Hfree)|(-> & _ & f & D)].
  - split_and!; try done. right. split; [split_and!; try done; try lia; by exists pr|]. by left.
  - destruct (ft_demand base a p s Hw s' pr f Ha He Hal D) as (F1 & F2 & F3 & F4). split_and!; try done. right.
    split; [split_and!; try done; try lia; by exists pr|]. right. split; [done|]. eexists. split; [exact F4|]. destruct Hpm as (_ & Hp1 & Hp2).
    destruct (page_flags_spec pr) as (_ & _ & HW & HX). rewrite has_WRITABLE in HW. rewrite has_NX in HX.
    rewrite (has_WRITABLE (leaf_entry f _)), has_NX, !leaf_entry_bit, HW, HX by (auto || apply D). split; [done|]. intros _ Hf. by rewrite Hp2.
Qed.


End Root.

End ProcessCorrect.
