(* ===== verification/ProcessCalls.v ===== *)
(** * ProcessCalls: the memory calls of a process and its neighbours

    brk, mmap, munmap and the page-fault handler as calls on the process table,
    what each does to the address space of the caller, and why sequences of
    them leave the memory of other processes alone. *)

From S2P Require Import Prelude Memory Pmm PageTable Vmm VmmSafety VmmFork UserMem Usercopy CString ProcessMem ProcessSpace ProcessCorrect.
Import Memory.Memory Pmm.Pmm PageTable.PageTable Vmm.Vmm VmmSafety.VmmSafety VmmFork.VmmFork UserMem.UserMem CString.CString.
Import ProcessMem.ProcessMem ProcessSpace.ProcessSpace ProcessCorrect.ProcessCorrect.
Local Open Scope Z_scope.

Module ProcessCalls.

Inductive memory_op :=
  | Brk (requested : Z)
  | Mmap (hint length protection flags : Z)
  | Munmap (address length : Z)
  | Fault (address error_code : Z).

Definition memory_call (current_id : Z) (op : memory_op) (processes : list process_record) (s : vmm_state) :
    Z * list process_record * vmm_state :=
  match op with
  | Brk requested => process_brk current_id requested processes s
  | Mmap hint length protection flags =>
      let '(r, processes) := process_mmap current_id hint length protection flags processes s in (r, processes, s)
  | Munmap address length => process_munmap current_id address length processes s
  | Fault address error_code =>
      let '(r, s) := process_handle_page_fault current_id address error_code processes s in (r, processes, s)
  end.

(** Arguments are machine words. *)
Definition call_ok (op : memory_op) : Prop :=
  match op with
  | Brk requested => is_u64 requested
  | Mmap _ length _ _ => is_u64 length
  | Munmap address length => is_u64 address /\ is_u64 length
  | Fault address _ => is_u64 address
  end.

Definition call_effect (root : Z) (op : memory_op) (p : process_record) (s : vmm_state) (r : Z) (p' : process_record) (s' : vmm_state) : Prop :=
  match op with
  | Brk requested => brk_effect root p s requested r p' s'
  | Mmap hint length protection flags => s' = s /\ mmap_effect root p s hint length protection flags r p'
  | Munmap address length => munmap_effect root p s address length r p' s'
  | Fault address code =>
      p' = p /\ (forall x, 0 <= x < 2 ^ 47 -> view root p s' x = view root p s x) /\
      if has code FAULT_USER && negb (has code FAULT_RESERVED) then fault_effect root p s address code r s' else r = 0 /\ s' = s
  end.

(** A break that grows over pages shared after a fork is the exception. *)
Definition unshared (root : Z) (op : memory_op) (p : process_record) (s : vmm_state) : Prop :=
  match op with Brk requested => owned_pages root s (program_break p) requested | _ => True end.

(** ** The process table *)

Lemma running_Some processes id i p sp : running processes id = Some (i, p, sp) ->
  0 <= i < MAX_PROCESSES /\ p = process_at processes i /\ p_space p = Some sp /\ p_state p = PROCESS_RUNNING.
Proof.
  unfold running. destruct (find_process processes id) as [j|] eqn:Hf; [|done]. apply find_up_Some in Hf as (Hj & _).
  destruct (p_space (process_at processes j)) as [sp'|] eqn:Hs; [|done]. case_bool_decide; [|done]. intros [= <- <- <-].
  unfold MAX_PROCESSES, trips in *. split_and!; (done || lia).
Qed.

Lemma find_process_aset processes id i p' : 0 <= i < alen processes -> pid p' = pid (process_at processes i) -> p_state p' = p_state (process_at processes i) ->
  find_process (aset processes i p') id = find_process processes id.
Proof.
  intros Hi Hp Hs. apply find_up_ext. intros k Hk. unfold process_at in *. rewrite aget_aset by lia. case_decide as E; [|done]. subst k. by rewrite Hp, Hs.
Qed.

Lemma running_aset processes id i p sp p' : alen processes = MAX_PROCESSES -> running processes id = Some (i, p, sp) ->
  p_space p' = p_space p -> pid p' = pid p -> p_state p' = p_state p -> running (aset processes i p') id = Some (i, p', sp).
Proof.
  intros Hl Hr Hs Hp Hst. destruct (running_Some _ _ _ _ _ Hr) as (Hi & -> & Hsp & Hru). rewrite <- Hl in Hi. unfold running in *.
  rewrite find_process_aset by done. destruct (find_process processes id) as [j|]; [|done].
  assert (j = i) as -> by (destruct (p_space (process_at processes j)); [case_bool_decide|]; congruence).
  unfold process_at in *. rewrite aget_aset_eq by done. by rewrite Hs, Hsp, bool_decide_true by congruence.
Qed.

Section Call.
Context (current_id i root base : Z) (processes : list process_record) (p : process_record) (s : vmm_state).
Context (Hl : alen processes = MAX_PROCESSES) (Hr : running processes current_id = Some (i, p, Space root)).
Context (Hw : proc_wf root base p s).

(** The caller's record after the call, and the others' as before. *)
Record called (op : memory_op) (r : Z) (processes' : list process_record) (s' : vmm_state) (p' : process_record) : Prop := {
  ca_running : running processes' current_id = Some (i, p', Space root);
  ca_len : alen processes' = MAX_PROCESSES;
  ca_others : forall j, 0 <= j -> j <> i -> process_at processes' j = process_at processes j;
  ca_wf : proc_wf root base p' s';
  ca_effect : call_effect root op p s r p' s';
  ca_step : unshared root op p s -> user_step s s' root;
}.

Lemma call_updated op r p' s' : p_space p' = p_space p -> pid p' = pid p -> p_state p' = p_state p -> proc_wf root base p' s' ->
  call_effect root op p s r p' s' -> (unshared root op p s -> user_step s s' root) -> called op r (aset processes i p') s' p'.
Proof.
  intros H1 H2 H3 H4 H5 H6. destruct (running_Some _ _ _ _ _ Hr) as (Hi & _). split; try done.
  - by apply (running_aset _ _ _ p).
  - by rewrite alen_aset.
  - intros j Hj Hne. unfold process_at. apply aget_aset_ne; lia.
Qed.

Lemma memory_call_spec op : call_ok op -> let '(r, processes', s') := memory_call current_id op processes s in exists p', called op r processes' s' p'.
Proof.
  intros Hop. pose proof (user_step_refl s root (proj1 (pw_space _ _ _ _ Hw))) as Hrefl. pose proof (call_updated op) as Hup.
  destruct op as [q|h l pr fl|a l|a c]; cbn [call_ok] in Hop; cbn [memory_call].
  - unfold process_brk. rewrite Hr. pose proof (brk_spec root base p s q Hw Hop) as H.
    destruct (brk p (Space root) q s) as [[r p'] s']. exists p'. by apply Hup; apply H.
  - unfold process_mmap. rewrite Hr. pose proof (mmap_spec root base p s h l pr fl Hw Hop) as H.
    destruct (mmap p (Space root) h l pr fl s) as [r p']. exists p'. destruct H as (? & ? & ? & ? & ?). by apply Hup.
  - unfold process_munmap. rewrite Hr. pose proof (munmap_spec root base p s a l Hw (proj1 Hop) (proj2 Hop)) as H.
    destruct (munmap p (Space root) a l s) as [[r p'] s']. exists p'. destruct H as (? & ? & ? & ? & ? & ?). by apply Hup.
  - unfold process_handle_page_fault. rewrite Hr. pose proof (page_fault_spec root base p s a c Hw Hop) as H.
    destruct (has c FAULT_USER) eqn:HU, (has c FAULT_RESERVED) eqn:HR; cbn [negb orb].
    all: try (exists p; split; try done; cbn [call_effect]; by rewrite HU, HR).
    destruct (page_fault p (Space root) a c s) as [r s']. exists p. destruct H as (H1 & H2 & H3 & H4). split; try done. cbn [call_effect]. by rewrite HU, HR.
Qed.

End Call.

(** ** Neighbours *)

(** A byte of a table of the lower half; the tables of the upper half are those
    of the kernel, which all spaces share. *)
Definition lower_byte (m : mem) (q x : Z) : Prop := exists t, lower_table m q t /\ t <= x < t + 4096.

(** The bytes another space is made of: its own tables and its pages. *)
Definition space_byte (s : vmm_state) (q x : Z) : Prop :=
  lower_byte (memory s) q x \/
  exists idx e, page_path idx /\ user_half idx /\ user_entry s q idx = Some e /\ in_page (table_physical e) x.

(** No byte of [q] is one that [root] may write. *)
Definition neighbour (s : vmm_state) (root q : Z) : Prop := forall x, space_byte s q x -> foreign s root x.

(** The lower half of a space is in its lower tables. *)
Lemma lower_frame m m' q : (forall x, lower_byte m q x -> rd m' x = rd m x) ->
  (forall r, path_ok r -> user_half r -> table_at m' q r = table_at m q r) /\
  (forall idx, page_path idx -> user_half idx -> leaf m' q idx = leaf m q idx).
Proof.
  intros H. assert (He : forall r t i, path_ok r -> user_half r -> table_at m q r = Some t -> index_ok i -> entry_at m' t i = entry_at m t i).
  { intros r t i Hr Hh Ht Hi. apply entry_same_page; [|done]. intros x Hx. apply H. exists t. split; [by exists r | done]. }
  assert (Hhalf : forall (r : list Z) i rest, user_half (r ++ i :: rest) -> user_half r /\ user_half (r ++ [i])).
  { intros [|j r] i rest Hh; [|done]. by split. }
  split.
  - assert (G : forall rest r t, path_ok (r ++ rest) -> user_half (r ++ rest) -> table_at m q r = Some t -> table_at m' t rest = table_at m t rest).
    { induction rest as [|i rest IH]; intros r t Hp Hh Ht; [done|]. destruct (Hhalf _ _ _ Hh) as (H1 & H2).
      assert (Hi : index_ok i) by (destruct Hp as (_ & HF); by apply Forall_app in HF as (_ & HF%Forall_cons); destruct HF).
      cbn [table_at]. rewrite (He r t i) by (done || by apply (path_ok_prefix _ (i :: rest))). destruct (next (entry_at m t i)) as [u|] eqn:E; [|done].
      apply (IH (r ++ [i])); [by rewrite <- app_assoc | by rewrite <- app_assoc |]. rewrite table_at_app, Ht. simpl. by rewrite E. }
    intros r Hr Hh. by apply (G r []).
  - assert (G : forall rest r t, rest <> [] -> page_path (r ++ rest) -> user_half (r ++ rest) -> table_at m q r = Some t -> leaf m' t rest = leaf m t rest).
    { induction rest as [|i rest IH]; intros r t Hne Hp Hh Ht; [done|]. destruct (Hhalf _ _ _ Hh) as (H1 & H2). destruct Hp as (Hl & HF).
      pose proof HF as HF'. apply Forall_app in HF' as (HFr & HFi%Forall_cons). rewrite length_app in Hl. simpl in Hl.
      cbn [leaf]. rewrite (He r t i); [| by split; [lia | done] | done | done | apply HFi]. destruct (has (entry_at m t i) VMM_PRESENT) eqn:HP; [|done]. cbn [negb].
      destruct (bool_decide_reflect (rest = [])) as [|Hr]; [done|]. cbn [orb]. destruct (has (entry_at m t i) PAGE_SIZE_FLAG) eqn:HS; [done|].
      apply (IH (r ++ [i])); [done | by rewrite <- app_assoc; split; [rewrite length_app; simpl; lia|] | by rewrite <- app_assoc |].
      rewrite table_at_app, Ht. simpl. unfold next. by rewrite HP, HS. }
    intros idx Hidx Hh. apply (G idx []); try done. intros ->. by destruct Hidx.
Qed.

Lemma neighbour_step s s' root q : user_step s s' root -> neighbour s root q ->
  neighbour s' root q /\ (forall idx, page_path idx -> user_half idx -> user_entry s' q idx = user_entry s q idx) /\
  forall a, 0 <= a < 2 ^ 47 -> user_byte s' q a = user_byte s q a.
Proof.
  intros [_ _ _ F _] Hn. destruct (lower_frame (memory s) (memory s') q) as (Ht & Hl).
  { intros x Hx. apply F, Hn. by left. }
  assert (He : forall idx, page_path idx -> user_half idx -> user_entry s' q idx = user_entry s q idx) by (intros idx Hidx Hh; unfold user_entry; by rewrite Hl).
  assert (Hb : forall x, space_byte s' q x -> space_byte s q x).
  { intros x [(t & (r & Hr & Hh & Hx) & Hin)|(idx & e & Hidx & Hh & Hx & Hin)].
    - left. exists t. split; [|done]. exists r. by rewrite <- Ht.
    - right. exists idx, e. by rewrite <- He. }
  split_and!; [|done|].
  - intros x Hx. by apply F, Hn, Hb.
  - intros a Ha. pose proof (low_half a Ha) as Hh. unfold user_byte. rewrite He by (done || apply indices_path).
    destruct (user_entry s q (indices a)) as [e|] eqn:E; [|done]. f_equal.
    apply F, Hn. right. exists (indices a), e. split; [apply indices_path | split; [done | split; [done | apply in_page_offset]]].
Qed.

(** ** Sequences of calls *)

(** The caller of a state and its space. *)
Definition caller (current_id i root base : Z) (processes : list process_record) (s : vmm_state) (p : process_record) : Prop :=
  alen processes = MAX_PROCESSES /\ running processes current_id = Some (i, p, Space root) /\ proc_wf root base p s.

(** Calls one process makes, none of which grows the break over shared pages. *)
Inductive calls (current_id root : Z) : list process_record * vmm_state -> list process_record * vmm_state -> Prop :=
  | calls_none st : calls current_id root st st
  | calls_one processes s op i p r processes' s' st :
      running processes current_id = Some (i, p, Space root) -> call_ok op -> unshared root op p s ->
      memory_call current_id op processes s = (r, processes', s') -> calls current_id root (processes', s') st ->
      calls current_id root (processes, s) st.

Record trace_result (current_id i root base q : Z) (processes processes' : list process_record) (s s' : vmm_state) : Prop := {
  tr_caller : exists p', caller current_id i root base processes' s' p';
  tr_others : forall j, 0 <= j -> j <> i -> process_at processes' j = process_at processes j;
  tr_neighbour : neighbour s' root q;
  tr_bytes : forall a, 0 <= a < 2 ^ 47 -> user_byte s' q a = user_byte s q a;
}.

Lemma calls_spec current_id i root base q st st' p : calls current_id root st st' ->
  caller current_id i root base (fst st) (snd st) p -> neighbour (snd st) root q ->
  trace_result current_id i root base q (fst st) (fst st') (snd st) (snd st').
Proof.
  intros Hc. revert p. induction Hc as [st|processes s op i' p' r processes' s' st Hr Hop Hun Hcall Hc IH]; cbn [fst snd] in *; intros p Hca Hn.
  { split; try done. by exists p. }
  destruct Hca as (Hl & Hr' & Hw). rewrite Hr in Hr'. injection Hr' as -> ->. pose proof (memory_call_spec current_id i root base processes p s Hl Hr Hw op Hop) as H.
  rewrite Hcall in H. destruct H as (p1 & [C1 C2 C3 C4 C5 C6]). destruct (neighbour_step s s' root q (C6 Hun) Hn) as (N & _ & B).
  destruct (IH p1 ltac:(done) N) as [T1 T2 T3 T4]. split; try done.
  - intros j Hj Hne. by rewrite T2, C3.
  - intros a Ha. by rewrite T4, B.
Qed.


(** Moving the break within its page. *)
Lemma brk_within_page p root q s : heap_base p <= q <= HEAP_LIMIT -> 0 < heap_base p -> align_up_page q = align_up_page (program_break p) ->
  exists c, brk p (Space root) q s = (q, with_break p q c,
    if program_break p <? q then clear_range (Usercopy.Usercopy.page_fuel (q - program_break p)) (program_break p) q (Space root) s else s).
Proof.
  intros Hq H0 E. unfold brk. rewrite (proj2 (Z.eqb_neq q 0)) by lia. change (USER_STACK_ADDRESS -! PMM_PAGE_SIZE) with HEAP_LIMIT.
  rewrite (proj2 (Z.ltb_ge q (heap_base p))), (proj2 (Z.ltb_ge HEAP_LIMIT q)) by lia. cbn [orb]. unfold heap_pages. rewrite E, Z.ltb_irrefl. cbn [andb].
  unfold release_pages, page_trips. rewrite Z.ltb_irrefl. by eexists.
Qed.

(** ** The theorems *)

(** C12 A memory call of a running process does what the call promises and
    keeps the process's address space well formed: its regions are apart, every
    page lies below the break or in a region with the rights given there, and
    the committed pages are those of the heap and the regions, within the limit.
    brk moves the break, new heap bytes read as zeros, and the error is ENOMEM
    exactly over the limit; mmap adds a zeroed region where nothing was, and
    finds no room only if there is none; munmap takes out exactly the given
    range; a page fault changes nothing the process can see and is answered
    with a usable page whenever the access is permitted and memory is left.
    Other table entries stay, and but for a break that grows over pages shared
    after a fork, only memory of the process is written. *)
Theorem memory_call_correct current_id i root base op processes p s :
  alen processes = MAX_PROCESSES -> running processes current_id = Some (i, p, Space root) -> proc_wf root base p s -> call_ok op ->
  let '(r, processes', s') := memory_call current_id op processes s in
  exists p', running processes' current_id = Some (i, p', Space root) /\
    (forall j, 0 <= j -> j <> i -> process_at processes' j = process_at processes j) /\
    proc_wf root base p' s' /\ call_effect root op p s r p' s' /\ (unshared root op p s -> user_step s s' root).
Proof.
  intros Hl Hr Hw Hop. pose proof (memory_call_spec current_id i root base processes p s Hl Hr Hw op Hop) as H.
  destruct (memory_call current_id op processes s) as [[r processes'] s']. destruct H as (p' & [C1 C2 C3 C4 C5 C6]). by exists p'.
Qed.


(** C17 The exception is real: moving the break down within its page and back
    up overwrites the bytes in between with zeros in the frame itself.  The page
    table entry is not looked at and the frame is not copied, so when the entry
    is a copy-on-write one the other processes that share the frame lose
    these bytes of their heaps. *)
Theorem brk_clears_frame root base p s lo a e :
  proc_wf root base p s -> heap_base p <= lo <= a -> a < program_break p -> align_up_page lo = align_up_page (program_break p) ->
  user_entry s root (indices a) = Some e ->
  let '(_, p1, s1) := brk p (Space root) lo s in
  let '(_, p2, s2) := brk p1 (Space root) (program_break p) s1 in
  program_break p2 = program_break p /\ pmm s2 = pmm s /\ user_entry s2 root (indices a) = Some e /\
  rd (memory s2) (table_physical e + a mod 4096) = 0.
Proof.
  intros Hw Hlo Ha E He. destruct (pw_heap _ _ _ _ Hw) as [_ H2 H3].
  destruct (brk_within_page p root lo s) as (c & ->); [lia | lia | done |]. rewrite (proj2 (Z.ltb_ge (program_break p) lo)) by lia.
  destruct (brk_within_page (with_break p lo c) root (program_break p) s) as (c' & ->); cbn [heap_base program_break with_break]; [lia | lia | done |].
  rewrite (proj2 (Z.ltb_lt lo (program_break p))) by lia. unfold HEAP_LIMIT, USER_STACK_ADDRESS, PMM_PAGE_SIZE in H3.
  destruct (clear_range_spec root (Usercopy.Usercopy.page_fuel (program_break p - lo)) lo (program_break p) s (pw_space _ _ _ _ Hw)) as [_ Cp Ce Cb _];
    [lia | lia | apply Usercopy.Usercopy.left_fuel; lia |].
  split_and!; [done | done | by rewrite Ce by apply indices_path |]. specialize (Cb a ltac:(lia)). rewrite bool_decide_true in Cb by lia.
  unfold user_byte in Cb. rewrite Ce, He in Cb by apply indices_path. by injection Cb.
Qed.


(** A process with half a page of heap, and an empty space beside it. *)
Definition sample_process : process_record :=
  mk_process 1 0 PROCESS_RUNNING 0 (Some (Space 0x12000)) 0x400000 0x400800 1 [] (replicate 32 no_region).
Definition sample_table : list process_record := sample_process :: replicate 15 no_process.

#[local] Opaque fork_mapped fork_pmm.

Lemma sample_running : running sample_table 1 = Some (0, sample_process, Space 0x12000).
Proof. by vm_compute. Qed.

Lemma sample_no_region i : region_at (mappings sample_process) i = no_region.
Proof.
  unfold region_at, aget, sample_process. cbn [mappings]. destruct (replicate 32 no_region !! Z.to_nat i) as [r|] eqn:E; [|done].
  apply lookup_replicate in E as (-> & _). done.
Qed.

Lemma sample_regions : regions_ok (mappings sample_process) /\ region_pages (mappings sample_process) = 0.
Proof. split; [|by vm_compute]. split; [done | intros i _ Hu | intros i j _ _ _ Hu _]; rewrite sample_no_region in Hu; discriminate Hu. Qed.

Lemma sample_proc_wf : proc_wf 0x12000 0 sample_process fork_mapped.
Proof.
  destruct sample_regions as (Hr & Hp). split.
  - split; [exact sample_user_wf|]. intros idx l e Hidx _ Hl. rewrite sample_leaves in Hl by exact Hidx. case_decide; [|discriminate].
    injection Hl as <- <-. by vm_compute.
  - split; cbn [heap_base program_break sample_process]; [reflexivity | lia | unfold HEAP_LIMIT, USER_STACK_ADDRESS, PMM_PAGE_SIZE; lia].
  - exact Hr.
  - rewrite Hp. split_and!; by vm_compute.
  - intros a e Ha He. apply sample_user_entry in He as (Hi & ->); [|apply indices_path].
    apply indices_low in Hi; [|lia | lia]. destruct (area_page _ _ Hi) as (_ & Hlt). specialize (Hlt 0x401000 eq_refl). split.
    + intros _. split; [change (align_up_page (program_break sample_process)) with 0x401000; lia | split; by vm_compute].
    + intros Hm. apply (mmap_area _ _ Hi) in Hm. unfold MMAP_ADDRESS_START in Hm. lia.
Qed.

Lemma sample_neighbour : neighbour fork_mapped 0x12000 0x14000.
Proof.
  destruct fork_child as (Hw & Ht). destruct fork_map as (Hpw & M). destruct (fork_busy 0x14000 ltac:(by right)) as (Hp & Hb).
  assert (Hbusy : page_busy (pmm fork_mapped) 0x14000) by (apply (sw_busy _ _ Hw [] 0x14000); [split; [cbn [length]; lia | constructor] | reflexivity]).
  intros x [(t & (r & Hr & _ & Htr) & Hx)|(idx & e & Hidx & _ & He & _)].
  - rewrite (Ht r t Hr Htr) in Hx. split_and!.
    + by apply (page_busy_byte _ 0x14000).
    + intros (r' & t' & Hr' & Ht' & Hx'). pose proof (tw_page _ _ (sw_tree _ _ Hpw) r' t' Hr' Ht') as Hp'.
      assert (t' = 0x14000) as -> by (by apply (in_page_eq t' 0x14000 x)).
      destruct (mp_new _ _ _ _ _ _ M r' 0x14000 Hr' Ht') as [Hold|Hfree]; [by apply table_at_empty in Hold as (_ & ?) | by apply Hfree].
    + intros idx e Hidx He Hin. apply sample_user_entry in He as (_ & ->); [|exact Hidx].
      assert (Hp3 : is_page 0x13000) by (split; [reflexivity | lia]). destruct (leaf_entry_spec 0x13000 fork_flags Hp3) as (_ & _ & Hph).
      rewrite Hph in Hin. unfold in_page in Hin. lia.
  - exfalso. unfold user_entry in He. destruct (leaf (memory fork_mapped) 0x14000 idx) as [[l e']|] eqn:El; [|done].
    destruct fork_child_other as (_ & _ & Hl). rewrite Hl in El by exact Hidx. destruct idx as [|j idx]; [discriminate El|].
    cbn [leaf] in El. rewrite entry_empty in El. discriminate El.
Qed.

Lemma memory_call_correct_witness : running sample_table 1 = Some (0, sample_process, Space 0x12000) /\
  let '(r, processes', s') := memory_call 1 (Brk 0x402000) sample_table fork_mapped in exists p', proc_wf 0x12000 0 p' s'.
Proof.
  split; [exact sample_running|].
  pose proof (memory_call_correct 1 0 0x12000 0 (Brk 0x402000) sample_table sample_process fork_mapped eq_refl sample_running sample_proc_wf ltac:(unfold call_ok, is_u64; lia)) as H.
  destruct (memory_call 1 (Brk 0x402000) sample_table fork_mapped) as [[r processes'] s']. destruct H as (p' & _ & _ & W & _). exists p'. exact W.
Defined.


Lemma sample_entry : user_entry fork_mapped 0x12000 (indices 0x400400) = Some (leaf_entry 0x13000 fork_flags).
Proof.
  unfold user_entry. rewrite sample_leaves by apply indices_path. rewrite decide_True by reflexivity.
  assert (Hu : has (leaf_entry 0x13000 fork_flags) VMM_USER = true) by reflexivity. by rewrite Hu.
Qed.

Lemma brk_clears_frame_witness : user_entry fork_mapped 0x12000 (indices 0x400400) = Some (leaf_entry 0x13000 fork_flags) /\
  let '(_, p1, s1) := brk sample_process (Space 0x12000) 0x400100 fork_mapped in
  let '(_, p2, s2) := brk p1 (Space 0x12000) 0x400800 s1 in rd (memory s2) (table_physical (leaf_entry 0x13000 fork_flags) + 0x400400 mod 4096) = 0.
Proof.
  split; [exact sample_entry|].
  pose proof (brk_clears_frame 0x12000 0 sample_process fork_mapped 0x400100 0x400400 (leaf_entry 0x13000 fork_flags) sample_proc_wf
    ltac:(cbn [heap_base sample_process]; lia) ltac:(cbn [program_break sample_process]; lia) eq_refl sample_entry) as H.
  change (program_break sample_process) with 0x400800 in H. destruct (brk sample_process (Space 0x12000) 0x400100 fork_mapped) as [[r1 p1] s1].
  destruct (brk p1 (Space 0x12000) 0x400800 s1) as [[r2 p2] s2]. apply H.
Defined.


End ProcessCalls.
