(* ===== verification/ProcessImage.v ===== *)
(** * ProcessImage: the image of a new process

    [create_process_image] of src/kernel/process.c: a new space with the
    segments of the executable and a stack page that holds the arguments.  The
    executable is read from the ramfs. *)

From S2P Require Import Prelude Memory Pmm PageTable Vmm VmmSafety VmmProgress VmmFork UserMem Usercopy CString Kmalloc VmmSpace Elf Ramfs.
From S2P Require Import ProcessMem ProcessSpace ProcessCorrect.
Import Memory.Memory Pmm.Pmm PageTable.PageTable Vmm.Vmm VmmSafety.VmmSafety VmmProgress.VmmProgress VmmFork.VmmFork UserMem.UserMem CString.CString.
Import ProcessMem.ProcessMem ProcessSpace.ProcessSpace ProcessCorrect.ProcessCorrect.
Local Open Scope Z_scope.

Module ProcessImage.

Definition PROCESS_MAX_ARGUMENTS : Z := 16.
Definition STACK_FLAGS : Z := VMM_USER |! VMM_WRITABLE |! VMM_NO_EXECUTE.

Inductive process_image_result := PROCESS_IMAGE_OUT_OF_MEMORY | PROCESS_IMAGE_INVALID | PROCESS_IMAGE_READY.

Record process_image := mk_image {
  i_space : VmmSpace.VmmSpace.space_object; i_entry : Z; i_heap_base : Z; i_stack_pointer : Z; i_argc : Z; i_argv : Z; i_committed_pages : Z }.

(** [while (length < PMM_PAGE_SIZE && argument[length]) length++;] *)
Definition argument_length (argument : cstr) : Z := if alen argument <? PMM_PAGE_SIZE then alen argument else PMM_PAGE_SIZE.

Definition store_string (m : mem) (a : Z) (argument : cstr) (length : Z) : mem :=
  wr (for_up (trips 0 length) 0 (fun i m => wr m (a + i) (ch argument i)) m) (a + length) NUL.

(** The strings, the last one first from the top of the page; a NULL argument
    or one that does not fit fails. *)
Fixpoint push_arguments (index : nat) (arguments : list (option cstr)) (stack cursor : Z) (user_arguments : list Z) (m : mem) :
    option (Z * list Z) * mem :=
  match index with
  | O => (Some (cursor, user_arguments), m)
  | S index =>
      match aget None arguments (Z.of_nat index) with
      | None => (None, m)
      | Some argument =>
          let length := argument_length argument in
          if (length =? PMM_PAGE_SIZE) || (cursor <? length +! 1) then (None, m)
          else
            let cursor := cursor -! (length +! 1) in
            push_arguments index arguments stack cursor (USER_STACK_ADDRESS +! cursor :: user_arguments)
              (store_string m (stack + cursor) argument length)
      end
  end.

(** The strings and the array of pointers below them; the offset of the array. *)
Definition build_stack (arguments : list (option cstr)) (argc stack : Z) (m : mem) : option Z * mem :=
  match push_arguments (Z.to_nat argc) arguments stack PMM_PAGE_SIZE [] m with
  | (None, m) => (None, m)
  | (Some (cursor, user_arguments), m) =>
      let cursor := cursor &! not64 7 in
      let argv_bytes := (argc +! 1) *! 8 in
      if cursor <? argv_bytes then (None, m)
      else
        let cursor := cursor -! argv_bytes in
        let m := for_up (trips 0 argc) 0 (fun i m => write64 m (stack + cursor + 8 * i) (aget 0 user_arguments i)) m in
        (Some cursor, write64 m (stack + cursor + 8 * argc) 0)
  end.

(** The stack page: its frame. *)
Definition map_stack (root : Z) (s : vmm_state) : option Z * vmm_state :=
  let '(stack_physical, p) := pmm_alloc_user_page (pmm s) in
  let s := with_pmm s p in
  if stack_physical =? PMM_INVALID_ADDRESS then (None, s)
  else
    let '(ok, s) := vmm_space_map_page (Some (Space root)) USER_STACK_ADDRESS stack_physical STACK_FLAGS s in
    if negb ok then (None, with_pmm s (snd (pmm_free_page stack_physical (pmm s)))) else (Some stack_physical, s).

(** The work on the new space: the entry point, the start of the heap, the
    stack pointer and the number of pages. *)
Definition load_image (executable : option (list Z)) (arguments : list (option cstr)) (argc root : Z) (s : vmm_state) :
    (process_image_result * option (Z * Z * Z * Z)) * vmm_state :=
  match executable with
  | None => ((PROCESS_IMAGE_INVALID, None), s)
  | Some image =>
      match Elf.Elf.elf_load (Some image) (alen image) (Some (Space root)) (PROCESS_MEMORY_LIMIT_PAGES -! 1) true s with
      | ((Elf.Elf.ELF_LOAD_SUCCESS, Some (entry, image_end, elf_pages)), s) =>
          match map_stack root s with
          | (None, s) => ((PROCESS_IMAGE_OUT_OF_MEMORY, None), s)
          | (Some stack_physical, s) =>
              let '(cursor, m) := build_stack arguments argc stack_physical (memory s) in
              let s := with_memory s m in
              match cursor with
              | None => ((PROCESS_IMAGE_INVALID, None), s)
              | Some cursor =>
                  ((PROCESS_IMAGE_READY, Some (entry, align_up_page image_end, USER_STACK_ADDRESS +! cursor, elf_pages +! 1)), s)
              end
          end
      | ((Elf.Elf.ELF_LOAD_OUT_OF_MEMORY, _), s) => ((PROCESS_IMAGE_OUT_OF_MEMORY, None), s)
      | ((_, _), s) => ((PROCESS_IMAGE_INVALID, None), s)
      end
  end.

Definition create_process_image {A} `{Kmalloc.Kmalloc.Allocator A} (path : option cstr) (arguments : option (list (option cstr))) (argc : Z) (image : bool)
    (fs : Ramfs.Ramfs.ramfs A) (h : Kmalloc.Kmalloc.heap vmm_state) :
    (process_image_result * option process_image) * Kmalloc.Kmalloc.heap vmm_state :=
  match path with
  | None => ((PROCESS_IMAGE_INVALID, None), h)
  | Some path =>
      if negb image || (PROCESS_MAX_ARGUMENTS <? argc) || (negb (argc =? 0) && bool_decide (arguments = None))
      then ((PROCESS_IMAGE_INVALID, None), h)
      else
        let '(space, h) := VmmSpace.VmmSpace.vmm_space_create h in
        match space with
        | None => ((PROCESS_IMAGE_OUT_OF_MEMORY, None), h)
        | Some o =>
            let executable := Ramfs.Ramfs.ramfs_read path true true Ramfs.Ramfs.RAMFS_DATA_SIZE fs in
            let '((result, out), s) := load_image executable (default [] arguments) argc (VmmSpace.VmmSpace.sp_pml4 o) (Kmalloc.Kmalloc.pages h) in
            let h := Kmalloc.Kmalloc.with_pages h s in
            match result, out with
            | PROCESS_IMAGE_READY, Some (entry, heap_base, stack_pointer, pages) =>
                ((PROCESS_IMAGE_READY, Some (mk_image o entry heap_base stack_pointer argc stack_pointer pages)), h)
            | _, _ => ((result, None), VmmSpace.VmmSpace.vmm_space_destroy (Some o) h)
            end
        end
  end.

(** ** The argument stack *)

Definition string_at (m : mem) (a : Z) (w : cstr) : Prop := (forall i, 0 <= i < alen w -> rd m (a + i) = ch w i) /\ rd m (a + alen w) = 0.

(** Bytes of strings are characters. *)
Definition text (w : cstr) : Prop := Forall (fun c => 0 < c < 256) w.

Lemma store_string_spec m a w : mem_ok m -> text w -> let m' := store_string m a w (alen w) in
  mem_ok m' /\ string_at m' a w /\ forall x, ~ (a <= x <= a + alen w) -> rd m' x = rd m x.
Proof.
  intros Hm Hw. pose proof (alen_nonneg w) as Hl. unfold store_string.
  pose proof (for_up_ind (fun k m' => mem_ok m' /\ (forall i, 0 <= i < k -> rd m' (a + i) = ch w i) /\ forall x, ~ (a <= x < a + k) -> rd m' x = rd m x)
    (fun i m => wr m (a + i) (ch w i)) (trips 0 (alen w)) 0 m) as H.
  destruct H as (H1 & H2 & H3).
  - split_and!; [done | lia | done].
  - intros j m' Hj (A1 & A2 & A3). split_and!; [by apply wr_ok | |].
    + intros i Hi. rewrite rd_wr. case_decide as E.
      * replace i with j by lia. unfold ch. apply u8_small.
        assert (0 <= aget NUL w j < 256); [|done]. apply (Forall_aget (fun c => 0 <= c < 256)); [|done]. eapply Forall_impl; [exact Hw|]. simpl. lia.
      * apply A2. lia.
    + intros x Hx. rewrite rd_wr_ne by lia. apply A3. lia.
  - unfold trips in *. replace (0 + Z.of_nat (Z.to_nat (alen w - 0))) with (alen w) in * by lia. split_and!; [by apply wr_ok | split |].
    + intros i Hi. rewrite rd_wr_ne by lia. by apply H2.
    + by rewrite rd_wr_eq.
    + intros x Hx. rewrite rd_wr_ne by lia. apply H3. lia.
Qed.

Section Arguments.
Context (args : list cstr) (stack : Z) (m0 : mem).
Context (Hargs : Forall text args).

(** The bytes of the strings from the [n]th on. *)
Definition text_size (n : nat) : Z := Z.of_nat (sum_list_with (fun w => length w + 1)%nat (drop n args)).

(** The strings from the [n]th on are in place above the cursor. *)
Record pushed (n : nat) (cursor : Z) (ua : list Z) (m : mem) : Prop := {
  pu_ok : mem_ok m;
  pu_out : forall x, ~ in_page stack x -> rd m x = rd m0 x;
  pu_len : length ua = (length args - n)%nat;
  pu_cursor : cursor = 4096 - text_size n /\ 0 <= cursor;
  pu_at : forall j w, args !! (n + j)%nat = Some w -> exists o, ua !! j = Some (USER_STACK_ADDRESS + o) /\
    cursor <= o /\ o + alen w < 4096 /\ string_at m (stack + o) w;
}.

Lemma text_size_S n w : args !! n = Some w -> text_size n = alen w + 1 + text_size (S n).
Proof. intros Hw. unfold text_size. rewrite (drop_S _ _ _ Hw). cbn [sum_list_with]. unfold alen. lia. Qed.

Lemma push_spec n cursor ua m : (n <= length args)%nat -> pushed n cursor ua m ->
  let '(r, m') := push_arguments n (Some <$> args) stack cursor ua m in
  (forall x, ~ in_page stack x -> rd m' x = rd m0 x) /\ mem_ok m' /\
  match r with Some (cursor', ua') => pushed 0 cursor' ua' m' | None => 4096 < text_size 0 end.
Proof.
  revert cursor ua m. induction n as [|n IH]; intros cursor ua m Hn Hp; cbn [push_arguments].
  { split_and!; [apply Hp | apply Hp | done]. }
  destruct (lookup_lt_is_Some_2 args n) as (w & Hw); [lia|]. pose proof (text_size_S n w Hw) as Hsz.
  assert (E : aget None (Some <$> args) (Z.of_nat n) = Some w) by (unfold aget; by rewrite Nat2Z.id, list_lookup_fmap, Hw). rewrite E.
  assert (Htw : text w) by (by apply (Forall_lookup_1 _ _ _ _ Hargs Hw)). pose proof (alen_nonneg w) as Hw0.
  destruct Hp as [P1 P2 P3 (P4 & P4') P5]. assert (Hpos : 0 <= text_size (S n)) by (unfold text_size; lia).
  assert (Htot : text_size n <= text_size 0).
  { unfold text_size. rewrite <- (take_drop n args) at 2. rewrite drop_0, sum_list_with_app. lia. }
  unfold argument_length, PMM_PAGE_SIZE. destruct (Z.ltb_spec (alen w) 4096) as [Hlt|Hge].
  2: { cbn. split_and!; [done | done | lia]. }
  destruct (Z.eqb_spec (alen w) 4096); [lia|]. cbn [orb]. rewrite (u64_small (alen w + 1)) by (unfold is_u64; lia).
  destruct (Z.ltb_spec cursor (alen w + 1)) as [Hc|Hc]; [split_and!; [done | done | lia]|].
  rewrite (u64_small (cursor - (alen w + 1))) by (unfold is_u64; lia). set (c := cursor - (alen w + 1)) in *.
  rewrite u64_small by (unfold is_u64, USER_STACK_ADDRESS; lia).
  destruct (store_string_spec m (stack + c) w P1 Htw) as (S1 & S2 & S3). apply IH; [lia|]. split.
  - done.
  - intros x Hx. rewrite S3; [by apply P2|]. unfold in_page in Hx. unfold c. lia.
  - cbn [length]. rewrite P3. lia.
  - unfold c. lia.
  - intros [|j] v Hv.
    + rewrite Nat.add_0_r, Hw in Hv. injection Hv as <-. exists c. split_and!; [done | lia | unfold c; lia | done..].
    + replace (n + S j)%nat with (S n + j)%nat in Hv by lia. destruct (P5 j v Hv) as (o & Ho & Hco & Hov & (A1 & A2)).
      pose proof (alen_nonneg v). exists o. split_and!; [done | unfold c; lia | done |]. split; [intros i Hi; rewrite S3; [by apply A1 | unfold c; lia] | rewrite S3; [done | unfold c; lia]].
Qed.

End Arguments.


(** The pointers in an array at offset [c] of the page, each to its string, and
    a NULL behind them. *)
Record arguments_at (m : mem) (stack c : Z) (args : list cstr) : Prop := {
  ag_range : 0 <= c /\ c + 8 * (alen args + 1) <= 4096 /\ c mod 8 = 0;
  ag_string : forall j w, args !! j = Some w -> exists o, read64 m (stack + c + 8 * Z.of_nat j) = USER_STACK_ADDRESS + o /\
    c + 8 * (alen args + 1) <= o /\ o + alen w < 4096 /\ string_at m (stack + o) w;
  ag_null : read64 m (stack + c + 8 * alen args) = 0;
}.

(** Writing the pointers. *)
Lemma write_pointers m stack c ua : mem_ok m -> Forall is_u64 ua ->
  let m' := for_up (trips 0 (alen ua)) 0 (fun i m => write64 m (stack + c + 8 * i) (aget 0 ua i)) m in
  mem_ok m' /\ (forall j v, ua !! j = Some v -> read64 m' (stack + c + 8 * Z.of_nat j) = v) /\
  forall x, ~ (stack + c <= x < stack + c + 8 * alen ua) -> rd m' x = rd m x.
Proof.
  intros Hm Hu. pose proof (alen_nonneg ua).
  pose proof (for_up_ind (fun k m' => mem_ok m' /\ (forall j v, Z.of_nat j < k -> ua !! j = Some v -> read64 m' (stack + c + 8 * Z.of_nat j) = v) /\
    forall x, ~ (stack + c <= x < stack + c + 8 * k) -> rd m' x = rd m x)
    (fun i m => write64 m (stack + c + 8 * i) (aget 0 ua i)) (trips 0 (alen ua)) 0 m) as H'.
  destruct H' as (H1 & H2 & H3).
  - split_and!; [done | lia | done].
  - intros k m' Hk (A1 & A2 & A3). split_and!; [by apply write64_ok | |].
    + intros j v Hj Hv. destruct (decide (Z.of_nat j = k)) as [<-|Hne].
      * unfold aget. rewrite Nat2Z.id, Hv. simpl. apply read64_write64_eq. by apply (Forall_lookup_1 _ _ _ _ Hu Hv).
      * rewrite read64_write64_ne by lia. apply A2; [lia | done].
    + intros x Hx. rewrite rd_write64_out by lia. apply A3. lia.
  - unfold trips in *. replace (0 + Z.of_nat (Z.to_nat (alen ua - 0))) with (alen ua) in * by lia. split_and!; [done | | done].
    intros j v Hv. apply H2; [|done]. apply lookup_lt_Some in Hv. unfold alen. lia.
Qed.

Lemma align_down8 c : 0 <= c <= 4096 -> let a := c &! not64 7 in a mod 8 = 0 /\ c - 7 <= a <= c.
Proof.
  intros Hc a. assert (E : a = c - c mod 8) by (unfold a; change 7 with (2 ^ 3 - 1); rewrite land_mask_down; [done | lia | unfold is_u64; lia]). rewrite E.
  pose proof (Z.mod_pos_bound c 8). split; [|lia]. rewrite Zminus_mod_idemp_r. by rewrite Z.sub_diag.
Qed.

Lemma build_spec args stack m : Forall text args -> mem_ok m -> alen args <= PROCESS_MAX_ARGUMENTS ->
  let '(r, m') := build_stack (Some <$> args) (alen args) stack m in
  (forall x, ~ in_page stack x -> rd m' x = rd m x) /\ mem_ok m' /\
  match r with
  | Some c => arguments_at m' stack c args
  | None => 4096 < text_size args 0 + 8 * (alen args + 1) + 7
  end.
Proof.
  intros Ht Hm Ha. unfold build_stack, PROCESS_MAX_ARGUMENTS, PMM_PAGE_SIZE in *. pose proof (alen_nonneg args) as Ha0.
  pose proof (push_spec args stack m Ht (length args) 4096 [] m) as Hp. replace (Z.to_nat (alen args)) with (length args) by (unfold alen; lia).
  destruct (push_arguments _ _ stack 4096 [] m) as [r m1]. destruct Hp as (O1 & K1 & R1); [done | |].
  { split; [done | done | cbn; lia | | ]. - unfold text_size. rewrite drop_all. cbn. lia. - intros j w Hw. apply lookup_lt_Some in Hw. lia. }
  destruct r as [(cursor & ua)|]; [|split_and!; [done | done | lia]]. destruct R1 as [_ _ L1 (C1 & C1') A1]. rewrite Nat.sub_0_r in L1.
  assert (Hts : 0 <= text_size args 0) by (unfold text_size; lia). destruct (align_down8 cursor ltac:(lia)) as (D1 & D2). set (d := cursor &! not64 7) in *.
  rewrite (u64_small (alen args + 1)), (u64_small ((alen args + 1) * 8)) by (unfold is_u64; lia).
  destruct (Z.ltb_spec d ((alen args + 1) * 8)) as [Hlt|Hge]; [split_and!; [done | done | lia]|].
  rewrite u64_small by (unfold is_u64; lia). set (c := d - (alen args + 1) * 8) in *.
  assert (Eu : alen ua = alen args) by (unfold alen; by rewrite L1). rewrite <- Eu.
  destruct (write_pointers m1 stack c ua K1) as (W1 & W2 & W3).
  { apply Forall_lookup_2. intros j v Hv. destruct (lookup_lt_is_Some_2 args j) as (w & Hw); [rewrite <- L1; by eapply lookup_lt_Some|].
    destruct (A1 j w Hw) as (o & Ho & Hc1 & Hc2 & _). rewrite Hv in Ho. injection Ho as ->. pose proof (alen_nonneg w).
    unfold is_u64, USER_STACK_ADDRESS. lia. }
  set (m2 := for_up _ _ _ _) in *. rewrite Eu in *. split_and!.
  - intros x Hx. unfold in_page in Hx. rewrite rd_write64_out, W3, O1 by (unfold c; (done || lia)). done.
  - by apply write64_ok.
  - assert (Hup : forall x, stack + c + 8 * (alen args + 1) <= x -> rd (write64 m2 (stack + c + 8 * alen args) 0) x = rd m1 x).
    { intros x Hx. rewrite rd_write64_out, W3 by lia. done. }
    split.
    + unfold c. split_and!; [lia | lia |]. rewrite Zminus_mod, D1, Z.mod_mul by done. done.
    + intros j w Hw. destruct (A1 j w Hw) as (o & Ho & Hc1 & Hc2 & S1 & S2). exists o. pose proof (lookup_lt_Some _ _ _ Hw). pose proof (alen_nonneg w).
      split_and!; [| unfold c; lia | done |].
      * rewrite read64_write64_ne by (unfold alen; lia). by apply W2.
      * split; [intros i Hi|]; rewrite Hup by (unfold c; lia); [by apply S1 | done].
    + by apply read64_write64_eq.
Qed.


(** ** What the process sees *)

Section Image.
Context (root : Z).

Definition user_string (s : vmm_state) (a : Z) (w : cstr) : Prop :=
  (forall i, 0 <= i < alen w -> user_byte s root (a + i) = Some (ch w i)) /\ user_byte s root (a + alen w) = Some 0.

(** The eight bytes of a pointer. *)
Definition user_pointer (s : vmm_state) (a v : Z) : Prop := forall k, 0 <= k < 8 -> user_byte s root (a + k) = Some (v / 256 ^ k mod 256).

Lemma read_le_byte n m a k : mem_ok m -> 0 <= k < Z.of_nat n -> rd m (a + k) = read_le n m a / 256 ^ k mod 256.
Proof.
  intros Hm. revert a k. induction n as [|n IH]; intros a k Hk; [lia|]. cbn [read_le]. pose proof (Hm a) as Hr. change (2 ^ 8) with 256 in *.
  destruct (decide (k = 0)) as [->|Hne].
  - rewrite Z.add_0_r, Z.pow_0_r, Z.div_1_r, (Z.mul_comm 256), Z_mod_plus_full. by rewrite Z.mod_small.
  - replace (a + k) with (a + 1 + (k - 1)) by lia. rewrite IH by lia. replace (256 ^ k) with (256 * 256 ^ (k - 1)) by (rewrite <- Z.pow_succ_r by lia; f_equal; lia).
    rewrite <- Z.div_div by lia. do 2 f_equal. rewrite (Z.mul_comm 256), Z.div_add, Z.div_small by lia. done.
Qed.

(** The stack page of a process shows the bytes of its frame. *)
Lemma stack_byte s f e k : user_entry s root (indices USER_STACK_ADDRESS) = Some e -> table_physical e = f -> 0 <= k < 4096 ->
  user_byte s root (USER_STACK_ADDRESS + k) = Some (rd (memory s) (f + k)).
Proof.
  intros He <- Hk. unfold user_byte, USER_STACK_ADDRESS in *. assert (E : (0x800000 + k) / 4096 = 0x800000 / 4096).
  { change (0x800000 / 4096) with 0x800. symmetry. apply (Z.div_unique _ _ _ k); lia. }
  rewrite (indices_page _ _ E), He. do 3 f_equal. symmetry. apply (Z.mod_unique _ _ 0x800); lia.
Qed.

(** The argument vector of a process. *)
Record user_arguments (s : vmm_state) (argv : Z) (args : list cstr) : Prop := {
  ua_range : USER_STACK_ADDRESS <= argv /\ argv + 8 * (alen args + 1) <= USER_STACK_ADDRESS + 4096 /\ argv mod 8 = 0;
  ua_string : forall j w, args !! j = Some w -> exists a, user_pointer s (argv + 8 * Z.of_nat j) a /\ user_string s a w;
  ua_null : user_pointer s (argv + 8 * alen args) 0;
}.

Lemma arguments_seen s f e c args : mem_ok (memory s) -> user_entry s root (indices USER_STACK_ADDRESS) = Some e -> table_physical e = f ->
  arguments_at (memory s) f c args -> user_arguments s (USER_STACK_ADDRESS + c) args.
Proof.
  intros Hm He Hf [R S N]. pose proof (stack_byte s f e) as B. pose proof (alen_nonneg args) as Hl.
  assert (P : forall o v, 0 <= o -> o + 8 <= 4096 -> read64 (memory s) (f + o) = v -> user_pointer s (USER_STACK_ADDRESS + o) v).
  { intros o v H1 H2 <- k Hk. rewrite <- Z.add_assoc, B by (done || lia). f_equal. rewrite Z.add_assoc. apply (read_le_byte 8); [done | lia]. }
  split.
  - unfold USER_STACK_ADDRESS in *. split_and!; [lia | lia |]. rewrite Z.add_mod, (proj2 (proj2 R)) by done. done.
  - intros j w Hw. destruct (S j w Hw) as (o & Ho & Ho1 & Ho2 & W1 & W2). pose proof (lookup_lt_Some _ _ _ Hw). pose proof (alen_nonneg w).
    exists (USER_STACK_ADDRESS + o). split.
    + rewrite <- Z.add_assoc. apply P; [lia | unfold alen in *; lia | by rewrite Z.add_assoc].
    + split; [intros i Hi|]; rewrite <- Z.add_assoc, B by (done || lia); rewrite Z.add_assoc; [by rewrite W1 | by rewrite W2].
  - rewrite <- Z.add_assoc. apply P; [lia | lia | by rewrite Z.add_assoc].
Qed.

(** ** The stack page *)

Lemma map_stack_spec s : proc_space root s -> user_entry s root (indices USER_STACK_ADDRESS) = None ->
  let '(r, s') := map_stack root s in
  user_step s s' root /\
  match r with
  | None => free_pages (pmm s) <= PMM_KERNEL_RESERVE_PAGES
  | Some f => is_page f /\
      (forall idx, page_path idx -> user_entry s' root idx =
         if decide (idx = indices USER_STACK_ADDRESS) then Some (leaf_entry f STACK_FLAGS) else user_entry s root idx) /\
      forall b, indices b <> indices USER_STACK_ADDRESS -> user_byte s' root b = user_byte s root b
  end.
Proof.
  intros Hs He. pose proof Hs as (Hwf & _). unfold map_stack. destruct (pmm_alloc_user_page (pmm s)) as [f p] eqn:Ea.
  destruct (alloc_fresh s root f p (memory s) Hwf Ea (sw_mem _ _ (uw_space _ _ Hwf))) as [(-> & -> & Hle)|Hf]; [done | |].
  { rewrite Z.eqb_refl. split; [|done]. destruct s. by apply user_step_refl. }
  rewrite (fp_valid _ _ _ _ Hf). destruct (alloc_leaves root s f p Hwf Ea (proj1 (Z.eqb_neq _ _) (fp_valid _ _ _ _ Hf))) as (Hlt & H3).
  change (with_memory (with_pmm s p) (memory s)) with (with_pmm s p) in Hf. set (s1 := with_pmm s p) in *. change p with (pmm s1) in H3. clearbody s1.
  destruct (fresh_mapped root s s1 f USER_STACK_ADDRESS STACK_FLAGS Hs Hf H3) as (s2 & -> & S & E & B); try done.
  cbn [negb]. split; [done|]. split; [apply Hf|]. split; [done|]. intros b Hb. rewrite B. by rewrite decide_False.
Qed.

End Image.



(** ** The image *)

(** The record of a process that has just got its image. *)
Definition new_process (root pid ppid heap_base pages : Z) (cwd : cstr) (regions : list mmap_region) : process_record :=
  mk_process pid ppid PROCESS_RUNNING 0 (Some (Space root)) heap_base heap_base pages cwd regions.

Definition no_regions (regions : list mmap_region) : Prop :=
  alen regions = MAX_MMAP_REGIONS /\ forall i, slot_ok i -> r_used (region_at regions i) = false.

Lemma no_regions_ok regions : no_regions regions -> regions_ok regions /\ region_pages regions = 0.
Proof.
  intros (Hl & Hn). split.
  - split; [done | intros i Hi Hu | intros i j Hi _ _ Hu _]; rewrite Hn in Hu; done.
  - unfold region_pages. rewrite (sum_up_ext _ _ _ (fun _ => 0)); [by vm_compute|]. intros k Hk. unfold pages_of. rewrite Hn; [done|].
    unfold slot_ok, trips, MAX_MMAP_REGIONS in *. lia.
Qed.

(** A segment ends on the page where its last byte is. *)
Lemma segment_below_heap size image_end p b : Elf.Elf.program_ok p -> Elf.Elf.segment_valid size p ->
  Elf.Elf.virtual_address p + Elf.Elf.memory_size p <= image_end < HEAP_LIMIT -> Elf.Elf.in_segment p b -> b < align_up_page image_end.
Proof.
  intros Hp (_ & _ & Hv & _) Hend Hb. unfold Elf.Elf.in_segment in Hb. unfold HEAP_LIMIT, USER_STACK_ADDRESS, PMM_PAGE_SIZE in Hend.
  destruct Hp as (Hva & Hms & Hr). pose proof (conj Hva (conj Hms Hr)) as Hp. unfold is_u64 in Hva, Hms.
  destruct (align_up_page_spec image_end ltac:(lia)) as (Hm & Hu). destruct (decide (Elf.Elf.memory_size p = 0)) as [Hz|Hnz].
  { unfold Elf.Elf.segment_pages in Hb. rewrite Hz in Hb. cbn in Hb. lia. }
  destruct (Elf.Elf.segment_pages_eq p Hp Hv Hnz) as (_ & Hhi).
  assert (Hlo : Elf.Elf.page_lo p mod 4096 = 0).
  { unfold Elf.Elf.page_lo. rewrite Zminus_mod_idemp_r. by rewrite Z.sub_diag. }
  pose proof (Z.div_mod (Elf.Elf.page_lo p) 4096). pose proof (Z.div_mod (align_up_page image_end) 4096). lia.
Qed.


Section Load.
Context (root : Z) (image : list Z) (args : list cstr) (s : vmm_state).
Let header := Elf.Elf.header_at image.
Let loads := Elf.Elf.program_of image header (Elf.Elf.program_count header).
Context (Hs : proc_space root s) (Hempty : forall a, 0 <= a < 2 ^ 47 -> user_entry s root (indices a) = None).
Context (Hbytes : Elf.Elf.bytes_ok image) (Hlen : alen image < 2 ^ 64) (Htext : Forall text args) (Hargc : alen args <= PROCESS_MAX_ARGUMENTS).

(** A finished image: the segments, the stack page and nothing else. *)
Record image_ready (s' : vmm_state) (entry heap_base sp pages : Z) : Prop := {
  ir_entry : entry = Elf.Elf.entry header /\ exists e, user_entry s' root (indices entry) = Some e /\ has e VMM_NO_EXECUTE = false;
  ir_segments : forall p b, loads p -> Elf.Elf.in_segment p b -> user_byte s' root b = Some (Elf.Elf.segment_byte image p b) /\
    exists e, user_entry s' root (indices b) = Some e /\ Elf.Elf.segment_rights p e;
  ir_arguments : user_arguments root s' sp args;
  ir_heap : heap_base mod 4096 = 0 /\ 0 < heap_base <= HEAP_LIMIT;
  ir_pages : 1 <= pages <= PROCESS_MEMORY_LIMIT_PAGES;
  ir_nothing : forall b, 0 <= b < 2 ^ 47 -> b < heap_base \/ USER_STACK_ADDRESS <= b < USER_STACK_ADDRESS + 4096 \/ user_entry s' root (indices b) = None;
}.

Section Stack.
Context (s1 s2 : vmm_state) (image_end elf_pages f c : Z) (m : mem).
Context (S1 : user_step s s1 root) (L : Elf.Elf.loaded root s s1 image (alen image) loads).
Context (Hentry : exists p, loads p /\ Elf.Elf.entry_in header p = true) (Hpages : 0 <= elf_pages <= PROCESS_MEMORY_LIMIT_PAGES - 1).
Context (Hend : 0 <= image_end < HEAP_LIMIT) (Hsegs : forall p, loads p -> Elf.Elf.virtual_address p + Elf.Elf.memory_size p <= image_end).
Context (S2 : user_step s1 s2 root) (Hf : is_page f).
Context (E2 : forall idx, page_path idx -> user_entry s2 root idx =
  if decide (idx = indices USER_STACK_ADDRESS) then Some (leaf_entry f STACK_FLAGS) else user_entry s1 root idx).
Context (B2 : forall b, indices b <> indices USER_STACK_ADDRESS -> user_byte s2 root b = user_byte s1 root b).
Context (Hm : mem_ok m) (Hout : forall x, ~ in_page f x -> rd m x = rd (memory s2) x).
Let s3 := with_memory s2 m.

Lemma st_entry : user_entry s2 root (indices USER_STACK_ADDRESS) = Some (leaf_entry f STACK_FLAGS) /\ table_physical (leaf_entry f STACK_FLAGS) = f.
Proof. split; [rewrite (E2 _ (indices_path _)); by rewrite decide_True|]. by destruct (leaf_entry_spec f STACK_FLAGS Hf) as (_ & _ & ?). Qed.

Lemma st_pages : same_pages s2 s3 root /\ user_step s2 s3 root.
Proof.
  destruct st_entry as (He & Hph). pose proof (us_wf _ _ _ S2) as W. pose proof Hout as Hout'. rewrite <- Hph in Hout'.
  assert (HW : has (leaf_entry f STACK_FLAGS) VMM_WRITABLE = true) by (rewrite has_WRITABLE, leaf_entry_bit; auto).
  split; [exact (poke_pages s2 root _ _ m W (indices_path _) He Hm Hout') | exact (poke_step s2 root _ _ m W (indices_path _) He (or_introl HW) Hm Hout')].
Qed.

Lemma st_step : user_step s s3 root.
Proof. destruct st_pages as (_ & S3). by apply (user_step_trans s s1), (user_step_trans s1 s2). Qed.

(** Off the stack page everything is as the loader left it. *)
Lemma st_off b : 0 <= b < 2 ^ 47 -> ~ (USER_STACK_ADDRESS <= b < USER_STACK_ADDRESS + 4096) ->
  user_entry s3 root (indices b) = user_entry s1 root (indices b) /\ user_byte s3 root b = user_byte s1 root b.
Proof.
  intros Hb Hoff. assert (Hne : indices b <> indices USER_STACK_ADDRESS).
  { rewrite indices_low by (done || unfold USER_STACK_ADDRESS; lia). intros E. apply Hoff. destruct (area_page _ _ E) as (G1 & G2).
    rewrite G1, G2 by done. unfold USER_STACK_ADDRESS. lia. }
  destruct st_entry as (He & Hph). destruct st_pages as (P & _). split.
  - rewrite (sp_entry s2 s3 root P) by apply indices_path. rewrite E2 by apply indices_path. by rewrite decide_False.
  - rewrite <- B2 by done. pose proof Hout as Hout'. rewrite <- Hph in Hout'.
    exact (poke_bytes s2 root _ _ m b (us_wf _ _ _ S2) (indices_path _) He Hm Hout' Hne).
Qed.

Lemma st_segment p b : loads p -> Elf.Elf.in_segment p b -> 0 <= b < 2 ^ 47 /\ b < align_up_page image_end /\ ~ (USER_STACK_ADDRESS <= b < USER_STACK_ADDRESS + 4096).
Proof.
  intros Hp Hb. destruct (Elf.Elf.ld_valid _ _ _ _ _ _ L p Hp) as (Hok & Hv). pose proof (Elf.Elf.in_segment_low _ _ _ Hok Hv Hb) as Hlow.
  pose proof (segment_below_heap _ image_end p b Hok Hv (conj (Hsegs p Hp) (proj2 Hend)) Hb) as Hlt.
  pose proof (heap_limit_aligned image_end ltac:(lia)). unfold HEAP_LIMIT, USER_STACK_ADDRESS, PMM_PAGE_SIZE in *. split_and!; lia.
Qed.

Lemma st_ready : arguments_at m f c args -> image_ready s3 (Elf.Elf.entry header) (align_up_page image_end) (USER_STACK_ADDRESS + c) (elf_pages + 1).
Proof.
  intros Ha. destruct st_entry as (He & Hph). destruct st_pages as (P & S3).
  assert (Hsg : forall p b, loads p -> Elf.Elf.in_segment p b -> user_byte s3 root b = Some (Elf.Elf.segment_byte image p b) /\
    exists e, user_entry s3 root (indices b) = Some e /\ Elf.Elf.segment_rights p e).
  { intros p b Hp Hb. destruct (st_segment p b Hp Hb) as (Hlow & _ & Hoff). destruct (st_off b Hlow Hoff) as (-> & ->). by apply (Elf.Elf.ld_in _ _ _ _ _ _ L). }
  split.
  - split; [done|]. destruct Hentry as (p & Hp & Hin). destruct (Elf.Elf.ld_valid _ _ _ _ _ _ L p Hp) as (Hok & Hv).
    pose proof (Elf.Elf.field_range 8 image 24 Hbytes) as He8. destruct (Elf.Elf.entry_in_segment header (alen image) p He8 Hok Hv Hin) as (Hseg & HX).
    destruct (Hsg p _ Hp Hseg) as (_ & e & Hee & _ & HN). exists e. by rewrite HN, HX.
  - done.
  - apply (arguments_seen root s3 f (leaf_entry f STACK_FLAGS)); try done. by rewrite (sp_entry s2 s3 root P) by apply indices_path.
  - unfold HEAP_LIMIT, USER_STACK_ADDRESS, PMM_PAGE_SIZE in Hend. destruct (align_up_page_spec image_end ltac:(lia)) as (A1 & A2). split; [done|].
    pose proof (heap_limit_aligned image_end ltac:(unfold HEAP_LIMIT, USER_STACK_ADDRESS, PMM_PAGE_SIZE; lia)).
    destruct Hentry as (p & Hp & Hin). destruct (Elf.Elf.ld_valid _ _ _ _ _ _ L p Hp) as (Hok & Hv). pose proof (Elf.Elf.field_range 8 image 24 Hbytes) as He8.
    destruct (Elf.Elf.entry_in_segment header (alen image) p He8 Hok Hv Hin) as (Hseg & _). destruct (st_segment p _ Hp Hseg) as (? & ? & _). lia.
  - lia.
  - intros b Hb. destruct (decide (USER_STACK_ADDRESS <= b < USER_STACK_ADDRESS + 4096)) as [Hst|Hoff]; [by right; left|].
    destruct (decide (b < align_up_page image_end)) as [Hlt|Hge]; [by left|]. right; right. rewrite (proj1 (st_off b Hb Hoff)).
    rewrite (proj2 (Elf.Elf.ld_out _ _ _ _ _ _ L b Hb (fun p Hp Hin => Hge (proj1 (proj2 (st_segment p b Hp Hin)))))). by apply Hempty.
Qed.

End Stack.

Lemma load_image_spec :
  let '((loaded, _), s1) := Elf.Elf.elf_load (Some image) (alen image) (Some (Space root)) (PROCESS_MEMORY_LIMIT_PAGES -! 1) true s in
  let '((r, out), s') := load_image (Some image) (Some <$> args) (alen args) root s in
  user_step s s' root /\
  match r with
  | PROCESS_IMAGE_READY => exists entry heap_base sp pages, out = Some (entry, heap_base, sp, pages) /\ image_ready s' entry heap_base sp pages
  | PROCESS_IMAGE_INVALID => out = None /\ (loaded = Elf.Elf.ELF_LOAD_INVALID \/ 4096 < text_size args 0 + 8 * (alen args + 1) + 7)
  | PROCESS_IMAGE_OUT_OF_MEMORY => out = None /\ (loaded = Elf.Elf.ELF_LOAD_OUT_OF_MEMORY \/ free_pages (pmm s1) <= PMM_KERNEL_RESERVE_PAGES)
  end.
Proof.
  unfold load_image. pose proof (Elf.Elf.elf_load_spec image root (PROCESS_MEMORY_LIMIT_PAGES -! 1) s (proj1 Hs) Hbytes Hlen ltac:(done)) as H. cbv zeta in H.
  destruct (Elf.Elf.elf_load _ _ _ _ _ s) as [[r out] s1]. destruct H as (S1 & H).
  destruct r; [by split; [|split; [|left]] | by split; [|split; [|left]] |]. destruct H as (_ & _ & L & Hent & Hlim & image_end & -> & Hend & Hsg & _).
  pose proof (Elf.Elf.program_pages_nonneg image (Elf.Elf.header_at image) (Elf.Elf.program_count (Elf.Elf.header_at image))) as Hnn.
  set (pages := Elf.Elf.program_pages _ _ _) in *. clearbody pages. assert (Hpg : 0 <= pages <= PROCESS_MEMORY_LIMIT_PAGES -! 1) by done. clear Hlim Hnn.
  assert (Hs1 : proc_space root s1) by (split; [apply S1 | by apply (us_clean _ _ _ S1), Hs]).
  change (Elf.Elf.USER_STACK_ADDRESS - PMM_PAGE_SIZE) with HEAP_LIMIT in Hend.
  assert (He1 : user_entry s1 root (indices USER_STACK_ADDRESS) = None).
  { rewrite (proj2 (Elf.Elf.ld_out _ _ _ _ _ _ L USER_STACK_ADDRESS ltac:(unfold USER_STACK_ADDRESS; lia) (fun p Hp Hin =>
      proj2 (proj2 (st_segment s1 image_end L Hend Hsg p _ Hp Hin)) ltac:(lia)))). apply Hempty. unfold USER_STACK_ADDRESS. lia. }
  pose proof (map_stack_spec root s1 Hs1 He1) as Hst. destruct (map_stack root s1) as [[f|] s2].
  2: { destruct Hst as (S2 & Hlow). split; [by apply (user_step_trans s s1)|]. split; [done | by right]. }
  destruct Hst as (S2 & Hf & E2 & B2). pose proof (build_spec args f (memory s2) Htext (sw_mem _ _ (uw_space _ _ (us_wf _ _ _ S2))) Hargc) as Hb.
  destruct (build_stack (Some <$> args) (alen args) f (memory s2)) as [c m]. destruct Hb as (O & K & R).
  pose proof (st_step s1 s2 f m S1 S2 Hf E2 K O) as S3. destruct c as [c|]; [|by split; [|split; [|right]]]. split; [done|].
  destruct (ag_range _ _ _ _ R) as (R1 & R2 & _). pose proof (alen_nonneg args). change PROCESS_MEMORY_LIMIT_PAGES with 4096 in Hpg. change (4096 -! 1) with 4095 in Hpg.
  rewrite (u64_small (USER_STACK_ADDRESS + c)), (u64_small (pages + 1)) by (unfold is_u64, USER_STACK_ADDRESS; lia). do 4 eexists. split; [done|].
  apply (st_ready s1 s2 image_end pages f c m); (done || lia).
Qed.

(** The new process starts with a well-formed address space. *)
Lemma ready_proc_wf s' entry heap_base sp pages pid ppid cwd regions : user_step s s' root -> image_ready s' entry heap_base sp pages -> no_regions regions ->
  proc_wf root pages (new_process root pid ppid heap_base pages cwd regions) s'.
Proof.
  intros S [_ _ _ (H1 & H2) Hpg Hno] Hnr. destruct (no_regions_ok _ Hnr) as (Hrg & Hz).
  assert (Hau : align_up_page heap_base = heap_base).
  { apply align_up_page_aligned; [|done]. unfold HEAP_LIMIT, USER_STACK_ADDRESS, PMM_PAGE_SIZE in H2. lia. }
  split; cbn [new_process ProcessMem.heap_base program_break committed_pages mappings].
  - split; [apply S | by apply (us_clean _ _ _ S), Hs].
  - split; cbn; [done | lia | lia].
  - done.
  - rewrite Hz. unfold heap_size. cbn [new_process program_break ProcessMem.heap_base]. rewrite Hau, Z.sub_diag. change (0 / 4096) with 0. lia.
  - intros a e Ha He. unfold HEAP_LIMIT, USER_STACK_ADDRESS, PMM_PAGE_SIZE, MMAP_ADDRESS_START in *.
    destruct (Hno a Ha) as [Hlt|[Hst|Hn]]; [| |congruence]; (split; [intros Hin | intros Hin]); exfalso;
      unfold HEAP_LIMIT, USER_STACK_ADDRESS, PMM_PAGE_SIZE, MMAP_ADDRESS_START in *; cbn in Hin; lia.
Qed.

End Load.


(** ** Theorems *)

(** C14 The image of a new process.  Into an empty space the segments of the
    executable are loaded and a stack page is mapped.  When the image is ready,
    the process finds the bytes of its segments and an executable entry point;
    at the stack pointer it finds the argument vector: one pointer per argument
    to exactly that string, NUL-terminated, and a NULL pointer behind them, all
    inside the stack page.  The heap starts on a page boundary behind the image
    and nothing else is mapped, so a process with this record satisfies the
    invariant of the memory calls.  The image is refused only for an invalid
    executable or arguments that do not fit the page, and memory is reported
    short only when it is; memory of others keeps its bytes on every path. *)
Theorem process_image_correct root image args s pid ppid cwd regions :
  proc_space root s -> (forall a, 0 <= a < 2 ^ 47 -> user_entry s root (indices a) = None) ->
  Elf.Elf.bytes_ok image -> alen image < 2 ^ 64 -> Forall text args -> alen args <= PROCESS_MAX_ARGUMENTS -> no_regions regions ->
  let '((loaded, _), s1) := Elf.Elf.elf_load (Some image) (alen image) (Some (Space root)) (PROCESS_MEMORY_LIMIT_PAGES -! 1) true s in
  let '((r, out), s') := load_image (Some image) (Some <$> args) (alen args) root s in
  user_step s s' root /\
  match r with
  | PROCESS_IMAGE_READY => exists entry heap_base sp pages, out = Some (entry, heap_base, sp, pages) /\
      image_ready root image args s' entry heap_base sp pages /\
      proc_wf root pages (new_process root pid ppid heap_base pages cwd regions) s'
  | PROCESS_IMAGE_INVALID => out = None /\ (loaded = Elf.Elf.ELF_LOAD_INVALID \/ 4096 < text_size args 0 + 8 * (alen args + 1) + 7)
  | PROCESS_IMAGE_OUT_OF_MEMORY => out = None /\ (loaded = Elf.Elf.ELF_LOAD_OUT_OF_MEMORY \/ free_pages (pmm s1) <= PMM_KERNEL_RESERVE_PAGES)
  end.
Proof.
  intros Hs He Hb Hl Ht Ha Hr. pose proof (load_image_spec root image args s Hs He Hb Hl Ht Ha) as H.
  destruct (Elf.Elf.elf_load _ _ _ _ _ s) as [[loaded o] s1]. destruct (load_image _ _ _ root s) as [[r out] s']. destruct H as (S & H). split; [done|].
  destruct r; [done | done |]. destruct H as (entry & heap_base & sp & pages & -> & Hi). exists entry, heap_base, sp, pages. split_and!; [done | done |].
  by apply (ready_proc_wf root image args s Hs s' entry heap_base sp pages).
Qed.

Definition sample_arguments : list cstr := [str "/bin/hello"; str "-n"].

Lemma sample_image_ready : fst (load_image (Some Elf.Elf.sample_image) (Some <$> sample_arguments) 2 Elf.Elf.load_root Elf.Elf.load_state) =
  (PROCESS_IMAGE_READY, Some (0x400010, 0x401000, 0x800FD8, 2)).
Proof. vm_compute. reflexivity. Qed.

Lemma empty_space root p c k tl : pmm_wf p -> is_page root -> page_busy p root ->
  proc_space root (mk_vmm p ∅ c k tl) /\ forall idx, user_entry (mk_vmm p ∅ c k tl) root idx = None.
Proof.
  intros Hp Hr Hb. assert (Hl : forall idx, leaf ∅ root idx = None).
  { intros [|i idx]; [done|]. cbn [leaf]. by rewrite entry_empty. }
  split; [split|].
  - by apply empty_user_wf.
  - intros idx l e _ _ H. cbn [memory] in H. by rewrite Hl in H.
  - intros idx. unfold user_entry. cbn [memory]. by rewrite Hl.
Qed.

Lemma sample_empty : proc_space Elf.Elf.load_root Elf.Elf.load_state /\ forall idx, user_entry Elf.Elf.load_state Elf.Elf.load_root idx = None.
Proof.
  apply empty_space; [exact (alloc_wf _ Elf.Elf.load_pmm0_wf) | |].
  - split; [vm_compute; reflexivity | vm_compute; split; [discriminate | reflexivity]].
  - intros _. vm_compute. discriminate.
Qed.

Lemma process_image_correct_witness :
  let '((r, _), s') := load_image (Some Elf.Elf.sample_image) (Some <$> sample_arguments) 2 Elf.Elf.load_root Elf.Elf.load_state in
  r = PROCESS_IMAGE_READY /\ user_arguments Elf.Elf.load_root s' 0x800FD8 sample_arguments.
Proof.
  destruct sample_empty as (Hs & He). pose proof sample_image_ready as Hok.
  pose proof (process_image_correct Elf.Elf.load_root Elf.Elf.sample_image sample_arguments Elf.Elf.load_state 1 0 [] (replicate 32 no_region)
    Hs (fun a _ => He (indices a)) Elf.Elf.sample_bytes ltac:(by vm_compute) ltac:(unfold text; apply (bool_decide_unpack _); vm_compute; exact I) ltac:(by vm_compute)) as H.
  change (alen sample_arguments) with 2 in H.
  destruct (load_image (Some Elf.Elf.sample_image) (Some <$> sample_arguments) 2 Elf.Elf.load_root Elf.Elf.load_state) as [[r out] s'].
  cbn [fst] in Hok. injection Hok as -> ->. split; [reflexivity|].
  destruct (Elf.Elf.elf_load _ _ _ _ _ Elf.Elf.load_state) as [[loaded o] s1].
  destruct H as (_ & entry & hb & sp & pages & Eq & Hr & _).
  - split; [reflexivity|]. intros i _. unfold region_at, aget. destruct (replicate 32 no_region !! Z.to_nat i) as [x|] eqn:Ex; [|reflexivity].
    apply lookup_replicate in Ex as (-> & _). reflexivity.
  - injection Eq as <- <- <- <-. apply Hr.
Defined.


End ProcessImage.
