(* ===== verification/Process.v ===== *)
(** * Process: the life of a process

    Spawn, fork, exec, exit and waitpid of src/kernel/process.c over the
    components they call: the kernel heap with the page tables, the scheduler
    and the virtual file system.  The structures [launch] and [struct vmm_space]
    in heap blocks are maps from their addresses.  Calls that enter user mode
    return the registers they enter it with. *)

From S2P Require Import Prelude Memory Pmm PageTable Vmm KernelPages Stack CString Kmalloc VmmSpace Ramfs Path Vfs Task ProcessMem ProcessImage.
Import Vmm.Vmm KernelPages.KernelPages CString.CString ProcessMem.ProcessMem ProcessImage.ProcessImage.
Local Open Scope Z_scope.

Module Process.

Definition ARGUMENT_SIZE : Z := 64.

(** The addresses of the functions and strings a task is created with, names
    for values that are compared with NULL only. *)
Definition USER_PROCESS_TASK : Z := 4.
Definition FORKED_PROCESS_TASK : Z := 5.
Definition USER_HELLO_NAME : Z := 6.
Definition FORK_NAME : Z := 7.

(** The conversion of a [uint64_t] to [int]. *)
Definition to_int (x : Z) : Z := let x := x mod 2 ^ 32 in if x <? 2 ^ 31 then x else x - 2 ^ 32.

Record syscall_frame := mk_frame {
  f_r15 : Z; f_r14 : Z; f_r13 : Z; f_r12 : Z; f_r11 : Z; f_r10 : Z; f_r9 : Z; f_r8 : Z; f_rbp : Z; f_rdi : Z; f_rsi : Z; f_rdx : Z; f_rcx : Z;
  f_rbx : Z; f_rax : Z; f_ip : Z; f_cs : Z; f_flags : Z; f_sp : Z; f_ss : Z }.

Definition with_rax (f : syscall_frame) (v : Z) : syscall_frame :=
  mk_frame (f_r15 f) (f_r14 f) (f_r13 f) (f_r12 f) (f_r11 f) (f_r10 f) (f_r9 f) (f_r8 f) (f_rbp f) (f_rdi f) (f_rsi f) (f_rdx f) (f_rcx f)
    (f_rbx f) v (f_ip f) (f_cs f) (f_flags f) (f_sp f) (f_ss f).

(** [struct process_launch] and [struct process_fork_launch]. *)
Inductive launch := ProcessLaunch (entry stack_top argc argv : Z) | ForkLaunch (frame : syscall_frame).
Definition LAUNCH_SIZE : Z := 32.
Definition FORK_LAUNCH_SIZE : Z := 160.

(** What user mode is entered with: the instruction pointer, the stack pointer,
    [argc] in rdi and [argv] in rsi. *)
Record user_start := mk_start { u_ip : Z; u_sp : Z; u_rdi : Z; u_rsi : Z }.

Definition copy_path (source : cstr) : cstr := take (Z.to_nat (Path.Path.FS_PATH_MAX - 1)) source.

Definition with_cwd (p : process_record) (c : cstr) : process_record :=
  mk_process (pid p) (ppid p) (p_state p) (exit_status p) (p_space p) (heap_base p) (program_break p) (committed_pages p) c (mappings p).
Definition with_life (p : process_record) (st : process_state) (status : Z) : process_record :=
  mk_process (pid p) (ppid p) st status (p_space p) (heap_base p) (program_break p) (committed_pages p) (cwd p) (mappings p).

(** [for (...) record->mappings[i].used = 0;] *)
Definition clear_mappings (regions : list mmap_region) : list mmap_region :=
  for_up (trips 0 MAX_MMAP_REGIONS) 0 (fun i regions =>
    let r := region_at regions i in aset regions i (mk_region (r_start r) (r_end r) (protection r) false)) regions.

(** ** The argument string of spawn *)

Definition SPACE : Z := 32.

Fixpoint skip_spaces (s : cstr) : cstr :=
  match s with
  | [] => []
  | c :: rest => if c =? SPACE then skip_spaces rest else s
  end.

Fixpoint span_word (s : cstr) : cstr * cstr :=
  match s with
  | [] => ([], [])
  | c :: rest => if c =? SPACE then ([], s) else let '(a, b) := span_word rest in (c :: a, b)
  end.

(** The words behind the path; None when one is too long for its buffer. *)
Fixpoint split_arguments (fuel : nat) (argument : cstr) (argc : Z) : option (list cstr) :=
  match fuel with
  | O => Some []
  | S fuel =>
      if bool_decide (argument = []) || negb (argc <? PROCESS_MAX_ARGUMENTS) then Some []
      else
        let argument := skip_spaces argument in
        if bool_decide (argument = []) then Some []
        else
          let '(word, rest) := span_word argument in
          if ARGUMENT_SIZE <=? alen word then None
          else match split_arguments fuel rest (argc + 1) with
               | None => None
               | Some words => Some (word :: words)
               end
  end.

Section Process.
Context {W : Type} `{Task.Task.TaskResources W} {A : Type} `{Kmalloc.Kmalloc.Allocator A} {F : Type}.
Context (ops : Vfs.Vfs.backend -> @Vfs.Vfs.vfs_fs_ops F) (ramfs_of : F -> Ramfs.Ramfs.ramfs A).

(** The heap in the world the scheduler allocates its tasks and stacks from. *)
Context (heap_of : W -> Kmalloc.Kmalloc.heap vmm_state) (put_heap : Kmalloc.Kmalloc.heap vmm_state -> W -> W).

Record kernel := mk_kernel {
  k_processes : list process_record;
  k_spaces : gmap Z Z;
  k_launches : gmap Z launch;
  k_tasks : Task.Task.scheduler W;
  k_vfs : Vfs.Vfs.vfs F }.

Definition with_processes k v := mk_kernel v (k_spaces k) (k_launches k) (k_tasks k) (k_vfs k).
Definition with_spaces k v := mk_kernel (k_processes k) v (k_launches k) (k_tasks k) (k_vfs k).
Definition with_launches k v := mk_kernel (k_processes k) (k_spaces k) v (k_tasks k) (k_vfs k).
Definition with_tasks k v := mk_kernel (k_processes k) (k_spaces k) (k_launches k) v (k_vfs k).
Definition with_vfs k v := mk_kernel (k_processes k) (k_spaces k) (k_launches k) (k_tasks k) v.

Definition k_heap (k : kernel) : Kmalloc.Kmalloc.heap vmm_state := heap_of (Task.Task.world (k_tasks k)).
Definition with_heap (k : kernel) (h : Kmalloc.Kmalloc.heap vmm_state) : kernel :=
  with_tasks k (Task.Task.with_world (k_tasks k) (put_heap h (Task.Task.world (k_tasks k)))).

Definition current_id (k : kernel) : Z := Task.Task.task_current_id (k_tasks k).

Definition destroy (o : VmmSpace.VmmSpace.space_object) (k : kernel) : kernel :=
  with_heap k (VmmSpace.VmmSpace.vmm_space_destroy (Some o) (k_heap k)).
Definition free_launch (p : Z) (k : kernel) : kernel := with_heap k (snd (Kmalloc.Kmalloc.kfree p (k_heap k))).

(** A block with the launch structure in it. *)
Definition alloc_launch (size : Z) (l : launch) (k : kernel) : option Z * kernel :=
  let '(p, h) := Kmalloc.Kmalloc.kmalloc size (k_heap k) in
  if p =? 0 then (None, with_heap k h) else (Some p, with_launches (with_heap k h) (<[p := l]> (k_launches k))).

Definition image_of (path : option cstr) (arguments : option (list (option cstr))) (argc : Z) (k : kernel) :
    (process_image_result * option process_image) * kernel :=
  let '(r, h) := create_process_image path arguments argc true (ramfs_of (Vfs.Vfs.fs (k_vfs k))) (k_heap k) in
  let k := with_heap k h in
  match r with
  | (PROCESS_IMAGE_READY, Some image) =>
      let o := i_space image in
      (r, with_spaces k (<[VmmSpace.VmmSpace.sp_pointer o := VmmSpace.VmmSpace.sp_pml4 o]> (k_spaces k)))
  | _ => (r, k)
  end.

Definition image_error (r : process_image_result) : Z :=
  match r with PROCESS_IMAGE_OUT_OF_MEMORY => SYSCALL_ENOMEM | _ => SYSCALL_EINVAL end.

(** ** Tasks that enter user mode *)

Definition user_process_task (argument : Z) (k : kernel) : option user_start * kernel :=
  match k_launches k !! argument with
  | Some (ProcessLaunch entry stack_top argc argv) => (Some (mk_start entry stack_top argc argv), free_launch argument k)
  | _ => (None, k)
  end.

Definition forked_process_task (argument : Z) (k : kernel) : option syscall_frame * kernel :=
  match k_launches k !! argument with
  | Some (ForkLaunch frame) => (Some frame, free_launch argument k)
  | _ => (None, k)
  end.

(** ** Spawn *)

(** The record of the new process: first all fields but the working directory. *)
Definition fill_record (i pid parent_id : Z) (image : process_image) (k : kernel) : kernel :=
  let old := process_at (k_processes k) i in
  let record := mk_process pid parent_id PROCESS_RUNNING 0 (Some (Space (VmmSpace.VmmSpace.sp_pml4 (i_space image)))) (i_heap_base image) (i_heap_base image)
    (i_committed_pages image) (cwd old) (clear_mappings (mappings old)) in
  let processes := aset (k_processes k) i record in
  let directory := match find_process processes parent_id with Some j => cwd (process_at processes j) | None => [SLASH] end in
  with_processes k (aset processes i (with_cwd record (copy_path directory))).

Definition process_spawn_path_args (path argument : option cstr) (k : kernel) : Z * kernel :=
  match free_process_record (k_processes k) with
  | None => (SYSCALL_ENOMEM, k)
  | Some i =>
      let text := default [] argument in
      match split_arguments (Datatypes.S (length text)) text 1 with
      | None => (SYSCALL_EINVAL, k)
      | Some words =>
          let arguments := path :: (Some <$> words) in
          let '((result, image), k) := image_of path (Some arguments) (alen arguments) k in
          match image with
          | None => (image_error result, k)
          | Some image =>
              let l := ProcessLaunch (i_entry image) (i_stack_pointer image) (i_argc image) (i_argv image) in
              let '(launch, k) := alloc_launch LAUNCH_SIZE l k in
              match launch with
              | None => (SYSCALL_ENOMEM, destroy (i_space image) k)
              | Some launch =>
                  let '(pid, tasks) := Task.Task.task_create_in_space USER_HELLO_NAME USER_PROCESS_TASK launch
                    (VmmSpace.VmmSpace.sp_pointer (i_space image)) (k_tasks k) in
                  let k := with_tasks k tasks in
                  if pid =? UINT64_MAX then (SYSCALL_ENOMEM, destroy (i_space image) (free_launch launch k))
                  else
                    let parent := current_id k in
                    let k := fill_record i pid parent image k in
                    (i64 pid, with_vfs k (snd (Vfs.Vfs.vfs_inherit_standard parent pid (k_vfs k))))
              end
          end
      end
  end.

Definition process_spawn_path (path : option cstr) (k : kernel) : bool * kernel :=
  let '(r, k) := process_spawn_path_args path None k in (0 <=? r, k).
Definition process_run_hello (k : kernel) : bool * kernel := process_spawn_path (Some (str "/bin/init")) k.
Definition process_spawn_child (path : option cstr) (k : kernel) : Z * kernel := process_spawn_path_args path None k.
Definition process_spawn_child_args (path argument : option cstr) (k : kernel) : Z * kernel := process_spawn_path_args path argument k.

(** ** Fork *)

Definition fork_record (parent : process_record) (pid root : Z) : process_record :=
  mk_process pid (ProcessMem.ProcessMem.pid parent) PROCESS_RUNNING 0 (Some (Space root)) (heap_base parent) (program_break parent)
    (committed_pages parent) (cwd parent) (mappings parent).

(** [now] and [sp] are those of the [task_yield] after a failed [vfs_fork]. *)
Definition process_fork (frame : option syscall_frame) (now sp : Z) (k : kernel) : Z * kernel :=
  match frame, running (k_processes k) (current_id k), free_process_record (k_processes k) with
  | Some frame, Some (_, parent, parent_space), Some i =>
      let '(launch, k) := alloc_launch FORK_LAUNCH_SIZE (ForkLaunch (with_rax frame 0)) k in
      match launch with
      | None => (SYSCALL_ENOMEM, k)
      | Some launch =>
          let root := match parent_space with Space root => Some root | KernelSpace => Some (kernel_pml4 (Kmalloc.Kmalloc.pages (k_heap k))) end in
          let '(space, h) := VmmSpace.VmmSpace.vmm_space_clone_cow root (k_heap k) in
          let k := with_heap k h in
          match space with
          | None => (SYSCALL_ENOMEM, free_launch launch k)
          | Some o =>
              let k := with_spaces k (<[VmmSpace.VmmSpace.sp_pointer o := VmmSpace.VmmSpace.sp_pml4 o]> (k_spaces k)) in
              let '(pid, tasks) := Task.Task.task_create_in_space FORK_NAME FORKED_PROCESS_TASK launch (VmmSpace.VmmSpace.sp_pointer o) (k_tasks k) in
              let k := with_tasks k tasks in
              if pid =? UINT64_MAX then (SYSCALL_ENOMEM, free_launch launch (destroy o k))
              else
                let '(ok, files) := Vfs.Vfs.vfs_fork (ProcessMem.ProcessMem.pid parent) pid (k_vfs k) in
                let k := with_vfs k files in
                if negb ok then
                  let k := with_tasks k (snd (Task.Task.task_cancel_ready pid (k_tasks k))) in
                  let k := free_launch launch k in
                  (SYSCALL_ENOMEM, with_tasks k (snd (Task.Task.task_yield now sp (k_tasks k))))
                else (i64 pid, with_processes k (aset (k_processes k) i (fork_record parent pid (VmmSpace.VmmSpace.sp_pml4 o))))
          end
      end
  | _, _, _ => (SYSCALL_ENOMEM, k)
  end.

(** ** Exec *)

(** The error, or the state user mode is entered with. *)
Definition process_exec_path_args (path : option cstr) (arguments : option (list (option cstr))) (argc : Z) (k : kernel) : (Z + user_start) * kernel :=
  match find_process (k_processes k) (current_id k) with
  | None => (inl SYSCALL_EINVAL, k)
  | Some i =>
      if negb (bool_decide (p_state (process_at (k_processes k) i) = PROCESS_RUNNING)) then (inl SYSCALL_EINVAL, k)
      else
        let '((result, image), k) := image_of path arguments argc k in
        match image with
        | None => (inl (image_error result), k)
        | Some image =>
            let '(old_space, tasks) := Task.Task.task_replace_address_space (VmmSpace.VmmSpace.sp_pointer (i_space image)) (k_tasks k) in
            let k := with_tasks k tasks in
            if old_space =? 0 then (inl SYSCALL_EINVAL, destroy (i_space image) k)
            else
              let p := process_at (k_processes k) i in
              let p := mk_process (pid p) (ppid p) (p_state p) 0 (Some (Space (VmmSpace.VmmSpace.sp_pml4 (i_space image)))) (i_heap_base image)
                (i_heap_base image) (i_committed_pages image) (cwd p) (clear_mappings (mappings p)) in
              let k := with_processes k (aset (k_processes k) i p) in
              let k := destroy (VmmSpace.VmmSpace.mk_space old_space (default 0 (k_spaces k !! old_space))) k in
              (inr (mk_start (i_entry image) (i_stack_pointer image) (i_argc image) (i_argv image)), k)
        end
  end.

Definition process_exec_path (path : option cstr) (k : kernel) : (Z + user_start) * kernel := process_exec_path_args path (Some [path]) 1 k.

(** ** Exit and wait *)

Definition process_is_running (k : kernel) : bool :=
  bool_decide (is_Some (find_up (trips 0 MAX_PROCESSES) 0 (fun i => bool_decide (p_state (process_at (k_processes k) i) = PROCESS_RUNNING)))).

Inductive wait_result := WaitError | WaitMore (slot : Z) | WaitDone (pid status : Z).

(** One look at the record; [WaitMore] when the loop yields to look again, at
    the same record, when the task runs next.  [WaitDone] is the returned value
    and the status stored when the caller asked for it. *)
Definition wait_pass (id slot : Z) (k : kernel) : wait_result * kernel :=
  let p := process_at (k_processes k) slot in
  if negb (bool_decide (p_state p = PROCESS_ZOMBIE)) then (WaitMore slot, k)
  else (WaitDone (to_int id) (exit_status p), with_processes k (aset (k_processes k) slot (with_life p PROCESS_UNUSED (exit_status p)))).

Definition process_waitpid (id : Z) (k : kernel) : wait_result * kernel :=
  match find_process (k_processes k) id with
  | None => (WaitError, k)
  | Some slot => if negb (ppid (process_at (k_processes k) slot) =? current_id k) then (WaitError, k) else wait_pass id slot k
  end.

Definition process_exit_current (status now sp : Z) (k : kernel) : kernel :=
  let k := with_vfs k (Vfs.Vfs.vfs_close_all (current_id k) (k_vfs k)) in
  let k := match find_process (k_processes k) (current_id k) with
           | None => k
           | Some i => with_processes k (aset (k_processes k) i (with_life (process_at (k_processes k) i) PROCESS_ZOMBIE status))
           end in
  with_tasks k (snd (Task.Task.task_exit_current now sp (k_tasks k))).

(** ** The working directory *)

Definition process_getcwd (capacity : Z) (buffer : bool) (k : kernel) : option cstr :=
  let directory := match find_process (k_processes k) (current_id k) with Some i => cwd (process_at (k_processes k) i) | None => [SLASH] end in
  if negb buffer || (capacity <=? alen directory) then None else Some directory.

(** The loops are those of [resolve_path] with a buffer of [Path.Path.FS_PATH_MAX] bytes. *)
Definition chdir_path (directory path : cstr) : option cstr :=
  let '(out, input) := if ch path 0 =? SLASH then ([SLASH], Path.Path.skip_slashes path)
                       else (rev (take (Z.to_nat (Path.Path.FS_PATH_MAX - 1)) directory), path) in
  match Path.Path.resolve_loop (Datatypes.S (length input)) Path.Path.FS_PATH_MAX input out with
  | None => None
  | Some out => Some (rev (if alen out =? 0 then [SLASH] else out))
  end.

Definition process_chdir (path : option cstr) (k : kernel) : bool * kernel :=
  match find_process (k_processes k) (current_id k), path with
  | Some i, Some path =>
      let p := process_at (k_processes k) i in
      match chdir_path (cwd p) path with
      | None => (false, k)
      | Some absolute =>
          let '(is_directory, files) := Vfs.Vfs.vfs_is_directory ops (Some absolute) (process_getcwd Path.Path.FS_PATH_MAX true k) (k_vfs k) in
          let k := with_vfs k files in
          if negb is_directory then (false, k)
          else (true, with_processes k (aset (k_processes k) i (with_cwd p (copy_path absolute))))
      end
  | _, _ => (false, k)
  end.

Definition process_cwd_in_mount (mount_path : cstr) (k : kernel) : bool :=
  bool_decide (is_Some (find_up (trips 0 MAX_PROCESSES) 0 (fun i =>
    let p := process_at (k_processes k) i in
    bool_decide (p_state p = PROCESS_RUNNING) &&
    match after_prefix mount_path (cwd p) with
    | None => false
    | Some rest => (ch rest 0 =? NUL) || (ch rest 0 =? SLASH)
    end))).

End Process.

End Process.
