(* ===== verification/ProcessLife.v ===== *)
(** * ProcessLife: the process table over its life

    What spawn, fork, exec, exit, waitpid and chdir of [Process] do to the
    table of processes, against a map from process ids to their parents and
    exit statuses. *)

From S2P Require Import Prelude Memory Pmm PageTable Vmm KernelPages Stack CString Kmalloc VmmSpace Elf Ramfs Path Ps2 Devfs Vfs VfsCorrect Task ProcessMem ProcessImage Process.
Import Vmm.Vmm KernelPages.KernelPages CString.CString ProcessMem.ProcessMem ProcessImage.ProcessImage Process.Process.
Local Open Scope Z_scope.

Module ProcessLife.

(** ** The table *)

Definition life (p : process_record) : process_state * Z * Z * Z := (p_state p, pid p, ppid p, exit_status p).
Definition used (p : process_record) : Prop := p_state p <> PROCESS_UNUSED.

(** A process: its parent and, when it has exited, its status. *)
Definition status_of (p : process_record) : option Z := if bool_decide (p_state p = PROCESS_ZOMBIE) then Some (exit_status p) else None.
Definition entry_of (processes : list process_record) (id : Z) : option (Z * option Z) :=
  match find_process processes id with
  | None => None
  | Some i => let p := process_at processes i in Some (ppid p, status_of p)
  end.

Definition represents (processes : list process_record) (T : gmap Z (Z * option Z)) : Prop :=
  forall id, T !! id = entry_of processes id.

Definition good_cwd (c : cstr) : Prop := (exists st, Path.Path.names c st) /\ alen c < Path.Path.FS_PATH_MAX.

(** The type of the table when [next] is the id of the next task. *)
Record table_ok (processes : list process_record) (next : Z) : Prop := {
  to_length : alen processes = MAX_PROCESSES;
  to_ids : forall i, 0 <= i < MAX_PROCESSES -> used (process_at processes i) -> 0 <= pid (process_at processes i) < next;
  to_distinct : forall i j, 0 <= i < MAX_PROCESSES -> 0 <= j < MAX_PROCESSES -> used (process_at processes i) -> used (process_at processes j) ->
    pid (process_at processes i) = pid (process_at processes j) -> i = j;
  to_cwd : forall i, 0 <= i < MAX_PROCESSES -> used (process_at processes i) -> good_cwd (cwd (process_at processes i));
  to_regions : forall i, 0 <= i < MAX_PROCESSES -> alen (mappings (process_at processes i)) = MAX_MMAP_REGIONS;
}.

Lemma find_process_Some processes id i : find_process processes id = Some i ->
  0 <= i < MAX_PROCESSES /\ used (process_at processes i) /\ pid (process_at processes i) = id.
Proof.
  intros (Hi & Hp & _)%find_up_Some. apply andb_true_iff in Hp as (Hs & Hp). apply negb_true_iff, bool_decide_eq_false in Hs.
  split; [change (Z.of_nat (trips 0 MAX_PROCESSES)) with MAX_PROCESSES in Hi; lia|]. split; [done | by apply Z.eqb_eq].
Qed.

Lemma find_process_used processes next id i : table_ok processes next -> 0 <= i < MAX_PROCESSES -> used (process_at processes i) ->
  pid (process_at processes i) = id -> find_process processes id = Some i.
Proof.
  intros Hok Hi Hu Hp. destruct (find_process processes id) as [j|] eqn:E.
  - apply find_process_Some in E as (Hj & Hu' & Hp'). f_equal. apply (to_distinct _ _ Hok); [done..|]. congruence.
  - unfold find_process in E. rewrite find_up_None in E. specialize (E i). rewrite Hp, Z.eqb_refl, andb_true_r in E.
    rewrite negb_false_iff, bool_decide_eq_true in E. destruct Hu. apply E. exact Hi.
Qed.

Lemma find_process_None processes id : find_process processes id = None <->
  forall i, 0 <= i < MAX_PROCESSES -> used (process_at processes i) -> pid (process_at processes i) <> id.
Proof.
  split.
  - intros E i Hi Hu Hp. unfold find_process in E. rewrite find_up_None in E. specialize (E i Hi).
    rewrite Hp, Z.eqb_refl, andb_true_r, negb_false_iff, bool_decide_eq_true in E. done.
  - intros Hn. destruct (find_process processes id) as [i|] eqn:E; [|done]. apply find_process_Some in E as (Hi & Hu & Hp). by destruct (Hn i).
Qed.

Lemma running_parent processes id i p sp : running processes id = Some (i, p, sp) ->
  0 <= i < MAX_PROCESSES /\ used (process_at processes i) /\ pid (process_at processes i) = id /\ p = process_at processes i.
Proof.
  unfold running. destruct (find_process processes id) as [j|] eqn:E; [|done]. apply find_process_Some in E as (Hj & Hu & Hp).
  destruct (p_space _); [|done]. destruct (bool_decide _); [|done]. intros [= <- <- <-]. split_and!; lia || done.
Qed.

Lemma free_record_Some processes i : free_process_record processes = Some i ->
  0 <= i < MAX_PROCESSES /\ p_state (process_at processes i) = PROCESS_UNUSED.
Proof.
  intros (Hi & Hp & _)%find_up_Some. split; [exact Hi | by apply bool_decide_eq_true in Hp].
Qed.

Section Store.
Context (processes : list process_record) (next : Z).
Hypothesis Hok : table_ok processes next.

Lemma at_aset i j p : 0 <= i < MAX_PROCESSES -> 0 <= j < MAX_PROCESSES ->
  process_at (aset processes i p) j = if decide (i = j) then p else process_at processes j.
Proof. intros Hi Hj. unfold process_at. apply aget_aset; [rewrite (to_length _ _ Hok); lia | lia]. Qed.

(** A store of a record whose id no other process has. *)
Lemma table_store i p next' : 0 <= i < MAX_PROCESSES -> next <= next' -> alen (mappings p) = MAX_MMAP_REGIONS ->
  (used p -> 0 <= pid p < next' /\ good_cwd (cwd p) /\
     forall j, 0 <= j < MAX_PROCESSES -> j <> i -> used (process_at processes j) -> pid (process_at processes j) <> pid p) ->
  table_ok (aset processes i p) next'.
Proof.
  intros Hi Hn Hm Hp. split.
  - rewrite alen_aset. apply (to_length _ _ Hok).
  - intros j Hj. rewrite at_aset by done. case_decide; [intros Hu; by apply Hp|]. intros Hu. pose proof (to_ids _ _ Hok j Hj Hu). lia.
  - intros a b Ha Hb. rewrite !at_aset by done. repeat case_decide; subst; intros Hua Hub E; [done | | |].
    + destruct (Hp Hua) as (_ & _ & Hx). destruct (Hx b Hb) as []; [congruence | done | done].
    + destruct (Hp Hub) as (_ & _ & Hx). destruct (Hx a Ha) as []; [congruence | done | done].
    + by apply (to_distinct _ _ Hok).
  - intros j Hj. rewrite at_aset by done. case_decide; [intros Hu; by apply Hp|]. by apply (to_cwd _ _ Hok).
  - intros j Hj. rewrite at_aset by done. case_decide; [done|]. by apply (to_regions _ _ Hok).
Qed.

(** The entries after a store. *)
Lemma entry_store i p n id : 0 <= i < MAX_PROCESSES -> table_ok (aset processes i p) n ->
  entry_of (aset processes i p) id =
    if decide (used p /\ pid p = id) then Some (ppid p, status_of p)
    else if decide (used (process_at processes i) /\ pid (process_at processes i) = id) then None else entry_of processes id.
Proof.
  intros Hi Hok'.
  unfold entry_of. case_decide as H1.
  - rewrite (find_process_used _ n id i Hok' Hi) by (rewrite at_aset by done; rewrite decide_True by done; apply H1).
    rewrite at_aset by done. by rewrite decide_True.
  - case_decide as H2.
    + destruct (find_process (aset processes i p) id) as [j|] eqn:E; [|done]. exfalso. apply find_process_Some in E as (Hj & Hu & Hp).
      rewrite at_aset in Hu, Hp by done. case_decide; [by apply H1|]. destruct H2 as (Hu2 & Hp2).
      apply H. apply (to_distinct _ _ Hok); [done..|]. congruence.
    + destruct (find_process processes id) as [j|] eqn:E.
      * pose proof (find_process_Some _ _ _ E) as (Hj & Hu & Hp). assert (i <> j) by (intros ->; by apply H2).
        rewrite (find_process_used _ n id j Hok' Hj) by (rewrite at_aset by done; by rewrite decide_False). rewrite at_aset by done.
        by rewrite decide_False.
      * rewrite find_process_None in E. destruct (find_process (aset processes i p) id) as [j|] eqn:E'; [|done]. exfalso.
        apply find_process_Some in E' as (Hj & Hu & Hp). rewrite at_aset in Hu, Hp by done. case_decide; [by apply H1|]. by apply (E j).
Qed.

End Store.

(** The id counter of the scheduler. *)
Section Ids.
Context {W : Type} `{Task.Task.TaskResources W}.
Implicit Type st : Task.Task.scheduler W.

Lemma create_id name entry argument space st : let '(id, st') := Task.Task.task_create_in_space name entry argument space st in
  (id = UINT64_MAX /\ Task.Task.next_task_id st' = Task.Task.next_task_id st) \/
  (id = Task.Task.next_task_id st /\ Task.Task.next_task_id st' = Task.Task.next_task_id st +! 1).
Proof.
  unfold Task.Task.task_create_in_space. destruct (_ || _); [by left|]. destruct (Task.Task.task_alloc _) as [[a|] w]; [|by left].
  destruct (Task.Task.stack_alloc _ _) as [[s1|] w1]; [|by left]. destruct (Task.Task.stack_alloc _ _) as [[s2|] w2]; [|by left].
  destruct (Task.Task.push_words _ _ _). by right.
Qed.

Lemma remove_zombies_id st : Task.Task.next_task_id (Task.Task.remove_zombies st) = Task.Task.next_task_id st.
Proof. unfold Task.Task.remove_zombies. destruct (Task.Task.task_list st); [done|]. by destruct (Task.Task.sweep _ _ _). Qed.

Lemma yield_id now sp st : Task.Task.next_task_id (snd (Task.Task.task_yield now sp st)) = Task.Task.next_task_id st.
Proof.
  unfold Task.Task.task_yield, Task.Task.schedule. rewrite <- (remove_zombies_id st). generalize (Task.Task.remove_zombies st). intros st1.
  unfold Task.Task.next_ready_task. destruct (bool_decide _).
  - destruct (Task.Task.ready_from _ _ _ _); [|done]. by destruct (_ =? _).
  - destruct (Task.Task.ready_from _ _ _ _); [|done]. by destruct (_ =? _).
Qed.

Lemma exit_id now sp st : Task.Task.next_task_id (snd (Task.Task.task_exit_current now sp st)) = Task.Task.next_task_id st.
Proof. unfold Task.Task.task_exit_current. by rewrite yield_id. Qed.

Lemma cancel_id id st : Task.Task.next_task_id (snd (Task.Task.task_cancel_ready id st)) = Task.Task.next_task_id st.
Proof. unfold Task.Task.task_cancel_ready. destruct (list_find _ _) as [[? t]|]; [|done]. by destruct (_ || _). Qed.

Lemma replace_id space st : Task.Task.next_task_id (snd (Task.Task.task_replace_address_space space st)) = Task.Task.next_task_id st.
Proof. unfold Task.Task.task_replace_address_space. destruct (_ || _); [done|]. by destruct (_ || _). Qed.

End Ids.

Section Life.
Context {W : Type} `{Task.Task.TaskResources W} {A : Type} `{Kmalloc.Kmalloc.Allocator A} {F : Type}.
Context (ops : Vfs.Vfs.backend -> @Vfs.Vfs.vfs_fs_ops F) (ramfs_of : F -> Ramfs.Ramfs.ramfs A).
Context (heap_of : W -> Kmalloc.Kmalloc.heap vmm_state) (put_heap : Kmalloc.Kmalloc.heap vmm_state -> W -> W).

Implicit Types k : kernel (W := W) (F := F).

Definition next_id (k : kernel (W := W) (F := F)) : Z := Task.Task.next_task_id (k_tasks k).

(** The same processes and the same tasks. *)
Definition same_table k k' : Prop :=
  k_processes k' = k_processes k /\ next_id k' = next_id k /\ Task.Task.task_list (k_tasks k') = Task.Task.task_list (k_tasks k) /\
  Task.Task.current_task (k_tasks k') = Task.Task.current_task (k_tasks k).

#[global] Instance same_table_trans : Transitive same_table.
Proof. intros a b c (E1 & E2 & E3 & E4) (E5 & E6 & E7 & E8). split_and!; congruence. Qed.

Lemma same_current k k' : same_table k k' -> current_id k' = current_id k.
Proof. intros (_ & _ & E1 & E2). unfold current_id, Task.Task.task_current_id, Task.Task.current. by rewrite E1, E2. Qed.

Lemma image_of_same path arguments argc k : same_table k (snd (image_of ramfs_of heap_of put_heap path arguments argc k)).
Proof.
  unfold image_of. destruct (create_process_image _ _ _ _ _ _) as [[r i] h]. by destruct r, i.
Qed.

Lemma alloc_launch_same size l k : same_table k (snd (alloc_launch heap_of put_heap size l k)).
Proof. unfold alloc_launch. destruct (Kmalloc.Kmalloc.kmalloc _ _) as [p h]. by destruct (p =? 0). Qed.

Lemma clear_mappings_length regions : alen (clear_mappings regions) = alen regions.
Proof.
  unfold clear_mappings. apply (for_up_ind (fun _ l => alen l = alen regions)); [done|]. intros j l _ E. by rewrite alen_aset.
Qed.

Lemma copy_good c : good_cwd c -> copy_path c = c.
Proof. intros (_ & Hl). unfold copy_path. apply take_ge. unfold alen, Path.Path.FS_PATH_MAX in *. lia. Qed.

Lemma root_good : good_cwd [SLASH].
Proof. split; [exists []; by split; [constructor | left] | done]. Qed.

(** The running task is one of the list, and its id was handed out. *)
Definition scheduled (k : kernel (W := W) (F := F)) : Prop :=
  Task.Task.current_task (k_tasks k) ∈ Task.Task.addresses (Task.Task.task_list (k_tasks k)) /\ 0 <= current_id k < next_id k.

(** The scheduler's own invariant gives it. *)
Lemma scheduled_ok rest k : Task.Task.sched_ok rest (k_tasks k) -> scheduled k.
Proof.
  intros (Hp & _). pose proof (Task.Task.so_current _ _ Hp) as Hc. split; [done|].
  destruct (Task.Task.so_ids _ _ Hp) as (_ & Hid). rewrite Forall_forall in Hid.
  unfold Task.Task.addresses in Hc. apply list_elem_of_fmap in Hc as (t & Et & Hin).
  unfold current_id, Task.Task.task_current_id, Task.Task.current, Task.Task.task_at.
  destruct (list_find _ _) as [[i x]|] eqn:E.
  - apply list_find_Some in E as (E & _). by apply Hid, (list_elem_of_lookup_2 _ i).
  - apply list_find_None in E. rewrite Forall_forall in E. by destruct (E t Hin).
Qed.

Lemma create_current name entry argument space (st : Task.Task.scheduler W) :
  Task.Task.current_task st ∈ Task.Task.addresses (Task.Task.task_list st) ->
  Task.Task.task_current_id (snd (Task.Task.task_create_in_space name entry argument space st)) = Task.Task.task_current_id st.
Proof.
  intros Hin. unfold Task.Task.task_create_in_space. destruct (_ || _); [done|]. destruct (Task.Task.task_alloc _) as [[a|] w]; [|done].
  destruct (Task.Task.stack_alloc _ _) as [[s1|] w1]; [|done]. destruct (Task.Task.stack_alloc _ _) as [[s2|] w2]; [|done].
  destruct (Task.Task.push_words _ _ _). cbn [snd]. unfold Task.Task.task_current_id, Task.Task.current, Task.Task.task_at.
  cbn [Task.Task.task_list Task.Task.current_task]. unfold Task.Task.addresses in Hin. apply list_elem_of_fmap in Hin as (t & Et & Hin).
  destruct (list_find (fun t => Task.Task.t_address t = Task.Task.current_task st) (Task.Task.task_list st)) as [[i x]|] eqn:E.
  - by rewrite (list_find_app_l _ _ _ _ _ E).
  - apply list_find_None in E. rewrite Forall_forall in E. by destruct (E t Hin).
Qed.

(** A new process: its record and the id it returns. *)
Definition created (me : Z) (k : kernel (W := W) (F := F)) (r : Z) (k' : kernel (W := W) (F := F)) : Prop :=
  exists i p, 0 <= i < MAX_PROCESSES /\ p_state (process_at (k_processes k) i) = PROCESS_UNUSED /\ k_processes k' = aset (k_processes k) i p /\
    r = next_id k /\ next_id k' = next_id k + 1 /\ p_state p = PROCESS_RUNNING /\ pid p = next_id k /\ ppid p = me /\ good_cwd (cwd p) /\
    alen (mappings p) = MAX_MMAP_REGIONS.
Definition refused (k : kernel (W := W) (F := F)) (r : Z) (k' : kernel (W := W) (F := F)) : Prop :=
  r < 0 /\ k_processes k' = k_processes k /\ next_id k <= next_id k' <= next_id k + 1.

(** The ids that [int] can hold. *)
Definition ID_LIMIT : Z := 2 ^ 31 - 1.

Lemma refused_same k k' r : same_table k k' -> r < 0 -> refused k r k'.
Proof. intros (E1 & E2 & _ & _) Hr. split; [done|]. rewrite E2. split; [done | lia]. Qed.

Lemma image_error_neg r : image_error r < 0.
Proof. by destruct r. Qed.

Lemma i64_id x : 0 <= x < 2 ^ 31 -> i64 x = x.
Proof. intros Hx. unfold i64. rewrite u64_small by (unfold is_u64; lia). destruct (Z.ltb_spec x (2 ^ 63)); lia. Qed.

Lemma fill_created i id me image k : table_ok (k_processes k) id -> 0 <= i < MAX_PROCESSES -> p_state (process_at (k_processes k) i) = PROCESS_UNUSED ->
  me < id ->
  exists p, k_processes (fill_record i id me image k) = aset (k_processes k) i p /\ p_state p = PROCESS_RUNNING /\ pid p = id /\ ppid p = me /\
    good_cwd (cwd p) /\ alen (mappings p) = MAX_MMAP_REGIONS.
Proof.
  intros Hok Hi Hfree Hme. unfold fill_record. set (record := mk_process id me _ _ _ _ _ _ _ _). cbn [k_processes with_processes].
  set (directory := match find_process _ _ with Some j => _ | None => _ end).
  exists (with_cwd record (copy_path directory)). unfold aset at 1. unfold aset at 1. rewrite list_insert_insert, decide_True by done.
  split; [done|]. split_and!; [done..| |].
  - assert (good_cwd directory) as Hg.
    { subst directory. destruct (find_process (aset (k_processes k) i record) me) as [j|] eqn:E; [|apply root_good].
      apply find_process_Some in E as (Hj & Hu & Hp). rewrite (at_aset _ _ Hok) in * by done.
      case_decide; [exfalso; unfold record in Hp; cbn [pid] in Hp; lia|]. by apply (to_cwd _ _ Hok). }
    cbn [cwd with_cwd]. by rewrite copy_good.
  - cbn [mappings with_cwd record]. rewrite clear_mappings_length. by apply (to_regions _ _ Hok).
Qed.

Lemma same_scheduled k k' : same_table k k' -> scheduled k -> scheduled k'.
Proof.
  intros Hsame (Hin & Hid). unfold scheduled. rewrite (same_current _ _ Hsame). destruct Hsame as (_ & -> & -> & ->). done.
Qed.

Lemma create_new name entry argument space k : 0 <= next_id k < ID_LIMIT -> scheduled k ->
  let '(id, tasks) := Task.Task.task_create_in_space name entry argument space (k_tasks k) in
  current_id (with_tasks k tasks) = current_id k /\
  ((id =? UINT64_MAX) = true /\ next_id (with_tasks k tasks) = next_id k \/
   (id =? UINT64_MAX) = false /\ id = next_id k /\ next_id (with_tasks k tasks) = next_id k + 1).
Proof.
  intros Hn (Hin & _). pose proof (create_id name entry argument space (k_tasks k)) as Hid.
  pose proof (create_current name entry argument space (k_tasks k) Hin) as Hc.
  destruct (Task.Task.task_create_in_space _ _ _ _ _) as [id tasks]. split; [exact Hc|]. unfold next_id, ID_LIMIT in *. cbn [k_tasks with_tasks].
  destruct Hid as [(-> & E)|(-> & E)]; [by left|]. right. rewrite E, u64_small by (unfold is_u64; lia).
  split_and!; [|done..]. apply Z.eqb_neq. unfold UINT64_MAX. lia.
Qed.

Lemma spawn_table path argument k : table_ok (k_processes k) (next_id k) -> 0 <= next_id k < ID_LIMIT -> scheduled k ->
  let '(r, k') := process_spawn_path_args ramfs_of heap_of put_heap path argument k in created (current_id k) k r k' \/ refused k r k'.
Proof.
  intros Hok Hn Hs. unfold process_spawn_path_args. destruct (free_process_record _) as [i|] eqn:Ei; [|right; by apply refused_same].
  apply free_record_Some in Ei as (Hi & Hfree). destruct (split_arguments _ _ _) as [words|]; [|right; by apply refused_same].
  pose proof (image_of_same path (Some (path :: (Some <$> words))) (alen (path :: (Some <$> words))) k) as H1.
  destruct (image_of _ _ _ _ _ _ _) as [[result [image|]] k1]; cbn [snd] in H1; [|right; apply refused_same; [done | apply image_error_neg]].
  pose proof (alloc_launch_same LAUNCH_SIZE (ProcessLaunch (i_entry image) (i_stack_pointer image) (i_argc image) (i_argv image)) k1) as H2.
  destruct (alloc_launch _ _ _ _ k1) as [[l|] k2]; cbn [snd] in H2; [|right; by apply refused_same; [transitivity k1|]].
  assert (Hsame : same_table k k2) by (by transitivity k1). pose proof (same_current _ _ Hsame) as Hcur.
  pose proof (create_new USER_HELLO_NAME USER_PROCESS_TASK l (VmmSpace.VmmSpace.sp_pointer (i_space image)) k2) as H3.
  pose proof (same_scheduled _ _ Hsame Hs) as Hs2. destruct Hsame as (E1 & E2 & _). rewrite E2 in H3. specialize (H3 Hn Hs2).
  destruct (Task.Task.task_create_in_space _ _ _ _ _) as [id tasks]. destruct H3 as (Hc & [(-> & E)|(-> & -> & E)]).
  - right. split; [done|]. split; [exact E1|]. unfold next_id in *. cbn in E |- *. lia.
  - left. rewrite Hc, Hcur. pose proof (fill_created i (next_id k) (current_id k) image (with_tasks k2 tasks)) as Hf. cbn [k_processes with_tasks] in Hf.
    rewrite E1 in Hf. destruct (Hf Hok Hi Hfree ltac:(apply Hs)) as (p & Ep & Hp). exists i, p. rewrite i64_id by (unfold ID_LIMIT in *; lia).
    split_and!; [lia | lia | done | exact Ep | done | exact E | apply Hp..].
Qed.

Lemma fork_table frame now sp k : table_ok (k_processes k) (next_id k) -> 0 <= next_id k < ID_LIMIT -> scheduled k ->
  let '(r, k') := process_fork heap_of put_heap frame now sp k in created (current_id k) k r k' \/ refused k r k'.
Proof.
  intros Hok Hn Hs. unfold process_fork. destruct frame as [frame|]; [|right; by apply refused_same].
  destruct (running (k_processes k) (current_id k)) as [[[j parent] space]|] eqn:Er; [|right; by apply refused_same].
  destruct (free_process_record _) as [i|] eqn:Ei; [|right; by apply refused_same].
  apply free_record_Some in Ei as (Hi & Hfree).
  pose proof (alloc_launch_same FORK_LAUNCH_SIZE (ForkLaunch (with_rax frame 0)) k) as Hsame.
  destruct (alloc_launch _ _ _ _ k) as [[l|] k2]; cbn [snd] in Hsame; [|right; by apply refused_same].
  destruct (VmmSpace.VmmSpace.vmm_space_clone_cow _ _) as [[o|] h]; [|right; by apply refused_same].
  set (k3 := with_spaces (with_heap put_heap k2 h) _). assert (Hsame3 : same_table k k3) by exact Hsame. clearbody k3.
  pose proof (create_new FORK_NAME FORKED_PROCESS_TASK l (VmmSpace.VmmSpace.sp_pointer o) k3) as H3.
  pose proof (same_scheduled _ _ Hsame3 Hs) as Hs2. destruct Hsame3 as (E1 & E2 & _). rewrite E2 in H3. specialize (H3 Hn Hs2).
  destruct (Task.Task.task_create_in_space _ _ _ _ _) as [id tasks]. destruct H3 as (_ & [(-> & E)|(-> & -> & E)]).
  { right. split; [done|]. split; [exact E1|]. unfold next_id in *. cbn in E |- *. lia. }
  destruct (Vfs.Vfs.vfs_fork _ _ _) as [[|] files]; cbn [negb].
  - left. destruct (running_parent _ _ _ _ _ Er) as (Hj & Hu & Hp & ->).
    exists i, (fork_record (process_at (k_processes k) j) (next_id k) (VmmSpace.VmmSpace.sp_pml4 o)). rewrite i64_id by (unfold ID_LIMIT in *; lia).
    split_and!; [lia | lia | done | by cbn; rewrite E1 | done | exact E | done | done | exact Hp | by apply (to_cwd _ _ Hok) | by apply (to_regions _ _ Hok)].
  - right. split; [done|]. split; [exact E1|]. unfold next_id in *. cbn [k_tasks with_tasks free_launch with_heap] in *.
    rewrite yield_id. cbn. rewrite cancel_id. cbn in E. lia.
Qed.

(** A store over the record of a process that keeps who it is. *)
Definition revised k id i p k' : Prop :=
  find_process (k_processes k) id = Some i /\ k_processes k' = aset (k_processes k) i p /\ next_id k' = next_id k /\
  used p /\ pid p = id /\ ppid p = ppid (process_at (k_processes k) i) /\ good_cwd (cwd p) /\ alen (mappings p) = MAX_MMAP_REGIONS.

Lemma revised_ok k id i p k' : table_ok (k_processes k) (next_id k) -> revised k id i p k' ->
  table_ok (k_processes k') (next_id k') /\
  (forall x, entry_of (k_processes k') x = if decide (x = id) then Some (ppid p, status_of p) else entry_of (k_processes k) x) /\
  (forall x j, find_process (k_processes k) x = Some j -> find_process (k_processes k') x = Some j /\
     ppid (process_at (k_processes k') j) = ppid (process_at (k_processes k) j)).
Proof.
  intros Hok (Hf & -> & -> & Hu & Hp & Hpp & Hc & Hm). apply find_process_Some in Hf as (Hi & Hui & Hpi).
  assert (Hok' : table_ok (aset (k_processes k) i p) (next_id k)).
  { apply (table_store _ (next_id k)); [done | done | lia | done |]. intros _. split; [rewrite Hp, <- Hpi; by apply (to_ids _ _ Hok)|].
    split; [done|]. intros j Hj Hne Huj E. apply Hne, (to_distinct _ _ Hok); [done..|]. congruence. }
  split; [done|]. split.
  - intros x. rewrite (entry_store _ _ Hok i p (next_id k)) by done.
    destruct (decide (x = id)) as [->|Hx]; [by rewrite decide_True|]. by rewrite !decide_False by (intros (_ & ?); congruence).
  - intros x j (Hj & Huj & Hpj)%find_process_Some. split.
    + apply (find_process_used _ (next_id k)); [done | done | |]; rewrite (at_aset _ _ Hok) by done; case_decide; congruence.
    + rewrite (at_aset _ _ Hok) by done. case_decide; [by subst j|done].
Qed.

Lemma exec_table path arguments argc k : table_ok (k_processes k) (next_id k) ->
  let '(r, k') := process_exec_path_args ramfs_of heap_of put_heap path arguments argc k in
  match r with
  | inl e => e < 0 /\ k_processes k' = k_processes k /\ next_id k' = next_id k
  | inr _ => exists i p, revised k (current_id k) i p k' /\ status_of p = None /\ status_of (process_at (k_processes k) i) = None
  end.
Proof.
  intros Hok. unfold process_exec_path_args. destruct (find_process _ _) as [i|] eqn:Ei; [|done].
  pose proof (find_process_Some _ _ _ Ei) as (Hi & Hu & Hp).
  destruct (bool_decide_reflect (p_state (process_at (k_processes k) i) = PROCESS_RUNNING)) as [Hrun|]; cbn [negb]; [|done].
  pose proof (image_of_same path arguments argc k) as (E1 & E2 & _ & _).
  destruct (image_of _ _ _ _ _ _ _) as [[result [image|]] k1]; cbn [snd] in *; [|split; [apply image_error_neg | done]].
  pose proof (replace_id (VmmSpace.VmmSpace.sp_pointer (i_space image)) (k_tasks k1)) as E3.
  destruct (Task.Task.task_replace_address_space _ _) as [old tasks]. cbn [snd] in E3. unfold next_id in *.
  destruct (old =? 0); [split_and!; [done | done | cbn; congruence]|]. cbn [with_tasks k_processes]. rewrite E1.
  set (p := mk_process _ _ _ _ _ _ _ _ _ _). exists i, p. split; [|unfold status_of, p; cbn [p_state]; by rewrite Hrun].
  unfold revised. split; [done|]. split; [done|]. split; [unfold next_id; cbn; congruence|].
  unfold p, used. cbn [p_state pid ppid cwd mappings]. rewrite clear_mappings_length.
  split; [done|]. split; [done|]. split; [done|]. split; [by apply (to_cwd _ _ Hok) | by apply (to_regions _ _ Hok)].
Qed.

Lemma exit_table status now sp k : table_ok (k_processes k) (next_id k) ->
  let k' := process_exit_current status now sp k in
  (find_process (k_processes k) (current_id k) = None /\ k_processes k' = k_processes k /\ next_id k' = next_id k) \/
  exists i p, revised k (current_id k) i p k' /\ status_of p = Some status.
Proof.
  intros Hok. unfold process_exit_current. change (current_id (with_vfs k _)) with (current_id k). cbn [k_processes with_vfs].
  destruct (find_process _ _) as [i|] eqn:Ei.
  - right. exists i, (with_life (process_at (k_processes k) i) PROCESS_ZOMBIE status). split; [|done].
    pose proof (find_process_Some _ _ _ Ei) as (Hi & Hu & Hp). unfold revised.
    split_and!; [done | done | unfold next_id; cbn [k_tasks with_tasks]; by rewrite exit_id | done | done | done | by apply (to_cwd _ _ Hok)..| by apply (to_regions _ _ Hok)].
  - left. split_and!; [done | done |]. unfold next_id. cbn [k_tasks with_tasks]. by rewrite exit_id.
Qed.

Lemma chdir_resolve directory path : chdir_path directory path = Path.Path.resolve_path (Some directory) (Some path) true Path.Path.FS_PATH_MAX.
Proof. unfold chdir_path, Path.Path.resolve_path. cbn [negb orb]. by destruct (ch path 0 =? SLASH). Qed.

Lemma chdir_good directory path c : good_cwd directory -> chdir_path directory path = Some c -> good_cwd c.
Proof.
  intros ((st & Hst) & Hl). rewrite chdir_resolve. intros E.
  pose proof (Path.Path.resolve_path_spec directory path Path.Path.FS_PATH_MAX st Hst Hl ltac:(by vm_compute)) as Hr.
  rewrite E in Hr. destruct Hr as (Hn & Hl'). split; [by eexists | done].
Qed.

Lemma chdir_table path k : table_ok (k_processes k) (next_id k) ->
  let '(r, k') := process_chdir ops path k in
  if r then exists i p, revised k (current_id k) i p k' /\ status_of p = status_of (process_at (k_processes k) i)
  else k_processes k' = k_processes k /\ next_id k' = next_id k.
Proof.
  intros Hok. unfold process_chdir. destruct (find_process _ _) as [i|] eqn:Ei; [|done]. destruct path as [path|]; [|done].
  pose proof (find_process_Some _ _ _ Ei) as (Hi & Hu & Hp). destruct (chdir_path _ _) as [c|] eqn:Ec; [|done].
  assert (Hc : good_cwd c) by (eapply chdir_good; [by apply (to_cwd _ _ Hok)|exact Ec]).
  destruct (Vfs.Vfs.vfs_is_directory _ _ _ _) as [[|] files]; [|done]. cbn [negb].
  exists i, (with_cwd (process_at (k_processes k) i) (copy_path c)). split; [|done]. rewrite (copy_good c Hc). unfold revised.
  split_and!; [done | done | done | done | done | done | apply Hc..| by apply (to_regions _ _ Hok)].
Qed.

(** ** Calls and their interleaving *)

Inductive life_call :=
  | CallSpawn (path argument : option cstr)
  | CallFork (frame : option syscall_frame) (now sp : Z)
  | CallExec (path : option cstr) (arguments : option (list (option cstr))) (argc : Z)
  | CallExit (status now sp : Z)
  | CallWait (id : Z)
  | CallChdir (path : option cstr).

Inductive outcome := Returned (r : Z) | Entered (u : user_start) | Blocked (slot : Z) | Reaped (id status : Z) | Gone.

Definition wait_outcome (r : wait_result) : outcome :=
  match r with WaitError => Returned (-1) | WaitMore slot => Blocked slot | WaitDone id status => Reaped id status end.

Definition do_call (c : life_call) k : outcome * kernel (W := W) (F := F) :=
  match c with
  | CallSpawn path argument => let '(r, k) := process_spawn_path_args ramfs_of heap_of put_heap path argument k in (Returned r, k)
  | CallFork frame now sp => let '(r, k) := process_fork heap_of put_heap frame now sp k in (Returned r, k)
  | CallExec path arguments argc =>
      let '(r, k) := process_exec_path_args ramfs_of heap_of put_heap path arguments argc k in
      (match r with inl e => Returned e | inr u => Entered u end, k)
  | CallExit status now sp => (Gone, process_exit_current status now sp k)
  | CallWait id => let '(r, k) := process_waitpid id k in (wait_outcome r, k)
  | CallChdir path => let '(r, k) := process_chdir ops path k in (Returned (if r then 1 else 0), k)
  end.

(** The tasks inside the loop of waitpid: the process and the record. *)
Definition waits : Type := gmap Z (Z * Z).
Definition block (me : Z) (c : life_call) (o : outcome) (ws : waits) : waits :=
  match c, o with CallWait id, Blocked slot => <[me := (id, slot)]> ws | _, _ => ws end.

(** What the rest of the kernel may do between two calls: run other tasks, hand
    out ids, change the memory of a process. *)
Definition quiet k k' : Prop :=
  alen (k_processes k') = alen (k_processes k) /\ next_id k <= next_id k' <= ID_LIMIT /\
  forall i, 0 <= i < MAX_PROCESSES -> life (process_at (k_processes k') i) = life (process_at (k_processes k) i) /\
    cwd (process_at (k_processes k') i) = cwd (process_at (k_processes k) i) /\
    alen (mappings (process_at (k_processes k') i)) = alen (mappings (process_at (k_processes k) i)).

Inductive life_step : kernel (W := W) (F := F) * waits -> option (Z * life_call * outcome) -> kernel (W := W) (F := F) * waits -> Prop :=
| step_call k ws c o k' : scheduled k -> next_id k < ID_LIMIT -> ws !! current_id k = None -> do_call c k = (o, k') ->
    life_step (k, ws) (Some (current_id k, c, o)) (k', block (current_id k) c o ws)
| step_look k ws id slot r k' : scheduled k -> ws !! current_id k = Some (id, slot) -> wait_pass id slot k = (r, k') ->
    life_step (k, ws) (Some (current_id k, CallWait id, wait_outcome r))
      (k', match r with WaitMore _ => ws | _ => delete (current_id k) ws end)
| step_quiet k ws k' : quiet k k' -> life_step (k, ws) None (k', ws).

Inductive life_run : kernel (W := W) (F := F) * waits -> list (Z * life_call * outcome) -> kernel (W := W) (F := F) * waits -> Prop :=
| run_start c : life_run c [] c
| run_more c tr c1 e c2 : life_run c tr c1 -> life_step c1 e c2 -> life_run c (tr ++ option_list e) c2.

(** ** The specification *)

(** The processes, and a bound of the ids handed out. *)
Definition life_spec_state : Type := gmap Z (Z * option Z) * Z.

Definition life_spec (me : Z) (c : life_call) (o : outcome) (a a' : life_spec_state) : Prop :=
  let '(T, bound) := a in
  let '(T', bound') := a' in
  match c with
  | CallSpawn _ _ | CallFork _ _ _ =>
      (exists e, o = Returned e /\ e < 0 /\ T' = T /\ bound <= bound') \/
      (exists id, o = Returned id /\ bound <= id < bound' /\ T !! id = None /\ T' = <[id := (me, None)]> T)
  | CallExec _ _ _ => ((exists e, o = Returned e /\ e < 0) \/ (exists u, o = Entered u)) /\ T' = T /\ bound' = bound
  | CallExit status _ _ => o = Gone /\ T' = alter (fun '(parent, _) => (parent, Some status)) me T /\ bound' = bound
  | CallWait id =>
      bound' = bound /\
      match T !! id with
      | Some (parent, status) =>
          if decide (parent = me) then
            match status with
            | Some status => o = Reaped id status /\ T' = delete id T
            | None => (exists slot, o = Blocked slot) /\ T' = T
            end
          else o = Returned (-1) /\ T' = T
      | None => o = Returned (-1) /\ T' = T
      end
  | CallChdir _ => (exists r, o = Returned r) /\ T' = T /\ bound' = bound
  end.

Inductive life_spec_run : life_spec_state -> list (Z * life_call * outcome) -> life_spec_state -> Prop :=
| spec_start a : life_spec_run a [] a
| spec_call a tr a1 me c o a2 : life_spec_run a tr a1 -> life_spec me c o a1 a2 -> life_spec_run a (tr ++ [(me, c, o)]) a2
| spec_ids a tr T bound bound' : life_spec_run a tr (T, bound) -> bound <= bound' -> life_spec_run a tr (T, bound').


(** ** Refinement *)

Definition waits_ok (processes : list process_record) (ws : gmap Z (Z * Z)) : Prop :=
  forall me id slot, ws !! me = Some (id, slot) -> find_process processes id = Some slot /\ ppid (process_at processes slot) = me.

Record life_inv k (ws : gmap Z (Z * Z)) (T : gmap Z (Z * option Z)) : Prop := {
  li_table : table_ok (k_processes k) (next_id k);
  li_next : 0 <= next_id k <= ID_LIMIT;
  li_represents : represents (k_processes k) T;
  li_waits : waits_ok (k_processes k) ws;
}.

Lemma inv_same k k' ws T : life_inv k ws T -> k_processes k' = k_processes k -> next_id k <= next_id k' <= ID_LIMIT -> life_inv k' ws T.
Proof.
  intros [Ht Hn Hr Hw] E Hn'. split; rewrite ?E; [|lia|done|done]. destruct Ht as [H1 H2 H3 H4 H5]. split; [done | | done | done | done].
  intros i Hi Hu. specialize (H2 i Hi Hu). lia.
Qed.

Lemma inv_revised k ws T id i p k' : life_inv k ws T -> revised k id i p k' ->
  life_inv k' ws (<[id := (ppid p, status_of p)]> T).
Proof.
  intros [Ht Hn Hr Hw] Hrev. destruct (revised_ok _ _ _ _ _ Ht Hrev) as (Ht' & He & Hf). split; [done | | |].
  - destruct Hrev as (_ & _ & -> & _). done.
  - intros x. rewrite He. destruct (decide (x = id)) as [->|Hne]; [by rewrite lookup_insert_eq|]. by rewrite lookup_insert_ne.
  - intros me x slot Hx. destruct (Hw _ _ _ Hx) as (H1 & H2). destruct (Hf _ _ H1) as (H3 & ->). done.
Qed.

Lemma revised_entry k T id i p k' : represents (k_processes k) T -> revised k id i p k' ->
  T !! id = Some (ppid p, status_of (process_at (k_processes k) i)).
Proof. intros Hr (Hf & _ & _ & _ & _ & Hpp & _). rewrite Hr. unfold entry_of. by rewrite Hf, Hpp. Qed.

Lemma inv_created me k ws T r k' : life_inv k ws T -> next_id k < ID_LIMIT -> created me k r k' ->
  life_inv k' ws (<[r := (me, None)]> T) /\ T !! r = None /\ next_id k <= r < next_id k'.
Proof.
  intros [Ht Hn Hr Hw] Hlt (i & p & Hi & Hfree & E & -> & En & Hs & Hp & Hpp & Hc & Hm).
  assert (Hfresh : forall j, 0 <= j < MAX_PROCESSES -> used (process_at (k_processes k) j) -> pid (process_at (k_processes k) j) <> next_id k).
  { intros j Hj Hu. pose proof (to_ids _ _ Ht j Hj Hu). lia. }
  assert (Ht' : table_ok (k_processes k') (next_id k')).
  { rewrite E. apply (table_store _ (next_id k)); [done | done | lia | done |]. intros _. split; [lia|]. split; [done|].
    intros j Hj _ Hu. rewrite Hp. by apply Hfresh. }
  assert (Hnone : entry_of (k_processes k) (next_id k) = None).
  { unfold entry_of. destruct (find_process _ _) eqn:Ef; [|done]. exfalso. apply find_process_Some in Ef as (Hj & Hu & Hpj). by apply (Hfresh _ Hj). }
  split; [|split; [by rewrite Hr | lia]]. split; [done | lia | |].
  - intros x. rewrite E, (entry_store _ _ Ht i p (next_id k')) by (done || by rewrite <- E). unfold used. rewrite Hs, Hp, Hpp, Hfree.
    unfold status_of. rewrite Hs. destruct (decide (next_id k = x)) as [->|Hne].
    + by rewrite lookup_insert_eq, decide_True.
    + rewrite lookup_insert_ne by done. rewrite (decide_False (P := _ /\ next_id k = x)) by (intros (_ & ?); done).
      rewrite decide_False by (intros (? & _); done). apply Hr.
  - intros w x slot Hx. destruct (Hw _ _ _ Hx) as (H1 & H2). pose proof (find_process_Some _ _ _ H1) as (Hsl & Hu & Hpx).
    assert (i <> slot) by (intros ->; done). rewrite E. split.
    + apply (find_process_used _ (next_id k')); [by rewrite <- E | done | |]; rewrite (at_aset _ _ Ht) by done; by rewrite decide_False.
    + rewrite (at_aset _ _ Ht) by done. by rewrite decide_False.
Qed.

(** The record of a process that has been waited for. *)
Lemma pass_ok k ws T id slot me : life_inv k ws T -> find_process (k_processes k) id = Some slot ->
  ppid (process_at (k_processes k) slot) = me ->
  let '(r, k') := wait_pass id slot k in
  match r with
  | WaitDone id' status => id' = id /\ T !! id = Some (me, Some status) /\ next_id k' = next_id k /\ life_inv k' (delete me ws) (delete id T)
  | WaitMore slot' => slot' = slot /\ T !! id = Some (me, None) /\ k' = k
  | WaitError => False
  end.
Proof.
  intros [Ht Hn Hr Hw] Hf Hpp. pose proof (find_process_Some _ _ _ Hf) as (Hi & Hu & Hp). unfold wait_pass.
  assert (HT : T !! id = Some (me, status_of (process_at (k_processes k) slot))) by (rewrite Hr; unfold entry_of; by rewrite Hf, Hpp).
  unfold status_of in HT. destruct (bool_decide_reflect (p_state (process_at (k_processes k) slot) = PROCESS_ZOMBIE)) as [Hz|]; cbn [negb]; [|done].
  pose proof (to_ids _ _ Ht slot Hi Hu) as Hid. rewrite Hp in Hid. split.
  { unfold to_int, ID_LIMIT in *. rewrite Z.mod_small by lia. destruct (Z.ltb_spec id (2 ^ 31)); lia. }
  split; [done|]. split; [done|]. set (p := with_life _ _ _). assert (Hnp : ~ used p) by (by intros []).
  assert (Ht' : table_ok (aset (k_processes k) slot p) (next_id k)).
  { apply (table_store _ (next_id k)); [done | done | lia | by apply (to_regions _ _ Ht) | done]. }
  split; [done | done | |]; cbn [k_processes with_processes].
  - intros x. rewrite (entry_store _ _ Ht slot p (next_id k)) by done. rewrite decide_False by (by intros (? & _)).
    rewrite Hp. destruct (decide (id = x)) as [->|Hne]; [by rewrite lookup_delete_eq, decide_True|].
    rewrite lookup_delete_ne by done. by rewrite decide_False by (by intros (_ & ?)).
  - intros w x s Hx. destruct (decide (w = me)) as [->|Hwne]; [by rewrite lookup_delete_eq in Hx|]. rewrite lookup_delete_ne in Hx by done.
    destruct (Hw _ _ _ Hx) as (H1 & H2). pose proof (find_process_Some _ _ _ H1) as (Hsl & Hus & Hpx).
    assert (slot <> s) by (intros ->; congruence). split.
    + apply (find_process_used _ (next_id k)); [done | done | |]; rewrite (at_aset _ _ Ht) by done; by rewrite decide_False.
    + rewrite (at_aset _ _ Ht) by done. by rewrite decide_False.
Qed.


Lemma inv_unwait k ws T me : life_inv k ws T -> life_inv k (delete me ws) T.
Proof.
  intros [Ht Hn Hr Hw]. split; [done..|]. intros w x s Hx. apply lookup_delete_Some in Hx as (_ & Hx). by apply Hw.
Qed.

Lemma wait_ok k ws T id : life_inv k ws T -> ws !! current_id k = None ->
  let '(r, k') := process_waitpid id k in
  exists T', life_spec (current_id k) (CallWait id) (wait_outcome r) (T, next_id k) (T', next_id k') /\
    life_inv k' (block (current_id k) (CallWait id) (wait_outcome r) ws) T'.
Proof.
  intros Hinv Hws. pose proof (li_represents _ _ _ Hinv id) as HT. unfold process_waitpid, life_spec. unfold entry_of in HT.
  destruct (find_process (k_processes k) id) as [slot|] eqn:Ef; [|exists T; rewrite HT; done].
  destruct (Z.eqb_spec (ppid (process_at (k_processes k) slot)) (current_id k)) as [Hpp|Hpp]; cbn [negb];
    [|exists T; rewrite HT, decide_False by done; done].
  pose proof (pass_ok _ _ _ id slot (current_id k) Hinv Ef Hpp) as Hp.
  destruct (wait_pass id slot k) as [[|s|x status] k']; [done| |]; cbn [wait_outcome block].
  - destruct Hp as (-> & E & ->). exists T. rewrite E, decide_True by done. split; [by eauto|]. destruct Hinv as [Ht Hn Hr Hw]. split; [done..|].
    intros w x s Hx. apply lookup_insert_Some in Hx as [(<- & [= <- <-])|(_ & Hx)]; [done | by apply Hw].
  - destruct Hp as (-> & E & En & Hi). exists (delete id T). rewrite E, decide_True by done. split; [done|]. by rewrite delete_id in Hi.
Qed.

Lemma call_ok c k ws T : life_inv k ws T -> scheduled k -> next_id k < ID_LIMIT -> ws !! current_id k = None ->
  let '(o, k') := do_call c k in
  exists T', life_spec (current_id k) c o (T, next_id k) (T', next_id k') /\ life_inv k' (block (current_id k) c o ws) T'.
Proof.
  intros Hinv Hs Hlt Hws. pose proof (li_table _ _ _ Hinv) as Ht. pose proof (li_next _ _ _ Hinv) as Hn.
  destruct c as [path argument|frame now sp|path arguments argc|status now sp|id|path]; cbn [do_call block life_spec].
  - pose proof (spawn_table path argument k Ht ltac:(lia) Hs) as Hc. destruct (process_spawn_path_args _ _ _ _ _ _) as [r k'].
    destruct Hc as [Hc|(Hr & E & Hn')]; [|exists T; split; [left; exists r; split_and!; done || lia | apply (inv_same k); [done | done | lia]]].
    destruct (inv_created _ _ _ _ _ _ Hinv Hlt Hc) as (Hi & Hnone & Hb). eexists. split; [right; by exists r | done].
  - pose proof (fork_table frame now sp k Ht ltac:(lia) Hs) as Hc. destruct (process_fork _ _ _ _ _ _) as [r k'].
    destruct Hc as [Hc|(Hr & E & Hn')]; [|exists T; split; [left; exists r; split_and!; done || lia | apply (inv_same k); [done | done | lia]]].
    destruct (inv_created _ _ _ _ _ _ Hinv Hlt Hc) as (Hi & Hnone & Hb). eexists. split; [right; by exists r | done].
  - pose proof (exec_table path arguments argc k Ht) as Hc. destruct (process_exec_path_args _ _ _ _ _ _ _) as [[e|u] k'].
    + destruct Hc as (He & E & En). exists T. split; [split; [left; by exists e | done] | apply (inv_same k); [done | done | lia]].
    + destruct Hc as (i & p & Hrev & Hs1 & Hs2). exists T. split; [split; [right; by exists u | split; [done | apply Hrev]]|].
      pose proof (inv_revised _ _ _ _ _ _ _ Hinv Hrev) as Hi. pose proof (revised_entry _ _ _ _ _ _ (li_represents _ _ _ Hinv) Hrev) as He.
      rewrite Hs2, <- Hs1 in He. by rewrite insert_id in Hi.
  - pose proof (exit_table status now sp k Ht) as Hc. destruct Hc as [(Hf & E & En)|(i & p & Hrev & Hst)].
    + exists T. split; [|apply (inv_same k); [done | done | lia]]. split_and!; [done | | done].
      symmetry. apply alter_id. intros x Hx. rewrite (li_represents _ _ _ Hinv) in Hx. unfold entry_of in Hx. by rewrite Hf in Hx.
    + pose proof (inv_revised _ _ _ _ _ _ _ Hinv Hrev) as Hi. pose proof (revised_entry _ _ _ _ _ _ (li_represents _ _ _ Hinv) Hrev) as He.
      eexists. split; [|exact Hi]. split_and!; [done | | apply Hrev]. apply map_eq. intros x.
      destruct (decide (x = current_id k)) as [->|]; [by rewrite lookup_insert_eq, lookup_alter_eq, He, Hst | by rewrite lookup_insert_ne, lookup_alter_ne].
  - pose proof (wait_ok k ws T id Hinv Hws) as Hw. by destruct (process_waitpid id k) as [r k'].
  - pose proof (chdir_table path k Ht) as Hc. destruct (process_chdir _ _ _) as [[|] k'].
    + destruct Hc as (i & p & Hrev & Hst). exists T. split; [split; [by eauto | split; [done | apply Hrev]]|].
      pose proof (inv_revised _ _ _ _ _ _ _ Hinv Hrev) as Hi. pose proof (revised_entry _ _ _ _ _ _ (li_represents _ _ _ Hinv) Hrev) as He.
      rewrite <- Hst in He. by rewrite insert_id in Hi.
    + destruct Hc as (E & En). exists T. split; [split; [by eauto | done]|]. apply (inv_same k); [done | done | lia].
Qed.


Lemma quiet_ok k ws T k' : life_inv k ws T -> quiet k k' -> life_inv k' ws T.
Proof.
  intros [Ht Hn Hr Hw] (El & En & Hq).
  assert (Hl : forall i, 0 <= i < MAX_PROCESSES -> p_state (process_at (k_processes k') i) = p_state (process_at (k_processes k) i) /\
    pid (process_at (k_processes k') i) = pid (process_at (k_processes k) i) /\ ppid (process_at (k_processes k') i) = ppid (process_at (k_processes k) i) /\
    exit_status (process_at (k_processes k') i) = exit_status (process_at (k_processes k) i)).
  { intros i Hi. destruct (Hq i Hi) as ([= ? ? ? ?] & _). done. }
  assert (Hf : forall x, find_process (k_processes k') x = find_process (k_processes k) x).
  { intros x. apply find_up_ext. intros i Hi. destruct (Hl i Hi) as (-> & -> & _). done. }
  assert (Hu : forall i, 0 <= i < MAX_PROCESSES -> used (process_at (k_processes k') i) -> used (process_at (k_processes k) i)).
  { intros i Hi. unfold used. by destruct (Hl i Hi) as (-> & _). }
  split; [| lia | |].
  - destruct Ht as [H1 H2 H3 H4 H5]. split; [congruence | | | |].
    + intros i Hi Hui. destruct (Hl i Hi) as (_ & -> & _). specialize (H2 i Hi (Hu i Hi Hui)). lia.
    + intros i j Hi Hj Hui Huj. destruct (Hl i Hi) as (_ & -> & _), (Hl j Hj) as (_ & -> & _). apply H3; auto.
    + intros i Hi Hui. destruct (Hq i Hi) as (_ & -> & _). auto.
    + intros i Hi. destruct (Hq i Hi) as (_ & _ & ->). auto.
  - intros x. rewrite Hr. unfold entry_of. rewrite Hf. destruct (find_process _ x) as [i|] eqn:E; [|done].
    apply find_process_Some in E as (Hi & _). destruct (Hl i Hi) as (E1 & _ & E3 & E4). unfold status_of. by rewrite E1, E3, E4.
  - intros me x slot Hx. rewrite Hf. destruct (Hw _ _ _ Hx) as (H1 & H2). split; [done|].
    apply find_process_Some in H1 as (Hi & _). by destruct (Hl slot Hi) as (_ & _ & -> & _).
Qed.

Lemma life_run_ok k0 ws0 T0 tr k ws : life_inv k0 ws0 T0 -> life_run (k0, ws0) tr (k, ws) ->
  exists T, life_spec_run (T0, next_id k0) tr (T, next_id k) /\ life_inv k ws T.
Proof.
  intros Hinv Hrun. remember (k0, ws0) as c0 eqn:E0. remember (k, ws) as c eqn:E. revert k ws E.
  induction Hrun as [c|c tr c1 e c2 Hrun IH Hstep]; intros k ws E; subst.
  { simplify_eq. exists T0. split; [constructor | done]. }
  destruct c1 as [k1 ws1]. destruct (IH eq_refl k1 ws1 eq_refl) as (T & Hs & Hi). inversion Hstep; subst; cbn [option_list].
  - pose proof (call_ok c k1 ws1 T Hi ltac:(done) ltac:(done) ltac:(done)) as Hc. destruct (do_call c k1) as [o' k'] eqn:Ed. simplify_eq.
    destruct Hc as (T' & Hsp & Hi'). exists T'. split; [by eapply spec_call | done].
  - match goal with Hw : ws1 !! _ = Some (?id, ?slot) |- _ => destruct (li_waits _ _ _ Hi _ _ _ Hw) as (Hf & Hpp);
      pose proof (pass_ok _ _ _ id slot _ Hi Hf Hpp) as Hp end.
    match goal with Ew : wait_pass _ _ _ = _ |- _ => rewrite Ew in Hp end.
    destruct r as [|s|x status]; [done| |].
    + destruct Hp as (-> & E & ->). exists T. split; [|done]. eapply spec_call; [exact Hs|]. cbn. rewrite E, decide_True by done. eauto.
    + destruct Hp as (-> & E & En & Hi'). exists (delete id T). split; [|done]. eapply spec_call; [exact Hs|]. cbn. rewrite E, decide_True by done. done.
  - rewrite app_nil_r. exists T. split; [|by eapply quiet_ok]. eapply spec_ids; [exact Hs|].
    match goal with Hq : quiet _ _ |- _ => apply Hq end.
Qed.

(** ** The table at boot *)

Definition booted k : Prop :=
  k_processes k = replicate (Z.to_nat MAX_PROCESSES) (mk_process 0 0 PROCESS_UNUSED 0 None 0 0 0 [] (replicate (Z.to_nat MAX_MMAP_REGIONS) no_region)) /\
  0 <= next_id k <= ID_LIMIT.

Lemma booted_inv k : booted k -> life_inv k ∅ ∅.
Proof.
  intros (E & Hn).
  assert (Hall : forall i, 0 <= i < MAX_PROCESSES -> process_at (k_processes k) i =
    mk_process 0 0 PROCESS_UNUSED 0 None 0 0 0 [] (replicate (Z.to_nat MAX_MMAP_REGIONS) no_region)).
  { intros i Hi. unfold process_at, aget. rewrite E, lookup_replicate_2; [done | unfold MAX_PROCESSES in *; lia]. }
  assert (Hno : forall i, 0 <= i < MAX_PROCESSES -> ~ used (process_at (k_processes k) i)) by (intros i Hi; rewrite Hall by done; by intros []).
  split; [|done| |].
  - split; [by rewrite E | | | |].
    + intros i Hi Hu. by destruct (Hno i Hi).
    + intros i j Hi _ Hu. by destruct (Hno i Hi).
    + intros i Hi Hu. by destruct (Hno i Hi).
    + intros i Hi. by rewrite Hall.
  - intros x. rewrite lookup_empty. unfold entry_of. destruct (find_process _ x) as [i|] eqn:Ef; [|done].
    apply find_process_Some in Ef as (Hi & Hu & _). by destruct (Hno i Hi).
  - intros me x s Hx. by rewrite lookup_empty in Hx.
Qed.

(** C15 The process table implements the map of processes.  In every
    interleaving of spawn, fork, exec, exit, waitpid and chdir by the tasks of
    the system, spawn and fork return an id that was never handed out before
    and enter it with its parent, exec and chdir change nothing, exit records
    the status, and waitpid refuses a process that is not a child of the
    caller, waits for one that runs, and returns the id and status of one that
    has exited, once: the process is then gone. *)
Theorem lifecycle_refines k0 tr k ws : booted k0 -> life_run (k0, ∅) tr (k, ws) ->
  exists T, life_spec_run (∅, next_id k0) tr (T, next_id k) /\ represents (k_processes k) T.
Proof.
  intros Hb Hrun. destruct (life_run_ok _ _ _ _ _ _ (booted_inv _ Hb) Hrun) as (T & Hs & Hi). exists T. split; [done | apply Hi].
Qed.


End Life.


(** ** A machine *)

#[local] Existing Instance Task.Task.pool_resources.
#[local] Existing Instance Kmalloc.Kmalloc.heap_allocator.

(** The pool of [Task] next to the heap. *)
#[local] Instance machine_resources : Task.Task.TaskResources (Task.Task.pool * Kmalloc.Kmalloc.heap vmm_state).
Proof.
  refine {|
    Task.Task.task_alloc w := let '(a, p) := Task.Task.task_alloc (fst w) in (a, (p, snd w));
    Task.Task.task_free a w := (Task.Task.task_free a (fst w), snd w);
    Task.Task.stack_alloc n w := let '(s, p) := Task.Task.stack_alloc n (fst w) in (s, (p, snd w));
    Task.Task.stack_free s w := (Task.Task.stack_free s (fst w), snd w);
    Task.Task.space_destroy s w := (Task.Task.space_destroy s (fst w), snd w);
    Task.Task.held w l := Task.Task.held (fst w) l |}.
  - intros w l l' Hp Hh. exact (Task.Task.held_perm _ l l' Hp Hh).
  - intros w l Hh. pose proof (Task.Task.task_alloc_spec (fst w) l Hh) as Ha. destruct (Task.Task.task_alloc (fst w)) as [[a|] p]; exact Ha.
  - intros w a l Hh. exact (Task.Task.task_free_spec _ _ _ Hh).
  - intros w n l Hh. pose proof (Task.Task.stack_alloc_spec (fst w) n l Hh) as Ha. destruct (Task.Task.stack_alloc n (fst w)) as [[s|] p]; exact Ha.
  - intros w s l Hh. exact (Task.Task.stack_free_spec _ _ _ Hh).
  - intros w s l Hh. exact (Task.Task.space_destroy_spec _ _ _ Hh).
Defined.

Definition machine_heap (w : Task.Task.pool * Kmalloc.Kmalloc.heap vmm_state) := snd w.
Definition machine_put (h : Kmalloc.Kmalloc.heap vmm_state) (w : Task.Task.pool * Kmalloc.Kmalloc.heap vmm_state) := (fst w, h).

(** Five megabytes behind the address 0x10000. *)
Definition machine_memory : Kmalloc.Kmalloc.heap vmm_state :=
  snd (Kmalloc.Kmalloc.kmalloc_init (Kmalloc.Kmalloc.boot_heap (mk_vmm (pmm Elf.Elf.load_state) ∅ Elf.Elf.load_root Elf.Elf.load_root []))).

Definition machine_files : Ramfs.Ramfs.ramfs (Kmalloc.Kmalloc.heap vmm_state) :=
  snd (Ramfs.Ramfs.ramfs_write (Some (str "/bin/init")) (Some Elf.Elf.sample_image) (alen Elf.Elf.sample_image) Ramfs.Ramfs.sample_fs).

Definition machine_tasks : Task.Task.scheduler (Task.Task.pool * Kmalloc.Kmalloc.heap vmm_state) :=
  Task.Task.task_init 9000 (Task.Task.mk_scheduler [] 0 1 false 0 0 0 ∅ (Task.Task.mk_pool [] 4096, machine_memory)).

Definition machine_vfs : Vfs.Vfs.vfs (Ramfs.Ramfs.ramfs (Kmalloc.Kmalloc.heap vmm_state) * unit) :=
  let st := VfsCorrect.VfsCorrect.boot_vfs in
  Vfs.Vfs.vfs_init (Vfs.Vfs.mk_vfs (Vfs.Vfs.descriptors st) (Vfs.Vfs.open_files st) (Vfs.Vfs.mounts st) (Vfs.Vfs.pipes st) (machine_files, tt)
    (Vfs.Vfs.terminal st) 0).

Definition machine : kernel :=
  mk_kernel (replicate (Z.to_nat MAX_PROCESSES) (mk_process 0 0 PROCESS_UNUSED 0 None 0 0 0 [] (replicate (Z.to_nat MAX_MMAP_REGIONS) no_region)))
    ∅ ∅ machine_tasks machine_vfs.


(** Init is spawned and waited for; it runs and exits with status 7. *)
Definition machine_ops := VfsCorrect.VfsCorrect.kernel_ops VfsCorrect.VfsCorrect.no_disk.
Definition machine_call := do_call machine_ops fst machine_heap machine_put.
Definition machine_step := life_step machine_ops fst machine_heap machine_put.
Definition spawn_init : life_call := CallSpawn (Some (str "/bin/init")) None.
Definition machine1 := snd (machine_call spawn_init machine).
Definition machine2 := with_tasks machine1 (snd (Task.Task.task_yield 0 100 (k_tasks machine1))).
Definition machine3 := snd (machine_call (CallExit 7 0 200) machine2).
Definition machine4 := snd (wait_pass 1 0 machine3).

Definition machine_trace : list (Z * life_call * outcome) :=
  [(0, spawn_init, Returned 1); (0, CallWait 1, Blocked 0); (1, CallExit 7 0 200, Gone); (0, CallWait 1, Reaped 1 7)].

Lemma machine_scheduled : scheduled machine.
Proof. apply (bool_decide_unpack _). vm_compute. exact I. Qed.
Lemma machine1_scheduled : scheduled machine1.
Proof. apply (bool_decide_unpack _). vm_compute. exact I. Qed.
Lemma machine2_scheduled : scheduled machine2.
Proof. apply (bool_decide_unpack _). vm_compute. exact I. Qed.
Lemma machine3_scheduled : scheduled machine3.
Proof. apply (bool_decide_unpack _). vm_compute. exact I. Qed.

Lemma machine_booted : booted machine.
Proof. split; [reflexivity|]. split; vm_compute; discriminate. Qed.

(** A call by its evaluated parts. *)
Lemma machine_calls k ws c me o k' ws' : scheduled k -> current_id k = me -> next_id k < ID_LIMIT -> ws !! me = None -> fst (machine_call c k) = o ->
  k' = snd (machine_call c k) -> ws' = block me c o ws -> machine_step (k, ws) (Some (me, c, o)) (k', ws').
Proof.
  intros Hs <- Hn Hw <- -> ->. exact (step_call _ _ _ _ k ws c _ _ Hs Hn Hw (surjective_pairing (machine_call c k))).
Qed.

Lemma machine_spawns : machine_step (machine, ∅) (Some (0, spawn_init, Returned 1)) (machine1, ∅).
Proof. apply machine_calls; [exact machine_scheduled | vm_compute; reflexivity.. | unfold machine1; reflexivity | reflexivity]. Qed.

Lemma machine_looks : snd (machine_call (CallWait 1) machine1) = machine1.
Proof.
  assert (Ef : find_process (k_processes machine1) 1 = Some 0) by (vm_compute; reflexivity).
  assert (Ep : ppid (process_at (k_processes machine1) 0) = current_id machine1) by (vm_compute; reflexivity).
  assert (Es : p_state (process_at (k_processes machine1) 0) = PROCESS_RUNNING) by (vm_compute; reflexivity).
  revert Ef Ep Es. generalize machine1. intros k Ef Ep Es.
  unfold machine_call. cbn [do_call]. unfold process_waitpid, wait_pass. by rewrite Ef, Ep, Z.eqb_refl, Es.
Qed.

Lemma machine_waits : machine_step (machine1, ∅) (Some (0, CallWait 1, Blocked 0)) (machine1, {[0 := (1, 0)]}).
Proof. apply machine_calls; [exact machine1_scheduled | vm_compute; reflexivity.. | symmetry; exact machine_looks | reflexivity]. Qed.

Lemma quiet_tasks {W F} (k : kernel (W := W) (F := F)) tasks : Task.Task.next_task_id tasks = next_id k -> next_id k <= ID_LIMIT -> quiet k (with_tasks k tasks).
Proof. intros E Hn. unfold quiet. split; [done|]. unfold next_id at 2 3. cbn [k_tasks with_tasks]. rewrite E. split; [lia | done]. Qed.

Lemma machine_switches : machine_step (machine1, {[0 := (1, 0)]}) None (machine2, {[0 := (1, 0)]}).
Proof.
  apply step_quiet. unfold machine2. apply quiet_tasks; [apply yield_id|].
  assert (E : next_id machine1 = 2) by (vm_compute; reflexivity). rewrite E. by vm_compute.
Qed.

Lemma machine_exits : machine_step (machine2, {[0 := (1, 0)]}) (Some (1, CallExit 7 0 200, Gone)) (machine3, {[0 := (1, 0)]}).
Proof. apply machine_calls; [exact machine2_scheduled | vm_compute; reflexivity.. | unfold machine3; reflexivity | reflexivity]. Qed.

Lemma machine_reaps : machine_step (machine3, {[0 := (1, 0)]}) (Some (0, CallWait 1, Reaped 1 7)) (machine4, ∅).
Proof.
  assert (E : current_id machine3 = 0) by (vm_compute; reflexivity).
  assert (Er : fst (wait_pass 1 0 machine3) = WaitDone 1 7) by (vm_compute; reflexivity).
  pose proof (step_look machine_ops fst machine_heap machine_put machine3 {[0 := (1, 0)]} 1 0 (WaitDone 1 7) machine4) as Hst.
  rewrite E in Hst.
  change (delete 0 _) with (delete 0 ({[0 := (1, 0)]} : gmap Z (Z * Z))) in Hst. rewrite delete_singleton_eq in Hst. apply Hst; [exact machine3_scheduled | reflexivity|].
  unfold machine4. rewrite <- Er. generalize (wait_pass 1 0 machine3). by intros [].
Qed.

#[local] Opaque machine machine1 machine2 machine3 machine4.

Lemma machine_run : life_run machine_ops fst machine_heap machine_put (machine, ∅) machine_trace (machine4, ∅).
Proof.
  refine (run_more _ _ _ _ _ [_; _; _] _ _ _ _ machine_reaps). refine (run_more _ _ _ _ _ [_; _] _ _ _ _ machine_exits).
  refine (run_more _ _ _ _ _ [_; _] _ _ _ _ machine_switches). refine (run_more _ _ _ _ _ [_] _ _ _ _ machine_waits).
  refine (run_more _ _ _ _ _ [] _ _ _ _ machine_spawns). constructor.
Qed.

Lemma lifecycle_refines_witness : exists T, life_spec_run (∅, next_id machine) machine_trace (T, next_id machine4) /\ represents (k_processes machine4) T.
Proof. exact (lifecycle_refines _ _ _ _ _ _ _ _ machine_booted machine_run). Defined.


End ProcessLife.
